(* ===== verification/_CoqProject ===== *)
-Q . S2P
Prelude.v
StdMap.v
FrameCodec.v
StreamParser.v
WebSocket.v
WebSocketProofs.v
Padding.v
Shamir.v
Crypto.v
SenderKeys.v
Ratchet.v
Toy.v
SenderKeysProofs.v
SenderKeysState.v
RatchetProofs.v
RatchetConversation.v
RatchetTheorems.v
ServerStore.v
Relay.v
Directory.v
Username.v
ToySign.v
Wire.v
RelayServer.v
RelayServerInv.v
RelayServerTheorems.v
RelayServerWitness.v
Kademlia.v
ProviderRecords.v
ProviderRecordsProofs.v
RecordStore.v
DhtNode.v
DhtTheorems.v
DhtWitness.v
Handshake.v
HandshakeProofs.v
Identity.v
UsernameLog.v
UsernameLogProofs.v
UsernameGossip.v
OfflineRelay.v
Gossip.v
GossipNet.v
GossipFlood.v
SFrame.v
RoomKeys.v
Topics.v
MediaCall.v
Forwarder.v
ActiveSpeaker.v
Socks5.v
AttachmentFrame.v
Bootstrap.v
SerialBridge.v
LanDiscovery.v
Sql.v
ClientStore.v
ClientStoreKeys.v
ClientStoreSim.v
ClientStoreTyped.v
ClientStoreTheorems.v
ClientProto.v
ChatClient.v
ChatClientRecv.v
ChatClientSend.v
ChatClientApi.v
ChatClientProofs.v
ChatConversation.v
ChatClientFaults.v
ChatClientTheorems.v
ChatClientWitness.v
Mls.v
MlsTheorems.v
MlsWitness.v
PeerNet.v
PeerNetTheorems.v
Bip39.v
Vault.v
WebClient.v
Cli.v
