(* ===== verification/Prelude.v ===== *)
(** * FinBit: a verification development

    FinBit is an end-to-end encrypted chat system.  Its C++ core ([src/core])
    provides the cryptographic sessions, the wire codecs and the peer-to-peer
    layer; a relay server ([src/server]) stores and forwards what clients send;
    desktop, command-line and web clients drive the core.  A message travels
    through these parts: a first contact derives a shared secret from a key
    bundle ([handshake/hybrid.cpp]), the Double Ratchet ([crypto/ratchet.cpp])
    or a group chain ([crypto/sender_keys.cpp]) encrypts it, padding hides its
    length, an envelope carries it in a length-prefixed frame or a WebSocket
    message to the relay server ([server/relay_server.cpp]), which authenticates
    connections, routes by its tables ([server/relay.cpp]) and keeps messages
    for users who are offline; or it travels without a server, where signed
    records in a Kademlia DHT say how to reach a key, a gossip network floods
    channel messages, friends store messages for offline peers and a log of
    signed claims maps names to keys.  Calls seal media frames under keys derived
    from a call or room secret ([media/]) and large rooms elect a forwarder.

    ** Files and the parts they model

    Shared:
    - [Prelude]: results of code that may throw ([result], [let?]), bytes and
      big-endian integers at their width ([u16], [u32], [u64]), tactics and the
      hint databases [finbit].
    - [StdMap]: ordered [std::map] and [std::set] on stdpp's [gmap], with the
      class [OrdKey] for [operator<] and iteration in key order.
    - [StreamParser]: an interface of incremental parsers with the chunking
      theorem that [WebSocket] discharges.
    - [Crypto]: the interfaces of libsodium ([Sodium]) and of the generated
      protobuf classes ([ProtoMsg], [ProtoLaws]); [crypto/hkdf.cpp] and
      [crypto/aead.cpp] on top.
    - [Toy], [ToySign]: concrete instances on which witnesses evaluate.

    Sessions:
    - [Shamir]: [crypto/shamir.cpp] over GF(256); [Padding]: [crypto/padding.cpp].
    - [SenderKeys], [SenderKeysProofs], [SenderKeysState]: group chains, their
      cache of skipped keys and their saved state.
    - [Ratchet], [RatchetProofs], [RatchetConversation], [RatchetTheorems]: the
      Double Ratchet; the conversation file has a network of two parties.
    - [Handshake], [HandshakeProofs]: [handshake/hybrid.cpp] and [crypto/hybrid_kem.cpp]; [Identity]: [crypto/identity.cpp].
    - [Mls], [MlsTheorems], [MlsWitness]: [crypto/mls_facade.cpp], a
      group of mlspp kept as a seed and a log of operations that is replayed.

    Transport:
    - [FrameCodec]: [net/frame_codec.cpp]; [WebSocket], [WebSocketProofs]:
      [net/websocket.cpp].

    Relay server:
    - [ServerStore]: the server tables of [store/sqlite_store.cpp]; [Directory]:
      [server/directory.cpp]; [Username]: the name grammar; [Relay]:
      [server/relay.cpp] and the abstract relay it refines; [Wire]: the frames.
    - [RelayServer], [RelayServerInv], [RelayServerTheorems],
      [RelayServerWitness]: [server/relay_server.cpp], every frame handler, the
      read and write loops and the events of the I/O loop.

    Peer-to-peer:
    - [Kademlia]: [p2p/kademlia.cpp]; [ProviderRecords], [ProviderRecordsProofs],
      [RecordStore]: [p2p/provider_records.cpp]; [DhtNode],
      [DhtTheorems], [DhtWitness]: [p2p/dht_node.cpp].
    - [UsernameLog], [UsernameLogProofs], [UsernameGossip]:
      [identity/username_log.cpp] and [identity/username_gossip.cpp].
    - [OfflineRelay]: [p2p/offline_relay.cpp].
    - [Gossip], [GossipNet], [GossipFlood]:
      [p2p/gossip.cpp], and networks of its nodes joined by byte streams.
    - [Bootstrap]: [p2p/bootstrap.cpp], its modules [Doh] and [Ech]
      [net/doh_resolver.cpp] and [net/ech.cpp]; [LanDiscovery]: [p2p/lan_discovery.cpp];
      [Topics]: [p2p/channel_gossip.cpp].
    - [PeerNet], [PeerNetTheorems]: [p2p/peer_net.cpp], the pool of links with their
      send queues, reader loops and WebSocket mode, and the pin check of
      [net/tls_client.cpp].

    Media:
    - [SFrame]: [media/sframe.cpp] and AES-256-GCM of [crypto/aead.cpp];
      [RoomKeys]: [media/room_keys.cpp] and the list of rotations it refines;
      [MediaCall]: the frame probes and key contexts of the
      desktop client's [media_call.cpp], and [media/track_bindings.cpp].
    - [Forwarder], [ActiveSpeaker]: [media/forwarder.cpp] and
      [media/active_speaker.cpp], with levels as IEEE doubles.

    The client's store ([store/sqlite_store.cpp]):
    - [Sql]: the statements on lists of typed rows; [ClientStore]: every operation
      on the client's tables with encryption at rest; [ClientStoreKeys]: opening,
      migration, rotation of table keys, ratchet of the
      master, and the operations as values and sequences of them.
    - [ClientStoreSim]: the simulation between a store with a
      key and one without; [ClientStoreTyped]: the types of the tables;
      [ClientStoreTheorems]: the results.

    The desktop client's worker ([client-desktop/src/chat_client.cpp]):
    - [ClientProto]: the payloads of direct messages and the helpers that pack and
      seal them; [ChatClient]: sessions, channels, queues and the effects of a
      handler, with the abstract classes of [crypto/mls_facade.hpp] as a parameter.
    - [ChatClientRecv]: [dispatch_envelope] with the sealed-sender pre-pass and every
      payload; [ChatClientSend]: the send loop, key bundles and the post-quantum pin,
      frames of the relay, channel operations; [ChatClientApi]: the calls of the
      user interface and the restoring of channels.
    - [ChatClientProofs], [ChatConversation]: two clients and a network, refining
      [RatchetConversation]; [ChatClientTheorems], [ChatClientFaults],
      [ChatClientWitness]: the results.

    Identities and other clients:
    - [Bip39]: [client-desktop/src/bip39.cpp] with its word list; [Vault]:
      [identity_vault.cpp], the handlers of [login_dialog.cpp] that create, open
      or restore a vault, and those of [shamir_setup_wizard.cpp].
    - [WebClient]: [client-web/wasm-shim/finbit_wasm.cpp], the calls of the page.
    - [Cli]: the modes of [tools/fb-cli/main.cpp] as programs that exchange frames
      with the relay and print.

    Other:
    - [Socks5]: [net/socks5.cpp], with a small logic of conversations (what a
      step reads, writes and returns); [AttachmentFrame]:
      [store/attachment_frame.cpp]; [SerialBridge]: [mesh/serial_bridge.cpp].

    ** How code is translated

    Objects are records, methods are functions on them; a handler translates the
    whole function with its early returns.  Exceptions are values of [result].
    Integers are [Z] with the wrap-around of their type written out.  Callbacks
    are effects that a handler returns.  What the system provides is an argument:
    the clock, random bytes, the results of [read] and [write].  An
    [unordered_map] is a [gmap] where the order of visits cannot show.

    ** What the theorems show

    - Sessions: two ratchets over a network that reorders, drops and injects
      decrypt what was sent; group messages are delivered exactly once; first
      contact gives both sides the same ratchet; any threshold of Shamir shares
      reconstructs and fewer reveal nothing; a bundle cannot be downgraded in
      part.  Where the code falls short a theorem says so: an initiator accepts
      forgeries, a replay destroys the next message, the signed prekey of a
      classical bundle is not authenticated, a fingerprint has 40 bits.
    - MLS: a group restored from seed and log is the group again, with the same
      epoch, members and room secret, when its log can be repeated; removals cannot
      (their encapsulations are random and not logged), and the generations of
      messages are lost, so that peers reject what a restored member sends next.
    - Relay server: in every reachable state routes lead to authenticated
      connections, direct and channel messages reach exactly their recipients
      with the sender's key, offline messages are delivered in order, a
      connection before authentication influences nobody, the read loops end;
      the tables refine an abstract relay.
    - DHT: stores hold only validly signed, unexpired records; a published record
      is found by a node that looks it up; routing tables stay in bounds and
      answer with the nearest peers.
    - Names: logs that received the same claims agree on the oldest; paging
      transfers a log.
    - Gossip: publications flood a mesh exactly once and the flood ends.
    - Peer links: a link delivers exactly what left its queue, raw or over
      WebSocket; an address whose link was lost is never dialled again.
    - Media: a room's frames open at members that know the epoch, and the key
      registry answers as its history says; members of a call agree on who dials
      whom; video tiers follow loudness.  Both directions of a call, however, use
      the same keys and nonces.
    - The client's store: encryption at rest, rotations, ratchets and restarts are
      invisible to the caller; what is on disk is always sealed under keys the
      file yields again; a ratchet leaves nothing under old keys; rows keep their
      types.  A migration keeps messages but misses channels and groups.
    - The desktop client: two clients that start from a key bundle deliver each
      other's texts under the right identity, through first contact, named and
      sealed envelopes, whatever the network reorders or loses, and every such run is
      a run of the two ratchets; a sealed text is attributed only to a peer who
      signed it for this client; a pinned identity never falls back to a bundle
      without a KEM key.  The theorems also say where conversations break: a waiting
      message loses the queue behind it, a reply by name may never leave, a restart
      or a forged first envelope silences a peer, a channel shows its first 1001
      messages only, and under any sender the envelope names.
    - Identities: a recovery phrase gives its seed back and no other text does; a
      phrase, a code or enough shares restore the identity and its vault; opening a
      vault takes the same work whatever the passphrase; vaults of the web and the
      desktop client are interchangeable.
    - Other clients: pages deliver each other's messages; what one command-line
      client sends another prints, invitations and channel messages included, and a
      call offer is answered; enough printed shares combine to the secret.
    - Bootstrap: the peers of a resolver's JSON answer are read, whatever its texts
      contain; ECH lists are accepted exactly when well framed.
    - Other: the SOCKS5 handshake takes exactly its own bytes from the stream;
      attachments, bootstrap lists, beacons and serial frames read back.

    ** Fuel and bounds

    Loops that are not structural take fuel: draining a decoder takes one unit
    per buffered byte and a frame has at least four ([FrameCodec.pop_loop_fuel],
    [Gossip]'s [drain_complete]); advancing a chain is bounded by the limit of
    1000 skipped keys that the code checks first; the page loop of the username
    log needs one round more than there are claims, which is part of the
    theorem.  The theorem on network termination has no fuel: it is
    accessibility of the step relation.

    ** Parameters and hypotheses

    Code that is not in the repository is a class with its documented laws:
    libsodium (AEAD opens what it seals, Diffie-Hellman commutes, signatures of
    the key pair verify), ML-KEM and ML-DSA (decapsulation and verification
    succeed), SHA-256, the protobuf codec (parsing inverts serialising on
    messages whose fields are in range), SQL's [ORDER BY] (a sorted
    permutation), mlspp (states of one epoch behave alike apart from message
    ratchets; paths and generations as in RFC 9420), Argon2 (deterministic), Qt's text
    functions (on ASCII), base64.  Each that a property uses has an instance on which the witnesses evaluate.

    ** Not modelled

    Input and output itself (sockets, TLS, epoll, threads, disk errors), libraries
    behind a thin wrapper (OpenSSL, Brotli), wiping of secrets, the Qt widgets and call pipelines of the
    desktop client, its overlay transports (the worker is modelled as a client of
    the relay), the argument parsing of the tools, the Android bindings.  The mutexes of the core make every operation one step; only in
    [Gossip], where the code locks a mutex twice, is the lock part of the model.
    The rate limiter computes with doubles; its verdict is an argument of the
    server model. *)
From Stdlib Require Export ZArith Lia.
From Stdlib Require Strings.Byte.
From stdpp Require Export sorting gmap list option numbers strings prelude.
#[export] Set Warnings "-clear-no-such-hyp,-abstract-large-number".
Open Scope Z_scope.

(** ** Automation of the development *)

Create HintDb finbit.
Create Rewrite HintDb finbit.

(** A decidable closed goal, decided by evaluation. *)
Ltac by_computing := apply (bool_decide_unpack _); vm_compute; exact I.

(** Split every [if]/[match] of the goal, keeping the equations. *)
Ltac case_all :=
  repeat (case_match; simplify_eq/=).

(** Turn the boolean tests of the code into propositions. *)
Ltac bool_props :=
  repeat match goal with
  | H : andb _ _ = true |- _ => apply andb_true_iff in H; destruct H
  | H : orb _ _ = false |- _ => apply orb_false_iff in H; destruct H
  | H : negb _ = true |- _ => apply negb_true_iff in H
  | H : negb _ = false |- _ => apply negb_false_iff in H
  | H : (_ <? _) = true |- _ => apply Z.ltb_lt in H
  | H : (_ <? _) = false |- _ => apply Z.ltb_ge in H
  | H : (_ <=? _) = true |- _ => apply Z.leb_le in H
  | H : (_ <=? _) = false |- _ => apply Z.leb_gt in H
  | H : (_ =? _) = true |- _ => apply Z.eqb_eq in H
  | H : (_ =? _) = false |- _ => apply Z.eqb_neq in H
  | H : bool_decide _ = true |- _ => apply bool_decide_eq_true in H
  | H : bool_decide _ = false |- _ => apply bool_decide_eq_false in H
  end.

(** ** Exceptions: a C++ function that may throw *)

Inductive result (E A : Type) : Type :=
| Ok (a : A)
| Throw (e : E).
Arguments Ok {E A} a.
Arguments Throw {E A} e.

Definition rbind {E A B} (m : result E A) (k : A -> result E B) : result E B :=
  match m with
  | Ok a => k a
  | Throw e => Throw e
  end.

Declare Scope finbit_scope.
Delimit Scope finbit_scope with finbit.
Notation "'let?' x := m 'in' k" := (rbind m (fun x => k))
  (at level 10, x pattern, m at level 100, k at level 200) : finbit_scope.
Open Scope finbit_scope.

(** ** Bytes: [std::uint8_t] *)

Abbreviation byte := Byte.byte.
Abbreviation bytes := (list Byte.byte).

Definition b2z (b : byte) : Z := Z.of_N (Byte.to_N b).

(** [static_cast<std::uint8_t>(z)] *)
Definition z2b (z : Z) : byte :=
  match Byte.of_N (Z.to_N (z mod 256)) with
  | Some b => b
  | None => Byte.x00
  end.

#[export] Instance byte_eq_dec : EqDecision byte.
Proof. intros a b. destruct (Byte.byte_eq_dec a b); [left|right]; assumption. Defined.

Lemma b2z_range (b : byte) : 0 <= b2z b < 256.
Proof. unfold b2z. pose proof (Byte.to_N_bounded b). lia. Qed.

Lemma b2z_z2b (z : Z) : b2z (z2b z) = z mod 256.
Proof.
  unfold b2z, z2b. pose proof (Z.mod_pos_bound z 256 ltac:(lia)) as Hb.
  destruct (Byte.of_N (Z.to_N (z mod 256))) as [b|] eqn:E.
  - apply Byte.to_of_N in E. rewrite E. lia.
  - apply Byte.of_N_None_iff in E. lia.
Qed.

Lemma b2z_inj (a b : byte) : b2z a = b2z b -> a = b.
Proof.
  unfold b2z. intros H. apply N2Z.inj in H.
  pose proof (Byte.of_to_N a) as Ha. pose proof (Byte.of_to_N b) as Hb.
  rewrite H in Ha. congruence.
Qed.

Lemma z2b_b2z (b : byte) : z2b (b2z b) = b.
Proof.
  apply b2z_inj. rewrite b2z_z2b. apply Z.mod_small, b2z_range.
Qed.

Lemma b2z_z2b_small (z : Z) : 0 <= z < 256 -> b2z (z2b z) = z.
Proof. intros. rewrite b2z_z2b. by apply Z.mod_small. Qed.

#[export] Instance byte_countable : Countable byte.
Proof.
  refine (inj_countable' (fun b => b2z b) z2b _). intros b. apply z2b_b2z.
Defined.

(** ** Machine integers *)

Definition u16_max : Z := 65536.
Definition u32_max : Z := 4294967296.
Definition u64_max : Z := 18446744073709551616.

(** Wrap-around of the unsigned types. *)
Definition u16 (z : Z) : Z := z mod u16_max.
Definition u32 (z : Z) : Z := z mod u32_max.
Definition u64 (z : Z) : Z := z mod u64_max.

Definition is_u32 (z : Z) : Prop := 0 <= z < u32_max.
Definition is_u64 (z : Z) : Prop := 0 <= z < u64_max.

Ltac unfold_words := unfold is_u32, is_u64, u16, u32, u64, u16_max, u32_max, u64_max in *.

Lemma u32_small (z : Z) : is_u32 z -> u32 z = z.
Proof. unfold_words. intros. by apply Z.mod_small. Qed.
Lemma u64_small (z : Z) : is_u64 z -> u64 z = z.
Proof. unfold_words. intros. by apply Z.mod_small. Qed.
Lemma is_u32_u32 (z : Z) : is_u32 (u32 z).
Proof. unfold_words. apply Z.mod_pos_bound. lia. Qed.
Lemma is_u64_u64 (z : Z) : is_u64 (u64 z).
Proof. unfold_words. apply Z.mod_pos_bound. lia. Qed.
#[export] Hint Resolve is_u32_u32 is_u64_u64 b2z_range : finbit.

(** ** Big-endian codecs

    Every wire format of the code writes integers most-significant byte first,
    one [push_back((v >> s) & 0xff)] per byte, and reads them back with
    [(acc << 8) | byte]. *)

(** The [n] low bytes of [v], most significant first. *)
Fixpoint be_bytes (n : nat) (v : Z) : bytes :=
  match n with
  | O => []
  | S n' => z2b (Z.land (Z.shiftr v (8 * Z.of_nat n')) 255) :: be_bytes n' v
  end.

Definition be_step (acc : Z) (b : byte) : Z := Z.lor (Z.shiftl acc 8) (b2z b).

Definition be_value (l : bytes) : Z := foldl be_step 0 l.

(** [u32_be] / [put_u32_be] / [be_u32] of the sources. *)
Definition put_u32_be (v : Z) : bytes :=
  [ z2b (Z.land (Z.shiftr v 24) 255); z2b (Z.land (Z.shiftr v 16) 255);
    z2b (Z.land (Z.shiftr v 8) 255); z2b (Z.land v 255) ].

(** The unrolled four-byte read of the sources. *)
Definition rd_u32 (b0 b1 b2 b3 : byte) : Z :=
  Z.lor (Z.lor (Z.lor (Z.shiftl (b2z b0) 24) (Z.shiftl (b2z b1) 16))
               (Z.shiftl (b2z b2) 8)) (b2z b3).

Lemma lor_shiftl_add (a b k : Z) :
  0 <= k -> 0 <= a -> 0 <= b < 2 ^ k -> Z.lor (Z.shiftl a k) b = a * 2 ^ k + b.
Proof.
  intros Hk Ha Hb. rewrite <- Z.shiftl_mul_pow2 by lia.
  rewrite <- Z.lxor_lor, Z.add_nocarry_lxor; [done| |];
    apply Z.bits_inj'; intros n Hn; rewrite Z.land_spec, Z.bits_0;
    rewrite Z.shiftl_spec by lia;
    (destruct (decide (n < k)); [rewrite (Z.testbit_neg_r a) by lia; done|]);
    rewrite <- (Z.mod_small b (2 ^ k)) by lia;
    rewrite Z.mod_pow2_bits_high by lia; apply andb_false_r.
Qed.

Lemma land_255 (z : Z) : Z.land z 255 = z mod 256.
Proof. change 255 with (Z.ones 8). rewrite Z.land_ones by lia. done. Qed.

Lemma be_step_add (acc : Z) (b : byte) :
  0 <= acc -> be_step acc b = acc * 256 + b2z b.
Proof. intros. apply (lor_shiftl_add _ _ 8); [lia..|]. apply b2z_range. Qed.

Lemma length_be_bytes (n : nat) (v : Z) : length (be_bytes n v) = n.
Proof. induction n; simpl; auto. Qed.

Lemma put_u32_be_eq (v : Z) : put_u32_be v = be_bytes 4 v.
Proof. unfold put_u32_be. simpl. by rewrite Z.shiftr_0_r. Qed.

Lemma length_put_u32_be (v : Z) : length (put_u32_be v) = 4%nat.
Proof. done. Qed.

Lemma foldl_be_step (l : bytes) (acc : Z) :
  0 <= acc ->
  foldl be_step acc l = acc * 256 ^ Z.of_nat (length l) + be_value l
  /\ 0 <= be_value l < 256 ^ Z.of_nat (length l).
Proof.
  unfold be_value. revert acc. induction l as [|b l IH]; intros acc Hacc; simpl.
  - split; [|done]. lia.
  - rewrite Nat2Z.inj_succ, Z.pow_succ_r by lia.
    pose proof (b2z_range b) as Hb.
    rewrite !be_step_add by lia.
    destruct (IH (acc * 256 + b2z b)) as [-> Hl]; [nia|].
    destruct (IH (0 * 256 + b2z b)) as [-> _]; [lia|].
    split; nia.
Qed.

Lemma be_value_range (l : bytes) : 0 <= be_value l < 256 ^ Z.of_nat (length l).
Proof. by destruct (foldl_be_step l 0). Qed.

Lemma be_value_cons (b : byte) (l : bytes) :
  be_value (b :: l) = b2z b * 256 ^ Z.of_nat (length l) + be_value l.
Proof.
  pose proof (b2z_range b). unfold be_value at 1. simpl.
  rewrite be_step_add by lia.
  destruct (foldl_be_step l (0 * 256 + b2z b)) as [-> _]; lia.
Qed.

Lemma be_value_be_bytes_mod (n : nat) (v : Z) :
  be_value (be_bytes n v) = v mod 256 ^ Z.of_nat n.
Proof.
  induction n as [|n IH]; simpl be_bytes.
  - by rewrite Z.mod_1_r.
  - rewrite be_value_cons, length_be_bytes, IH, b2z_z2b, land_255, Z.mod_mod by lia.
    rewrite Z.shiftr_div_pow2, Nat2Z.inj_succ, Z.pow_succ_r by lia.
    replace (2 ^ (8 * Z.of_nat n)) with (256 ^ Z.of_nat n) by (rewrite Z.pow_mul_r by lia; done).
    rewrite (Z.mul_comm 256). rewrite Z.rem_mul_r by lia. lia.
Qed.

Lemma be_value_be_bytes (n : nat) (v : Z) :
  0 <= v < 256 ^ Z.of_nat n -> be_value (be_bytes n v) = v.
Proof. intros. rewrite be_value_be_bytes_mod. by apply Z.mod_small. Qed.

Lemma be_value_inj (l1 l2 : bytes) :
  length l1 = length l2 -> be_value l1 = be_value l2 -> l1 = l2.
Proof.
  revert l2. induction l1 as [|a l1 IH]; intros [|b l2] Hlen Hv; simpl in Hlen; try done.
  injection Hlen as Hlen. rewrite !be_value_cons, Hlen in Hv.
  pose proof (be_value_range l1) as H1. pose proof (be_value_range l2) as H2.
  rewrite Hlen in H1. pose proof (b2z_range a). pose proof (b2z_range b).
  assert (b2z a = b2z b) as Hab by nia.
  f_equal; [by apply b2z_inj|]. apply IH; [done|]. rewrite Hab in Hv. lia.
Qed.

Lemma be_bytes_be_value (l : bytes) : be_bytes (length l) (be_value l) = l.
Proof.
  apply be_value_inj; [apply length_be_bytes|].
  apply be_value_be_bytes, be_value_range.
Qed.

Lemma be_bytes_inj (n : nat) (a b : Z) :
  0 <= a < 256 ^ Z.of_nat n -> 0 <= b < 256 ^ Z.of_nat n ->
  be_bytes n a = be_bytes n b -> a = b.
Proof.
  intros Ha Hb H. rewrite <- (be_value_be_bytes n a), <- (be_value_be_bytes n b) by lia.
  by rewrite H.
Qed.

Lemma rd_u32_be_value (b0 b1 b2 b3 : byte) :
  rd_u32 b0 b1 b2 b3 = be_value [b0; b1; b2; b3].
Proof.
  unfold rd_u32. rewrite !be_value_cons. simpl. unfold be_value; simpl.
  pose proof (b2z_range b0). pose proof (b2z_range b1).
  pose proof (b2z_range b2). pose proof (b2z_range b3).
  assert (forall a b c k, 0 <= k -> Z.lor (Z.lor a (Z.shiftl b k)) c =
    Z.lor a (Z.lor (Z.shiftl b k) c)) as Hassoc by (intros; by rewrite Z.lor_assoc).
  rewrite !Hassoc by lia.
  rewrite (lor_shiftl_add (b2z b2) (b2z b3) 8) by lia.
  rewrite (lor_shiftl_add (b2z b1)) by lia.
  rewrite (lor_shiftl_add (b2z b0)) by lia. lia.
Qed.

Lemma rd_u32_put (v : Z) :
  is_u32 v ->
  rd_u32 (z2b (Z.land (Z.shiftr v 24) 255)) (z2b (Z.land (Z.shiftr v 16) 255))
         (z2b (Z.land (Z.shiftr v 8) 255)) (z2b (Z.land v 255)) = v.
Proof.
  intros Hv. rewrite rd_u32_be_value. fold (put_u32_be v). rewrite put_u32_be_eq.
  apply be_value_be_bytes. unfold_words. lia.
Qed.

Lemma rd_u32_range (b0 b1 b2 b3 : byte) : is_u32 (rd_u32 b0 b1 b2 b3).
Proof.
  rewrite rd_u32_be_value. pose proof (be_value_range [b0; b1; b2; b3]) as H.
  unfold_words. simpl in H. lia.
Qed.
#[export] Hint Resolve rd_u32_range : finbit.

(** ** Sizes of finite sets *)

Lemma size_list_to_set_le `{Countable A} (l : list A) :
  (size (list_to_set l : gset A) <= length l)%nat.
Proof.
  induction l as [|x l IH]; [by rewrite list_to_set_nil, size_empty|].
  rewrite list_to_set_cons, size_union_alt, size_singleton. simpl.
  apply le_n_S. etrans; [|exact IH]. apply subseteq_size. set_solver.
Qed.

Lemma size_set_map_le `{Countable A, Countable B} (f : A -> B) (X : gset A) :
  (size (set_map (D := gset B) f X) <= size X)%nat.
Proof.
  unfold set_map. etrans; [apply size_list_to_set_le|]. by rewrite length_fmap.
Qed.

Lemma Forall2_impl_l {A B} (P Q : A -> B -> Prop) l k :
  Forall2 P l k -> (forall x y, x ∈ l -> P x y -> Q x y) -> Forall2 Q l k.
Proof.
  induction 1 as [|x y l k Hxy _ IH]; intros Himp; constructor; [apply Himp; [left|done]|].
  apply IH. intros. apply Himp; [by right|done].
Qed.

Lemma StronglySorted_take_drop {A} (R : A -> A -> Prop) n (l : list A) p q :
  StronglySorted R l -> p ∈ take n l -> q ∈ drop n l -> R p q.
Proof.
  revert n. induction l as [|x l IH]; intros n Hs Hp Hq; [destruct n; by apply not_elem_of_nil in Hp|].
  destruct n as [|n]; [by apply not_elem_of_nil in Hp|]. cbn in Hp, Hq.
  apply StronglySorted_inv in Hs as [Hs Hx]. apply elem_of_cons in Hp as [->|Hp]; [|by apply (IH n)].
  rewrite Forall_forall in Hx. apply Hx. rewrite <- (take_drop n l), elem_of_app. by right.
Qed.

Lemma StronglySorted_take {A} (R : A -> A -> Prop) n (l : list A) :
  StronglySorted R l -> StronglySorted R (take n l).
Proof.
  intros Hs. revert n. induction Hs as [|x l Hs IH Hx]; intros [|n]; try constructor; [apply IH|].
  apply Forall_take. done.
Qed.

(** ** Text

    The code's [std::string]s are byte strings; literals are written as Rocq
    strings. *)
Definition str (s : string) : bytes := String.list_byte_of_string s.

(** [a ^ b] on [std::uint8_t]. *)
Definition byte_xor (a b : byte) : byte := z2b (Z.lxor (b2z a) (b2z b)).

Lemma byte_xor_involutive (a b : byte) : byte_xor (byte_xor a b) b = a.
Proof.
  unfold byte_xor. pose proof (b2z_range a). pose proof (b2z_range b).
  rewrite b2z_z2b_small.
  - by rewrite Z.lxor_assoc, Z.lxor_nilpotent, Z.lxor_0_r, z2b_b2z.
  - assert (Z.lxor (b2z a) (b2z b) = Z.lxor (b2z a) (b2z b) mod 2 ^ 8) as ->.
    { rewrite <- Z.land_ones by lia. apply Z.bits_inj'. intros n Hn.
      rewrite Z.land_spec, Z.testbit_ones_nonneg by lia.
      destruct (Z.ltb_spec n 8); [by rewrite andb_true_r|]. rewrite andb_false_r.
      rewrite Z.lxor_spec. rewrite <- (Z.mod_small (b2z a) (2 ^ 8)) by lia.
      rewrite <- (Z.mod_small (b2z b) (2 ^ 8)) by lia.
      by rewrite !Z.mod_pow2_bits_high by lia. }
    apply Z.mod_pos_bound. lia.
Qed.
