(* ===== verification/StdMap.v ===== *)
(** * Ordered associative containers

    [std::map] and [std::set] of the sources are modelled by stdpp's [gmap] and
    [gset], whose lemmas carry the lookups; what [gmap] lacks is the iteration
    order, which the code uses when it serialises a map, evicts
    [erase(begin())] or walks a set.  A key type therefore comes with the order
    of its C++ [operator<] (class [OrdKey]), and [map_elements] lists a map the
    way a range-for loop over it does. *)
From S2P Require Import Prelude.

(** ** Total orders on keys *)

Class OrdKey (K : Type) := {
  key_leb : K -> K -> bool;
  key_leb_total : forall a b, key_leb a b = true \/ key_leb b a = true;
  key_leb_trans : forall a b c,
    key_leb a b = true -> key_leb b c = true -> key_leb a c = true;
  key_leb_antisym : forall a b, key_leb a b = true -> key_leb b a = true -> a = b;
}.

Definition key_ltb `{OrdKey K} (a b : K) : bool := negb (key_leb b a).

Lemma key_leb_refl `{OrdKey K} (a : K) : key_leb a a = true.
Proof. by destruct (key_leb_total a a). Qed.

Lemma key_ltb_iff `{OrdKey K} (a b : K) :
  key_ltb a b = true <-> key_leb a b = true /\ a <> b.
Proof.
  unfold key_ltb. split.
  - intros Hn%negb_true_iff. split.
    + destruct (key_leb_total a b); congruence.
    + intros ->. rewrite key_leb_refl in Hn. done.
  - intros [Hle Hne]. apply negb_true_iff, not_true_iff_false. intros Hge.
    apply Hne, key_leb_antisym; done.
Qed.

Lemma key_ltb_irrefl `{OrdKey K} (a : K) : key_ltb a a = false.
Proof. unfold key_ltb. by rewrite key_leb_refl. Qed.

Lemma key_ltb_ge `{OrdKey K} (a b : K) : key_ltb a b = false <-> key_leb b a = true.
Proof. unfold key_ltb. by rewrite negb_false_iff. Qed.

#[export] Instance Z_ord : OrdKey Z.
Proof.
  refine {| key_leb := Z.leb |}; intros *; rewrite ?Z.leb_le; lia.
Defined.

#[export] Instance byte_ord : OrdKey byte.
Proof.
  refine {| key_leb := fun a b => b2z a <=? b2z b |}; intros *; rewrite ?Z.leb_le;
    [lia|lia|]. intros. apply b2z_inj. lia.
Defined.

(** Lexicographic order: [std::vector], [std::array] and [std::string]
    (the latter compares [unsigned char]s). *)
Fixpoint list_leb {K} `{OrdKey K} (l1 l2 : list K) : bool :=
  match l1, l2 with
  | [], _ => true
  | _ :: _, [] => false
  | a :: l1', b :: l2' => if key_leb a b then (if key_leb b a then list_leb l1' l2' else true)
                          else false
  end.

#[export] Instance list_ord `{OrdKey K} : OrdKey (list K).
Proof.
  refine {| key_leb := list_leb |}.
  - induction a as [|x a IH]; intros [|y b]; simpl; auto.
    destruct (key_leb_total x y); destruct (key_leb x y), (key_leb y x); auto.
  - induction a as [|x a IH]; intros [|y b] [|z c]; simpl; auto; try done.
    destruct (key_leb x y) eqn:Exy; [|done]. destruct (key_leb y z) eqn:Eyz; [|by case_match].
    rewrite (key_leb_trans x y z) by done.
    destruct (key_leb z x) eqn:Ezx; [|by intros].
    rewrite (key_leb_trans z x y), (key_leb_trans y z x) by done. apply IH.
  - induction a as [|x a IH]; intros [|y b]; simpl; try done.
    destruct (key_leb x y) eqn:Exy, (key_leb y x) eqn:Eyx; try done.
    intros H1 H2. f_equal; [by apply key_leb_antisym|by apply IH].
Defined.

(** [std::pair] compares its components in order. *)
#[export] Instance prod_ord `{OrdKey A, OrdKey B} : OrdKey (A * B).
Proof.
  refine {| key_leb := fun p q =>
    if key_leb p.1 q.1 then (if key_leb q.1 p.1 then key_leb p.2 q.2 else true) else false |}.
  - intros [a b] [a' b']; simpl.
    destruct (key_leb_total a a'); destruct (key_leb a a'), (key_leb a' a); auto;
      apply key_leb_total.
  - intros [a b] [a' b'] [a'' b'']; simpl.
    destruct (key_leb a a') eqn:E1; [|done]. destruct (key_leb a' a'') eqn:E2; [|by case_match].
    rewrite (key_leb_trans a a' a'') by done.
    destruct (key_leb a'' a) eqn:E3; [|by intros].
    rewrite (key_leb_trans a'' a a'), (key_leb_trans a' a'' a) by done. apply key_leb_trans.
  - intros [a b] [a' b']; simpl.
    destruct (key_leb a a') eqn:E1, (key_leb a' a) eqn:E2; try done.
    intros. f_equal; by apply key_leb_antisym.
Defined.

Lemma key_leb_pair `{OrdKey A, OrdKey B} (a : A) (b b' : B) :
  key_leb (a, b) (a, b') = key_leb b b'.
Proof. cbn [key_leb prod_ord fst snd]. by rewrite key_leb_refl. Qed.

(** ** Iteration in key order *)

Section elements.
Context `{Countable K, !OrdKey K} {V : Type}.
Implicit Types (m : gmap K V) (l : list (K * V)).

Definition pair_le (p q : K * V) : Prop := key_leb p.1 q.1 = true.
#[global] Instance pair_le_dec : RelDecision pair_le.
Proof. intros p q. unfold pair_le. apply _. Defined.
#[global] Instance pair_le_total : Total pair_le.
Proof. intros p q. apply key_leb_total. Qed.
#[global] Instance pair_le_trans : Transitive pair_le.
Proof. intros p q r. apply key_leb_trans. Qed.

(** [for (auto& [k, v] : m)] visits the pairs in this order. *)
Definition map_elements (m : gmap K V) : list (K * V) := merge_sort pair_le (map_to_list m).

(** [m.begin()] *)
Definition map_begin (m : gmap K V) : option (K * V) := head (map_elements m).

(** [m.erase(m.begin())] *)
Definition erase_begin (m : gmap K V) : gmap K V :=
  match map_begin m with
  | Some (k, _) => delete k m
  | None => m
  end.

Lemma map_elements_perm m : map_elements m ≡ₚ map_to_list m.
Proof. apply merge_sort_Permutation. Qed.

Lemma map_elements_sorted m : StronglySorted pair_le (map_elements m).
Proof. apply StronglySorted_merge_sort; apply _. Qed.

Lemma elem_of_map_elements m k v : (k, v) ∈ map_elements m <-> m !! k = Some v.
Proof. by rewrite map_elements_perm, elem_of_map_to_list. Qed.

Lemma length_map_elements m : length (map_elements m) = size m.
Proof. by rewrite map_elements_perm, length_map_to_list. Qed.

Lemma NoDup_map_elements m : NoDup (map_elements m).*1.
Proof. rewrite map_elements_perm. apply NoDup_fst_map_to_list. Qed.

Lemma list_to_map_elements m : list_to_map (map_elements m) = m.
Proof.
  rewrite (list_to_map_proper _ (map_to_list m) (NoDup_map_elements m) (map_elements_perm m)).
  apply list_to_map_to_list.
Qed.

(** A strictly sorted list is the only one with its lookups. *)
Lemma map_elements_unique l m :
  StronglySorted pair_le l -> NoDup l.*1 -> list_to_map l = m -> map_elements m = l.
Proof.
  intros Hs Hnd <-.
  assert (map_elements (list_to_map l) ≡ₚ l) as Hp
    by (rewrite map_elements_perm; by apply map_to_list_to_map).
  pose proof (map_elements_sorted (list_to_map l)) as Hs'.
  assert (NoDup (map_elements (list_to_map l)).*1) as Hnd' by apply NoDup_map_elements.
  revert Hs' Hnd' Hp. generalize (map_elements (list_to_map l : gmap K V)) as l'.
  induction l as [|p l IH]; intros l' Hs' Hnd' Hp.
  { by apply Permutation_nil_r in Hp as ->. }
  destruct l' as [|q l'].
  { apply Permutation_length in Hp. done. }
  apply StronglySorted_inv in Hs as [Hs Hp0]. apply StronglySorted_inv in Hs' as [Hs' Hq0].
  assert (p = q) as <-.
  { assert (q ∈ p :: l) as Hq by (rewrite <- Hp; left).
    assert (p ∈ q :: l') as Hp' by (rewrite Hp; left).
    apply elem_of_cons in Hq as [->|Hq]; [done|].
    apply elem_of_cons in Hp' as [->|Hp']; [done|].
    rewrite Forall_forall in Hp0, Hq0.
    specialize (Hp0 _ Hq). specialize (Hq0 _ Hp').
    exfalso. apply NoDup_cons in Hnd as [Hnd _]. apply Hnd.
    rewrite (key_leb_antisym p.1 q.1) by done. by apply list_elem_of_fmap_2. }
  f_equal. apply NoDup_cons in Hnd as [_ Hnd]. apply NoDup_cons in Hnd' as [_ Hnd'].
  apply Permutation_cons_inv in Hp. by apply IH.
Qed.

Lemma map_begin_Some m k v :
  map_begin m = Some (k, v) ->
  m !! k = Some v /\ forall k' v', m !! k' = Some v' -> key_leb k k' = true.
Proof.
  unfold map_begin. destruct (map_elements m) as [|p l] eqn:E; [done|].
  simpl. intros [= ->]. split.
  - apply elem_of_map_elements. rewrite E. left.
  - intros k' v' Hk'. apply elem_of_map_elements in Hk'. rewrite E in Hk'.
    pose proof (map_elements_sorted m) as Hs. rewrite E in Hs.
    apply StronglySorted_inv in Hs as [_ Hall]. rewrite Forall_forall in Hall.
    apply elem_of_cons in Hk' as [[= -> ->]|Hk']; [apply key_leb_refl|].
    by apply (Hall (k', v')).
Qed.

Lemma map_begin_None m : map_begin m = None <-> m = ∅.
Proof.
  unfold map_begin. rewrite head_None. split.
  - intros E. apply map_size_empty_iff. by rewrite <- length_map_elements, E.
  - intros ->. unfold map_elements. by rewrite map_to_list_empty.
Qed.

Lemma size_erase_begin m : size (erase_begin m) = pred (size m).
Proof.
  unfold erase_begin. destruct (map_begin m) as [[k v]|] eqn:E.
  - apply map_begin_Some in E as [E _]. rewrite map_size_delete, E. lia.
  - apply map_begin_None in E as ->. by rewrite map_size_empty.
Qed.

Lemma lookup_erase_begin_Some m k v :
  erase_begin m !! k = Some v -> m !! k = Some v.
Proof.
  unfold erase_begin. case_match; [|done]. case_match. rewrite lookup_delete.
  by case_decide.
Qed.
End elements.

(** [for (auto& x : s)] over a [std::set]. *)
Section set_elements.
Context `{Countable K, !OrdKey K}.

Definition key_le (a b : K) : Prop := key_leb a b = true.
#[global] Instance key_le_dec : RelDecision key_le.
Proof. intros p q. unfold key_le. apply _. Defined.
#[global] Instance key_le_total : Total key_le.
Proof. intros p q. apply key_leb_total. Qed.
#[global] Instance key_le_trans : Transitive key_le.
Proof. intros p q r. apply key_leb_trans. Qed.
#[global] Instance key_le_antisymm : AntiSymm (=) key_le.
Proof. intros p q. apply key_leb_antisym. Qed.

Definition set_elements (s : gset K) : list K := merge_sort key_le (elements s).

Lemma set_elements_perm s : set_elements s ≡ₚ elements s.
Proof. apply merge_sort_Permutation. Qed.
Lemma elem_of_set_elements s x : x ∈ set_elements s <-> x ∈ s.
Proof. by rewrite set_elements_perm, elem_of_elements. Qed.
Lemma NoDup_set_elements s : NoDup (set_elements s).
Proof. rewrite set_elements_perm. apply NoDup_elements. Qed.
Lemma set_elements_sorted s : StronglySorted key_le (set_elements s).
Proof. apply StronglySorted_merge_sort; apply _. Qed.
Lemma length_set_elements s : length (set_elements s) = size s.
Proof. by rewrite set_elements_perm. Qed.
End set_elements.

#[export] Hint Rewrite @elem_of_map_elements @length_map_elements @elem_of_set_elements
  @length_set_elements : finbit.

(** ** Loops that rewrite a map while they walk it

    [for (it = m.begin(); it != m.end();)] with [it = m.erase(it)] or an update
    of [it->second]: every entry is visited once, in key order. *)
Section update_loop.
Context `{Countable K, !OrdKey K} {V : Type}.
Implicit Types (m : gmap K V) (f : K -> V -> option V).

Definition update_step f m (kv : K * V) : gmap K V :=
  match f kv.1 kv.2 with
  | Some v => <[kv.1 := v]> m
  | None => delete kv.1 m
  end.

Definition update_loop f m : gmap K V := foldl (update_step f) m (map_elements m).

Lemma lookup_update_step_ne f m kv k : kv.1 <> k -> update_step f m kv !! k = m !! k.
Proof.
  intros Hne. unfold update_step. case_match; [by rewrite lookup_insert_ne|by rewrite lookup_delete_ne].
Qed.

Lemma lookup_update_step_eq f m kv : update_step f m kv !! kv.1 = f kv.1 kv.2.
Proof. unfold update_step. case_match; [by rewrite lookup_insert_eq|by rewrite lookup_delete_eq]. Qed.

Lemma lookup_update_steps_notin f l m k :
  k ∉ l.*1 -> foldl (update_step f) m l !! k = m !! k.
Proof.
  revert m. induction l as [|kv l IH]; intros m Hk; [done|]. rewrite fmap_cons, not_elem_of_cons in Hk.
  destruct Hk as [Hne Hk]. cbn [foldl]. rewrite IH by done. by apply lookup_update_step_ne.
Qed.

Lemma lookup_update_steps_in f l m k v :
  NoDup l.*1 -> (k, v) ∈ l -> foldl (update_step f) m l !! k = f k v.
Proof.
  revert m. induction l as [|kv l IH]; intros m Hnd Hin; [by apply not_elem_of_nil in Hin|].
  rewrite fmap_cons, NoDup_cons in Hnd. destruct Hnd as [Hni Hnd]. cbn [foldl].
  apply elem_of_cons in Hin as [<-|Hin]; [|by apply IH].
  rewrite lookup_update_steps_notin by done. apply (lookup_update_step_eq f m (k, v)).
Qed.

Lemma update_loop_eq f m : update_loop f m = map_imap f m.
Proof.
  apply map_eq. intros k. rewrite map_lookup_imap. unfold update_loop. destruct (m !! k) as [v|] eqn:E.
  - cbn. apply lookup_update_steps_in; [apply NoDup_map_elements|by apply elem_of_map_elements].
  - cbn. rewrite lookup_update_steps_notin; [done|].
    intros ((k', v) & -> & Hin)%list_elem_of_fmap. apply elem_of_map_elements in Hin. cbn in E. congruence.
Qed.

(** What a loop sees after entries were dropped: the others, in the same order. *)
Lemma map_elements_sublist m (P : K * V -> Prop) `{!forall kv, Decision (P kv)} :
  map_elements (filter P m) = filter P (map_elements m).
Proof.
  assert (NoDup (filter P (map_elements m)).*1) as Hnd'.
  { apply (sublist_NoDup _ (map_elements m).*1); [apply NoDup_map_elements|].
    generalize (sublist_filter P (map_elements m)). generalize (filter P (map_elements m)).
    intros l Hl. clear -Hl. induction Hl; by constructor. }
  apply map_elements_unique.
  - clear Hnd'. pose proof (map_elements_sorted m) as Hs. induction Hs as [|kv l Hs IH Hall]; [constructor|].
    rewrite filter_cons. case_decide; [|done]. constructor; [done|].
    rewrite Forall_forall in *. intros x Hx. apply list_elem_of_filter in Hx as [_ Hx]. by apply Hall.
  - exact Hnd'.
  - apply map_eq. intros k. apply option_eq. intros v. rewrite map_lookup_filter_Some.
    rewrite <- elem_of_list_to_map by done. rewrite list_elem_of_filter, elem_of_map_elements. tauto.
Qed.
End update_loop.

(** [m.emplace(k, v)]: an existing entry is kept. *)
Definition map_emplace `{Countable K} {V} (k : K) (v : V) (m : gmap K V) : gmap K V :=
  match m !! k with
  | Some _ => m
  | None => <[k := v]> m
  end.

Lemma map_emplace_None `{Countable K} {V} k v (m : gmap K V) :
  m !! k = None -> map_emplace k v m = <[k := v]> m.
Proof. unfold map_emplace. by intros ->. Qed.

Lemma size_map_emplace `{Countable K} {V} k v (m : gmap K V) :
  (size (map_emplace k v m) <= S (size m))%nat.
Proof.
  unfold map_emplace. destruct (m !! k) eqn:E; [lia|]. by rewrite map_size_insert_None.
Qed.

(** ** Hash tables

    A range-for loop over a [std::unordered_map] visits its pairs in an order
    the language leaves open: a parameter that is only known to be a
    permutation. *)
Class HashOrder := {
  hash_order : forall {K} `{Countable K} {A}, gmap K A -> list (K * A);
}.

Class HashOrderLaws `{!HashOrder} := {
  hash_order_perm : forall {K} `{Countable K} {A} (m : gmap K A), hash_order m ≡ₚ map_to_list m;
}.

(** A concrete order. *)
Definition toy_hash_order : HashOrder := {| hash_order := fun _ _ _ _ m => map_to_list m |}.
Lemma toy_hash_order_laws : @HashOrderLaws toy_hash_order.
Proof. done. Qed.

Lemma elem_of_hash_order `{!HashOrder, !HashOrderLaws, Countable K} {A} (m : gmap K A) k x :
  (k, x) ∈ hash_order m <-> m !! k = Some x.
Proof. by rewrite hash_order_perm, elem_of_map_to_list. Qed.
