(* ===== verification/FrameCodec.v ===== *)
(** * Length-prefixed framing ([src/core/src/net/frame_codec.cpp])

    [encode_frame] and the streaming [FrameDecoder], with the read loop every
    connection runs on it ([while (try_pop(frame) == kFrameReady) ...]). *)
From S2P Require Import Prelude.

Definition kMaxFrameBytes : Z := 8 * 1024 * 1024.

(** [encode_frame]: the length is cast to [uint32_t], then four bytes big-endian. *)
Definition encode_frame (payload : bytes) : bytes :=
  let len := u32 (Z.of_nat (length payload)) in
  [ z2b (Z.land (Z.shiftr len 24) 255); z2b (Z.land (Z.shiftr len 16) 255);
    z2b (Z.land (Z.shiftr len 8) 255); z2b (Z.land len 255) ] ++ payload.

Record FrameDecoder := mkFrameDecoder {
  buf_ : bytes;
  error_ : bool;
  error_msg_ : string;
}.

Definition new_decoder : FrameDecoder := mkFrameDecoder [] false "".

(** The status of [try_pop]; [kFrameReady] carries the [out] argument. *)
Inductive Status :=
| kNeedMore
| kFrameReady (out : bytes)
| kError.

Definition feed (d : FrameDecoder) (bs : bytes) : FrameDecoder :=
  if error_ d then d
  else mkFrameDecoder (buf_ d ++ bs) (error_ d) (error_msg_ d).

Definition try_pop (d : FrameDecoder) : Status * FrameDecoder :=
  if error_ d then (kError, d)
  else match buf_ d with
  | b0 :: b1 :: b2 :: b3 :: _ =>
      let len := rd_u32 b0 b1 b2 b3 in
      if kMaxFrameBytes <? len then
        (kError, mkFrameDecoder (buf_ d) true "frame exceeds kMaxFrameBytes")
      else if Z.of_nat (length (buf_ d)) <? u32 (4 + len) then (kNeedMore, d)
      else
        (kFrameReady (take (Z.to_nat len) (drop 4 (buf_ d))),
         mkFrameDecoder (drop (4 + Z.to_nat len) (buf_ d)) (error_ d) (error_msg_ d))
  | _ => (kNeedMore, d)
  end.

(** The drain loop [while ((st = dec.try_pop(frame)) == kFrameReady)], returning
    the frames handed to the caller, the status that ended it and the decoder. *)
Fixpoint pop_loop (fuel : nat) (d : FrameDecoder) : list bytes * Status * FrameDecoder :=
  match fuel with
  | O => ([], kNeedMore, d)
  | S fuel' =>
      match try_pop d with
      | (kFrameReady out, d') =>
          let '(fs, st, d'') := pop_loop fuel' d' in (out :: fs, st, d'')
      | (st, d') => ([], st, d')
      end
  end.

(** Every pop removes at least the four header bytes, so this many turns suffice. *)
Definition pop_all (d : FrameDecoder) : list bytes * Status * FrameDecoder :=
  pop_loop (S (length (buf_ d))) d.

(** One connection: each [recv] is fed and drained; a [kError] closes it. *)
Fixpoint read_session (d : FrameDecoder) (chunks : list bytes) : list bytes * bool :=
  match chunks with
  | [] => ([], false)
  | c :: chunks' =>
      let '(fs, st, d') := pop_all (feed d c) in
      match st with
      | kError => (fs, true)
      | _ => let '(fs', e) := read_session d' chunks' in (fs ++ fs', e)
      end
  end.

(** ** Lemmas *)

#[global] Arguments encode_frame : simpl never.

Lemma length_encode_frame p : length (encode_frame p) = (4 + length p)%nat.
Proof. done. Qed.

Definition frame_ok (p : bytes) : Prop := Z.of_nat (length p) <= kMaxFrameBytes.

Lemma frame_len_u32 p : frame_ok p -> u32 (Z.of_nat (length p)) = Z.of_nat (length p).
Proof. unfold frame_ok, kMaxFrameBytes. intros. apply u32_small. unfold_words. lia. Qed.

Lemma u32_header len :
  0 <= len <= kMaxFrameBytes -> u32 (4 + len) = 4 + len.
Proof. unfold kMaxFrameBytes. intros. apply u32_small. unfold_words. lia. Qed.

Lemma try_pop_encoded p rest msg :
  frame_ok p ->
  try_pop (mkFrameDecoder (encode_frame p ++ rest) false msg)
  = (kFrameReady p, mkFrameDecoder rest false msg).
Proof.
  intros Hok. pose proof (frame_len_u32 p Hok) as Hlen.
  unfold try_pop, encode_frame. cbn [buf_ error_ error_msg_ app]. rewrite Hlen.
  rewrite rd_u32_put by (unfold frame_ok, kMaxFrameBytes in Hok; unfold_words; lia).
  rewrite u32_header by (unfold frame_ok in Hok; lia).
  destruct (Z.ltb_spec kMaxFrameBytes (Z.of_nat (length p))) as [H|H];
    [unfold frame_ok in Hok; lia|].
  destruct (Z.ltb_spec (Z.of_nat (length
    (z2b (Z.land (Z.shiftr (Z.of_nat (length p)) 24) 255) ::
     z2b (Z.land (Z.shiftr (Z.of_nat (length p)) 16) 255) ::
     z2b (Z.land (Z.shiftr (Z.of_nat (length p)) 8) 255) ::
     z2b (Z.land (Z.of_nat (length p)) 255) :: p ++ rest)))
     (4 + Z.of_nat (length p))) as [Hlt|_]; [simpl in Hlt; rewrite length_app in Hlt; lia|].
  rewrite !Nat2Z.id. simpl. rewrite drop_0.
  by rewrite take_app_length, drop_app_length.
Qed.

(** A frame handed out is exactly the encoded prefix of the buffer. *)
Lemma try_pop_ready_inv d out d' :
  try_pop d = (kFrameReady out, d') ->
  error_ d = false /\ error_ d' = false /\ error_msg_ d' = error_msg_ d /\
  frame_ok out /\ buf_ d = encode_frame out ++ buf_ d'.
Proof.
  unfold try_pop. destruct (error_ d) eqn:He; [done|].
  destruct (buf_ d) as [|b0 [|b1 [|b2 [|b3 tl]]]] eqn:Hb; try done.
  pose proof (rd_u32_range b0 b1 b2 b3) as Hr.
  destruct (Z.ltb_spec kMaxFrameBytes (rd_u32 b0 b1 b2 b3)) as [|Hmax]; [done|].
  rewrite u32_header by (unfold is_u32 in Hr; lia).
  destruct (Z.ltb_spec (Z.of_nat (length (b0 :: b1 :: b2 :: b3 :: tl)))
              (4 + rd_u32 b0 b1 b2 b3)) as [|Hge]; [done|].
  intros [= <- <-]. simpl in Hge |- *. rewrite drop_0.
  set (n := Z.to_nat (rd_u32 b0 b1 b2 b3)).
  assert (length (take n tl) = n) as Hn by (rewrite length_take; unfold is_u32 in Hr; lia).
  split_and!; try done.
  - unfold frame_ok. rewrite Hn. unfold is_u32 in Hr. lia.
  - unfold encode_frame. rewrite Hn. unfold n. rewrite Z2Nat.id by (unfold is_u32 in Hr; lia).
    rewrite u32_small by done. simpl. rewrite take_drop.
    change (b0 :: b1 :: b2 :: b3 :: tl) with ([b0; b1; b2; b3] ++ tl).
    change (_ :: _ :: _ :: _ :: tl) with (put_u32_be (rd_u32 b0 b1 b2 b3) ++ tl).
    f_equal. rewrite put_u32_be_eq, rd_u32_be_value.
    symmetry. apply (be_bytes_be_value [b0; b1; b2; b3]).
Qed.

Lemma try_pop_length d out d' :
  try_pop d = (kFrameReady out, d') -> (length (buf_ d') < length (buf_ d))%nat.
Proof.
  intros (_ & _ & _ & _ & ->)%try_pop_ready_inv.
  rewrite length_app, length_encode_frame. lia.
Qed.

(** The fuel of [pop_all] is enough: more turns change nothing. *)
Lemma pop_loop_fuel n m d :
  (length (buf_ d) < n)%nat -> (n <= m)%nat -> pop_loop m d = pop_loop n d.
Proof.
  revert m d. induction n as [|n IH]; intros m d Hn Hm; [lia|].
  destruct m as [|m]; [lia|]. simpl.
  destruct (try_pop d) as [[|out|] d'] eqn:E; try done.
  rewrite (IH m d'); [done|apply try_pop_length in E; lia|lia].
Qed.

Lemma pop_all_unfold d :
  pop_all d = match try_pop d with
              | (kFrameReady out, d') =>
                  let '(fs, st, d'') := pop_all d' in (out :: fs, st, d'')
              | (st, d') => ([], st, d')
              end.
Proof.
  unfold pop_all at 1. simpl. destruct (try_pop d) as [[|out|] d'] eqn:E; try done.
  unfold pop_all. apply try_pop_length in E.
  by rewrite (pop_loop_fuel (S (length (buf_ d'))) (length (buf_ d))) by lia.
Qed.

(** Name the parts of the drain the goal mentions. *)
Ltac split_pop :=
  match goal with |- context [pop_all ?d] => destruct (pop_all d) as [[??]?] end.

(** Bytes that arrive later do not change what was decided before. *)
Lemma try_pop_app_ready b msg out d' more :
  try_pop (mkFrameDecoder b false msg) = (kFrameReady out, d') ->
  try_pop (mkFrameDecoder (b ++ more) false msg)
  = (kFrameReady out, mkFrameDecoder (buf_ d' ++ more) false msg).
Proof.
  intros E. apply try_pop_ready_inv in E as (_ & _ & _ & Hok & Hb).
  cbn [buf_] in Hb. rewrite Hb, <- app_assoc. by apply try_pop_encoded.
Qed.

Lemma try_pop_app_error b msg d' more :
  try_pop (mkFrameDecoder b false msg) = (kError, d') ->
  exists d'', try_pop (mkFrameDecoder (b ++ more) false msg) = (kError, d'').
Proof.
  unfold try_pop. simpl. destruct b as [|b0 [|b1 [|b2 [|b3 tl]]]]; try done.
  simpl. destruct (Z.ltb_spec kMaxFrameBytes (rd_u32 b0 b1 b2 b3)) as [|Hmax]; [eauto|].
  case_match; done.
Qed.

Lemma try_pop_need_more d d' : try_pop d = (kNeedMore, d') -> d' = d /\ error_ d = false.
Proof.
  unfold try_pop. intros H. destruct (error_ d); [done|]. by case_all.
Qed.

Lemma pop_all_status d fs st d' :
  pop_all d = (fs, st, d') -> st = kNeedMore \/ st = kError.
Proof.
  remember (length (buf_ d)) as n eqn:Hn. revert d fs st d' Hn.
  induction n as [n IH] using lt_wf_ind; intros d fs st d' ->.
  rewrite pop_all_unfold. destruct (try_pop d) as [[|out|] d1] eqn:E.
  - intros [= <- <- <-]; auto.
  - destruct (pop_all d1) as [[fs1 st1] d2] eqn:E1. intros [= <- <- <-].
    apply try_pop_length in E. eauto.
  - intros [= <- <- <-]; auto.
Qed.

(** Draining a longer buffer: the frames of the prefix come out first, and the
    drain then continues on what the prefix left. *)
Lemma pop_all_app b msg more fs st d' :
  pop_all (mkFrameDecoder b false msg) = (fs, st, d') ->
  (st = kError ->
     exists d'', pop_all (mkFrameDecoder (b ++ more) false msg) = (fs, kError, d'')) /\
  (st = kNeedMore ->
     error_ d' = false /\ error_msg_ d' = msg /\
     pop_all (mkFrameDecoder (b ++ more) false msg) =
       let '(fs', st', d'') := pop_all (mkFrameDecoder (buf_ d' ++ more) false msg) in
       (fs ++ fs', st', d'')).
Proof.
  remember (length b) as n eqn:Hn. revert b fs st d' Hn.
  induction n as [n IH] using lt_wf_ind; intros b fs st d' ->.
  rewrite pop_all_unfold.
  destruct (try_pop (mkFrameDecoder b false msg)) as [[|out|] d1] eqn:E.
  - intros [= <- <- <-]. split; [done|]. intros _.
    apply try_pop_need_more in E as [-> _]. simpl.
    by split_pop.
  - pose proof (try_pop_app_ready _ _ _ _ more E) as E2.
    pose proof (try_pop_length _ _ _ E) as Hlt.
    apply try_pop_ready_inv in E as (_ & He & Hmsg & _ & _).
    destruct d1 as [b1 e1 m1]; simpl in *; subst e1 m1.
    destruct (pop_all (mkFrameDecoder b1 false msg)) as [[fs1 st1] d2] eqn:E1.
    intros [= <- <- <-]. destruct (IH _ Hlt b1 _ _ _ eq_refl E1) as [HE HN].
    rewrite (pop_all_unfold (mkFrameDecoder (b ++ more) _ _)), E2. split.
    + intros Hst. destruct (HE Hst) as [d'' ->]. eauto.
    + intros Hst. destruct (HN Hst) as (? & ? & ->). split_and!; try done.
      by split_pop.
  - intros [= <- <- <-]. split; [|done]. intros _.
    destruct (try_pop_app_error _ _ _ more E) as [d'' E2]. exists d''.
    by rewrite pop_all_unfold, E2.
Qed.

Lemma pop_all_app_cat ps rest msg :
  Forall frame_ok ps ->
  pop_all (mkFrameDecoder (mjoin (encode_frame <$> ps) ++ rest) false msg) =
  let '(fs, st, d) := pop_all (mkFrameDecoder rest false msg) in (ps ++ fs, st, d).
Proof.
  induction 1 as [|p ps Hp _ IH].
  - simpl. by split_pop.
  - change (mjoin (encode_frame <$> p :: ps))
      with (encode_frame p ++ mjoin (encode_frame <$> ps)).
    rewrite <- app_assoc, pop_all_unfold, try_pop_encoded by done.
    rewrite IH. by split_pop.
Qed.

Lemma read_session_cons d c chunks :
  read_session d (c :: chunks) =
  let '(fs, st, d') := pop_all (feed d c) in
  match st with
  | kError => (fs, true)
  | _ => let '(fs', e) := read_session d' chunks in (fs ++ fs', e)
  end.
Proof. done. Qed.

(** What a session reads depends on the byte stream only, not on how the
    network cut it. *)
Lemma read_session_concat chunks c d :
  error_ d = false ->
  read_session d (c :: chunks) = read_session d [c ++ mjoin chunks].
Proof.
  revert c d. induction chunks as [|c' chunks IH]; intros c d He.
  { simpl. by rewrite app_nil_r. }
  destruct d as [b e msg]; simpl in He; subst e.
  rewrite !read_session_cons. unfold feed; cbn [error_ buf_ error_msg_].
  rewrite (app_assoc b c).
  destruct (pop_all (mkFrameDecoder (b ++ c) false msg)) as [[fs st] d'] eqn:E.
  destruct (pop_all_app _ _ (mjoin (c' :: chunks)) _ _ _ E) as [HE HN].
  destruct (pop_all_status _ _ _ _ E) as [->| ->].
  - destruct (HN eq_refl) as (He' & Hmsg & ->).
    rewrite IH by done. rewrite read_session_cons.
    destruct d' as [b' e' m']; cbn [buf_ error_ error_msg_] in *; subst e' m'.
    unfold feed; cbn [error_ buf_ error_msg_]. simpl mjoin. split_pop.
    match goal with s : Status |- _ => destruct s end; simpl; by rewrite ?app_nil_r.
  - destruct (HE eq_refl) as [d'' ->]. done.
Qed.

(** ** Properties *)

(** whatever the chunking of the stream, a connection that receives the
    encodings of frames of legal size delivers exactly those frames, in order,
    and reports no error. *)
Theorem frame_stream_roundtrip (ps : list bytes) (chunks : list bytes) :
  Forall frame_ok ps ->
  mjoin chunks = mjoin (encode_frame <$> ps) ->
  read_session new_decoder chunks = (ps, false).
Proof.
  intros Hok Hcat.
  assert (forall bs, bs = mjoin (encode_frame <$> ps) ->
    read_session new_decoder [bs] = (ps, false)) as Hone.
  { intros bs ->. rewrite read_session_cons. unfold feed, new_decoder; cbn [error_ buf_ error_msg_].
    rewrite (app_nil_l (mjoin _)), <- (app_nil_r (mjoin _)), pop_all_app_cat by done.
    simpl. by rewrite !app_nil_r. }
  destruct chunks as [|c chunks].
  - destruct ps; [done|]. simpl in Hcat. discriminate.
  - rewrite read_session_concat by done. by apply Hone.
Qed.

Lemma frame_stream_roundtrip_witness :
  read_session new_decoder
    [ [Byte.x00; Byte.x00]; [Byte.x00; Byte.x02; Byte.x68]; [];
      [Byte.x69; Byte.x00; Byte.x00; Byte.x00; Byte.x00] ]
  = ([[Byte.x68; Byte.x69]; []], false).
Proof.
  apply (frame_stream_roundtrip [[Byte.x68; Byte.x69]; []]).
  - repeat constructor; unfold frame_ok, kMaxFrameBytes; simpl; lia.
  - vm_compute. reflexivity.
Defined.

(** for an arbitrary byte stream, malformed ones included, the frames
    delivered and whether the connection ends in an error do not depend on how
    the stream was cut into reads. *)
Theorem frame_decoder_chunking_invariant (d : FrameDecoder) (cs1 cs2 : list bytes) :
  error_ d = false -> cs1 <> [] -> cs2 <> [] ->
  mjoin cs1 = mjoin cs2 -> read_session d cs1 = read_session d cs2.
Proof.
  intros He H1 H2 Hcat. destruct cs1 as [|c1 cs1]; [done|]. destruct cs2 as [|c2 cs2]; [done|].
  rewrite (read_session_concat cs1), (read_session_concat cs2) by done. simpl in Hcat. by rewrite Hcat.
Qed.

Lemma frame_decoder_chunking_invariant_witness :
  read_session new_decoder [[Byte.xff; Byte.x00]; [Byte.x00; Byte.x01]; [Byte.x61]]
  = read_session new_decoder [[Byte.xff; Byte.x00; Byte.x00; Byte.x01; Byte.x61]].
Proof.
  apply (frame_decoder_chunking_invariant new_decoder); done.
Defined.

(** soundness of [try_pop] on every buffer: a frame it hands out has a
    legal size and the buffer was its encoding followed by what stays
    buffered; on an error the decoder refuses all later input. *)
Theorem try_pop_sound (d : FrameDecoder) :
  match try_pop d with
  | (kFrameReady out, d') =>
      error_ d = false /\ frame_ok out /\ buf_ d = encode_frame out ++ buf_ d'
  | (kNeedMore, d') => d' = d
  | (kError, d') =>
      error_ d' = true /\ forall bs, feed d' bs = d' /\ try_pop d' = (kError, d')
  end.
Proof.
  destruct (try_pop d) as [[|out|] d'] eqn:E.
  - by apply try_pop_need_more in E as [-> _].
  - apply try_pop_ready_inv in E as (? & _ & _ & ? & ?). done.
  - assert (error_ d' = true) as He.
    { unfold try_pop in E. destruct (error_ d) eqn:He; [by simplify_eq|]. by case_all. }
    split; [done|]. intros bs. unfold feed, try_pop. by rewrite He.
Qed.
