(* ===== verification/StreamParser.v ===== *)
(** * Incremental parsers over a byte stream

    The shape shared by the streaming decoders: a state, a buffer, and a step
    that looks at the buffer and either needs more bytes, stops for good, or
    consumes a unit and perhaps emits something.  The class states what makes
    such a step independent of how the stream is cut; the theory derives that
    for whole sessions. *)
From S2P Require Import Prelude.

Section stream.
Context {St Out Stop : Type}.

Inductive verdict :=
| VNeed
| VStop (why : Stop)
| VNext (out : option Out) (st : St) (rest : bytes).

Class StreamStep (step : St -> bytes -> verdict) := {
  step_shrinks : forall st b o st' rest,
    step st b = VNext o st' rest -> (length rest < length b)%nat;
  step_next_app : forall st b o st' rest more,
    step st b = VNext o st' rest -> step st (b ++ more) = VNext o st' (rest ++ more);
  step_stop_app : forall st b w more,
    step st b = VStop w -> step st (b ++ more) = VStop w;
}.

Context (step : St -> bytes -> verdict).

(** Everything the buffer yields: outputs in order, why it stopped (if it did),
    the state and the bytes left. *)
Fixpoint drain_loop (fuel : nat) (st : St) (b : bytes) : list Out * option Stop * St * bytes :=
  match fuel with
  | O => ([], None, st, b)
  | S fuel' =>
      match step st b with
      | VNeed => ([], None, st, b)
      | VStop w => ([], Some w, st, b)
      | VNext o st' rest =>
          let '(outs, w, st'', rest') := drain_loop fuel' st' rest in
          (option_list o ++ outs, w, st'', rest')
      end
  end.

Definition drain (st : St) (b : bytes) : list Out * option Stop * St * bytes :=
  drain_loop (S (length b)) st b.

(** A connection: every read is appended and drained; a stop ends it. *)
Fixpoint stream_session (st : St) (b : bytes) (chunks : list bytes) : list Out * option Stop :=
  match chunks with
  | [] => ([], None)
  | c :: chunks' =>
      let '(outs, w, st', b') := drain st (b ++ c) in
      match w with
      | Some w => (outs, Some w)
      | None => let '(outs', w') := stream_session st' b' chunks' in (outs ++ outs', w')
      end
  end.

Context `{!StreamStep step}.

Lemma drain_loop_fuel n m st b :
  (length b < n)%nat -> (n <= m)%nat -> drain_loop m st b = drain_loop n st b.
Proof.
  revert m st b. induction n as [|n IH]; intros m st b Hn Hm; [lia|].
  destruct m as [|m]; [lia|]. cbn [drain_loop].
  destruct (step st b) as [| |o st' rest] eqn:E; try done.
  apply step_shrinks in E. rewrite (IH m); [done|lia|lia].
Qed.

Lemma drain_unfold st b :
  drain st b = match step st b with
               | VNeed => ([], None, st, b)
               | VStop w => ([], Some w, st, b)
               | VNext o st' rest =>
                   let '(outs, w, st'', rest') := drain st' rest in
                   (option_list o ++ outs, w, st'', rest')
               end.
Proof.
  unfold drain at 1. cbn [drain_loop]. destruct (step st b) as [| |o st' rest] eqn:E; try done.
  apply step_shrinks in E. unfold drain.
  by rewrite (drain_loop_fuel (S (length rest)) (length b)) by lia.
Qed.

(** Draining a longer buffer continues where the prefix left off. *)
Lemma drain_app st b more :
  drain st (b ++ more) =
  let '(outs, w, st', rest) := drain st b in
  match w with
  | Some w => (outs, Some w, st', rest ++ more)
  | None => let '(outs', w', st'', rest') := drain st' (rest ++ more) in
            (outs ++ outs', w', st'', rest')
  end.
Proof.
  remember (length b) as n eqn:Hn. revert st b Hn.
  induction n as [n IH] using lt_wf_ind; intros st b ->.
  rewrite (drain_unfold st b). destruct (step st b) as [|w|o st' rest] eqn:E.
  - by destruct (drain st (b ++ more)) as [[[??]?]?].
  - by rewrite drain_unfold, (step_stop_app _ _ _ more E).
  - rewrite drain_unfold, (step_next_app _ _ _ _ _ more E).
    apply step_shrinks in E. rewrite (IH (length rest)) by done.
    destruct (drain st' rest) as [[[outs w] st1] rest1]. destruct w; [done|].
    destruct (drain st1 (rest1 ++ more)) as [[[outs2 w2] st2] rest2]. by rewrite app_assoc.
Qed.

Lemma stream_session_one st b c :
  stream_session st b [c] = let '(outs, w, _, _) := drain st (b ++ c) in (outs, w).
Proof.
  cbn [stream_session]. destruct (drain st (b ++ c)) as [[[outs w] st1] rest1].
  destruct w; [done|]. by rewrite app_nil_r.
Qed.
Lemma stream_session_concat chunks st b c :
  stream_session st b (c :: chunks) = stream_session st b [c ++ mjoin chunks].
Proof.
  revert st b c. induction chunks as [|c' chunks IH]; intros st b c.
  { cbn [mjoin list_join]. by rewrite app_nil_r. }
  rewrite (stream_session_one st b (c ++ _)), (app_assoc b c), (drain_app st (b ++ c)).
  change (stream_session st b (c :: c' :: chunks)) with
    (let '(outs, w, st', b') := drain st (b ++ c) in
     match w with
     | Some w => (outs, Some w)
     | None => let '(outs', w') := stream_session st' b' (c' :: chunks) in (outs ++ outs', w')
     end).
  destruct (drain st (b ++ c)) as [[[outs w] st1] rest1]. destruct w; [done|].
  rewrite IH, stream_session_one. change (mjoin (c' :: chunks)) with (c' ++ mjoin chunks).
  destruct (drain st1 (rest1 ++ c' ++ mjoin chunks)) as [[[outs2 w2] st2] rest2].
  done.
Qed.

(** Two ways of cutting the same stream are indistinguishable. *)
Lemma stream_session_chunking st b cs1 cs2 :
  cs1 <> [] -> cs2 <> [] -> mjoin cs1 = mjoin cs2 ->
  stream_session st b cs1 = stream_session st b cs2.
Proof.
  destruct cs1 as [|c1 cs1], cs2 as [|c2 cs2]; try done. intros _ _ Hcat.
  rewrite (stream_session_concat cs1), (stream_session_concat cs2).
  change (c1 ++ mjoin cs1 = c2 ++ mjoin cs2) in Hcat. by rewrite Hcat.
Qed.
End stream.

Arguments verdict : clear implicits.
