(* ===== verification/WebSocket.v ===== *)
(** * WebSocket transport ([src/core/src/net/websocket.cpp])

    The upgrade handshake on both sides, SHA-1 for [Sec-WebSocket-Accept],
    frame building and the streaming [FrameParser].  libsodium's base64 encoder
    and its random bytes are parameters. *)
From S2P Require Import Prelude StreamParser.

Module WebSocket.

Definition kMagicGuid : bytes := str "258EAFA5-E914-47DA-95CA-C5AB0DC85B11".
Definition kMaxMessageBytes : Z := 8 * 1024 * 1024.

(** [sodium_bin2base64] with [sodium_base64_VARIANT_ORIGINAL]. *)
Class Base64 := { bin2base64 : bytes -> bytes }.

(** ** Text helpers *)

(** The C locale's [tolower] and [isspace]. *)
Definition tolower (c : byte) : byte :=
  if (65 <=? b2z c) && (b2z c <=? 90) then z2b (b2z c + 32) else c.

Definition isspace (c : byte) : bool :=
  (b2z c =? 32) || ((9 <=? b2z c) && (b2z c <=? 13)).

Fixpoint drop_space (s : bytes) : bytes :=
  match s with
  | c :: s' => if isspace c then drop_space s' else s
  | [] => []
  end.

Definition trim_ws (s : bytes) : bytes := reverse (drop_space (reverse (drop_space s))).

(** [std::search] with a comparison, as the offset of the first match. *)
Fixpoint prefix_by (eqb : byte -> byte -> bool) (needle hay : bytes) : bool :=
  match needle, hay with
  | [], _ => true
  | n :: needle', h :: hay' => eqb h n && prefix_by eqb needle' hay'
  | _ :: _, [] => false
  end.

Fixpoint search (eqb : byte -> byte -> bool) (hay needle : bytes) : option nat :=
  if prefix_by eqb needle hay then Some 0%nat
  else match hay with
  | [] => None
  | _ :: hay' => S <$> search eqb hay' needle
  end.

Definition byte_eqb (a b : byte) : bool := bool_decide (a = b).
Definition ieqb (a b : byte) : bool := byte_eqb (tolower a) (tolower b).

Definition icontains (haystack needle : bytes) : bool :=
  match search ieqb haystack needle with Some _ => true | None => false end.

(** [std::string::find(needle, pos)] *)
Definition find_from (hay needle : bytes) (pos : nat) : option nat :=
  (fun i => pos + i)%nat <$> search byte_eqb (drop pos hay) needle.

Definition crlf : bytes := [Byte.x0d; Byte.x0a].
Definition terminator : bytes := crlf ++ crlf.

(** ** SHA-1 (RFC 3174, as inlined in [compute_accept]) *)

Definition rotl (v : Z) (k : Z) : Z := Z.lor (u32 (Z.shiftl v k)) (Z.shiftr v (32 - k)).
Definition lnot32 (v : Z) : Z := u32_max - 1 - v.

(** Zero padding until the size is 56 modulo 64; at most 63 turns. *)
Fixpoint sha1_pad_loop (fuel : nat) (msg : bytes) : bytes :=
  match fuel with
  | O => msg
  | S fuel' =>
      if (length msg mod 64 =? 56)%nat then msg
      else sha1_pad_loop fuel' (msg ++ [Byte.x00])
  end.

Definition sha1_pad (msg : bytes) : bytes :=
  let bit_len := u64 (Z.of_nat (length msg) * 8) in
  sha1_pad_loop 64 (msg ++ [Byte.x80]) ++ be_bytes 8 bit_len.

(** The first sixteen words of a block, and the expansion to eighty: [w] is
    kept newest first. *)
Definition sha1_words (block : bytes) : list Z :=
  (fun i => match drop (4 * i) block with
            | b0 :: b1 :: b2 :: b3 :: _ => rd_u32 b0 b1 b2 b3
            | _ => 0
            end) <$> seq 0 16.

Fixpoint sha1_expand (n : nat) (w : list Z) : list Z :=
  match n with
  | O => w
  | S n' =>
      let v := Z.lxor (Z.lxor (nth 2 w 0) (nth 7 w 0)) (Z.lxor (nth 13 w 0) (nth 15 w 0)) in
      sha1_expand n' (rotl v 1 :: w)
  end.

Definition sha1_f (i : nat) (b c d : Z) : Z * Z :=
  if (i <? 20)%nat then (Z.lor (Z.land b c) (Z.land (lnot32 b) d), 0x5A827999)
  else if (i <? 40)%nat then (Z.lxor (Z.lxor b c) d, 0x6ED9EBA1)
  else if (i <? 60)%nat then
    (Z.lor (Z.lor (Z.land b c) (Z.land b d)) (Z.land c d), 0x8F1BBCDC)
  else (Z.lxor (Z.lxor b c) d, 0xCA62C1D6).

Record Sha1State := mkSha1 { h0 : Z; h1 : Z; h2 : Z; h3 : Z; h4 : Z }.

Fixpoint sha1_rounds (i : nat) (ws : list Z) (s : Sha1State) : Sha1State :=
  match ws with
  | [] => s
  | w :: ws' =>
      let '(f, k) := sha1_f i (h1 s) (h2 s) (h3 s) in
      let t := u32 (rotl (h0 s) 5 + f + h4 s + k + w) in
      sha1_rounds (S i) ws' (mkSha1 t (h0 s) (rotl (h1 s) 30) (h2 s) (h3 s))
  end.

Definition sha1_block (s : Sha1State) (block : bytes) : Sha1State :=
  let r := sha1_rounds 0 (reverse (sha1_expand 64 (reverse (sha1_words block)))) s in
  mkSha1 (u32 (h0 s + h0 r)) (u32 (h1 s + h1 r)) (u32 (h2 s + h2 r)) (u32 (h3 s + h3 r))
    (u32 (h4 s + h4 r)).

Fixpoint sha1_blocks (fuel : nat) (s : Sha1State) (msg : bytes) : Sha1State :=
  match fuel, msg with
  | S fuel', _ :: _ => sha1_blocks fuel' (sha1_block s (take 64 msg)) (drop 64 msg)
  | _, _ => s
  end.

Definition sha1 (data : bytes) : bytes :=
  let msg := sha1_pad data in
  let s := sha1_blocks (length msg)
             (mkSha1 0x67452301 0xEFCDAB89 0x98BADCFE 0x10325476 0xC3D2E1F0) msg in
  put_u32_be (h0 s) ++ put_u32_be (h1 s) ++ put_u32_be (h2 s) ++ put_u32_be (h3 s) ++
  put_u32_be (h4 s).

(** ** Upgrade handshake *)

Inductive HsStatus := HsNeedMore | HsAccepted | HsRejected.

Record HandshakeParser := mkHandshakeParser {
  hs_buf : bytes;
  headers_end_ : nat;
  client_key_ : bytes;
  reason_ : string;
}.

Definition new_handshake : HandshakeParser := mkHandshakeParser [] 0 [] "".

(** The value of the header that starts at [pos]: up to the end of its line,
    which exists because the block ends with an empty line. *)
Definition header_value (headers needle : bytes) (pos : nat) : bytes :=
  let from := (pos + length needle)%nat in
  match find_from headers crlf pos with
  | Some eol => trim_ws (take (eol - pos - length needle) (drop from headers))
  | None => trim_ws (drop from headers)
  end.

(** [HandshakeParser::feed] *)
Definition hs_feed (p : HandshakeParser) (bs : bytes) : HsStatus * HandshakeParser :=
  let buf := hs_buf p ++ bs in
  match search byte_eqb buf terminator with
  | None =>
      if (16384 <? Z.of_nat (length buf))
      then (HsRejected, mkHandshakeParser buf (headers_end_ p) (client_key_ p) "headers too large")
      else (HsNeedMore, mkHandshakeParser buf (headers_end_ p) (client_key_ p) (reason_ p))
  | Some it =>
      let hend := (it + 4)%nat in
      let headers := take hend buf in
      if negb (icontains headers (str "Upgrade: websocket")) &&
         negb (icontains headers (str "upgrade: websocket"))
      then (HsRejected, mkHandshakeParser buf hend (client_key_ p) "not a WebSocket upgrade")
      else
        let needle := str "sec-websocket-key:" in
        match find_from (tolower <$> headers) needle 0 with
        | None =>
            (HsRejected, mkHandshakeParser buf hend (client_key_ p) "missing Sec-WebSocket-Key")
        | Some pos =>
            let key := header_value headers needle pos in
            match key with
            | [] => (HsRejected, mkHandshakeParser buf hend key "empty Sec-WebSocket-Key")
            | _ => (HsAccepted, mkHandshakeParser buf hend key (reason_ p))
            end
        end
  end.

Definition hs_trailing (p : HandshakeParser) : bytes := drop (headers_end_ p) (hs_buf p).

Definition build_101_response (accept : bytes) : bytes :=
  str "HTTP/1.1 101 Switching Protocols" ++ crlf ++
  str "Upgrade: websocket" ++ crlf ++
  str "Connection: Upgrade" ++ crlf ++
  str "Sec-WebSocket-Accept: " ++ accept ++ crlf ++ crlf.

Section accept.
Context `{!Base64}.

(** The encoder's terminating NUL is popped by the code; the parameter has
    none. *)
Definition to_base64 (bin : bytes) : bytes := bin2base64 bin.

Definition compute_accept (client_key : bytes) : bytes :=
  to_base64 (sha1 (client_key ++ kMagicGuid)).

(** ** Client side of the handshake *)

Record WsUpgradeOptions := mkWsUpgradeOptions {
  user_agent : bytes;
  origin : bytes;
  browser_headers : bool;
}.

(** [std::to_string] of a port. *)
Fixpoint to_string_loop (fuel : nat) (n : Z) (acc : bytes) : bytes :=
  match fuel with
  | O => acc
  | S fuel' =>
      let acc := z2b (48 + n mod 10) :: acc in
      if n <? 10 then acc else to_string_loop fuel' (n / 10) acc
  end.

Definition to_string (n : Z) : bytes := to_string_loop 20 n [].

Definition default_user_agent : bytes :=
  str "Mozilla/5.0 (Windows NT 10.0; Win64; x64) " ++
  str "AppleWebKit/537.36 (KHTML, like Gecko) " ++
  str "Chrome/131.0.0.0 Safari/537.36".

Definition line (name value : bytes) : bytes := name ++ value ++ crlf.

(** [key_raw]: the 16 random bytes.  Returns the request and the key. *)
Definition build_client_upgrade_request (host_header : bytes) (port : Z) (path : bytes)
    (opts : WsUpgradeOptions) (key_raw : bytes) : bytes * bytes :=
  let sec_key := to_base64 key_raw in
  let host_hdr := if negb (port =? 443) then host_header ++ str ":" ++ to_string port
                  else host_header in
  let ua := match user_agent opts with [] => default_user_agent | u => u end in
  let orig := match origin opts with [] => str "https://" ++ host_hdr | o => o end in
  let browser (l : bytes) : bytes := if browser_headers opts then l else [] in
  (line (str "GET ") (match path with [] => str "/" | _ => path end ++ str " HTTP/1.1") ++
   line (str "Host: ") host_hdr ++
   line (str "Connection: Upgrade") [] ++
   browser (line (str "Pragma: no-cache") [] ++ line (str "Cache-Control: no-cache") []) ++
   line (str "User-Agent: ") ua ++
   line (str "Upgrade: websocket") [] ++
   line (str "Origin: ") orig ++
   line (str "Sec-WebSocket-Version: 13") [] ++
   browser (line (str "Accept-Encoding: gzip, deflate, br") [] ++
            line (str "Accept-Language: en-US,en;q=0.9") []) ++
   line (str "Sec-WebSocket-Key: ") sec_key ++
   browser (line (str "Sec-WebSocket-Extensions: permessage-deflate; client_max_window_bits") []) ++
   crlf,
   sec_key).

Record ClientHandshakeParser := mkClientHandshakeParser {
  expected_accept_ : bytes;
  ch_buf : bytes;
  ch_headers_end : nat;
  ch_reason : string;
}.

Definition new_client_handshake (expected_key : bytes) : ClientHandshakeParser :=
  mkClientHandshakeParser (compute_accept expected_key) [] 0 "".

(** [ClientHandshakeParser::feed] *)
Definition ch_feed (p : ClientHandshakeParser) (bs : bytes) : HsStatus * ClientHandshakeParser :=
  let buf := ch_buf p ++ bs in
  let with_reason hend r := mkClientHandshakeParser (expected_accept_ p) buf hend r in
  match search byte_eqb buf terminator with
  | None =>
      if (16384 <? Z.of_nat (length buf))
      then (HsRejected, with_reason (ch_headers_end p) "response headers too large")
      else (HsNeedMore, with_reason (ch_headers_end p) (ch_reason p))
  | Some it =>
      let hend := (it + 4)%nat in
      let headers := take hend buf in
      if negb (bool_decide (take 5 headers = str "HTTP/")) ||
         negb (bool_decide (is_Some (find_from headers (str " 101 ") 0)))
      then (HsRejected, with_reason hend "server did not return 101 Switching Protocols")
      else if negb (icontains headers (str "Upgrade: websocket"))
      then (HsRejected, with_reason hend "missing Upgrade: websocket in response")
      else
        let needle := str "sec-websocket-accept:" in
        match find_from (tolower <$> headers) needle 0 with
        | None => (HsRejected, with_reason hend "missing Sec-WebSocket-Accept")
        | Some pos =>
            let got := header_value headers needle pos in
            if bool_decide (expected_accept_ p = []) || negb (bool_decide (got = expected_accept_ p))
            then (HsRejected, with_reason hend "Sec-WebSocket-Accept mismatch")
            else (HsAccepted, with_reason hend (ch_reason p))
        end
  end.

Definition ch_trailing (p : ClientHandshakeParser) : bytes := drop (ch_headers_end p) (ch_buf p).
End accept.

(** ** Frames *)

(** The length field: seven bits, or 126 and 16 bits, or 127 and 64 bits;
    [flag] is the MASK bit. *)
Definition length_field (flag : Z) (len : nat) : bytes :=
  if (len <? 126)%nat then [z2b (Z.lor flag (Z.of_nat len))]
  else if Z.of_nat len <=? 0xFFFF then z2b (Z.lor flag 126) :: be_bytes 2 (Z.of_nat len)
  else z2b (Z.lor flag 127) :: be_bytes 8 (Z.of_nat len).

Definition build_server_binary_frame (payload : bytes) : bytes :=
  Byte.x82 :: length_field 0 (length payload) ++ payload.

Definition build_close_frame : bytes := [Byte.x88; Byte.x00].

(** [out[i] = payload[i] ^ mask[i & 3]] *)
Definition apply_mask (mask payload : bytes) : bytes :=
  imap (fun i b => byte_xor b (nth (Nat.land i 3) mask Byte.x00)) payload.

(** [mask]: the four random bytes. *)
Definition build_masked_frame (mask : bytes) (opcode : Z) (payload : bytes) : bytes :=
  z2b (Z.lor 0x80 opcode) :: length_field 0x80 (length payload) ++ mask ++ apply_mask mask payload.

Definition build_client_binary_frame (mask payload : bytes) : bytes :=
  build_masked_frame mask 0x2 payload.

Definition build_client_close_frame (mask : bytes) : bytes := build_masked_frame mask 0x8 [].

Record FrameParser := mkFrameParser {
  expect_masked_ : bool;
  buf_ : bytes;
  partial_ : bytes;
  in_fragment_ : bool;
  error_ : string;
}.

Definition new_parser (expect_masked : bool) : FrameParser :=
  mkFrameParser expect_masked [] [] false "".

Inductive PopStatus :=
| kNeedMore
| kFrameReady (out : bytes)
| kClose
| kError.

Definition feed (p : FrameParser) (bs : bytes) : FrameParser :=
  if bool_decide (error_ p = "") then
    mkFrameParser (expect_masked_ p) (buf_ p ++ bs) (partial_ p) (in_fragment_ p) (error_ p)
  else p.

(** Reading one frame off the buffer: the part of [try_pop]'s loop body up to
    "Consume". *)
Inductive RawFrame :=
| RNeed
| RErr (msg : string)
| RFrame (fin : bool) (opcode : Z) (payload rest : bytes).

(** [(payload_len, header_len)], or [None] when the extended length is not
    complete. *)
Definition frame_length (buf : bytes) (b1 : byte) : option (Z * nat) :=
  let len7 := Z.land (b2z b1) 0x7f in
  if len7 =? 126 then
    if (length buf <? 4)%nat then None else Some (be_value (take 2 (drop 2 buf)), 4%nat)
  else if len7 =? 127 then
    if (length buf <? 10)%nat then None else Some (be_value (take 8 (drop 2 buf)), 10%nat)
  else Some (len7, 2%nat).

Definition parse_frame (expect_masked : bool) (buf : bytes) : RawFrame :=
  match buf with
  | b0 :: b1 :: _ =>
      let fin := negb (Z.land (b2z b0) 0x80 =? 0) in
      let opcode := Z.land (b2z b0) 0x0f in
      let mask := negb (Z.land (b2z b1) 0x80 =? 0) in
      if expect_masked && negb mask then RErr "client frame missing mask"
      else match frame_length buf b1 with
      | None => RNeed
      | Some (payload_len, header_len) =>
          if kMaxMessageBytes <? payload_len then RErr "frame payload too large"
          else
            let mask_bytes := if mask then 4%nat else 0%nat in
            let n := Z.to_nat payload_len in
            if (length buf <? header_len + mask_bytes + n)%nat then RNeed
            else
              let mask_key := if mask then take 4 (drop header_len buf) else replicate 4 Byte.x00 in
              let header_len := (header_len + mask_bytes)%nat in
              RFrame fin opcode (apply_mask mask_key (take n (drop header_len buf)))
                (drop (header_len + n) buf)
      end
  | _ => RNeed
  end.

(** Every turn of the loop consumes a frame of at least two bytes. *)
Fixpoint try_pop_loop (fuel : nat) (p : FrameParser) : PopStatus * FrameParser :=
  match fuel with
  | O => (kNeedMore, p)
  | S fuel' =>
      match parse_frame (expect_masked_ p) (buf_ p) with
      | RNeed => (kNeedMore, p)
      | RErr msg =>
          (kError, mkFrameParser (expect_masked_ p) (buf_ p) (partial_ p) (in_fragment_ p) msg)
      | RFrame fin opcode payload rest =>
          let p := mkFrameParser (expect_masked_ p) rest (partial_ p) (in_fragment_ p) (error_ p) in
          if opcode =? 0x8 then (kClose, p)
          else if opcode =? 0x9 then try_pop_loop fuel' p
          else if opcode =? 0xA then try_pop_loop fuel' p
          else if (opcode =? 0x0) && negb (in_fragment_ p) then
            (kError, mkFrameParser (expect_masked_ p) rest (partial_ p) (in_fragment_ p)
                       "continuation without prior data frame")
          else if (opcode =? 0x1) || (opcode =? 0x2) || (opcode =? 0x0) then
            let partial := (if negb (opcode =? 0x0) then [] else partial_ p) ++ payload in
            let in_fragment := if negb (opcode =? 0x0) then true else in_fragment_ p in
            if kMaxMessageBytes <? Z.of_nat (length partial) then
              (kError, mkFrameParser (expect_masked_ p) rest partial in_fragment
                         "fragmented message too large")
            else if fin then
              (kFrameReady partial, mkFrameParser (expect_masked_ p) rest [] false (error_ p))
            else try_pop_loop fuel' (mkFrameParser (expect_masked_ p) rest partial in_fragment (error_ p))
          else
            (kError, mkFrameParser (expect_masked_ p) rest (partial_ p) (in_fragment_ p)
                       "unknown opcode")
      end
  end.

Definition try_pop (p : FrameParser) : PopStatus * FrameParser :=
  if bool_decide (error_ p = "") then try_pop_loop (S (length (buf_ p))) p else (kError, p).

(** The relay's read loop: [while (try_pop(msg) == kFrameReady) handle(msg);]
    then close on [kClose] or [kError]. *)
Fixpoint pop_loop (fuel : nat) (p : FrameParser) : list bytes * PopStatus * FrameParser :=
  match fuel with
  | O => ([], kNeedMore, p)
  | S fuel' =>
      match try_pop p with
      | (kFrameReady out, p') =>
          let '(fs, st, p'') := pop_loop fuel' p' in (out :: fs, st, p'')
      | (st, p') => ([], st, p')
      end
  end.

Definition pop_all (p : FrameParser) : list bytes * PopStatus * FrameParser :=
  pop_loop (S (length (buf_ p))) p.

Fixpoint read_session (p : FrameParser) (chunks : list bytes) : list bytes * PopStatus :=
  match chunks with
  | [] => ([], kNeedMore)
  | c :: chunks' =>
      let '(fs, st, p') := pop_all (feed p c) in
      match st with
      | kClose => (fs, kClose)
      | kError => (fs, kError)
      | _ => let '(fs', st') := read_session p' chunks' in (fs ++ fs', st')
      end
  end.
End WebSocket.

Import WebSocket.

(** Test vectors: "abc" of RFC 3174, and the handshake example of RFC 6455
    (the digest whose base64 is [s3pPLMBiTxaQ9kYGzzhZRbK+xOo=]). *)
Example sha1_abc :
  be_value (sha1 (str "abc")) = 0xa9993e364706816aba3e25717850c26c9cd0d89d.
Proof. vm_compute. reflexivity. Qed.

Example sha1_rfc6455 :
  be_value (sha1 (str "dGhlIHNhbXBsZSBub25jZQ==" ++ kMagicGuid))
  = 0xb37a4f2cc0624f1690f64606cf385945b2bec4ea.
Proof. vm_compute. reflexivity. Qed.
