(* ===== verification/WebSocketProofs.v ===== *)
(** * WebSocket: framing theorems

    The parser as an instance of [StreamStep], frame round trips in both
    directions, and the handshake. *)
From S2P Require Import Prelude StreamParser WebSocket.
Import WebSocket.

(** ** One frame as a stream step *)

Definition ws_state : Type := bytes * bool.

(** [inl]: closed by the peer, [inr]: protocol error. *)
Definition ws_step (expect_masked : bool) (st : ws_state) (buf : bytes)
  : verdict ws_state bytes (unit + string) :=
  match parse_frame expect_masked buf with
  | RNeed => VNeed
  | RErr msg => VStop (inr msg)
  | RFrame fin opcode payload rest =>
      if opcode =? 0x8 then VStop (inl tt)
      else if opcode =? 0x9 then VNext None st rest
      else if opcode =? 0xA then VNext None st rest
      else if (opcode =? 0x0) && negb st.2 then VStop (inr "continuation without prior data frame")
      else if (opcode =? 0x1) || (opcode =? 0x2) || (opcode =? 0x0) then
        let partial := (if negb (opcode =? 0x0) then [] else st.1) ++ payload in
        if kMaxMessageBytes <? Z.of_nat (length partial)
        then VStop (inr "fragmented message too large")
        else if fin then VNext (Some partial) ([], false) rest
        else VNext None (partial, if negb (opcode =? 0x0) then true else st.2) rest
      else VStop (inr "unknown opcode")
  end.

Lemma frame_length_ge buf b1 n h :
  frame_length buf b1 = Some (n, h) -> 0 <= n /\ (2 <= h <= 10)%nat /\ (h <= 2 \/ h <= length buf)%nat.
Proof.
  unfold frame_length. pose proof (b2z_range b1).
  assert (0 <= Z.land (b2z b1) 0x7f) by (apply Z.land_nonneg; lia).
  repeat case_match; intros [= <- <-]; rewrite ?Nat.ltb_ge in *;
    try (pose proof (be_value_range (take 2 (drop 2 buf)))); try (pose proof (be_value_range (take 8 (drop 2 buf))));
    lia.
Qed.

Lemma frame_length_app buf b1 n h more :
  frame_length buf b1 = Some (n, h) -> frame_length (buf ++ more) b1 = Some (n, h).
Proof.
  unfold frame_length. rewrite length_app. intros Hf.
  destruct (_ =? 126).
  - destruct (Nat.ltb_spec (length buf) 4); [done|].
    destruct (Nat.ltb_spec (length buf + length more) 4); [lia|].
    by rewrite drop_app_le, take_app_le by (rewrite ?length_drop; lia).
  - destruct (_ =? 127); [|done].
    destruct (Nat.ltb_spec (length buf) 10); [done|].
    destruct (Nat.ltb_spec (length buf + length more) 10); [lia|].
    by rewrite drop_app_le, take_app_le by (rewrite ?length_drop; lia).
Qed.

Lemma parse_frame_app em buf more :
  match parse_frame em buf with
  | RNeed => True
  | RErr msg => parse_frame em (buf ++ more) = RErr msg
  | RFrame fin op pl rest =>
      parse_frame em (buf ++ more) = RFrame fin op pl (rest ++ more) /\
      (length rest < length buf)%nat
  end.
Proof.
  unfold parse_frame. destruct buf as [|b0 [|b1 tl]]; [done..|].
  cbn [app]. change (b0 :: b1 :: tl ++ more) with ((b0 :: b1 :: tl) ++ more).
  set (buf := b0 :: b1 :: tl). destruct (em && _); [done|].
  destruct (frame_length buf b1) as [[n h]|] eqn:E; [|done].
  rewrite (frame_length_app _ _ _ _ more E). apply frame_length_ge in E as (Hn & Hh & _).
  destruct (_ <? n); [done|].
  set (mb := if negb _ then 4%nat else 0%nat).
  destruct (Nat.ltb_spec (length buf) (h + mb + Z.to_nat n)) as [|Hle]; [done|].
  rewrite length_app.
  destruct (Nat.ltb_spec (length buf + length more) (h + mb + Z.to_nat n)); [lia|].
  assert (length (drop (h + mb) buf) = length buf - (h + mb))%nat as Hl1 by apply length_drop.
  assert (length (drop h buf) = length buf - h)%nat as Hl2 by apply length_drop.
  rewrite !drop_app_le by lia. rewrite (take_app_le (drop (h + mb) buf)) by lia.
  split; [|rewrite length_drop; lia].
  f_equal. f_equal. destruct (negb _) eqn:Em; [|done].
  assert (mb = 4%nat) by done. by rewrite take_app_le by lia.
Qed.

#[export] Instance ws_stream_step em : StreamStep (ws_step em).
Proof.
  assert (forall st b more,
    match ws_step em st b with
    | VNeed => True
    | VStop w => ws_step em st (b ++ more) = VStop w
    | VNext o st' rest => ws_step em st (b ++ more) = VNext o st' (rest ++ more) /\
        (length rest < length b)%nat
    end) as Hws.
  { intros st b more. unfold ws_step. pose proof (parse_frame_app em b more) as Hp.
    destruct (parse_frame em b) as [|msg|fin op pl rest]; [done|by rewrite Hp|].
    destruct Hp as [-> Hlt]. repeat case_match; simplify_eq; done. }
  constructor.
  - intros st b o st' rest E. specialize (Hws st b []). rewrite E in Hws. apply Hws.
  - intros st b o st' rest more E. specialize (Hws st b more). rewrite E in Hws. apply Hws.
  - intros st b w more E. specialize (Hws st b more). by rewrite E in Hws.
Qed.

(** ** The code's loops are the stream's *)

Definition of_parser (p : FrameParser) : ws_state := (partial_ p, in_fragment_ p).

Definition stop_status (w : option (unit + string)) : PopStatus :=
  match w with None => kNeedMore | Some (inl _) => kClose | Some (inr _) => kError end.

(** [try_pop] performs stream steps up to the first that emits or stops. *)
Lemma try_pop_drain p :
  error_ p = "" ->
  let em := expect_masked_ p in
  match try_pop p with
  | (kFrameReady out, p') =>
      error_ p' = "" /\ expect_masked_ p' = em /\ (length (buf_ p') < length (buf_ p))%nat /\
      drain (ws_step em) (of_parser p) (buf_ p) =
        let '(outs, w, st, rest) := drain (ws_step em) (of_parser p') (buf_ p') in
        (out :: outs, w, st, rest)
  | (kNeedMore, p') =>
      error_ p' = "" /\ expect_masked_ p' = em /\
      drain (ws_step em) (of_parser p) (buf_ p) = ([], None, of_parser p', buf_ p')
  | (st, p') =>
      exists w st' rest, drain (ws_step em) (of_parser p) (buf_ p) = ([], Some w, st', rest) /\
        st = stop_status (Some w)
  end.
Proof.
  intros He. unfold try_pop. rewrite bool_decide_true by done. cbv zeta.
  assert (forall fuel q, error_ q = "" -> (length (buf_ q) < fuel)%nat ->
    let em := expect_masked_ q in
    match try_pop_loop fuel q with
    | (kFrameReady out, p') =>
        error_ p' = "" /\ expect_masked_ p' = em /\ (length (buf_ p') < length (buf_ q))%nat /\
        drain (ws_step em) (of_parser q) (buf_ q) =
          let '(outs, w, st, rest) := drain (ws_step em) (of_parser p') (buf_ p') in
          (out :: outs, w, st, rest)
    | (kNeedMore, p') =>
        error_ p' = "" /\ expect_masked_ p' = em /\
        drain (ws_step em) (of_parser q) (buf_ q) = ([], None, of_parser p', buf_ p')
    | (st, p') =>
        exists w st' rest, drain (ws_step em) (of_parser q) (buf_ q) = ([], Some w, st', rest) /\
          st = stop_status (Some w)
    end) as Hloop; [|by apply Hloop; [|lia]].
  clear p He. induction fuel as [|fuel IH]; intros [em buf partial infr err] He Hf; [lia|].
  cbn [error_ buf_ expect_masked_] in *. subst err. cbv zeta.
  change (of_parser (mkFrameParser em buf partial infr "")) with (partial, infr).
  remember (drain (ws_step em) (partial, infr) buf) as d eqn:Hd.
  rewrite drain_unfold in Hd by apply _. unfold ws_step at 1 in Hd. cbn [fst snd] in Hd.
  cbn [try_pop_loop expect_masked_ buf_ partial_ in_fragment_ error_].
  pose proof (parse_frame_app em buf []) as Hp.
  destruct (parse_frame em buf) as [|msg|fin op pl rest]; [done|rewrite Hd; eexists _, _, _; split; reflexivity|].
  destruct Hp as [_ Hlt].
  assert (forall partial' infr',
    let q := mkFrameParser em rest partial' infr' "" in
    match try_pop_loop fuel q with
    | (kFrameReady out, p') =>
        error_ p' = "" /\ expect_masked_ p' = em /\ (length (buf_ p') < length buf)%nat /\
        (let '(outs, w, st, rest') := drain (ws_step em) (partial', infr') rest in
         (option_list None ++ outs, w, st, rest')) =
          let '(outs, w, st, rest) := drain (ws_step em) (of_parser p') (buf_ p') in
          (out :: outs, w, st, rest)
    | (kNeedMore, p') =>
        error_ p' = "" /\ expect_masked_ p' = em /\
        (let '(outs, w, st, rest') := drain (ws_step em) (partial', infr') rest in
         (option_list None ++ outs, w, st, rest')) = ([], None, of_parser p', buf_ p')
    | (st, p') =>
        exists w st' rest1,
          (let '(outs, w, st, rest') := drain (ws_step em) (partial', infr') rest in
           (option_list None ++ outs, w, st, rest')) = ([], Some w, st', rest1) /\
          st = stop_status (Some w)
    end) as Hgo.
  { intros partial' infr'. cbv zeta.
    specialize (IH (mkFrameParser em rest partial' infr' "") eq_refl ltac:(simpl; lia)).
    cbv zeta in IH. cbn [expect_masked_ buf_] in IH.
    change (of_parser (mkFrameParser em rest partial' infr' "")) with (partial', infr') in IH.
    destruct (drain (ws_step em) (partial', infr') rest) as [[[outs w] st] r].
    destruct (try_pop_loop fuel _) as [[|out| |] p']; cbn [option_list app].
    - exact IH.
    - destruct IH as (? & ? & ? & ?). split_and!; try done. lia.
    - exact IH.
    - exact IH. }
  destruct (op =? 8); [rewrite Hd; eexists _, _, _; split; reflexivity|].
  destruct (op =? 9); [rewrite Hd; apply Hgo|]. destruct (op =? 10); [rewrite Hd; apply Hgo|].
  destruct ((op =? 0) && negb infr); [rewrite Hd; eexists _, _, _; split; reflexivity|].
  destruct (_ || _); [|rewrite Hd; eexists _, _, _; split; reflexivity].
  destruct (_ <? _); [rewrite Hd; eexists _, _, _; split; reflexivity|].
  destruct fin; [|rewrite Hd; apply Hgo].
  cbn [error_ expect_masked_ buf_ of_parser partial_ in_fragment_ option_list app].
  rewrite Hd. split_and!; try done.
Qed.

(** One read: what the relay's drain loop hands out and how it ends. *)
Lemma pop_all_drain p :
  error_ p = "" ->
  let '(fs, st, p') := pop_all p in
  let '(outs, w, st', rest) := drain (ws_step (expect_masked_ p)) (of_parser p) (buf_ p) in
  fs = outs /\ st = stop_status w /\
  (w = None -> error_ p' = "" /\ expect_masked_ p' = expect_masked_ p /\
               of_parser p' = st' /\ buf_ p' = rest).
Proof.
  unfold pop_all. intros He.
  assert (forall fuel q, error_ q = "" -> (length (buf_ q) < fuel)%nat ->
    let '(fs, st, p') := pop_loop fuel q in
    let '(outs, w, st', rest) := drain (ws_step (expect_masked_ q)) (of_parser q) (buf_ q) in
    fs = outs /\ st = stop_status w /\
    (w = None -> error_ p' = "" /\ expect_masked_ p' = expect_masked_ q /\
                 of_parser p' = st' /\ buf_ p' = rest)) as Hloop; [|apply Hloop; [done|lia]].
  clear p He. induction fuel as [|fuel IH]; intros q He Hf; [lia|]. cbn [pop_loop].
  pose proof (try_pop_drain q He) as Ht. cbv zeta in Ht.
  destruct (try_pop q) as [[|out| |] p'].
  - destruct Ht as (? & ? & ->). done.
  - destruct Ht as (He' & Hem & Hlt & ->). specialize (IH p' He' ltac:(lia)).
    rewrite Hem in IH. destruct (pop_loop fuel p') as [[fs st] p''].
    destruct (drain _ (of_parser p') (buf_ p')) as [[[outs w] st'] rest].
    destruct IH as (-> & -> & Hn). done.
  - destruct Ht as (w & st' & rest & -> & Hst). done.
  - destruct Ht as (w & st' & rest & -> & Hst). done.
Qed.

Lemma read_session_stream p chunks :
  error_ p = "" ->
  read_session p chunks =
  let '(outs, w) := stream_session (ws_step (expect_masked_ p)) (of_parser p) (buf_ p) chunks in
  (outs, stop_status w).
Proof.
  revert p. induction chunks as [|c chunks IH]; intros p He; [done|].
  cbn [read_session stream_session]. unfold feed. rewrite bool_decide_true by done.
  match goal with |- context [pop_all ?q] => pose proof (pop_all_drain q He) as Hd end.
  cbn [expect_masked_ buf_] in Hd.
  change (of_parser (mkFrameParser _ _ _ _ _)) with (of_parser p) in Hd.
  destruct (pop_all _) as [[fs st] p'].
  destruct (drain _ (of_parser p) (buf_ p ++ c)) as [[[outs w] st'] rest].
  destruct Hd as (-> & -> & Hn). destruct w as [[[]|msg]|]; [done|done|].
  destruct (Hn eq_refl) as (He' & Hem & <- & <-). rewrite (IH p' He'), Hem. cbn [stop_status].
  by destruct (stream_session _ _ _ chunks).
Qed.

(** The bytes of a WebSocket connection, malformed ones included, yield the
    same messages and end the same way however the network cuts them into
    reads. *)
Theorem ws_chunking_invariant (p : FrameParser) (cs1 cs2 : list bytes)
    (He : error_ p = "") (H1 : cs1 <> []) (H2 : cs2 <> []) (Hcat : mjoin cs1 = mjoin cs2) :
  read_session p cs1 = read_session p cs2.
Proof.
  rewrite !read_session_stream by done.
  by rewrite (stream_session_chunking _ _ _ cs1 cs2) by (done || apply _).
Qed.

(** ** Round trips *)

(** A frame in either direction: a client's is masked with a random key. *)
Inductive WireFrame :=
| Masked (mask payload : bytes)
| Unmasked (payload : bytes).

Definition wf_payload (f : WireFrame) : bytes :=
  match f with Masked _ p | Unmasked p => p end.

Definition wf_bytes (f : WireFrame) : bytes :=
  match f with
  | Masked mask p => build_client_binary_frame mask p
  | Unmasked p => build_server_binary_frame p
  end.

(** What each side may send to a parser: a server's parser insists on masks. *)
Definition wf_ok (expect_masked : bool) (f : WireFrame) : Prop :=
  Z.of_nat (length (wf_payload f)) <= kMaxMessageBytes /\
  match f with Masked mask _ => length mask = 4%nat | Unmasked _ => expect_masked = false end.

Lemma apply_mask_involutive mask p : apply_mask mask (apply_mask mask p) = p.
Proof.
  apply list_eq. intros i. unfold apply_mask. rewrite !list_lookup_imap.
  destruct (p !! i); [|done]. simpl. by rewrite byte_xor_involutive.
Qed.

Lemma length_apply_mask mask p : length (apply_mask mask p) = length p.
Proof. apply length_imap. Qed.

Lemma apply_mask_zero p : apply_mask (replicate 4 Byte.x00) p = p.
Proof.
  apply list_eq. intros i. unfold apply_mask. rewrite list_lookup_imap.
  destruct (p !! i) as [b|]; [|done]. simpl. f_equal.
  assert (nth (Nat.land i 3) (replicate 4 Byte.x00) Byte.x00 = Byte.x00) as E.
  { destruct (Nat.land i 3) as [|[|[|[|[|n]]]]]; done. }
  simpl in E. rewrite E. unfold byte_xor. by rewrite Z.lxor_0_r, z2b_b2z.
Qed.

(** The first length byte, in both directions: flag and seven bits. *)
Lemma length_byte flag n :
  flag = 0 \/ flag = 128 -> 0 <= n < 128 ->
  Z.land (b2z (z2b (Z.lor flag n))) 0x80 = flag /\ Z.land (b2z (z2b (Z.lor flag n))) 0x7f = n.
Proof.
  intros Hflag Hn.
  assert (forallb (fun k => forallb (fun fl =>
    (Z.land (b2z (z2b (Z.lor fl (Z.of_nat k)))) 0x80 =? fl) &&
    (Z.land (b2z (z2b (Z.lor fl (Z.of_nat k)))) 0x7f =? Z.of_nat k)) [0; 128]) (seq 0 128) = true)
    as Hall by (vm_compute; reflexivity).
  rewrite forallb_forall in Hall. specialize (Hall (Z.to_nat n)).
  rewrite in_seq, Z2Nat.id in Hall by lia. specialize (Hall ltac:(lia)).
  cbn [forallb] in Hall. rewrite !andb_true_iff, !Z.eqb_eq in Hall. destruct Hflag as [->| ->]; tauto.
Qed.

Lemma frame_length_field flag len rest b0 :
  flag = 0 \/ flag = 128 -> Z.of_nat len <= kMaxMessageBytes ->
  exists b1 ext, length_field flag len = b1 :: ext /\
    Z.land (b2z b1) 0x80 = flag /\
    frame_length (b0 :: b1 :: ext ++ rest) b1 = Some (Z.of_nat len, 2 + length ext)%nat.
Proof.
  intros Hf Hlen. unfold kMaxMessageBytes in Hlen. unfold length_field, frame_length.
  destruct (Nat.ltb_spec len 126).
  - destruct (length_byte flag (Z.of_nat len) Hf) as [H1 H2]; [lia|].
    eexists _, []. split_and!; [done|done|]. rewrite H2.
    destruct (Z.eqb_spec (Z.of_nat len) 126); [lia|]. destruct (Z.eqb_spec (Z.of_nat len) 127); [lia|].
    done.
  - destruct (Z.leb_spec (Z.of_nat len) 0xFFFF).
    + destruct (length_byte flag 126 Hf) as [H1 H2]; [lia|].
      eexists _, _. split_and!; [done|done|]. rewrite H2, Z.eqb_refl.
      destruct (Nat.ltb_spec (length (b0 :: z2b (Z.lor flag 126) :: be_bytes 2 (Z.of_nat len) ++ rest)) 4)
        as [Hlt|_]; [cbn [length] in Hlt; rewrite length_app, length_be_bytes in Hlt; lia|].
      rewrite length_be_bytes. cbn [skipn]. rewrite drop_0. rewrite take_app_length' by (by rewrite length_be_bytes).
      rewrite be_value_be_bytes by lia. done.
    + destruct (length_byte flag 127 Hf) as [H1 H2]; [lia|].
      eexists _, _. split_and!; [done|done|]. rewrite H2.
      change (127 =? 126) with false. change (127 =? 127) with true. cbv iota.
      destruct (Nat.ltb_spec (length (b0 :: z2b (Z.lor flag 127) :: be_bytes 8 (Z.of_nat len) ++ rest)) 10)
        as [Hlt|_]; [cbn [length] in Hlt; rewrite length_app, length_be_bytes in Hlt; lia|].
      rewrite length_be_bytes. cbn [skipn]. rewrite drop_0. rewrite take_app_length' by (by rewrite length_be_bytes).
      rewrite be_value_be_bytes by lia. done.
Qed.

(** Reading back a frame that was built, whatever follows it. *)
Lemma parse_built em f rest :
  wf_ok em f -> parse_frame em (wf_bytes f ++ rest) = RFrame true 2 (wf_payload f) rest.
Proof.
  intros [Hlen Hm].
  destruct f as [mask p|p]; cbn [wf_payload wf_bytes] in *.
  - unfold build_client_binary_frame, build_masked_frame.
    rewrite <- (length_apply_mask mask p) in Hlen.
    change (z2b (Z.lor 128 2)) with Byte.x82. cbn [app]. rewrite <- !app_assoc.
    destruct (frame_length_field 128 (length p) (mask ++ apply_mask mask p ++ rest) Byte.x82)
      as (b1 & ext & -> & Hb1 & Hfl); [by right|by rewrite length_apply_mask in Hlen|].
    cbn [app]. unfold parse_frame. rewrite Hb1, Hfl. cbn [negb Z.eqb].
    change (negb (Z.land (b2z Byte.x82) 0x80 =? 0)) with true.
    change (Z.land (b2z Byte.x82) 0x0f) with 2. rewrite andb_false_r.
    destruct (Z.ltb_spec kMaxMessageBytes (Z.of_nat (length p))) as [Hlt|_];
      [rewrite length_apply_mask in Hlen; lia|].
    rewrite Nat2Z.id.
    set (buf := Byte.x82 :: b1 :: ext ++ mask ++ apply_mask mask p ++ rest).
    assert (length buf = 2 + length ext + 4 + length p + length rest)%nat as Hbuf.
    { unfold buf. cbn [length]. rewrite !length_app, Hm, length_apply_mask. lia. }
    destruct (Nat.ltb_spec (length buf) (2 + length ext + 4 + length p)); [lia|].
    assert (drop (2 + length ext) buf = mask ++ apply_mask mask p ++ rest) as Hd1.
    { unfold buf. cbn [skipn Nat.add]. rewrite ?drop_0. by rewrite drop_app_length. }
    assert (drop (2 + length ext + 4) buf = apply_mask mask p ++ rest) as Hd2.
    { rewrite <- drop_drop, Hd1. by rewrite drop_app_length' by lia. }
    rewrite Hd1, Hd2, (take_app_length' mask) by lia.
    rewrite take_app_length' by (by rewrite length_apply_mask).
    rewrite apply_mask_involutive, <- drop_drop, Hd2.
    by rewrite drop_app_length' by (by rewrite length_apply_mask).
  - subst em. unfold build_server_binary_frame. cbn [app]. rewrite <- !app_assoc.
    destruct (frame_length_field 0 (length p) (p ++ rest) Byte.x82)
      as (b1 & ext & -> & Hb1 & Hfl); [by left|done|].
    cbn [app]. unfold parse_frame. rewrite Hb1, Hfl. cbn [negb Z.eqb andb].
    change (negb (Z.land (b2z Byte.x82) 0x80 =? 0)) with true.
    change (Z.land (b2z Byte.x82) 0x0f) with 2.
    destruct (Z.ltb_spec kMaxMessageBytes (Z.of_nat (length p))); [lia|].
    rewrite Nat2Z.id, Nat.add_0_r.
    set (buf := Byte.x82 :: b1 :: ext ++ p ++ rest).
    assert (length buf = 2 + length ext + length p + length rest)%nat as Hbuf.
    { unfold buf. cbn [length]. rewrite !length_app. lia. }
    destruct (Nat.ltb_spec (length buf) (2 + length ext + length p)); [lia|].
    assert (drop (2 + length ext) buf = p ++ rest) as Hd1.
    { unfold buf. cbn [skipn Nat.add]. rewrite ?drop_0. by rewrite drop_app_length. }
    rewrite Hd1, take_app_length, apply_mask_zero, <- drop_drop, Hd1. by rewrite drop_app_length.
Qed.

Lemma drain_built em fs rest :
  Forall (wf_ok em) fs ->
  drain (ws_step em) ([], false) (mjoin (wf_bytes <$> fs) ++ rest) =
  let '(outs, w, st, rest') := drain (ws_step em) ([], false) rest in
  ((wf_payload <$> fs) ++ outs, w, st, rest').
Proof.
  induction 1 as [|f fs Hf _ IH].
  { cbn [fmap list_fmap mjoin list_join app]. by destruct (drain _ _ rest) as [[[??]?]?]. }
  change (mjoin (wf_bytes <$> f :: fs)) with (wf_bytes f ++ mjoin (wf_bytes <$> fs)).
  rewrite <- app_assoc, drain_unfold by apply _. unfold ws_step at 1. rewrite parse_built by done.
  cbn [Z.eqb Pos.eqb andb orb negb fst snd]. rewrite app_nil_l. destruct Hf as [Hlen _].
  destruct (Z.ltb_spec kMaxMessageBytes (Z.of_nat (length (wf_payload f)))); [lia|].
  rewrite IH. by destruct (drain _ _ rest) as [[[??]?]?].
Qed.

(** WebSocket round trip in both directions.  Binary frames of at most
    8 MiB, built by the client with any masks for the server or by the server
    for the client, and delivered in any chunking, come out as exactly the
    payloads sent, in order, and the connection stays open. *)
Theorem ws_stream_roundtrip (expect_masked : bool) (fs : list WireFrame) (chunks : list bytes)
    (Hok : Forall (wf_ok expect_masked) fs)
    (Hcat : mjoin chunks = mjoin (wf_bytes <$> fs)) :
  read_session (new_parser expect_masked) chunks = (wf_payload <$> fs, kNeedMore).
Proof.
  rewrite read_session_stream by done. cbn [new_parser expect_masked_ buf_].
  change (of_parser (new_parser expect_masked)) with (@nil byte, false).
  assert (stream_session (ws_step expect_masked) ([], false) [] [mjoin chunks]
          = (wf_payload <$> fs, None)) as Hone.
  { rewrite stream_session_one, Hcat, app_nil_l, <- (app_nil_r (mjoin _)), drain_built by done.
    rewrite drain_unfold by apply _. cbn. by rewrite app_nil_r. }
  destruct chunks as [|c chunks].
  - destruct fs as [|[|] fs]; [done| |]; by apply (f_equal length) in Hcat.
  - rewrite stream_session_concat by apply _. change (mjoin (c :: chunks)) with (c ++ mjoin chunks) in Hone.
    by rewrite Hone.
Qed.

Lemma ws_chunking_invariant_witness :
  let wire := build_client_binary_frame (be_bytes 4 7) (str "hello") in
  read_session (new_parser true) [take 3 wire; drop 3 wire] = read_session (new_parser true) [wire].
Proof.
  apply (ws_chunking_invariant (new_parser true)); done.
Defined.

Lemma ws_stream_roundtrip_witness :
  let fs := [Masked (be_bytes 4 77) (str "hello"); Masked (be_bytes 4 78) []] in
  read_session (new_parser true) [mjoin (wf_bytes <$> fs)] = ([str "hello"; []], kNeedMore).
Proof.
  apply (ws_stream_roundtrip true [Masked (be_bytes 4 77) (str "hello"); Masked (be_bytes 4 78) []]);
    [repeat apply Forall_cons_2; [done..|apply Forall_nil_2]|cbn [mjoin list_join]; by rewrite app_nil_r].
Defined.

(** ** WebSocket: both ends of the upgrade handshake agree

    The client's request is accepted by the server's [HandshakeParser], which
    extracts the key the client generated, and the server's 101 response is
    accepted by the client's [ClientHandshakeParser]. *)
From S2P Require Import Prelude WebSocket.
Import WebSocket.

(** The documented output of the encoder: the base64 alphabet, and nothing only
    for nothing. *)
Class Base64Laws `{!Base64} := {
  base64_chars : forall b, Forall (fun c => 33 <= b2z c < 127) (bin2base64 b);
  base64_nonempty : forall b, b <> [] -> bin2base64 b <> [];
}.

(** ** Searching *)

Section search.
Context (eqb : byte -> byte -> bool).
Implicit Types (needle hay l rest : bytes).

Lemma search_cons x hay needle :
  search eqb (x :: hay) needle =
  if prefix_by eqb needle (x :: hay) then Some 0%nat else S <$> search eqb hay needle.
Proof. done. Qed.

(** A separator the needle does not contain cannot be inside a match. *)
Lemma prefix_by_sep needle l c rest :
  Forall (fun n => eqb c n = false) needle ->
  prefix_by eqb needle (l ++ c :: rest) = prefix_by eqb needle l.
Proof.
  revert l. induction needle as [|n needle IH]; intros l Hc; [by destruct l|].
  apply Forall_cons in Hc as [Hn Hc]. destruct l as [|x l]; cbn [app prefix_by].
  - by rewrite Hn.
  - by rewrite IH.
Qed.

Lemma search_sep_none needle l c rest :
  Forall (fun n => eqb c n = false) needle -> needle <> [] ->
  search eqb l needle = None ->
  search eqb (l ++ c :: rest) needle = (fun i => S (length l) + i)%nat <$> search eqb rest needle.
Proof.
  intros Hc Hne. induction l as [|x l IH]; intros Hl; cbn [app length].
  - rewrite search_cons. pose proof (prefix_by_sep needle [] c rest Hc) as Hp. cbn [app] in Hp.
    rewrite Hp. destruct needle; [done|]. cbn [prefix_by]. by destruct (search eqb rest _).
  - rewrite search_cons in Hl |- *. change (x :: l ++ c :: rest) with ((x :: l) ++ c :: rest).
    rewrite prefix_by_sep by done. destruct (prefix_by eqb needle (x :: l)); [done|].
    destruct (search eqb l needle); [done|]. rewrite IH by done.
    by destruct (search eqb rest needle).
Qed.

Lemma search_sep_some needle l c rest i :
  Forall (fun n => eqb c n = false) needle ->
  search eqb l needle = Some i -> search eqb (l ++ c :: rest) needle = Some i.
Proof.
  intros Hc. revert i. induction l as [|x l IH]; intros i Hl.
  - destruct needle; [|done]. simpl in Hl. injection Hl as <-. done.
  - cbn [app]. rewrite search_cons in Hl |- *.
    change (x :: l ++ c :: rest) with ((x :: l) ++ c :: rest). rewrite prefix_by_sep by done.
    destruct (prefix_by eqb needle (x :: l)); [done|].
    destruct (search eqb l needle) as [j|]; [|done]. by rewrite (IH j).
Qed.
End search.

(** ** Header blocks *)

Definition no_cr (l : bytes) : Prop := Forall (fun c => c <> Byte.x0d) l.

Definition unlines (ls : list bytes) : bytes := mjoin ((fun l => l ++ crlf) <$> ls).

Lemma unlines_cons l ls : unlines (l :: ls) = l ++ crlf ++ unlines ls.
Proof. unfold unlines. simpl. by rewrite <- app_assoc. Qed.

Lemma unlines_app ls ls' : unlines (ls ++ ls') = unlines ls ++ unlines ls'.
Proof. unfold unlines. by rewrite fmap_app, join_app. Qed.

Lemma byte_eqb_refl a : byte_eqb a a = true.
Proof. by apply bool_decide_true. Qed.

Lemma byte_eqb_ne a b : a <> b -> byte_eqb a b = false.
Proof. intros. by apply bool_decide_false. Qed.

(** The first byte decides. *)
Lemma search_first needle n l rest :
  Forall (fun c => c <> n) l ->
  search byte_eqb (l ++ rest) (n :: needle)
  = (fun i => length l + i)%nat <$> search byte_eqb rest (n :: needle).
Proof.
  induction 1 as [|c l Hc _ IH]; cbn [app length].
  - by destruct (search byte_eqb rest (n :: needle)).
  - rewrite search_cons. cbn [prefix_by]. rewrite byte_eqb_ne by done. cbn [andb]. rewrite IH.
    by destruct (search byte_eqb rest (n :: needle)).
Qed.

Lemma search_crlf l rest :
  no_cr l -> search byte_eqb (l ++ crlf ++ rest) crlf = Some (length l).
Proof.
  intros Hl. unfold crlf at 2. rewrite search_first by done. unfold crlf.
  cbn [app]. rewrite search_cons. cbn [prefix_by]. rewrite !byte_eqb_refl. cbn. f_equal. lia.
Qed.

(** The empty line of a header block is found where the lines end. *)
Lemma search_terminator ls extra :
  ls <> [] -> Forall (fun l => no_cr l /\ l <> []) ls ->
  search byte_eqb (unlines ls ++ crlf ++ extra) terminator = Some (length (unlines ls) - 2)%nat.
Proof.
  intros Hne Hls. induction Hls as [|l ls [Hcr Hl0] Hls IH]; [done|].
  rewrite unlines_cons, <- !app_assoc. unfold terminator, crlf at 3. cbn [app].
  rewrite search_first by done. unfold crlf at 1. cbn [app]. rewrite search_cons.
  rewrite !length_app. change (length crlf) with 2%nat.
  destruct ls as [|l' ls].
  - unfold unlines. unfold crlf. cbn [fmap list_fmap mjoin list_join app prefix_by].
    rewrite !byte_eqb_refl. cbn. f_equal. lia.
  - assert (exists x t, unlines (l' :: ls) ++ crlf ++ extra = x :: t /\ x <> Byte.x0d) as (x & t & Hx & Hxn).
    { apply Forall_cons in Hls as [[Hcr' Hl0'] _]. destruct l' as [|x l']; [done|].
      apply Forall_cons in Hcr' as [Hx _]. rewrite unlines_cons. eexists _, _. split; [reflexivity|done]. }
    specialize (IH ltac:(done)). rewrite Hx in IH |- *. unfold crlf. cbn [prefix_by].
    rewrite !byte_eqb_refl, (byte_eqb_ne x) by done. cbn [andb].
    rewrite search_cons. cbn [prefix_by]. rewrite (byte_eqb_ne Byte.x0a) by done. cbn [andb].
    unfold terminator, crlf in IH. cbn [app] in IH. rewrite IH.
    cbn [fmap option_fmap option_map length].
    assert (2 <= length (unlines (l' :: ls)))%nat.
    { rewrite unlines_cons, !length_app. change (length crlf) with 2%nat. lia. }
    f_equal. lia.
Qed.

Lemma tolower_cr : tolower Byte.x0d = Byte.x0d.
Proof. done. Qed.

(** Looking a header up: the lines before it do not contain its name. *)
Lemma find_header needle pre t post extra :
  needle <> [] -> Forall (fun n => byte_eqb Byte.x0d n = false) needle ->
  Forall (fun n => byte_eqb Byte.x0a n = false) needle ->
  Forall (fun l => search byte_eqb (tolower <$> l) needle = None) pre ->
  search byte_eqb (tolower <$> t) needle = Some 0%nat ->
  find_from (tolower <$> (unlines (pre ++ t :: post) ++ extra)) needle 0 = Some (length (unlines pre)).
Proof.
  intros Hne Hcr Hlf Hpre Ht. unfold find_from. rewrite drop_0.
  assert (search byte_eqb (tolower <$> (unlines (pre ++ t :: post) ++ extra)) needle
    = Some (length (unlines pre))) as ->; [|done].
  induction Hpre as [|l pre Hl _ IH]; cbn [app].
  - rewrite unlines_cons, <- !app_assoc, fmap_app. unfold crlf. cbn [app fmap list_fmap].
    by apply search_sep_some.
  - rewrite !unlines_cons, <- !app_assoc, fmap_app. unfold crlf at 1. cbn [app].
    rewrite fmap_cons, tolower_cr, search_sep_none by done.
    rewrite fmap_cons. change (tolower Byte.x0a) with Byte.x0a.
    pose proof (search_sep_none byte_eqb needle [] Byte.x0a
      (tolower <$> (unlines (pre ++ t :: post) ++ extra)) Hlf Hne) as H1. cbn [app] in H1.
    rewrite H1 by (by destruct needle). rewrite IH.
    cbn [fmap option_fmap option_map length]. rewrite !length_app, length_fmap.
    change (length crlf) with 2%nat. f_equal. lia.
Qed.

Lemma icontains_line needle pre t post extra :
  needle <> [] -> Forall (fun n => ieqb Byte.x0d n = false) needle ->
  Forall (fun n => ieqb Byte.x0a n = false) needle ->
  is_Some (search ieqb t needle) -> icontains (unlines (pre ++ t :: post) ++ extra) needle = true.
Proof.
  intros Hne Hcr Hlf [i Ht]. unfold icontains.
  assert (is_Some (search ieqb (unlines (pre ++ t :: post) ++ extra) needle)) as [j ->]; [|done].
  induction pre as [|l pre [j IH]]; cbn [app]; rewrite unlines_cons, <- !app_assoc; unfold crlf; cbn [app].
  - exists i. by apply search_sep_some.
  - destruct (search ieqb l needle) as [k|] eqn:El.
    + exists k. by apply search_sep_some.
    + rewrite search_sep_none by done.
      pose proof (search_sep_none ieqb needle [] Byte.x0a (unlines (pre ++ t :: post) ++ extra) Hlf Hne) as H1.
      cbn [app] in H1. rewrite H1 by (by destruct needle). rewrite IH. by eexists.
Qed.

(** ** Values *)

Lemma drop_space_id s : Forall (fun c => isspace c = false) s -> drop_space s = s.
Proof. intros Hs. destruct Hs as [|c s Hc _]; [done|]. simpl. by rewrite Hc. Qed.

Lemma trim_one_space v : Forall (fun c => isspace c = false) v -> trim_ws (Byte.x20 :: v) = v.
Proof.
  intros Hv. unfold trim_ws. change (drop_space (Byte.x20 :: v)) with (drop_space v).
  rewrite (drop_space_id v) by done. rewrite drop_space_id by (by apply Forall_reverse).
  apply reverse_involutive.
Qed.

Lemma printable_not_space c : 33 <= b2z c < 127 -> isspace c = false /\ c <> Byte.x0d.
Proof.
  intros Hc. split.
  - unfold isspace. destruct (Z.eqb_spec (b2z c) 32); [lia|].
    destruct (Z.leb_spec 9 (b2z c)), (Z.leb_spec (b2z c) 13); try done; lia.
  - intros ->. change (b2z Byte.x0d) with 13 in Hc. lia.
Qed.

(** The value of a header line "name: v". *)
Lemma header_value_line name needle v pre post extra :
  length needle = length name -> no_cr name -> Forall (fun c => 33 <= b2z c < 127) v ->
  header_value (unlines (pre ++ (name ++ Byte.x20 :: v) :: post) ++ extra) needle (length (unlines pre)) = v.
Proof.
  intros Hlen Hname Hv. unfold header_value, find_from.
  assert (no_cr v /\ Forall (fun c => isspace c = false) v) as [Hcr Hsp].
  { split; (eapply Forall_impl; [exact Hv|]); intros c Hc; by apply printable_not_space in Hc as [? ?]. }
  rewrite unlines_app, <- app_assoc, drop_app_length, unlines_cons, <- !app_assoc.
  rewrite (app_assoc name), search_crlf.
  2: { apply Forall_app. split; [done|]. by constructor. }
  cbn [fmap option_fmap option_map]. rewrite <- drop_drop, drop_app_length, Hlen, <- (app_assoc name), drop_app_length.
  rewrite length_app. cbn [length].
  replace (length (unlines pre) + (length name + S (length v)) - length (unlines pre) - length name)%nat
    with (length (Byte.x20 :: v)) by (cbn [length]; lia).
  change (Byte.x20 :: v ++ crlf ++ unlines post ++ extra)
    with ((Byte.x20 :: v) ++ crlf ++ unlines post ++ extra).
  rewrite take_app_length. by apply trim_one_space.
Qed.

(** ** The request as lines *)

Definition key_needle : bytes := str "sec-websocket-key:".
Definition accept_needle : bytes := str "sec-websocket-accept:".

(** A line that neither breaks the block nor looks like the key header. *)
Definition plain_line (l : bytes) : Prop :=
  no_cr l /\ l <> [] /\ search byte_eqb (tolower <$> l) key_needle = None.

#[export] Instance plain_line_dec l : Decision (plain_line l).
Proof. unfold plain_line, no_cr. apply _. Defined.

Section agreement.
Context `{!Base64, !Base64Laws}.
Context (host : bytes) (port : Z) (path : bytes) (opts : WsUpgradeOptions).

Definition host_hdr : bytes := if negb (port =? 443) then host ++ str ":" ++ to_string port else host.

(** The lines that carry caller-supplied text. *)
Definition get_line : bytes :=
  str "GET " ++ match path with [] => str "/" | _ => path end ++ str " HTTP/1.1".
Definition host_line : bytes := str "Host: " ++ host_hdr.
Definition agent_line : bytes :=
  str "User-Agent: " ++ match user_agent opts with [] => default_user_agent | u => u end.
Definition origin_line : bytes :=
  str "Origin: " ++ match origin opts with [] => str "https://" ++ host_hdr | o => o end.

Definition browser_lines (ls : list bytes) : list bytes := if browser_headers opts then ls else [].

Definition upgrade_pre : list bytes :=
  [get_line; host_line; str "Connection: Upgrade"] ++
  browser_lines [str "Pragma: no-cache"; str "Cache-Control: no-cache"] ++ [agent_line].
Definition upgrade_mid : list bytes :=
  [origin_line; str "Sec-WebSocket-Version: 13"] ++
  browser_lines [str "Accept-Encoding: gzip, deflate, br"; str "Accept-Language: en-US,en;q=0.9"].
Definition upgrade_post : list bytes :=
  browser_lines [str "Sec-WebSocket-Extensions: permessage-deflate; client_max_window_bits"].
Definition key_line (key : bytes) : bytes := str "Sec-WebSocket-Key:" ++ Byte.x20 :: key.

Definition request_lines (key : bytes) : list bytes :=
  upgrade_pre ++ str "Upgrade: websocket" :: upgrade_mid ++ key_line key :: upgrade_post.

Lemma request_unlines key_raw :
  build_client_upgrade_request host port path opts key_raw
  = (unlines (request_lines (to_base64 key_raw)) ++ crlf, to_base64 key_raw).
Proof.
  unfold build_client_upgrade_request. f_equal.
  change (if negb (port =? 443) then host ++ str ":" ++ to_string port else host) with host_hdr.
  unfold request_lines, upgrade_pre, upgrade_mid, upgrade_post, browser_lines, line.
  destruct (browser_headers opts); cbn [app]; rewrite !unlines_cons;
    unfold get_line, host_line, agent_line, origin_line, key_line;
    rewrite <- !app_assoc, ?app_nil_l; reflexivity.
Qed.

Context (Hget : plain_line get_line) (Hhost : plain_line host_line)
        (Hagent : plain_line agent_line) (Horigin : plain_line origin_line).

Lemma pre_plain :
  Forall plain_line (upgrade_pre ++ str "Upgrade: websocket" :: upgrade_mid) /\
  Forall plain_line upgrade_post.
Proof.
  unfold upgrade_pre, upgrade_mid, upgrade_post, browser_lines.
  destruct (browser_headers opts); cbn [app]; split;
    repeat first [apply Forall_nil_2 | apply Forall_cons_2; [first [assumption | by_computing]|]].
Qed.

Lemma key_line_ok key :
  Forall (fun c => 33 <= b2z c < 127) key ->
  no_cr (key_line key) /\ key_line key <> [] /\
  search byte_eqb (tolower <$> key_line key) key_needle = Some 0%nat.
Proof.
  intros Hk. unfold key_line. split_and!; [|done|].
  - apply Forall_app. split; [by_computing|]. constructor; [done|].
    eapply Forall_impl; [exact Hk|]. intros c Hc. by destruct (printable_not_space c Hc).
  - reflexivity.
Qed.

Lemma plain_block_line l : plain_line l -> no_cr l /\ l <> [].
Proof. by intros (? & ? & _). Qed.

Lemma request_block key :
  Forall (fun c => 33 <= b2z c < 127) key ->
  Forall (fun l => no_cr l /\ l <> []) (request_lines key).
Proof.
  intros Hkey. destruct pre_plain as [Hpre Hpost]. destruct (key_line_ok key Hkey) as (? & ? & _).
  unfold request_lines. change (upgrade_pre ++ str "Upgrade: websocket" :: upgrade_mid ++ key_line key :: upgrade_post)
    with (upgrade_pre ++ (str "Upgrade: websocket" :: upgrade_mid) ++ key_line key :: upgrade_post).
  rewrite app_assoc. apply Forall_app. split.
  - exact (Forall_impl _ _ _ Hpre plain_block_line).
  - constructor; [done|]. exact (Forall_impl _ _ _ Hpost plain_block_line).
Qed.

Lemma server_accepts key more :
  Forall (fun c => 33 <= b2z c < 127) key -> key <> [] ->
  exists p, hs_feed new_handshake ((unlines (request_lines key) ++ crlf) ++ more) = (HsAccepted, p)
    /\ client_key_ p = key /\ hs_trailing p = more.
Proof.
  intros Hkey Hkne. destruct pre_plain as [Hpre _]. destruct (key_line_ok key Hkey) as (_ & _ & Hks).
  assert (forall n, n = str "Upgrade: websocket" \/ n = str "upgrade: websocket" ->
    icontains (unlines (request_lines key) ++ crlf) n = true) as Hic.
  { intros n Hn. unfold request_lines. apply icontains_line; destruct Hn as [->| ->]; by_computing. }
  assert (2 <= length (unlines (request_lines key)))%nat as Hl2.
  { unfold request_lines, upgrade_pre. cbn [app]. rewrite unlines_cons, !length_app.
    change (length crlf) with 2%nat. lia. }
  unfold hs_feed. cbn [new_handshake hs_buf]. rewrite app_nil_l, <- app_assoc.
  rewrite search_terminator; [|done|by apply request_block].
  replace (length (unlines (request_lines key)) - 2 + 4)%nat
    with (length (unlines (request_lines key) ++ crlf))
    by (rewrite length_app; change (length crlf) with 2%nat; lia).
  rewrite (app_assoc (unlines _)), take_app_length, !Hic by auto. cbn [negb andb].
  assert (request_lines key
    = (upgrade_pre ++ str "Upgrade: websocket" :: upgrade_mid) ++ key_line key :: upgrade_post) as Hreq
    by (unfold request_lines; by rewrite <- app_assoc).
  rewrite Hreq. change (str "sec-websocket-key:") with key_needle.
  rewrite find_header; [|done|by_computing|by_computing| |done].
  2: { eapply Forall_impl; [exact Hpre|]. by intros l (_ & _ & ?). }
  unfold key_line. rewrite header_value_line; [|done|by_computing|done].
  destruct key as [|k0 key]; [done|]. eexists. split_and!; [reflexivity|done|].
  unfold hs_trailing. cbn [headers_end_ hs_buf]. by rewrite drop_app_length.
Qed.
End agreement.

(** ** The response as lines *)

Section response.
Context `{!Base64, !Base64Laws}.

Definition response_pre : list bytes :=
  [str "HTTP/1.1 101 Switching Protocols"; str "Upgrade: websocket"; str "Connection: Upgrade"].
Definition accept_line (acc : bytes) : bytes := str "Sec-WebSocket-Accept:" ++ Byte.x20 :: acc.

Lemma response_unlines acc :
  build_101_response acc = unlines (response_pre ++ [accept_line acc]) ++ crlf.
Proof.
  unfold build_101_response, response_pre, accept_line. cbn [app]. rewrite !unlines_cons.
  unfold unlines. rewrite <- !app_assoc. reflexivity.
Qed.

Lemma response_block acc :
  Forall (fun c => 33 <= b2z c < 127) acc ->
  Forall (fun l => no_cr l /\ l <> []) (response_pre ++ [accept_line acc]).
Proof.
  intros Hacc. apply Forall_app. split; [unfold no_cr; by_computing|].
  constructor; [|constructor]. split; [|done]. apply Forall_app. split; [by_computing|].
  constructor; [done|]. eapply Forall_impl; [exact Hacc|].
  intros c Hc. by destruct (printable_not_space c Hc).
Qed.

Lemma client_accepts key more :
  exists q, ch_feed (new_client_handshake key) (build_101_response (compute_accept key) ++ more)
            = (HsAccepted, q) /\ ch_trailing q = more.
Proof.
  set (acc := compute_accept key).
  assert (Forall (fun c => 33 <= b2z c < 127) acc) as Hacc by apply base64_chars.
  assert (acc <> []) as Hane by (by apply base64_nonempty).
  unfold ch_feed. cbn [new_client_handshake ch_buf expected_accept_]. fold acc.
  rewrite response_unlines, app_nil_l, <- app_assoc, search_terminator by (done || by apply response_block).
  set (ls := response_pre ++ [accept_line acc]).
  replace (length (unlines ls) - 2 + 4)%nat with (length (unlines ls ++ crlf))
    by (rewrite length_app; change (length crlf) with 2%nat; unfold ls; rewrite unlines_app, length_app;
        change (length (unlines response_pre)) with 75%nat; lia).
  rewrite (app_assoc (unlines _)), take_app_length.
  rewrite bool_decide_true by reflexivity.
  rewrite bool_decide_true by (eexists; reflexivity).
  cbn [negb orb].
  change ls with ([str "HTTP/1.1 101 Switching Protocols"] ++ str "Upgrade: websocket"
                  :: [str "Connection: Upgrade"; accept_line acc]) at 1.
  rewrite icontains_line by by_computing. cbn [negb]. change (str "sec-websocket-accept:") with accept_needle. unfold ls.
  rewrite (find_header accept_needle response_pre (accept_line acc) []);
    [|done|by_computing|by_computing|by_computing|reflexivity].
  unfold accept_line. rewrite header_value_line; [|done|by_computing|done].
  rewrite bool_decide_false, bool_decide_true by done. cbn [orb negb].
  eexists. split; [reflexivity|].
  unfold ch_trailing. cbn [ch_headers_end ch_buf]. by rewrite drop_app_length.
Qed.

(** The two ends of the WebSocket handshake agree.  For any host, port,
    path, user agent and origin that inject no header line, the server accepts
    the client's upgrade request and extracts exactly the key the client
    generated, the client accepts the 101 response the server derives from it,
    and both keep what follows the header blocks for the frame parser. *)
Theorem ws_handshake_agrees (host : bytes) (port : Z) (path : bytes) (opts : WsUpgradeOptions)
    (key_raw more1 more2 : bytes)
    (Hget : plain_line (get_line path)) (Hhost : plain_line (host_line host port))
    (Hagent : plain_line (agent_line opts)) (Horigin : plain_line (origin_line host port opts))
    (Hraw : key_raw <> []) :
  let '(req, key) := build_client_upgrade_request host port path opts key_raw in
  exists p q,
    hs_feed new_handshake (req ++ more1) = (HsAccepted, p) /\
    client_key_ p = key /\ hs_trailing p = more1 /\
    ch_feed (new_client_handshake key)
      (build_101_response (compute_accept (client_key_ p)) ++ more2) = (HsAccepted, q) /\
    ch_trailing q = more2.
Proof.
  rewrite request_unlines.
  destruct (server_accepts host port path opts Hget Hhost Hagent Horigin (to_base64 key_raw) more1)
    as (p & Hp & Hk & Ht); [apply base64_chars|by apply base64_nonempty|].
  destruct (client_accepts (to_base64 key_raw) more2) as (q & Hq & Hqt).
  exists p, q. rewrite Hk. done.
Qed.
End response.

(** ** RFC 4648 base64, as a concrete encoder *)

(** The character of the low six bits of [n]. *)
Definition b64_char (n : Z) : byte :=
  let d := n mod 64 in
  z2b (if d <? 26 then 65 + d else if d <? 52 then 71 + d else if d <? 62 then d - 4
       else if d =? 62 then 43 else 47).

Fixpoint rfc4648 (b : bytes) : bytes :=
  match b with
  | x :: y :: z :: b' =>
      let n := be_value [x; y; z] in
      b64_char (n / 2 ^ 18) :: b64_char (n / 2 ^ 12) :: b64_char (n / 64) :: b64_char n :: rfc4648 b'
  | [x; y] =>
      let n := be_value [x; y] * 4 in
      [b64_char (n / 2 ^ 12); b64_char (n / 64); b64_char n; z2b 61]
  | [x] => let n := be_value [x] * 16 in [b64_char (n / 64); b64_char n; z2b 61; z2b 61]
  | [] => []
  end.

#[export] Instance rfc4648_base64 : Base64 := {| bin2base64 := rfc4648 |}.

Lemma b64_char_printable n : 33 <= b2z (b64_char n) < 127.
Proof.
  unfold b64_char. cbv zeta. pose proof (Z.mod_pos_bound n 64 ltac:(lia)).
  generalize dependent (n mod 64). intros d Hd.
  destruct (Z.ltb_spec d 26), (Z.ltb_spec d 52), (Z.ltb_spec d 62), (Z.eqb_spec d 62);
    rewrite b2z_z2b_small; lia.
Qed.

#[export] Instance rfc4648_laws : Base64Laws.
Proof.
  assert (33 <= b2z (z2b 61) < 127) as Hpad by by_computing.
  split; [|by intros [|x [|y [|z b]]]].
  fix IH 1. intros [|x [|y [|z b]]]; cbn [bin2base64 rfc4648_base64 rfc4648]; cbv zeta.
  - constructor.
  - do 4 (apply Forall_cons_2; [apply b64_char_printable || exact Hpad|]). apply Forall_nil_2.
  - do 4 (apply Forall_cons_2; [apply b64_char_printable || exact Hpad|]). apply Forall_nil_2.
  - do 4 (apply Forall_cons_2; [apply b64_char_printable|]). apply IH.
Qed.

(** The worked example of RFC 6455, section 1.3. *)
Example compute_accept_rfc6455 :
  compute_accept (str "dGhlIHNhbXBsZSBub25jZQ==") = str "s3pPLMBiTxaQ9kYGzzhZRbK+xOo=".
Proof. vm_compute. reflexivity. Qed.

Lemma ws_handshake_agrees_witness :
  let opts := mkWsUpgradeOptions [] [] true in
  let '(req, key) := build_client_upgrade_request (str "relay.example") 8443 (str "/ws") opts (str "0123456789abcdef") in
  exists p q,
    hs_feed new_handshake (req ++ str "AB") = (HsAccepted, p) /\
    client_key_ p = key /\ hs_trailing p = str "AB" /\
    ch_feed (new_client_handshake key)
      (build_101_response (compute_accept (client_key_ p)) ++ []) = (HsAccepted, q) /\
    ch_trailing q = [].
Proof.
  apply (ws_handshake_agrees (str "relay.example") 8443 (str "/ws") (mkWsUpgradeOptions [] [] true)
           (str "0123456789abcdef") (str "AB") []); by_computing.
Defined.
