(* ===== verification/Padding.v ===== *)
(** * Bucket padding ([src/core/src/crypto/padding.cpp])

    [pad_to_bucket] hides a plaintext's length in a ladder of sizes,
    [strip_padding] recovers it. Sizes are [std::size_t]s, here [nat]. *)
From S2P Require Import Prelude.

Inductive PaddingError :=
| EmptyLadder
| ExceedsLargestBucket
| EmptyInput
| NoMarkerAllZero
| MarkerExpected.

Definition kDefaultBuckets : list nat :=
  [256; 1024; 4096; 16384; 65536]%nat.

Definition default_padding_buckets : list nat := kDefaultBuckets.

(** The [for (b : buckets) if (b >= needed) { target = b; break; }] loop, with
    the [target = 0] it starts from when no bucket is large enough. *)
Fixpoint choose_bucket (needed : nat) (buckets : list nat) : nat :=
  match buckets with
  | [] => 0%nat
  | b :: bs => if (needed <=? b)%nat then b else choose_bucket needed bs
  end.

(** [std::vector out(target, 0)], the copy, then [out[n] = 0x80]. *)
Definition pad_to_bucket_with (plaintext : bytes) (buckets : list nat)
  : result PaddingError bytes :=
  match buckets with
  | [] => Throw EmptyLadder
  | _ =>
      let needed := (length plaintext + 1)%nat in
      let target := choose_bucket needed buckets in
      if (target =? 0)%nat then Throw ExceedsLargestBucket
      else
        let out := plaintext ++ drop (length plaintext) (replicate target Byte.x00) in
        Ok (<[length plaintext := Byte.x80]> out)
  end.

Definition pad_to_bucket (plaintext : bytes) : result PaddingError bytes :=
  pad_to_bucket_with plaintext default_padding_buckets.

(** [while (i > 0 && padded[i - 1] == 0x00) --i;] *)
Fixpoint skip_zero_tail (padded : bytes) (i : nat) : nat :=
  match i with
  | O => O
  | S i' => if bool_decide (padded !! i' = Some Byte.x00) then skip_zero_tail padded i' else i
  end.

Definition strip_padding (padded : bytes) : result PaddingError bytes :=
  match padded with
  | [] => Throw EmptyInput
  | _ =>
      match skip_zero_tail padded (length padded) with
      | O => Throw NoMarkerAllZero
      | S i' =>
          if bool_decide (padded !! i' = Some Byte.x80) then Ok (take i' padded)
          else Throw MarkerExpected
      end
  end.

(** ** Lemmas *)

(** The shape the padding gives a message. *)
Definition padded_form (p : bytes) (k : nat) : bytes := p ++ Byte.x80 :: replicate k Byte.x00.

Lemma length_padded_form p k : length (padded_form p k) = (length p + 1 + k)%nat.
Proof. unfold padded_form. rewrite length_app. simpl. rewrite length_replicate. lia. Qed.

Lemma lookup_padded_marker p k : padded_form p k !! length p = Some Byte.x80.
Proof. by apply list_lookup_middle. Qed.

Lemma choose_bucket_ge needed buckets :
  choose_bucket needed buckets <> 0%nat -> (needed <= choose_bucket needed buckets)%nat.
Proof.
  induction buckets as [|b bs IH]; simpl; [done|].
  destruct (Nat.leb_spec needed b); auto.
Qed.

Lemma choose_bucket_zero needed buckets :
  (1 <= needed)%nat ->
  choose_bucket needed buckets = 0%nat <-> Forall (fun b => b < needed)%nat buckets.
Proof.
  intros Hn. induction buckets as [|b bs IH]; simpl.
  - split; [by constructor|done].
  - rewrite Forall_cons, <- IH. destruct (Nat.leb_spec needed b); lia.
Qed.

Lemma choose_bucket_min needed buckets b :
  StronglySorted Nat.lt buckets -> b ∈ buckets -> (needed <= b)%nat ->
  choose_bucket needed buckets ∈ buckets /\ (choose_bucket needed buckets <= b)%nat.
Proof.
  induction 1 as [|c bs Hs IH Hc]; intros Hb Hle; [by apply not_elem_of_nil in Hb|].
  simpl. rewrite Forall_forall in Hc. destruct (Nat.leb_spec needed c).
  - split; [left|]. apply elem_of_cons in Hb as [->|Hb]; [lia|].
    apply Nat.lt_le_incl, Hc, Hb.
  - apply elem_of_cons in Hb as [->|Hb]; [lia|]. destruct IH; [done..|].
    split; [by right|done].
Qed.

Lemma pad_out_form p target :
  (length p + 1 <= target)%nat ->
  <[length p := Byte.x80]> (p ++ drop (length p) (replicate target Byte.x00))
  = padded_form p (target - length p - 1).
Proof.
  intros H. rewrite drop_replicate. unfold padded_form.
  replace (target - length p)%nat with (S (target - length p - 1)) by lia.
  simpl. rewrite insert_app_r_alt by lia.
  replace (length p - length p)%nat with 0%nat by lia. simpl. do 3 f_equal. lia.
Qed.

Lemma pad_ok_iff p buckets out :
  pad_to_bucket_with p buckets = Ok out <->
  let target := choose_bucket (length p + 1) buckets in
  target <> 0%nat /\ out = padded_form p (target - length p - 1).
Proof.
  unfold pad_to_bucket_with. destruct buckets as [|b bs]; [simpl; naive_solver|].
  destruct (Nat.eqb_spec (choose_bucket (length p + 1) (b :: bs)) 0) as [E|E].
  - rewrite E. naive_solver.
  - rewrite pad_out_form by (by apply choose_bucket_ge). naive_solver.
Qed.

Lemma skip_zero_tail_form p k j :
  (j <= k)%nat ->
  skip_zero_tail (padded_form p k) (length p + 1 + j) = (length p + 1)%nat.
Proof.
  intros Hj. induction j as [|j IH].
  - rewrite Nat.add_0_r, Nat.add_1_r. simpl. rewrite bool_decide_false; [done|].
    by rewrite lookup_padded_marker.
  - rewrite Nat.add_succ_r. simpl. rewrite bool_decide_true; [apply IH; lia|].
    unfold padded_form. rewrite lookup_app_r by lia.
    replace (length p + 1 + j - length p)%nat with (S j) by lia. simpl.
    apply lookup_replicate_2. lia.
Qed.

Lemma strip_padded_form p k : strip_padding (padded_form p k) = Ok p.
Proof.
  unfold strip_padding. destruct (padded_form p k) as [|x l] eqn:E.
  { unfold padded_form in E. by destruct p. }
  rewrite <- E, length_padded_form, skip_zero_tail_form by lia.
  rewrite Nat.add_1_r, bool_decide_true by apply lookup_padded_marker. unfold padded_form. by rewrite take_app_length.
Qed.

Lemma skip_zero_tail_spec padded n :
  (n <= length padded)%nat ->
  let i := skip_zero_tail padded n in
  (i <= n)%nat /\ drop i (take n padded) = replicate (n - i) Byte.x00 /\
  (forall i', i = S i' -> padded !! i' <> Some Byte.x00).
Proof.
  induction n as [|n IH]; intros Hn; simpl; [done|].
  destruct (bool_decide_reflect (padded !! n = Some Byte.x00)) as [Hz|Hz].
  - destruct IH as (Hle & Hd & Hlast); [lia|]. split_and!; [lia| |done].
    rewrite (take_S_r _ _ _ Hz), drop_app_le, Hd by (rewrite length_take; lia).
    replace (S n - skip_zero_tail padded n)%nat with (n - skip_zero_tail padded n + 1)%nat by lia.
    by rewrite replicate_add.
  - split_and!; [lia| |congruence]. rewrite Nat.sub_diag. simpl.
    apply drop_ge. rewrite length_take. lia.
Qed.

(** ** Properties *)

(** on every ladder, a message that [pad_to_bucket] accepts comes back
    unchanged from [strip_padding]; the padded length is the bucket the
    code chose, and a strictly increasing ladder chooses the smallest bucket
    that holds the message and its marker. *)
Theorem pad_strip_roundtrip (p : bytes) (buckets : list nat) (out : bytes) :
  pad_to_bucket_with p buckets = Ok out ->
  strip_padding out = Ok p /\
  length out = choose_bucket (length p + 1) buckets /\
  (StronglySorted Nat.lt buckets ->
   forall b, b ∈ buckets -> (length p + 1 <= b)%nat -> length out ∈ buckets /\ (length out <= b)%nat).
Proof.
  intros [Ht ->]%pad_ok_iff.
  assert (length (padded_form p (choose_bucket (length p + 1) buckets - length p - 1))
    = choose_bucket (length p + 1) buckets) as Hlen.
  { rewrite length_padded_form. apply choose_bucket_ge in Ht. lia. }
  rewrite Hlen. split_and!; [apply strip_padded_form|done|].
  intros Hs b Hb Hle. by apply choose_bucket_min.
Qed.

Lemma pad_strip_roundtrip_witness :
  exists out, pad_to_bucket_with [Byte.x6f; Byte.x6b] [2; 4; 8]%nat = Ok out /\
  strip_padding out = Ok [Byte.x6f; Byte.x6b] /\ length out = 4%nat.
Proof.
  eexists. split; [vm_compute; reflexivity|].
  destruct (pad_strip_roundtrip [Byte.x6f; Byte.x6b] [2; 4; 8]%nat
    [Byte.x6f; Byte.x6b; Byte.x80; Byte.x00]) as (H1 & H2 & _); [reflexivity|].
  split; [exact H1|exact H2].
Defined.

(** [strip_padding] accepts exactly the strings of the form
    message, 0x80, zeros, and returns that message; every other input is one
    of its three errors. *)
Theorem strip_padding_exact (padded p : bytes) :
  strip_padding padded = Ok p <-> exists k, padded = padded_form p k.
Proof.
  split; [|by intros [k ->]; apply strip_padded_form].
  unfold strip_padding. destruct padded as [|x l]; [done|].
  pose proof (skip_zero_tail_spec (x :: l) (length (x :: l)) ltac:(lia)) as (Hle & Hd & _).
  set (padded := x :: l) in *. rewrite firstn_all in Hd.
  destruct (skip_zero_tail padded (length padded)) as [|i'] eqn:Ei; [done|].
  destruct (bool_decide_reflect (padded !! i' = Some Byte.x80)) as [Hm|]; [|done].
  intros [= <-]. exists (length padded - S i')%nat. unfold padded_form.
  rewrite <- Hd, <- (drop_S _ _ _ Hm). by rewrite take_drop.
Qed.

(** [pad_to_bucket] refuses a message exactly when the ladder is empty or
    no bucket can hold the message and the marker byte. *)
Theorem pad_to_bucket_errors (p : bytes) (buckets : list nat) :
  (pad_to_bucket_with p buckets = Throw EmptyLadder <-> buckets = []) /\
  (pad_to_bucket_with p buckets = Throw ExceedsLargestBucket <->
   buckets <> [] /\ Forall (fun b => b < length p + 1)%nat buckets).
Proof.
  rewrite <- choose_bucket_zero by lia. unfold pad_to_bucket_with.
  destruct buckets as [|b bs]; [naive_solver|].
  destruct (Nat.eqb_spec (choose_bucket (length p + 1) (b :: bs)) 0); naive_solver.
Qed.
