(* ===== verification/Shamir.v ===== *)
(** * GF(256) arithmetic ([src/core/src/crypto/shamir.cpp], lines 13-70)

    The log/exp tables the code builds, its table-driven [gf_mul] and [gf_div],
    the shift-and-xor product they are meant to compute, and the field laws,
    registered with [ring] for the files that use them. *)
From S2P Require Import Prelude.
From Stdlib Require Import Ring.

(** [static_cast<std::uint8_t>(a ^ b)] *)
Definition gf_add (a b : byte) : byte := z2b (Z.lxor (b2z a) (b2z b)).

(** ** The tables *)

(** One turn of the constructor's loop: multiply by the generator 0x03. *)
Definition gf_next (x : byte) : byte :=
  let y := b2z x in
  let y2 := u16 (Z.shiftl y 1) in
  let y2 := if Z.land y2 0x100 =? 0 then y2 else Z.lxor y2 0x11b in
  let y := Z.lxor y2 y in
  let y := if Z.land y 0x100 =? 0 then y else Z.lxor y 0x11b in
  z2b y.

Record GfTables := mkGfTables {
  log_table : list byte;
  exp_table : list byte;
}.

(** [for (int i = 0; i < 255; ++i)]: [k] turns remain, [i] is the index. *)
Fixpoint gf_build (k : nat) (i : nat) (x : byte) (t : GfTables) : GfTables :=
  match k with
  | O => t
  | S k' =>
      gf_build k' (S i) (gf_next x)
        (mkGfTables (<[Z.to_nat (b2z x) := z2b (Z.of_nat i)]> (log_table t))
                    (<[i := x]> (exp_table t)))
  end.

Definition gf_tables : GfTables :=
  let t := gf_build 255 0 Byte.x01
             (mkGfTables (replicate 256 Byte.x00) (replicate 256 Byte.x00)) in
  mkGfTables (log_table t)
             (<[255%nat := nth 0 (exp_table t) Byte.x00]> (exp_table t)).

(** [gf()] is a function-local static, built once. *)
Definition gf : GfTables := Eval vm_compute in gf_tables.

Definition gf_log (a : byte) : Z := b2z (nth (Z.to_nat (b2z a)) (log_table gf) Byte.x00).
Definition gf_exp (i : Z) : byte := nth (Z.to_nat i) (exp_table gf) Byte.x00.

Definition gf_mul (a b : byte) : byte :=
  if (b2z a =? 0) || (b2z b =? 0) then Byte.x00
  else gf_exp ((gf_log a + gf_log b) mod 255).

Inductive GfError := DivideByZero.

Definition gf_div (a b : byte) : result GfError byte :=
  if b2z a =? 0 then Ok Byte.x00
  else if b2z b =? 0 then Throw DivideByZero
  else Ok (gf_exp ((gf_log a + 255 - gf_log b) mod 255)).

(** ** The product they compute: carry-less multiplication modulo x^8+x^4+x^3+x+1 *)

Definition xtime (a : Z) : Z :=
  let d := Z.shiftl a 1 in if Z.testbit d 8 then Z.lxor d 0x11b else d.

Fixpoint peasant (n : nat) (a b : Z) : Z :=
  match n with
  | O => 0
  | S n' => Z.lxor (if Z.testbit b 0 then a else 0) (peasant n' (xtime a) (Z.shiftr b 1))
  end.

Definition gf_mul_spec (a b : byte) : byte := z2b (peasant 8 (b2z a) (b2z b)).

(** ** Exhaustive checks over the bytes *)

Definition all_bytes : list byte := map z2b (map Z.of_nat (seq 0 256)).

Lemma elem_of_all_bytes (b : byte) : In b all_bytes.
Proof.
  unfold all_bytes. pose proof (b2z_range b). apply in_map_iff. exists (b2z b).
  split; [apply z2b_b2z|]. apply in_map_iff. exists (Z.to_nat (b2z b)).
  split; [lia|]. apply in_seq. lia.
Qed.

Lemma check_byte (f : byte -> bool) :
  forallb f all_bytes = true -> forall a, f a = true.
Proof. intros H a. rewrite forallb_forall in H. apply H, elem_of_all_bytes. Qed.

Lemma check_byte2 (f : byte -> byte -> bool) :
  forallb (fun a => forallb (f a) all_bytes) all_bytes = true -> forall a b, f a b = true.
Proof. intros H a. apply check_byte. apply (check_byte (fun a => forallb (f a) all_bytes)). done. Qed.

Definition byte_eqb (a b : byte) : bool := b2z a =? b2z b.
Lemma byte_eqb_eq a b : byte_eqb a b = true <-> a = b.
Proof. unfold byte_eqb. rewrite Z.eqb_eq. split; [apply b2z_inj|congruence]. Qed.

(** The static is what the constructor computes. *)
Lemma gf_eq_tables : gf = gf_tables.
Proof. vm_compute. reflexivity. Qed.

(** The table-driven product is the field product, on all 65536 pairs. *)
Lemma gf_mul_eq_spec a b : gf_mul a b = gf_mul_spec a b.
Proof.
  apply byte_eqb_eq. revert a b.
  apply (check_byte2 (fun a b => byte_eqb (gf_mul a b) (gf_mul_spec a b))).
  vm_compute. reflexivity.
Qed.

(** ** Addition *)

Lemma lxor_byte_range x y : 0 <= x < 256 -> 0 <= y < 256 -> 0 <= Z.lxor x y < 256.
Proof.
  intros Hx Hy. assert (0 <= Z.lxor x y) by (apply Z.lxor_nonneg; lia). split; [done|].
  destruct (Z.eq_dec (Z.lxor x y) 0); [lia|]. change 256 with (2 ^ 8).
  apply Z.log2_lt_pow2; [lia|]. pose proof (Z.log2_lxor x y ltac:(lia) ltac:(lia)) as Hl.
  assert (forall z, 0 <= z < 256 -> Z.log2 z < 8) as Hz.
  { intros z ?. destruct (Z.eq_dec z 0) as [->|]; [done|]. apply Z.log2_lt_pow2; lia. }
  pose proof (Hz x Hx). pose proof (Hz y Hy). lia.
Qed.

Lemma b2z_gf_add a b : b2z (gf_add a b) = Z.lxor (b2z a) (b2z b).
Proof. apply b2z_z2b_small, lxor_byte_range; apply b2z_range. Qed.

Lemma z2b_lxor x y : z2b (Z.lxor x y) = gf_add (z2b x) (z2b y).
Proof.
  apply b2z_inj. rewrite b2z_gf_add, !b2z_z2b. change 256 with (2 ^ 8).
  rewrite <- !Z.land_ones by lia. apply Z.bits_inj'. intros n Hn.
  rewrite Z.land_spec, !Z.lxor_spec, !Z.land_spec.
  by destruct (Z.testbit x n), (Z.testbit y n), (Z.testbit (Z.ones 8) n).
Qed.

Lemma gf_add_comm a b : gf_add a b = gf_add b a.
Proof. unfold gf_add. by rewrite Z.lxor_comm. Qed.
Lemma gf_add_assoc a b c : gf_add a (gf_add b c) = gf_add (gf_add a b) c.
Proof. apply b2z_inj. rewrite !b2z_gf_add. by rewrite Z.lxor_assoc. Qed.
Lemma gf_add_0_l a : gf_add Byte.x00 a = a.
Proof. apply b2z_inj. rewrite b2z_gf_add. apply Z.lxor_0_l. Qed.
Lemma gf_add_diag a : gf_add a a = Byte.x00.
Proof. apply b2z_inj. rewrite b2z_gf_add. apply Z.lxor_nilpotent. Qed.
Lemma gf_add_eq_0 a b : gf_add a b = Byte.x00 <-> a = b.
Proof.
  split; [|intros ->; apply gf_add_diag]. intros H.
  rewrite <- (gf_add_0_l b), <- (gf_add_diag a), <- gf_add_assoc.
  rewrite H, gf_add_comm. symmetry. apply gf_add_0_l.
Qed.

(** ** Multiplication *)

Lemma gf_mul_comm a b : gf_mul a b = gf_mul b a.
Proof. unfold gf_mul. by rewrite orb_comm, Z.add_comm. Qed.

Lemma gf_mul_1_l a : gf_mul Byte.x01 a = a.
Proof.
  apply byte_eqb_eq. revert a. apply (check_byte (fun a => byte_eqb (gf_mul Byte.x01 a) a)).
  vm_compute. reflexivity.
Qed.

Lemma gf_mul_0_l a : gf_mul Byte.x00 a = Byte.x00.
Proof. done. Qed.
Lemma gf_mul_0_r a : gf_mul a Byte.x00 = Byte.x00.
Proof. by rewrite gf_mul_comm. Qed.

Lemma b2z_eq_0 a : b2z a = 0 <-> a = Byte.x00.
Proof. split; [|by intros ->]. intros H. by apply b2z_inj. Qed.

(** Logarithms turn products into sums modulo 255. *)
Lemma gf_log_mul a b :
  a <> Byte.x00 -> b <> Byte.x00 ->
  gf_mul a b <> Byte.x00 /\ gf_log (gf_mul a b) = (gf_log a + gf_log b) mod 255.
Proof.
  intros Ha Hb.
  assert ((b2z a =? 0) = false) as Ha' by (rewrite <- b2z_eq_0 in Ha; lia).
  assert ((b2z b =? 0) = false) as Hb' by (rewrite <- b2z_eq_0 in Hb; lia).
  assert ((b2z a =? 0) || (b2z b =? 0) ||
    (negb (b2z (gf_mul a b) =? 0) &&
     (gf_log (gf_mul a b) =? (gf_log a + gf_log b) mod 255)) = true) as H.
  { revert a b Ha Hb Ha' Hb'.
    enough (forall a b, (b2z a =? 0) || (b2z b =? 0) ||
      (negb (b2z (gf_mul a b) =? 0) &&
       (gf_log (gf_mul a b) =? (gf_log a + gf_log b) mod 255)) = true) by auto.
    apply (check_byte2 (fun a b => (b2z a =? 0) || (b2z b =? 0) ||
      (negb (b2z (gf_mul a b) =? 0) &&
       (gf_log (gf_mul a b) =? (gf_log a + gf_log b) mod 255)))).
    vm_compute. reflexivity. }
  rewrite Ha', Hb' in H. simpl in H. bool_props. rewrite <- b2z_eq_0. auto.
Qed.

Lemma gf_mul_nonzero a b :
  a <> Byte.x00 -> b <> Byte.x00 -> gf_mul a b = gf_exp ((gf_log a + gf_log b) mod 255).
Proof.
  rewrite <- !b2z_eq_0. intros. unfold gf_mul.
  destruct (Z.eqb_spec (b2z a) 0), (Z.eqb_spec (b2z b) 0); done.
Qed.

Lemma gf_mul_assoc a b c : gf_mul a (gf_mul b c) = gf_mul (gf_mul a b) c.
Proof.
  destruct (decide (a = Byte.x00)) as [->|Ha]; [done|].
  destruct (decide (b = Byte.x00)) as [->|Hb]; [rewrite gf_mul_0_l, gf_mul_0_r; done|].
  destruct (decide (c = Byte.x00)) as [->|Hc]; [by rewrite !gf_mul_0_r|].
  destruct (gf_log_mul a b Ha Hb) as [Hab Lab]. destruct (gf_log_mul b c Hb Hc) as [Hbc Lbc].
  rewrite (gf_mul_nonzero a _ Ha Hbc), (gf_mul_nonzero _ c Hab Hc), Lab, Lbc.
  f_equal. rewrite Z.add_mod_idemp_l, Z.add_mod_idemp_r by lia. f_equal. lia.
Qed.

Lemma peasant_lxor n a b c :
  peasant n a (Z.lxor b c) = Z.lxor (peasant n a b) (peasant n a c).
Proof.
  revert a b c. induction n as [|n IH]; intros a b c; [done|]. cbn [peasant].
  rewrite Z.lxor_spec, Z.shiftr_lxor, IH. apply Z.bits_inj'. intros i Hi.
  destruct (Z.testbit b 0), (Z.testbit c 0); simpl;
    rewrite !Z.lxor_spec, ?Z.bits_0; by repeat destruct (Z.testbit _ i).
Qed.

Lemma gf_mul_add_distr_l a b c :
  gf_mul a (gf_add b c) = gf_add (gf_mul a b) (gf_mul a c).
Proof.
  rewrite !gf_mul_eq_spec. unfold gf_mul_spec.
  by rewrite b2z_gf_add, peasant_lxor, z2b_lxor.
Qed.

(** Addition is its own inverse, so [gf_sub] is [gf_add] and negation is the
    identity; with these [ring] decides the polynomial identities. *)
Definition gf_sub (a b : byte) : byte := gf_add a b.
Definition gf_opp (a : byte) : byte := a.

Lemma gf_ring_theory :
  ring_theory Byte.x00 Byte.x01 gf_add gf_mul gf_sub gf_opp (@eq byte).
Proof.
  constructor; intros; unfold gf_sub, gf_opp.
  - apply gf_add_0_l.
  - apply gf_add_comm.
  - apply gf_add_assoc.
  - apply gf_mul_1_l.
  - apply gf_mul_comm.
  - apply gf_mul_assoc.
  - by rewrite gf_mul_comm, gf_mul_add_distr_l, (gf_mul_comm z x), (gf_mul_comm z y).
  - done.
  - apply gf_add_diag.
Qed.

Add Ring gf_ring : gf_ring_theory (abstract).

(** ** Division *)

Lemma gf_div_spec a b :
  b <> Byte.x00 -> exists q, gf_div a b = Ok q /\ gf_mul q b = a.
Proof.
  intros Hb. assert ((b2z b =? 0) = false) as Hb' by (rewrite <- b2z_eq_0 in Hb; lia).
  assert (forall a b, (b2z b =? 0) ||
    match gf_div a b with Ok q => byte_eqb (gf_mul q b) a | Throw _ => false end = true) as H.
  { apply (check_byte2 (fun a b => (b2z b =? 0) ||
      match gf_div a b with Ok q => byte_eqb (gf_mul q b) a | Throw _ => false end)).
    vm_compute. reflexivity. }
  specialize (H a b). rewrite Hb' in H. simpl in H.
  destruct (gf_div a b) as [q|]; [|done]. exists q. split; [done|]. by apply byte_eqb_eq.
Qed.

Lemma gf_mul_eq_0 a b : gf_mul a b = Byte.x00 -> a = Byte.x00 \/ b = Byte.x00.
Proof.
  intros H. destruct (decide (a = Byte.x00)); [by left|].
  destruct (decide (b = Byte.x00)); [by right|].
  by destruct (gf_log_mul a b) as [? _].
Qed.

Lemma gf_mul_cancel_r a b c : c <> Byte.x00 -> gf_mul a c = gf_mul b c -> a = b.
Proof.
  intros Hc H. apply gf_add_eq_0.
  destruct (gf_mul_eq_0 (gf_add a b) c) as [|]; [|done..].
  rewrite (gf_mul_comm _ c), gf_mul_add_distr_l, (gf_mul_comm c a), (gf_mul_comm c b), H.
  apply gf_add_diag.
Qed.

(** the table-driven product equals carry-less multiplication modulo the
    AES polynomial on every pair of bytes, and [gf_div] inverts it: dividing by
    any nonzero byte returns the quotient, dividing a nonzero byte by zero is
    the error. *)
Theorem gf_arith_correct (a b : byte) :
  gf_mul a b = gf_mul_spec a b /\
  (b <> Byte.x00 -> exists q, gf_div a b = Ok q /\ gf_mul_spec q b = a) /\
  (a <> Byte.x00 -> gf_div a Byte.x00 = Throw DivideByZero).
Proof.
  split_and!.
  - apply gf_mul_eq_spec.
  - intros Hb. destruct (gf_div_spec a b Hb) as (q & H1 & H2). exists q.
    by rewrite <- gf_mul_eq_spec.
  - intros Ha. rewrite <- b2z_eq_0 in Ha. unfold gf_div.
    by destruct (Z.eqb_spec (b2z a) 0).
Qed.

(** ** Shamir secret sharing ([src/core/src/crypto/shamir.cpp])

    [split] and [combine] with the share codec, over the field above. The
    random coefficients come from libsodium: [rnd b n] is what the call
    [randombytes_buf(_, n)] made for secret byte [b] writes. *)
From S2P Require Import Prelude.
From Stdlib Require Import Ring.

Record Share := mkShare {
  share_x : byte;
  share_y : bytes;
}.

Inductive ShamirError :=
| EncodeInvalidShare
| DecodeTooShort
| DecodeZeroX
| SplitEmptySecret
| SplitBadThreshold
| CombineNoShares
| CombineZeroLength
| CombineZeroX
| CombineLengthMismatch
| CombineDuplicateX
| GfDivideByZero.

(** ** Horner evaluation *)

(** [for (i = size - 1; i-- > 0;) acc = gf_mul(acc, x) ^ coeffs[i];] *)
Fixpoint eval_loop (coeffs : bytes) (x : byte) (i : nat) (acc : byte) : byte :=
  match i with
  | O => acc
  | S i' => eval_loop coeffs x i' (gf_add (gf_mul acc x) (nth i' coeffs Byte.x00))
  end.

(** [coeffs.back()] needs a non-empty vector, which every caller has. *)
Definition gf_eval (coeffs : bytes) (x : byte) : byte :=
  eval_loop coeffs x (length coeffs - 1) (default Byte.x00 (last coeffs)).

(** ** Share codec *)

Definition encode_share (s : Share) : result ShamirError bytes :=
  if (b2z (share_x s) =? 0) || bool_decide (share_y s = []) then Throw EncodeInvalidShare
  else Ok (share_x s :: share_y s).

Definition decode_share (bs : bytes) : result ShamirError Share :=
  if (length bs <? 2)%nat then Throw DecodeTooShort
  else match bs with
  | x :: y => if b2z x =? 0 then Throw DecodeZeroX else Ok (mkShare x y)
  | [] => Throw DecodeTooShort
  end.

(** ** Split *)

(** The coefficients of secret byte [b]: the byte itself, then the random ones. *)
Definition coeffs_of (rnd : nat -> nat -> bytes) (threshold : nat) (b : nat) (secret_b : byte)
  : bytes :=
  secret_b :: (if (1 <? threshold)%nat then rnd b (threshold - 1)%nat else []).

Definition split (rnd : nat -> nat -> bytes) (secret : bytes) (threshold total : byte)
  : result ShamirError (list Share) :=
  if bool_decide (secret = []) then Throw SplitEmptySecret
  else if (b2z threshold =? 0) || (b2z total =? 0) || (b2z total <? b2z threshold)
  then Throw SplitBadThreshold
  else
    let m := Z.to_nat (b2z threshold) in
    let n := Z.to_nat (b2z total) in
    Ok ((fun i : nat =>
           let x := z2b (Z.of_nat i + 1) in
           mkShare x (imap (fun b s => gf_eval (coeffs_of rnd m b s) x) secret)) <$> seq 0 n).

(** ** Combine *)

(** The validation loop over [i], with its inner loop over [j > i]. *)
Fixpoint combine_check (L : nat) (shares : list Share) : result ShamirError unit :=
  match shares with
  | [] => Ok tt
  | s :: rest =>
      if b2z (share_x s) =? 0 then Throw CombineZeroX
      else if negb (length (share_y s) =? L)%nat then Throw CombineLengthMismatch
      else if bool_decide (share_x s ∈ share_x <$> rest) then Throw CombineDuplicateX
      else combine_check L rest
  end.

(** The [j] loop: products of the other x's and of the differences. *)
Fixpoint lagrange_loop (i j : nat) (xi : byte) (shares : list Share) (num den : byte)
  : byte * byte :=
  match shares with
  | [] => (num, den)
  | s :: rest =>
      if (i =? j)%nat then lagrange_loop i (S j) xi rest num den
      else lagrange_loop i (S j) xi rest (gf_mul num (share_x s))
             (gf_mul den (gf_add xi (share_x s)))
  end.

(** The [i] loop for byte [b]. *)
Fixpoint combine_byte (b : nat) (all : list Share) (i : nat) (todo : list Share) (acc : byte)
  : result ShamirError byte :=
  match todo with
  | [] => Ok acc
  | s :: todo' =>
      let '(num, den) := lagrange_loop i 0 (share_x s) all Byte.x01 Byte.x01 in
      match gf_div num den with
      | Throw _ => Throw GfDivideByZero
      | Ok basis =>
          combine_byte b all (S i) todo'
            (gf_add acc (gf_mul (nth b (share_y s) Byte.x00) basis))
      end
  end.

Fixpoint combine_bytes (bs : list nat) (shares : list Share) : result ShamirError bytes :=
  match bs with
  | [] => Ok []
  | b :: bs' =>
      let? v := combine_byte b shares 0 shares Byte.x00 in
      let? vs := combine_bytes bs' shares in
      Ok (v :: vs)
  end.

Definition combine (shares : list Share) : result ShamirError bytes :=
  match shares with
  | [] => Throw CombineNoShares
  | s0 :: _ =>
      let L := length (share_y s0) in
      if (L =? 0)%nat then Throw CombineZeroLength
      else let? _ := combine_check L shares in combine_bytes (seq 0 L) shares
  end.

(** ** Polynomials over GF(256) *)

Declare Scope gf_scope.
Notation "0" := Byte.x00 : gf_scope.
Notation "1" := Byte.x01 : gf_scope.
Infix "+" := gf_add : gf_scope.
Infix "-" := gf_sub : gf_scope.
Infix "*" := gf_mul : gf_scope.
Notation "- x" := (gf_opp x) : gf_scope.
Delimit Scope gf_scope with gf.

Fixpoint horner (p : bytes) (x : byte) : byte :=
  match p with
  | [] => 0%gf
  | c :: p' => (c + x * horner p' x)%gf
  end.

Lemma horner_cons c p x : horner (c :: p) x = (c + x * horner p x)%gf.
Proof. done. Qed.

Lemma horner_app p q x :
  horner (p ++ q) x =
  (horner p x + horner (replicate (length p) Byte.x00 ++ q) x)%gf.
Proof.
  induction p as [|c p IH]; simpl.
  - ring.
  - rewrite IH. ring.
Qed.

Lemma eval_loop_horner p x i acc :
  (i <= length p)%nat ->
  eval_loop p x i acc = horner (take i p ++ [acc]) x.
Proof.
  revert acc. induction i as [|i IH]; intros acc Hi.
  - simpl. ring.
  - cbn [eval_loop]. rewrite IH by lia.
    assert (p !! i = Some (nth i p 0%gf)) as Hp.
    { destruct (lookup_lt_is_Some_2 p i ltac:(lia)) as [c Hc].
      rewrite (nth_lookup_Some _ _ _ _ Hc). done. }
    rewrite (take_S_r _ _ _ Hp), <- app_assoc.
    rewrite (horner_app (take i p)), (horner_app (take i p) ([_] ++ _)).
    f_equal. generalize (length (take i p)) as k. induction k as [|k IHk]; simpl.
    + ring.
    + by rewrite IHk.
Qed.

Lemma gf_eval_horner p x : gf_eval p x = horner p x.
Proof.
  unfold gf_eval. destruct p as [|c p]; [done|].
  rewrite eval_loop_horner by (simpl; lia). f_equal.
  destruct (last (c :: p)) as [e|] eqn:E.
  - apply last_Some in E as [l E]. rewrite E. simpl default.
    rewrite length_app. simpl. rewrite Nat.add_sub.
    by rewrite take_app_length.
  - by apply last_None in E.
Qed.

(** *** Dividing by [X - a] *)

Fixpoint syn_div (a : byte) (p : bytes) : bytes :=
  match p with
  | [] | [_] => []
  | _ :: p' => horner p' a :: syn_div a p'
  end.

Lemma length_syn_div a p : length (syn_div a p) = pred (length p).
Proof. induction p as [|c [|d p] IH]; simpl in *; lia. Qed.

Lemma horner_syn_div a p x :
  horner p x = (horner p a + (x - a) * horner (syn_div a p) x)%gf.
Proof.
  induction p as [|c p IH]; [simpl; ring|].
  destruct p as [|d p].
  - simpl. ring.
  - change (syn_div a (c :: d :: p)) with (horner (d :: p) a :: syn_div a (d :: p)).
    rewrite !(horner_cons c), (horner_cons (horner _ _)), IH. ring.
Qed.

Lemma syn_div_zero a p :
  horner p a = 0%gf -> Forall (eq 0%gf) (syn_div a p) -> Forall (eq 0%gf) p.
Proof.
  induction p as [|c p IH]; intros H0 Hs; [done|].
  destruct p as [|d p].
  - constructor; [|done]. simpl in H0. rewrite <- H0. ring.
  - change (syn_div a (c :: d :: p)) with (horner (d :: p) a :: syn_div a (d :: p)) in Hs.
    apply Forall_cons in Hs as [Hh Hs]. symmetry in Hh. constructor; [|by apply IH].
    rewrite horner_cons, Hh in H0. rewrite <- H0. ring.
Qed.

(** A polynomial with as many distinct roots as coefficients is zero. *)
Lemma horner_roots p xs :
  NoDup xs -> (length p <= length xs)%nat ->
  Forall (fun x => horner p x = 0%gf) xs -> Forall (eq 0%gf) p.
Proof.
  revert p. induction xs as [|a xs IH]; intros p Hnd Hlen Hr.
  { by destruct p; [|simpl in Hlen; lia]. }
  apply NoDup_cons in Hnd as [Ha Hnd]. apply Forall_cons in Hr as [Hra Hr].
  apply (syn_div_zero a); [done|]. apply IH; [done|rewrite length_syn_div; simpl in Hlen; lia|].
  rewrite Forall_forall in Hr |- *. intros x Hx. specialize (Hr x Hx).
  rewrite (horner_syn_div a), Hra in Hr.
  assert (((x - a) * horner (syn_div a p) x = 0)%gf) as Hz by (rewrite <- Hr; ring).
  apply gf_mul_eq_0 in Hz as [Hz|Hz]; [|done].
  apply gf_add_eq_0 in Hz as ->. done.
Qed.

(** *** Sums and Lagrange weights at zero *)

Definition gsum (g : byte -> byte) (xs : list byte) : byte :=
  foldr (fun x acc => (g x + acc)%gf) 0%gf xs.

Definition gf_inv (b : byte) : byte :=
  match gf_div 1%gf b with Ok q => q | Throw _ => 0%gf end.

Lemma gf_inv_l b : b <> 0%gf -> (gf_inv b * b = 1)%gf.
Proof. intros Hb. unfold gf_inv. by destruct (gf_div_spec 1%gf b Hb) as (q & -> & ?). Qed.

Lemma gf_sub_nonzero (a b : byte) : a <> b -> (a - b)%gf <> 0%gf.
Proof. intros Hab H. by apply Hab, gf_add_eq_0. Qed.

Definition lfactor (x o : byte) : byte := (- o * gf_inv (x - o))%gf.

(** The weight of the point [x] among the other points [os]. *)
Definition weight (x : byte) (os : list byte) : byte :=
  foldr (fun o acc => (lfactor x o * acc)%gf) 1%gf os.

Definition others (x : byte) (xs : list byte) : list byte := filter (fun o => o <> x) xs.

(** The interpolated value at zero of the function [f] known on [xs]. *)
Definition lagrange0 (f : byte -> byte) (xs : list byte) : byte :=
  gsum (fun x => (f x * weight x (others x xs))%gf) xs.

Lemma gsum_ext f g xs : (forall x, x ∈ xs -> f x = g x) -> gsum f xs = gsum g xs.
Proof.
  induction xs as [|a xs IH]; intros H; [done|]. simpl.
  rewrite H by left. f_equal. apply IH. intros. apply H. by right.
Qed.

Lemma gsum_add f g xs : gsum (fun x => (f x + g x)%gf) xs = (gsum f xs + gsum g xs)%gf.
Proof. induction xs as [|a xs IH]; simpl; [ring|]. rewrite IH. ring. Qed.

Lemma gsum_sub f g xs : gsum (fun x => (f x - g x)%gf) xs = (gsum f xs - gsum g xs)%gf.
Proof. induction xs as [|a xs IH]; simpl; [ring|]. rewrite IH. ring. Qed.

Lemma gsum_scale c f xs : gsum (fun x => (c * f x)%gf) xs = (c * gsum f xs)%gf.
Proof. induction xs as [|a xs IH]; simpl; [ring|]. rewrite IH. ring. Qed.

Lemma others_cons_ne a x xs : a <> x -> others x (a :: xs) = a :: others x xs.
Proof. intros. unfold others. by rewrite filter_cons_True. Qed.

Lemma others_id a xs : a ∉ xs -> others a xs = xs.
Proof.
  induction xs as [|b xs IH]; intros Ha; [done|]. rewrite not_elem_of_cons in Ha.
  destruct Ha as [Hab Ha]. rewrite others_cons_ne by done. by rewrite IH.
Qed.

Lemma others_head a xs : a ∉ xs -> others a (a :: xs) = xs.
Proof.
  intros Ha. unfold others. rewrite filter_cons_False by (intros H; by apply H).
  by apply others_id.
Qed.

(** Splitting the first point off an interpolation. *)
Lemma lagrange0_cons f a xs :
  a ∉ xs ->
  lagrange0 f (a :: xs) =
  (f a * weight a xs +
   gsum (fun x => f x * (lfactor x a * weight x (others x xs))) xs)%gf.
Proof.
  intros Ha. unfold lagrange0. simpl. rewrite others_head by done. f_equal.
  apply gsum_ext. intros x Hx. rewrite others_cons_ne by (by intros ->). done.
Qed.

(** Partial fractions: the identity behind Neville's recurrence. *)
Lemma lfactor_neville x a b :
  x <> a -> x <> b ->
  ((a - b) * (lfactor x a * lfactor x b) = a * lfactor x b - b * lfactor x a)%gf.
Proof.
  intros Hxa Hxb. unfold lfactor.
  pose proof (gf_inv_l _ (gf_sub_nonzero x a Hxa)) as HA.
  pose proof (gf_inv_l _ (gf_sub_nonzero x b Hxb)) as HB.
  set (iA := gf_inv (x - a)%gf) in *. set (iB := gf_inv (x - b)%gf) in *.
  transitivity (a * b * iA * (iB * (x - b)) - a * b * iB * (iA * (x - a)))%gf; [ring|].
  rewrite HA, HB. ring.
Qed.

Lemma lfactor_swap (a b : byte) :
  a <> b -> ((a - b) * lfactor a b = - b)%gf /\ ((a - b) * lfactor b a = a)%gf.
Proof.
  intros Hab. unfold lfactor.
  pose proof (gf_inv_l _ (gf_sub_nonzero a b Hab)) as HA.
  pose proof (gf_inv_l _ (gf_sub_nonzero b a (not_eq_sym Hab))) as HB. split.
  - transitivity (- b * (gf_inv (a - b) * (a - b)))%gf; [ring|]. rewrite HA. ring.
  - transitivity (a * (gf_inv (b - a) * (b - a)))%gf; [ring|]. rewrite HB. ring.
Qed.

Lemma lagrange0_neville f a b xs :
  NoDup (a :: b :: xs) ->
  ((a - b) * lagrange0 f (a :: b :: xs)
   = a * lagrange0 f (b :: xs) - b * lagrange0 f (a :: xs))%gf.
Proof.
  rewrite !NoDup_cons, not_elem_of_cons. intros [[Hab Ha] [Hb Hnd]].
  rewrite (lagrange0_cons f a (b :: xs)) by (by rewrite not_elem_of_cons).
  rewrite (lagrange0_cons f b), (lagrange0_cons f a) by done. simpl.
  rewrite others_head by done.
  destruct (lfactor_swap a b Hab) as [H1 H2].
  set (W := fun x => weight x (others x xs)).
  rewrite (gsum_ext _ (fun x => f x * (lfactor x a * (lfactor x b * W x))) xs)%gf
    by (intros x Hx; rewrite others_cons_ne by (by intros ->); done).
  transitivity ((a - b) * lfactor a b * (f a * weight a xs) +
    ((a - b) * lfactor b a * (f b * weight b xs) +
     (a - b) * gsum (fun x => f x * (lfactor x a * (lfactor x b * W x))) xs))%gf; [ring|].
  rewrite H1, H2, <- gsum_scale.
  rewrite (gsum_ext _ (fun x => a * (f x * (lfactor x b * W x)) -
                               b * (f x * (lfactor x a * W x))) xs)%gf.
  - rewrite gsum_sub, !gsum_scale. unfold W. ring.
  - intros x Hx.
    transitivity ((a - b) * (lfactor x a * lfactor x b) * (f x * W x))%gf; [ring|].
    rewrite lfactor_neville by (by intros ->). ring.
Qed.

(** Constants are interpolated exactly: the weights sum to one. *)
Lemma weights_sum_one xs :
  xs <> [] -> NoDup xs -> lagrange0 (fun _ => 1%gf) xs = 1%gf.
Proof.
  remember (length xs) as n eqn:Hn. revert xs Hn.
  induction n as [n IH] using lt_wf_ind. intros [|a [|b xs]] -> Hne Hnd; [done| |].
  - unfold lagrange0. simpl. rewrite others_head by (by apply not_elem_of_nil). simpl. ring.
  - pose proof (lagrange0_neville (fun _ => 1%gf) a b xs Hnd) as HN.
    rewrite !NoDup_cons, not_elem_of_cons in Hnd. destruct Hnd as [[Hab Ha] [Hb Hnd]].
    rewrite (IH (S (length xs)) ltac:(simpl; lia) (b :: xs) eq_refl ltac:(done)) in HN by (by apply NoDup_cons).
    rewrite (IH (S (length xs)) ltac:(simpl; lia) (a :: xs) eq_refl ltac:(done)) in HN by (by apply NoDup_cons).
    apply (gf_mul_cancel_r _ _ (a - b)%gf); [by apply gf_sub_nonzero|].
    rewrite gf_mul_comm, HN. ring.
Qed.

(** Interpolating a polynomial on at least as many points as it has
    coefficients returns its constant term. *)
Lemma lagrange0_horner p xs :
  NoDup xs -> (length p <= length xs)%nat -> lagrange0 (horner p) xs = horner p 0%gf.
Proof.
  revert p. induction xs as [|a xs IH]; intros p Hnd Hlen.
  { by destruct p; [|simpl in Hlen; lia]. }
  pose proof (weights_sum_one (a :: xs) ltac:(done) Hnd) as Hone.
  apply NoDup_cons in Hnd as [Ha Hnd].
  rewrite lagrange0_cons in Hone |- * by done.
  set (q := syn_div a p).
  rewrite (gsum_ext _ (fun x => horner p a * (1 * (lfactor x a * weight x (others x xs))) -
     a * (horner q x * weight x (others x xs))) xs)%gf.
  - rewrite gsum_sub, !gsum_scale. fold (lagrange0 (horner q) xs).
    rewrite IH by (done || (unfold q; rewrite length_syn_div; simpl in Hlen; lia)).
    rewrite (horner_syn_div a p 0%gf). fold q.
    rewrite gsum_scale in Hone.
    transitivity (horner p a * (1 * weight a xs +
      1 * gsum (fun x => lfactor x a * weight x (others x xs)) xs) - a * horner q 0)%gf; [ring|].
    rewrite Hone. ring.
  - intros x Hx. rewrite (horner_syn_div a p x). fold q. unfold lfactor.
    assert (x <> a) as Hxa by (by intros ->).
    pose proof (gf_inv_l _ (gf_sub_nonzero x a Hxa)) as HA.
    transitivity (horner p a * (1 * (- a * gf_inv (x - a) * weight x (others x xs))) -
      (gf_inv (x - a) * (x - a)) * (a * (horner q x * weight x (others x xs))))%gf; [ring|].
    rewrite HA. ring.
Qed.

(** *** The loops of [combine] compute these sums *)

Definition gprod (g : byte -> byte) (xs : list byte) : byte :=
  foldr (fun x acc => (g x * acc)%gf) 1%gf xs.

Lemma lagrange_loop_spec i j xi shares num den :
  (forall k s, shares !! k = Some s -> (i = j + k)%nat <-> share_x s = xi) ->
  lagrange_loop i j xi shares num den =
  ((num * gprod (fun o => o) (others xi (share_x <$> shares)))%gf,
   (den * gprod (fun o => xi - o) (others xi (share_x <$> shares)))%gf).
Proof.
  revert j num den. induction shares as [|s shares IH]; intros j num den H; csimpl.
  { f_equal; ring. }
  assert (forall k s', shares !! k = Some s' -> (i = S j + k)%nat <-> share_x s' = xi) as H'.
  { intros k s' Hk. rewrite <- (H (S k) s' Hk). lia. }
  pose proof (H 0%nat s eq_refl) as H0. destruct (Nat.eqb_spec i j) as [Heq|Hne].
  - rewrite (IH _ _ _ H'). unfold others. rewrite filter_cons_False; [done|].
    intros Hn. apply Hn, H0. lia.
  - rewrite (IH _ _ _ H'). assert (share_x s <> xi) by (intros E; apply H0 in E; lia).
    rewrite others_cons_ne by done. csimpl. change (gf_add xi (share_x s)) with (gf_sub xi (share_x s)).
    f_equal; ring.
Qed.

Lemma weight_mul_den x os :
  x ∉ os -> (weight x os * gprod (fun o => x - o) os)%gf = gprod (fun o => o) os.
Proof.
  induction os as [|o os IH]; intros Hx; simpl; [ring|].
  rewrite not_elem_of_cons in Hx. destruct Hx as [Hxo Hx].
  pose proof (gf_inv_l _ (gf_sub_nonzero x o Hxo)) as HA.
  transitivity ((gf_inv (x - o) * (x - o)) * (- o) * (weight x os * gprod (fun o => x - o) os))%gf.
  { unfold lfactor. ring. }
  rewrite HA, IH by done. unfold gf_opp. ring.
Qed.

Lemma den_nonzero x os : x ∉ os -> gprod (fun o => x - o)%gf os <> 0%gf.
Proof.
  induction os as [|o os IH]; intros Hx; simpl; [done|].
  rewrite not_elem_of_cons in Hx. destruct Hx as [Hxo Hx].
  intros [H|H]%gf_mul_eq_0; [by apply gf_sub_nonzero in H|by apply IH].
Qed.

Lemma gf_div_weight x os :
  x ∉ os ->
  gf_div (gprod (fun o => o) os) (gprod (fun o => x - o)%gf os) = Ok (weight x os).
Proof.
  intros Hx. pose proof (den_nonzero x os Hx) as Hd.
  destruct (gf_div_spec (gprod (fun o => o) os) _ Hd) as (q & -> & Hq).
  f_equal. apply (gf_mul_cancel_r _ _ _ Hd). by rewrite Hq, weight_mul_den.
Qed.

Lemma not_elem_of_others x xs : x ∉ others x xs.
Proof. unfold others. rewrite list_elem_of_filter. by intros [? _]. Qed.

Lemma combine_byte_spec b all i todo acc :
  NoDup (share_x <$> all) -> drop i all = todo ->
  combine_byte b all i todo acc =
  Ok (acc + foldr (fun s r => nth b (share_y s) Byte.x00 *
        weight (share_x s) (others (share_x s) (share_x <$> all)) + r) 0 todo)%gf.
Proof.
  intros Hnd. revert i acc. induction todo as [|s todo IH]; intros i acc Hd; simpl.
  { f_equal. ring. }
  assert (all !! i = Some s) as Hi.
  { rewrite <- (Nat.add_0_r i), <- lookup_drop, Hd. done. }
  rewrite lagrange_loop_spec.
  - rewrite !gf_mul_1_l, gf_div_weight by apply not_elem_of_others.
    rewrite IH; [f_equal; ring|]. by rewrite <- Nat.add_1_r, <- drop_drop, Hd.
  - intros k s' Hk. simpl. split; [intros ->; congruence|]. intros Hx.
    eapply NoDup_lookup; [exact Hnd|..]; rewrite list_lookup_fmap; [by rewrite Hi|].
    rewrite Hk. simpl. congruence.
Qed.

(** *** Validation *)

(** What [combine] requires of its input. *)
Definition shares_valid (shares : list Share) : Prop :=
  exists s0, head shares = Some s0 /\ share_y s0 <> [] /\
  Forall (fun s => share_x s <> 0%gf /\ length (share_y s) = length (share_y s0)) shares /\
  NoDup (share_x <$> shares).

Lemma combine_check_ok L shares :
  combine_check L shares = Ok tt <->
  Forall (fun s => share_x s <> 0%gf /\ length (share_y s) = L) shares /\
  NoDup (share_x <$> shares).
Proof.
  induction shares as [|s shares IH]; csimpl.
  { split; [|done]. intros _. split; constructor. }
  rewrite Forall_cons, NoDup_cons, <- b2z_eq_0.
  destruct (Z.eqb_spec (b2z (share_x s)) 0); [naive_solver|].
  destruct (Nat.eqb_spec (length (share_y s)) L); simpl; [|naive_solver].
  destruct (bool_decide_reflect (share_x s ∈ share_x <$> shares)); naive_solver.
Qed.

Lemma combine_check_throw L shares e :
  combine_check L shares = Throw e ->
  e = CombineZeroX \/ e = CombineLengthMismatch \/ e = CombineDuplicateX.
Proof.
  induction shares as [|s shares IH]; simpl; [done|]. intros He. by case_all; auto.
Qed.

Lemma combine_bytes_spec shares (v : nat -> byte) bs :
  (forall b, b ∈ bs -> combine_byte b shares 0 shares 0%gf = Ok (v b)) ->
  combine_bytes bs shares = Ok (v <$> bs).
Proof.
  induction bs as [|b bs IH]; intros H; [done|]. simpl.
  rewrite H by left. simpl. rewrite IH; [done|]. intros. apply H. by right.
Qed.

Lemma foldr_shares_gsum b (f w : byte -> byte) l :
  (forall s, s ∈ l -> nth b (share_y s) Byte.x00 = f (share_x s)) ->
  foldr (fun s r => nth b (share_y s) Byte.x00 * w (share_x s) + r)%gf 0%gf l
  = gsum (fun x => f x * w x)%gf (share_x <$> l).
Proof.
  induction l as [|s l IH]; intros Hf; [done|]. csimpl.
  rewrite Hf by left. rewrite IH; [done|]. intros. apply Hf. by right.
Qed.

Lemma combine_byte_gsum b shares (f : byte -> byte) :
  NoDup (share_x <$> shares) ->
  (forall s, s ∈ shares -> nth b (share_y s) Byte.x00 = f (share_x s)) ->
  combine_byte b shares 0 shares 0%gf = Ok (lagrange0 f (share_x <$> shares)).
Proof.
  intros Hnd Hf. rewrite combine_byte_spec by done. rewrite gf_add_0_l. f_equal.
  by apply (foldr_shares_gsum b f (fun x => weight x (others x (share_x <$> shares)))).
Qed.

Lemma nth_seq_id (l : bytes) : (fun b => nth b l Byte.x00) <$> seq 0 (length l) = l.
Proof.
  apply list_eq. intros i. rewrite list_lookup_fmap.
  destruct (decide (i < length l)%nat) as [Hi|Hi].
  - rewrite lookup_seq_lt by done. simpl.
    destruct (lookup_lt_is_Some_2 l i Hi) as [c Hc]. by rewrite Hc, (nth_lookup_Some _ _ _ _ Hc).
  - rewrite lookup_seq_ge, lookup_ge_None_2 by lia. done.
Qed.

(** A share [split] produced carries the polynomial values of its point. *)
Lemma split_shares rnd secret threshold total shares :
  split rnd secret threshold total = Ok shares ->
  secret <> [] /\ 0 < b2z threshold <= b2z total /\
  length shares = Z.to_nat (b2z total) /\
  Forall (fun s => share_x s <> 0%gf /\ length (share_y s) = length secret /\
    forall b c, secret !! b = Some c ->
      nth b (share_y s) Byte.x00
      = horner (coeffs_of rnd (Z.to_nat (b2z threshold)) b c) (share_x s)) shares.
Proof.
  unfold split. pose proof (b2z_range threshold). pose proof (b2z_range total).
  destruct (bool_decide_reflect (secret = [])) as [|Hne]; [done|].
  destruct (Z.eqb_spec (b2z threshold) 0), (Z.eqb_spec (b2z total) 0),
    (Z.ltb_spec (b2z total) (b2z threshold)); cbn [orb]; try done.
  intros [= <-]. split_and!; [done|lia|lia| |].
  - by rewrite length_fmap, length_seq.
  - rewrite Forall_fmap, Forall_forall. intros i [_ Hi]%elem_of_seq.
    unfold compose. cbn [share_x share_y]. split_and!.
    + rewrite <- b2z_eq_0, b2z_z2b_small by lia. lia.
    + apply length_imap.
    + intros b c Hb. rewrite <- gf_eval_horner. apply nth_lookup_Some.
      by rewrite list_lookup_imap, Hb.
Qed.

Lemma length_coeffs_of rnd m b c :
  (1 <= m)%nat -> (forall b n, length (rnd b n) = n) -> length (coeffs_of rnd m b c) = m.
Proof.
  intros Hm Hr. unfold coeffs_of. destruct (Nat.ltb_spec 1 m); simpl; rewrite ?Hr; lia.
Qed.

Lemma horner_coeffs_zero rnd m b c : horner (coeffs_of rnd m b c) 0%gf = c.
Proof. unfold coeffs_of. rewrite horner_cons. ring. Qed.

(** *** Interpolating polynomials exist and are unique *)

(** The coefficients of [prev + (X - a) * p]. *)
Fixpoint mul_linear (a prev : byte) (p : bytes) : bytes :=
  match p with
  | [] => [prev]
  | c :: p' => (prev - a * c)%gf :: mul_linear a c p'
  end.

Lemma length_mul_linear a prev p : length (mul_linear a prev p) = S (length p).
Proof. revert prev. induction p; intros prev; simpl; auto. Qed.

Lemma horner_mul_linear a prev p x :
  horner (mul_linear a prev p) x = (prev + (x - a) * horner p x)%gf.
Proof.
  revert prev. induction p as [|c p IH]; intros prev; simpl; [ring|]. rewrite IH. ring.
Qed.

Lemma interpolate (pts : list (byte * byte)) :
  NoDup pts.*1 ->
  exists p, length p = length pts /\ Forall (fun q => horner p q.1 = q.2) pts.
Proof.
  induction pts as [|[a v] pts IH]; csimpl; [by exists []|].
  intros [Ha Hnd]%NoDup_cons.
  destruct (IH Hnd) as (p & Hlen & Hp).
  (* vanish on the other points, then scale to reach [v] at [a] *)
  assert (forall l : list byte, exists w, length w = S (length l) /\
    forall x, horner w x = gprod (fun o => x - o)%gf l) as Hvan.
  { induction l as [|o l (w & Hw & Hh)]; [exists [1%gf]; split; [done|intros; simpl; ring]|].
    exists (mul_linear o 0%gf w). rewrite length_mul_linear, Hw. split; [done|].
    intros x. rewrite horner_mul_linear, Hh. simpl. ring. }
  destruct (Hvan pts.*1) as (w & Hw & Hh).
  destruct (gf_div_spec (v - horner p a)%gf _ (den_nonzero a pts.*1 Ha)) as (k & _ & Hk).
  assert (forall p w x, length w = S (length p) ->
    horner (zip_with (fun u c => u + k * c)%gf (p ++ [0%gf]) w) x
    = (horner p x + k * horner w x)%gf) as Hzip.
  { clear. induction p as [|u p IHp]; intros [|c w] x Hl; simpl in Hl; try lia.
    - destruct w; simpl in *; [ring|lia].
    - simpl. rewrite IHp by lia. ring. }
  exists (zip_with (fun u c => u + k * c)%gf (p ++ [0%gf]) w). split.
  - rewrite length_zip_with, length_app, Hlen, Hw, length_fmap. simpl. lia.
  - assert (length w = S (length p)) as Hw' by (rewrite Hw, Hlen, length_fmap; done).
    constructor; simpl.
    + rewrite Hzip, Hh by done. rewrite Hk. ring.
    + rewrite Forall_forall in Hp |- *. intros [x y] Hxy. specialize (Hp _ Hxy). simpl in *.
      rewrite Hzip, Hh, Hp by done.
      assert (gprod (fun o => x - o)%gf pts.*1 = 0%gf) as ->.
      { assert (x ∈ pts.*1) as Hx by (apply list_elem_of_fmap; by exists (x, y)).
        revert Hx. generalize pts.*1 as l. induction l as [|o l IHl]; [by intros ?%not_elem_of_nil|].
        simpl. intros [<-|Hx]%elem_of_cons.
        - unfold gf_sub. rewrite gf_add_diag. ring.
        - rewrite IHl by done. ring. }
      ring.
Qed.

Lemma horner_unique p q xs :
  NoDup xs -> length p = length q -> (length p <= length xs)%nat ->
  Forall (fun x => horner p x = horner q x) xs -> p = q.
Proof.
  intros Hnd Hpq Hlen Hall.
  assert (forall p q x, length p = length q ->
    horner (zip_with gf_sub p q) x = (horner p x - horner q x)%gf) as Hzip.
  { clear. induction p as [|u p IHp]; intros [|c w] x Hl; simpl in *; try lia; [ring|].
    rewrite IHp by lia. ring. }
  assert (Forall (eq 0%gf) (zip_with gf_sub p q)) as Hz.
  { apply (horner_roots _ xs Hnd); [rewrite length_zip_with; lia|].
    eapply Forall_impl; [exact Hall|]. intros x Hx. simpl in Hx. rewrite Hzip, Hx by done. ring. }
  clear -Hpq Hz. revert q Hpq Hz. induction p as [|u p IH]; intros [|c q] Hl; simpl in *; try lia;
    [done|]. intros [Hu Hz]%Forall_cons. f_equal; [|apply IH; auto].
  apply gf_add_eq_0. by symmetry.
Qed.

Lemma combine_unfold s0 l :
  combine (s0 :: l) =
  if (length (share_y s0) =? 0)%nat then Throw CombineZeroLength
  else rbind (combine_check (length (share_y s0)) (s0 :: l))
         (fun _ => combine_bytes (seq 0 (length (share_y s0))) (s0 :: l)).
Proof. done. Qed.

(** ** Properties *)

(** The secret is what [combine] interpolates from [threshold] shares of [split]. *)
Lemma enough_shares_reconstruct (rnd : nat -> nat -> bytes) (secret : bytes)
    (threshold total : byte) (shares sel : list Share) :
  (forall b n, length (rnd b n) = n) ->
  split rnd secret threshold total = Ok shares ->
  (forall s, s ∈ sel -> s ∈ shares) ->
  NoDup (share_x <$> sel) ->
  b2z threshold <= Z.of_nat (length sel) ->
  combine sel = Ok secret.
Proof.
  intros Hrnd Hsplit Hsub Hnd Hlen.
  apply split_shares in Hsplit as (Hne & Hth & _ & Hsh). rewrite Forall_forall in Hsh.
  destruct sel as [|s0 sel']; [simpl in Hlen; lia|]. rewrite combine_unfold.
  set (sel := s0 :: sel') in *.
  assert (forall s, s ∈ sel -> share_x s <> 0%gf /\ length (share_y s) = length secret) as Hok.
  { intros s Hs. destruct (Hsh s (Hsub s Hs)) as (? & ? & _). done. }
  destruct (Hok s0 ltac:(left)) as [_ ->].
  destruct (Nat.eqb_spec (length secret) 0) as [E|_]; [by apply nil_length_inv in E|].
  assert (combine_check (length secret) sel = Ok tt) as ->.
  { apply combine_check_ok. split; [by rewrite Forall_forall|done]. }
  cbn [rbind]. rewrite (combine_bytes_spec _ (fun b => nth b secret Byte.x00)).
  { by rewrite nth_seq_id. }
  intros b [_ Hb]%elem_of_seq. destruct (lookup_lt_is_Some_2 secret b Hb) as [c Hc].
  rewrite (nth_lookup_Some _ _ _ _ Hc).
  set (p := coeffs_of rnd (Z.to_nat (b2z threshold)) b c).
  rewrite (combine_byte_gsum b sel (horner p)) by
    (done || (intros s Hs; by apply (Hsh s (Hsub s Hs)))).
  f_equal. rewrite lagrange0_horner; [apply horner_coeffs_zero|done|].
  unfold p. rewrite length_coeffs_of, length_fmap by (done || lia). lia.
Qed.

(** C20: threshold reconstruction. Whatever random bytes libsodium supplies, any
    selection of at least [threshold] distinct shares out of those [split]
    returned, in any order, makes [combine] return the secret. *)
Theorem shamir_reconstruct (rnd : nat -> nat -> bytes) (secret : bytes)
    (threshold total : byte) (shares sel : list Share) :
  (forall b n, length (rnd b n) = n) ->
  split rnd secret threshold total = Ok shares ->
  (forall s, s ∈ sel -> s ∈ shares) ->
  NoDup (share_x <$> sel) ->
  b2z threshold <= Z.of_nat (length sel) ->
  combine sel = Ok secret.
Proof. apply enough_shares_reconstruct. Qed.

Lemma shamir_reconstruct_witness :
  let rnd := fun b n => replicate n (z2b (7 * Z.of_nat b + 5)) in
  match split rnd [Byte.x53; Byte.xca] Byte.x02 Byte.x04 with
  | Ok [s1; s2; s3; s4] => combine [s4; s2] = Ok [Byte.x53; Byte.xca]
  | _ => False
  end.
Proof.
  set (rnd := fun b n => replicate n (z2b (7 * Z.of_nat b + 5))).
  destruct (split rnd [Byte.x53; Byte.xca] Byte.x02 Byte.x04) as [shares|] eqn:E;
    [|vm_compute in E; discriminate].
  pose proof (shamir_reconstruct rnd [Byte.x53; Byte.xca] Byte.x02 Byte.x04 shares) as H.
  specialize (fun sel => H sel ltac:(intros; apply length_replicate) E).
  vm_compute in E. injection E as <-.
  apply H; [|apply (bool_decide_unpack _); vm_compute; exact I|vm_compute; discriminate].
  intros s. rewrite !elem_of_cons. intros [->|[->|[]%not_elem_of_nil]]; tauto.
Defined.

(** *** What fewer than [threshold] shares reveal *)

#[local] Instance share_byte_inhabited : Inhabited byte := populate Byte.x00.

(** For a secret byte and any values at distinct nonzero points there is exactly one
    row of coefficients. *)
Lemma coefficients_unique (s : byte) (xs ys : list byte) :
  length ys = length xs -> NoDup xs -> 0%gf ∉ xs ->
  exists! r : bytes, length r = length xs /\ gf_eval (s :: r) <$> xs = ys.
Proof.
  intros Hys Hnd H0.
  assert ((zip (0%gf :: xs) (s :: ys)).*1 = 0%gf :: xs) as Hfst by (apply fst_zip; simpl; lia).
  destruct (interpolate (zip (0%gf :: xs) (s :: ys))) as (p & Hlen & Hp).
  { rewrite Hfst. by constructor. }
  rewrite length_zip_with in Hlen. simpl in Hlen.
  destruct p as [|c r]; [simpl in Hlen; lia|]. simpl in Hlen.
  cbn [zip zip_with] in Hp. apply Forall_cons in Hp as [Hc Hp]. simpl in Hc.
  assert (c = s) as -> by (rewrite <- Hc; ring). clear Hc.
  exists r. split.
  - split; [lia|]. apply list_eq. intros i. rewrite list_lookup_fmap.
    destruct (xs !! i) as [x|] eqn:Ex; simpl.
    + destruct (lookup_lt_is_Some_2 ys i) as [y Ey]; [apply lookup_lt_Some in Ex; lia|].
      rewrite Ey, gf_eval_horner. f_equal.
      apply (Forall_lookup_1 _ _ i (x, y)) in Hp; [done|]. by rewrite lookup_zip_with, Ex, Ey.
    + symmetry. apply lookup_ge_None. apply lookup_ge_None in Ex. lia.
  - intros r' [Hlr Hmap].
    assert (s :: r = s :: r') as [= ->]; [|done].
    apply (horner_unique _ _ (0%gf :: xs)); simpl; [by constructor|lia|lia|].
    constructor; [ring|]. rewrite Forall_forall. intros x [i Ex]%list_elem_of_lookup.
    rewrite <- !horner_cons, <- (gf_eval_horner (s :: r')).
    apply (f_equal (fun l => l !! i)) in Hmap. rewrite list_lookup_fmap, Ex in Hmap.
    simpl in Hmap. symmetry in Hmap.
    refine (Forall_lookup_1 _ _ i (x, _) Hp _).
    by rewrite lookup_zip_with, Ex, Hmap.
Qed.

(** One unique choice at each index makes a unique list of choices. *)
Lemma unique_rows {A} (P : nat -> A -> Prop) (n : nat) :
  (forall b, (b < n)%nat -> exists! r, P b r) ->
  exists! rows : list A, length rows = n /\ forall b r, rows !! b = Some r -> P b r.
Proof.
  induction n as [|n IH]; intros Hex.
  - exists []. split; [done|]. intros rows [Hl _]. by apply nil_length_inv in Hl.
  - destruct IH as (rows & (Hl & Hrows) & Huniq); [intros b Hb; apply Hex; lia|].
    destruct (Hex n) as (r & Hr & Hru); [lia|]. exists (rows ++ [r]). split.
    + split; [rewrite length_app; simpl; lia|]. intros b r' [Hb|[Hb Hs]]%lookup_app_Some; [by apply Hrows|].
      apply list_lookup_singleton_Some in Hs as [Hz <-]. by replace b with n by lia.
    + intros rows' [Hl' Hrows']. destruct rows' as [|r' rows' _] using rev_ind; [done|].
      rewrite length_app in Hl'. simpl in Hl'. f_equal.
      * apply Huniq. split; [lia|]. intros b x Hb. apply Hrows'. by apply lookup_app_l_Some.
      * f_equal. apply Hru, Hrows'. replace n with (length rows') by lia. by apply list_lookup_middle.
Qed.

(** The random bytes of one [split]: a row of [threshold - 1] bytes for each byte of the
    secret, in the order in which [randombytes_buf] writes them. *)
Definition tape (threshold : byte) (secret : bytes) (rows : list bytes) : Prop :=
  length rows = length secret /\ Forall (fun r => length r = (Z.to_nat (b2z threshold) - 1)%nat) rows.
Definition from_tape (rows : list bytes) : nat -> nat -> bytes := fun b _ => rows !!! b.

Lemma coeffs_of_tape threshold secret rows b c :
  tape threshold secret rows -> 0 < b2z threshold -> (b < length secret)%nat ->
  coeffs_of (from_tape rows) (Z.to_nat (b2z threshold)) b c = c :: rows !!! b.
Proof.
  intros [Hl Hrows] Ht Hb. unfold coeffs_of, from_tape. destruct (Nat.ltb_spec 1 (Z.to_nat (b2z threshold))); [done|].
  destruct (lookup_lt_is_Some_2 rows b) as [r Hr]; [lia|]. rewrite (list_lookup_total_correct _ _ _ Hr).
  apply (Forall_lookup_1 _ _ _ _ Hrows) in Hr. destruct r; [done|simpl in Hr; lia].
Qed.

(** The shares numbered [held] of another split are those of [shares]. *)
Definition same_view (rnd : nat -> nat -> bytes) (secret : bytes) (threshold total : byte) (shares : list Share)
    (held : list nat) : Prop :=
  exists shares', split rnd secret threshold total = Ok shares' /\ forall i, i ∈ held -> shares' !! i = shares !! i.

(** Share [i] as [split] makes it. *)
Definition share_at (rnd : nat -> nat -> bytes) (threshold : byte) (secret : bytes) (i : nat) : Share :=
  let x := z2b (Z.of_nat i + 1) in
  mkShare x (imap (fun b s => gf_eval (coeffs_of rnd (Z.to_nat (b2z threshold)) b s) x) secret).

Lemma split_share_at rnd secret threshold total shares :
  split rnd secret threshold total = Ok shares -> shares = share_at rnd threshold secret <$> seq 0 (Z.to_nat (b2z total)).
Proof. unfold split. repeat (case_match; [done|]). by intros [= <-]. Qed.

(** Whether [split] succeeds depends on the length of the secret alone. *)
Lemma split_again rnd rnd' secret secret' threshold total shares :
  split rnd secret threshold total = Ok shares -> length secret' = length secret ->
  split rnd' secret' threshold total = Ok (share_at rnd' threshold secret' <$> seq 0 (Z.to_nat (b2z total))).
Proof.
  intros Hs Hl. pose proof (split_shares _ _ _ _ _ Hs) as [Hne _]. revert Hs. unfold split.
  rewrite !bool_decide_eq_false_2 by (done || (intros ->; by destruct secret)). by case_match.
Qed.

Lemma share_at_eq rnd rnd' threshold secret secret' i : length secret' = length secret ->
  share_at rnd' threshold secret' i = share_at rnd threshold secret i <->
  forall b, (b < length secret)%nat ->
    gf_eval (coeffs_of rnd' (Z.to_nat (b2z threshold)) b (secret' !!! b)) (z2b (Z.of_nat i + 1)) =
    gf_eval (coeffs_of rnd (Z.to_nat (b2z threshold)) b (secret !!! b)) (z2b (Z.of_nat i + 1)).
Proof.
  intros Hl. unfold share_at. split.
  - intros [= E] b Hb. apply (f_equal (fun l => l !! b)) in E.
    rewrite !list_lookup_imap, !(list_lookup_lookup_total_lt _ b) in E by lia. by injection E.
  - intros Hall. f_equal. apply list_eq. intros b. rewrite !list_lookup_imap.
    destruct (decide (b < length secret)%nat) as [Hb|Hb].
    + rewrite !(list_lookup_lookup_total_lt _ b) by lia. cbn. f_equal. by apply Hall.
    + by rewrite !(lookup_ge_None_2 _ b) by lia.
Qed.

(** What a coalition sees, as the values of the polynomials at its points. *)
Lemma same_view_iff secret secret' threshold total rows rows' shares held :
  tape threshold secret rows -> tape threshold secret' rows' -> length secret' = length secret ->
  split (from_tape rows) secret threshold total = Ok shares -> Forall (fun i => (i < length shares)%nat) held ->
  same_view (from_tape rows') secret' threshold total shares held <->
  forall b, (b < length secret)%nat ->
    gf_eval ((secret' !!! b) :: rows' !!! b) <$> ((fun i : nat => z2b (Z.of_nat i + 1)) <$> held) =
    gf_eval ((secret !!! b) :: rows !!! b) <$> ((fun i : nat => z2b (Z.of_nat i + 1)) <$> held).
Proof.
  intros Ht Ht' Hl Hs Hheld. pose proof (split_shares _ _ _ _ _ Hs) as (_ & Hth & Hls & _).
  rewrite Hls in Hheld. rewrite Forall_forall in Hheld. unfold same_view.
  rewrite (split_again _ (from_tape rows') _ _ _ _ _ Hs Hl), (split_share_at _ _ _ _ _ Hs).
  assert (forall i, i ∈ held ->
    (share_at (from_tape rows') threshold secret' <$> seq 0 (Z.to_nat (b2z total))) !! i =
    (share_at (from_tape rows) threshold secret <$> seq 0 (Z.to_nat (b2z total))) !! i <->
    forall b, (b < length secret)%nat ->
      gf_eval ((secret' !!! b) :: rows' !!! b) (z2b (Z.of_nat i + 1)) = gf_eval ((secret !!! b) :: rows !!! b) (z2b (Z.of_nat i + 1))) as Hi.
  { intros i Hi%Hheld. rewrite !list_lookup_fmap, !lookup_seq_lt by done. cbn [fmap option_fmap option_map Nat.add].
    rewrite (inj_iff Some), share_at_eq by done. split; intros Hall b Hb; specialize (Hall b Hb);
      rewrite (coeffs_of_tape threshold secret' rows'), (coeffs_of_tape threshold secret rows) in * by (done || lia); done. }
  split.
  - intros (shares' & [= <-] & Hall) b Hb. rewrite <- !list_fmap_compose. apply list_fmap_ext.
    intros k i Hk. apply list_elem_of_lookup_2 in Hk. by apply Hi; [|apply Hall|].
  - intros Hall. eexists. split; [done|]. intros i Hin. apply Hi; [done|]. intros b Hb.
    specialize (Hall b Hb). rewrite <- !list_fmap_compose in Hall.
    apply list_elem_of_lookup in Hin as [k Hk]. apply (f_equal (fun l => l !! k)) in Hall.
    rewrite !list_lookup_fmap, Hk in Hall. by injection Hall.
Qed.

Lemma share_points_ok (total : byte) (held : list nat) :
  NoDup held -> Forall (fun i => (i < Z.to_nat (b2z total))%nat) held ->
  let xs := (fun i : nat => z2b (Z.of_nat i + 1)) <$> held in NoDup xs /\ 0%gf ∉ xs.
Proof.
  pose proof (b2z_range total) as Ht. intros Hnd Hall. rewrite Forall_forall in Hall.
  assert (forall i, i ∈ held -> b2z (z2b (Z.of_nat i + 1)) = Z.of_nat i + 1) as Hx.
  { intros i Hi%Hall. apply b2z_z2b_small. lia. }
  split.
  - apply NoDup_fmap_2_strong; [|done]. intros i j Hi Hj E. apply (f_equal b2z) in E. rewrite !Hx in E by done. lia.
  - intros (i & E & Hi)%list_elem_of_fmap. apply (f_equal b2z) in E. rewrite Hx in E by done.
    change (b2z 0%gf) with 0 in E. lia.
Qed.

(** C21: perfect secrecy of fewer than [threshold] shares.  [split] has shared a secret
    with the random bytes [rows], and a coalition holds [threshold - 1] of the shares.
    For every other secret of that length exactly one choice of the random bytes makes
    [split] hand the coalition the very same shares: all secrets are equally likely. *)
Theorem shamir_perfect_secrecy (secret secret' : bytes) (threshold total : byte) (rows : list bytes)
    (shares : list Share) (held : list nat) :
  tape threshold secret rows -> split (from_tape rows) secret threshold total = Ok shares ->
  NoDup held -> Forall (fun i => (i < length shares)%nat) held -> length held = (Z.to_nat (b2z threshold) - 1)%nat ->
  length secret' = length secret ->
  exists! rows', tape threshold secret' rows' /\ same_view (from_tape rows') secret' threshold total shares held.
Proof.
  intros Ht Hs Hnd Hheld Hlen Hl. pose proof (split_shares _ _ _ _ _ Hs) as (_ & Hth & Hls & _).
  destruct (share_points_ok total held Hnd) as [Hxs H0]; [by rewrite <- Hls|].
  set (xs := (fun i : nat => z2b (Z.of_nat i + 1)) <$> held) in *.
  destruct (unique_rows (fun b r => length r = (Z.to_nat (b2z threshold) - 1)%nat /\
      gf_eval ((secret' !!! b) :: r) <$> xs = gf_eval ((secret !!! b) :: rows !!! b) <$> xs)
    (length secret')) as (rows' & (Hl' & Hrows') & Huniq).
  { intros b _. rewrite <- Hlen. replace (length held) with (length xs) by (by apply length_fmap).
    apply coefficients_unique; [apply length_fmap|done|done]. }
  exists rows'. split.
  - assert (tape threshold secret' rows') as Ht'.
    { split; [done|]. apply Forall_lookup. intros b r Hb. by apply (Hrows' b). }
    split; [done|]. apply (same_view_iff secret secret' threshold total rows rows'); try done. intros b Hb.
    destruct (lookup_lt_is_Some_2 rows' b) as [r Hr]; [lia|]. rewrite (list_lookup_total_correct _ _ _ Hr).
    by apply (Hrows' b).
  - intros rows2 [Ht2 Hv]. apply Huniq. split; [apply Ht2|]. intros b r Hr. split.
    + by apply (Forall_lookup_1 _ _ _ _ (proj2 Ht2) Hr).
    + pose proof (proj1 (same_view_iff secret secret' threshold total rows rows2 shares held Ht Ht2 Hl Hs Hheld) Hv) as E.
      specialize (E b). rewrite (list_lookup_total_correct _ _ _ Hr) in E. apply E.
      apply lookup_lt_Some in Hr. destruct Ht2 as [Ht2 _]. lia.
Qed.

(** Three shares of which three are needed: the holders of the first and the last cannot
    tell one secret of two bytes from another. *)
Lemma shamir_perfect_secrecy_witness :
  let rows := [[Byte.x11; Byte.x22]; [Byte.xfe; Byte.x07]] in
  match split (from_tape rows) [Byte.x53; Byte.xca] Byte.x03 Byte.x03 with
  | Ok shares => exists! rows', tape Byte.x03 [Byte.xaa; Byte.x00] rows' /\
      same_view (from_tape rows') [Byte.xaa; Byte.x00] Byte.x03 Byte.x03 shares [0%nat; 2%nat]
  | Throw _ => False
  end.
Proof.
  intros rows. destruct (split (from_tape rows) [Byte.x53; Byte.xca] Byte.x03 Byte.x03) as [shares|] eqn:E;
    [|vm_compute in E; discriminate].
  apply (shamir_perfect_secrecy [Byte.x53; Byte.xca] [Byte.xaa; Byte.x00] Byte.x03 Byte.x03 rows shares [0%nat; 2%nat]);
    [by repeat constructor|exact E| | |reflexivity|reflexivity].
  - apply (bool_decide_unpack _). vm_compute. exact I.
  - vm_compute in E. injection E as <-. repeat constructor.
Defined.

(** [combine] succeeds exactly on non-empty lists of shares of one non-zero
    length with distinct non-zero x-coordinates, and then with that length;
    in particular the division by zero of [gf_div] is never reached. *)
Theorem combine_total (shares : list Share) :
  (shares_valid shares <-> exists secret, combine shares = Ok secret) /\
  combine shares <> Throw GfDivideByZero.
Proof.
  destruct shares as [|s0 shares']; [split; [|done]; split; [by intros (? & [=] & _)|by intros [? [=]]]|].
  rewrite combine_unfold. set (shares := s0 :: shares').
  assert (shares_valid shares <->
    share_y s0 <> [] /\ combine_check (length (share_y s0)) shares = Ok tt) as Hv.
  { rewrite combine_check_ok. split.
    - intros (s & [= <-] & ?). done.
    - intros [? ?]. by exists s0. }
  destruct (Nat.eqb_spec (length (share_y s0)) 0) as [E|E].
  { apply nil_length_inv in E. split; [|done]. rewrite Hv. split; [tauto|by intros [? [=]]]. }
  assert (share_y s0 <> []) as Hne by (intros H; by rewrite H in E).
  destruct (combine_check (length (share_y s0)) shares) as [[]|e] eqn:Ec.
  - apply combine_check_ok in Ec as Hck. destruct Hck as [_ Hnd]. cbn [rbind].
    rewrite (combine_bytes_spec _ (fun b => foldr (fun s r => nth b (share_y s) Byte.x00 *
      weight (share_x s) (others (share_x s) (share_x <$> shares)) + r) 0 shares)%gf)
      by (intros b _; rewrite combine_byte_spec by done; by rewrite gf_add_0_l).
    split; [|done]. rewrite Hv. split; [eauto|done].
  - cbn [rbind]. split; [rewrite Hv; split; [by intros [_ [=]]|by intros [? [=]]]|].
    apply combine_check_throw in Ec. naive_solver.
Qed.

(** the share codec: decoding inverts encoding, encoding inverts decoding,
    and each side rejects exactly the shares with x = 0 or no payload. *)
Theorem share_codec_roundtrip (s : Share) (bs : bytes) :
  (encode_share s = Ok bs <-> decode_share bs = Ok s) /\
  (encode_share s = Throw EncodeInvalidShare <-> share_x s = Byte.x00 \/ share_y s = []).
Proof.
  destruct s as [x y]. unfold encode_share, decode_share; simpl. rewrite <- (b2z_eq_0 x).
  destruct (Z.eqb_spec (b2z x) 0) as [Hx|Hx]; simpl.
  - split; [|naive_solver]. split; [done|]. destruct bs as [|x' y']; [done|]. simpl.
    case_match; [done|]. destruct (Z.eqb_spec (b2z x') 0); [done|]. by intros [= -> ->].
  - destruct (bool_decide_reflect (y = [])) as [->|Hy].
    + split; [|naive_solver]. split; [done|]. destruct bs as [|x' [|y0 y']]; simpl; try done.
      by case_match.
    + split; [|naive_solver]. split.
      * intros [= <-]. destruct y; [done|]. simpl. by destruct (Z.eqb_spec (b2z x) 0).
      * destruct bs as [|x' [|y0 y']]; simpl; try done. case_match; [done|]. by intros [= -> <-].
Qed.
