(* ===== verification/Crypto.v ===== *)
(** * Cryptographic primitives and wire messages

    libsodium and the protobuf-generated classes are not part of the sources:
    they are parameters here, gathered in the classes [Sodium] and [ProtoMsg]
    with the documented behaviour the code relies on.  On top of them this file
    translates [src/core/src/crypto/hkdf.cpp] and the XChaCha20 half of
    [src/core/src/crypto/aead.cpp]. *)
From S2P Require Import Prelude.

(** ** libsodium *)

Class Sodium := {
  (** [crypto_auth_hmacsha256(out, in, inlen, key)]; always returns 0. *)
  hmacsha256 : bytes -> bytes -> bytes;
  (** [crypto_aead_xchacha20poly1305_ietf_encrypt / _decrypt]. *)
  xchacha_seal : bytes -> bytes -> bytes -> bytes -> bytes;
  xchacha_open : bytes -> bytes -> bytes -> bytes -> option bytes;
  (** [crypto_scalarmult]: fails ([None]) on a low-order result. *)
  scalarmult : bytes -> bytes -> option bytes;
  scalarmult_base : bytes -> bytes;
}.

(** The documented behaviour the development relies on. *)
Class SodiumLaws `{Sodium} := {
  length_hmac : forall k m, length (hmacsha256 k m) = 32%nat;
  length_seal : forall k n p a, length (xchacha_seal k n p a) = (length p + 16)%nat;
  open_seal : forall k n p a, xchacha_open k n (xchacha_seal k n p a) a = Some p;
  (** Diffie-Hellman: both sides compute the same shared point. *)
  scalarmult_comm : forall a b,
    scalarmult a (scalarmult_base b) = scalarmult b (scalarmult_base a);
  length_scalarmult_base : forall a, length (scalarmult_base a) = 32%nat;
}.

(** ** UTF-8 *)

Definition in_range (lo hi : Z) (b : byte) : bool := (lo <=? b2z b) && (b2z b <=? hi).
Definition cont_byte : byte -> bool := in_range 128 191.

(** Well-formed sequences: no overlong forms, no surrogates, at most U+10FFFF. *)
Fixpoint utf8_valid (b : bytes) : bool :=
  match b with
  | [] => true
  | x :: r =>
      let v := b2z x in
      if v <? 128 then utf8_valid r
      else match r with
      | [] => false
      | y :: r1 =>
          if (194 <=? v) && (v <=? 223) then cont_byte y && utf8_valid r1
          else match r1 with
          | [] => false
          | z :: r2 =>
              if v =? 224 then in_range 160 191 y && cont_byte z && utf8_valid r2
              else if v =? 237 then in_range 128 159 y && cont_byte z && utf8_valid r2
              else if (225 <=? v) && (v <=? 239) then cont_byte y && cont_byte z && utf8_valid r2
              else match r2 with
              | [] => false
              | w :: r3 =>
                  if v =? 240 then in_range 144 191 y && cont_byte z && cont_byte w && utf8_valid r3
                  else if (241 <=? v) && (v <=? 243) then cont_byte y && cont_byte z && cont_byte w && utf8_valid r3
                  else if v =? 244 then in_range 128 143 y && cont_byte z && cont_byte w && utf8_valid r3
                  else false
              end
          end
      end
  end.

(** ** Protobuf messages: [SerializeToArray] and [ParseFromArray]

    [pb_ok] says that the integer fields of a message are in the range of their
    declared types, and its [string] fields valid UTF-8, without which the parser of
    proto3 refuses the message; each message type of the development states its own. *)

Class ProtoFields (M : Type) := pb_ok : M -> Prop.

Class ProtoMsg (M : Type) := {
  pb_serialize : M -> bytes;
  pb_parse : bytes -> option M;
}.

Class ProtoLaws (M : Type) `{ProtoFields M, ProtoMsg M} := {
  pb_parse_serialize : forall m, pb_ok m -> pb_parse (pb_serialize m) = Some m;
  pb_parse_ok : forall b m, pb_parse b = Some m -> pb_ok m;
}.

Section hkdf.
Context `{Sodium}.

Definition kHkdfSha256Bytes : nat := 32.

(** An empty salt stands for 32 zero bytes. *)
Definition hkdf_extract (salt ikm : bytes) : bytes :=
  let key := match salt with [] => replicate kHkdfSha256Bytes Byte.x00 | _ => salt end in
  hmacsha256 key ikm.

Inductive HkdfError := OkmLenOutOfRange.

(** [while (off < okm_len)]: [t] is the previous block (empty before the
    first), [counter] the 8-bit block number, [okm] what has been written. *)
Fixpoint expand_loop (fuel : nat) (prk info : bytes) (okm_len : nat)
    (t : bytes) (counter : Z) (okm : bytes) : bytes :=
  match fuel with
  | O => okm
  | S fuel' =>
      if (length okm <? okm_len)%nat then
        let counter := (counter + 1) mod 256 in
        let t := hmacsha256 prk (t ++ info ++ [z2b counter]) in
        let take_n := Nat.min kHkdfSha256Bytes (okm_len - length okm) in
        expand_loop fuel' prk info okm_len t counter (okm ++ take take_n t)
      else okm
  end.

(** Each turn writes a full block except perhaps the last: [okm_len] turns
    are more than enough. *)
Definition hkdf_expand (prk info : bytes) (okm_len : nat) : result HkdfError bytes :=
  if (okm_len =? 0)%nat || (255 * kHkdfSha256Bytes <? okm_len)%nat
  then Throw OkmLenOutOfRange
  else Ok (expand_loop okm_len prk info okm_len [] 0 []).

(** RFC 5869: T(0) is empty, T(i+1) = HMAC(PRK, T(i) || info || i+1). *)
Fixpoint rfc_block (prk info : bytes) (i : nat) : bytes :=
  match i with
  | O => []
  | S i' => hmacsha256 prk (rfc_block prk info i' ++ info ++ [z2b (Z.of_nat i)])
  end.

Definition rfc_okm (prk info : bytes) (n : nat) : bytes :=
  mjoin ((fun i => rfc_block prk info (S i)) <$> seq 0 n).

Context `{!SodiumLaws}.

Lemma length_rfc_block prk info i : length (rfc_block prk info (S i)) = 32%nat.
Proof. apply length_hmac. Qed.

Lemma rfc_okm_S prk info n :
  rfc_okm prk info (S n) = rfc_okm prk info n ++ rfc_block prk info (S n).
Proof.
  unfold rfc_okm. rewrite seq_S, fmap_app, join_app. simpl mjoin. by rewrite app_nil_r.
Qed.

Lemma length_rfc_okm prk info n : length (rfc_okm prk info n) = (32 * n)%nat.
Proof.
  induction n as [|n IH]; [done|].
  rewrite rfc_okm_S, length_app, IH, length_rfc_block. lia.
Qed.

Lemma rfc_okm_prefix prk info n m L :
  (n <= m)%nat -> (L <= 32 * n)%nat -> take L (rfc_okm prk info m) = take L (rfc_okm prk info n).
Proof.
  intros Hnm HL. induction Hnm as [|m Hnm IH]; [done|].
  rewrite rfc_okm_S, take_app_le; [done|]. rewrite length_rfc_okm. lia.
Qed.

Lemma expand_loop_rfc fuel prk info L i :
  (1 <= L <= 255 * 32)%nat -> (i <= 255)%nat -> (L <= 32 * i + fuel)%nat ->
  expand_loop fuel prk info L (rfc_block prk info i) (Z.of_nat i) (take L (rfc_okm prk info i))
  = take L (rfc_okm prk info 255).
Proof.
  intros HL. revert i. induction fuel as [|fuel IH]; intros i Hi Hf; cbn [expand_loop].
  { symmetry. apply rfc_okm_prefix; lia. }
  rewrite length_take, length_rfc_okm.
  destruct (Nat.ltb_spec (Nat.min L (32 * i)) L) as [Hlt|Hge].
  - rewrite <- (IH (S i)) by lia. replace ((Z.of_nat i + 1) mod 256) with (Z.of_nat (S i))
      by (rewrite Z.mod_small; lia).
    f_equal. rewrite rfc_okm_S.
    rewrite (take_ge (rfc_okm prk info i)) by (rewrite length_rfc_okm; lia).
    rewrite take_app_ge by (rewrite length_rfc_okm; lia). f_equal.
    rewrite length_rfc_okm. unfold kHkdfSha256Bytes.
    replace (Nat.min L (32 * i)) with (32 * i)%nat by lia.
    destruct (decide (L - 32 * i <= 32)%nat).
    + f_equal. lia.
    + rewrite (take_ge (rfc_block prk info (S i))) by (rewrite length_rfc_block; lia).
      symmetry. apply take_ge. rewrite length_rfc_block. lia.
  - symmetry. apply rfc_okm_prefix; lia.
Qed.

Lemma expand_loop_start prk info L :
  (1 <= L <= 255 * 32)%nat ->
  expand_loop L prk info L [] 0 [] = take L (rfc_okm prk info 255).
Proof.
  intros HL. rewrite <- (expand_loop_rfc L prk info L 0) by lia.
  change (rfc_okm prk info 0) with (@nil byte). by rewrite take_nil.
Qed.

(** [hkdf_expand] is RFC 5869's expand: for every permitted length it
    returns exactly that many bytes, the first ones of T(1) || ... || T(255);
    the lengths outside 1..8160 are the error. *)
Theorem hkdf_expand_rfc5869 (prk info : bytes) (okm_len : nat) :
  hkdf_expand prk info okm_len =
  if decide (1 <= okm_len <= 255 * 32)%nat
  then Ok (take okm_len (rfc_okm prk info 255)) else Throw OkmLenOutOfRange.
Proof.
  unfold hkdf_expand, kHkdfSha256Bytes.
  destruct (Nat.eqb_spec okm_len 0), (Nat.ltb_spec (255 * 32) okm_len); cbn [orb];
    case_decide; try lia; try done.
  f_equal. by apply expand_loop_start.
Qed.

Lemma hkdf_expand_ok prk info L :
  (1 <= L <= 255 * 32)%nat ->
  exists okm, hkdf_expand prk info L = Ok okm /\ length okm = L.
Proof.
  intros HL. unfold hkdf_expand, kHkdfSha256Bytes.
  destruct (Nat.eqb_spec L 0), (Nat.ltb_spec (255 * 32) L); cbn [orb]; try lia.
  eexists. split; [done|].
  rewrite expand_loop_start, length_take, length_rfc_okm by done. lia.
Qed.
End hkdf.

(** ** XChaCha20-Poly1305 ([xchacha20_encrypt] / [xchacha20_decrypt]) *)

Section aead.
Context `{Sodium}.

Definition xchacha_ABYTES : nat := 16.

Definition xchacha20_encrypt (key nonce plaintext aad : bytes) : bytes :=
  xchacha_seal key nonce plaintext aad.

(** A ciphertext shorter than the tag is refused before libsodium sees it. *)
Definition xchacha20_decrypt (key nonce ct aad : bytes) : option bytes :=
  if (length ct <? xchacha_ABYTES)%nat then None else xchacha_open key nonce ct aad.

(** The all-zero 24-byte nonce used with single-use keys. *)
Definition zero_nonce : bytes := replicate 24 Byte.x00.

Lemma xchacha20_roundtrip `{!SodiumLaws} key nonce pt aad :
  xchacha20_decrypt key nonce (xchacha20_encrypt key nonce pt aad) aad = Some pt.
Proof.
  unfold xchacha20_decrypt, xchacha20_encrypt. rewrite length_seal.
  destruct (Nat.ltb_spec (length pt + 16) xchacha_ABYTES); [unfold xchacha_ABYTES in *; lia|].
  apply open_seal.
Qed.
End aead.
