(* ===== verification/SenderKeys.v ===== *)
(** * SenderKeys group sessions ([src/core/src/crypto/sender_keys.cpp])

    The per-group session: our own sending chain, one receiving chain per peer
    with its cache of skipped message keys, the binary state codec.  Random
    bytes are arguments, libsodium and protobuf the classes of [Crypto]. *)
From S2P Require Import Prelude StdMap Crypto.

Module SenderKeys.

Definition kMaxSkip : nat := 1000.
#[global] Arguments kMaxSkip : simpl never.

(** ** Wire messages ([proto/sender_keys.proto]) *)

Record SenderKeysMessage := mkSenderKeysMessage {
  skm_chain_id : bytes;
  skm_index : Z;
  skm_ciphertext : bytes;
}.

Record SenderKeysDistribution := mkSenderKeysDistribution {
  skd_chain_id : bytes;
  skd_chain_seed : bytes;
  skd_start_index : Z;
}.

#[export] Instance skm_fields : ProtoFields SenderKeysMessage :=
  fun m => is_u32 (skm_index m).
#[export] Instance skd_fields : ProtoFields SenderKeysDistribution :=
  fun d => is_u32 (skd_start_index d).

(** ** State *)

Record PerPeerChain := mkPerPeerChain {
  chain_id : bytes;
  chain_key : bytes;
  next_index : Z;
  skipped : gmap (bytes * Z) bytes;
}.

Record GroupSession := mkGroupSession {
  own_chain_id : bytes;
  own_chain_key : bytes;
  own_next_index : Z;
  have_own_chain : bool;
  peers : gmap bytes PerPeerChain;
}.

Definition zeros (n : nat) : bytes := replicate n Byte.x00.

Definition new_session : GroupSession :=
  mkGroupSession (zeros 16) (zeros 32) 0 false ∅.

Definition set_peer (s : GroupSession) (peer_id : bytes) (c : PerPeerChain) : GroupSession :=
  mkGroupSession (own_chain_id s) (own_chain_key s) (own_next_index s) (have_own_chain s)
    (<[peer_id := c]> (peers s)).

Inductive SKError :=
| OwnChainNotInitialized
| MalformedDistribution
| WrongFieldSizes.

Section session.
Context `{!Sodium, !ProtoMsg SenderKeysMessage, !ProtoMsg SenderKeysDistribution}.

Definition derive_message_key (ck : bytes) : bytes := hmacsha256 ck [Byte.x10].
Definition ratchet_chain_key (ck : bytes) : bytes := hmacsha256 ck [Byte.x11].

Definition compose_aad (cid : bytes) (index : Z) (outer : bytes) : bytes :=
  cid ++ [ z2b (Z.land (Z.shiftr index 24) 255); z2b (Z.land (Z.shiftr index 16) 255);
           z2b (Z.land (Z.shiftr index 8) 255); z2b (Z.land index 255) ] ++ outer.

(** ** Sending *)

(** [rnd_id] and [rnd_key] are the 16 and 32 bytes [randombytes_buf] wrote. *)
Definition create_own_send_chain (s : GroupSession) (rnd_id rnd_key : bytes)
  : bytes * GroupSession :=
  (pb_serialize (mkSenderKeysDistribution rnd_id rnd_key 0),
   mkGroupSession rnd_id rnd_key 0 true (peers s)).

Definition encrypt (s : GroupSession) (plaintext outer_aad : bytes)
  : result SKError (bytes * GroupSession) :=
  if negb (have_own_chain s) then Throw OwnChainNotInitialized
  else
    let mk := derive_message_key (own_chain_key s) in
    let aad := compose_aad (own_chain_id s) (own_next_index s) outer_aad in
    let ct := xchacha20_encrypt mk zero_nonce plaintext aad in
    let m := mkSenderKeysMessage (own_chain_id s) (own_next_index s) ct in
    Ok (pb_serialize m,
        mkGroupSession (own_chain_id s) (ratchet_chain_key (own_chain_key s))
          (u32 (own_next_index s + 1)) (have_own_chain s) (peers s)).

(** ** Receiving *)

Definition install_peer_distribution (s : GroupSession) (peer_id distribution : bytes)
  : result SKError GroupSession :=
  match pb_parse (M := SenderKeysDistribution) distribution with
  | None => Throw MalformedDistribution
  | Some d =>
      if negb (length (skd_chain_id d) =? 16)%nat || negb (length (skd_chain_seed d) =? 32)%nat
      then Throw WrongFieldSizes
      else Ok (set_peer s peer_id
                 (mkPerPeerChain (skd_chain_id d) (skd_chain_seed d) (skd_start_index d) ∅))
  end.

(** One turn of [while (chain.next_index < target_index)]. *)
Definition advance_step (c : PerPeerChain) : PerPeerChain :=
  let sk := if (kMaxSkip <=? size (skipped c))%nat then erase_begin (skipped c)
            else skipped c in
  mkPerPeerChain (chain_id c) (ratchet_chain_key (chain_key c)) (u32 (next_index c + 1))
    (map_emplace (chain_id c, next_index c) (derive_message_key (chain_key c)) sk).

Fixpoint advance_loop (n : nat) (c : PerPeerChain) : PerPeerChain :=
  match n with
  | O => c
  | S n' => advance_loop n' (advance_step c)
  end.

(** [advance_chain_to]: the loop runs [target - next] times. *)
Definition advance_chain_to (c : PerPeerChain) (target : Z) : bool * PerPeerChain :=
  if target <? next_index c then (false, c)
  else if Z.of_nat kMaxSkip <? target - next_index c then (false, c)
  else (true, advance_loop (Z.to_nat (target - next_index c)) c).

(** [GroupSession::decrypt] on the chain it found for the peer. *)
Definition decrypt_chain (chain : PerPeerChain) (m : SenderKeysMessage) (outer_aad : bytes)
  : option bytes * PerPeerChain :=
  if negb (bool_decide (chain_id chain = skm_chain_id m)) then (None, chain)
  else
    let aad := compose_aad (skm_chain_id m) (skm_index m) outer_aad in
    match skipped chain !! (skm_chain_id m, skm_index m) with
    | Some k =>
        match xchacha20_decrypt k zero_nonce (skm_ciphertext m) aad with
        | None => (None, chain)
        | Some pt =>
            (Some pt, mkPerPeerChain (chain_id chain) (chain_key chain) (next_index chain)
                        (delete (skm_chain_id m, skm_index m) (skipped chain)))
        end
    | None =>
        if skm_index m <? next_index chain then (None, chain)
        else match advance_chain_to chain (skm_index m) with
        | (false, chain) => (None, chain)
        | (true, chain) =>
            let mk := derive_message_key (chain_key chain) in
            match xchacha20_decrypt mk zero_nonce (skm_ciphertext m) aad with
            | None => (None, chain)
            | Some pt =>
                (Some pt, mkPerPeerChain (chain_id chain) (ratchet_chain_key (chain_key chain))
                            (u32 (next_index chain + 1)) (skipped chain))
            end
        end
    end.

Definition decrypt (s : GroupSession) (peer_id sender_keys_msg outer_aad : bytes)
  : option bytes * GroupSession :=
  match pb_parse (M := SenderKeysMessage) sender_keys_msg with
  | None => (None, s)
  | Some m =>
      if negb (length (skm_chain_id m) =? 16)%nat then (None, s)
      else match peers s !! peer_id with
      | None => (None, s)
      | Some chain =>
          let '(pt, chain') := decrypt_chain chain m outer_aad in
          (pt, set_peer s peer_id chain')
      end
  end.

Definition remove_peer (s : GroupSession) (peer_id : bytes) : GroupSession :=
  mkGroupSession (own_chain_id s) (own_chain_key s) (own_next_index s) (have_own_chain s)
    (delete peer_id (peers s)).

Definition peer_count (s : GroupSession) : nat := size (peers s).
End session.

(** ** State codec *)

Definition kStateMagic : Z := 0x46425347.
Definition kStateVersion : Z := 1.

Definition put_bytes (b : bytes) : bytes := put_u32_be (u32 (Z.of_nat (length b))) ++ b.

Definition put_peer (p : bytes * PerPeerChain) : bytes :=
  put_bytes p.1 ++ chain_id p.2 ++ chain_key p.2 ++ put_u32_be (next_index p.2).

Definition serialize_state (s : GroupSession) : bytes :=
  put_u32_be kStateMagic ++ put_u32_be kStateVersion ++
  [if have_own_chain s then Byte.x01 else Byte.x00] ++
  (if have_own_chain s
   then own_chain_id s ++ own_chain_key s ++ put_u32_be (own_next_index s) else []) ++
  put_u32_be (u32 (Z.of_nat (size (peers s)))) ++
  mjoin (put_peer <$> map_elements (peers s)).

(** The readers take the unread suffix of the blob ([blob.data() + off]) and
    return [None] where the code throws its underflow, which
    [deserialize_state] turns into [nullptr]. *)
Definition read_u32_be (v : bytes) : option (Z * bytes) :=
  match v with
  | b0 :: b1 :: b2 :: b3 :: v' => Some (rd_u32 b0 b1 b2 b3, v')
  | _ => None
  end.

Definition read_bytes (v : bytes) : option (bytes * bytes) :=
  match read_u32_be v with
  | None => None
  | Some (n, v') =>
      if Z.of_nat (length v') <? n then None
      else Some (take (Z.to_nat n) v', drop (Z.to_nat n) v')
  end.

(** [if (off + 16 + 32 + 4 > blob.size()) return nullptr;] then three reads. *)
Definition read_chain (v : bytes) : option (bytes * bytes * Z * bytes) :=
  if (length v <? 16 + 32 + 4)%nat then None
  else match read_u32_be (drop 48 v) with
  | None => None
  | Some (idx, v') => Some (take 16 v, take 32 (drop 16 v), idx, v')
  end.

(** [for (i = 0; i < n_peers; ++i)]; every turn reads at least 56 bytes, so the
    blob's length bounds the turns that can succeed. *)
Fixpoint read_peers (fuel : nat) (n : Z) (v : bytes) (acc : gmap bytes PerPeerChain)
  : option (gmap bytes PerPeerChain) :=
  if n <=? 0 then Some acc
  else match fuel with
  | O => None
  | S fuel' =>
      match read_bytes v with
      | None => None
      | Some (pid, v') =>
          match read_chain v' with
          | None => None
          | Some (cid, ck, idx, v'') =>
              read_peers fuel' (n - 1) v'' (map_emplace pid (mkPerPeerChain cid ck idx ∅) acc)
          end
      end
  end.

Definition deserialize_state (blob : bytes) : option GroupSession :=
  match read_u32_be blob with
  | None => None
  | Some (magic, v) =>
      if negb (magic =? kStateMagic) then None
      else match read_u32_be v with
      | None => None
      | Some (version, v) =>
          if negb (version =? kStateVersion) then None
          else match v with
          | [] => None
          | flag :: v =>
              let own := if negb (b2z flag =? 0) then
                           match read_chain v with
                           | None => None
                           | Some (cid, ck, idx, v') => Some (cid, ck, idx, true, v')
                           end
                         else Some (zeros 16, zeros 32, 0, false, v) in
              match own with
              | None => None
              | Some (cid, ck, idx, have_own, v) =>
                  match read_u32_be v with
                  | None => None
                  | Some (n_peers, v) =>
                      match read_peers (length v) n_peers v ∅ with
                      | None => None
                      | Some ps => Some (mkGroupSession cid ck idx have_own ps)
                      end
                  end
              end
          end
      end
  end.

End SenderKeys.
