(* ===== verification/Ratchet.v ===== *)
(** * The Double Ratchet ([src/core/src/crypto/ratchet.cpp])

    One-to-one sessions: the DH ratchet, the symmetric chains and the cache of
    skipped message keys.  Every operation returns its outcome together with
    the state it leaves behind, also when it throws: the code updates the state
    in place, so what an exception leaves is observable.  The bytes
    [randombytes_buf] writes are arguments. *)
From S2P Require Import Prelude StdMap Crypto.

Module Ratchet.

Definition kMaxSkip : nat := 1000.
#[global] Arguments kMaxSkip : simpl never.

Definition k32 : nat := 32.
(** The width of [std::size_t] in a build: 64 bits for the desktop programs, 32 for the
    WebAssembly module.  Sums of sizes wrap at it. *)
Class SizeT := size_bits : Z.
Definition size_add {SZ : SizeT} (a b : Z) : Z := (a + b) mod 2 ^ size_bits.

Definition zeros (n : nat) : bytes := replicate n Byte.x00.

(** ** Wire message ([proto/ratchet.proto]) *)

Record RatchetMessage := mkRatchetMessage {
  header_dh_pub : bytes;
  msg_pn : Z;
  msg_n : Z;
  ciphertext : bytes;
}.

#[global] Instance rm_fields : ProtoFields RatchetMessage :=
  fun m => is_u32 (msg_pn m) /\ is_u32 (msg_n m).

(** ** State *)

Record State := mkState {
  dhs_pub : bytes;
  dhs_priv : bytes;
  dhr_pub : bytes;
  have_dhr : bool;
  rk : bytes;
  cks : bytes;
  ckr : bytes;
  have_cks : bool;
  have_ckr : bool;
  ns : Z;
  nr : Z;
  pn : Z;
  skipped : gmap (bytes * Z) bytes;
}.

Definition default_state : State :=
  mkState (zeros k32) (zeros k32) (zeros k32) false (zeros k32) (zeros k32) (zeros k32)
    false false 0 0 0 ∅.

(** Every byte of key material is overwritten; the flags and counters stay. *)
Definition secure_wipe (s : State) : State :=
  mkState (zeros k32) (zeros k32) (zeros k32) (have_dhr s) (zeros k32) (zeros k32) (zeros k32)
    (have_cks s) (have_ckr s) (ns s) (nr s) (pn s) ((fun _ => zeros k32) <$> skipped s).

Inductive RError :=
| LowOrderOutput
| HkdfFailed
| SendChainEmpty
| SkipExceedsMax.

Section ratchet.
Context `{!Sodium, !ProtoMsg RatchetMessage}.
Context {SZ : SizeT}.

(** ** Key derivation *)

(** [(pub, priv)] from the 32 bytes drawn. *)
Definition x25519_keypair (rnd : bytes) : bytes * bytes := (scalarmult_base rnd, rnd).

Definition x25519_dh (priv peer_pub : bytes) : result RError bytes :=
  match scalarmult priv peer_pub with
  | None => Throw LowOrderOutput
  | Some out => Ok out
  end.

(** "FinBit-RK" *)
Definition kRkInfo : bytes :=
  [Byte.x46; Byte.x69; Byte.x6e; Byte.x42; Byte.x69; Byte.x74; Byte.x2d; Byte.x52; Byte.x4b].

Definition kdf_rk (rk dh_out : bytes) : result RError (bytes * bytes) :=
  match hkdf_expand (hkdf_extract rk dh_out) kRkInfo 64 with
  | Throw _ => Throw HkdfFailed
  | Ok out => Ok (take k32 out, take k32 (drop k32 out))
  end.

(** [(mk, new_ck)] *)
Definition kdf_ck (ck : bytes) : bytes * bytes :=
  (hmacsha256 ck [Byte.x01], hmacsha256 ck [Byte.x02]).

(** ** Initialisation *)

Definition init_alice (shared_secret peer_dh_pub rnd : bytes) : result RError State :=
  let '(pub, priv) := x25519_keypair rnd in
  let? dh := x25519_dh priv peer_dh_pub in
  let? (new_rk, new_ck) := kdf_rk shared_secret dh in
  Ok (mkState pub priv peer_dh_pub true new_rk new_ck (zeros k32) true false 0 0 0 ∅).

Definition init_bob (shared_secret our_priv our_pub : bytes) : State :=
  mkState our_pub our_priv (zeros k32) false shared_secret (zeros k32) (zeros k32)
    false false 0 0 0 ∅.

(** ** Encrypt *)

Definition compose_aad (header_dh : bytes) (pn n : Z) (outer : bytes) : bytes :=
  header_dh ++ put_u32_be pn ++ put_u32_be n ++ outer.

Definition encrypt (s : State) (plaintext outer_aad : bytes) : result RError bytes * State :=
  if negb (have_cks s) then (Throw SendChainEmpty, s)
  else
    let '(mk, new_cks) := kdf_ck (cks s) in
    let aad := compose_aad (dhs_pub s) (pn s) (ns s) outer_aad in
    let ct := xchacha20_encrypt mk zero_nonce plaintext aad in
    (Ok (pb_serialize (mkRatchetMessage (dhs_pub s) (pn s) (ns s) ct)),
     mkState (dhs_pub s) (dhs_priv s) (dhr_pub s) (have_dhr s) (rk s) new_cks (ckr s)
       (have_cks s) (have_ckr s) (u32 (ns s + 1)) (nr s) (pn s) (skipped s)).

(** ** Decrypt *)

(** One turn of [while (s.nr < until)]. *)
Definition skip_step (s : State) : State :=
  let '(mk, new_ckr) := kdf_ck (ckr s) in
  let sk := if (kMaxSkip <=? size (skipped s))%nat then erase_begin (skipped s)
            else skipped s in
  mkState (dhs_pub s) (dhs_priv s) (dhr_pub s) (have_dhr s) (rk s) (cks s) new_ckr
    (have_cks s) (have_ckr s) (ns s) (u32 (nr s + 1)) (pn s)
    (map_emplace (dhr_pub s, nr s) mk sk).

Fixpoint skip_loop (n : nat) (s : State) : State :=
  match n with
  | O => s
  | S n' => skip_loop n' (skip_step s)
  end.

(** The sum [s.nr + kMaxSkip] is taken in [std::size_t]; the loop runs
    [until - nr] times. *)
Definition skip_message_keys (s : State) (until : Z) : result RError () * State :=
  if negb (have_ckr s) then (Ok tt, s)
  else if size_add (nr s) (Z.of_nat kMaxSkip) <? until then (Throw SkipExceedsMax, s)
  else (Ok tt, skip_loop (Z.to_nat (until - nr s)) s).

Definition dh_ratchet (s : State) (header_dh rnd : bytes) : result RError () * State :=
  let s := mkState (dhs_pub s) (dhs_priv s) header_dh true (rk s) (cks s) (ckr s)
             (have_cks s) (have_ckr s) 0 0 (ns s) (skipped s) in
  match x25519_dh (dhs_priv s) (dhr_pub s) with
  | Throw e => (Throw e, s)
  | Ok dh =>
      match kdf_rk (rk s) dh with
      | Throw e => (Throw e, s)
      | Ok (new_rk, new_ck) =>
          let '(pub, priv) := x25519_keypair rnd in
          let s := mkState pub priv (dhr_pub s) (have_dhr s) new_rk (cks s) new_ck
                     (have_cks s) true (ns s) (nr s) (pn s) (skipped s) in
          match x25519_dh (dhs_priv s) (dhr_pub s) with
          | Throw e => (Throw e, s)
          | Ok dh =>
              match kdf_rk (rk s) dh with
              | Throw e => (Throw e, s)
              | Ok (new_rk, new_ck) =>
                  (Ok tt, mkState (dhs_pub s) (dhs_priv s) (dhr_pub s) (have_dhr s) new_rk new_ck
                            (ckr s) true (have_ckr s) (ns s) (nr s) (pn s) (skipped s))
              end
          end
      end
  end.

(** Steps 3 and 4 of [decrypt]: skip to [n], derive the key, open. *)
Definition decrypt_current (s : State) (m : RatchetMessage) (outer_aad : bytes)
  : result RError (option bytes) * State :=
  match skip_message_keys s (msg_n m) with
  | (Throw _, s) => (Ok None, s)
  | (Ok _, s) =>
      let '(mk, new_ckr) := kdf_ck (ckr s) in
      let s := mkState (dhs_pub s) (dhs_priv s) (dhr_pub s) (have_dhr s) (rk s) (cks s) new_ckr
                 (have_cks s) (have_ckr s) (ns s) (u32 (nr s + 1)) (pn s) (skipped s) in
      (Ok (xchacha20_decrypt mk zero_nonce (ciphertext m)
             (compose_aad (header_dh_pub m) (msg_pn m) (msg_n m) outer_aad)), s)
  end.

(** [rnd]: the bytes a DH ratchet step would draw for the new key pair. *)
Definition decrypt_msg (s : State) (m : RatchetMessage) (outer_aad rnd : bytes)
  : result RError (option bytes) * State :=
  match skipped s !! (header_dh_pub m, msg_n m) with
  | Some key =>
      match xchacha20_decrypt key zero_nonce (ciphertext m)
              (compose_aad (header_dh_pub m) (msg_pn m) (msg_n m) outer_aad) with
      | Some pt =>
          (Ok (Some pt),
           mkState (dhs_pub s) (dhs_priv s) (dhr_pub s) (have_dhr s) (rk s) (cks s) (ckr s)
             (have_cks s) (have_ckr s) (ns s) (nr s) (pn s)
             (delete (header_dh_pub m, msg_n m) (skipped s)))
      | None => (Ok None, s)
      end
  | None =>
      if negb (have_dhr s) || negb (bool_decide (header_dh_pub m = dhr_pub s)) then
        match skip_message_keys s (msg_pn m) with
        | (Throw _, s) => (Ok None, s)
        | (Ok _, s) =>
            match dh_ratchet s (header_dh_pub m) rnd with
            | (Throw e, s) => (Throw e, s)
            | (Ok _, s) => decrypt_current s m outer_aad
            end
        end
      else decrypt_current s m outer_aad
  end.

Definition decrypt (s : State) (ratchet_msg outer_aad rnd : bytes)
  : result RError (option bytes) * State :=
  match pb_parse (M := RatchetMessage) ratchet_msg with
  | None => (Ok None, s)
  | Some m =>
      if negb (length (header_dh_pub m) =? k32)%nat then (Ok None, s)
      else decrypt_msg s m outer_aad rnd
  end.

(** The rollback runs only where [decrypt] returned: an exception leaves the
    function with the state [decrypt] left. *)
Definition try_decrypt (s : State) (ratchet_msg outer_aad rnd : bytes)
  : result RError (option bytes) * State :=
  let snapshot := s in
  match decrypt s ratchet_msg outer_aad rnd with
  | (Throw e, s) => (Throw e, s)
  | (Ok None, s) => let _wiped := secure_wipe s in (Ok None, snapshot)
  | (Ok (Some pt), s) => (Ok (Some pt), s)
  end.

Definition header_matches_recv_chain (s : State) (ratchet_msg : bytes) : bool :=
  match pb_parse (M := RatchetMessage) ratchet_msg with
  | None => false
  | Some m =>
      if negb (length (header_dh_pub m) =? k32)%nat then false
      else if negb (have_dhr s) || negb (have_ckr s) then false
      else if (nr s <? msg_n m) && (Z.of_nat kMaxSkip <? msg_n m - nr s) then false
      else bool_decide (header_dh_pub m = dhr_pub s)
  end.
End ratchet.

#[global] Instance desktop_size : SizeT := 64.
Definition wasm_size_t : SizeT := 32.

(** Next to a 32-bit counter the sum is exact in a 64-bit build. *)
Lemma size_add_desktop n : is_u32 n -> size_add n (Z.of_nat kMaxSkip) = n + Z.of_nat kMaxSkip.
Proof.
  intros [? Hn]. change (size_add n (Z.of_nat kMaxSkip)) with ((n + 1000) mod 2 ^ 64). change (Z.of_nat kMaxSkip) with 1000.
  apply Z.mod_small. unfold u32_max in Hn. lia.
Qed.
End Ratchet.
