(* ===== verification/Toy.v ===== *)
(** * Concrete instances of the external interfaces

    Functions that satisfy the laws of [Crypto] and can be evaluated: the
    witnesses run the model on them, which shows that the laws are consistent
    and the theorems not vacuous.  They carry no cryptographic meaning. *)
From S2P Require Import Prelude Crypto SenderKeys Ratchet.

(** Keyed mixing of a byte string into 32 bytes. *)
Definition toy_hmac (k m : bytes) : bytes :=
  be_bytes 32 (be_value k * 6364136223846793005 + be_value m * 1442695040888963407 + 2 ^ 200).

Definition toy_tag (k n p a : bytes) : bytes :=
  be_bytes 16 (be_value (toy_hmac k (n ++ a ++ p))).

Definition toy_seal (k n p a : bytes) : bytes := p ++ toy_tag k n p a.

Definition toy_open (k n ct a : bytes) : option bytes :=
  let p := take (length ct - 16) ct in
  if bool_decide (drop (length ct - 16) ct = toy_tag k n p a) then Some p else None.

(** Multiplication modulo 2^256; the zero product plays the low-order point. *)
Definition toy_mul (a b : bytes) : bytes := be_bytes 32 (be_value a * be_value b).

Definition toy_scalarmult (a p : bytes) : option bytes :=
  if bool_decide (toy_mul a p = replicate 32 Byte.x00) then None else Some (toy_mul a p).

#[export] Instance toy_sodium : Sodium := {|
  hmacsha256 := toy_hmac;
  xchacha_seal := toy_seal;
  xchacha_open := toy_open;
  scalarmult := toy_scalarmult;
  scalarmult_base := fun a => be_bytes 32 (be_value a * 9);
|}.

Lemma be_bytes_mod n a b :
  a mod 256 ^ Z.of_nat n = b mod 256 ^ Z.of_nat n -> be_bytes n a = be_bytes n b.
Proof.
  intros. apply be_value_inj; [by rewrite !length_be_bytes|]. by rewrite !be_value_be_bytes_mod.
Qed.

#[export] Instance toy_sodium_laws : SodiumLaws.
Proof.
  constructor.
  - intros k m. apply (length_be_bytes 32).
  - intros k n p a. change (length (toy_seal k n p a) = (length p + 16)%nat).
    unfold toy_seal. by rewrite length_app.
  - intros k n p a. change (toy_open k n (toy_seal k n p a) a = Some p). unfold toy_open, toy_seal.
    assert (length (toy_tag k n p a) = 16%nat) as Ht by apply length_be_bytes.
    rewrite length_app, Ht, Nat.add_sub, take_app_length, drop_app_length.
    by rewrite bool_decide_true.
  - intros a b.
    change (toy_scalarmult a (be_bytes 32 (be_value b * 9))
            = toy_scalarmult b (be_bytes 32 (be_value a * 9))).
    assert (toy_mul a (be_bytes 32 (be_value b * 9)) = toy_mul b (be_bytes 32 (be_value a * 9))) as E.
    { unfold toy_mul. rewrite !be_value_be_bytes_mod. apply be_bytes_mod.
      rewrite !Z.mul_mod_idemp_r by done. f_equal. lia. }
    unfold toy_scalarmult. by rewrite E.
  - intros a. apply (length_be_bytes 32).
Qed.

(** A self-delimiting code for byte fields. *)
Fixpoint toy_field (b : bytes) : bytes :=
  match b with
  | [] => [Byte.x00]
  | x :: b' => Byte.x01 :: x :: toy_field b'
  end.

Fixpoint toy_read (l : bytes) : option (bytes * bytes) :=
  match l with
  | Byte.x00 :: l' => Some ([], l')
  | Byte.x01 :: x :: l' =>
      match toy_read l' with
      | Some (b, l'') => Some (x :: b, l'')
      | None => None
      end
  | _ => None
  end.

Lemma toy_read_field b l : toy_read (toy_field b ++ l) = Some (b, l).
Proof. induction b as [|x b IH]; [done|]. simpl. by rewrite IH. Qed.

Definition toy_read_u32 (l : bytes) : option (Z * bytes) :=
  match l with
  | b0 :: b1 :: b2 :: b3 :: l' => Some (rd_u32 b0 b1 b2 b3, l')
  | _ => None
  end.

Lemma toy_read_put v l : is_u32 v -> toy_read_u32 (put_u32_be v ++ l) = Some (v, l).
Proof. intros Hv. unfold put_u32_be. simpl. by rewrite rd_u32_put. Qed.

Lemma toy_read_u32_ok l v l' : toy_read_u32 l = Some (v, l') -> is_u32 v.
Proof.
  destruct l as [|b0 [|b1 [|b2 [|b3 l]]]]; simpl; try done.
  intros [= <- <-]. apply rd_u32_range.
Qed.

Import SenderKeys.

#[export] Instance toy_skm : ProtoMsg SenderKeysMessage := {|
  pb_serialize m :=
    toy_field (skm_chain_id m) ++ put_u32_be (skm_index m) ++ toy_field (skm_ciphertext m);
  pb_parse b :=
    '(cid, b) ← toy_read b; '(i, b) ← toy_read_u32 b; '(ct, b) ← toy_read b;
    Some (mkSenderKeysMessage cid i ct);
|}.

#[export] Instance toy_skd : ProtoMsg SenderKeysDistribution := {|
  pb_serialize d :=
    toy_field (skd_chain_id d) ++ toy_field (skd_chain_seed d) ++ put_u32_be (skd_start_index d);
  pb_parse b :=
    '(cid, b) ← toy_read b; '(seed, b) ← toy_read b; '(i, b) ← toy_read_u32 b;
    Some (mkSenderKeysDistribution cid seed i);
|}.

#[export] Instance toy_skm_laws : ProtoLaws SenderKeysMessage.
Proof.
  constructor.
  - intros [cid i ct] Hok. unfold pb_ok, skm_fields in Hok.
    cbn [pb_parse pb_serialize toy_skm skm_chain_id skm_index skm_ciphertext] in *.
    rewrite toy_read_field. cbn [mbind option_bind]. rewrite toy_read_put by done.
    cbn [mbind option_bind].
    rewrite <- (app_nil_r (toy_field ct)), toy_read_field. done.
  - intros b m. cbn [pb_parse toy_skm]. unfold mbind, option_bind. intros E. case_all.
    by eapply toy_read_u32_ok.
Qed.

#[export] Instance toy_skd_laws : ProtoLaws SenderKeysDistribution.
Proof.
  constructor.
  - intros [cid seed i] Hok. unfold pb_ok, skd_fields in Hok.
    cbn [pb_parse pb_serialize toy_skd skd_chain_id skd_chain_seed skd_start_index] in *.
    rewrite toy_read_field. cbn [mbind option_bind]. rewrite toy_read_field.
    cbn [mbind option_bind].
    rewrite <- (app_nil_r (put_u32_be i)), toy_read_put; done.
  - intros b m. cbn [pb_parse toy_skd]. unfold mbind, option_bind. intros E. case_all.
    by eapply toy_read_u32_ok.
Qed.

#[export] Instance toy_rm : ProtoMsg Ratchet.RatchetMessage := {|
  pb_serialize m :=
    toy_field (Ratchet.header_dh_pub m) ++ put_u32_be (Ratchet.msg_pn m) ++
    put_u32_be (Ratchet.msg_n m) ++ toy_field (Ratchet.ciphertext m);
  pb_parse b :=
    '(dh, b) ← toy_read b; '(pn, b) ← toy_read_u32 b; '(n, b) ← toy_read_u32 b;
    '(ct, b) ← toy_read b; Some (Ratchet.mkRatchetMessage dh pn n ct);
|}.

#[export] Instance toy_rm_laws : ProtoLaws Ratchet.RatchetMessage.
Proof.
  constructor.
  - intros [dh pn n ct] [Hpn Hn].
    cbn [pb_parse pb_serialize toy_rm Ratchet.header_dh_pub Ratchet.msg_pn Ratchet.msg_n
         Ratchet.ciphertext] in *.
    rewrite toy_read_field. cbn [mbind option_bind].
    rewrite toy_read_put by done. cbn [mbind option_bind].
    rewrite toy_read_put by done. cbn [mbind option_bind].
    rewrite <- (app_nil_r (toy_field ct)), toy_read_field. done.
  - intros b m. cbn [pb_parse toy_rm]. unfold mbind, option_bind. intros E. case_all.
    split; by eapply toy_read_u32_ok.
Qed.

(** [hkdf_expand] at the toy HMAC: 40 bytes are the first 40 of the RFC's. *)
Example hkdf_expand_rfc5869_witness :
  hkdf_expand (be_bytes 32 5) [Byte.x61] 40
  = Ok (take 40 (rfc_okm (be_bytes 32 5) [Byte.x61] 255)).
Proof. exact (hkdf_expand_rfc5869 (be_bytes 32 5) [Byte.x61] 40). Defined.
