(* ===== verification/SenderKeysProofs.v ===== *)
(** * SenderKeys: delivery, forgery and persistence theorems *)
From S2P Require Import Prelude StdMap Crypto SenderKeys Toy.
Import SenderKeys.

(** ** Conversations: several calls in sequence *)

Section runs.
Context `{!Sodium, !ProtoMsg SenderKeysMessage, !ProtoMsg SenderKeysDistribution}.

(** The sender encrypts the (plaintext, outer aad) pairs in order. *)
Fixpoint encrypt_all (s : GroupSession) (pas : list (bytes * bytes))
  : result SKError (list bytes * GroupSession) :=
  match pas with
  | [] => Ok ([], s)
  | (pt, aad) :: pas' =>
      let? (w, s1) := encrypt s pt aad in
      let? (ws, s2) := encrypt_all s1 pas' in
      Ok (w :: ws, s2)
  end.

(** The receiver decrypts wire messages in the order they arrive. *)
Fixpoint decrypt_all (s : GroupSession) (peer : bytes) (evs : list (bytes * bytes))
  : list (option bytes) * GroupSession :=
  match evs with
  | [] => ([], s)
  | (w, aad) :: evs' =>
      let '(o, s1) := decrypt s peer w aad in
      let '(os, s2) := decrypt_all s1 peer evs' in
      (o :: os, s2)
  end.
End runs.

(** ** Receiving-chain invariant *)

Section chain.
Context `{!Sodium, !SodiumLaws}.
Context (cid ck0 : bytes) (start : Z).

(** The chain key after [j] steps, and the [j]-th message key. *)
Definition ck_at (j : nat) : bytes := Nat.iter j ratchet_chain_key ck0.
Definition mk_at (j : nat) : bytes := derive_message_key (ck_at j).

(** [m] keys have been derived; those of [C] were consumed, every other one
    below [m] is in the cache, and nothing else is. *)
Record chain_inv (C : gset nat) (m : nat) (c : PerPeerChain) : Prop := {
  ci_id : chain_id c = cid;
  ci_key : chain_key c = ck_at m;
  ci_next : next_index c = start + Z.of_nat m;
  ci_skipped : forall k v, skipped c !! k = Some v <->
    exists j, (j < m)%nat /\ (j ∉ C) /\ k = (cid, start + Z.of_nat j) /\ v = mk_at j;
  ci_consumed : forall j, j ∈ C -> (j < m)%nat;
}.

(** The chain [install_peer_distribution] starts from. *)
Lemma chain_inv_init : chain_inv ∅ 0 (mkPerPeerChain cid ck0 start ∅).
Proof.
  constructor; simpl; try done; try lia.
  intros k v. rewrite lookup_empty. split; [done|]. intros (j & ? & _). lia.
Qed.

Lemma chain_inv_lookup C m c j :
  chain_inv C m c ->
  skipped c !! (cid, start + Z.of_nat j) =
  if decide (j < m /\ (j ∉ C))%nat then Some (mk_at j) else None.
Proof.
  intros Hi. destruct (skipped c !! (cid, start + Z.of_nat j)) as [v|] eqn:E.
  - apply (ci_skipped _ _ _ Hi) in E as (j' & Hj & HC & [= Heq] & ->).
    assert (j' = j) as -> by lia. by rewrite decide_True.
  - case_decide as Hd; [|done]. destruct Hd as [Hj HC].
    assert (skipped c !! (cid, start + Z.of_nat j) = Some (mk_at j)) as E'
      by (apply (ci_skipped _ _ _ Hi); eauto 10). congruence.
Qed.

Lemma chain_inv_size C m c : chain_inv C m c -> (size (skipped c) <= m)%nat.
Proof.
  intros Hi. rewrite <- size_dom.
  trans (size (list_to_set ((fun j => (cid, start + Z.of_nat j)) <$> seq 0 m) : gset (bytes * Z))).
  - apply subseteq_size. intros k [v Hk]%elem_of_dom.
    apply (ci_skipped _ _ _ Hi) in Hk as (j & Hj & _ & -> & _).
    apply elem_of_list_to_set, list_elem_of_fmap. exists j. rewrite elem_of_seq. split; [done|lia].
  - rewrite size_list_to_set, length_fmap, length_seq; [done|].
    apply NoDup_fmap_2_strong; [|apply NoDup_seq]. intros ? ? _ _ [= ?]. lia.
Qed.

Lemma advance_step_inv C m c :
  0 <= start -> start + Z.of_nat m + 1 < u32_max -> (m < kMaxSkip)%nat ->
  chain_inv C m c -> chain_inv C (S m) (advance_step c).
Proof.
  intros Hs Hu Hm Hi. pose proof (chain_inv_size _ _ _ Hi) as Hsz.
  unfold advance_step. destruct (Nat.leb_spec kMaxSkip (size (skipped c))); [lia|].
  rewrite (ci_id _ _ _ Hi), (ci_next _ _ _ Hi), (ci_key _ _ _ Hi).
  rewrite map_emplace_None by
    (rewrite (chain_inv_lookup _ _ _ _ Hi); case_decide; [lia|done]).
  rewrite u32_small by (unfold is_u32; lia).
  constructor; simpl; [done|done|lia| |].
  - intros k v. rewrite lookup_insert_Some. split.
    + intros [[<- <-]|[Hne Hk]].
      * exists m. split_and!; [lia| |done|done]. intros HC.
        apply (ci_consumed _ _ _ Hi) in HC. lia.
      * apply (ci_skipped _ _ _ Hi) in Hk as (j & ? & ? & ? & ?). exists j. auto with lia.
    + intros (j & Hj & HC & -> & ->). destruct (decide (j = m)) as [->|Hne]; [by left|right].
      split; [intros [= ?]; lia|]. apply (ci_skipped _ _ _ Hi). exists j. auto with lia.
  - intros j Hj. apply (ci_consumed _ _ _ Hi) in Hj. lia.
Qed.

Lemma advance_loop_inv n C m c :
  0 <= start -> start + Z.of_nat (m + n) < u32_max -> (m + n <= kMaxSkip)%nat ->
  chain_inv C m c -> chain_inv C (m + n) (advance_loop n c).
Proof.
  revert m c. induction n as [|n IH]; intros m c Hs Hu Hm Hi; simpl.
  - by rewrite Nat.add_0_r.
  - rewrite Nat.add_succ_r. change (S (m + n)) with (S m + n)%nat.
    apply IH; [lia..|]. apply advance_step_inv; auto; lia.
Qed.

(** Consuming a cached key, and consuming the key the chain stands at. *)
Lemma chain_inv_consume_cached C m c j :
  (j < m)%nat -> chain_inv C m c ->
  chain_inv ({[j]} ∪ C) m
    (mkPerPeerChain (chain_id c) (chain_key c) (next_index c)
       (delete (cid, start + Z.of_nat j) (skipped c))).
Proof.
  intros Hjm Hi. constructor; simpl; [apply Hi|apply Hi|apply Hi| |].
  - intros k v. rewrite lookup_delete_Some, (ci_skipped _ _ _ Hi). split.
    + intros [Hne (j' & ? & ? & -> & ->)]. exists j'. split_and!; try done.
      rewrite elem_of_union, elem_of_singleton. intros [->|]; done.
    + intros (j' & ? & HC' & -> & ->). rewrite elem_of_union, elem_of_singleton in HC'.
      split; [intros [= ?]; apply HC'; left; lia|]. exists j'. naive_solver.
  - intros j'. rewrite elem_of_union, elem_of_singleton. intros [->|Hj']; [done|].
    by apply (ci_consumed _ _ _ Hi).
Qed.

Lemma chain_inv_consume_next C j c :
  0 <= start -> start + Z.of_nat j + 1 < u32_max -> chain_inv C j c ->
  chain_inv ({[j]} ∪ C) (S j)
    (mkPerPeerChain (chain_id c) (ratchet_chain_key (chain_key c)) (u32 (next_index c + 1))
       (skipped c)).
Proof.
  intros Hs Hu Hi. rewrite (ci_next _ _ _ Hi), (ci_key _ _ _ Hi).
  rewrite u32_small by (unfold is_u32; lia).
  constructor; simpl; [apply Hi|done|lia| |].
  - intros k v. rewrite (ci_skipped _ _ _ Hi). split.
    + intros (j' & ? & ? & -> & ->). exists j'. split_and!; try done; [lia|].
      rewrite elem_of_union, elem_of_singleton. intros [->|]; [lia|done].
    + intros (j' & ? & HC' & -> & ->). rewrite elem_of_union, elem_of_singleton in HC'.
      exists j'. split_and!; try done; [|naive_solver]. assert (j' <> j) by tauto. lia.
  - intros j'. rewrite elem_of_union, elem_of_singleton. intros [->|Hj']; [lia|].
    apply (ci_consumed _ _ _ Hi) in Hj'. lia.
Qed.

(** Within the window the chain reaches any later index. *)
Lemma advance_chain_to_inv C m c j :
  0 <= start -> start + 1001 < u32_max -> (m <= j <= 1000)%nat -> chain_inv C m c ->
  exists c', advance_chain_to c (start + Z.of_nat j) = (true, c') /\ chain_inv C j c'.
Proof.
  intros Hs Hu Hmj Hi. unfold advance_chain_to. rewrite (ci_next _ _ _ Hi).
  destruct (Z.ltb_spec (start + Z.of_nat j) (start + Z.of_nat m)); [lia|].
  destruct (Z.ltb_spec (Z.of_nat kMaxSkip) (start + Z.of_nat j - (start + Z.of_nat m)));
    [unfold kMaxSkip in *; lia|].
  eexists. split; [done|].
  replace (Z.to_nat (start + Z.of_nat j - (start + Z.of_nat m))) with (j - m)%nat by lia.
  replace j with (m + (j - m))%nat at 1 by lia.
  apply advance_loop_inv; [done|lia|unfold kMaxSkip; lia|done].
Qed.

(** A wire message whose index is the [j]-th of the chain. *)
Definition at_index (j : nat) (m : SenderKeysMessage) : Prop :=
  skm_chain_id m = cid /\ skm_index m = start + Z.of_nat j.

Definition opens (j : nat) (m : SenderKeysMessage) (outer : bytes) : option bytes :=
  xchacha20_decrypt (mk_at j) zero_nonce (skm_ciphertext m)
    (compose_aad cid (start + Z.of_nat j) outer).

(** One message against a chain in the window: a consumed index is refused, a
    message that does not open leaves every pending key available, one that
    opens is returned and its key consumed. *)
Lemma decrypt_chain_step C m c j msg outer :
  0 <= start -> start + 1001 < u32_max -> (m <= 1001)%nat -> (j <= 1000)%nat ->
  chain_inv C m c -> at_index j msg ->
  let r := decrypt_chain c msg outer in
  if decide (j ∈ C) then r = (None, c)
  else r.1 = opens j msg outer /\
    exists m', (m' <= 1001)%nat /\
      chain_inv (match opens j msg outer with None => C | Some _ => {[j]} ∪ C end) m' r.2.
Proof.
  intros Hs Hu Hm Hj Hi [Hid Hidx]. unfold decrypt_chain, opens. cbv zeta.
  rewrite Hid, Hidx, bool_decide_true by apply Hi. cbn [negb].
  rewrite (chain_inv_lookup _ _ _ _ Hi).
  destruct (decide (j ∈ C)) as [HC|HC].
  { rewrite decide_False by tauto. apply (ci_consumed _ _ _ Hi) in HC.
    rewrite (ci_next _ _ _ Hi).
    destruct (Z.ltb_spec (start + Z.of_nat j) (start + Z.of_nat m)); [done|lia]. }
  destruct (decide (j < m /\ (j ∉ C))%nat) as [[Hjm _]|Hjm].
  - destruct (xchacha20_decrypt _ _ _ _) as [pt|]; split; try done; [|eauto].
    exists m. split; [done|]. by apply chain_inv_consume_cached.
  - assert (m <= j)%nat as Hle by (apply Nat.nlt_ge; tauto).
    destruct (advance_chain_to_inv C m c j) as (c' & -> & Hi'); [done|done|lia|done|].
    rewrite (ci_next _ _ _ Hi).
    destruct (Z.ltb_spec (start + Z.of_nat j) (start + Z.of_nat m)); [lia|].
    assert (derive_message_key (chain_key c') = mk_at j) as ->
      by (by rewrite (ci_key _ _ _ Hi')).
    destruct (xchacha20_decrypt _ _ _ _) as [pt|]; split; try done.
    + exists (S j). split; [lia|]. apply chain_inv_consume_next; auto with lia.
    + exists j. split; [lia|done].
Qed.
End chain.

(** ** Sessions *)

Section sessions.
Context `{!Sodium, !SodiumLaws, !ProtoMsg SenderKeysMessage, !ProtoLaws SenderKeysMessage,
          !ProtoMsg SenderKeysDistribution, !ProtoLaws SenderKeysDistribution}.

(** What the sender puts on the wire for the [j]-th message of a chain. *)
Definition genuine (cid ck : bytes) (start : Z) (j : nat) (pt outer : bytes)
  : SenderKeysMessage :=
  mkSenderKeysMessage cid (start + Z.of_nat j)
    (xchacha20_encrypt (mk_at ck j) zero_nonce pt (compose_aad cid (start + Z.of_nat j) outer)).

Lemma genuine_opens cid ck start j pt outer :
  opens cid ck start j (genuine cid ck start j pt outer) outer = Some pt.
Proof. apply xchacha20_roundtrip. Qed.

Lemma encrypt_all_spec s pas :
  have_own_chain s = true -> 0 <= own_next_index s ->
  own_next_index s + Z.of_nat (length pas) < u32_max ->
  exists ws s', encrypt_all s pas = Ok (ws, s') /\
  forall j pt aad, pas !! j = Some (pt, aad) ->
    ws !! j = Some (pb_serialize
      (genuine (own_chain_id s) (own_chain_key s) (own_next_index s) j pt aad)).
Proof.
  revert s. induction pas as [|[pt aad] pas IH]; intros s Hh Hn0 Hu; simpl.
  { exists [], s. split; [done|]. intros j ? ?. by rewrite lookup_nil. }
  unfold encrypt. rewrite Hh. simpl.
  match goal with |- context [encrypt_all ?x pas] => set (s1 := x) end.
  simpl in Hu. assert (own_next_index s1 = own_next_index s + 1) as Hn
    by (simpl; apply u32_small; unfold is_u32; lia).
  destruct (IH s1) as (ws & s' & -> & Hws); [done|lia|lia|].
  simpl. eexists _, s'. split; [done|]. intros [|j] pt' aad'; simpl.
  - intros [= -> ->]. do 2 f_equal. unfold genuine. by rewrite Z.add_0_r.
  - intros Hj. rewrite (Hws _ _ _ Hj). do 2 f_equal. rewrite Hn. unfold genuine, mk_at, ck_at.
    simpl own_chain_id. simpl own_chain_key. rewrite <- Nat.iter_succ_r.
    by replace (own_next_index s + 1 + Z.of_nat j) with (own_next_index s + Z.of_nat (S j)) by lia.
Qed.

Lemma decrypt_eq s peer c w aad msg :
  peers s !! peer = Some c -> pb_parse w = Some msg -> length (skm_chain_id msg) = 16%nat ->
  decrypt s peer w aad =
  (let r := decrypt_chain c msg aad in (r.1, set_peer s peer r.2)).
Proof.
  intros Hp Hw Hl. unfold decrypt. rewrite Hw, Hl, Hp. simpl.
  by destruct (decrypt_chain c msg aad).
Qed.

(** Delivering genuine messages in any order to a chain in the window. *)
Lemma deliver_genuine cid ck start peer pas (ws : list bytes) js C m c s :
  length cid = 16%nat -> 0 <= start -> start + 1001 < u32_max -> (length pas <= 1001)%nat ->
  (m <= 1001)%nat -> chain_inv cid ck start C m c -> peers s !! peer = Some c ->
  (forall j pt aad, pas !! j = Some (pt, aad) ->
     ws !! j = Some (pb_serialize (genuine cid ck start j pt aad))) ->
  Forall (fun j => j < length pas)%nat js ->
  (decrypt_all s peer ((fun j => (default [] (ws !! j), default [] (snd <$> pas !! j))) <$> js)).1
  = imap (fun k j => if decide (j ∈ C \/ j ∈ take k js) then None else fst <$> pas !! j) js.
Proof.
  intros Hcid Hs Hu Hlen. revert C m c s.
  induction js as [|j js IH]; intros C m c s Hm Hi Hp Hws Hjs; [done|].
  apply Forall_cons in Hjs as [Hj Hjs].
  destruct (lookup_lt_is_Some_2 pas j Hj) as [[pt aad] Hpa].
  set (msg := genuine cid ck start j pt aad).
  assert (pb_parse (pb_serialize msg) = Some msg) as Hparse
    by (apply pb_parse_serialize; unfold pb_ok, skm_fields, is_u32; simpl; lia).
  pose proof (decrypt_chain_step cid ck start C m c j msg aad Hs Hu Hm ltac:(lia) Hi
    ltac:(done)) as Hstep.
  assert (opens cid ck start j msg aad = Some pt) as Hop by apply genuine_opens.
  rewrite Hop in Hstep.
  cbn [fmap list_fmap decrypt_all]. rewrite (Hws _ _ _ Hpa), Hpa. cbn [default fmap option_fmap option_map snd]. unfold id.
  rewrite (decrypt_eq s peer c _ _ msg) by done. cbv zeta.
  assert (exists m' c', (m' <= 1001)%nat /\ chain_inv cid ck start ({[j]} ∪ C) m' c' /\
    (decrypt_chain c msg aad).2 = c' /\
    (decrypt_chain c msg aad).1 = if decide (j ∈ C) then None else Some pt)
    as (m' & c' & Hm' & Hi' & -> & ->).
  { destruct (decide (j ∈ C)) as [HC|HC].
    - rewrite Hstep. exists m, c. split_and!; try done.
      by replace ({[j]} ∪ C) with C by set_solver.
    - destruct Hstep as [Ho (m' & Hm' & Hi')]. eauto 10. }
  specialize (IH ({[j]} ∪ C) m' c' (set_peer s peer c') Hm' Hi').
  cbn [peers set_peer] in IH. rewrite lookup_insert_eq in IH. specialize (IH eq_refl Hws Hjs).
  destruct (decrypt_all _ _ _) as [os s'] eqn:E. simpl in IH |- *. rewrite IH.
  f_equal.
  - destruct (decide (j ∈ C)); destruct (decide _) as [Hd|Hd]; try done.
    + exfalso. apply Hd. by left.
    + destruct Hd as [|Hd]; [done|]. by apply not_elem_of_nil in Hd.
    + by rewrite Hpa.
  - apply imap_ext. intros k j' _. simpl. apply decide_ext. rewrite elem_of_cons. set_solver.
Qed.

(** ** Messages that do not open

    [harmless]: bytes that are not a message of this chain, or one at an
    index of the window that does not open under the key of its index. *)
Definition harmless (cid ck : bytes) (start : Z) (w outer : bytes) : Prop :=
  match pb_parse (M := SenderKeysMessage) w with
  | None => True
  | Some m =>
      length (skm_chain_id m) <> 16%nat \/ skm_chain_id m <> cid \/
      exists j, (j <= 1000)%nat /\ skm_index m = start + Z.of_nat j /\
        opens cid ck start j m outer = None
  end.

Lemma decrypt_harmless cid ck start peer w outer C m c s :
  0 <= start -> start + 1001 < u32_max -> (m <= 1001)%nat -> chain_inv cid ck start C m c ->
  peers s !! peer = Some c -> harmless cid ck start w outer ->
  exists s' m' c', decrypt s peer w outer = (None, s') /\ peers s' !! peer = Some c' /\
    (m' <= 1001)%nat /\ chain_inv cid ck start C m' c'.
Proof.
  intros Hs Hu Hm Hi Hp Hh. unfold harmless in Hh. unfold decrypt.
  destruct (pb_parse w) as [msg|]; [|by eauto 10].
  destruct (Nat.eqb_spec (length (skm_chain_id msg)) 16) as [Hl|Hl]; [|by simpl; eauto 10].
  rewrite Hp. cbn [negb].
  assert (exists m' c', decrypt_chain c msg outer = (None, c') /\ (m' <= 1001)%nat /\
    chain_inv cid ck start C m' c') as (m' & c' & -> & Hm' & Hi').
  { destruct (decide (skm_chain_id msg = cid)) as [Hid|Hid].
    - destruct Hh as [|[|(j & Hj & Hidx & Hop)]]; [done..|].
      pose proof (decrypt_chain_step cid ck start C m c j msg outer Hs Hu Hm Hj Hi
        (conj Hid Hidx)) as Hstep. cbv zeta in Hstep. rewrite Hop in Hstep.
      destruct (decide (j ∈ C)); [eauto 10|].
      destruct Hstep as [H1 (m' & Hm' & Hi')].
      destruct (decrypt_chain c msg outer) as [o c'] eqn:E. simpl in *. subst. eauto 10.
    - exists m, c. unfold decrypt_chain. rewrite bool_decide_false; [done|].
      rewrite (ci_id _ _ _ _ _ _ Hi). congruence. }
  exists (set_peer s peer c'), m', c'. split_and!; try done.
  apply lookup_insert_eq.
Qed.
End sessions.

Section theorems.
Context `{!Sodium, !SodiumLaws, !ProtoMsg SenderKeysMessage, !ProtoLaws SenderKeysMessage,
          !ProtoMsg SenderKeysDistribution, !ProtoLaws SenderKeysDistribution}.

Lemma install_created a b rnd_id rnd_key peer :
  length rnd_id = 16%nat -> length rnd_key = 32%nat ->
  install_peer_distribution b peer (create_own_send_chain a rnd_id rnd_key).1
  = Ok (set_peer b peer (mkPerPeerChain rnd_id rnd_key 0 ∅)).
Proof.
  intros Hid Hkey. unfold install_peer_distribution. simpl.
  rewrite pb_parse_serialize by (unfold pb_ok, skd_fields, is_u32; simpl; unfold_words; lia).
  simpl. by rewrite Hid, Hkey.
Qed.

(** C5: Exactly-once delivery.  A member creates a sending chain, hands out
    its distribution and encrypts up to 1001 messages.  Whatever order the
    network delivers them in, with any of them repeated or dropped, the
    receiver that installed the distribution returns each plaintext at the
    first arrival of its message and refuses every later copy. *)
Theorem sender_keys_exactly_once (a b : GroupSession) (rnd_id rnd_key peer : bytes)
    (pas : list (bytes * bytes)) (js : list nat)
    (Hid : length rnd_id = 16%nat) (Hkey : length rnd_key = 32%nat)
    (Hlen : (length pas <= 1001)%nat) (Hjs : Forall (fun j => j < length pas)%nat js) :
  exists ws a' b',
    encrypt_all (create_own_send_chain a rnd_id rnd_key).2 pas = Ok (ws, a') /\
    install_peer_distribution b peer (create_own_send_chain a rnd_id rnd_key).1 = Ok b' /\
    (decrypt_all b' peer
       ((fun j => (default [] (ws !! j), default [] (snd <$> pas !! j))) <$> js)).1
    = imap (fun k j => if decide (j ∈ take k js) then None else fst <$> pas !! j) js.
Proof.
  set (a1 := (create_own_send_chain a rnd_id rnd_key).2).
  destruct (encrypt_all_spec a1 pas) as (ws & a' & Hws & Hget); [done|done|simpl; unfold_words; lia|].
  exists ws, a', (set_peer b peer (mkPerPeerChain rnd_id rnd_key 0 ∅)).
  split_and!; [done|by apply install_created|].
  rewrite (deliver_genuine rnd_id rnd_key 0 peer pas ws js ∅ 0
    (mkPerPeerChain rnd_id rnd_key 0 ∅)); try done.
  - apply imap_ext. intros k j _. apply decide_ext. set_solver.
  - lia.
  - apply chain_inv_init.
  - apply lookup_insert_eq.
Qed.

(** Forged or corrupted messages inside the window are harmless.
    Between installing a distribution and the arrival of a genuine message
    any number of byte strings may arrive that are not messages of this chain
    or do not open under the key of their index (at most 1000 past the
    start): each is refused, and the genuine message is still decrypted. *)
Theorem sender_keys_forgery_harmless (b : GroupSession) (peer cid ck : bytes) (start : Z)
    (evs : list (bytes * bytes)) (j : nat) (pt outer : bytes)
    (Hcid : length cid = 16%nat) (Hs : 0 <= start) (Hu : start + 1001 < u32_max)
    (Hj : (j <= 1000)%nat)
    (Hevs : Forall (fun e => harmless cid ck start e.1 e.2) evs) :
  let b0 := set_peer b peer (mkPerPeerChain cid ck start ∅) in
  (decrypt_all b0 peer evs).1 = replicate (length evs) None /\
  (decrypt (decrypt_all b0 peer evs).2 peer
     (pb_serialize (genuine cid ck start j pt outer)) outer).1 = Some pt.
Proof.
  cbv zeta.
  assert (exists m c, (m <= 1001)%nat /\ chain_inv cid ck start ∅ m c /\
    peers (set_peer b peer (mkPerPeerChain cid ck start ∅)) !! peer = Some c)
    as (m & c & Hm & Hi & Hp).
  { exists 0%nat, (mkPerPeerChain cid ck start ∅). split_and!; [lia|apply chain_inv_init|].
    apply lookup_insert_eq. }
  revert Hp. generalize (set_peer b peer (mkPerPeerChain cid ck start ∅)) as s. intros s Hp.
  revert s m c Hm Hi Hp. induction evs as [|[w o] evs IH]; intros s m c Hm Hi Hp.
  - split; [done|]. simpl. set (msg := genuine cid ck start j pt outer).
    rewrite (decrypt_eq s peer c _ _ msg); [|done| |done].
    2: { apply pb_parse_serialize. unfold pb_ok, skm_fields, is_u32. simpl. lia. }
    pose proof (decrypt_chain_step cid ck start ∅ m c j msg outer Hs Hu Hm Hj Hi
      ltac:(done)) as Hstep. cbv zeta in Hstep. rewrite decide_False in Hstep by set_solver.
    simpl. destruct Hstep as [-> _]. apply genuine_opens.
  - apply Forall_cons in Hevs as [Hh Hevs].
    destruct (decrypt_harmless cid ck start peer w o ∅ m c s)
      as (s' & m' & c' & E & Hp' & Hm' & Hi'); try done.
    destruct (IH Hevs s' m' c' Hm' Hi' Hp') as [H1 H2].
    cbn [decrypt_all]. rewrite E. destruct (decrypt_all s' peer evs) as [os s2].
    simpl in *. by rewrite H1.
Qed.

(** ** Eviction by messages that do not open *)

(** The cache holds exactly the keys of the indices [lo .. hi). *)
Record window (cid ck : bytes) (start : Z) (lo hi : nat) (c : PerPeerChain) : Prop := {
  w_id : chain_id c = cid;
  w_key : chain_key c = ck_at ck hi;
  w_next : next_index c = start + Z.of_nat hi;
  w_skipped : forall k v, skipped c !! k = Some v <->
    exists j, (lo <= j < hi)%nat /\ k = (cid, start + Z.of_nat j) /\ v = mk_at ck j;
}.

Lemma window_elements cid ck start lo hi c :
  window cid ck start lo hi c ->
  map_elements (skipped c)
  = (fun j => ((cid, start + Z.of_nat j), mk_at ck j)) <$> seq lo (hi - lo).
Proof.
  intros Hw. apply map_elements_unique.
  - generalize (hi - lo)%nat as n. generalize lo as l. intros l n. revert l.
    induction n as [|n IH]; intros l; [constructor|].
    simpl. constructor; [apply IH|]. apply Forall_fmap, Forall_forall.
    intros j Hj%elem_of_seq. unfold compose, pair_le. cbn [fst].
    rewrite key_leb_pair. apply Z.leb_le. lia.
  - rewrite <- list_fmap_compose. apply NoDup_fmap_2_strong; [|apply NoDup_seq].
    intros ? ? _ _ [= ?]. lia.
  - apply map_eq. intros k. apply option_eq. intros v. rewrite (w_skipped _ _ _ _ _ _ Hw).
    rewrite <- elem_of_list_to_map.
    + rewrite list_elem_of_fmap. split.
      * intros (j & [= -> ->] & Hj%elem_of_seq). exists j. split_and!; [lia|lia|done|done].
      * intros (j & Hj & -> & ->). exists j. rewrite elem_of_seq. split; [done|lia].
    + rewrite <- list_fmap_compose. apply NoDup_fmap_2_strong; [|apply NoDup_seq].
      intros ? ? _ _ [= ?]. lia.
Qed.

(** One step of the loop; a full cache loses its lowest index. *)
Lemma window_step cid ck start lo hi c :
  0 <= start -> start + Z.of_nat hi + 1 < u32_max -> (lo <= hi)%nat ->
  window cid ck start lo hi c ->
  window cid ck start (if (kMaxSkip <=? hi - lo)%nat then S lo else lo) (S hi) (advance_step c).
Proof.
  intros Hs Hu Hle Hw. pose proof (window_elements _ _ _ _ _ _ Hw) as Hel.
  assert (size (skipped c) = (hi - lo)%nat) as Hsz
    by (by rewrite <- length_map_elements, Hel, length_fmap, length_seq).
  unfold advance_step. rewrite Hsz, (w_id _ _ _ _ _ _ Hw), (w_next _ _ _ _ _ _ Hw).
  rewrite (w_key _ _ _ _ _ _ Hw), u32_small by (unfold is_u32; lia).
  set (sk := if (kMaxSkip <=? hi - lo)%nat then erase_begin (skipped c) else skipped c).
  assert (forall k v, sk !! k = Some v <->
    exists j, ((if kMaxSkip <=? hi - lo then S lo else lo) <= j < hi)%nat /\
      k = (cid, start + Z.of_nat j) /\ v = mk_at ck j) as Hsk.
  { intros k v. unfold sk. destruct (Nat.leb_spec kMaxSkip (hi - lo)); [|apply Hw].
    unfold erase_begin, map_begin. rewrite Hel.
    destruct (hi - lo)%nat as [|n] eqn:En; [unfold kMaxSkip in *; lia|]. simpl.
    rewrite lookup_delete_Some, (w_skipped _ _ _ _ _ _ Hw). split.
    - intros [Hne (j & Hj & -> & ->)]. exists j. split_and!; try done; [|lia].
      destruct (decide (j = lo)) as [->|]; [done|lia].
    - intros (j & Hj & -> & ->). split; [intros [= ?]; lia|]. exists j. auto with lia. }
  rewrite map_emplace_None.
  2: { destruct (sk !! _) eqn:E; [|done]. apply Hsk in E as (j & Hj & [= ?] & _). lia. }
  constructor; cbn [chain_id chain_key next_index skipped]; [done|done|lia|]. intros k v. rewrite lookup_insert_Some, Hsk. split.
  - intros [[<- <-]|[_ (j & Hj & -> & ->)]].
    + exists hi. split_and!; try done; try lia.
      destruct (kMaxSkip <=? hi - lo)%nat eqn:El; [|lia].
      apply Nat.leb_le in El. unfold kMaxSkip in El. lia.
    + exists j. auto with lia.
  - intros (j & Hj & -> & ->). destruct (decide (j = hi)) as [->|]; [by left|right].
    split; [intros [= ?]; lia|]. exists j. auto with lia.
Qed.

Lemma window_loop n cid ck start lo hi c :
  0 <= start -> start + Z.of_nat (hi + n) < u32_max -> (lo <= hi <= lo + kMaxSkip)%nat ->
  window cid ck start lo hi c ->
  window cid ck start (Nat.max lo (hi + n - kMaxSkip)) (hi + n) (advance_loop n c).
Proof.
  revert lo hi c. induction n as [|n IH]; intros lo hi c Hs Hu Hle Hw; cbn [advance_loop].
  { rewrite Nat.add_0_r in *. by replace (Nat.max lo (hi - kMaxSkip)) with lo by lia. }
  pose proof (window_step cid ck start lo hi c Hs ltac:(lia) ltac:(lia) Hw) as Hw'.
  replace (hi + S n)%nat with (S hi + n)%nat by lia.
  apply IH in Hw'; [|lia|lia|destruct (Nat.leb_spec kMaxSkip (hi - lo)); lia].
  destruct (Nat.leb_spec kMaxSkip (hi - lo)).
  - replace (Nat.max lo (S hi + n - kMaxSkip)) with (Nat.max (S lo) (S hi + n - kMaxSkip))
      by lia. done.
  - done.
Qed.

(** A message that does not open, at most 1000 past the chain: the chain
    moves although the result is [None]. *)
Lemma window_unopened cid ck start lo hi n c msg outer :
  0 <= start -> start + Z.of_nat (hi + n) < u32_max -> (lo <= hi <= lo + kMaxSkip)%nat ->
  (n <= kMaxSkip)%nat -> window cid ck start lo hi c ->
  at_index cid start (hi + n) msg -> opens cid ck start (hi + n) msg outer = None ->
  exists c', decrypt_chain c msg outer = (None, c') /\
    window cid ck start (Nat.max lo (hi + n - kMaxSkip)) (hi + n) c'.
Proof.
  intros Hs Hu Hle Hn Hw [Hid Hidx] Hop. unfold decrypt_chain. cbv zeta.
  rewrite Hid, Hidx, bool_decide_true by apply Hw. cbn [negb].
  destruct (skipped c !! _) eqn:E.
  { apply (w_skipped _ _ _ _ _ _ Hw) in E as (j & Hj & [= ?] & _). lia. }
  unfold advance_chain_to. rewrite (w_next _ _ _ _ _ _ Hw).
  destruct (Z.ltb_spec (start + Z.of_nat (hi + n)) (start + Z.of_nat hi)); [lia|].
  destruct (Z.ltb_spec (Z.of_nat kMaxSkip) (start + Z.of_nat (hi + n) - (start + Z.of_nat hi)));
    [lia|].
  replace (Z.to_nat _) with n by lia.
  pose proof (window_loop n _ _ _ _ _ _ Hs Hu Hle Hw) as Hw'.
  rewrite (w_key _ _ _ _ _ _ Hw').
  unfold opens, mk_at in Hop. rewrite Hop. eauto.
Qed.

(** Below the window nothing opens any more. *)
Lemma window_lost cid ck start lo hi c msg outer j :
  (j < lo <= hi)%nat -> window cid ck start lo hi c -> at_index cid start j msg ->
  decrypt_chain c msg outer = (None, c).
Proof.
  intros Hj Hw [Hid Hidx]. unfold decrypt_chain. cbv zeta.
  rewrite Hid, Hidx, bool_decide_true by apply Hw. cbn [negb].
  destruct (skipped c !! _) eqn:E.
  { apply (w_skipped _ _ _ _ _ _ Hw) in E as (j' & ? & [= ?] & _). lia. }
  rewrite (w_next _ _ _ _ _ _ Hw).
  by destruct (Z.ltb_spec (start + Z.of_nat j) (start + Z.of_nat hi)); [|lia].
Qed.

(** Two messages that fail authentication can destroy genuine ones.  On
    a fresh receiving chain a first message at index start+1000 that does not
    open still derives and caches 1000 keys; a second one [k] further on
    evicts the [k] lowest, and the genuine messages at those indices are
    refused from then on. *)
Theorem sender_keys_forgery_evicts (b : GroupSession) (peer cid ck : bytes) (start : Z)
    (k j : nat) (f1 f2 : SenderKeysMessage) (o1 o2 pt outer : bytes)
    (Hcid : length cid = 16%nat) (Hs : 0 <= start) (Hu : start + 2000 < u32_max)
    (Hjk : (j < k <= 1000)%nat)
    (H1 : at_index cid start 1000 f1) (H2 : at_index cid start (1000 + k) f2)
    (Hf1 : opens cid ck start 1000 f1 o1 = None)
    (Hf2 : opens cid ck start (1000 + k) f2 o2 = None) :
  let b0 := set_peer b peer (mkPerPeerChain cid ck start ∅) in
  let g := pb_serialize (genuine cid ck start j pt outer) in
  (decrypt b0 peer g outer).1 = Some pt /\
  (decrypt_all b0 peer [(pb_serialize f1, o1); (pb_serialize f2, o2); (g, outer)]).1
  = [None; None; None].
Proof.
  cbv zeta.
  assert (forall i m, at_index cid start i m -> (i <= 2000)%nat ->
    pb_parse (pb_serialize m) = Some m /\ length (skm_chain_id m) = 16%nat) as Hwire.
  { intros i m [-> Hi] Hi2. split; [|done]. apply pb_parse_serialize.
    unfold pb_ok, skm_fields, is_u32. lia. }
  set (g := genuine cid ck start j pt outer).
  destruct (Hwire j g ltac:(done) ltac:(lia)) as [Hg Hgl].
  destruct (Hwire _ _ H1 ltac:(lia)) as [Hp1 Hl1].
  destruct (Hwire _ _ H2 ltac:(lia)) as [Hp2 Hl2].
  set (c0 := mkPerPeerChain cid ck start ∅).
  assert (window cid ck start 0 0 c0) as Hw0.
  { constructor; simpl; try done; [lia|]. intros q v. rewrite lookup_empty.
    split; [done|]. intros (? & ? & _). lia. }
  assert (peers (set_peer b peer c0) !! peer = Some c0) as Hpeer by apply lookup_insert_eq.
  split.
  - rewrite (decrypt_eq _ peer c0 _ _ g) by done. simpl.
    pose proof (decrypt_chain_step cid ck start ∅ 0 c0 j g outer Hs ltac:(lia) ltac:(lia)
      ltac:(lia) (chain_inv_init cid ck start) ltac:(done)) as Hstep.
    cbv zeta in Hstep. rewrite decide_False in Hstep by set_solver.
    destruct Hstep as [-> _]. apply genuine_opens.
  - destruct (window_unopened cid ck start 0 0 1000 c0 f1 o1) as (c1 & E1 & Hw1);
      try done; try lia; [unfold kMaxSkip; lia..|].
    destruct (window_unopened cid ck start 0 1000 k c1 f2 o2) as (c2 & E2 & Hw2);
      try done; try lia; [unfold kMaxSkip; lia..|].
    cbn [decrypt_all].
    rewrite (decrypt_eq _ peer c0 _ _ f1), E1 by done. cbn [fst snd].
    rewrite (decrypt_eq _ peer c1 _ _ f2), E2 by (try done; apply lookup_insert_eq). cbn [fst snd].
    rewrite (decrypt_eq _ peer c2 _ _ g) by (try done; apply lookup_insert_eq).
    rewrite (window_lost cid ck start (Nat.max 0 (1000 + k - kMaxSkip)) (1000 + k) c2 g outer j
      ltac:(unfold kMaxSkip; lia) Hw2); done.
Qed.
End theorems.

(** ** The theorems at concrete inputs *)

Definition toy_id : bytes := be_bytes 16 0xA1B2.
Definition toy_key : bytes := be_bytes 32 0xC3D4E5.
Definition toy_peer : bytes := [Byte.x70].

Definition toy_messages : list (bytes * bytes) :=
  [([Byte.x68; Byte.x69], [Byte.x01]); ([Byte.x6f], []); ([], [Byte.x02; Byte.x03])].

(** Three messages delivered as 2, 0, 2, 1, 0. *)
Example sender_keys_exactly_once_witness :
  (2 < length toy_messages)%nat /\
  exists ws a' b',
    encrypt_all (create_own_send_chain new_session toy_id toy_key).2 toy_messages = Ok (ws, a') /\
    install_peer_distribution new_session toy_peer
      (create_own_send_chain new_session toy_id toy_key).1 = Ok b' /\
    (decrypt_all b' toy_peer
       ((fun j => (default [] (ws !! j), default [] (snd <$> toy_messages !! j)))
          <$> [2; 0; 2; 1; 0]%nat)).1
    = [Some []; Some [Byte.x68; Byte.x69]; None; Some [Byte.x6f]; None].
Proof.
  split; [simpl; lia|].
  apply (sender_keys_exactly_once new_session new_session toy_id toy_key toy_peer toy_messages
           [2; 0; 2; 1; 0]%nat).
  - reflexivity.
  - reflexivity.
  - simpl. lia.
  - repeat constructor.
Defined.

(** Junk bytes and a message with a corrupted ciphertext before a genuine one. *)
Definition toy_forged : list (bytes * bytes) :=
  [([Byte.xff], []); (pb_serialize (mkSenderKeysMessage toy_id 2 (zeros 20)), [])].

Example sender_keys_forgery_harmless_witness :
  let b0 := set_peer new_session toy_peer (mkPerPeerChain toy_id toy_key 0 ∅) in
  (decrypt_all b0 toy_peer toy_forged).1 = [None; None] /\
  (decrypt (decrypt_all b0 toy_peer toy_forged).2 toy_peer
     (pb_serialize (genuine toy_id toy_key 0 1 [Byte.x68] [])) []).1 = Some [Byte.x68].
Proof.
  apply (sender_keys_forgery_harmless new_session toy_peer toy_id toy_key 0 toy_forged 1
           [Byte.x68] []).
  - reflexivity.
  - lia.
  - unfold_words. lia.
  - lia.
  - constructor; [exact I|]. constructor; [|constructor].
    unfold harmless. cbn [fst snd]. rewrite pb_parse_serialize by (by vm_compute).
    right. right. exists 2%nat. split; [lia|]. split; [reflexivity|]. vm_compute. reflexivity.
Defined.

Example sender_keys_forgery_evicts_witness :
  let b0 := set_peer new_session toy_peer (mkPerPeerChain toy_id toy_key 0 ∅) in
  let g := pb_serialize (genuine toy_id toy_key 0 0 [Byte.x68] []) in
  (decrypt b0 toy_peer g []).1 = Some [Byte.x68] /\
  (decrypt_all b0 toy_peer
     [(pb_serialize (mkSenderKeysMessage toy_id 1000 []), []);
      (pb_serialize (mkSenderKeysMessage toy_id 1001 []), []); (g, [])]).1
  = [None; None; None].
Proof.
  apply (sender_keys_forgery_evicts new_session toy_peer toy_id toy_key 0 1 0
           (mkSenderKeysMessage toy_id 1000 []) (mkSenderKeysMessage toy_id 1001 [])).
  - reflexivity.
  - lia.
  - unfold_words. lia.
  - lia.
  - done.
  - done.
  - reflexivity.
  - reflexivity.
Defined.
