(* ===== verification/SenderKeysState.v ===== *)
(** * SenderKeys: persistence and reachable sessions

    The state codec of [sender_keys.cpp] and what holds of every session that
    the public operations can build. *)
From S2P Require Import Prelude StdMap Crypto SenderKeys Toy.
Import SenderKeys.

(** ** Well-formed sessions *)

Record chain_wf (c : PerPeerChain) : Prop := {
  cw_id : length (chain_id c) = 16%nat;
  cw_key : length (chain_key c) = 32%nat;
  cw_next : is_u32 (next_index c);
  cw_skipped : (size (skipped c) <= kMaxSkip)%nat;
  cw_mks : map_Forall (fun _ mk => length mk = 32%nat) (skipped c);
}.

(** Without a sending chain the own fields are still the zeros of the
    constructor. *)
Record session_wf (s : GroupSession) : Prop := {
  sw_id : length (own_chain_id s) = 16%nat;
  sw_key : length (own_chain_key s) = 32%nat;
  sw_next : is_u32 (own_next_index s);
  sw_none : have_own_chain s = false ->
    own_chain_id s = zeros 16 /\ own_chain_key s = zeros 32 /\ own_next_index s = 0;
  sw_peers : map_Forall (fun _ c => chain_wf c) (peers s);
}.

(** What a restart keeps: everything but the skipped-key caches. *)
Definition drop_skipped (c : PerPeerChain) : PerPeerChain :=
  mkPerPeerChain (chain_id c) (chain_key c) (next_index c) ∅.

Definition restarted (s : GroupSession) : GroupSession :=
  mkGroupSession (own_chain_id s) (own_chain_key s) (own_next_index s) (have_own_chain s)
    (drop_skipped <$> peers s).

(** ** The readers invert the writers *)

Lemma read_u32_be_put n v : is_u32 n -> read_u32_be (put_u32_be n ++ v) = Some (n, v).
Proof. intros Hn. unfold read_u32_be, put_u32_be. cbn [app]. by rewrite rd_u32_put. Qed.

Lemma read_bytes_put b v :
  Z.of_nat (length b) < u32_max -> read_bytes (put_bytes b ++ v) = Some (b, v).
Proof.
  intros Hb. assert (is_u32 (Z.of_nat (length b))) as Hu by (unfold is_u32; lia).
  unfold read_bytes, put_bytes. rewrite <- app_assoc, u32_small, read_u32_be_put by done.
  rewrite length_app. destruct (Z.ltb_spec (Z.of_nat (length b + length v)) (Z.of_nat (length b)));
    [lia|]. by rewrite Nat2Z.id, take_app_length, drop_app_length.
Qed.

Lemma read_chain_put cid ck idx v :
  length cid = 16%nat -> length ck = 32%nat -> is_u32 idx ->
  read_chain (cid ++ ck ++ put_u32_be idx ++ v) = Some (cid, ck, idx, v).
Proof.
  intros Hid Hck Hi. unfold read_chain.
  destruct (Nat.ltb_spec (length (cid ++ ck ++ put_u32_be idx ++ v)) (16 + 32 + 4)) as [Hlt|_].
  { rewrite !length_app, Hid, Hck in Hlt. unfold put_u32_be in Hlt. simpl in Hlt. lia. }
  assert (drop 48 (cid ++ ck ++ put_u32_be idx ++ v) = put_u32_be idx ++ v) as ->.
  { rewrite (app_assoc cid), drop_app_length'; [done|]. rewrite length_app. lia. }
  rewrite read_u32_be_put by done.
  rewrite (take_app_length' cid), (drop_app_length' cid) by lia.
  by rewrite (take_app_length' ck) by lia.
Qed.

Lemma read_chain_lengths v cid ck idx v' :
  read_chain v = Some (cid, ck, idx, v') ->
  length cid = 16%nat /\ length ck = 32%nat /\ is_u32 idx /\ length v = (52 + length v')%nat.
Proof.
  unfold read_chain. destruct (Nat.ltb_spec (length v) (16 + 32 + 4)) as [|Hl]; [done|].
  unfold read_u32_be. assert (length (drop 48 v) = (length v - 48)%nat) as Hd by apply length_drop.
  destruct (drop 48 v) as [|b0 [|b1 [|b2 [|b3 w]]]]; try done.
  intros [= <- <- <- <-]. rewrite !length_take, length_drop. simpl in Hd.
  split_and!; [lia|lia|apply rd_u32_range|lia].
Qed.

(** The peers come back in order, each under its id. *)
Lemma read_peers_put l acc v fuel :
  (length l <= fuel)%nat -> NoDup l.*1 ->
  Forall (fun p => Z.of_nat (length p.1) < u32_max /\ chain_wf p.2) l ->
  Forall (fun p => acc !! p.1 = None) l ->
  read_peers fuel (Z.of_nat (length l)) (mjoin (put_peer <$> l) ++ v) acc
  = Some (list_to_map (prod_map id drop_skipped <$> l) ∪ acc).
Proof.
  revert acc fuel. induction l as [|[pid c] l IH]; intros acc fuel Hf Hnd Hwf Hacc.
  { destruct fuel; simpl; by rewrite (left_id_L ∅ (∪)). }
  destruct fuel as [|fuel]; [simpl in Hf; lia|].
  apply Forall_cons in Hwf as [[Hp Hc] Hwf]. apply Forall_cons in Hacc as [Ha Hacc].
  cbn [fmap list_fmap] in Hnd. apply NoDup_cons in Hnd as [Hni Hnd]. cbn [fst snd] in *.
  cbn [read_peers length]. destruct (Z.leb_spec (Z.of_nat (S (length l))) 0); [lia|].
  change (put_peer <$> (pid, c) :: l) with (put_peer (pid, c) :: (put_peer <$> l)).
  cbn [mjoin list_join]. unfold put_peer at 1. cbn [fst snd].
  rewrite <- !app_assoc, read_bytes_put by done.
  rewrite read_chain_put by apply Hc.
  replace (Z.of_nat (S (length l)) - 1) with (Z.of_nat (length l)) by lia.
  rewrite map_emplace_None by done.
  rewrite IH; [|simpl in Hf; lia|done|done|].
  - f_equal. cbn [fmap list_fmap prod_map list_to_map foldr fst snd].
    change (list_to_map (prod_map id drop_skipped <$> (pid, c) :: l))
      with (<[pid := drop_skipped c]> (list_to_map (prod_map id drop_skipped <$> l) : gmap bytes PerPeerChain)).
    rewrite <- insert_union_r; [by rewrite insert_union_l|].
    apply not_elem_of_list_to_map. rewrite <- list_fmap_compose.
    intros Hin. apply Hni. by rewrite <- (list_fmap_ext (fst ∘ prod_map id drop_skipped) fst l) by done.
  - rewrite Forall_forall in Hacc |- *. intros p Hpl. rewrite lookup_insert_ne; [by apply Hacc|].
    intros ->. apply Hni. by apply list_elem_of_fmap_2.
Qed.

Lemma put_peers_fuel (l : list (bytes * PerPeerChain)) :
  (length l <= length (mjoin (put_peer <$> l)))%nat.
Proof.
  induction l as [|p l IH]; [done|].
  change (mjoin (put_peer <$> p :: l)) with (put_peer p ++ mjoin (put_peer <$> l)).
  rewrite length_app. cbn [length].
  assert (1 <= length (put_peer p))%nat; [|lia].
  unfold put_peer, put_bytes, put_u32_be. rewrite !length_app. cbn [length]. lia.
Qed.

Lemma deserialize_serialize (s : GroupSession)
    (Hwf : session_wf s) (Hn : Z.of_nat (size (peers s)) < u32_max)
    (Hids : map_Forall (fun pid _ => Z.of_nat (length pid) < u32_max) (peers s)) :
  deserialize_state (serialize_state s) = Some (restarted s).
Proof.
  unfold serialize_state, deserialize_state.
  rewrite read_u32_be_put by (unfold_words; unfold kStateMagic; lia).
  rewrite Z.eqb_refl, read_u32_be_put by (unfold_words; unfold kStateVersion; lia).
  rewrite Z.eqb_refl. cbn [negb app].
  set (tail := put_u32_be _ ++ _).
  assert (forall cid ck idx ho, match read_u32_be tail with
    | Some (n_peers, v) => match read_peers (length v) n_peers v ∅ with
        | Some ps => Some (mkGroupSession cid ck idx ho ps) | None => None end
    | None => None end = Some (mkGroupSession cid ck idx ho (drop_skipped <$> peers s))) as Htail.
  { intros. unfold tail. rewrite u32_small by (unfold is_u32; lia).
    rewrite read_u32_be_put by (unfold is_u32; lia). rewrite <- length_map_elements.
    rewrite <- (app_nil_r (mjoin (put_peer <$> _))) at 2.
    rewrite read_peers_put; [|apply put_peers_fuel|apply NoDup_map_elements| |].
    - do 2 f_equal. rewrite (right_id_L ∅ (∪)), list_to_map_fmap.
      f_equal. apply list_to_map_elements.
    - apply Forall_forall. intros [pid c] Hin%elem_of_map_elements. split.
      + by apply (Hids pid c).
      + by apply (sw_peers _ Hwf pid c).
    - apply Forall_forall. intros. apply lookup_empty. }
  destruct (have_own_chain s) eqn:Ho.
  - change (negb (b2z Byte.x01 =? 0)) with true. cbv iota.
    rewrite <- !app_assoc, read_chain_put by apply Hwf. rewrite Htail. unfold restarted. by rewrite Ho.
  - change (negb (b2z Byte.x00 =? 0)) with false. cbn [app]. cbv iota.
    rewrite Htail. destruct (sw_none _ Hwf Ho) as (H1 & H2 & H3).
    unfold restarted. by rewrite Ho, H1, H2, H3.
Qed.

(** State round trip.  A session that is saved and loaded again is the
    same session with empty skipped-key caches: same sending chain, same peers
    with the same chain ids, chain keys and next indices. *)
Theorem sender_keys_state_roundtrip (s : GroupSession)
    (Hwf : session_wf s) (Hn : Z.of_nat (size (peers s)) < u32_max)
    (Hids : map_Forall (fun pid _ => Z.of_nat (length pid) < u32_max) (peers s)) :
  deserialize_state (serialize_state s) = Some (restarted s).
Proof. by apply deserialize_serialize. Qed.

(** ** Reachable sessions *)

Section reachable.
Context `{!Sodium, !SodiumLaws, !ProtoMsg SenderKeysMessage,
          !ProtoMsg SenderKeysDistribution, !ProtoLaws SenderKeysDistribution}.

(** Any sequence of calls, with any bytes from the network or from disk. *)
Inductive reachable : GroupSession -> Prop :=
| R_new : reachable new_session
| R_create s rnd_id rnd_key :
    reachable s -> length rnd_id = 16%nat -> length rnd_key = 32%nat ->
    reachable (create_own_send_chain s rnd_id rnd_key).2
| R_encrypt s pt aad w s' : reachable s -> encrypt s pt aad = Ok (w, s') -> reachable s'
| R_install s peer d s' :
    reachable s -> install_peer_distribution s peer d = Ok s' -> reachable s'
| R_decrypt s peer w aad : reachable s -> reachable (decrypt s peer w aad).2
| R_remove s peer : reachable s -> reachable (remove_peer s peer)
| R_load blob s : deserialize_state blob = Some s -> reachable s.

Lemma advance_step_wf c : chain_wf c -> chain_wf (advance_step c).
Proof.
  intros Hc. unfold advance_step.
  set (sk := if (kMaxSkip <=? size (skipped c))%nat then erase_begin (skipped c) else skipped c).
  assert (S (size sk) <= kMaxSkip)%nat as Hsz.
  { pose proof (cw_skipped _ Hc). unfold sk.
    destruct (Nat.leb_spec kMaxSkip (size (skipped c))); [|lia].
    rewrite size_erase_begin. unfold kMaxSkip in *. lia. }
  assert (map_Forall (fun _ mk => length mk = 32%nat) sk) as Hmk.
  { intros k v Hk. apply (cw_mks _ Hc k). unfold sk in Hk.
    destruct (kMaxSkip <=? _)%nat; [by apply lookup_erase_begin_Some|done]. }
  constructor; cbn [chain_id chain_key next_index skipped].
  - apply Hc.
  - apply length_hmac.
  - apply is_u32_u32.
  - etrans; [apply size_map_emplace|done].
  - unfold map_emplace. destruct (sk !! _); [done|].
    apply map_Forall_insert_2; [apply length_hmac|done].
Qed.

Lemma advance_loop_wf n c : chain_wf c -> chain_wf (advance_loop n c).
Proof. revert c. induction n; intros c Hc; [done|]. by apply IHn, advance_step_wf. Qed.

Lemma decrypt_chain_wf c m aad : chain_wf c -> chain_wf (decrypt_chain c m aad).2.
Proof.
  intros Hc. unfold decrypt_chain, advance_chain_to.
  destruct (bool_decide _); [|done]. cbn [negb]. destruct (skipped c !! _) as [k|] eqn:E.
  - destruct (xchacha20_decrypt _ _ _ _); [|done]. constructor; try apply Hc; simpl.
    + pose proof (cw_skipped _ Hc). rewrite map_size_delete, E. lia.
    + apply map_Forall_delete, Hc.
  - destruct (skm_index m <? next_index c); [done|].
    destruct (_ <? _) eqn:E1; [done|].
    pose proof (advance_loop_wf (Z.to_nat (skm_index m - next_index c)) c Hc) as Hc'.
    destruct (xchacha20_decrypt _ _ _ _); [|done].
    constructor; try apply Hc'; [apply length_hmac|apply is_u32_u32].
Qed.

Lemma read_peers_wf fuel n v acc ps :
  map_Forall (fun _ c => chain_wf c) acc -> read_peers fuel n v acc = Some ps ->
  map_Forall (fun _ c => chain_wf c) ps.
Proof.
  revert n v acc. induction fuel as [|fuel IH]; intros n v acc Hacc; cbn [read_peers].
  { case_match; [by intros [= <-]|done]. }
  destruct (n <=? 0); [by intros [= <-]|].
  destruct (read_bytes v) as [[pid v']|]; [|done].
  destruct (read_chain v') as [[[[cid ck] idx] v'']|] eqn:E; [|done].
  apply IH. unfold map_emplace. destruct (acc !! pid); [done|].
  apply read_chain_lengths in E as (? & ? & ? & _).
  apply map_Forall_insert_2; [|done]. constructor; simpl; try done.
  rewrite map_size_empty. unfold kMaxSkip. lia.
Qed.

Lemma deserialize_state_wf blob s : deserialize_state blob = Some s -> session_wf s.
Proof.
  unfold deserialize_state. intros Hd.
  destruct (read_u32_be blob) as [[magic v]|]; [|done]. destruct (negb _); [done|].
  destruct (read_u32_be v) as [[version v1]|]; [|done]. destruct (negb _); [done|].
  destruct v1 as [|flag v2]; [done|].
  destruct (negb (b2z flag =? 0)).
  - destruct (read_chain v2) as [[[[cid ck] idx] v3]|] eqn:E; [|done].
    apply read_chain_lengths in E as (? & ? & ? & _).
    destruct (read_u32_be v3) as [[n v4]|]; [|done].
    destruct (read_peers _ n v4 ∅) as [ps|] eqn:Ep; [|done]. injection Hd as <-.
    constructor; simpl; try done. eapply read_peers_wf; [|done]. apply map_Forall_empty.
  - destruct (read_u32_be v2) as [[n v4]|]; [|done].
    destruct (read_peers _ n v4 ∅) as [ps|] eqn:Ep; [|done]. injection Hd as <-.
    constructor; simpl; try done. eapply read_peers_wf; [|done]. apply map_Forall_empty.
Qed.

Lemma set_peer_wf s peer c : session_wf s -> chain_wf c -> session_wf (set_peer s peer c).
Proof. intros Hs Hc. constructor; try apply Hs. apply map_Forall_insert_2; [done|apply Hs]. Qed.

(** Invariant of every reachable session: whatever bytes arrive and
    whatever state blobs are loaded, ids are 16 and keys 32 bytes, indices
    are 32-bit, and no peer's skipped-key cache exceeds kMaxSkip = 1000
    entries, which bounds the memory a peer can make us hold. *)
Theorem sender_keys_reachable_wf (s : GroupSession) (Hr : reachable s) : session_wf s.
Proof.
  induction Hr as [|s rid rkey _ IH Hid Hkey|s pt aad w s' _ IH He|s peer d s' _ IH Hi
                  |s peer w aad _ IH|s peer _ IH|blob s Hl].
  - constructor; done.
  - constructor; simpl; try done. apply IH.
  - unfold encrypt in He. destruct (have_own_chain s) eqn:Ho; [|done]. injection He as _ <-.
    constructor; simpl; try apply IH; [apply length_hmac|apply is_u32_u32|congruence].
  - unfold install_peer_distribution in Hi. destruct (pb_parse d) as [x|] eqn:E; [|done].
    destruct (Nat.eqb_spec (length (skd_chain_id x)) 16); [|done].
    destruct (Nat.eqb_spec (length (skd_chain_seed x)) 32); [|done]. injection Hi as <-.
    apply set_peer_wf; [done|]. apply pb_parse_ok in E.
    constructor; simpl; try done. rewrite map_size_empty. unfold kMaxSkip. lia.
  - unfold decrypt. destruct (pb_parse w) as [m|]; [|done].
    destruct (negb _); [done|]. destruct (peers s !! peer) as [c|] eqn:E; [|done].
    pose proof (decrypt_chain_wf c m aad (sw_peers _ IH _ _ E)) as Hc.
    destruct (decrypt_chain c m aad). by apply set_peer_wf.
  - constructor; try apply IH. apply map_Forall_delete, IH.
  - by eapply deserialize_state_wf.
Qed.

(** A restart loses the pending out-of-order messages.  After a session
    is saved and loaded, every message below the peer's next index is refused
    for good, also those whose keys the running session still had cached. *)
Theorem sender_keys_restart_loses_skipped (s : GroupSession) (peer w aad : bytes)
    (c : PerPeerChain) (m : SenderKeysMessage)
    (Hwf : session_wf s) (Hn : Z.of_nat (size (peers s)) < u32_max)
    (Hids : map_Forall (fun pid _ => Z.of_nat (length pid) < u32_max) (peers s))
    (Hp : peers s !! peer = Some c) (Hw : pb_parse w = Some m)
    (Hlate : skm_index m < next_index c) :
  exists s', deserialize_state (serialize_state s) = Some s' /\ (decrypt s' peer w aad).1 = None.
Proof.
  exists (restarted s). split; [by apply deserialize_serialize|].
  unfold decrypt. rewrite Hw. destruct (negb _); [done|].
  unfold restarted. cbn [peers]. rewrite lookup_fmap, Hp. cbn [fmap option_fmap option_map].
  unfold decrypt_chain, drop_skipped. cbn [chain_id skipped next_index].
  destruct (negb _); [done|]. rewrite lookup_empty.
  by destruct (Z.ltb_spec (skm_index m) (next_index c)); [|lia].
Qed.
End reachable.

(** ** The theorems at concrete inputs *)

(** A member with a sending chain and one peer that has skipped an index. *)
Definition sample_chain : PerPeerChain :=
  mkPerPeerChain (be_bytes 16 7) (be_bytes 32 8) 3
    {[ (be_bytes 16 7, 1) := be_bytes 32 9 ]}.

Definition sample_session : GroupSession :=
  mkGroupSession (be_bytes 16 1) (be_bytes 32 2) 5 true {[ [Byte.x70] := sample_chain ]}.

Lemma sample_session_wf : session_wf sample_session.
Proof.
  constructor; simpl; try done.
  intros pid c [<- <-]%lookup_singleton_Some. constructor; try done.
  - unfold sample_chain. cbn [skipped]. rewrite map_size_singleton. unfold kMaxSkip. lia.
  - unfold sample_chain. cbn [skipped]. by intros k mk [_ <-]%lookup_singleton_Some.
Qed.

Lemma sample_session_sizes :
  Z.of_nat (size (peers sample_session)) < u32_max /\
  map_Forall (fun pid _ => Z.of_nat (length pid) < u32_max) (peers sample_session).
Proof.
  split; [done|]. unfold sample_session. cbn [peers].
  by intros pid c [<- _]%lookup_singleton_Some.
Qed.

Example sender_keys_state_roundtrip_witness :
  deserialize_state (serialize_state sample_session) = Some (restarted sample_session).
Proof.
  exact (sender_keys_state_roundtrip sample_session sample_session_wf
           (proj1 sample_session_sizes) (proj2 sample_session_sizes)).
Defined.

Example sender_keys_reachable_wf_witness :
  session_wf (decrypt (create_own_send_chain new_session (be_bytes 16 1) (be_bytes 32 2)).2
                [Byte.x70] [Byte.x01] []).2.
Proof. apply sender_keys_reachable_wf. apply R_decrypt, R_create; [apply R_new|done|done]. Defined.

Example sender_keys_restart_loses_skipped_witness :
  exists s', deserialize_state (serialize_state sample_session) = Some s' /\
    (decrypt s' [Byte.x70] (pb_serialize (mkSenderKeysMessage (be_bytes 16 7) 1 [])) []).1 = None.
Proof.
  apply (sender_keys_restart_loses_skipped sample_session [Byte.x70] _ [] sample_chain
           (mkSenderKeysMessage (be_bytes 16 7) 1 []) sample_session_wf
           (proj1 sample_session_sizes) (proj2 sample_session_sizes)).
  - reflexivity.
  - vm_compute. reflexivity.
  - reflexivity.
Defined.
