(* ===== verification/RatchetProofs.v ===== *)
(** * Double Ratchet: a conversation over a network that reorders and drops

    Both parties run the code of [Ratchet]; a ghost history (one entry per
    sending chain of the conversation) relates their states.  Chain [c] is
    sent with key pair [key c]; Alice owns the odd chains, Bob the even ones,
    and chain 0 stands for Bob's signed prekey, on which nothing is sent. *)
From stdpp Require Import functions.
From S2P Require Import Prelude StdMap Crypto Ratchet.
Import Ratchet.

(** ** Ghost history *)

Record Ghost := mkGhost {
  key : nat -> bytes;          (* private DH key of the chain *)
  RK : nat -> bytes;           (* root key after the chain's DH step *)
  CK : nat -> bytes;           (* first chain key *)
  len : nat -> nat;            (* messages sent on the chain *)
  D : nat -> nat;              (* message keys its receiver has derived *)
  out : gset (nat * nat);      (* messages sent and not yet decrypted *)
  top : nat;                   (* the newest chain *)
}.

(** Chains [i] and [c] belong to different parties. *)
Definition opp (i c : nat) : Prop := Nat.odd (i + c) = true.

Lemma opp_neq i c : opp i c -> i <> c.
Proof.
  intros Ho ->. unfold opp in Ho. rewrite <- Nat.negb_even in Ho.
  replace (c + c)%nat with (2 * c)%nat in Ho by lia. by rewrite Nat.even_mul in Ho.
Qed.

Lemma opp_S i : opp i (S i).
Proof.
  unfold opp. rewrite Nat.add_succ_r, Nat.odd_succ.
  replace (i + i)%nat with (2 * i)%nat by lia. by rewrite Nat.even_mul.
Qed.

Lemma opp_add2 i c : opp (S (S i)) c <-> opp i c.
Proof. unfold opp. by rewrite !Nat.add_succ_l, Nat.odd_succ_succ. Qed.

Lemma opp_pred i c : (1 <= i)%nat -> opp i c -> (c < i)%nat -> c = (i - 1)%nat \/ (c + 3 <= i)%nat.
Proof.
  intros Hi Ho Hc. destruct (decide (c = i - 1)%nat); [by left|right].
  destruct (decide (c = i - 2)%nat) as [->|]; [|lia]. exfalso.
  assert (2 <= i)%nat by lia. unfold opp in Ho.
  replace (i + (i - 2))%nat with (2 * (i - 1))%nat in Ho by lia.
  by rewrite <- Nat.negb_even, Nat.even_mul in Ho.
Qed.

Lemma not_opp_self i c c' : opp i c -> opp i c' -> opp c c' -> False.
Proof.
  unfold opp. rewrite !Nat.odd_add. by destruct (Nat.odd i), (Nat.odd c), (Nat.odd c').
Qed.

Section conversation.
Context `{!Sodium, !SodiumLaws, !ProtoMsg RatchetMessage, !ProtoLaws RatchetMessage}.

Definition pub (g : Ghost) (c : nat) : bytes := scalarmult_base (key g c).
Definition next_ck (ck : bytes) : bytes := (kdf_ck ck).2.
Definition ck_n (g : Ghost) (c n : nat) : bytes := Nat.iter n next_ck (CK g c).
Definition mk_n (g : Ghost) (c n : nat) : bytes := (kdf_ck (ck_n g c n)).1.

(** The [pn] field of the chain's messages: length of its owner's previous
    chain. *)
Definition pn_of (g : Ghost) (c : nat) : nat := if (c <? 2)%nat then 0%nat else len g (c - 2).

Lemma kdf_rk_ok r d : exists r' c', kdf_rk r d = Ok (r', c').
Proof.
  unfold kdf_rk. destruct (hkdf_expand_ok (hkdf_extract r d) kRkInfo 64) as (okm & -> & _);
    [lia|]. eauto.
Qed.

Record ghost_ok (g : Ghost) : Prop := {
  g_chain : forall c, (c < top g)%nat -> exists dh,
    scalarmult (key g (S c)) (pub g c) = Some dh /\
    kdf_rk (RK g c) dh = Ok (RK g (S c), CK g (S c));
  g_inj : forall c c', (c <= top g)%nat -> (c' <= top g)%nat -> pub g c = pub g c' -> c = c';
  g_D : forall c, (D g c <= len g c)%nat;
  g_top : D g (top g) = 0%nat;
  g_len0 : len g 0 = 0%nat;
  g_above : forall c, (top g < c)%nat -> len g c = 0%nat;
  g_u32 : forall c, Z.of_nat (len g c) < u32_max;
  g_out : forall c n, (c, n) ∈ out g -> (c <= top g)%nat /\ (n < len g c)%nat;
  g_pending : forall c n, (D g c <= n < len g c)%nat -> (c, n) ∈ out g;
  g_size : (size (out g) <= kMaxSkip)%nat;
}.

(** A party whose sending chain is [i]: it receives on chain [i-1] (none
    before the first DH ratchet), and its cache holds exactly the derived
    keys of the messages still outstanding. *)
Record party (g : Ghost) (i : nat) (s : State) : Prop := {
  p_priv : dhs_priv s = key g i;
  p_pub : dhs_pub s = pub g i;
  p_rk : rk s = RK g i;
  p_have_cks : have_cks s = (1 <=? i)%nat;
  p_cks : (1 <= i)%nat -> cks s = ck_n g i (len g i);
  p_ns : ns s = Z.of_nat (len g i);
  p_pn : pn s = Z.of_nat (pn_of g i);
  p_have_dhr : have_dhr s = (1 <=? i)%nat;
  p_dhr : (1 <= i)%nat -> dhr_pub s = pub g (i - 1);
  p_have_ckr : have_ckr s = (2 <=? i)%nat;
  p_ckr : (2 <= i)%nat -> ckr s = ck_n g (i - 1) (D g (i - 1));
  p_nr : nr s = if (2 <=? i)%nat then Z.of_nat (D g (i - 1)) else 0;
  p_skipped : forall k v, skipped s !! k = Some v <->
    exists c n, opp i c /\ (c < i)%nat /\ (n < D g c)%nat /\ (c, n) ∈ out g /\
      k = (pub g c, Z.of_nat n) /\ v = mk_n g c n;
  p_final : forall c, opp i c -> (c + 3 <= i)%nat -> D g c = len g c;
}.

(** The cached keys are outstanding messages below the derived prefix. *)
Lemma party_size g i s :
  ghost_ok g -> (i <= top g)%nat -> party g i s ->
  (size (skipped s) <= size (filter (fun p : nat * nat => p.2 < D g p.1)%nat (out g)))%nat.
Proof.
  intros Hg Hi Hp. rewrite <- size_dom.
  trans (size (set_map (D := gset (bytes * Z)) (fun p : nat * nat => (pub g p.1, Z.of_nat p.2))
    (filter (fun p : nat * nat => p.2 < D g p.1)%nat (out g)))).
  - apply subseteq_size. intros k [v Hk]%elem_of_dom.
    apply (p_skipped _ _ _ Hp) in Hk as (c & n & _ & _ & Hn & Ho & -> & _).
    apply elem_of_map. exists (c, n). split; [done|]. by apply elem_of_filter.
  - apply size_set_map_le.
Qed.

(** There is room for one more key while a message above the prefix is
    outstanding. *)
Lemma party_room g i s c :
  ghost_ok g -> (i <= top g)%nat -> party g i s -> (D g c < len g c)%nat ->
  (size (skipped s) < kMaxSkip)%nat.
Proof.
  intros Hg Hi Hp Hc. pose proof (party_size g i s Hg Hi Hp).
  pose proof (g_size _ Hg).
  assert (size (filter (fun p : nat * nat => p.2 < D g p.1)%nat (out g)) < size (out g))%nat; [|lia].
  apply subset_size. split; [set_solver|]. intros Hs.
  assert ((c, D g c) ∈ out g) as Hin by (apply (g_pending _ Hg); lia).
  apply Hs, elem_of_filter in Hin. simpl in Hin. lia.
Qed.

(** The gap to any outstanding message fits the skip limit. *)
Lemma gap_bound g c n :
  ghost_ok g -> (D g c <= n <= len g c)%nat -> (n - D g c <= kMaxSkip)%nat.
Proof.
  intros Hg Hn. pose proof (g_size _ Hg).
  trans (size (list_to_set ((fun j => (c, j)) <$> seq (D g c) (n - D g c)) : gset (nat * nat))).
  - rewrite size_list_to_set, length_fmap, length_seq; [done|].
    apply NoDup_fmap_2_strong; [|apply NoDup_seq]. by intros ? ? _ _ [= ?].
  - etrans; [apply subseteq_size|done]. intros p.
    rewrite elem_of_list_to_set, list_elem_of_fmap. intros (j & -> & Hj%elem_of_seq).
    apply (g_pending _ Hg). lia.
Qed.

(** ** How the history moves *)

Definition derive_to (g : Ghost) (c n : nat) : Ghost :=
  mkGhost (key g) (RK g) (CK g) (len g) (<[c := n]> (D g)) (out g) (top g).
Definition settle (g : Ghost) (c n : nat) : Ghost :=
  mkGhost (key g) (RK g) (CK g) (len g) (D g) (out g ∖ {[(c, n)]}) (top g).
Definition send_on (g : Ghost) (c : nat) : Ghost :=
  mkGhost (key g) (RK g) (CK g) (<[c := S (len g c)]> (len g)) (D g)
    ({[(c, len g c)]} ∪ out g) (top g).
Definition new_chain (g : Ghost) (rnd r c : bytes) : Ghost :=
  mkGhost (<[S (top g) := rnd]> (key g)) (<[S (top g) := r]> (RK g)) (<[S (top g) := c]> (CK g))
    (len g) (D g) (out g) (S (top g)).

(** A party only sees its own sending chains and the other's receiving data. *)
Lemma party_frame g g' i s :
  party g i s ->
  (forall c, (c <= i)%nat -> key g' c = key g c) ->
  (forall c, (c <= i)%nat -> RK g' c = RK g c) ->
  (forall c, (c <= i)%nat -> CK g' c = CK g c) ->
  len g' i = len g i -> pn_of g' i = pn_of g i ->
  (forall c, opp i c -> (c < i)%nat -> D g' c = D g c) ->
  (forall c, opp i c -> (c + 3 <= i)%nat -> len g' c = len g c) ->
  (forall c n, opp i c -> (c < i)%nat -> (n < D g c)%nat -> (c, n) ∈ out g' <-> (c, n) ∈ out g) ->
  party g' i s.
Proof.
  intros Hp Hkey HRK HCK Hlen Hpn HD Hfin Hout.
  assert (forall c, (c <= i)%nat -> pub g' c = pub g c) as Hpub
    by (intros c Hc; unfold pub; by rewrite Hkey).
  assert (forall c n, (c <= i)%nat -> ck_n g' c n = ck_n g c n) as Hck
    by (intros c n Hc; unfold ck_n; by rewrite HCK).
  assert ((2 <= i)%nat -> opp i (i - 1)) as Hopp.
  { intros Hi. replace i with (S (i - 1)) at 1 by lia. unfold opp. rewrite Nat.add_comm.
    apply opp_S. }
  constructor.
  - by rewrite Hkey, (p_priv _ _ _ Hp).
  - by rewrite Hpub, (p_pub _ _ _ Hp).
  - by rewrite HRK, (p_rk _ _ _ Hp).
  - apply Hp.
  - intros Hi. by rewrite Hlen, Hck, (p_cks _ _ _ Hp).
  - by rewrite Hlen, (p_ns _ _ _ Hp).
  - by rewrite Hpn, (p_pn _ _ _ Hp).
  - apply Hp.
  - intros Hi. rewrite Hpub by lia. by apply (p_dhr _ _ _ Hp).
  - apply Hp.
  - intros Hi. rewrite HD, Hck by (auto with lia). by apply (p_ckr _ _ _ Hp).
  - rewrite (p_nr _ _ _ Hp). destruct (Nat.leb_spec 2 i); [|done].
    by rewrite HD by (auto with lia).
  - intros k v. rewrite (p_skipped _ _ _ Hp). split; intros (c & n & Ho & Hc & Hn & Hin & -> & ->);
      exists c, n; unfold mk_n in *.
    + rewrite HD, Hout, Hpub, Hck by (done || lia). done.
    + rewrite HD in Hn by done. rewrite Hout in Hin by done.
      rewrite Hpub, Hck by lia. done.
  - intros c Ho Hc. rewrite HD, Hfin by (done || lia). by apply (p_final _ _ _ Hp).
Qed.

(** ** Skipping *)

Lemma ck_n_S g c n : ck_n g c (S n) = (kdf_ck (ck_n g c n)).2.
Proof. done. Qed.

Lemma derive_to_ok g c n :
  ghost_ok g -> (c < top g)%nat -> (D g c <= n <= len g c)%nat -> ghost_ok (derive_to g c n).
Proof.
  intros [H1 H2 H3 H4 H5 H6 H7 H8 H9 H10] Hc Hn.
  constructor; cbn [derive_to key RK CK len D out top]; try done.
  - intros c'. destruct (decide (c = c')) as [->|Hne];
      [rewrite fn_lookup_insert; lia|by rewrite fn_lookup_insert_ne].
  - by rewrite fn_lookup_insert_ne by lia.
  - intros c' n'. destruct (decide (c = c')) as [->|Hne].
    + rewrite fn_lookup_insert. intros. apply H9. lia.
    + rewrite fn_lookup_insert_ne by done. apply H9.
Qed.

(** One turn of the loop derives one more key of the receiving chain. *)
Lemma skip_step_party g i s :
  ghost_ok g -> (2 <= i <= top g)%nat -> (D g (i - 1) < len g (i - 1))%nat -> party g i s ->
  party (derive_to g (i - 1) (S (D g (i - 1)))) i (skip_step s).
Proof.
  intros Hg Hi HD Hp.
  assert (opp i (i - 1)) as Hopp.
  { replace i with (S (i - 1)) at 1 by lia. unfold opp. rewrite Nat.add_comm. apply opp_S. }
  pose proof (party_room g i s (i - 1) Hg ltac:(lia) Hp HD) as Hroom.
  pose proof (g_u32 _ Hg (i - 1)) as Hu.
  assert (nr s = Z.of_nat (D g (i - 1))) as Hnr.
  { rewrite (p_nr _ _ _ Hp). destruct (Nat.leb_spec 2 i); [done|lia]. }
  unfold skip_step. cbn [kdf_ck].
  destruct (Nat.leb_spec kMaxSkip (size (skipped s))); [lia|].
  rewrite (p_dhr _ _ _ Hp), (p_ckr _ _ _ Hp), Hnr by lia.
  rewrite map_emplace_None.
  2: { destruct (skipped s !! _) as [v|] eqn:E; [|done].
       apply (p_skipped _ _ _ Hp) in E as (c & n & Ho & Hc & Hn & Hin & [= Hpub ?] & _).
       apply (g_inj _ Hg) in Hpub; [|lia..]. subst. lia. }
  rewrite u32_small by (unfold is_u32; lia).
  constructor; cbn [derive_to key RK CK len D out dhs_priv dhs_pub rk have_cks cks ns pn have_dhr
    dhr_pub have_ckr ckr nr skipped]; try apply Hp.
  - done.
  - intros _. rewrite fn_lookup_insert. done.
  - destruct (Nat.leb_spec 2 i); [|lia]. rewrite fn_lookup_insert. lia.
  - intros k v. rewrite lookup_insert_Some, (p_skipped _ _ _ Hp). split.
    + intros [[<- <-]|[Hne (c & n & Ho & Hc & Hn & Hin & -> & ->)]].
      * exists (i - 1)%nat, (D g (i - 1)). rewrite fn_lookup_insert.
        split_and!; [done|lia|lia|apply (g_pending _ Hg); lia|done|done].
      * exists c, n. split_and!; try done. destruct (decide (i - 1 = c)%nat) as [<-|];
          [rewrite fn_lookup_insert; lia|by rewrite fn_lookup_insert_ne].
    + intros (c & n & Ho & Hc & Hn & Hin & -> & ->).
      destruct (decide ((c, n) = (i - 1, D g (i - 1))%nat)) as [[= -> ->]|Hne]; [by left|right].
      destruct (decide (i - 1 = c)%nat) as [<-|Hc'].
      * rewrite fn_lookup_insert in Hn. assert (n <> D g (i - 1)) by congruence.
        split; [intros [= ?]; lia|]. exists (i - 1)%nat, n. split_and!; try done; lia.
      * rewrite fn_lookup_insert_ne in Hn by done. split.
        { intros [= Hpub _]. apply (g_inj _ Hg) in Hpub; lia. }
        exists c, n. done.
  - intros c Ho Hc. rewrite fn_lookup_insert_ne by lia. by apply (p_final _ _ _ Hp).
Qed.

Lemma opp_pred1 i : (1 <= i)%nat -> opp i (i - 1).
Proof.
  intros Hi. replace i with (S (i - 1)) at 1 by lia. unfold opp. rewrite Nat.add_comm.
  apply opp_S.
Qed.

(** Deriving in two steps is deriving in one; deriving to where the chain
    stands changes nothing. *)
Lemma party_derive_merge g i c a b s :
  party (derive_to (derive_to g c a) c b) i s -> party (derive_to g c b) i s.
Proof.
  intros Hp. apply (party_frame _ _ _ _ Hp); try done.
  intros c' _ _. cbn [derive_to D]. destruct (decide (c = c')) as [->|Hne].
  - by rewrite !fn_lookup_insert.
  - by rewrite !fn_lookup_insert_ne.
Qed.

Lemma party_derive_id g i c s : party g i s -> party (derive_to g c (D g c)) i s.
Proof.
  intros Hp. apply (party_frame _ _ _ _ Hp); try done.
  intros c' _ _. cbn [derive_to D]. destruct (decide (c = c')) as [->|Hne].
  - by rewrite fn_lookup_insert.
  - by rewrite fn_lookup_insert_ne.
Qed.

Lemma skip_loop_party k g i s :
  ghost_ok g -> (2 <= i <= top g)%nat -> (D g (i - 1) + k <= len g (i - 1))%nat -> party g i s ->
  party (derive_to g (i - 1) (D g (i - 1) + k)) i (skip_loop k s).
Proof.
  revert g s. induction k as [|k IH]; intros g s Hg Hi Hk Hp; cbn [skip_loop].
  { rewrite Nat.add_0_r. by apply party_derive_id. }
  set (g1 := derive_to g (i - 1) (S (D g (i - 1)))).
  assert (D g1 (i - 1) = S (D g (i - 1))) as HD1 by (apply fn_lookup_insert).
  assert (ghost_ok g1) as Hg1 by (apply derive_to_ok; [done|lia|lia]).
  assert (party g1 i (skip_step s)) as Hp1 by (apply skip_step_party; [done|done|lia|done]).
  specialize (IH g1 (skip_step s) Hg1 Hi). rewrite HD1 in IH.
  replace (D g (i - 1) + S k)%nat with (S (D g (i - 1)) + k)%nat by lia.
  eapply party_derive_merge, IH; [cbn [g1 derive_to len]; lia|done].
Qed.

Lemma skip_message_keys_party g i s n :
  ghost_ok g -> (2 <= i <= top g)%nat -> (D g (i - 1) <= n <= len g (i - 1))%nat -> party g i s ->
  exists s', skip_message_keys s (Z.of_nat n) = (Ok tt, s') /\
    party (derive_to g (i - 1) n) i s'.
Proof.
  intros Hg Hi Hn Hp. unfold skip_message_keys.
  assert (nr s = Z.of_nat (D g (i - 1))) as Hnr.
  { rewrite (p_nr _ _ _ Hp). destruct (Nat.leb_spec 2 i); [done|lia]. }
  rewrite (p_have_ckr _ _ _ Hp), Hnr. destruct (Nat.leb_spec 2 i); [|lia]. cbn [negb].
  pose proof (gap_bound g (i - 1) n Hg Hn). pose proof (g_u32 _ Hg (i - 1)).
  rewrite size_add_desktop by (unfold is_u32; lia).
  destruct (Z.ltb_spec (Z.of_nat (D g (i - 1)) + Z.of_nat kMaxSkip) (Z.of_nat n)); [lia|].
  eexists. split; [done|].
  replace (Z.to_nat (Z.of_nat n - Z.of_nat (D g (i - 1)))) with (n - D g (i - 1))%nat by lia.
  replace n with (D g (i - 1) + (n - D g (i - 1)))%nat at 1 by lia.
  apply skip_loop_party; try done. lia.
Qed.

(** ** Opening a genuine message *)

Definition wire (g : Ghost) (c n : nat) (pt outer : bytes) : RatchetMessage :=
  mkRatchetMessage (pub g c) (Z.of_nat (pn_of g c)) (Z.of_nat n)
    (xchacha20_encrypt (mk_n g c n) zero_nonce pt
       (compose_aad (pub g c) (Z.of_nat (pn_of g c)) (Z.of_nat n) outer)).

Lemma settle_ok g c n : ghost_ok g -> (n < D g c)%nat -> ghost_ok (settle g c n).
Proof.
  intros [H1 H2 H3 H4 H5 H6 H7 H8 H9 H10] Hn.
  constructor; cbn [settle key RK CK len D out top]; try done.
  - intros c' n'. rewrite elem_of_difference. intros [Hin _]. by apply H8.
  - intros c' n' Hn'. apply elem_of_difference. split; [by apply H9|].
    rewrite elem_of_singleton. intros [= -> ->]. lia.
  - etrans; [|exact H10]. apply subseteq_size. set_solver.
Qed.

Lemma settle_elem g c n c' n' :
  (c', n') ∈ out (settle g c n) <-> (c', n') ∈ out g /\ (c', n') <> (c, n).
Proof. cbn [settle out]. rewrite elem_of_difference, elem_of_singleton. done. Qed.

(** The message's key is in the cache. *)
Lemma decrypt_cached g i s c n pt outer rnd :
  ghost_ok g -> (i <= top g)%nat -> party g i s -> opp i c -> (c < i)%nat -> (n < D g c)%nat ->
  (c, n) ∈ out g ->
  exists s', decrypt_msg s (wire g c n pt outer) outer rnd = (Ok (Some pt), s') /\
    party (settle g c n) i s'.
Proof.
  intros Hg Hi Hp Ho Hc Hn Hin. unfold decrypt_msg. cbn [wire header_dh_pub msg_n msg_pn ciphertext].
  assert (skipped s !! (pub g c, Z.of_nat n) = Some (mk_n g c n)) as ->
    by (apply (p_skipped _ _ _ Hp); eauto 10).
  rewrite xchacha20_roundtrip. eexists. split; [done|].
  destruct Hp as [P1 P2 P3 P4 P5 P6 P7 P8 P9 P10 P11 P12 P13 P14].
  constructor; cbn [dhs_priv dhs_pub rk have_cks cks ns pn have_dhr dhr_pub have_ckr ckr nr skipped];
    try done.
  intros k v. rewrite lookup_delete_Some, P13. split.
  - intros [Hne (c' & n' & Ho' & Hc' & Hn' & Hin' & -> & ->)]. exists c', n'.
    rewrite settle_elem. split_and!; try done. congruence.
  - intros (c' & n' & Ho' & Hc' & Hn' & Hin' & -> & ->). apply settle_elem in Hin' as [Hin' Hne].
    split; [|by exists c', n']. intros [= Hpub Heq]. apply (g_inj _ Hg) in Hpub; [|lia..].
    apply Hne. f_equal; [done|lia].
Qed.

(** The message is on the current receiving chain, at or past its head. *)
Lemma decrypt_current_party g i s n pt outer :
  ghost_ok g -> (2 <= i <= top g)%nat -> party g i s ->
  (D g (i - 1) <= n < len g (i - 1))%nat ->
  exists s', decrypt_current s (wire g (i - 1) n pt outer) outer = (Ok (Some pt), s') /\
    party (settle (derive_to g (i - 1) (S n)) (i - 1) n) i s'.
Proof.
  intros Hg Hi Hp Hn. unfold decrypt_current. cbn [wire header_dh_pub msg_n msg_pn ciphertext].
  destruct (skip_message_keys_party g i s n) as (s1 & -> & Hp1); [done|done|lia|done|].
  assert (D (derive_to g (i - 1) n) (i - 1) = n) as HDn by apply fn_lookup_insert.
  assert (ckr s1 = ck_n g (i - 1) n) as Hckr
    by (rewrite (p_ckr _ _ _ Hp1), HDn by lia; done).
  assert (nr s1 = Z.of_nat n) as Hnr.
  { rewrite (p_nr _ _ _ Hp1), HDn. destruct (Nat.leb_spec 2 i); [done|lia]. }
  pose proof (g_u32 _ Hg (i - 1)).
  cbn [kdf_ck]. rewrite Hckr, Hnr. change (hmacsha256 _ [Byte.x01]) with (mk_n g (i - 1) n).
  rewrite xchacha20_roundtrip. eexists. split; [done|].
  rewrite u32_small by (unfold is_u32; lia).
  destruct Hp1 as [P1 P2 P3 P4 P5 P6 P7 P8 P9 P10 P11 P12 P13 P14].
  constructor; cbn [dhs_priv dhs_pub rk have_cks cks ns pn have_dhr dhr_pub have_ckr ckr nr skipped];
    try done; cbn [settle derive_to D].
  - intros _. by rewrite fn_lookup_insert.
  - destruct (Nat.leb_spec 2 i); [|lia]. rewrite fn_lookup_insert. lia.
  - intros k v. rewrite P13. split; intros (c & n' & Ho & Hc & Hn' & Hin & -> & ->); exists c, n';
      rewrite settle_elem in *; cbn [derive_to D] in *.
    + destruct (decide (i - 1 = c)%nat) as [<-|Hne].
      * rewrite fn_lookup_insert in Hn'. rewrite fn_lookup_insert.
        split_and!; try done; [lia|]. intros [= ->]. lia.
      * rewrite fn_lookup_insert_ne in Hn' by done. rewrite fn_lookup_insert_ne by done.
        split_and!; try done. congruence.
    + destruct Hin as [Hin Hne']. destruct (decide (i - 1 = c)%nat) as [<-|Hne].
      * rewrite fn_lookup_insert in Hn'. rewrite fn_lookup_insert.
        split_and!; try done. assert (n' <> n) by congruence. lia.
      * rewrite fn_lookup_insert_ne in Hn' by done. rewrite fn_lookup_insert_ne by done. done.
  - intros c Ho Hc. rewrite fn_lookup_insert_ne by lia. specialize (P14 c Ho Hc).
    cbn [derive_to D] in P14. by rewrite fn_lookup_insert_ne in P14 by lia.
Qed.

(** ** The DH ratchet step *)

(** A key pair that repeats no public key of the conversation and gives a
    Diffie-Hellman result with each of them. *)
Definition fresh (g : Ghost) (rnd : bytes) : Prop :=
  forall c, (c <= top g)%nat -> scalarmult_base rnd <> pub g c /\ is_Some (scalarmult rnd (pub g c)).

Lemma new_chain_ok g rnd dh r c :
  ghost_ok g -> fresh g rnd ->
  scalarmult rnd (pub g (top g)) = Some dh -> kdf_rk (RK g (top g)) dh = Ok (r, c) ->
  ghost_ok (new_chain g rnd r c).
Proof.
  intros [H1 H2 H3 H4 H5 H6 H7 H8 H9 H10] Hf Hdh Hk.
  assert (forall c', (c' <= top g)%nat -> pub (new_chain g rnd r c) c' = pub g c') as Hpub.
  { intros c' Hc'. unfold pub. cbn [new_chain key]. by rewrite fn_lookup_insert_ne by lia. }
  constructor; cbn [new_chain key RK CK len D out top]; try done.
  - intros c' Hc'. destruct (decide (c' = top g)) as [->|Hne].
    + exists dh. rewrite !fn_lookup_insert, Hpub by lia. by rewrite fn_lookup_insert_ne by lia.
    + destruct (H1 c') as (dh' & Hd & Hk'); [lia|]. exists dh'.
      rewrite Hpub by lia. by rewrite !fn_lookup_insert_ne by lia.
  - assert (pub (new_chain g rnd r c) (S (top g)) = scalarmult_base rnd) as Hnew.
    { unfold pub. cbn [new_chain key]. by rewrite fn_lookup_insert. }
    intros c1 c2 Hc1 Hc2. destruct (decide (c1 = S (top g))) as [->|], (decide (c2 = S (top g))) as [->|];
      rewrite ?Hnew, ?Hpub by lia; intros Heq; try done.
    + by destruct (Hf c2 ltac:(lia)).
    + by destruct (Hf c1 ltac:(lia)).
    + apply H2; [lia|lia|done].
  - specialize (H3 (S (top g))). rewrite H6 in H3 by lia. lia.
  - intros c' Hc'. apply H6. lia.
  - intros c' n Hin. apply H8 in Hin. lia.
Qed.

Lemma dh_ratchet_party g i s rnd :
  ghost_ok g -> top g = S i -> party g i s ->
  ((1 <= i)%nat -> D g (i - 1) = len g (i - 1)) -> fresh g rnd ->
  exists s' r c, dh_ratchet s (pub g (S i)) rnd = (Ok tt, s') /\
    ghost_ok (new_chain g rnd r c) /\ party (new_chain g rnd r c) (S (S i)) s'.
Proof.
  intros Hg Ht Hp Hlast Hf.
  destruct (g_chain _ Hg i) as (dh1 & Hdh1 & Hk1); [lia|].
  destruct (Hf (S i) ltac:(lia)) as [_ [dh2 Hdh2]].
  destruct (kdf_rk_ok (RK g (S i)) dh2) as (r & c & Hk2).
  assert (ghost_ok (new_chain g rnd r c)) as Hg' by (eapply new_chain_ok; rewrite ?Ht; eauto).
  eexists _, r, c. split_and!; [|exact Hg'|].
  { unfold dh_ratchet. cbn [dhs_priv dhr_pub rk x25519_keypair]. unfold x25519_dh.
    assert (scalarmult (key g i) (pub g (S i)) = Some dh1) as Hdh
      by (unfold pub; rewrite scalarmult_comm; exact Hdh1).
    by rewrite (p_priv _ _ _ Hp), Hdh, (p_rk _ _ _ Hp), Hk1, Hdh2, Hk2. }
  assert (forall c', (c' <= S i)%nat -> pub (new_chain g rnd r c) c' = pub g c') as Hpub.
  { intros c' Hc'. unfold pub. cbn [new_chain key]. by rewrite fn_lookup_insert_ne by lia. }
  assert (forall c' n, (c' <= S i)%nat -> ck_n (new_chain g rnd r c) c' n = ck_n g c' n) as Hck.
  { intros c' n Hc'. unfold ck_n. cbn [new_chain CK]. by rewrite fn_lookup_insert_ne by lia. }
  assert (D g (S i) = 0%nat) as HD0 by (rewrite <- Ht; apply (g_top _ Hg)).
  assert (len g (S (S i)) = 0%nat) as Hl0 by (apply (g_above _ Hg); lia).
  constructor; cbn [dhs_priv dhs_pub rk have_cks cks ns pn have_dhr dhr_pub have_ckr ckr nr skipped];
    cbn [new_chain key RK CK len D out].
  - by rewrite <- Ht, fn_lookup_insert.
  - unfold pub. cbn [new_chain key]. by rewrite <- Ht, fn_lookup_insert.
  - by rewrite <- Ht, fn_lookup_insert.
  - done.
  - intros _. rewrite Hl0. unfold ck_n. cbn [new_chain CK Nat.iter nat_rect].
    by rewrite <- Ht, fn_lookup_insert.
  - by rewrite Hl0.
  - rewrite (p_ns _ _ _ Hp). unfold pn_of. cbn [Nat.ltb Nat.leb new_chain len].
    by replace (S (S i) - 2)%nat with i by lia.
  - done.
  - intros _. replace (S (S i) - 1)%nat with (S i) by lia. by rewrite Hpub by lia.
  - done.
  - intros _. replace (S (S i) - 1)%nat with (S i) by lia. by rewrite HD0, Hck by lia.
  - replace (S (S i) - 1)%nat with (S i) by lia. by rewrite HD0.
  - intros k v. rewrite (p_skipped _ _ _ Hp). unfold mk_n.
    split; intros (c' & n & Ho & Hc & Hn & Hin & -> & ->); exists c', n.
    + rewrite opp_add2, Hpub, Hck by lia. split_and!; try done. lia.
    + rewrite opp_add2 in Ho. assert (c' <> S i) by (intros ->; lia).
      assert (c' < i)%nat by (pose proof (opp_neq _ _ Ho); lia).
      rewrite Hpub, Hck by lia. done.
  - intros c' Ho Hc. rewrite opp_add2 in Ho.
    destruct (opp_pred i c') as [->|?]; [lia|done|lia| |by apply (p_final _ _ _ Hp)].
    apply Hlast. lia.
Qed.
End conversation.
