(* ===== verification/RatchetConversation.v ===== *)
(** * Double Ratchet: the conversation theorem

    Two parties, a network that delivers in any order and may drop messages,
    and the invariant that relates them to the ghost history of
    [RatchetProofs]. *)
From stdpp Require Import functions.
From S2P Require Import Prelude StdMap Crypto Ratchet RatchetProofs.
Import Ratchet.

Section deliver.
Context `{!Sodium, !SodiumLaws, !ProtoMsg RatchetMessage, !ProtoLaws RatchetMessage}.

(** One party is a chain ahead of the other. *)
Definition adjacent (g : Ghost) (i j : nat) : Prop :=
  (i = top g /\ S j = top g) \/ (j = top g /\ S i = top g).

Lemma adjacent_opp g i j c : adjacent g i j -> opp i c -> opp j c -> False.
Proof.
  unfold adjacent, opp. rewrite !Nat.odd_add. intros [[-> Hj]|[-> Hi]].
  - rewrite <- Hj, Nat.odd_succ, <- Nat.negb_odd. by destruct (Nat.odd j), (Nat.odd c).
  - rewrite <- Hi, Nat.odd_succ, <- Nat.negb_odd. by destruct (Nat.odd i), (Nat.odd c).
Qed.

(** What has been put on the wire keeps its meaning. *)
Definition same_wire (g g' : Ghost) : Prop :=
  forall c n pt outer, (c <= top g)%nat -> wire g' c n pt outer = wire g c n pt outer.

(** Receiving on a chain of the other party does not concern that party. *)
Lemma party_derive_other g i j c n s :
  adjacent g i j -> opp i c -> party g j s -> party (derive_to g c n) j s.
Proof.
  intros Ha Hc Hp. apply (party_frame _ _ _ _ Hp); try done.
  intros c' Ho _. cbn [derive_to D]. apply fn_lookup_insert_ne. intros <-.
  by eapply adjacent_opp.
Qed.

Lemma party_settle_other g i j c n s :
  adjacent g i j -> opp i c -> party g j s -> party (settle g c n) j s.
Proof.
  intros Ha Hc Hp. apply (party_frame _ _ _ _ Hp); try done.
  intros c' n' Ho _ _. rewrite settle_elem. split; [by intros [? _]|]. intros Hin. split; [done|].
  intros [= -> ->]. by eapply adjacent_opp.
Qed.

Lemma party_new_chain_other g i j rnd r c s :
  top g = S i -> adjacent g i j -> party g j s -> party (new_chain g rnd r c) j s.
Proof.
  intros Ht Ha Hp. assert (j <= top g)%nat by (destruct Ha; lia).
  apply (party_frame _ _ _ _ Hp); try done; intros c' Hc'; cbn [new_chain key RK CK];
    by rewrite fn_lookup_insert_ne by lia.
Qed.

(** Before a DH ratchet the rest of the old receiving chain is cached. *)
Lemma skip_old_chain g i s :
  ghost_ok g -> top g = S i -> party g i s ->
  exists s' g1, skip_message_keys s (Z.of_nat (pn_of g (S i))) = (Ok tt, s') /\
    ghost_ok g1 /\ party g1 i s' /\
    (g1 = g \/ (2 <= i)%nat /\ g1 = derive_to g (i - 1) (len g (i - 1))) /\
    ((1 <= i)%nat -> D g1 (i - 1) = len g1 (i - 1)).
Proof.
  intros Hg Ht Hp. destruct (decide (2 <= i)%nat) as [Hi|Hi].
  - pose proof (g_D _ Hg (i - 1)).
    destruct (skip_message_keys_party g i s (len g (i - 1))) as (s' & E & Hp'); [done|lia|lia|done|].
    exists s', (derive_to g (i - 1) (len g (i - 1))). split_and!.
    + unfold pn_of. destruct (Nat.ltb_spec (S i) 2); [lia|].
      by replace (S i - 2)%nat with (i - 1)%nat by lia.
    + apply derive_to_ok; [done|lia|lia].
    + done.
    + by right.
    + intros _. apply fn_lookup_insert.
  - exists s, g. split_and!; [|done|done|by left|].
    + unfold skip_message_keys. rewrite (p_have_ckr _ _ _ Hp).
      by destruct (Nat.leb_spec 2 i); [lia|].
    + intros Hi1. assert (i - 1 = 0)%nat as -> by lia.
      pose proof (g_D _ Hg 0). rewrite (g_len0 _ Hg) in *. lia.
Qed.

(** Not cached: the lookup of a message at or past the derived prefix. *)
Lemma skipped_miss g i s c n :
  ghost_ok g -> (i <= top g)%nat -> (c <= top g)%nat -> party g i s -> (D g c <= n)%nat ->
  skipped s !! (pub g c, Z.of_nat n) = None.
Proof.
  intros Hg Hi Hc Hp Hn. destruct (skipped s !! _) eqn:E; [|done].
  apply (p_skipped _ _ _ Hp) in E as (c' & n' & _ & Hc' & Hn' & _ & [= Hpub Heq] & _).
  apply (g_inj _ Hg) in Hpub; [|lia..]. subst. lia.
Qed.

(** A message of the chain the receiver has not seen yet. *)
Lemma decrypt_new_chain g i j s sj n pt outer rnd :
  ghost_ok g -> top g = S i -> adjacent g i j -> party g i s -> party g j sj ->
  (n < len g (S i))%nat -> fresh g rnd ->
  exists s' g', decrypt_msg s (wire g (S i) n pt outer) outer rnd = (Ok (Some pt), s') /\
    ghost_ok g' /\ party g' (S (S i)) s' /\ party g' j sj /\ top g' = S (S i) /\
    out g' = out g ∖ {[(S i, n)]} /\ same_wire g g' /\
    (forall c, (c <= top g)%nat -> pub g' c = pub g c) /\ pub g' (S (S i)) = scalarmult_base rnd.
Proof.
  intros Hg Ht Ha Hp Hpj Hn Hf.
  assert (D g (S i) = 0%nat) as HD0 by (rewrite <- Ht; apply (g_top _ Hg)).
  unfold decrypt_msg. cbn [wire header_dh_pub msg_n msg_pn].
  rewrite (skipped_miss g i) by (done || lia).
  replace (negb (have_dhr s) || negb (bool_decide (pub g (S i) = dhr_pub s))) with true.
  2: { rewrite (p_have_dhr _ _ _ Hp). destruct (Nat.leb_spec 1 i); [|done].
       rewrite bool_decide_false; [done|]. rewrite (p_dhr _ _ _ Hp) by done.
       intros Heq. apply (g_inj _ Hg) in Heq; lia. }
  destruct (skip_old_chain g i s Hg Ht Hp) as (s1 & g1 & -> & Hg1 & Hp1 & Hcase & Hlast).
  assert (top g1 = S i /\ pub g1 = pub g /\ len g1 = len g /\ out g1 = out g /\
    D g1 (S i) = 0%nat /\ fresh g1 rnd /\ same_wire g g1 /\ adjacent g1 i j /\ party g1 j sj)
    as (Ht1 & Hpub1 & Hlen1 & Hout1 & HD1 & Hf1 & Hw1 & Ha1 & Hpj1).
  { destruct Hcase as [->|[Hi ->]]; [done|]. split_and!; try done.
    - cbn [derive_to D]. by rewrite fn_lookup_insert_ne by lia.
    - eapply party_derive_other; [done| |done]. apply opp_pred1. lia. }
  destruct (dh_ratchet_party g1 i s1 rnd Hg1 Ht1 Hp1 Hlast Hf1) as (s2 & r & c & Hr & Hg2 & Hp2).
  rewrite Hpub1 in Hr. rewrite Hr.
  set (g2 := new_chain g1 rnd r c) in *.
  assert (D g2 (S (S i) - 1) = 0%nat) as HD2 by (replace (S (S i) - 1)%nat with (S i) by lia; done).
  assert (same_wire g g2) as Hw2.
  { intros c' n' pt' o' Hc'. rewrite <- Hw1 by done.
    unfold wire, mk_n, ck_n, pub, pn_of. cbn [g2 new_chain key CK len].
    by rewrite !fn_lookup_insert_ne by lia. }
  assert (forall c', (c' <= top g)%nat -> pub g2 c' = pub g c') as Hpub2.
  { intros c' Hc'. rewrite <- Hpub1. unfold pub. cbn [g2 new_chain key].
    by rewrite fn_lookup_insert_ne by lia. }
  destruct (decrypt_current_party g2 (S (S i)) s2 n pt outer) as (s3 & E3 & Hp3);
    [done|cbn [g2 new_chain top]; lia|done| |].
  { rewrite HD2. replace (S (S i) - 1)%nat with (S i) by lia.
    cbn [g2 new_chain len]. rewrite Hlen1. lia. }
  replace (S (S i) - 1)%nat with (S i) in * by lia.
  rewrite Hw2 in E3 by lia. fold (wire g (S i) n pt outer).
  eexists s3, _. split_and!; [exact E3| |exact Hp3| | | | | |].
  - apply settle_ok; [apply derive_to_ok|]; [done|cbn [g2 new_chain top]; lia| |].
    + cbn [g2 new_chain D len]. rewrite Hlen1. lia.
    + cbn [derive_to D]. rewrite fn_lookup_insert. lia.
  - assert (adjacent g2 (S (S i)) j) as Ha2.
    { left. cbn [g2 new_chain top]. rewrite Ht1. split; [done|]. destruct Ha1; lia. }
    assert (opp (S (S i)) (S i)) by (apply opp_add2, opp_S).
    eapply party_settle_other; [|done|]; [done|]. eapply party_derive_other; [done|done|].
    by apply (party_new_chain_other _ i).
  - cbn [settle derive_to g2 new_chain top]. lia.
  - cbn [settle derive_to g2 new_chain out]. by rewrite Hout1.
  - intros c' n' pt' o' Hc'. by rewrite <- Hw2.
  - done.
  - unfold pub. cbn [settle derive_to g2 new_chain key]. by rewrite Ht1, fn_lookup_insert.
Qed.

(** What one delivery does: the plaintext comes back, the message is no
    longer outstanding, and at most one fresh key pair joins the history. *)
Record delivered (g g' : Ghost) (i i' j c n : nat) (rnd : bytes) : Prop := {
  dl_ok : ghost_ok g';
  dl_adj : adjacent g' i' j;
  dl_parity : Nat.odd i' = Nat.odd i;
  dl_out : out g' = out g ∖ {[(c, n)]};
  dl_wire : same_wire g g';
  dl_pubs : forall x, (x <= top g')%nat ->
    pub g' x = scalarmult_base rnd \/ (x <= top g)%nat /\ pub g' x = pub g x;
  dl_top : (top g <= top g')%nat;
}.

Lemma decrypt_outstanding g i j s sj c n pt outer rnd :
  ghost_ok g -> adjacent g i j -> party g i s -> party g j sj -> opp i c -> (c, n) ∈ out g ->
  fresh g rnd ->
  exists s' g' i', decrypt_msg s (wire g c n pt outer) outer rnd = (Ok (Some pt), s') /\
    party g' i' s' /\ party g' j sj /\ delivered g g' i i' j c n rnd.
Proof.
  intros Hg Ha Hp Hpj Ho Hin Hf. destruct (g_out _ Hg _ _ Hin) as [Hct Hnl].
  assert (i <= top g <= S i)%nat as Hi by (destruct Ha; lia).
  pose proof (opp_neq _ _ Ho).
  assert ((n < D g c)%nat /\ (c < i)%nat \/ (D g c <= n)%nat /\ c = (i - 1)%nat /\ (c < i)%nat \/ c = S i) as Hcase.
  { destruct (decide (c < i)%nat) as [Hc|Hc]; [|right; right; lia].
    destruct (decide (n < D g c)%nat); [by left|]. right. left.
    destruct (opp_pred i c) as [|Hold]; [lia|done|done|lia|].
    apply (p_final _ _ _ Hp) in Hold; [lia|done]. }
  destruct Hcase as [[Hn Hc]|[(Hn & -> & Hc)| ->]].
  - destruct (decrypt_cached g i s c n pt outer rnd) as (s' & E & Hp'); try done; [lia|].
    exists s', (settle g c n), i. split_and!; [done|done|by eapply party_settle_other|].
    split; [by apply settle_ok|done|done|done|done| |done]. by right.
  - assert (2 <= i)%nat as Hi2.
    { destruct (decide (i - 1 = 0)%nat) as [E|]; [|lia]. rewrite E, (g_len0 _ Hg) in Hnl. lia. }
    destruct (decrypt_current_party g i s n pt outer) as (s' & E & Hp'); [done|lia|done|lia|].
    eexists s', _, i. split_and!; [|exact Hp'| |].
    + unfold decrypt_msg. cbn [wire header_dh_pub msg_n msg_pn].
      rewrite (skipped_miss g i) by (done || lia).
      rewrite (p_have_dhr _ _ _ Hp). destruct (Nat.leb_spec 1 i); [|lia].
      rewrite bool_decide_true; [exact E|]. by rewrite (p_dhr _ _ _ Hp).
    + eapply party_settle_other; [done|done|]. by eapply party_derive_other.
    + split; [|done|done|done|done| |done].
      * apply settle_ok; [apply derive_to_ok; [done|lia|lia]|].
        cbn [derive_to D]. rewrite fn_lookup_insert. lia.
      * by right.
  - destruct (decrypt_new_chain g i j s sj n pt outer rnd)
      as (s' & g' & E & Hg' & Hp' & Hpj' & Ht' & Hout & Hw & Hpubs & Hnew); try done; [lia|].
    exists s', g', (S (S i)). split_and!; try done. split; try done.
    + left. split; [done|]. destruct Ha; lia.
    + intros x Hx. destruct (decide (x = S (S i))) as [->|]; [by left|right].
      split; [lia|]. apply Hpubs. lia.
    + lia.
Qed.
End deliver.

(** ** The world: both parties and the network *)

Record Packet := mkPacket {
  pk_bob : bool;               (* addressed to Bob *)
  pk_wire : bytes;
  pk_aad : bytes;
  pk_pt : bytes;               (* what was encrypted (not seen by the receiver) *)
}.

Record World := mkWorld {
  alice : State;
  bob : State;
  net : list Packet;           (* in flight *)
  used : list bytes;           (* public keys generated so far *)
  pending : nat;               (* sent and not decrypted, in flight or lost *)
}.

Definition state_of (w : World) (is_bob : bool) : State := if is_bob then bob w else alice w.

Definition with_state (w : World) (is_bob : bool) (s : State) (net' : list Packet)
    (used' : list bytes) (pending' : nat) : World :=
  if is_bob then mkWorld (alice w) s net' used' pending'
  else mkWorld s (bob w) net' used' pending'.

Section world.
Context `{!Sodium, !ProtoMsg RatchetMessage}.

Definition fresh_in (w : World) (rnd : bytes) : Prop :=
  Forall (fun p => scalarmult_base rnd <> p /\ is_Some (scalarmult rnd p)) (used w).

(** Alice knows Bob's prekey; the shared secret comes from the handshake. *)
Inductive initial : World -> Prop :=
| Initial sk bob_priv rnd a :
    init_alice sk (scalarmult_base bob_priv) rnd = Ok a ->
    scalarmult_base rnd <> scalarmult_base bob_priv ->
    initial (mkWorld a (init_bob sk bob_priv (scalarmult_base bob_priv)) []
               [scalarmult_base rnd; scalarmult_base bob_priv] 0).

Inductive step : World -> World -> Prop :=
| Step_send w who pt aad x s' :
    (pending w < kMaxSkip)%nat -> ns (state_of w who) + 1 < u32_max ->
    encrypt (state_of w who) pt aad = (Ok x, s') ->
    step w (with_state w who s' (mkPacket (negb who) x aad pt :: net w) (used w) (S (pending w)))
| Step_deliver w net1 p net2 rnd r s' :
    net w = net1 ++ p :: net2 -> fresh_in w rnd ->
    decrypt (state_of w (pk_bob p)) (pk_wire p) (pk_aad p) rnd = (r, s') ->
    step w (with_state w (pk_bob p) s' (net1 ++ net2) (scalarmult_base rnd :: used w)
              (pred (pending w)))
| Step_drop w net1 p net2 :
    net w = net1 ++ p :: net2 ->
    step w (mkWorld (alice w) (bob w) (net1 ++ net2) (used w) (pending w))
| Step_inject w who x aad rnd s' :
    try_decrypt (state_of w who) x aad rnd = (Ok None, s') ->
    step w (with_state w who s' (net w) (used w) (pending w)).

Inductive reach : World -> Prop :=
| Reach_init w : initial w -> reach w
| Reach_step w w' : reach w -> step w w' -> reach w'.
End world.

Section invariant.
Context `{!Sodium, !SodiumLaws, !ProtoMsg RatchetMessage, !ProtoLaws RatchetMessage}.

Definition packet_ok (g : Ghost) (id : nat * nat) (p : Packet) : Prop :=
  Nat.odd id.1 = pk_bob p /\
  pk_wire p = pb_serialize (wire g id.1 id.2 (pk_pt p) (pk_aad p)).

(** [ep]: the sending chain of each party (odd for Alice, even for Bob);
    [ids]: which message of the history each packet carries. *)
Record world_inv (g : Ghost) (ep : bool -> nat) (ids : list (nat * nat)) (w : World) : Prop := {
  wi_ok : ghost_ok g;
  wi_parity : forall b, Nat.odd (ep b) = negb b;
  wi_adj : adjacent g (ep true) (ep false);
  wi_party : forall b, party g (ep b) (state_of w b);
  wi_nodup : NoDup ids;
  wi_out : forall id, id ∈ ids -> id ∈ out g;
  wi_net : Forall2 (packet_ok g) ids (net w);
  wi_pending : pending w = size (out g);
  wi_used : forall c, (c <= top g)%nat -> pub g c ∈ used w;
}.

Lemma adjacent_sym g i j : adjacent g i j -> adjacent g j i.
Proof. unfold adjacent. tauto. Qed.

Lemma wi_adj_of g ep ids w b : world_inv g ep ids w -> adjacent g (ep b) (ep (negb b)).
Proof.
  intros Hw. destruct b; simpl; [apply Hw|]. apply adjacent_sym, Hw.
Qed.

Lemma fresh_in_fresh g ep ids w rnd : world_inv g ep ids w -> fresh_in w rnd -> fresh g rnd.
Proof.
  intros Hw Hf c Hc. unfold fresh_in in Hf. rewrite Forall_forall in Hf.
  by apply Hf, (wi_used _ _ _ _ Hw).
Qed.

(** Decrypting the wire bytes of an outstanding message. *)
Lemma decrypt_wire g s c n pt outer rnd :
  ghost_ok g -> (c, n) ∈ out g ->
  decrypt s (pb_serialize (wire g c n pt outer)) outer rnd
  = decrypt_msg s (wire g c n pt outer) outer rnd.
Proof.
  intros Hg Hin. destruct (g_out _ Hg _ _ Hin). pose proof (g_u32 _ Hg c).
  unfold decrypt. rewrite pb_parse_serialize.
  - unfold wire at 1. cbn [header_dh_pub]. unfold pub. by rewrite length_scalarmult_base.
  - split; cbn [wire msg_pn msg_n]; unfold is_u32; [|lia].
    unfold pn_of. destruct (c <? 2)%nat; [lia|]. pose proof (g_u32 _ Hg (c - 2)). lia.
Qed.

Lemma deliver_packet g ep ids w net1 p net2 rnd :
  world_inv g ep ids w -> net w = net1 ++ p :: net2 -> fresh_in w rnd ->
  exists s' g' ep' ids',
    decrypt (state_of w (pk_bob p)) (pk_wire p) (pk_aad p) rnd = (Ok (Some (pk_pt p)), s') /\
    world_inv g' ep' ids'
      (with_state w (pk_bob p) s' (net1 ++ net2) (scalarmult_base rnd :: used w) (pred (pending w))).
Proof.
  intros Hw Hnet Hf. pose proof (wi_net _ _ _ _ Hw) as Hall. rewrite Hnet in Hall.
  apply Forall2_app_inv_r in Hall as (ids1 & ids2' & Hall1 & Hall2 & Hids).
  apply Forall2_cons_inv_r in Hall2 as ([c n] & ids2 & [Hodd Hwire] & Hall2 & ->). cbn [fst snd] in *.
  assert ((c, n) ∈ out g) as Hin by (apply (wi_out _ _ _ _ Hw); rewrite Hids; set_solver).
  set (b := pk_bob p) in *.
  assert (opp (ep b) c) as Ho.
  { unfold opp. rewrite Nat.odd_add, (wi_parity _ _ _ _ Hw), Hodd. by destruct b. }
  destruct (decrypt_outstanding g (ep b) (ep (negb b)) (state_of w b) (state_of w (negb b)) c n
    (pk_pt p) (pk_aad p) rnd) as (s' & g' & i' & E & Hp' & Hpj & Hd);
    [apply Hw|by eapply wi_adj_of|apply (wi_party _ _ _ _ Hw)|apply (wi_party _ _ _ _ Hw)|done|done
    |by eapply fresh_in_fresh|].
  exists s', g', (fun x => if bool_decide (x = b) then i' else ep x), (ids1 ++ ids2).
  split; [by rewrite Hwire, decrypt_wire by (done || apply Hw)|].
  assert (forall id p', id ∈ ids -> packet_ok g id p' -> packet_ok g' id p') as Hpk.
  { intros [c' n'] p' Hid [? Hw']. split; [done|]. rewrite Hw'. f_equal. symmetry.
    apply (dl_wire _ _ _ _ _ _ _ _ Hd). apply (wi_out _ _ _ _ Hw) in Hid.
    by destruct (g_out _ (wi_ok _ _ _ _ Hw) _ _ Hid). }
  constructor.
  - apply Hd.
  - intros x. case_bool_decide as Hx; [subst x|apply Hw].
    rewrite (dl_parity _ _ _ _ _ _ _ _ Hd). apply Hw.
  - pose proof (dl_adj _ _ _ _ _ _ _ _ Hd) as Ha.
    destruct b; simpl in *; [done|by apply adjacent_sym].
  - intros x. destruct (decide (x = b)) as [->|Hx].
    + rewrite bool_decide_true by done. by destruct b.
    + rewrite bool_decide_false by done. assert (x = negb b) as -> by (by destruct x, b).
      by destruct b.
  - pose proof (wi_nodup _ _ _ _ Hw) as Hnd. rewrite Hids in Hnd. clear -Hnd.
    apply NoDup_app in Hnd as (? & Hdis & [_ ?]%NoDup_cons). apply NoDup_app. split_and!; try done.
    intros x Hx1 Hx2. apply (Hdis x Hx1). by right.
  - intros id Hid. rewrite (dl_out _ _ _ _ _ _ _ _ Hd). apply elem_of_difference. split.
    + apply (wi_out _ _ _ _ Hw). rewrite Hids. set_solver.
    + rewrite elem_of_singleton. intros ->. pose proof (wi_nodup _ _ _ _ Hw) as Hnd.
      rewrite Hids in Hnd. apply NoDup_app in Hnd as (_ & Hdis & [Hn _]%NoDup_cons).
      apply elem_of_app in Hid as [Hid|Hid]; [|done]. apply (Hdis _ Hid). left.
  - assert (Forall2 (packet_ok g') (ids1 ++ ids2) (net1 ++ net2)) as Hn.
    { apply Forall2_app; (eapply Forall2_impl_l; [done|]); intros; apply Hpk; try done;
        rewrite Hids; set_solver. }
    by destruct b.
  - rewrite (dl_out _ _ _ _ _ _ _ _ Hd), size_difference by set_solver.
    rewrite size_singleton, <- (wi_pending _ _ _ _ Hw). destruct b; simpl; lia.
  - intros x Hx. assert (pub g' x ∈ scalarmult_base rnd :: used w) as Hu.
    { destruct (dl_pubs _ _ _ _ _ _ _ _ Hd x Hx) as [->|[Hx' ->]]; [by left|].
      right. by apply (wi_used _ _ _ _ Hw). }
    by destruct b.
Qed.

(** ** Sending *)

Lemma send_fresh_id g i : ghost_ok g -> (i, len g i) ∉ out g.
Proof. intros Hg Hin. destruct (g_out _ Hg _ _ Hin). lia. Qed.

Lemma send_on_ok g i :
  ghost_ok g -> (1 <= i <= top g)%nat -> Z.of_nat (len g i) + 1 < u32_max ->
  (size (out g) < kMaxSkip)%nat -> ghost_ok (send_on g i).
Proof.
  intros Hg Hi Hu Hsz. pose proof (send_fresh_id g i Hg) as Hfresh.
  destruct Hg as [H1 H2 H3 H4 H5 H6 H7 H8 H9 H10].
  constructor; cbn [send_on key RK CK len D out top]; try done.
  - intros c. specialize (H3 c). destruct (decide (i = c)) as [->|];
      [rewrite fn_lookup_insert; lia|by rewrite fn_lookup_insert_ne].
  - by rewrite fn_lookup_insert_ne by lia.
  - intros c Hc. rewrite fn_lookup_insert_ne by lia. by apply H6.
  - intros c. destruct (decide (i = c)) as [->|];
      [rewrite fn_lookup_insert; lia|by rewrite fn_lookup_insert_ne].
  - intros c n. rewrite elem_of_union, elem_of_singleton. intros [[= -> ->]|Hin].
    + rewrite fn_lookup_insert. lia.
    + apply H8 in Hin as [? ?]. split; [done|]. destruct (decide (i = c)) as [->|];
        [rewrite fn_lookup_insert; lia|by rewrite fn_lookup_insert_ne].
  - intros c n. rewrite elem_of_union, elem_of_singleton. destruct (decide (i = c)) as [->|Hne].
    + rewrite fn_lookup_insert. intros Hn. destruct (decide (n = len g c)) as [->|]; [by left|].
      right. apply H9. lia.
    + rewrite fn_lookup_insert_ne by done. intros. right. by apply H9.
  - rewrite size_union, size_singleton by set_solver. lia.
Qed.

Lemma encrypt_party g i s pt aad x s' :
  ghost_ok g -> (i <= top g)%nat -> party g i s -> ns s + 1 < u32_max ->
  encrypt s pt aad = (Ok x, s') ->
  (1 <= i)%nat /\ x = pb_serialize (wire g i (len g i) pt aad) /\ party (send_on g i) i s'.
Proof.
  intros Hg Hi Hp Hu. unfold encrypt. rewrite (p_have_cks _ _ _ Hp).
  destruct (Nat.leb_spec 1 i) as [Hi1|]; [|done]. cbn [negb kdf_ck].
  rewrite (p_cks _ _ _ Hp), (p_pub _ _ _ Hp), (p_pn _ _ _ Hp), (p_ns _ _ _ Hp) in * by done.
  intros [= <- <-]. split_and!; [done|done|].
  rewrite u32_small by (unfold is_u32; lia).
  assert (forall c, opp i c -> len (send_on g i) c = len g c) as Hlen.
  { intros c Ho. cbn [send_on len]. apply fn_lookup_insert_ne. by apply opp_neq. }
  destruct Hp as [P1 P2 P3 P4 P5 P6 P7 P8 P9 P10 P11 P12 P13 P14].
  constructor; cbn [dhs_priv dhs_pub rk have_cks cks ns pn have_dhr dhr_pub have_ckr ckr nr skipped];
    try done.
  - destruct (Nat.leb_spec 1 i); [done|lia].
  - intros _. cbn [send_on len]. rewrite fn_lookup_insert. done.
  - cbn [send_on len]. rewrite fn_lookup_insert. lia.
  - rewrite <- P7, P7. unfold pn_of. cbn [send_on len]. destruct (Nat.ltb_spec i 2); [done|].
    by rewrite fn_lookup_insert_ne by lia.
  - intros k v. rewrite P13. split; intros (c & n & Ho & Hc & Hn & Hin & -> & ->); exists c, n;
      split_and!; try done; cbn [send_on out] in *; [set_solver|].
    apply elem_of_union in Hin as [Hin|]; [|done]. apply elem_of_singleton in Hin as [= -> ->].
    by apply opp_neq in Ho.
  - intros c Ho Hc. rewrite Hlen by done. by apply P14.
Qed.

Lemma party_send_other g i j s :
  ghost_ok g -> adjacent g i j -> party g j s -> party (send_on g i) j s.
Proof.
  intros Hg Ha Hp. assert (i <> j /\ j <= S i)%nat as [Hne Hle] by (destruct Ha; lia).
  apply (party_frame _ _ _ _ Hp); try done; cbn [send_on len D out].
  - by rewrite fn_lookup_insert_ne.
  - unfold pn_of. cbn [send_on len]. destruct (Nat.ltb_spec j 2); [done|].
    by rewrite fn_lookup_insert_ne by lia.
  - intros c _ Hc. by rewrite fn_lookup_insert_ne by lia.
  - intros c n _ _ Hn. rewrite elem_of_union, elem_of_singleton. split; [|by right].
    intros [[= -> ->]|]; [|done]. pose proof (g_D _ Hg i). lia.
Qed.

Lemma same_wire_send g i : (top g <= S i)%nat -> same_wire g (send_on g i).
Proof.
  intros Hi c n pt outer Hc. unfold wire, mk_n, ck_n, pub.
  assert (pn_of (send_on g i) c = pn_of g c) as ->; [|done].
  unfold pn_of. cbn [send_on len]. destruct (Nat.ltb_spec c 2); [done|].
  by rewrite fn_lookup_insert_ne by lia.
Qed.

Lemma send_packet g ep ids w who pt aad x s' :
  world_inv g ep ids w -> (pending w < kMaxSkip)%nat -> ns (state_of w who) + 1 < u32_max ->
  encrypt (state_of w who) pt aad = (Ok x, s') ->
  exists g' ids', world_inv g' ep ids'
    (with_state w who s' (mkPacket (negb who) x aad pt :: net w) (used w) (S (pending w))).
Proof.
  intros Hw Hpend Hu He. pose proof (wi_ok _ _ _ _ Hw) as Hg.
  pose proof (wi_adj_of _ _ _ _ who Hw) as Ha. pose proof (wi_party _ _ _ _ Hw who) as Hp.
  assert (ep who <= top g <= S (ep who))%nat as Hle by (destruct Ha; lia).
  destruct (encrypt_party g (ep who) _ pt aad x s' Hg ltac:(lia) Hp Hu He) as (Hi & -> & Hp').
  rewrite (p_ns _ _ _ Hp) in Hu. rewrite (wi_pending _ _ _ _ Hw) in Hpend.
  pose proof (same_wire_send g (ep who) ltac:(lia)) as Hsw.
  pose proof (send_fresh_id g (ep who) Hg) as Hfresh.
  exists (send_on g (ep who)), ((ep who, len g (ep who)) :: ids). constructor.
  - apply send_on_ok; try done. lia.
  - apply Hw.
  - apply Hw.
  - intros b. destruct (decide (b = who)) as [->|Hne].
    + by destruct who.
    + assert (b = negb who) as -> by (by destruct b, who).
      pose proof (party_send_other g (ep who) (ep (negb who)) _ Hg Ha (wi_party _ _ _ _ Hw (negb who))).
      by destruct who.
  - apply NoDup_cons. split; [|apply Hw]. intros Hin. by apply Hfresh, (wi_out _ _ _ _ Hw).
  - intros id. cbn [send_on out]. rewrite elem_of_cons. intros [->|Hid%(wi_out _ _ _ _ Hw)]; set_solver.
  - assert (Forall2 (packet_ok (send_on g (ep who))) ((ep who, len g (ep who)) :: ids)
      (mkPacket (negb who) (pb_serialize (wire g (ep who) (len g (ep who)) pt aad)) aad pt :: net w))
      as Hn; [|by destruct who].
    constructor.
    + split; cbn [fst snd pk_bob pk_wire pk_pt pk_aad]; [apply Hw|]. by rewrite Hsw by lia.
    + eapply Forall2_impl_l; [apply Hw|]. intros [c n] p Hid [? Hpw]. split; [done|].
      rewrite Hpw. cbn [fst snd]. rewrite Hsw; [done|]. apply (wi_out _ _ _ _ Hw) in Hid.
      by destruct (g_out _ Hg _ _ Hid).
  - cbn [send_on out]. rewrite size_union, size_singleton by set_solver.
    rewrite <- (wi_pending _ _ _ _ Hw). by destruct who.
  - intros c Hc. assert (pub g c ∈ used w) by (by apply (wi_used _ _ _ _ Hw)). by destruct who.
Qed.

(** ** The beginning *)

Lemma initial_inv w : initial w -> exists g ep ids, world_inv g ep ids w.
Proof.
  intros [sk bpriv rnd a Ha Hne]. unfold init_alice in Ha. cbn [x25519_keypair] in Ha.
  unfold x25519_dh in Ha. destruct (scalarmult rnd (scalarmult_base bpriv)) as [dh|] eqn:Edh; [|done].
  cbn [rbind] in Ha. destruct (kdf_rk sk dh) as [[r c]|] eqn:Ek; [|done]. cbn [rbind] in Ha.
  injection Ha as <-.
  set (g := mkGhost (fun i => if (i =? 0)%nat then bpriv else rnd)
              (fun i => if (i =? 0)%nat then sk else r) (fun _ => c) (fun _ => 0%nat)
              (fun _ => 0%nat) ∅ 1).
  exists g, (fun b : bool => if b then 0%nat else 1%nat), []. constructor.
  - constructor; cbn [g top len D out key]; try done.
    + intros [|x] Hx; [|lia]. exists dh. by unfold pub.
    + intros [|[|x]] [|[|y]] Hx Hy; try lia; unfold pub; cbn [g key Nat.eqb]; intros Heq;
        [by symmetry in Heq|done].
    + intros. lia.
    + rewrite size_empty. lia.
  - by intros [].
  - right. split; done.
  - intros []; constructor; try done; cbn [state_of bob alice init_bob skipped]; try lia.
    + intros k v. rewrite lookup_empty. split; [done|]. cbn [g D]. intros (? & ? & _ & _ & ? & _). lia.
    + intros k v. rewrite lookup_empty. split; [done|]. cbn [g D]. intros (? & ? & _ & _ & ? & _). lia.
  - constructor.
  - intros id Hid. by apply not_elem_of_nil in Hid.
  - constructor.
  - done.
  - intros [|[|x]] Hx; cbn [g top] in Hx; [| |lia]; unfold pub; cbn [g key Nat.eqb used]; set_solver.
Qed.

(** A failed attempt leaves the state it found. *)
Lemma try_decrypt_none s x aad rnd s' : try_decrypt s x aad rnd = (Ok None, s') -> s' = s.
Proof. unfold try_decrypt. by destruct (decrypt s x aad rnd) as [[[pt|]|e] s1]; intros [= <-]. Qed.

Lemma with_state_same w who :
  with_state w who (state_of w who) (net w) (used w) (pending w) = w.
Proof. by destruct w, who. Qed.

Lemma reach_inv w : reach w -> exists g ep ids, world_inv g ep ids w.
Proof.
  induction 1 as [w Hi|w w' _ (g & ep & ids & Hw) Hs]; [by apply initial_inv|].
  destruct Hs as [w who pt aad x s' Hpend Hu He|w net1 p net2 rnd r s' Hnet Hf Hd|w net1 p net2 Hnet
                 |w who x aad rnd s' Ht].
  - destruct (send_packet _ _ _ _ _ _ _ _ _ Hw Hpend Hu He) as (g' & ids' & Hw'). eauto.
  - destruct (deliver_packet _ _ _ _ _ _ _ _ Hw Hnet Hf) as (s2 & g' & ep' & ids' & E & Hw').
    rewrite Hd in E. injection E as -> ->. eauto.
  - pose proof (wi_net _ _ _ _ Hw) as Hall. rewrite Hnet in Hall.
    apply Forall2_app_inv_r in Hall as (ids1 & ids2' & Hall1 & Hall2 & Hids).
    apply Forall2_cons_inv_r in Hall2 as (id & ids2 & _ & Hall2 & ->).
    exists g, ep, (ids1 ++ ids2). destruct Hw as [W1 W2 W3 W4 W5 W6 W7 W8 W9].
    constructor; try done.
    + rewrite Hids in W5. apply NoDup_app in W5 as (? & Hdis & [_ ?]%NoDup_cons).
      apply NoDup_app. split_and!; try done. intros y Hy1 Hy2. apply (Hdis y Hy1). by right.
    + intros y Hy. apply W6. rewrite Hids. set_solver.
    + by apply Forall2_app.
  - apply try_decrypt_none in Ht as ->. rewrite with_state_same. eauto.
Qed.

(** A packet in flight decrypts to what was sent. *)
Lemma packet_decrypts (w : World) (p : Packet) (rnd : bytes) :
  reach w -> p ∈ net w -> fresh_in w rnd ->
  exists s', decrypt (state_of w (pk_bob p)) (pk_wire p) (pk_aad p) rnd = (Ok (Some (pk_pt p)), s').
Proof.
  intros Hr Hp Hf. destruct (reach_inv w Hr) as (g & ep & ids & Hw).
  apply list_elem_of_split in Hp as (net1 & net2 & Hnet).
  destruct (deliver_packet _ _ _ _ _ _ _ rnd Hw Hnet Hf) as (s' & _ & _ & _ & E & _). eauto.
Qed.

(** Nobody has received more of a chain than its sender has sent: the chain a party
    receives on is the other's sending chain or the one before it. *)
Lemma received_sent (w : World) (b : bool) :
  reach w -> 0 <= nr (state_of w b) <= Z.max (ns (state_of w (negb b))) (pn (state_of w (negb b))).
Proof.
  intros Hr. destruct (reach_inv w Hr) as (g & ep & ids & Hw).
  pose proof (wi_ok _ _ _ _ Hw) as Hg. pose proof (wi_adj_of _ _ _ _ b Hw) as Ha.
  pose proof (wi_party _ _ _ _ Hw b) as Hp. pose proof (wi_party _ _ _ _ Hw (negb b)) as Hq.
  rewrite (p_nr _ _ _ Hp), (p_ns _ _ _ Hq), (p_pn _ _ _ Hq).
  destruct (Nat.leb_spec 2 (ep b)); [|lia]. pose proof (g_D _ Hg (ep b - 1)).
  unfold pn_of. destruct Ha as [[E F]|[E F]]; [|destruct (Nat.ltb_spec (ep (negb b)) 2); [lia|]].
  - replace (ep (negb b)) with (ep b - 1)%nat by lia. lia.
  - replace (ep (negb b) - 2)%nat with (ep b - 1)%nat by lia. lia.
Qed.

(** C1: Conversation correctness.  Starting from the handshake, let both
    parties send whenever they can, let the network deliver in any order, lose
    messages and inject bytes that [try_decrypt] does not accept, with at most
    kMaxSkip = 1000 messages outstanding (in flight or lost) and every key
    pair fresh.  Then in every reachable world every message in flight
    decrypts, at its receiver, to exactly what was encrypted, across any
    number of DH ratchet steps; [try_decrypt] gives the same result and the
    same state. *)
Theorem ratchet_conversation_correct (w : World) (p : Packet) (rnd : bytes)
    (Hr : reach w) (Hp : p ∈ net w) (Hf : fresh_in w rnd) :
  (decrypt (state_of w (pk_bob p)) (pk_wire p) (pk_aad p) rnd).1 = Ok (Some (pk_pt p)) /\
  try_decrypt (state_of w (pk_bob p)) (pk_wire p) (pk_aad p) rnd
  = decrypt (state_of w (pk_bob p)) (pk_wire p) (pk_aad p) rnd.
Proof.
  destruct (packet_decrypts w p rnd Hr Hp Hf) as [s' E]. unfold try_decrypt. by rewrite E.
Qed.
End invariant.
