(* ===== verification/RatchetTheorems.v ===== *)
(** * Double Ratchet: single-session theorems and concrete runs

    The invariant of every session whatever arrives, the header pre-filter, and
    three behaviours that differ from what the header file announces. *)
From S2P Require Import Prelude StdMap Crypto Ratchet Toy RatchetConversation.
Import Ratchet.

(** ** Invariant under arbitrary input *)

Record state_wf (s : State) : Prop := {
  sw_dhs : length (dhs_pub s) = 32%nat;
  sw_ns : is_u32 (ns s);
  sw_nr : is_u32 (nr s);
  sw_pn : is_u32 (pn s);
  sw_skipped : (size (skipped s) <= kMaxSkip)%nat;
  sw_cks : have_cks s = true -> length (cks s) = 32%nat;
  sw_ckr : have_ckr s = true -> length (ckr s) = 32%nat;
  sw_dhr : have_ckr s = true -> have_dhr s = true;
}.

Section invariant.
Context `{!Sodium, !SodiumLaws, !ProtoMsg RatchetMessage}.

(** Any sequence of calls with any bytes, exceptions included. *)
Inductive session : State -> Prop :=
| Ses_alice sk peer rnd s : init_alice sk peer rnd = Ok s -> session s
| Ses_bob sk our_priv : session (init_bob sk our_priv (scalarmult_base our_priv))
| Ses_encrypt s pt aad : session s -> session (encrypt s pt aad).2
| Ses_decrypt s w aad rnd : session s -> session (decrypt s w aad rnd).2
| Ses_try s w aad rnd : session s -> session (try_decrypt s w aad rnd).2.

Lemma kdf_rk_lengths r d r' c' : kdf_rk r d = Ok (r', c') -> length c' = 32%nat.
Proof.
  unfold kdf_rk. destruct (hkdf_expand_ok (hkdf_extract r d) kRkInfo 64) as (okm & -> & Hl); [lia|].
  intros [= _ <-]. rewrite length_take, length_drop, Hl. done.
Qed.

Lemma skip_step_wf s : state_wf s -> state_wf (skip_step s).
Proof.
  intros [H1 H2 H3 H4 H5 H6 H7 H8]. unfold skip_step. cbn [kdf_ck].
  constructor; cbn [dhs_pub ns nr pn skipped have_cks cks have_ckr ckr have_dhr]; try done.
  - apply is_u32_u32.
  - etrans; [apply size_map_emplace|].
    destruct (Nat.leb_spec kMaxSkip (size (skipped s))); [|lia].
    rewrite size_erase_begin. unfold kMaxSkip in *. lia.
  - intros _. apply length_hmac.
Qed.

Lemma skip_loop_wf n s : state_wf s -> state_wf (skip_loop n s).
Proof. revert s. induction n; intros s Hs; [done|]. by apply IHn, skip_step_wf. Qed.

Lemma skip_message_keys_wf s until : state_wf s -> state_wf (skip_message_keys s until).2.
Proof.
  intros Hs. unfold skip_message_keys. destruct (negb _); [done|].
  destruct (_ <? _); [done|]. by apply skip_loop_wf.
Qed.

Lemma dh_ratchet_wf s h rnd : state_wf s -> state_wf (dh_ratchet s h rnd).2.
Proof.
  intros [H1 H2 H3 H4 H5 H6 H7 H8]. unfold dh_ratchet, x25519_dh.
  cbn [dhs_priv dhr_pub rk x25519_keypair].
  destruct (scalarmult (dhs_priv s) h) as [dh|]; [|by constructor].
  destruct (kdf_rk (rk s) dh) as [[r c]|] eqn:E1; [|by constructor].
  apply kdf_rk_lengths in E1.
  destruct (scalarmult rnd h) as [dh2|]; cbn [fst snd];
    [|constructor; try done; apply length_scalarmult_base].
  destruct (kdf_rk r dh2) as [[r2 c2]|] eqn:E2; [apply kdf_rk_lengths in E2|];
    constructor; try done; apply length_scalarmult_base.
Qed.

Lemma decrypt_current_wf s m aad : state_wf s -> state_wf (decrypt_current s m aad).2.
Proof.
  intros Hs. unfold decrypt_current. pose proof (skip_message_keys_wf s (msg_n m) Hs) as H1.
  destruct (skip_message_keys s (msg_n m)) as [[?|?] s1]; [|done].
  destruct H1 as [A1 A2 A3 A4 A5 A6 A7 A8].
  constructor; try done; [apply is_u32_u32|]. intros _. apply length_hmac.
Qed.

Lemma decrypt_wf s w aad rnd : state_wf s -> state_wf (decrypt s w aad rnd).2.
Proof.
  intros Hs. unfold decrypt, decrypt_msg. destruct (pb_parse w) as [m|]; [|done].
  destruct (negb _); [done|]. destruct (skipped s !! _) as [k|] eqn:E.
  - destruct (xchacha20_decrypt _ _ _ _); [|done]. destruct Hs as [A1 A2 A3 A4 A5 A6 A7 A8].
    constructor; try done. cbn [skipped snd]. rewrite map_size_delete, E. lia.
  - destruct (_ || _); [|by apply decrypt_current_wf].
    pose proof (skip_message_keys_wf s (msg_pn m) Hs) as H1.
    destruct (skip_message_keys s (msg_pn m)) as [[?|?] s1]; [|done].
    pose proof (dh_ratchet_wf s1 (header_dh_pub m) rnd H1) as H2.
    destruct (dh_ratchet s1 (header_dh_pub m) rnd) as [[?|?] s2]; [|done].
    by apply decrypt_current_wf.
Qed.

Lemma try_decrypt_wf s w aad rnd : state_wf s -> state_wf (try_decrypt s w aad rnd).2.
Proof.
  intros Hs. unfold try_decrypt. pose proof (decrypt_wf s w aad rnd Hs).
  by destruct (decrypt s w aad rnd) as [[[pt|]|e] s1].
Qed.

Lemma session_state_wf (s : State) (Hs : session s) : state_wf s.
Proof.
  induction Hs as [sk peer rnd s Ha|sk priv|s pt aad _ IH|s w aad rnd _ IH|s w aad rnd _ IH].
  - unfold init_alice in Ha. cbn [x25519_keypair] in Ha. destruct (x25519_dh rnd peer) as [dh|]; [|done].
    cbn [rbind] in Ha. destruct (kdf_rk sk dh) as [[r c]|] eqn:E; [|done].
    apply kdf_rk_lengths in E. injection Ha as <-.
    constructor; try done; [apply length_scalarmult_base|]. cbn [skipped]. rewrite map_size_empty. lia.
  - constructor; try done; [apply length_scalarmult_base|]. cbn [skipped init_bob].
    rewrite map_size_empty. lia.
  - unfold encrypt. destruct (negb _); [done|]. destruct IH as [A1 A2 A3 A4 A5 A6 A7 A8].
    constructor; try done; [apply is_u32_u32|]. intros _. apply length_hmac.
  - by apply decrypt_wf.
  - by apply try_decrypt_wf.
Qed.

(** Whatever bytes reach a session and whichever calls throw, the
    counters stay 32-bit, the chain keys in use are 32 bytes, and the
    skipped-key cache never exceeds kMaxSkip = 1000 entries. *)
Theorem ratchet_session_wf (s : State) (Hs : session s) : state_wf s.
Proof. by apply session_state_wf. Qed.

(** The loop only touches the receiving chain and the cache. *)
Lemma skip_loop_frame n s :
  0 <= nr s -> nr s + Z.of_nat n < u32_max ->
  let s' := skip_loop n s in
  dhs_priv s' = dhs_priv s /\ rk s' = rk s /\ dhr_pub s' = dhr_pub s /\ cks s' = cks s /\
  ns s' = ns s /\ nr s' = nr s + Z.of_nat n.
Proof.
  revert s. induction n as [|n IH]; intros s Hz Hn; cbn [skip_loop].
  { split_and!; try done. lia. }
  assert (nr (skip_step s) = nr s + 1) as Hnr by (apply u32_small; unfold is_u32; lia).
  destruct (IH (skip_step s)) as (F1 & F2 & F3 & F4 & F5 & F6); [lia|lia|].
  split_and!; try done. rewrite F6, Hnr. lia.
Qed.

(** The sealed-sender pre-filter is sound: a session it selects handles
    the message inside its current chains.  [decrypt] does not throw, takes no
    DH ratchet step (our key pair, the root key, the peer key and the sending
    chain are untouched) and moves the receive counter at most kMaxSkip + 1
    forward. *)
Theorem header_filter_sound (s : State) (w aad rnd : bytes)
    (Hs : session s) (Hroom : nr s + 1001 < u32_max) (Hm : header_matches_recv_chain s w = true) :
  exists o s', decrypt s w aad rnd = (Ok o, s') /\
    dhs_priv s' = dhs_priv s /\ rk s' = rk s /\ dhr_pub s' = dhr_pub s /\ cks s' = cks s /\
    ns s' = ns s /\ nr s <= nr s' <= nr s + 1001.
Proof.
  assert (is_u32 (nr s)) as Hnr by (by apply session_state_wf).
  unfold header_matches_recv_chain in Hm. unfold decrypt, decrypt_msg.
  destruct (pb_parse w) as [m|]; [|done].
  destruct (negb (length (header_dh_pub m) =? k32)%nat); [done|].
  destruct (have_dhr s) eqn:Hd; [|done]. destruct (have_ckr s) eqn:Hc; [|done]. cbn [negb orb] in *.
  destruct (_ && _) eqn:Ew; [done|]. rewrite Hm. cbn [negb].
  destruct (skipped s !! _) as [k|].
  { destruct (xchacha20_decrypt _ _ _ _); eexists _, _; split_and!; try done; simpl; lia. }
  unfold decrypt_current, skip_message_keys. rewrite Hc. cbn [negb].
  assert (msg_n m <= nr s + 1000) as Hn.
  { apply andb_false_iff in Ew as [Ew|Ew]; apply Z.ltb_ge in Ew; unfold kMaxSkip in Ew; lia. }
  rewrite size_add_desktop by done.
  destruct (Z.ltb_spec (nr s + Z.of_nat kMaxSkip) (msg_n m)) as [Hlt|_].
  { exfalso. unfold kMaxSkip in Hlt. lia. }
  destruct (skip_loop_frame (Z.to_nat (msg_n m - nr s)) s) as (F1 & F2 & F3 & F4 & F5 & F6).
  { unfold is_u32 in *. lia. }
  { unfold is_u32 in *. lia. }
  set (s1 := skip_loop _ s) in *. cbn [kdf_ck].
  eexists _, _. split_and!; [done|try done..]; cbn [nr];
    rewrite u32_small, F6; unfold is_u32 in *; lia.
Qed.
End invariant.

(** ** Behaviours the header file does not announce *)

Section findings.
Context `{!Sodium, !SodiumLaws, !ProtoMsg RatchetMessage, !ProtoLaws RatchetMessage}.

(** A message anyone can build from the peer's public prekey: its key is the
    first message key of the all-zero chain key. *)
Definition forged_reply (peer_dh_pub : bytes) (n : Z) (pt outer_aad : bytes) : RatchetMessage :=
  mkRatchetMessage peer_dh_pub 0 n
    (xchacha20_encrypt (kdf_ck (zeros k32)).1 zero_nonce pt
       (compose_aad peer_dh_pub 0 n outer_aad)).

(** C24: An initiator that has not yet received anything accepts a forged
    message.  Its peer key is set but no receiving chain exists, so a message
    carrying the peer's prekey as header skips the DH ratchet and is opened
    with the key derived from the all-zero chain key, which everybody can
    compute: the attacker chooses the plaintext. *)
Theorem initiator_accepts_forgery (sk peer_dh_pub rnd rnd' pt outer_aad : bytes) (n : Z)
    (a : State) (Hpeer : length peer_dh_pub = 32%nat) (Hn : is_u32 n)
    (Ha : init_alice sk peer_dh_pub rnd = Ok a) :
  (decrypt a (pb_serialize (forged_reply peer_dh_pub n pt outer_aad)) outer_aad rnd').1
  = Ok (Some pt).
Proof.
  unfold init_alice in Ha. cbn [x25519_keypair] in Ha.
  destruct (x25519_dh rnd peer_dh_pub) as [dh|]; [|done]. cbn [rbind] in Ha.
  destruct (kdf_rk sk dh) as [[r c]|]; [|done]. injection Ha as <-.
  unfold decrypt. rewrite pb_parse_serialize by (split; [by vm_compute|done]).
  cbn [forged_reply header_dh_pub]. rewrite Hpeer. cbn [Nat.eqb k32 negb].
  unfold decrypt_msg. cbn [skipped header_dh_pub msg_n msg_pn have_dhr dhr_pub].
  rewrite lookup_empty, bool_decide_true by done. cbn [negb orb].
  unfold decrypt_current, skip_message_keys. cbn [have_ckr negb msg_n].
  cbn [kdf_ck fst]. f_equal. apply xchacha20_roundtrip.
Qed.

(** [replayed s m]: a message of the current receiving chain whose key was
    consumed. *)
Definition replayed (s : State) (m : RatchetMessage) : Prop :=
  header_dh_pub m = dhr_pub s /\ msg_n m < nr s /\ skipped s !! (header_dh_pub m, msg_n m) = None.

(** The state [decrypt] leaves after such a message. *)
Definition after_replay (s : State) : State :=
  mkState (dhs_pub s) (dhs_priv s) (dhr_pub s) (have_dhr s) (rk s) (cks s) (kdf_ck (ckr s)).2
    (have_cks s) (have_ckr s) (ns s) (u32 (nr s + 1)) (pn s) (skipped s).

Lemma decrypt_replayed s m aad rnd :
  have_dhr s = true -> have_ckr s = true -> is_u32 (nr s) -> replayed s m ->
  (decrypt_msg s m aad rnd).2 = after_replay s.
Proof.
  intros Hd Hc Hu (Hh & Hn & Hsk). unfold decrypt_msg. rewrite Hsk, Hd, Hh.
  rewrite bool_decide_true by done. cbn [negb orb].
  unfold decrypt_current, skip_message_keys. rewrite Hc, size_add_desktop by done. cbn [negb].
  destruct (Z.ltb_spec (nr s + Z.of_nat kMaxSkip) (msg_n m)); [lia|].
  replace (Z.to_nat (msg_n m - nr s)) with 0%nat by lia. cbn [skip_loop]. by destruct s.
Qed.

(** The genuine next message of the receiving chain. *)
Definition next_message (s : State) (pt outer_aad : bytes) : RatchetMessage :=
  mkRatchetMessage (dhr_pub s) 0 (nr s)
    (xchacha20_encrypt (kdf_ck (ckr s)).1 zero_nonce pt
       (compose_aad (dhr_pub s) 0 (nr s) outer_aad)).

(** Replaying an already decrypted message through [decrypt] destroys the
    next genuine one.  The replay consumes the key of the next index, and when
    the genuine message at that index arrives it is tried with the key after
    it: where a ciphertext does not open under that other key, the message is
    lost, although without the replay it would have been decrypted. *)
Theorem replay_destroys_next_message (s : State) (m : RatchetMessage)
    (aad rnd rnd' pt outer_aad : bytes)
    (Hdh : length (dhr_pub s) = 32%nat) (Hd : have_dhr s = true) (Hc : have_ckr s = true)
    (Hnr : 0 <= nr s) (Hnr' : nr s + 1 < u32_max) (Hm : pb_ok m) (Hrep : replayed s m)
    (Hnext : skipped s !! (dhr_pub s, nr s) = None)
    (Hwrong : xchacha20_decrypt (kdf_ck (kdf_ck (ckr s)).2).1 zero_nonce
                (ciphertext (next_message s pt outer_aad))
                (compose_aad (dhr_pub s) 0 (nr s) outer_aad) = None) :
  let g := pb_serialize (next_message s pt outer_aad) in
  (decrypt s g outer_aad rnd').1 = Ok (Some pt) /\
  (decrypt (decrypt s (pb_serialize m) aad rnd).2 g outer_aad rnd').1 = Ok None.
Proof.
  cbv zeta.
  assert (forall t x r, decrypt t (pb_serialize (next_message s pt outer_aad)) x r
    = decrypt_msg t (next_message s pt outer_aad) x r) as Hdec.
  { intros. unfold decrypt. rewrite pb_parse_serialize.
    - cbn [next_message header_dh_pub]. by rewrite Hdh.
    - split; cbn [next_message msg_pn msg_n]; unfold is_u32; lia. }
  rewrite !Hdec.
  assert ((decrypt s (pb_serialize m) aad rnd).2 = after_replay s) as ->.
  { unfold decrypt. rewrite pb_parse_serialize by done. destruct Hrep as (Hh & Hrest).
    rewrite Hh, Hdh. cbn [Nat.eqb k32 negb]. apply decrypt_replayed; [done..|unfold is_u32; lia|done]. }
  assert (forall t, have_dhr t = true -> have_ckr t = true -> dhr_pub t = dhr_pub s ->
    skipped t = skipped s -> nr s <= nr t < u32_max ->
    (decrypt_msg t (next_message s pt outer_aad) outer_aad rnd').1
    = Ok (xchacha20_decrypt (kdf_ck (ckr t)).1 zero_nonce (ciphertext (next_message s pt outer_aad))
            (compose_aad (dhr_pub s) 0 (nr s) outer_aad))) as Hopen.
  { intros t Td Tc Tp Ts Tn. unfold decrypt_msg. rewrite Td, Ts, Tp. cbn [next_message header_dh_pub msg_n msg_pn].
    rewrite Hnext, bool_decide_true by done. cbn [negb orb].
    unfold decrypt_current, skip_message_keys. rewrite Tc, size_add_desktop by (unfold is_u32; lia). cbn [negb next_message msg_n].
    destruct (Z.ltb_spec (nr t + Z.of_nat kMaxSkip) (nr s)); [lia|].
    replace (Z.to_nat (nr s - nr t)) with 0%nat by lia. done. }
  split.
  - rewrite Hopen by (done || lia). f_equal. apply xchacha20_roundtrip.
  - rewrite Hopen; [by f_equal|done..|]. cbn [after_replay nr].
    rewrite u32_small by (unfold is_u32; lia). lia.
Qed.

(** The peer key is the message's header and the counters are reset. *)
Definition hijacked (s : State) (m : RatchetMessage) (s' : State) : Prop :=
  dhr_pub s' = header_dh_pub m /\ ns s' = 0 /\ nr s' = 0 /\ pn s' = ns s.

(** [try_decrypt] does not roll back when the message's header is a
    low-order point.  [dh_ratchet] throws after it has overwritten the state,
    and the exception passes [try_decrypt]: the caller finds the peer key
    replaced by the attacker's point and both counters reset. *)
Theorem try_decrypt_no_rollback_on_throw (s : State) (m : RatchetMessage) (aad rnd : bytes)
    (Hm : pb_ok m) (Hl : length (header_dh_pub m) = 32%nat)
    (Hnr : is_u32 (nr s)) (Hmiss : skipped s !! (header_dh_pub m, msg_n m) = None)
    (Hnew : header_dh_pub m <> dhr_pub s) (Hpn : msg_pn m <= nr s)
    (Hlow : scalarmult (dhs_priv s) (header_dh_pub m) = None) :
  exists s', try_decrypt s (pb_serialize m) aad rnd = (Throw LowOrderOutput, s') /\
    hijacked s m s'.
Proof.
  assert (skip_message_keys s (msg_pn m) = (Ok tt, s)) as Hskip.
  { unfold skip_message_keys. destruct (negb _); [done|]. rewrite size_add_desktop by done.
    destruct (Z.ltb_spec (nr s + Z.of_nat kMaxSkip) (msg_pn m)); [lia|].
    by replace (Z.to_nat (msg_pn m - nr s)) with 0%nat by lia. }
  unfold try_decrypt, decrypt. rewrite pb_parse_serialize, Hl by done. cbn [Nat.eqb k32 negb].
  unfold decrypt_msg. rewrite Hmiss, (bool_decide_false _ Hnew). cbn [negb]. rewrite orb_true_r, Hskip.
  unfold dh_ratchet, x25519_dh. cbn [dhs_priv dhr_pub]. rewrite Hlow.
  eexists. split; [done|]. split_and!; done.
Qed.
End findings.

(** ** Concrete runs *)

(** Calls whose outcome is taken as it comes. *)
Definition sent_wire (r : result RError bytes * State) : bytes :=
  match r.1 with Ok x => x | Throw _ => [] end.

Definition do_send (w : World) (who : bool) (pt aad : bytes) : World :=
  let r := encrypt (state_of w who) pt aad in
  with_state w who r.2 (mkPacket (negb who) (sent_wire r) aad pt :: net w) (used w) (S (pending w)).

Definition do_deliver_head (w : World) (rnd : bytes) : World :=
  match net w with
  | [] => w
  | p :: ps =>
      with_state w (pk_bob p) (decrypt (state_of w (pk_bob p)) (pk_wire p) (pk_aad p) rnd).2 ps
        (scalarmult_base rnd :: used w) (pred (pending w))
  end.

Definition key_n (n : Z) : bytes := be_bytes 32 n.

Definition alice0 : State :=
  match init_alice (key_n 77) (scalarmult_base (key_n 11)) (key_n 12) with
  | Ok a => a
  | Throw _ => default_state
  end.

Definition world0 : World :=
  mkWorld alice0 (init_bob (key_n 77) (key_n 11) (scalarmult_base (key_n 11))) []
    [scalarmult_base (key_n 12); scalarmult_base (key_n 11)] 0.

(** Alice sends two messages, the second arrives first (a DH ratchet for Bob),
    Bob answers. *)
Definition world1 : World := do_send world0 false [Byte.x61] [].
Definition world2 : World := do_send world1 false [Byte.x62; Byte.x63] [Byte.x01].
Definition world3 : World := do_deliver_head world2 (key_n 13).
Definition world4 : World := do_send world3 true [Byte.x64] [].

Ltac fresh_by_computation :=
  unfold fresh_in; apply (bool_decide_unpack _); vm_compute; exact I.

Lemma world4_reach : reach world4.
Proof.
  assert (reach world0) as H0.
  { apply Reach_init. eapply Initial; [vm_compute; reflexivity|]. by vm_compute. }
  assert (reach world1) as H1.
  { eapply Reach_step; [exact H0|]. apply Step_send; [by vm_compute; lia|by vm_compute|].
    vm_compute. reflexivity. }
  assert (reach world2) as H2.
  { eapply Reach_step; [exact H1|]. apply Step_send; [by vm_compute; lia|by vm_compute|].
    vm_compute. reflexivity. }
  assert (reach world3) as H3.
  { eapply Reach_step; [exact H2|].
    apply (Step_deliver world2 [] (default (mkPacket false [] [] []) (head (net world2)))
             (tail (net world2)) (key_n 13)
             (decrypt (bob world2) (pk_wire (default (mkPacket false [] [] []) (head (net world2))))
                [Byte.x01] (key_n 13)).1).
    - reflexivity.
    - fresh_by_computation.
    - by rewrite <- surjective_pairing. }
  eapply Reach_step; [exact H3|]. apply Step_send; [by vm_compute; lia|by vm_compute|].
  vm_compute. reflexivity.
Qed.

Definition no_packet : Packet := mkPacket false [] [] [].

(** Alice's first message, still in flight to Bob behind his answer. *)
Definition late_packet : Packet := default no_packet (net world4 !! 1%nat).

Example ratchet_conversation_correct_witness :
  (pk_bob late_packet, pk_pt late_packet) = (true, [Byte.x61]) /\
  let s := state_of world4 (pk_bob late_packet) in
  (decrypt s (pk_wire late_packet) (pk_aad late_packet) (key_n 14)).1
  = Ok (Some (pk_pt late_packet)) /\
  try_decrypt s (pk_wire late_packet) (pk_aad late_packet) (key_n 14)
  = decrypt s (pk_wire late_packet) (pk_aad late_packet) (key_n 14).
Proof.
  split; [vm_compute; reflexivity|].
  apply (ratchet_conversation_correct world4 late_packet (key_n 14)).
  - exact world4_reach.
  - apply (list_elem_of_lookup_2 _ 1). vm_compute. reflexivity.
  - fresh_by_computation.
Defined.

(** Bob's session after Alice's second message. *)
Definition bob3 : State := bob world3.

Lemma bob3_session : session bob3.
Proof. apply Ses_decrypt, Ses_bob. Qed.

Example ratchet_session_wf_witness : state_wf bob3.
Proof. apply ratchet_session_wf. exact bob3_session. Defined.

(** Alice's first message passes the filter of that session. *)
Example header_filter_sound_witness :
  let w := pk_wire (default (mkPacket true [] [] []) (head (net world3))) in
  exists o s', decrypt bob3 w [] [] = (Ok o, s') /\
    dhs_priv s' = dhs_priv bob3 /\ rk s' = rk bob3 /\ dhr_pub s' = dhr_pub bob3 /\
    cks s' = cks bob3 /\ ns s' = ns bob3 /\ nr bob3 <= nr s' <= nr bob3 + 1001.
Proof.
  cbv zeta. apply header_filter_sound.
  - exact bob3_session.
  - by vm_compute.
  - vm_compute. reflexivity.
Defined.

Example initiator_accepts_forgery_witness :
  (decrypt alice0
     (pb_serialize (forged_reply (scalarmult_base (key_n 11)) 0 [Byte.x65; Byte.x76] [])) [] []).1
  = Ok (Some [Byte.x65; Byte.x76]).
Proof.
  apply (initiator_accepts_forgery (key_n 77) (scalarmult_base (key_n 11)) (key_n 12)).
  - reflexivity.
  - by vm_compute.
  - vm_compute. reflexivity.
Defined.

(** Alice's second message again, to Bob who has decrypted it. *)
Definition seen_message : RatchetMessage :=
  mkRatchetMessage (dhr_pub bob3) 0 1 [].

Example replay_destroys_next_message_witness :
  let g := pb_serialize (next_message bob3 [Byte.x66] []) in
  (decrypt bob3 g [] []).1 = Ok (Some [Byte.x66]) /\
  (decrypt (decrypt bob3 (pb_serialize seen_message) [] []).2 g [] []).1 = Ok None.
Proof.
  apply (replay_destroys_next_message bob3 seen_message).
  - by vm_compute.
  - by vm_compute.
  - by vm_compute.
  - by vm_compute.
  - by vm_compute.
  - split; by vm_compute.
  - split_and!; by vm_compute.
  - by vm_compute.
  - by vm_compute.
Defined.

(** The zero point has low order. *)
Definition low_order_message : RatchetMessage := mkRatchetMessage (zeros 32) 0 0 [].

Example try_decrypt_no_rollback_on_throw_witness :
  exists s', try_decrypt bob3 (pb_serialize low_order_message) [] [] = (Throw LowOrderOutput, s') /\
    hijacked bob3 low_order_message s'.
Proof.
  apply (try_decrypt_no_rollback_on_throw bob3 low_order_message).
  - split; by vm_compute.
  - reflexivity.
  - by vm_compute.
  - by vm_compute.
  - by vm_compute.
  - by vm_compute.
  - by vm_compute.
Defined.
