(* ===== verification/ServerStore.v ===== *)
(** * The server's tables ([srv_*] of [src/core/src/store/sqlite_store.cpp])

    SQLite is a dependency; the statements the server issues are translated on
    tables kept as finite maps and row lists.  [bind_blob] passes the data pointer of an
    empty vector, which is null, so an empty blob is bound as SQL NULL: it violates NOT
    NULL, it equals nothing in a WHERE clause.  Apart from such constraints statements
    are taken to succeed: a failing disk is outside the model. *)
From S2P Require Import Prelude.

Record OfflineRow := mkOfflineRow {
  row_id : Z;
  recipient_pub : bytes;
  envelope : bytes;
  ts_ms : Z;
}.

(** [srv_offline] is kept in insertion order; AUTOINCREMENT makes that the
    order of [id]. *)
Record Store := mkStore {
  srv_offline : list OfflineRow;
  srv_next_id : Z;
  srv_directory : gmap bytes bytes;
  srv_prekey_bundles : gmap bytes bytes;
}.

Definition empty_store : Store := mkStore [] 1 ∅ ∅.

(** What SQLite reads of a string bound as [c_str()] with length -1. *)
Fixpoint c_str (s : bytes) : bytes :=
  match s with
  | [] => []
  | b :: s' => if bool_decide (b = Byte.x00) then [] else b :: c_str s'
  end.

(** What [throw_sqlite] throws after a constraint was violated. *)
Inductive SrvError : Set := ConstraintFailed.

(** [bind_blob] binds NULL. *)
Definition binds_null (b : bytes) : bool := bool_decide (b = []).

(** Both blobs are NOT NULL columns, and the step is checked. *)
Definition srv_offline_enqueue (st : Store) (rcpt env : bytes) (ts : Z) : result SrvError Store :=
  if binds_null rcpt || binds_null env then Throw ConstraintFailed
  else Ok (mkStore (srv_offline st ++ [mkOfflineRow (srv_next_id st) rcpt env ts])
             (srv_next_id st + 1) (srv_directory st) (srv_prekey_bundles st)).

(** [WHERE recipient_pub = ?] *)
Definition rows_of (rcpt : bytes) (st : Store) : list OfflineRow :=
  if binds_null rcpt then [] else filter (fun r => recipient_pub r = rcpt) (srv_offline st).

(** Select by recipient, then delete the selected ids. *)
Definition srv_offline_drain (st : Store) (rcpt : bytes) : list bytes * Store :=
  let rows := rows_of rcpt st in
  let ids := row_id <$> rows in
  (envelope <$> rows,
   mkStore (filter (fun r => row_id r ∉ ids) (srv_offline st))
     (srv_next_id st) (srv_directory st) (srv_prekey_bundles st)).

(** [ON CONFLICT(username) DO UPDATE]: an upsert.  [pubkey] is NOT NULL; the step is not
    checked. *)
Definition srv_register_user (st : Store) (username pubkey : bytes) : Store :=
  if binds_null pubkey then st
  else mkStore (srv_offline st) (srv_next_id st) (<[c_str username := pubkey]> (srv_directory st))
    (srv_prekey_bundles st).

Definition srv_resolve_username (st : Store) (username : bytes) : option bytes :=
  srv_directory st !! c_str username.

(** [bundle] is NOT NULL and the step is not checked; a NULL owner makes a row that no
    lookup finds. *)
Definition srv_put_prekey_bundle (st : Store) (owner bundle : bytes) : Store :=
  if binds_null owner || binds_null bundle then st
  else mkStore (srv_offline st) (srv_next_id st) (srv_directory st)
    (<[owner := bundle]> (srv_prekey_bundles st)).

Definition srv_get_prekey_bundle (st : Store) (owner : bytes) : option bytes :=
  if binds_null owner then None else srv_prekey_bundles st !! owner.

(** ** Well-formedness: ids increase along the rows and stay below the next *)

Record store_wf (st : Store) : Prop := {
  swf_nodup : NoDup (row_id <$> srv_offline st);
  swf_below : Forall (fun r => row_id r < srv_next_id st) (srv_offline st);
}.

Lemma empty_store_wf : store_wf empty_store.
Proof. split; cbn; constructor. Qed.

Lemma enqueue_Ok st rcpt env ts st' :
  srv_offline_enqueue st rcpt env ts = Ok st' ->
  rcpt <> [] /\ env <> [] /\
  st' = mkStore (srv_offline st ++ [mkOfflineRow (srv_next_id st) rcpt env ts])
          (srv_next_id st + 1) (srv_directory st) (srv_prekey_bundles st).
Proof. unfold srv_offline_enqueue, binds_null. repeat case_bool_decide; cbn [orb]; try done. by intros [= <-]. Qed.

Lemma enqueue_wf st rcpt env ts st' : store_wf st -> srv_offline_enqueue st rcpt env ts = Ok st' -> store_wf st'.
Proof.
  intros [Hnd Hb] (_ & _ & ->)%enqueue_Ok. split; cbn [srv_offline srv_next_id].
  - rewrite fmap_app. apply NoDup_app. split_and!; [done| |apply NoDup_singleton].
    intros i Hi Hi'. apply list_elem_of_fmap in Hi as (r & -> & Hr).
    rewrite Forall_forall in Hb. specialize (Hb r Hr).
    apply list_elem_of_singleton in Hi'. cbn in Hi'. lia.
  - apply Forall_app. split; [|repeat constructor; cbn; lia].
    eapply Forall_impl; [exact Hb|]. cbn. lia.
Qed.

(** ** The offline table as one queue per recipient *)

Definition store_queue (rcpt : bytes) (st : Store) : list bytes := envelope <$> rows_of rcpt st.

Lemma store_queue_enqueue st rcpt env ts st' u :
  srv_offline_enqueue st rcpt env ts = Ok st' ->
  store_queue u st' = store_queue u st ++ (if decide (rcpt = u) then [env] else []).
Proof.
  intros (Hr & _ & ->)%enqueue_Ok. unfold store_queue, rows_of, binds_null. cbn [srv_offline].
  case_bool_decide; [subst; by rewrite decide_False|].
  rewrite filter_app, fmap_app. f_equal. rewrite filter_cons. by repeat case_decide.
Qed.

(** Two rows with the same id are the same row. *)
Lemma row_id_inj st r1 r2 :
  store_wf st -> r1 ∈ srv_offline st -> r2 ∈ srv_offline st -> row_id r1 = row_id r2 -> r1 = r2.
Proof.
  intros [Hnd _] [i Hi]%list_elem_of_lookup [j Hj]%list_elem_of_lookup E.
  assert (i = j) as ->; [|congruence].
  eapply (NoDup_lookup (row_id <$> srv_offline st)); [done|by rewrite list_lookup_fmap, Hi|].
  by rewrite list_lookup_fmap, Hj, E.
Qed.

Lemma filter_iff_in {A} (P Q : A -> Prop) `{!forall x, Decision (P x), !forall x, Decision (Q x)} (l : list A) :
  (forall x, x ∈ l -> P x <-> Q x) -> filter P l = filter Q l.
Proof.
  induction l as [|x l IH]; intros HPQ; [done|]. rewrite !filter_cons.
  rewrite IH by (intros; apply HPQ; by constructor).
  pose proof (HPQ x (list_elem_of_here _ _)). repeat case_decide; naive_solver.
Qed.

(** Deleting the selected ids deletes exactly the selected rows. *)
Lemma drain_rows st rcpt :
  store_wf st ->
  srv_offline (srv_offline_drain st rcpt).2 = filter (fun r => ~ (rcpt <> [] /\ recipient_pub r = rcpt)) (srv_offline st).
Proof.
  intros Hwf. cbn [srv_offline_drain snd srv_offline]. apply filter_iff_in. intros r Hr.
  assert (r ∈ rows_of rcpt st <-> rcpt <> [] /\ recipient_pub r = rcpt) as Hin.
  { unfold rows_of, binds_null. case_bool_decide; [|rewrite list_elem_of_filter; tauto].
    split; [by intros ?%not_elem_of_nil|]. tauto. }
  rewrite <- Hin. split; intros Hn Hr'; apply Hn.
  - apply list_elem_of_fmap. by exists r.
  - apply list_elem_of_fmap in Hr' as (r' & E & Hr'). rewrite (row_id_inj st r r'); try done.
    unfold rows_of in Hr'. destruct (binds_null rcpt); [by apply not_elem_of_nil in Hr'|].
    by apply list_elem_of_filter in Hr' as [_ ?].
Qed.

Lemma store_queue_drain st rcpt u :
  store_wf st ->
  store_queue u (srv_offline_drain st rcpt).2 = if decide (u = rcpt) then [] else store_queue u st.
Proof.
  intros Hwf. unfold store_queue, rows_of. rewrite drain_rows, list_filter_filter by done. unfold binds_null.
  case_bool_decide as Eu; [by case_decide|]. case_decide as E; [subst|].
  - induction (srv_offline st) as [|r l IH]; [done|]. rewrite filter_cons_False by naive_solver. done.
  - f_equal. apply filter_iff_in. naive_solver.
Qed.

Lemma drain_wf st rcpt : store_wf st -> store_wf (srv_offline_drain st rcpt).2.
Proof.
  intros Hwf. pose proof Hwf as [Hnd Hb]. split; rewrite drain_rows by done.
  - induction (srv_offline st) as [|r l IH]; [constructor|].
    rewrite fmap_cons, NoDup_cons in Hnd. apply Forall_cons in Hb. destruct Hnd as [Hr Hnd].
    rewrite filter_cons. case_decide; [|naive_solver]. rewrite fmap_cons, NoDup_cons.
    split; [|naive_solver]. intros (r' & E & [_ Hin]%list_elem_of_filter)%list_elem_of_fmap.
    apply Hr. rewrite E. by apply list_elem_of_fmap_2.
  - apply Forall_forall. intros r [_ Hr]%list_elem_of_filter. rewrite Forall_forall in Hb. by apply Hb.
Qed.

(** The other statements do not touch the queue. *)
Lemma register_user_offline st u pk :
  srv_offline (srv_register_user st u pk) = srv_offline st /\
  srv_next_id (srv_register_user st u pk) = srv_next_id st.
Proof. unfold srv_register_user. by destruct (binds_null pk). Qed.

Lemma put_bundle_offline st k b :
  srv_offline (srv_put_prekey_bundle st k b) = srv_offline st /\
  srv_next_id (srv_put_prekey_bundle st k b) = srv_next_id st.
Proof. unfold srv_put_prekey_bundle. by destruct (_ || _). Qed.
