(* ===== verification/Relay.v ===== *)
(** * The relay's routing state ([src/server/src/relay.cpp])

    Which connection serves which user, the offline queues, and the membership
    of connections in channels and rooms.  Channels and rooms run the same code
    on two pairs of maps; [Index] is such a pair. *)
From S2P Require Import Prelude StdMap ServerStore.

Module Relay.

Definition kMaxQueued : nat := 1024.

(** ** Membership indices: [chan_subs_]/[fd_to_chans_], [room_members_]/[fd_to_rooms_] *)

Record Index := mkIndex {
  members : gmap bytes (list Z);
  joined : gmap Z (list bytes);
}.

Definition empty_index : Index := mkIndex ∅ ∅.

(** [if (std::find(...) == end) push_back(x)] *)
Definition push_unique {A} `{EqDecision A} (x : A) (l : list A) : list A :=
  if decide (x ∈ l) then l else l ++ [x].

(** [v.erase(std::remove(v.begin(), v.end(), x), v.end())] *)
Definition remove_value {A} `{EqDecision A} (x : A) (l : list A) : list A := filter (fun y => y <> x) l.

(** Find an entry, remove a value from its list, erase the entry when empty. *)
Definition erase_from {K A} `{Countable K, EqDecision A} (x : A) (k : K) (m : gmap K (list A))
  : gmap K (list A) :=
  match m !! k with
  | None => m
  | Some v => match remove_value x v with [] => delete k m | v' => <[k := v']> m end
  end.

Definition index_add (fd : Z) (key : bytes) (i : Index) : Index :=
  mkIndex (<[key := push_unique fd (members i !!! key)]> (members i))
          (<[fd := push_unique key (joined i !!! fd)]> (joined i)).

Definition index_remove (fd : Z) (key : bytes) (i : Index) : Index :=
  mkIndex (erase_from fd key (members i)) (erase_from key fd (joined i)).

Definition index_remove_all (fd : Z) (i : Index) : Index :=
  match joined i !! fd with
  | None => i
  | Some keys => mkIndex (foldl (fun m key => erase_from fd key m) (members i) keys)
                         (delete fd (joined i))
  end.

(** ** The relay *)

Record Relay := mkRelay {
  user_to_fd_ : gmap bytes Z;
  fd_to_user_ : gmap Z bytes;
  offline_ : gmap bytes (list bytes);
  channels : Index;
  rooms : Index;
}.

Definition new_relay : Relay := mkRelay ∅ ∅ ∅ empty_index empty_index.

Definition bind (fd : Z) (key : bytes) (r : Relay) : Relay :=
  let f2u := match user_to_fd_ r !! key with
             | Some old => delete old (fd_to_user_ r)
             | None => fd_to_user_ r
             end in
  mkRelay (<[key := fd]> (user_to_fd_ r)) (<[fd := key]> f2u) (offline_ r) (channels r) (rooms r).

Definition unbind (fd : Z) (r : Relay) : Relay :=
  match fd_to_user_ r !! fd with
  | None => r
  | Some u =>
      let u2f := if bool_decide (user_to_fd_ r !! u = Some fd)
                 then delete u (user_to_fd_ r) else user_to_fd_ r in
      mkRelay u2f (delete fd (fd_to_user_ r)) (offline_ r) (channels r) (rooms r)
  end.

(** -1 when the user has no connection. *)
Definition lookup_user (key : bytes) (r : Relay) : Z :=
  match user_to_fd_ r !! key with None => -1 | Some fd => fd end.

Definition with_offline (o : gmap bytes (list bytes)) (r : Relay) : Relay :=
  mkRelay (user_to_fd_ r) (fd_to_user_ r) o (channels r) (rooms r).
Definition with_channels (i : Index) (r : Relay) : Relay :=
  mkRelay (user_to_fd_ r) (fd_to_user_ r) (offline_ r) i (rooms r).
Definition with_rooms (i : Index) (r : Relay) : Relay :=
  mkRelay (user_to_fd_ r) (fd_to_user_ r) (offline_ r) (channels r) i.

(** With a store the queue lives there (and is not capped); else in RAM.  What the
    store throws passes. *)
Definition enqueue_offline (now_ms : Z) (key env : bytes) (r : Relay) (st : option Store)
  : result SrvError (Relay * option Store) :=
  match st with
  | Some s => let? s' := srv_offline_enqueue s key env now_ms in Ok (r, Some s')
  | None =>
      let q := offline_ r !!! key in
      let q := if (kMaxQueued <=? length q)%nat then tail q else q in
      Ok (with_offline (<[key := q ++ [env]]> (offline_ r)) r, None)
  end.

Definition drain_offline (key : bytes) (r : Relay) (st : option Store)
  : list bytes * Relay * option Store :=
  match st with
  | Some s => let '(rows, s') := srv_offline_drain s key in (rows, r, Some s')
  | None =>
      match offline_ r !! key with
      | None => ([], r, None)
      | Some q => (q, with_offline (delete key (offline_ r)) r, None)
      end
  end.

Definition channel_subscribe (fd : Z) (group_id : bytes) (r : Relay) : Relay :=
  with_channels (index_add fd group_id (channels r)) r.
Definition channel_unsubscribe (fd : Z) (group_id : bytes) (r : Relay) : Relay :=
  with_channels (index_remove fd group_id (channels r)) r.
Definition channel_subscribers (group_id : bytes) (r : Relay) : list Z :=
  members (channels r) !!! group_id.
Definition unbind_all_channels (fd : Z) (r : Relay) : Relay :=
  with_channels (index_remove_all fd (channels r)) r.

Definition room_join (fd : Z) (room_id : bytes) (r : Relay) : Relay :=
  with_rooms (index_add fd room_id (rooms r)) r.
Definition room_leave (fd : Z) (room_id : bytes) (r : Relay) : Relay :=
  with_rooms (index_remove fd room_id (rooms r)) r.
Definition room_member_fds (room_id : bytes) (r : Relay) : list Z := members (rooms r) !!! room_id.
Definition room_member_rooms (fd : Z) (r : Relay) : list bytes := joined (rooms r) !!! fd.
Definition unbind_all_rooms (fd : Z) (r : Relay) : Relay :=
  with_rooms (index_remove_all fd (rooms r)) r.

(** ** Lists as sets *)

Section lists.
Context {A} `{EqDecision A}.
Implicit Types (x y : A) (l : list A).

Lemma elem_of_push_unique x y l : y ∈ push_unique x l <-> y = x \/ y ∈ l.
Proof.
  unfold push_unique. case_decide; [set_solver|]. rewrite elem_of_app, list_elem_of_singleton. tauto.
Qed.

Lemma push_unique_nodup x l : NoDup l -> NoDup (push_unique x l) /\ push_unique x l <> [].
Proof.
  intros Hl. unfold push_unique. case_decide as Hx.
  - split; [done|]. intros ->. by apply not_elem_of_nil in Hx.
  - split; [|by destruct l]. apply NoDup_app. split_and!; [done| |apply NoDup_singleton].
    intros y Hy ->%list_elem_of_singleton. done.
Qed.

Lemma elem_of_remove_value x y l : y ∈ remove_value x l <-> y ∈ l /\ y <> x.
Proof. unfold remove_value. rewrite list_elem_of_filter. tauto. Qed.

Lemma remove_value_nodup x l : NoDup l -> NoDup (remove_value x l).
Proof. apply NoDup_filter. Qed.
End lists.

Definition sets_ok {K A} `{Countable K} (m : gmap K (list A)) : Prop :=
  map_Forall (fun _ l => NoDup l /\ l <> []) m.

Section erase.
Context {K A : Type} `{Countable K, EqDecision A}.
Implicit Types (m : gmap K (list A)) (k : K) (x : A).

Lemma sets_ok_total m k : sets_ok m -> NoDup (m !!! k).
Proof.
  intros Hm. rewrite lookup_total_alt. destruct (m !! k) as [l|] eqn:E; [|constructor].
  by destruct (Hm k l E).
Qed.

Lemma erase_from_total x k m k' y :
  y ∈ erase_from x k m !!! k' <-> y ∈ m !!! k' /\ ~ (k' = k /\ y = x).
Proof.
  unfold erase_from. destruct (m !! k) as [v|] eqn:E.
  - pose proof (elem_of_remove_value x y v) as Hr. rewrite !lookup_total_alt.
    destruct (remove_value x v) as [|z v']; destruct (decide (k' = k)) as [->|Hne];
      rewrite ?lookup_delete_eq, ?lookup_insert_eq, ?lookup_delete_ne, ?lookup_insert_ne by done;
      rewrite ?E; cbn [from_option id]; set_solver.
  - rewrite !lookup_total_alt. split; [|tauto]. intros Hy. split; [done|]. intros [-> ->].
    rewrite E in Hy. by apply not_elem_of_nil in Hy.
Qed.

Lemma erase_from_ok x k m : sets_ok m -> sets_ok (erase_from x k m).
Proof.
  intros Hm. unfold erase_from. destruct (m !! k) as [v|] eqn:E; [|done].
  destruct (Hm k v E) as [Hnd _]. apply (remove_value_nodup x) in Hnd.
  destruct (remove_value x v) as [|z v']; [by apply map_Forall_delete|].
  by apply map_Forall_insert_2.
Qed.

Lemma push_total x k m k' y :
  y ∈ <[k := push_unique x (m !!! k)]> m !!! k' <-> (k' = k /\ y = x) \/ y ∈ m !!! k'.
Proof.
  destruct (decide (k' = k)) as [->|Hne].
  - rewrite lookup_total_insert_eq, elem_of_push_unique. tauto.
  - rewrite lookup_total_insert_ne by done. naive_solver.
Qed.

Lemma push_ok x k m : sets_ok m -> sets_ok (<[k := push_unique x (m !!! k)]> m).
Proof. intros Hm. apply map_Forall_insert_2; [|done]. by apply push_unique_nodup, sets_ok_total. Qed.
End erase.

(** ** The membership index implements a set of pairs *)

Definition holds (i : Index) (fd : Z) (key : bytes) : Prop := fd ∈ members i !!! key.

Record index_ok (i : Index) : Prop := {
  ok_sym : forall fd key, holds i fd key <-> key ∈ joined i !!! fd;
  ok_members : sets_ok (members i);
  ok_joined : sets_ok (joined i);
}.

Lemma empty_index_ok : index_ok empty_index.
Proof. split; [|apply map_Forall_empty..]. intros fd key. unfold holds. cbn [members joined empty_index]. rewrite !lookup_total_empty. split; by intros ?%not_elem_of_nil. Qed.

Lemma index_add_spec fd key i :
  index_ok i -> index_ok (index_add fd key i) /\
  forall fd' key', holds (index_add fd key i) fd' key' <-> (fd' = fd /\ key' = key) \/ holds i fd' key'.
Proof.
  intros [Hs Hm Hj].
  assert (forall fd' key', holds (index_add fd key i) fd' key'
    <-> (fd' = fd /\ key' = key) \/ holds i fd' key') as Hh.
  { intros. unfold holds, index_add. cbn [members]. rewrite push_total. naive_solver. }
  split; [|done]. split; [|by apply push_ok..].
  intros fd' key'. rewrite Hh, Hs. cbn [joined index_add]. rewrite push_total. naive_solver.
Qed.

Lemma index_remove_spec fd key i :
  index_ok i -> index_ok (index_remove fd key i) /\
  forall fd' key', holds (index_remove fd key i) fd' key' <-> holds i fd' key' /\ ~ (fd' = fd /\ key' = key).
Proof.
  intros [Hs Hm Hj].
  assert (forall fd' key', holds (index_remove fd key i) fd' key'
    <-> holds i fd' key' /\ ~ (fd' = fd /\ key' = key)) as Hh.
  { intros. unfold holds, index_remove. cbn [members]. rewrite erase_from_total. naive_solver. }
  split; [|done]. split; [|by apply erase_from_ok..].
  intros fd' key'. rewrite Hh, Hs. cbn [joined index_remove]. rewrite erase_from_total. naive_solver.
Qed.

Lemma foldl_erase_spec (fd : Z) (keys : list bytes) (m : gmap bytes (list Z)) :
  sets_ok m ->
  sets_ok (foldl (fun m key => erase_from fd key m) m keys) /\
  forall fd' key', fd' ∈ foldl (fun m key => erase_from fd key m) m keys !!! key'
    <-> fd' ∈ m !!! key' /\ ~ (fd' = fd /\ key' ∈ keys).
Proof.
  revert m. induction keys as [|key keys IH]; intros m Hm; cbn [foldl].
  - split; [done|]. intros. set_solver.
  - destruct (IH (erase_from fd key m)) as [Hok Hel]; [by apply erase_from_ok|]. split; [done|].
    intros fd' key'. rewrite Hel, erase_from_total. set_solver.
Qed.

Lemma index_remove_all_spec fd i :
  index_ok i -> index_ok (index_remove_all fd i) /\
  forall fd' key', holds (index_remove_all fd i) fd' key' <-> holds i fd' key' /\ fd' <> fd.
Proof.
  intros Hi. pose proof Hi as [Hs Hm Hj]. unfold index_remove_all.
  destruct (joined i !! fd) as [keys|] eqn:E.
  - destruct (foldl_erase_spec fd keys (members i) Hm) as [Hok Hel].
    assert (joined i !!! fd = keys) as Hk by (by rewrite lookup_total_alt, E).
    assert (forall fd' key', fd' ∈ foldl (fun m key => erase_from fd key m) (members i) keys !!! key'
      <-> holds i fd' key' /\ fd' <> fd) as Hh.
    { intros fd' key'. rewrite Hel, <- Hk. unfold holds. specialize (Hs fd' key'). unfold holds in Hs.
      naive_solver. }
    split; [|done]. split; [|done|by apply map_Forall_delete].
    intros fd' key'. unfold holds. cbn [members joined]. rewrite Hh, Hs.
    destruct (decide (fd' = fd)) as [->|Hne].
    + rewrite lookup_total_delete_eq. set_solver.
    + rewrite lookup_total_delete_ne by done. naive_solver.
  - split; [done|]. intros fd' key'. split; [|by intros []].
    intros Hh. split; [done|]. intros ->. apply Hs in Hh. rewrite lookup_total_alt, E in Hh. by apply not_elem_of_nil in Hh.
Qed.

End Relay.

(** ** What the relay promises, and that [Relay] keeps it

    An abstract relay: a partial function from users to connections, two sets
    of (connection, key) pairs and one unbounded queue per user.  The maps of
    [Relay] implement it for every sequence of calls in which no connection is
    bound to a second user, the one thing the server must ensure. *)
From S2P Require Import Prelude StdMap ServerStore.
Import Relay.

Inductive RelayOp :=
| OpBind (fd : Z) (user : bytes)
| OpUnbind (fd : Z)
| OpEnqueue (user env : bytes) (now_ms : Z)
| OpDrain (user : bytes)
| OpSubscribe (fd : Z) (group : bytes)
| OpUnsubscribe (fd : Z) (group : bytes)
| OpUnbindChannels (fd : Z)
| OpJoin (fd : Z) (room : bytes)
| OpLeave (fd : Z) (room : bytes)
| OpUnbindRooms (fd : Z).

(** One call on the code's state; the list is what [drain_offline] returns. *)
Definition relay_step (op : RelayOp) (rs : Relay * option Store)
  : result SrvError (list bytes * (Relay * option Store)) :=
  let '(r, st) := rs in
  match op with
  | OpBind fd u => Ok ([], (bind fd u r, st))
  | OpUnbind fd => Ok ([], (unbind fd r, st))
  | OpEnqueue u env now => let? rs' := enqueue_offline now u env r st in Ok ([], rs')
  | OpDrain u => let '(out, r', st') := drain_offline u r st in Ok (out, (r', st'))
  | OpSubscribe fd k => Ok ([], (channel_subscribe fd k r, st))
  | OpUnsubscribe fd k => Ok ([], (channel_unsubscribe fd k r, st))
  | OpUnbindChannels fd => Ok ([], (unbind_all_channels fd r, st))
  | OpJoin fd k => Ok ([], (room_join fd k r, st))
  | OpLeave fd k => Ok ([], (room_leave fd k r, st))
  | OpUnbindRooms fd => Ok ([], (unbind_all_rooms fd r, st))
  end.

(** An exception ends the sequence: the server does not catch it. *)
Fixpoint relay_run (ops : list RelayOp) (rs : Relay * option Store)
  : result SrvError (list (list bytes) * (Relay * option Store)) :=
  match ops with
  | [] => Ok ([], rs)
  | op :: ops' =>
      let? (out, rs') := relay_step op rs in
      let? (outs, rs'') := relay_run ops' rs' in Ok (out :: outs, rs'')
  end.

(** ** The abstract relay *)

Record Spec := mkSpec {
  route : gmap bytes Z;
  chan_pairs : gset (Z * bytes);
  room_pairs : gset (Z * bytes);
  pending : gmap bytes (list bytes);
}.

Definition spec_init : Spec := mkSpec ∅ ∅ ∅ ∅.

(** The newest [n] entries. *)
Definition last_n {A} (n : nat) (l : list A) : list A := drop (length l - n) l.

(** What a drain can still see: everything with a store, else the newest 1024. *)
Definition visible (persistent : bool) (q : list bytes) : list bytes :=
  if persistent then q else last_n kMaxQueued q.

(** [None]: a connection would serve two users.  A store refuses a message for the
    empty key and an empty message. *)
Definition spec_step (persistent : bool) (op : RelayOp) (s : Spec) : option (result SrvError (list bytes * Spec)) :=
  let '(mkSpec rt ch rm pd) := s in
  match op with
  | OpBind fd u =>
      if decide (map_Forall (fun u' fd' => fd' = fd -> u' = u) rt)
      then Some (Ok ([], mkSpec (<[u := fd]> rt) ch rm pd)) else None
  | OpUnbind fd => Some (Ok ([], mkSpec (filter (fun p => p.2 <> fd) rt) ch rm pd))
  | OpEnqueue u env _ =>
      if persistent && bool_decide (u = [] \/ env = []) then Some (Throw ConstraintFailed)
      else Some (Ok ([], mkSpec rt ch rm (<[u := pd !!! u ++ [env]]> pd)))
  | OpDrain u => Some (Ok (visible persistent (pd !!! u), mkSpec rt ch rm (delete u pd)))
  | OpSubscribe fd k => Some (Ok ([], mkSpec rt ({[(fd, k)]} ∪ ch) rm pd))
  | OpUnsubscribe fd k => Some (Ok ([], mkSpec rt (ch ∖ {[(fd, k)]}) rm pd))
  | OpUnbindChannels fd => Some (Ok ([], mkSpec rt (filter (fun p => p.1 <> fd) ch) rm pd))
  | OpJoin fd k => Some (Ok ([], mkSpec rt ch ({[(fd, k)]} ∪ rm) pd))
  | OpLeave fd k => Some (Ok ([], mkSpec rt ch (rm ∖ {[(fd, k)]}) pd))
  | OpUnbindRooms fd => Some (Ok ([], mkSpec rt ch (filter (fun p => p.1 <> fd) rm) pd))
  end.

Fixpoint spec_run (persistent : bool) (ops : list RelayOp) (s : Spec)
  : option (result SrvError (list (list bytes) * Spec)) :=
  match ops with
  | [] => Some (Ok ([], s))
  | op :: ops' =>
      match spec_step persistent op s with
      | None => None
      | Some (Throw e) => Some (Throw e)
      | Some (Ok (out, s')) =>
          (fun res => let? (outs, s'') := res in Ok (out :: outs, s'')) <$> spec_run persistent ops' s'
      end
  end.

(** ** The simulation relation *)

Record index_sim (i : Index) (ps : gset (Z * bytes)) : Prop := {
  is_ok : index_ok i;
  is_pairs : forall fd key, holds i fd key <-> (fd, key) ∈ ps;
}.

Definition queue_sim (r : Relay) (st : option Store) (pd : gmap bytes (list bytes)) : Prop :=
  match st with
  | None => forall u, offline_ r !!! u = last_n kMaxQueued (pd !!! u)
  | Some s => store_wf s /\ forall u, store_queue u s = pd !!! u
  end.

Record relay_sim (rs : Relay * option Store) (s : Spec) : Prop := {
  sim_route : user_to_fd_ rs.1 = route s;
  sim_back : forall fd u, fd_to_user_ rs.1 !! fd = Some u <-> route s !! u = Some fd;
  sim_chan : index_sim (channels rs.1) (chan_pairs s);
  sim_room : index_sim (rooms rs.1) (room_pairs s);
  sim_queue : queue_sim rs.1 rs.2 (pending s);
}.

(** ** Lemmas *)

Lemma last_n_snoc {A} n (l : list A) x :
  (0 < n)%nat ->
  last_n n (l ++ [x]) =
    (if (n <=? length (last_n n l))%nat then tail (last_n n l) else last_n n l) ++ [x].
Proof.
  intros Hn. unfold last_n. rewrite length_app, length_drop. cbn [length].
  destruct (Nat.leb_spec n (length l - (length l - n))) as [Hle|Hlt].
  - rewrite drop_app_le by lia. f_equal.
    replace (length l + 1 - n)%nat with (length l - n + 1)%nat by lia. rewrite <- drop_drop.
    by destruct (drop (length l - n) l).
  - replace (length l + 1 - n)%nat with 0%nat by lia. replace (length l - n)%nat with 0%nat by lia.
    by rewrite !drop_0.
Qed.

Lemma last_n_empty {A} n : last_n n (@nil A) = [].
Proof. done. Qed.

Lemma index_sim_add fd key i ps :
  index_sim i ps -> index_sim (index_add fd key i) ({[(fd, key)]} ∪ ps).
Proof.
  intros [Hok Hp]. destruct (index_add_spec fd key i Hok) as [Hok' Hh]. split; [done|].
  intros fd' key'. rewrite Hh, Hp. set_solver.
Qed.

Lemma index_sim_remove fd key i ps :
  index_sim i ps -> index_sim (index_remove fd key i) (ps ∖ {[(fd, key)]}).
Proof.
  intros [Hok Hp]. destruct (index_remove_spec fd key i Hok) as [Hok' Hh]. split; [done|].
  intros fd' key'. rewrite Hh, Hp. set_solver.
Qed.

Lemma index_sim_remove_all fd i ps :
  index_sim i ps -> index_sim (index_remove_all fd i) (filter (fun p => p.1 <> fd) ps).
Proof.
  intros [Hok Hp]. destruct (index_remove_all_spec fd i Hok) as [Hok' Hh]. split; [done|].
  intros fd' key'. rewrite Hh, Hp, elem_of_filter. cbn [fst]. tauto.
Qed.

Definition sim_routes (r : Relay) (rt : gmap bytes Z) : Prop :=
  user_to_fd_ r = rt /\ forall fd u, fd_to_user_ r !! fd = Some u <-> rt !! u = Some fd.

Lemma bind_routes fd u r rt :
  sim_routes r rt -> map_Forall (fun u' fd' => fd' = fd -> u' = u) rt ->
  sim_routes (bind fd u r) (<[u := fd]> rt).
Proof.
  intros [E Hb] Hfd. subst rt. split; [done|]. intros fd' u'. cbn [bind fd_to_user_].
  assert (forall fd0, (match user_to_fd_ r !! u with Some old => delete old (fd_to_user_ r)
                       | None => fd_to_user_ r end) !! fd0 = Some u' <->
                      (fd_to_user_ r !! fd0 = Some u' /\ u' <> u)) as Hdel.
  { intros fd0. destruct (user_to_fd_ r !! u) as [old|] eqn:Eo.
    - rewrite lookup_delete_Some. split.
      + intros [Hne Hu']. split; [done|]. intros ->. apply Hb in Hu'. congruence.
      + intros [Hu' Hne]. split; [|done]. intros <-. apply Hb in Eo. congruence.
    - rewrite Hb. split; [|by intros []]. intros Hu'. split; [done|]. congruence. }
  rewrite lookup_insert_Some, lookup_insert_Some, Hdel, Hb.
  split; [|intros [[<- <-]|[Hne Hu']]; [by left|]].
  - intros [[<- <-]|[Hne [Hu' Hnu]]]; [by left|by right].
  - right. split; [|done]. intros ->. apply Hne. symmetry. by apply (Hfd u' fd').
Qed.

Lemma unbind_routes fd r rt :
  sim_routes r rt -> sim_routes (unbind fd r) (filter (fun p => p.2 <> fd) rt).
Proof.
  intros [E Hb]. subst rt. unfold unbind. destruct (fd_to_user_ r !! fd) as [u|] eqn:Ef.
  - pose proof (proj1 (Hb fd u) Ef) as Eu. rewrite bool_decide_true by done.
    assert (delete u (user_to_fd_ r) = filter (fun p => p.2 <> fd) (user_to_fd_ r)) as Hd.
    { apply map_eq. intros u'. apply option_eq. intros fd'.
      rewrite lookup_delete_Some, map_lookup_filter_Some. cbn [snd].
      split; intros [H1 H2]; [split; [done|]|split; [|done]].
      - intros ->. apply Hb in H2. congruence.
      - intros <-. congruence. }
    split; [done|]. cbn [fd_to_user_]. intros fd' u'.
    rewrite lookup_delete_Some, map_lookup_filter_Some, Hb. naive_solver.
  - assert (filter (fun p => p.2 <> fd) (user_to_fd_ r) = user_to_fd_ r) as Hd.
    { apply map_filter_id. intros u' fd' Hu' E. cbn in E. subst fd'. apply Hb in Hu'. congruence. }
    rewrite Hd. done.
Qed.

Lemma enqueue_sim now u env r st pd :
  queue_sim r st pd ->
  match enqueue_offline now u env r st with
  | Throw e => bool_decide (is_Some st) && bool_decide (u = [] \/ env = []) = true /\ e = ConstraintFailed
  | Ok (r', st') =>
      bool_decide (is_Some st) && bool_decide (u = [] \/ env = []) = false /\
      queue_sim r' st' (<[u := pd !!! u ++ [env]]> pd) /\ user_to_fd_ r' = user_to_fd_ r /\
      fd_to_user_ r' = fd_to_user_ r /\ channels r' = channels r /\ rooms r' = rooms r /\
      bool_decide (is_Some st') = bool_decide (is_Some st)
  end.
Proof.
  intros Hq. destruct st as [s|]; cbn [enqueue_offline].
  - destruct Hq as [Hwf Hq]. destruct (srv_offline_enqueue s u env now) as [s'|e] eqn:E; cbn [rbind].
    + pose proof (enqueue_Ok _ _ _ _ _ E) as (Hu & He & _). cbn [is_Some]. split_and!; [|split|done..].
      * rewrite (bool_decide_false (u = [] \/ env = [])) by naive_solver. by rewrite andb_false_r.
      * by eapply enqueue_wf.
      * intros u'. rewrite (store_queue_enqueue _ _ _ _ _ u' E), Hq. case_decide as Eu; [subst|].
        -- by rewrite lookup_total_insert_eq.
        -- by rewrite lookup_total_insert_ne, app_nil_r.
    + unfold srv_offline_enqueue, binds_null in E. destruct (bool_decide (u = []) || bool_decide (env = [])) eqn:Eb; [|done].
      injection E as <-. split; [|done]. apply orb_prop in Eb. rewrite !bool_decide_eq_true in Eb.
      by rewrite !bool_decide_true by (done || by eexists).
  - cbn in Hq. split_and!; [done| |done..]. intros u'. cbn [with_offline offline_].
    destruct (decide (u = u')) as [<-|Hne].
    + rewrite !lookup_total_insert_eq, last_n_snoc by (unfold kMaxQueued; lia). by rewrite Hq.
    + by rewrite !lookup_total_insert_ne.
Qed.

Lemma drain_sim u r st pd :
  queue_sim r st pd ->
  let '(out, r', st') := drain_offline u r st in
  out = visible (bool_decide (is_Some st)) (pd !!! u) /\
  queue_sim r' st' (delete u pd) /\ user_to_fd_ r' = user_to_fd_ r /\
  fd_to_user_ r' = fd_to_user_ r /\ channels r' = channels r /\ rooms r' = rooms r /\
  bool_decide (is_Some st') = bool_decide (is_Some st).
Proof.
  intros Hq. destruct st as [s|]; unfold drain_offline.
  - destruct Hq as [Hwf Hq]. cbn [srv_offline_drain].
    split; [apply Hq|]. split_and!; [|done..]. cbn [queue_sim].
    change (mkStore _ _ _ _) with (srv_offline_drain s u).2.
    split; [by apply drain_wf|]. intros u'. rewrite store_queue_drain by done.
    case_decide as E; [subst; by rewrite lookup_total_delete_eq|].
    by rewrite lookup_total_delete_ne, Hq.
  - cbn in Hq. pose proof (Hq u) as Hu. rewrite lookup_total_alt in Hu.
    destruct (offline_ r !! u) as [q|] eqn:E; cbn in Hu.
    + split_and!; [done| |done..]. cbn. intros u'. destruct (decide (u' = u)) as [->|Hne].
      * by rewrite !lookup_total_delete_eq.
      * by rewrite !lookup_total_delete_ne.
    + split_and!; [done| |done..]. cbn. intros u'. destruct (decide (u' = u)) as [->|Hne].
      * by rewrite lookup_total_delete_eq, lookup_total_alt, E.
      * by rewrite lookup_total_delete_ne.
Qed.

Lemma relay_step_sim op rs s res :
  relay_sim rs s ->
  spec_step (bool_decide (is_Some rs.2)) op s = Some res ->
  match res with
  | Throw e => relay_step op rs = Throw e
  | Ok (out, s') => exists rs', relay_step op rs = Ok (out, rs') /\ relay_sim rs' s' /\
      bool_decide (is_Some rs'.2) = bool_decide (is_Some rs.2)
  end.
Proof.
  destruct rs as [r st], s as [rt ch rm pd]. intros [Hr Hb Hc Hm Hq]. cbn in *.
  destruct op as [fd u|fd|u env now|u|fd k|fd k|fd|fd k|fd k|fd]; cbn [spec_step relay_step]; intros Hs.
  - case_decide as Hf; [|done]. injection Hs as <-. eexists. split_and!; [done| |done].
    destruct (bind_routes fd u r rt (conj Hr Hb) Hf) as [? ?]. by split.
  - injection Hs as <-. eexists. split_and!; [done| |done].
    destruct (unbind_routes fd r rt (conj Hr Hb)) as [? ?].
    split; try done; cbn; unfold unbind; by destruct (fd_to_user_ r !! fd).
  - pose proof (enqueue_sim now u env r st pd Hq) as He.
    destruct (enqueue_offline now u env r st) as [[r' st']|e].
    + destruct He as (Hg & Hq' & E1 & E2 & E3 & E4 & E5). rewrite Hg in Hs. injection Hs as <-.
      eexists. split_and!; [done| |done].
      split; cbn [fst snd route chan_pairs room_pairs pending]; rewrite ?E1, ?E2, ?E3, ?E4; done.
    + destruct He as [Hg ->]. rewrite Hg in Hs. by injection Hs as <-.
  - injection Hs as <-. pose proof (drain_sim u r st pd Hq) as He.
    destruct (drain_offline u r st) as [[out r'] st'].
    destruct He as (-> & Hq' & E1 & E2 & E3 & E4 & E5). eexists. split_and!; [done| |done].
    split; cbn [fst snd route chan_pairs room_pairs pending]; rewrite ?E1, ?E2, ?E3, ?E4; done.
  - injection Hs as <-. eexists. split_and!; [done| |done]. split; try done. by apply index_sim_add.
  - injection Hs as <-. eexists. split_and!; [done| |done]. split; try done. by apply index_sim_remove.
  - injection Hs as <-. eexists. split_and!; [done| |done]. split; try done. by apply index_sim_remove_all.
  - injection Hs as <-. eexists. split_and!; [done| |done]. split; try done. by apply index_sim_add.
  - injection Hs as <-. eexists. split_and!; [done| |done]. split; try done. by apply index_sim_remove.
  - injection Hs as <-. eexists. split_and!; [done| |done]. split; try done. by apply index_sim_remove_all.
Qed.

Lemma relay_run_sim ops rs s res :
  relay_sim rs s ->
  spec_run (bool_decide (is_Some rs.2)) ops s = Some res ->
  match res with
  | Throw e => relay_run ops rs = Throw e
  | Ok (outs, s') => exists rs', relay_run ops rs = Ok (outs, rs') /\ relay_sim rs' s'
  end.
Proof.
  revert rs s res. induction ops as [|op ops IH]; intros rs s res Hsim; cbn [spec_run relay_run].
  - intros [= <-]. by eexists.
  - destruct (spec_step _ op s) as [r1|] eqn:E1; [|done]. pose proof (relay_step_sim op rs s r1 Hsim E1) as H1.
    destruct r1 as [[out s1]|e]; [|intros [= <-]; by rewrite H1].
    destruct H1 as (rs1 & -> & Hsim1 & Hp). cbn [rbind]. rewrite <- Hp.
    destruct (spec_run _ ops s1) as [r2|] eqn:E2; [|done]. cbn [fmap option_fmap option_map]. intros [= <-].
    pose proof (IH rs1 s1 r2 Hsim1 E2) as H2. destruct r2 as [[outs s2]|e]; cbn [rbind]; [|by rewrite H2].
    destruct H2 as (rs2 & -> & ?). by eexists.
Qed.

Lemma relay_sim_init (st : option Store) :
  st = None \/ st = Some empty_store -> relay_sim (new_relay, st) spec_init.
Proof.
  intros Hst. split; try done; cbn.
  - split; [apply empty_index_ok|]. intros. unfold holds. cbn [channels new_relay members empty_index].
    rewrite lookup_total_empty. set_solver.
  - split; [apply empty_index_ok|]. intros. unfold holds. cbn [rooms new_relay members empty_index].
    rewrite lookup_total_empty. set_solver.
  - destruct Hst as [->| ->]; [done|]. split; [apply empty_store_wf|].
    intros u. unfold store_queue, rows_of. by destruct (binds_null u).
Qed.

(** C34: The relay's tables implement the abstract relay.  For every sequence of
    calls in which no connection is bound to a second user, with or without the
    persistent store: [drain_offline] returns what the user's queue holds in
    order (the newest 1024 in RAM, all of it with a store), [lookup] names the
    user's newest live connection, and channels and rooms list exactly the
    connections that joined and have not left, each once.  A sequence throws exactly
    when, with a store, a message is queued for the empty key or is itself empty. *)
Theorem relay_refines (ops : list RelayOp) (st : option Store) (res : result SrvError (list (list bytes) * Spec))
    (Hst : st = None \/ st = Some empty_store)
    (Hrun : spec_run (bool_decide (is_Some st)) ops spec_init = Some res) :
  match res with
  | Throw e => relay_run ops (new_relay, st) = Throw e
  | Ok (outs, s) =>
      exists r st', relay_run ops (new_relay, st) = Ok (outs, (r, st')) /\
        (forall u, lookup_user u r = default (-1) (route s !! u)) /\
        (forall fd u, fd_to_user_ r !! fd = Some u <-> route s !! u = Some fd) /\
        (forall fd k, fd ∈ channel_subscribers k r <-> (fd, k) ∈ chan_pairs s) /\
        (forall fd k, fd ∈ room_member_fds k r <-> (fd, k) ∈ room_pairs s) /\
        (forall fd k, k ∈ room_member_rooms fd r <-> (fd, k) ∈ room_pairs s) /\
        (forall k, NoDup (channel_subscribers k r) /\ NoDup (room_member_fds k r))
  end.
Proof.
  pose proof (relay_run_sim ops _ _ _ (relay_sim_init st Hst) Hrun) as H. destruct res as [[outs s]|e]; [|done].
  destruct H as ([r st'] & Hr & [H1 H2 [Hc Hcp] [Hm Hmp] _]).
  exists r, st'. cbn in *. split_and!; try done.
  - intros u. unfold lookup_user. rewrite H1. by destruct (route s !! u).
  - intros fd k. unfold room_member_rooms. by rewrite <- (ok_sym _ Hm).
  - intros k. split; apply sets_ok_total, ok_members; done.
Qed.

Definition w_ops : list RelayOp :=
  [OpEnqueue (str "bob") (str "m1") 5; OpEnqueue (str "bob") (str "m2") 6;
   OpBind 7 (str "bob"); OpDrain (str "bob"); OpJoin 7 (str "room"); OpJoin 8 (str "room");
   OpUnbind 7; OpUnbindRooms 7].
Definition w_outs : list (list bytes) := [[]; []; []; [str "m1"; str "m2"]; []; []; []; []].
Definition w_spec : Spec := mkSpec ∅ ∅ {[(8, str "room")]} ∅.

(** A run that ends well, and one that the store ends. *)
Lemma relay_refines_witness :
  (exists r st', relay_run w_ops (new_relay, Some empty_store) = Ok (w_outs, (r, st')) /\
    lookup_user (str "bob") r = default (-1) (route w_spec !! str "bob") /\
    (7 ∈ room_member_fds (str "room") r <-> (7, str "room") ∈ room_pairs w_spec)) /\
  relay_run [OpEnqueue [] (str "m1") 5; OpBind 7 (str "bob")] (new_relay, Some empty_store) = Throw ConstraintFailed.
Proof.
  split.
  - destruct (relay_refines w_ops (Some empty_store) (Ok (w_outs, w_spec))) as (r & st' & Hr & Hl & _ & _ & Hm & _).
    + right. reflexivity.
    + vm_compute. reflexivity.
    + exists r, st'. split; [exact Hr|]. split; [exact (Hl (str "bob"))|exact (Hm 7 (str "room"))].
  - apply (relay_refines [OpEnqueue [] (str "m1") 5; OpBind 7 (str "bob")] (Some empty_store) (Throw ConstraintFailed)).
    + right. reflexivity.
    + vm_compute. reflexivity.
Defined.
