(* ===== verification/Directory.v ===== *)
(** * The user directory ([src/server/src/directory.cpp])

    Usernames and prekey bundles, cached in RAM over the optional store.  The
    store is shared with the relay's queue, so it is passed through. *)
From S2P Require Import Prelude StdMap ServerStore.

Module Directory.

Record Directory := mkDirectory {
  name_to_pub_ : gmap bytes bytes;
  name_to_bundle_ : gmap bytes bytes;
}.

(** The state after process start: the caches are empty. *)
Definition new_directory : Directory := mkDirectory ∅ ∅.

Definition cache_pub (name pk : bytes) (d : Directory) : Directory :=
  mkDirectory (<[name := pk]> (name_to_pub_ d)) (name_to_bundle_ d).
Definition cache_bundle (key blob : bytes) (d : Directory) : Directory :=
  mkDirectory (name_to_pub_ d) (<[key := blob]> (name_to_bundle_ d)).

(** True for a new name or the same key again; only the cache is consulted. *)
Definition register_user (username pubkey : bytes) (d : Directory) (st : option Store)
  : bool * Directory * option Store :=
  match name_to_pub_ d !! username with
  | Some pk => (bool_decide (pk = pubkey), d, st)
  | None => (true, cache_pub username pubkey d,
             (fun s => srv_register_user s username pubkey) <$> st)
  end.

Definition put_bundle (key blob : bytes) (d : Directory) (st : option Store)
  : Directory * option Store :=
  (cache_bundle key blob d, (fun s => srv_put_prekey_bundle s key blob) <$> st).

Definition get_bundle (key : bytes) (d : Directory) (st : option Store) : option bytes * Directory :=
  match name_to_bundle_ d !! key with
  | Some b => (Some b, d)
  | None =>
      match (s ← st; srv_get_prekey_bundle s key) with
      | Some b => (Some b, cache_bundle key b d)
      | None => (None, d)
      end
  end.

Definition resolve (username : bytes) (d : Directory) (st : option Store) : option bytes * Directory :=
  match name_to_pub_ d !! username with
  | Some pk => (Some pk, d)
  | None =>
      match (s ← st; srv_resolve_username s username) with
      | Some pk => (Some pk, cache_pub username pk d)
      | None => (None, d)
      end
  end.

Section order.
Context `{!HashOrder}.

(** The first pair of a table with this key, in iteration order. *)
Definition first_with (pubkey : bytes) (m : gmap bytes bytes) : option bytes :=
  (fun q => q.2.1) <$> list_find (fun p => p.2 = pubkey) (hash_order m).

Definition srv_reverse_resolve_pubkey (s : Store) (pubkey : bytes) : option bytes :=
  if binds_null pubkey then None else first_with pubkey (srv_directory s).

Definition reverse_resolve (pubkey : bytes) (d : Directory) (st : option Store)
  : option bytes * Directory :=
  match first_with pubkey (name_to_pub_ d) with
  | Some name => (Some name, d)
  | None =>
      match (s ← st; srv_reverse_resolve_pubkey s pubkey) with
      | Some name => (Some name, cache_pub name pubkey d)
      | None => (None, d)
      end
  end.
End order.

(** ** Lemmas *)

Lemma cache_pub_lookup name pk d n : name_to_pub_ (cache_pub name pk d) !! n = <[name := pk]> (name_to_pub_ d) !! n.
Proof. done. Qed.

Section reverse.
Context `{!HashOrder, !HashOrderLaws}.

Lemma first_with_spec pk m :
  match first_with pk m with
  | Some name => m !! name = Some pk
  | None => forall name, m !! name <> Some pk
  end.
Proof.
  unfold first_with. destruct (list_find _ _) as [[i [n p]]|] eqn:E; cbn.
  - apply list_find_Some in E as (Hl & Hp & _). cbn in Hp. subst p.
    apply elem_of_hash_order. by apply list_elem_of_lookup_2 in Hl.
  - intros name Hn. apply elem_of_hash_order in Hn.
    apply list_find_None in E. rewrite Forall_forall in E. by apply (E _ Hn).
Qed.
End reverse.

Lemma c_str_nul s : Byte.x00 ∉ c_str s.
Proof.
  induction s as [|b s IH]; cbn [c_str]; [apply not_elem_of_nil|].
  case_bool_decide; [apply not_elem_of_nil|]. rewrite not_elem_of_cons. done.
Qed.

Lemma c_str_id s : Byte.x00 ∉ s -> c_str s = s.
Proof.
  induction s as [|b s IH]; cbn [c_str]; [done|]. rewrite not_elem_of_cons. intros [Hb Hs].
  rewrite bool_decide_false by done. by rewrite IH.
Qed.

Lemma c_str_app_nul s t : Byte.x00 ∉ s -> c_str (s ++ Byte.x00 :: t) = s.
Proof.
  induction s as [|b s IH]; cbn [c_str app]; [done|]. rewrite not_elem_of_cons. intros [Hb Hs].
  rewrite bool_decide_false by done. by rewrite IH.
Qed.

Lemma c_str_idem s : c_str (c_str s) = c_str s.
Proof. apply c_str_id, c_str_nul. Qed.

(** ** Within one run of the server a name keeps its key *)

Inductive DirOp :=
| DRegister (username pubkey : bytes)
| DPut (key blob : bytes)
| DGet (key : bytes)
| DResolve (username : bytes)
| DReverse (pubkey : bytes).

Section stable.
Context `{!HashOrder, !HashOrderLaws}.

Definition dir_step (op : DirOp) (ds : Directory * option Store) : Directory * option Store :=
  let '(d, st) := ds in
  match op with
  | DRegister u pk => let '(_, d', st') := register_user u pk d st in (d', st')
  | DPut k b => put_bundle k b d st
  | DGet k => ((get_bundle k d st).2, st)
  | DResolve u => ((resolve u d st).2, st)
  | DReverse pk => ((reverse_resolve pk d st).2, st)
  end.

Definition dir_run (ops : list DirOp) (ds : Directory * option Store) : Directory * option Store :=
  foldl (fun ds op => dir_step op ds) ds ops.

(** Row names hold no NUL, and a row that disagrees with the cache carries a
    key the cache also has, so a reverse lookup never reads it. *)
Definition dir_ok (ds : Directory * option Store) : Prop :=
  forall s, ds.2 = Some s -> forall n p, srv_directory s !! n = Some p ->
    c_str n = n /\
    forall p', name_to_pub_ ds.1 !! n = Some p' -> p' = p \/ exists n', name_to_pub_ ds.1 !! n' = Some p.

Lemma cache_extend_ok d st name pk :
  dir_ok (d, st) -> name_to_pub_ d !! name = None ->
  (forall s n p, st = Some s -> srv_directory s !! n = Some p -> n = name -> p = pk) ->
  dir_ok (cache_pub name pk d, st).
Proof.
  intros Hok Hn Hrow s Es n p Hp. cbn in Es. destruct (Hok s Es n p Hp) as [Hc Hd].
  split; [done|]. cbn [fst]. setoid_rewrite cache_pub_lookup. intros p' Hp'.
  apply lookup_insert_Some in Hp' as [[<- <-]|[Hne Hp']].
  - left. symmetry. by apply (Hrow s name).
  - destruct (Hd p' Hp') as [->|[n' Hn']]; [by left|right]. exists n'.
    rewrite lookup_insert_ne; [done|]. intros ->. cbn in Hn'. congruence.
Qed.

(** Keys are not empty: the server registers keys of 32 bytes. *)
Definition op_key_ok (op : DirOp) : Prop := match op with DRegister _ pk => pk <> [] | _ => True end.

Lemma dir_step_ok op ds :
  dir_ok ds -> op_key_ok op -> dir_ok (dir_step op ds) /\
  forall n p, name_to_pub_ ds.1 !! n = Some p -> name_to_pub_ (dir_step op ds).1 !! n = Some p.
Proof.
  destruct ds as [d st]. intros Hok Hkey. destruct op as [u pk|k b|k|u|pk]; cbn [dir_step op_key_ok] in *.
  - unfold register_user. destruct (name_to_pub_ d !! u) as [pk'|] eqn:E; [done|]. cbn. split.
    + intros s Es n p. destruct st as [s0|]; [|done]. injection Es as <-. unfold srv_register_user.
      unfold binds_null. rewrite bool_decide_eq_false_2 by done. cbn [srv_directory].
      rewrite lookup_insert_Some. intros [[<- <-]|[Hne Hp]].
      * split; [apply c_str_idem|]. intros p' Hp'. right. exists u. cbn. by rewrite lookup_insert_eq.
      * destruct (Hok s0 eq_refl n p Hp) as [Hc Hd]. split; [done|]. cbn. intros p' Hp'.
        apply lookup_insert_Some in Hp' as [[<- <-]|[Hne' Hp']].
        -- exfalso. apply Hne. by rewrite Hc.
        -- destruct (Hd p' Hp') as [->|[n' Hn']]; [by left|right]. exists n'.
           rewrite lookup_insert_ne; [done|]. intros ->. cbn in Hn'. congruence.
    + intros n p Hp. rewrite lookup_insert_ne; [done|]. intros ->. congruence.
  - split; [|done]. intros s Es. destruct st as [s0|]; [|done]. injection Es as <-.
    unfold srv_put_prekey_bundle. destruct (_ || _); apply (Hok s0 eq_refl).
  - unfold get_bundle. by repeat case_match.
  - unfold resolve. destruct (name_to_pub_ d !! u) as [pk|] eqn:E; [done|].
    destruct st as [s0|]; [|done]. cbn [mbind option_bind].
    destruct (srv_resolve_username s0 u) as [pk|] eqn:Er; [|done]. cbn [fst snd]. split.
    + apply cache_extend_ok; [done..|]. intros s n p [= <-] Hp ->.
      unfold srv_resolve_username in Er. destruct (Hok s0 eq_refl u p Hp) as [Hc _]. congruence.
    + intros n p Hp. cbn. rewrite lookup_insert_ne; [done|]. intros ->. cbn in Hp. congruence.
  - unfold reverse_resolve. pose proof (first_with_spec pk (name_to_pub_ d)) as Hf.
    destruct (first_with pk (name_to_pub_ d)) as [name|]; [done|].
    destruct st as [s0|]; [|done]. cbn [mbind option_bind]. unfold srv_reverse_resolve_pubkey.
    destruct (binds_null pk); [done|]. pose proof (first_with_spec pk (srv_directory s0)) as Hs.
    destruct (first_with pk (srv_directory s0)) as [name|]; [|done]. cbn [fst snd].
    assert (name_to_pub_ d !! name = None) as Hnone.
    { destruct (name_to_pub_ d !! name) as [p'|] eqn:E; [|done]. exfalso.
      destruct (proj2 (Hok s0 eq_refl name pk Hs) p' E) as [->|[n' Hn']]; [by apply (Hf name)|by apply (Hf n')]. }
    split.
    + apply cache_extend_ok; [done..|]. intros s n p [= <-] Hp ->. congruence.
    + intros n p Hp. cbn. rewrite lookup_insert_ne; [done|]. intros ->. cbn in Hp. congruence.
Qed.

Lemma dir_run_ok ops ds :
  dir_ok ds -> Forall op_key_ok ops -> dir_ok (dir_run ops ds) /\
  forall n p, name_to_pub_ ds.1 !! n = Some p -> name_to_pub_ (dir_run ops ds).1 !! n = Some p.
Proof.
  revert ds. induction ops as [|op ops IH]; intros ds Hok Hops; [done|]. apply Forall_cons in Hops as [Hop Hops].
  change (dir_run (op :: ops) ds) with (dir_run ops (dir_step op ds)).
  destruct (dir_step_ok op ds Hok Hop) as [Hok1 H1]. destruct (IH _ Hok1 Hops) as [Hok2 H2]. auto.
Qed.

(** A store as the server writes it: row names without NUL. *)
Definition store_names_ok (st : option Store) : Prop :=
  forall s n p, st = Some s -> srv_directory s !! n = Some p -> Byte.x00 ∉ n.

Lemma dir_start_ok st : store_names_ok st -> dir_ok (new_directory, st).
Proof.
  intros Hn s Es n p Hp. cbn in Es. split; [apply c_str_id; eauto|]. intros p'. cbn. by rewrite lookup_empty.
Qed.

Lemma cached_answers u pk d st :
  name_to_pub_ d !! u = Some pk ->
  (resolve u d st).1 = Some pk /\ forall pk', (register_user u pk' d st).1.1 = true <-> pk' = pk.
Proof.
  intros E. unfold resolve, register_user. rewrite E. cbn. split; [done|].
  intros pk'. rewrite bool_decide_eq_true. split; congruence.
Qed.

(** While the server runs, a username belongs to one key.  After any
    directory calls, once a registration of [u] for [pk] is accepted or a
    lookup of [u] has answered [pk], every later lookup answers [pk] and every
    later registration of [u] is accepted exactly for [pk], whatever calls come
    between and whatever the store holds; keys are not empty. *)
Theorem directory_names_stable (before after : list DirOp) (st : option Store) (u pk : bytes)
    (Hst : store_names_ok st) (Hbefore : Forall op_key_ok before) (Hafter : Forall op_key_ok after) (Hpk : pk <> []) :
  let '(d, st1) := dir_run before (new_directory, st) in
  forall op, (op = DRegister u pk /\ (register_user u pk d st1).1.1 = true) \/
             (op = DResolve u /\ (resolve u d st1).1 = Some pk) ->
  let '(d', st') := dir_run (op :: after) (d, st1) in
  (resolve u d' st').1 = Some pk /\
  forall pk', (register_user u pk' d' st').1.1 = true <-> pk' = pk.
Proof.
  destruct (dir_run before (new_directory, st)) as [d st1] eqn:E.
  destruct (dir_run_ok before (new_directory, st) (dir_start_ok st Hst) Hbefore) as [Hok _]. rewrite E in Hok.
  intros op Hop. change (dir_run (op :: after) (d, st1)) with (dir_run after (dir_step op (d, st1))).
  assert (name_to_pub_ (dir_step op (d, st1)).1 !! u = Some pk) as Hu.
  { destruct Hop as [[-> Hr]|[-> Hr]]; cbn [dir_step].
    - unfold register_user in *. destruct (name_to_pub_ d !! u) as [p|] eqn:Eu; cbn in *.
      + apply bool_decide_eq_true in Hr. congruence.
      + by rewrite lookup_insert_eq.
    - unfold resolve in *. destruct (name_to_pub_ d !! u) as [p|] eqn:Eu; [cbn in *; congruence|].
      destruct (s ← st1; srv_resolve_username s u) as [p|]; [|done]. cbn in *.
      rewrite lookup_insert_eq. congruence. }
  assert (op_key_ok op) as Hop' by (by destruct Hop as [[-> _]|[-> _]]).
  destruct (dir_step_ok op (d, st1) Hok Hop') as [Hok1 _].
  destruct (dir_run_ok after _ Hok1 Hafter) as [_ Hkeep]. specialize (Hkeep u pk Hu).
  destruct (dir_run after (dir_step op (d, st1))) as [d' st']. by apply cached_answers.
Qed.

(** A restart forgets who owns a name.  Whatever key the store records for
    [u], the first registration after a restart is accepted for any key, and
    then every lookup, also after further restarts, answers that key. *)
Theorem directory_restart_takeover (s : Store) (u owner thief : bytes)
    (Howner : srv_resolve_username s u = Some owner) (Hthief : thief <> []) :
  (resolve u new_directory (Some s)).1 = Some owner /\
  let '(ok, d, st) := register_user u thief new_directory (Some s) in
  ok = true /\ (resolve u d st).1 = Some thief /\ (resolve u new_directory st).1 = Some thief.
Proof.
  unfold srv_resolve_username in Howner. split.
  - unfold resolve, srv_resolve_username. cbn [mbind option_bind]. by rewrite Howner.
  - unfold register_user, resolve, srv_resolve_username.
    cbn [name_to_pub_ new_directory cache_pub mbind option_bind fmap option_fmap option_map].
    rewrite !lookup_empty. unfold srv_register_user, binds_null. rewrite bool_decide_eq_false_2 by done.
    cbn [name_to_pub_ cache_pub mbind option_bind srv_directory].
    by rewrite !lookup_insert_eq.
Qed.

End stable.

Lemma directory_names_stable_witness :
  let '(d', st') := @dir_run toy_hash_order
      [DRegister (str "alice") (str "A"); DRegister (str "alice") (str "B"); DReverse (str "B")]
      (new_directory, None) in
  (resolve (str "alice") d' st').1 = Some (str "A") /\
  forall pk', (register_user (str "alice") pk' d' st').1.1 = true <-> pk' = str "A".
Proof.
  apply (@directory_names_stable toy_hash_order toy_hash_order_laws []
    [DRegister (str "alice") (str "B"); DReverse (str "B")] None (str "alice") (str "A") ltac:(done) ltac:(done)
    ltac:(by repeat constructor) ltac:(done) (DRegister (str "alice") (str "A"))). left. done.
Defined.

Lemma directory_restart_takeover_witness :
  let s := srv_register_user empty_store (str "alice") (str "A") in
  (resolve (str "alice") new_directory (Some s)).1 = Some (str "A") /\
  let '(ok, d, st) := register_user (str "alice") (str "B") new_directory (Some s) in
  ok = true /\ (resolve (str "alice") d st).1 = Some (str "B") /\
  (resolve (str "alice") new_directory st).1 = Some (str "B").
Proof.
  apply (directory_restart_takeover (srv_register_user empty_store (str "alice") (str "A"))
           (str "alice") (str "A") (str "B")); [vm_compute; reflexivity|done].
Defined.

End Directory.
