(* ===== verification/Username.v ===== *)
(** * Username grammar and Ed25519 ([src/core/src/identity/username_log.cpp])

    The grammar every component shares, and libsodium's detached signatures as
    a parameter. *)
From S2P Require Import Prelude.

(** [crypto_sign_detached] and [crypto_sign_verify_detached] (0 read as true). *)
Class Ed25519 := {
  sign_detached : bytes -> bytes -> bytes;
  verify_detached : bytes -> bytes -> bytes -> bool;
  sign_public : bytes -> bytes;
}.

Class Ed25519Laws `{!Ed25519} := {
  verify_sign : forall sk m, verify_detached (sign_public sk) m (sign_detached sk m) = true;
  length_sign : forall sk m, length (sign_detached sk m) = 64%nat;
  length_sign_public : forall sk, length (sign_public sk) = 32%nat;
}.

Definition kUsernameMinBytes : nat := 3.
Definition kUsernameMaxBytes : nat := 32.

Definition edge_bad (c : byte) : bool := (b2z c =? 46) || (b2z c =? 45).

(** [a-z], [0-9], dot, underscore, dash. *)
Definition username_char (c : byte) : bool :=
  ((97 <=? b2z c) && (b2z c <=? 122)) || ((48 <=? b2z c) && (b2z c <=? 57)) ||
  (b2z c =? 46) || (b2z c =? 95) || (b2z c =? 45).

Definition is_valid_username (candidate : bytes) : bool :=
  if (length candidate <? kUsernameMinBytes)%nat || (kUsernameMaxBytes <? length candidate)%nat then false
  else if edge_bad (hd Byte.x00 candidate) || edge_bad (List.last candidate Byte.x00) then false
  else forallb username_char candidate.

Lemma valid_username_nul u : is_valid_username u = true -> Byte.x00 ∉ u.
Proof.
  unfold is_valid_username. destruct (_ || _); [done|]. destruct (_ || _); [done|].
  rewrite forallb_forall. intros Hc Hin. apply list_elem_of_In in Hin. by apply Hc in Hin.
Qed.

Lemma valid_username_length u : is_valid_username u = true -> (3 <= length u <= 32)%nat.
Proof.
  unfold is_valid_username, kUsernameMinBytes, kUsernameMaxBytes.
  destruct (Nat.ltb_spec (length u) 3); [done|]. destruct (Nat.ltb_spec 32 (length u)); [done|]. lia.
Qed.
