(* ===== verification/ToySign.v ===== *)
(** * Evaluable signatures

    A concrete instance of the Ed25519 parameter on which the theorems about
    signed data are applied: the signature spells the key and the message. *)
From S2P Require Import Prelude Username.

Definition toy_sig (pk m : bytes) : bytes := be_bytes 64 (be_value pk * 2 ^ 256 + be_value m).

#[export] Instance toy_ed25519 : Ed25519 := {|
  sign_detached sk m := toy_sig (be_bytes 32 (be_value sk)) m;
  verify_detached pk m sig := bool_decide (sig = toy_sig pk m);
  sign_public sk := be_bytes 32 (be_value sk);
|}.

#[export] Instance toy_ed25519_laws : Ed25519Laws.
Proof.
  split.
  - intros sk m. cbn [verify_detached sign_public sign_detached toy_ed25519]. by rewrite bool_decide_true.
  - intros sk m. apply (length_be_bytes 64).
  - intros sk. apply (length_be_bytes 32).
Qed.
