(* ===== verification/Wire.v ===== *)
(** * Wire messages of the relay protocol ([src/core/proto/envelope.proto],
    [src/core/proto/handshake.proto])

    The records and oneofs the server reads and writes.  The generated
    serialisers are parameters ([ProtoMsg]); [Envelope] comes with the integer
    ranges of its fields, which [ProtoLaws] uses. *)
From S2P Require Import Prelude Crypto.

Inductive Recipient :=
| RecipientNotSet
| UserPubkey (user_pubkey : bytes)
| ChannelGroupId (channel_group_id : bytes)
| BroadcastTopic (broadcast_topic : bytes).

Record Envelope := mkEnvelope {
  envelope_id : bytes;
  timestamp_ms : Z;
  sender_pubkey : bytes;
  ciphertext : bytes;
  env_aad : bytes;
  aead_alg : Z;
  protocol_version : Z;
  signature : bytes;
  pq_ct : bytes;
  recipient : Recipient;
}.

#[export] Instance envelope_fields : ProtoFields Envelope := fun e =>
  is_u64 (timestamp_ms e) /\ is_u32 (aead_alg e) /\ is_u32 (protocol_version e).

Inductive ControlCode :=
| UNKNOWN | OK | RATE_EXCEEDED | RECIPIENT_UNKNOWN | PROTOCOL_VERSION_BAD
| AUTH_REQUIRED | SERVER_OVERLOADED | USERNAME_TAKEN.

Record ControlMessage := mkControlMessage {
  code : ControlCode;
  cm_detail : bytes;
  in_reply_to_envelope_id : bytes;
  retry_after_ms : Z;
}.

Record ClientHello := mkClientHello {
  hello_identity_pubkey : bytes;
  hello_username : bytes;
  hello_protocol_version : Z;
}.

Record ServerHello := mkServerHello {
  sh_accepted : bool;
  sh_detail : bytes;
  server_random : bytes;
}.

Record PreKeyBundle := mkPreKeyBundle {
  pk_identity_pubkey : bytes;
  signed_prekey : bytes;
  signed_prekey_sig : bytes;
  one_time_prekey : bytes;
  one_time_prekey_id : Z;
  published_at_ms : Z;
  pq_pubkey : bytes;
  pq_pubkey_sig : bytes;
  pq_sig_pubkey : bytes;
  pq_sig_pubkey_sig : bytes;
  signed_prekey_sig_pq : bytes;
  pq_pubkey_sig_pq : bytes;
}.

(** A default-constructed message: what [mutable_bundle()] creates. *)
Definition empty_bundle : PreKeyBundle :=
  mkPreKeyBundle [] [] [] [] 0 0 [] [] [] [] [] [].

#[export] Instance bundle_fields : ProtoFields PreKeyBundle := fun b =>
  is_u32 (one_time_prekey_id b) /\ is_u64 (published_at_ms b).

Record KeyBundleFetchResponse := mkKeyBundleFetchResponse {
  kf_found : bool;
  kf_bundle : option PreKeyBundle;
  kf_request_id : Z;
}.

Record IdentityClaim := mkIdentityClaim {
  claim_identity_pubkey : bytes;
  claim_username : bytes;
  claim_timestamp_ms : Z;
  claim_signature : bytes;
}.

Record RoomMember := mkRoomMember {
  rm_identity_pubkey : bytes;
  has_audio : bool;
  has_video : bool;
  uplink_class : Z;
}.

Record PeerEnvelope := mkPeerEnvelope {
  pe_kind : Z;
  recipient_pubkey : bytes;
  pe_payload : bytes;
  pe_sender_pubkey : bytes;
}.

(** [Frame.body].  The bodies the server never reads are kept as their bytes. *)
Inductive Frame :=
| BodyNotSet
| FEnvelope (e : Envelope)
| FBatch (raw : bytes)
| FControl (c : ControlMessage)
| FHello (h : ClientHello)
| FServerHello (h : ServerHello)
| FKeyUpload (bundle : PreKeyBundle)
| FKeyFetch (username : bytes) (request_id : Z)
| FKeyFetchResp (r : KeyBundleFetchResponse)
| FRegisterReq (claim : IdentityClaim)
| FRegisterResp (accepted : bool) (detail : bytes)
| FChanSubscribe (channel_group_id : bytes)
| FChanUnsubscribe (channel_group_id : bytes)
| FHelloAck (signature : bytes)
| FUsernameLookup (pubkey : bytes)
| FUsernameResp (pubkey : bytes) (username : bytes) (found : bool)
| FRoomJoin (room_id : bytes) (want_video want_audio : bool) (uplink_class : Z)
| FRoomLeave (room_id : bytes)
| FRoomOffer (raw : bytes)
| FRoomAnswer (raw : bytes)
| FRoomIce (raw : bytes)
| FRoomRoster (room_id : bytes) (participants : list RoomMember) (sframe_epoch : Z)
| FPeer (pe : PeerEnvelope).

(** [set_sender_pubkey] *)
Definition set_sender (pk : bytes) (e : Envelope) : Envelope :=
  mkEnvelope (envelope_id e) (timestamp_ms e) pk (ciphertext e) (env_aad e) (aead_alg e)
    (protocol_version e) (signature e) (pq_ct e) (recipient e).

Lemma set_sender_ok pk e : pb_ok e -> pb_ok (set_sender pk e).
Proof. by destruct e. Qed.
