(* ===== verification/RelayServer.v ===== *)
(** * The relay server's event loop ([src/server/src/relay_server.cpp])

    Connections, authentication, frame handlers, and the callbacks of the event
    loop, over the routing tables of [Relay], the [Directory], the shared store
    and the two stream decoders.  A frame handler never closes a connection: it
    sets [wants_close], and the read loop closes after it returns.  An exception of the
    store is not caught anywhere and ends the process ([end_process]).

    Parameters: the protobuf codecs, Ed25519, the random generator, the rate
    limiter (an interface: [KeyedLimiter] decides and updates its own state) and
    the iteration order of the connection table.  Each callback gets the wall
    clock as an argument. *)
From S2P Require Import Prelude StdMap Crypto ServerStore Relay Directory Username Wire.
From S2P Require Import FrameCodec WebSocket.

(** [KeyedLimiter::try_consume(key, bytes)] *)
Class RateLimiter (L : Type) := try_consume : bytes -> Z -> L -> bool * L.

(** The [n]-th draw of 32 bytes from [randombytes_buf]. *)
Class Random := randombytes32 : nat -> bytes.
Class RandomLaws `{!Random} := length_randombytes32 : forall n, length (randombytes32 n) = 32%nat.

Module RelayServer.

Inductive Transport := kTcp | kWs.

Record Conn := mkConn {
  transport : Transport;
  dec : FrameDecoder;
  ws_handshake : WebSocket.HandshakeParser;
  ws_parser : WebSocket.FrameParser;
  ws_upgraded : bool;
  write_buf : bytes;
  claimed_user_pub : bytes;
  bound_user_pub : bytes;
  challenge : bytes;
  challenge_issued : bool;
  authenticated : bool;
  claimed_username : bytes;
  room_uplink_class : Z;
  wants_close : bool;
}.

Definition new_conn (tx : Transport) : Conn :=
  mkConn tx new_decoder WebSocket.new_handshake (WebSocket.new_parser true) false []
    [] [] (replicate 32 Byte.x00) false false [] 0 false.

(** ** Assignments to members *)

Definition set_input (d : FrameDecoder) (h : WebSocket.HandshakeParser) (p : WebSocket.FrameParser)
    (up : bool) (c : Conn) : Conn :=
  let 'mkConn tx _ _ _ _ w cu bu ch ci au un ul wc := c in mkConn tx d h p up w cu bu ch ci au un ul wc.
Definition set_write_buf (w : bytes) (c : Conn) : Conn :=
  let 'mkConn tx d h p up _ cu bu ch ci au un ul wc := c in mkConn tx d h p up w cu bu ch ci au un ul wc.
Definition set_claimed_pub (cu : bytes) (c : Conn) : Conn :=
  let 'mkConn tx d h p up w _ bu ch ci au un ul wc := c in mkConn tx d h p up w cu bu ch ci au un ul wc.
(** Hello: username, challenge, [challenge_issued = true], [authenticated = false]. *)
Definition set_challenge (un ch : bytes) (c : Conn) : Conn :=
  let 'mkConn tx d h p up w cu bu _ _ _ _ ul wc := c in mkConn tx d h p up w cu bu ch true false un ul wc.
(** HelloAck: [bound_user_pub = claimed_user_pub], [authenticated = true]. *)
Definition set_bound (c : Conn) : Conn :=
  let 'mkConn tx d h p up w cu _ ch ci _ un ul wc := c in mkConn tx d h p up w cu cu ch ci true un ul wc.
Definition set_uplink (ul : Z) (c : Conn) : Conn :=
  let 'mkConn tx d h p up w cu bu ch ci au un _ wc := c in mkConn tx d h p up w cu bu ch ci au un ul wc.
Definition set_wants_close (c : Conn) : Conn :=
  let 'mkConn tx d h p up w cu bu ch ci au un ul _ := c in mkConn tx d h p up w cu bu ch ci au un ul true.

Record Server {L : Type} := mkServer {
  conns : gmap Z Conn;
  relay : Relay.Relay;
  dir : Directory.Directory;
  store : option Store;
  limiter : L;
  draws : nat;
  ended : bool;
}.
Arguments Server : clear implicits.

Section server.
Context `{!ProtoMsg Frame, !ProtoMsg Envelope, !ProtoMsg PreKeyBundle}.
Context `{!Ed25519, !Random, !HashOrder, !RateLimiter L, !WebSocket.Base64}.
Implicit Types (s : Server L) (c : Conn) (fd : Z).

Definition with_conns (m : gmap Z Conn) s : Server L :=
  mkServer _ m (relay s) (dir s) (store s) (limiter s) (draws s) (ended s).
Definition with_relay (r : Relay.Relay) s : Server L :=
  mkServer _ (conns s) r (dir s) (store s) (limiter s) (draws s) (ended s).
Definition with_dir (d : Directory.Directory) (st : option Store) s : Server L :=
  mkServer _ (conns s) (relay s) d st (limiter s) (draws s) (ended s).
Definition with_queue (r : Relay.Relay) (st : option Store) s : Server L :=
  mkServer _ (conns s) r (dir s) st (limiter s) (draws s) (ended s).
Definition with_limiter (l : L) s : Server L :=
  mkServer _ (conns s) (relay s) (dir s) (store s) l (draws s) (ended s).
Definition next_draw s : Server L :=
  mkServer _ (conns s) (relay s) (dir s) (store s) (limiter s) (S (draws s)) (ended s).

(** An exception has left the event loop and [main]: the sockets are closed and what was
    in RAM is gone; the database stays. *)
Definition end_process s : Server L :=
  mkServer _ ∅ Relay.new_relay Directory.new_directory (store s) (limiter s) (draws s) true.

Definition on_conn (fd : Z) (f : Conn -> Conn) s : Server L := with_conns (alter f fd (conns s)) s.

(** [serialize] *)
Definition serialize (f : Frame) : bytes := pb_serialize f.

(** The wire form of one outgoing frame on a transport. *)
Definition frame_out (tx : Transport) (payload : bytes) : bytes :=
  match tx with
  | kWs => WebSocket.build_server_binary_frame payload
  | kTcp => encode_frame payload
  end.

Definition write_frame (payload : bytes) (c : Conn) : Conn :=
  set_write_buf (write_buf c ++ frame_out (transport c) payload) c.

(** A no-op for a connection that is gone, as the callers' [conns.find]. *)
Definition enqueue_write (fd : Z) (payload : bytes) s : Server L := on_conn fd (write_frame payload) s.

Definition send_server_hello (fd : Z) (ok : bool) (detail chal : bytes) s : Server L :=
  enqueue_write fd (serialize (FServerHello (mkServerHello ok detail chal))) s.

Definition close_after (fd : Z) s : Server L := on_conn fd set_wants_close s.

(** ** Rooms and closing *)

Definition broadcast_room_roster (room_id : bytes) s : Server L :=
  let fds := Relay.room_member_fds room_id (relay s) in
  match fds with
  | [] => s
  | _ =>
      let participants :=
        omap (fun fd => c ← conns s !! fd;
                        Some (mkRoomMember (bound_user_pub c) true false (room_uplink_class c))) fds in
      let bs := serialize (FRoomRoster room_id participants 1) in
      foldl (fun s fd => enqueue_write fd bs s) s fds
  end.

Definition close_conn (fd : Z) s : Server L :=
  let rooms_left := Relay.room_member_rooms fd (relay s) in
  let r := Relay.unbind_all_rooms fd (Relay.unbind_all_channels fd (Relay.unbind fd (relay s))) in
  let s' := with_conns (delete fd (conns s)) (with_relay r s) in
  foldl (fun s rid => broadcast_room_roster rid s) s' rooms_left.

(** ** Frame handlers *)

Definition handle_hello (fd : Z) (c : Conn) (h : ClientHello) s : Server L :=
  if authenticated c || negb (bool_decide (bound_user_pub c = [])) then close_after fd s
  else if negb (length (hello_identity_pubkey h) =? 32)%nat then
    close_after fd (send_server_hello fd false (str "bad pubkey size") [] s)
  else
    let s := on_conn fd (set_claimed_pub (hello_identity_pubkey h)) s in
    if negb (bool_decide (hello_username h = [])) && negb (is_valid_username (hello_username h)) then
      close_after fd (send_server_hello fd false
        (str "username does not match the v0 grammar ([a-z0-9._-], 3..32 bytes, no edge dots/dashes)") [] s)
    else
      let ch := randombytes32 (draws s) in
      let s := on_conn fd (set_challenge (hello_username h) ch) (next_draw s) in
      send_server_hello fd true (str "challenge") ch s.

(** The challenge-response succeeded: bind the connection and drain its queue. *)
Definition finish_auth (fd : Z) (user : bytes) s : Server L :=
  let s := on_conn fd set_bound s in
  let s := with_relay (Relay.bind fd user (relay s)) s in
  let '(queued, r, st) := Relay.drain_offline user (relay s) (store s) in
  let s := with_queue r st s in
  foldl (fun s env_bytes =>
           match (pb_parse env_bytes : option Envelope) with
           | Some env => enqueue_write fd (serialize (FEnvelope env)) s
           | None => s
           end) s queued.

Definition username_taken (name : bytes) : Frame :=
  FControl (mkControlMessage USERNAME_TAKEN
    (str "username '" ++ name ++ str "' is registered to a different identity") [] 0).

Definition handle_hello_ack (fd : Z) (c : Conn) (sig : bytes) s : Server L :=
  if negb (challenge_issued c) || negb (length (claimed_user_pub c) =? 32)%nat then close_after fd s
  else if negb (length sig =? 64)%nat then close_after fd s
  else if negb (verify_detached (claimed_user_pub c) (challenge c) sig) then close_after fd s
  else match claimed_username c with
  | [] => finish_auth fd (claimed_user_pub c) s
  | name =>
      let '(ok, d, st) := Directory.register_user name (claimed_user_pub c) (dir s) (store s) in
      let s := with_dir d st s in
      if ok then finish_auth fd (claimed_user_pub c) s
      else close_after fd (enqueue_write fd (serialize (username_taken name)) s)
  end.

Definition handle_key_upload (c : Conn) (bundle : PreKeyBundle) s : Server L :=
  let blob := pb_serialize bundle in
  let key_name := bound_user_pub c in
  let '(d, st) := Directory.put_bundle key_name blob (dir s) (store s) in
  with_dir d st s.

(** A failed parse of a stored bundle leaves unspecified contents in the reply,
    with [found = false]; they are shown empty here. *)
Definition handle_key_fetch (fd : Z) (username : bytes) (request_id : Z) s : Server L :=
  let '(pub, d) := Directory.resolve username (dir s) (store s) in
  let s := with_dir d (store s) s in
  match pub with
  | None => enqueue_write fd (serialize (FKeyFetchResp (mkKeyBundleFetchResponse false None request_id))) s
  | Some pub =>
      let '(bundle, d) := Directory.get_bundle pub (dir s) (store s) in
      let s := with_dir d (store s) s in
      let resp := match bundle with
                  | None => mkKeyBundleFetchResponse false None request_id
                  | Some blob =>
                      match pb_parse blob with
                      | Some b => mkKeyBundleFetchResponse true (Some b) request_id
                      | None => mkKeyBundleFetchResponse false (Some empty_bundle) request_id
                      end
                  end in
      enqueue_write fd (serialize (FKeyFetchResp resp)) s
  end.

Definition handle_chan_subscribe (fd : Z) (gid : bytes) s : Server L :=
  if (length gid =? 32)%nat then with_relay (Relay.channel_subscribe fd gid (relay s)) s else s.

Definition handle_chan_unsubscribe (fd : Z) (gid : bytes) s : Server L :=
  if (length gid =? 32)%nat then with_relay (Relay.channel_unsubscribe fd gid (relay s)) s else s.

Definition handle_room_join (fd : Z) (room_id : bytes) (uplink : Z) s : Server L :=
  if negb (length room_id =? 32)%nat then s
  else
    let s := on_conn fd (set_uplink uplink) s in
    let s := with_relay (Relay.room_join fd room_id (relay s)) s in
    broadcast_room_roster room_id s.

Definition handle_room_leave (fd : Z) (room_id : bytes) s : Server L :=
  if negb (length room_id =? 32)%nat then s
  else
    let s := with_relay (Relay.room_leave fd room_id (relay s)) s in
    broadcast_room_roster room_id s.

(** Charge the sender; an unbound connection is not limited. *)
Definition charge (c : Conn) (env : Envelope) s : bool * Server L :=
  if bool_decide (bound_user_pub c = []) then (true, s)
  else let '(ok, l) := try_consume (bound_user_pub c) (Z.of_nat (length (ciphertext env))) (limiter s) in
       (ok, with_limiter l s).

(** Overwrite a claimed sender with the authenticated one; an empty (sealed)
    sender stays empty. *)
Definition stamp (c : Conn) (env : Envelope) : Envelope :=
  if negb (bool_decide (bound_user_pub c = [])) && negb (bool_decide (sender_pubkey env = []))
  then set_sender (bound_user_pub c) env else env.

Definition handle_channel_envelope (fd : Z) (c : Conn) (env : Envelope) (gid : bytes) s : Server L :=
  let '(ok, s) := charge c env s in
  if negb ok then s
  else if negb (length gid =? 32)%nat then s
  else
    let subs := Relay.channel_subscribers gid (relay s) in
    let bs := serialize (FEnvelope (stamp c env)) in
    foldl (fun s sfd => if sfd =? fd then s else enqueue_write sfd bs s) s subs.

Definition rate_exceeded (env : Envelope) : Frame :=
  FControl (mkControlMessage RATE_EXCEEDED [] (envelope_id env) 1000).

Definition handle_user_envelope (now : Z) (fd : Z) (c : Conn) (env : Envelope) (rcpt : bytes) s : Server L :=
  let '(ok, s) := charge c env s in
  if negb ok then enqueue_write fd (serialize (rate_exceeded env)) s
  else
    let dst_fd := Relay.lookup_user rcpt (relay s) in
    let fwd := stamp c env in
    if 0 <=? dst_fd then enqueue_write dst_fd (serialize (FEnvelope fwd)) s
    else match Relay.enqueue_offline now rcpt (pb_serialize fwd) (relay s) (store s) with
         | Ok (r, st) => with_queue r st s
         | Throw _ => end_process s
         end.

Definition handle_envelope (now : Z) (fd : Z) (c : Conn) (env : Envelope) s : Server L :=
  match recipient env with
  | ChannelGroupId gid => handle_channel_envelope fd c env gid s
  | UserPubkey rcpt => handle_user_envelope now fd c env rcpt s
  | _ => s
  end.

Definition handle_peer (fd : Z) (c : Conn) (pe : PeerEnvelope) s : Server L :=
  if negb (authenticated c) then s
  else
    let pe := mkPeerEnvelope (pe_kind pe) (recipient_pubkey pe) (pe_payload pe) (bound_user_pub c) in
    let wire := serialize (FPeer pe) in
    match recipient_pubkey pe with
    | [] =>
        foldl (fun s p => if p.1 =? fd then s
                          else if negb (authenticated p.2) then s
                          else enqueue_write p.1 wire s) s (hash_order (conns s))
    | rcpt =>
        if (length rcpt =? 32)%nat then
          match list_find (fun p => p.1 <> fd /\ authenticated p.2 = true /\ bound_user_pub p.2 = rcpt)
                          (hash_order (conns s)) with
          | Some (_, (ofd, _)) => enqueue_write ofd wire s
          | None => s
          end
        else s
    end.

Definition handle_username_lookup (fd : Z) (pubkey : bytes) s : Server L :=
  if (length pubkey =? 32)%nat then
    let '(name, d) := Directory.reverse_resolve pubkey (dir s) (store s) in
    let s := with_dir d (store s) s in
    enqueue_write fd (serialize (match name with
                                 | Some n => FUsernameResp pubkey n true
                                 | None => FUsernameResp pubkey [] false
                                 end)) s
  else enqueue_write fd (serialize (FUsernameResp pubkey [] false)) s.

Definition handle_register_req (fd : Z) (c : Conn) (claim : IdentityClaim) s : Server L :=
  if negb (bool_decide (claim_identity_pubkey claim = bound_user_pub c)) then
    enqueue_write fd (serialize (FRegisterResp false
      (str "claim pubkey must equal authenticated pubkey"))) s
  else
    let '(ok, d, st) := Directory.register_user (claim_username claim) (bound_user_pub c) (dir s) (store s) in
    enqueue_write fd (serialize (FRegisterResp ok (if ok then str "ok" else str "username taken")))
      (with_dir d st s).

(** Before authentication only [hello] and [hello_ack] are looked at. *)
Definition pre_auth_ok (f : Frame) : bool :=
  match f with FHello _ | FHelloAck _ => true | _ => false end.

Definition handle_frame (now : Z) (fd : Z) (bs : bytes) s : Server L :=
  match conns s !! fd with
  | None => s
  | Some c =>
      match (pb_parse bs : option Frame) with
      | None => close_after fd s
      | Some f =>
          if negb (authenticated c) && negb (pre_auth_ok f) then s
          else match f with
          | FHello h => handle_hello fd c h s
          | FHelloAck sig => handle_hello_ack fd c sig s
          | FKeyUpload bundle => handle_key_upload c bundle s
          | FKeyFetch username request_id => handle_key_fetch fd username request_id s
          | FChanSubscribe gid => handle_chan_subscribe fd gid s
          | FChanUnsubscribe gid => handle_chan_unsubscribe fd gid s
          | FRoomJoin room_id _ _ uplink => handle_room_join fd room_id uplink s
          | FRoomLeave room_id => handle_room_leave fd room_id s
          | FEnvelope env => handle_envelope now fd c env s
          | FPeer pe => handle_peer fd c pe s
          | FUsernameLookup pk => handle_username_lookup fd pk s
          | FRegisterReq claim => handle_register_req fd c claim s
          | _ => s
          end
      end
  end.

(** ** Reading: feed the decoder of the transport, then drain it *)

Definition wants_close_of (fd : Z) s : bool :=
  match conns s !! fd with Some c => wants_close c | None => false end.

(** [while (try_pop(frame) == kFrameReady) handle_frame(c, frame)] *)
Fixpoint drain_tcp (fuel : nat) (now : Z) (fd : Z) s : Server L :=
  match fuel, conns s !! fd with
  | S fuel', Some c =>
      let '(st, d) := try_pop (dec c) in
      let s := on_conn fd (set_input d (ws_handshake c) (ws_parser c) (ws_upgraded c)) s in
      match st with
      | kFrameReady frame =>
          let s := handle_frame now fd frame s in
          if wants_close_of fd s then close_conn fd s else drain_tcp fuel' now fd s
      | kError => close_conn fd s
      | kNeedMore => s
      end
  | _, _ => s
  end.

Fixpoint drain_ws (fuel : nat) (now : Z) (fd : Z) s : Server L :=
  match fuel, conns s !! fd with
  | S fuel', Some c =>
      let '(st, p) := WebSocket.try_pop (ws_parser c) in
      let s := on_conn fd (set_input (dec c) (ws_handshake c) p (ws_upgraded c)) s in
      match st with
      | WebSocket.kFrameReady msg =>
          let s := handle_frame now fd msg s in
          if wants_close_of fd s then close_conn fd s else drain_ws fuel' now fd s
      | WebSocket.kClose | WebSocket.kError => close_conn fd s
      | WebSocket.kNeedMore => s
      end
  | _, _ => s
  end.

(** Every frame takes at least one byte off the buffer. *)
Definition drain_tcp_all (now fd : Z) s : Server L :=
  match conns s !! fd with
  | Some c => drain_tcp (S (length (buf_ (dec c)))) now fd s
  | None => s
  end.
Definition drain_ws_all (now fd : Z) s : Server L :=
  match conns s !! fd with
  | Some c => drain_ws (S (length (WebSocket.buf_ (ws_parser c)))) now fd s
  | None => s
  end.

(** One successful [read_some]: feed, switch protocols when the handshake
    completes, drain. *)
Definition on_incoming (now fd : Z) (incoming : bytes) s : Server L :=
  match conns s !! fd with
  | None => s
  | Some c =>
      match transport c with
      | kTcp =>
          let s := on_conn fd (set_input (feed (dec c) incoming) (ws_handshake c) (ws_parser c)
                                 (ws_upgraded c)) s in
          drain_tcp_all now fd s
      | kWs =>
          if ws_upgraded c then
            let s := on_conn fd (set_input (dec c) (ws_handshake c)
                                   (WebSocket.feed (ws_parser c) incoming) true) s in
            drain_ws_all now fd s
          else
            match WebSocket.hs_feed (ws_handshake c) incoming with
            | (WebSocket.HsRejected, h) =>
                close_conn fd (on_conn fd (set_input (dec c) h (ws_parser c) false) s)
            | (WebSocket.HsAccepted, h) =>
                let resp := WebSocket.build_101_response
                              (WebSocket.compute_accept (WebSocket.client_key_ h)) in
                let s := on_conn fd (fun c => set_write_buf (write_buf c ++ resp) c) s in
                let s := on_conn fd (set_input (dec c) h
                                       (WebSocket.feed (ws_parser c) (WebSocket.hs_trailing h)) true) s in
                drain_ws_all now fd s
            | (WebSocket.HsNeedMore, h) => on_conn fd (set_input (dec c) h (ws_parser c) false) s
            end
      end
  end.

(** The read loop of [on_conn_ready]: the chunks [read_some] returned, then
    would-block ([eof = false]) or end of stream or an error ([eof = true]). *)
Fixpoint read_loop (now fd : Z) (chunks : list bytes) (eof : bool) s : Server L :=
  match conns s !! fd, chunks with
  | None, _ => s
  | Some _, [] => if eof then close_conn fd s else s
  | Some _, chunk :: chunks' => read_loop now fd chunks' eof (on_incoming now fd chunk s)
  end.

(** The write loop: [n] is what each [write_some] returned; no more results
    means it would block. *)
Fixpoint write_loop (fd : Z) (results : list Z) s : Server L :=
  match conns s !! fd with
  | None => s
  | Some c =>
      match write_buf c, results with
      | [], _ | _, [] => s
      | w, n :: results' =>
          if n <? 0 then close_conn fd s
          else if n =? 0 then s
          else write_loop fd results' (on_conn fd (set_write_buf (drop (Z.to_nat n) w)) s)
      end
  end.

(** ** Events *)

Inductive Event :=
| EvAccept (fd : Z) (tx : Transport)
| EvReady (fd : Z) (now : Z) (hup : bool) (reads : option (list bytes * bool)) (writes : option (list Z)).

(** [accept_loop]: an invalid socket ends the loop; [emplace] never overwrites.  A
    process that has ended accepts nothing. *)
Definition accept (fd : Z) (tx : Transport) s : Server L :=
  if ended s || (fd <? 0) then s
  else match conns s !! fd with
  | Some _ => s
  | None => with_conns (<[fd := new_conn tx]> (conns s)) s
  end.

Definition on_conn_ready (fd now : Z) (hup : bool) (reads : option (list bytes * bool))
    (writes : option (list Z)) s : Server L :=
  match conns s !! fd with
  | None => s
  | Some _ =>
      if hup then close_conn fd s
      else
        let s := match reads with
                 | Some (chunks, eof) => read_loop now fd chunks eof s
                 | None => s
                 end in
        match writes with
        | Some results => write_loop fd results s
        | None => s
        end
  end.

Definition server_step (e : Event) s : Server L :=
  match e with
  | EvAccept fd tx => accept fd tx s
  | EvReady fd now hup reads writes => on_conn_ready fd now hup reads writes s
  end.

Definition server_run (es : list Event) s : Server L := foldl (fun s e => server_step e s) s es.

(** A server at start, with or without a database. *)
Definition new_server (st : option Store) (l : L) : Server L :=
  mkServer _ ∅ Relay.new_relay Directory.new_directory st l 0 false.
End server.
End RelayServer.
