(* ===== verification/RelayServerInv.v ===== *)
(** * The relay server: what holds in every reachable state

    [server_inv s sp]: the relay's tables implement the abstract relay [sp] of
    [Relay]; every route leads to a live connection that authenticated as
    that user; channel and room members are live authenticated connections; a
    user with a route has nothing queued. *)
From S2P Require Import Prelude StdMap Crypto ServerStore Relay Directory Username Wire.
From S2P Require Import FrameCodec WebSocket RelayServer.
Import RelayServer.

Section inv.
Context `{!ProtoMsg Frame, !ProtoMsg Envelope, !ProtoMsg PreKeyBundle}.
Context `{!Ed25519, !Random, !HashOrder, !RateLimiter L, !WebSocket.Base64}.
Implicit Types (s : Server L) (c : Conn) (fd : Z) (sp : Spec).

(** A connection is either unauthenticated and bound to nobody, or bound to the
    32-byte key it claimed, for which a signature over its challenge verified. *)
Definition conn_ok c : Prop :=
  if authenticated c
  then bound_user_pub c = claimed_user_pub c /\ length (bound_user_pub c) = 32%nat /\
       exists sig, verify_detached (bound_user_pub c) (challenge c) sig = true
  else bound_user_pub c = [].

Definition authed s fd : Prop := exists c, conns s !! fd = Some c /\ authenticated c = true.

Record server_inv s sp : Prop := {
  inv_relay : relay_sim (relay s, store s) sp;
  inv_conn : forall fd c, conns s !! fd = Some c -> 0 <= fd /\ conn_ok c;
  inv_route : forall u fd, route sp !! u = Some fd ->
    exists c, conns s !! fd = Some c /\ authenticated c = true /\ bound_user_pub c = u;
  inv_chan : forall fd k, (fd, k) ∈ chan_pairs sp -> authed s fd;
  inv_room : forall fd k, (fd, k) ∈ room_pairs sp -> authed s fd;
  inv_queue : forall u fd, route sp !! u = Some fd -> pending sp !!! u = [];
}.

(** ** Changes that keep the identity of connections *)

Definition same_id c c' : Prop :=
  authenticated c' = authenticated c /\ bound_user_pub c' = bound_user_pub c /\
  claimed_user_pub c' = claimed_user_pub c /\ challenge c' = challenge c.

Lemma conn_ok_same c c' : same_id c c' -> conn_ok c -> conn_ok c'.
Proof. intros (Ha & Hb & Hc & Hch). unfold conn_ok. by rewrite Ha, Hb, Hc, Hch. Qed.

Lemma set_write_buf_id w c : same_id c (set_write_buf w c).
Proof. by destruct c. Qed.
Lemma write_frame_id bs c : same_id c (write_frame bs c).
Proof. apply set_write_buf_id. Qed.
Lemma set_wants_close_id c : same_id c (set_wants_close c).
Proof. by destruct c. Qed.
Lemma set_uplink_id ul c : same_id c (set_uplink ul c).
Proof. by destruct c. Qed.
Lemma set_input_id d h p up c : same_id c (set_input d h p up c).
Proof. by destruct c. Qed.

(** The same server up to connections' buffers, decoders and flags, the
    directory, the limiter and the draws. *)
Record same_routing s s' : Prop := {
  sr_relay : relay s' = relay s;
  sr_queue : match store s, store s' with
             | None, None => True
             | Some a, Some b => srv_offline b = srv_offline a /\ srv_next_id b = srv_next_id a
             | _, _ => False
             end;
  sr_conns : forall fd, match conns s !! fd, conns s' !! fd with
                        | None, None => True
                        | Some c, Some c' => same_id c c'
                        | _, _ => False
                        end;
}.

#[export] Instance same_routing_preorder : PreOrder same_routing.
Proof.
  split.
  - intros s. split; [done| |]; [by destruct (store s)|]. intros fd. by destruct (conns s !! fd).
  - intros s1 s2 s3 [Hr1 Hq1 Hc1] [Hr2 Hq2 Hc2]. split; [congruence| |].
    + destruct (store s1), (store s2), (store s3); naive_solver congruence.
    + intros fd. specialize (Hc1 fd). specialize (Hc2 fd).
      destruct (conns s1 !! fd), (conns s2 !! fd), (conns s3 !! fd); try done.
      unfold same_id in *. naive_solver congruence.
Qed.

Lemma relay_sim_store r st st' sp :
  relay_sim (r, st) sp ->
  match st, st' with
  | None, None => True
  | Some a, Some b => srv_offline b = srv_offline a /\ srv_next_id b = srv_next_id a
  | _, _ => False
  end -> relay_sim (r, st') sp.
Proof.
  intros [Hr Hb Hc Hm Hq] Hst. split; try done. cbn in *.
  destruct st as [a|], st' as [b|]; try done. destruct Hst as [Ho Hn], Hq as [[Hnd Hbl] Hq].
  split; [split; by rewrite ?Ho, ?Hn|]. intros u. rewrite <- Hq. unfold store_queue, rows_of. by rewrite Ho.
Qed.

Lemma same_routing_conn s s' fd c' :
  same_routing s s' -> conns s' !! fd = Some c' -> exists c, conns s !! fd = Some c /\ same_id c c'.
Proof. intros [_ _ Hc] E. specialize (Hc fd). rewrite E in Hc. destruct (conns s !! fd); [by eexists|done]. Qed.

Lemma same_routing_conn' s s' fd c :
  same_routing s s' -> conns s !! fd = Some c -> exists c', conns s' !! fd = Some c' /\ same_id c c'.
Proof. intros [_ _ Hc] E. specialize (Hc fd). rewrite E in Hc. destruct (conns s' !! fd); [by eexists|done]. Qed.

Lemma same_routing_inv s s' sp : same_routing s s' -> server_inv s sp -> server_inv s' sp.
Proof.
  intros Hsr [Hr Hc Hrt Hch Hrm Hq].
  assert (forall fd, authed s fd -> authed s' fd) as Hau.
  { intros fd (c & Ec & Ha). destruct (same_routing_conn' _ _ _ _ Hsr Ec) as (c' & Ec' & Hid & _).
    exists c'. split; [done|]. congruence. }
  split; [|..|done].
  - pose proof Hsr as [E Est _]. rewrite E. by eapply relay_sim_store.
  - intros fd c' Ec'. destruct (same_routing_conn _ _ _ _ Hsr Ec') as (c & Ec & Hid).
    destruct (Hc fd c Ec). split; [done|]. by eapply conn_ok_same.
  - intros u fd Hu. destruct (Hrt u fd Hu) as (c & Ec & Ha & Hbu).
    destruct (same_routing_conn' _ _ _ _ Hsr Ec) as (c' & Ec' & Hid1 & Hid2 & _).
    exists c'. split_and!; [done|congruence..].
  - intros fd k Hk. eauto.
  - intros fd k Hk. eauto.
Qed.

Lemma on_conn_routing fd f s : (forall c, same_id c (f c)) -> same_routing s (on_conn fd f s).
Proof.
  intros Hf. split; [done|by cbn; destruct (store s)|]. intros fd'. cbn [conns on_conn with_conns].
  destruct (decide (fd' = fd)) as [->|Hne].
  - rewrite lookup_alter_eq. destruct (conns s !! fd); cbn; auto.
  - rewrite lookup_alter_ne by done. by destruct (conns s !! fd').
Qed.

Lemma enqueue_write_routing fd bs s : same_routing s (enqueue_write fd bs s).
Proof. apply on_conn_routing, write_frame_id. Qed.

Lemma close_after_routing fd s : same_routing s (close_after fd s).
Proof. apply on_conn_routing, set_wants_close_id. Qed.

Lemma foldl_routing {A} (f : Server L -> A -> Server L) (l : list A) s :
  (forall s a, same_routing s (f s a)) -> same_routing s (foldl f s l).
Proof.
  intros Hf. revert s. induction l as [|a l IH]; intros s; cbn [foldl]; [reflexivity|].
  etransitivity; [apply Hf|apply IH].
Qed.

Lemma broadcast_routing rid s : same_routing s (broadcast_room_roster rid s).
Proof.
  unfold broadcast_room_roster. destruct (Relay.room_member_fds rid (relay s)); [reflexivity|].
  apply foldl_routing. intros. apply enqueue_write_routing.
Qed.

Lemma with_limiter_routing l s : same_routing s (with_limiter l s).
Proof. split; [done|by cbn; destruct (store s)|]. intros fd. cbn. by destruct (conns s !! fd). Qed.

Lemma next_draw_routing s : same_routing s (next_draw s).
Proof. split; [done|by cbn; destruct (store s)|]. intros fd. cbn. by destruct (conns s !! fd). Qed.

Lemma with_dir_routing d st s :
  match store s, st with
  | None, None => True
  | Some a, Some b => srv_offline b = srv_offline a /\ srv_next_id b = srv_next_id a
  | _, _ => False
  end -> same_routing s (with_dir d st s).
Proof. intros Hst. split; [done|done|]. intros fd. cbn. by destruct (conns s !! fd). Qed.

Lemma register_routing u pk s :
  let '(_, d, st) := Directory.register_user u pk (dir s) (store s) in same_routing s (with_dir d st s).
Proof.
  unfold Directory.register_user.
  destruct (Directory.name_to_pub_ (dir s) !! u); apply with_dir_routing; destruct (store s); try done.
  apply register_user_offline.
Qed.

(** ** Steps of the abstract relay *)

Lemma inv_relay_step op s sp out sp' r' st' :
  server_inv s sp ->
  spec_step (bool_decide (is_Some (store s))) op sp = Some (Ok (out, sp')) ->
  relay_step op (relay s, store s) = Ok (out, (r', st')) -> relay_sim (r', st') sp'.
Proof.
  intros [Hr _ _ _ _ _] Hs Hstep.
  destruct (relay_step_sim op (relay s, store s) sp _ Hr Hs) as (rs & E & Hsim & _).
  rewrite Hstep in E. by injection E as <-.
Qed.

(** An unauthenticated connection may change its claim. *)
Lemma inv_unauth_conn fd c f s sp :
  server_inv s sp -> conns s !! fd = Some c -> authenticated c = false ->
  authenticated (f c) = false -> bound_user_pub (f c) = [] ->
  server_inv (on_conn fd f s) sp.
Proof.
  intros [Hr Hc Hrt Hch Hrm Hq] Ec Hau Hau' Hb'.
  assert (forall fd', fd' <> fd -> conns (on_conn fd f s) !! fd' = conns s !! fd') as Hne.
  { intros fd' Hfd. cbn. by rewrite lookup_alter_ne. }
  assert (forall fd', authed s fd' -> authed (on_conn fd f s) fd') as Hauth.
  { intros fd' (c' & Ec' & Ha'). exists c'. rewrite Hne; [done|]. intros ->. congruence. }
  split; [done|..].
  - intros fd' c'. destruct (decide (fd' = fd)) as [->|Hfd]; [|rewrite Hne by done; apply Hc].
    cbn. rewrite lookup_alter_eq, Ec. intros [= <-]. destruct (Hc fd c Ec). split; [done|].
    unfold conn_ok. by rewrite Hau'.
  - intros u fd' Hu. destruct (Hrt u fd' Hu) as (c' & Ec' & Ha' & Hbu). exists c'.
    rewrite Hne; [done|]. intros ->. congruence.
  - intros fd' k Hk. eauto.
  - intros fd' k Hk. eauto.
  - done.
Qed.

(** The state after [bound_user_pub = claimed_user_pub; bind; drain], before the
    queued envelopes are written. *)
Definition bound_state fd (u : bytes) s : list bytes * Server L :=
  let s := on_conn fd set_bound s in
  let s := with_relay (Relay.bind fd u (relay s)) s in
  let '(queued, r, st) := Relay.drain_offline u (relay s) (store s) in
  (queued, with_queue r st s).

Definition deliver_queued fd s (env_bytes : bytes) : Server L :=
  match (pb_parse env_bytes : option Envelope) with
  | Some env => enqueue_write fd (serialize (FEnvelope env)) s
  | None => s
  end.

Lemma finish_auth_eq fd u s :
  finish_auth fd u s = foldl (deliver_queued fd) (bound_state fd u s).2 (bound_state fd u s).1.
Proof.
  unfold finish_auth, bound_state. by destruct (Relay.drain_offline _ _ _) as [[q r] st].
Qed.

Lemma deliver_queued_routing fd s b : same_routing s (deliver_queued fd s b).
Proof. unfold deliver_queued. destruct (pb_parse b); [apply enqueue_write_routing|reflexivity]. Qed.

Lemma bound_state_inv fd c s sp :
  server_inv s sp -> conns s !! fd = Some c -> length (claimed_user_pub c) = 32%nat ->
  (exists sig, verify_detached (claimed_user_pub c) (challenge c) sig = true) ->
  let u := claimed_user_pub c in
  (bound_state fd u s).1 = visible (bool_decide (is_Some (store s))) (pending sp !!! u) /\
  server_inv (bound_state fd u s).2
    (mkSpec (<[u := fd]> (route sp)) (chan_pairs sp) (room_pairs sp) (delete u (pending sp))) /\
  conns (bound_state fd u s).2 = alter set_bound fd (conns s).
Proof.
  intros Hinv Ec Hlen Hsig u. pose proof Hinv as [Hr Hc Hrt Hch Hrm Hq].
  destruct (Hc fd c Ec) as [Hfd Hok]. destruct sp as [rt ch rm pd]. cbn [route chan_pairs room_pairs pending] in *.
  assert (map_Forall (fun u' fd' => fd' = fd -> u' = u) rt) as Hone.
  { intros u' fd' Hu' ->. destruct (Hrt u' fd Hu') as (c' & Ec' & Ha & Hb).
    rewrite Ec in Ec'. injection Ec' as <-. unfold conn_ok in Hok. rewrite Ha in Hok.
    destruct Hok as [Hbc _]. unfold u. congruence. }
  destruct (relay_run_sim [OpBind fd u; OpDrain u] (relay s, store s) _
    (Ok ([[]; visible (bool_decide (is_Some (store s))) (pd !!! u)], mkSpec (<[u:=fd]> rt) ch rm (delete u pd))) Hr)
    as ([r' st'] & Hrun & Hsim).
  { cbn [spec_run spec_step snd]. by rewrite decide_True. }
  cbn [relay_run relay_step rbind] in Hrun. unfold bound_state. cbn [relay store on_conn with_conns with_relay].
  destruct (Relay.drain_offline u (Relay.bind fd u (relay s)) (store s)) as [[q r] st].
  cbn [rbind relay_run relay_step] in Hrun. injection Hrun as <- <- <-. cbn [fst snd]. split_and!; [done| |done].
  assert (forall fd', authed s fd' -> exists c', alter set_bound fd (conns s) !! fd' = Some c' /\
    authenticated c' = true) as Hau.
  { intros fd' (c' & Ec' & Ha'). destruct (decide (fd' = fd)) as [->|Hne].
    - rewrite lookup_alter_eq, Ec'. cbn. eexists. split; [done|by destruct c'].
    - rewrite lookup_alter_ne by done. by eexists. }
  split; cbn [conns relay store with_queue with_relay on_conn with_conns route chan_pairs room_pairs pending];
    [done|..].
  - intros fd' c' Ec'. destruct (decide (fd' = fd)) as [->|Hne].
    + rewrite lookup_alter_eq, Ec in Ec'. injection Ec' as <-. split; [done|]. by destruct c.
    + rewrite lookup_alter_ne in Ec' by done. by apply Hc.
  - intros u' fd' [[<- <-]|[Hne Hu']]%lookup_insert_Some.
    + exists (set_bound c). rewrite lookup_alter_eq, Ec. by destruct c.
    + destruct (Hrt u' fd' Hu') as (c' & Ec' & Ha' & Hb'). exists c'.
      rewrite lookup_alter_ne; [done|]. intros <-. apply Hne. symmetry. by apply (Hone u' fd).
  - intros fd' k Hk. apply Hau. eauto.
  - intros fd' k Hk. apply Hau. eauto.
  - intros u' fd' [[<- <-]|[Hne Hu']]%lookup_insert_Some.
    + by rewrite lookup_total_delete_eq.
    + rewrite lookup_total_delete_ne by done. by apply (Hq u' fd').
Qed.

Lemma finish_auth_inv fd c s sp :
  server_inv s sp -> conns s !! fd = Some c -> length (claimed_user_pub c) = 32%nat ->
  (exists sig, verify_detached (claimed_user_pub c) (challenge c) sig = true) ->
  exists sp', server_inv (finish_auth fd (claimed_user_pub c) s) sp'.
Proof.
  intros Hinv Ec Hlen Hsig. destruct (bound_state_inv fd c s sp Hinv Ec Hlen Hsig) as (_ & Hb & _).
  eexists. rewrite finish_auth_eq. eapply same_routing_inv; [|exact Hb].
  apply foldl_routing. intros. apply deliver_queued_routing.
Qed.

(** Closing removes the connection from every table. *)
Lemma close_conn_inv fd s sp :
  server_inv s sp ->
  server_inv (close_conn fd s)
    (mkSpec (filter (fun p => p.2 <> fd) (route sp)) (filter (fun p => p.1 <> fd) (chan_pairs sp))
       (filter (fun p => p.1 <> fd) (room_pairs sp)) (pending sp)).
Proof.
  intros [Hr Hc Hrt Hch Hrm Hq]. destruct sp as [rt ch rm pd]. cbn [route chan_pairs room_pairs pending] in *.
  destruct (relay_run_sim [OpUnbind fd; OpUnbindChannels fd; OpUnbindRooms fd] (relay s, store s) _
    (Ok ([[]; []; []], mkSpec (filter (fun p => p.2 <> fd) rt) (filter (fun p => p.1 <> fd) ch)
                  (filter (fun p => p.1 <> fd) rm) pd)) Hr) as ([r' st'] & Hrun & Hsim); [done|].
  cbn [relay_run relay_step rbind] in Hrun. injection Hrun as <- <-. unfold close_conn.
  eapply same_routing_inv; [apply foldl_routing; intros; apply broadcast_routing|].
  assert (forall fd', fd' <> fd -> authed s fd' -> exists c', delete fd (conns s) !! fd' = Some c' /\
    authenticated c' = true) as Hau.
  { intros fd' Hne (c' & Ec' & Ha'). exists c'. by rewrite lookup_delete_ne. }
  split; cbn [conns relay store with_relay with_conns route chan_pairs room_pairs pending]; [done|..].
  - intros fd' c' [_ Ec']%lookup_delete_Some. by apply Hc.
  - intros u fd' [Hu Hne]%map_lookup_filter_Some. destruct (Hrt u fd' Hu) as (c' & Ec' & ? & ?).
    exists c'. by rewrite lookup_delete_ne.
  - intros fd' k [Hne Hk]%elem_of_filter. apply Hau; [done|]. eauto.
  - intros fd' k [Hne Hk]%elem_of_filter. apply Hau; [done|]. eauto.
  - intros u fd' [Hu _]%map_lookup_filter_Some. by apply (Hq u fd').
Qed.

(** Joining and leaving channels and rooms. *)
Lemma inv_with_relay op r' s sp sp' :
  server_inv s sp -> spec_step (bool_decide (is_Some (store s))) op sp = Some (Ok ([], sp')) ->
  relay_step op (relay s, store s) = Ok ([], (r', store s)) ->
  route sp' = route sp -> pending sp' = pending sp ->
  (forall fd k, (fd, k) ∈ chan_pairs sp' -> authed s fd) ->
  (forall fd k, (fd, k) ∈ room_pairs sp' -> authed s fd) ->
  server_inv (with_relay r' s) sp'.
Proof.
  intros Hinv Hs Hstep Hr Hp Hch Hrm. pose proof (inv_relay_step _ _ _ _ _ _ _ Hinv Hs Hstep) as Hsim.
  destruct Hinv as [_ Hc Hrt _ _ Hq]. split; try done; by rewrite ?Hr, ?Hp.
Qed.

Lemma subscribe_inv fd gid s sp :
  server_inv s sp -> authed s fd ->
  exists sp', server_inv (with_relay (Relay.channel_subscribe fd gid (relay s)) s) sp'.
Proof.
  intros Hinv Hau. pose proof Hinv as [_ _ _ Hch Hrm _]. destruct sp as [rt ch rm pd]. eexists.
  eapply (inv_with_relay (OpSubscribe fd gid)); try done. cbn [chan_pairs] in *.
  intros fd' k [[= -> ->]%elem_of_singleton|Hk]%elem_of_union; [done|]. eauto.
Qed.

Lemma unsubscribe_inv fd gid s sp :
  server_inv s sp -> exists sp', server_inv (with_relay (Relay.channel_unsubscribe fd gid (relay s)) s) sp'.
Proof.
  intros Hinv. pose proof Hinv as [_ _ _ Hch Hrm _]. destruct sp as [rt ch rm pd]. eexists.
  eapply (inv_with_relay (OpUnsubscribe fd gid)); try done. cbn [chan_pairs] in *.
  intros fd' k [Hk _]%elem_of_difference. eauto.
Qed.

Lemma room_join_inv fd rid s sp :
  server_inv s sp -> authed s fd ->
  exists sp', server_inv (with_relay (Relay.room_join fd rid (relay s)) s) sp'.
Proof.
  intros Hinv Hau. pose proof Hinv as [_ _ _ Hch Hrm _]. destruct sp as [rt ch rm pd]. eexists.
  eapply (inv_with_relay (OpJoin fd rid)); try done. cbn [room_pairs] in *.
  intros fd' k [[= -> ->]%elem_of_singleton|Hk]%elem_of_union; [done|]. eauto.
Qed.

Lemma room_leave_inv fd rid s sp :
  server_inv s sp -> exists sp', server_inv (with_relay (Relay.room_leave fd rid (relay s)) s) sp'.
Proof.
  intros Hinv. pose proof Hinv as [_ _ _ Hch Hrm _]. destruct sp as [rt ch rm pd]. eexists.
  eapply (inv_with_relay (OpLeave fd rid)); try done. cbn [room_pairs] in *.
  intros fd' k [Hk _]%elem_of_difference. eauto.
Qed.

(** Queueing for a user without a route. *)
Lemma enqueue_offline_inv now u env s sp r st :
  server_inv s sp -> route sp !! u = None ->
  Relay.enqueue_offline now u env (relay s) (store s) = Ok (r, st) ->
  server_inv (with_queue r st s)
    (mkSpec (route sp) (chan_pairs sp) (room_pairs sp) (<[u := pending sp !!! u ++ [env]]> (pending sp))).
Proof.
  intros Hinv Hu E. destruct sp as [rt ch rm pd].
  pose proof (enqueue_sim now u env (relay s) (store s) pd (sim_queue _ _ (inv_relay _ _ Hinv))) as He.
  rewrite E in He. destruct He as (Hg & _).
  assert (relay_sim (r, st) (mkSpec rt ch rm (<[u := pd !!! u ++ [env]]> pd))) as Hsim.
  { eapply (inv_relay_step (OpEnqueue u env now)); [done|cbn [spec_step]; by rewrite Hg|]. cbn [relay_step]. by rewrite E. }
  destruct Hinv as [_ Hc Hrt Hch Hrm Hq]. split; try done. cbn [route pending] in *.
  intros u' fd Hu'. rewrite lookup_total_insert_ne by congruence. by apply (Hq u' fd).
Qed.

(** A process that ends leaves a state without connections. *)
Lemma end_process_inv s sp :
  server_inv s sp -> server_inv (end_process s) (mkSpec ∅ ∅ ∅ (match store s with Some _ => pending sp | None => ∅ end)).
Proof.
  intros [[_ _ _ _ Hq] _ _ _ _ _].
  destruct (relay_sim_init None (or_introl eq_refl)) as [Hr Hb Hch Hrm _].
  split; try done. split; try done. cbn in *. by destruct (store s).
Qed.

(** [lookup] answers -1 exactly for users without a route. *)
Lemma lookup_user_route u s sp :
  server_inv s sp ->
  match route sp !! u with
  | Some fd => Relay.lookup_user u (relay s) = fd /\ 0 <= fd
  | None => Relay.lookup_user u (relay s) = -1
  end.
Proof.
  intros [[Hr _ _ _ _] Hc Hrt _ _ _]. cbn in Hr. unfold Relay.lookup_user. rewrite Hr.
  destruct (route sp !! u) as [fd|] eqn:E; [|done]. split; [done|].
  destruct (Hrt u fd E) as (c & Ec & _). by destruct (Hc fd c Ec).
Qed.

Lemma charge_routing c env s : same_routing s (charge c env s).2.
Proof.
  unfold charge. case_bool_decide; [reflexivity|]. destruct (try_consume _ _ _). apply with_limiter_routing.
Qed.

(** ** Every frame keeps the invariant *)

Definition keeps s (s' : Server L) : Prop := forall sp, server_inv s sp -> exists sp', server_inv s' sp'.

Lemma keeps_routing s s' : same_routing s s' -> keeps s s'.
Proof. intros Hsr sp Hinv. exists sp. by eapply same_routing_inv. Qed.

Lemma keeps_trans s1 s2 s3 : keeps s1 s2 -> keeps s2 s3 -> keeps s1 s3.
Proof. intros H12 H23 sp Hinv. destruct (H12 sp Hinv) as [sp' Hinv']. by apply (H23 sp'). Qed.

Lemma handle_hello_keeps fd c h s : conns s !! fd = Some c -> keeps s (handle_hello fd c h s).
Proof.
  intros Ec sp Hinv. unfold handle_hello.
  destruct (authenticated c) eqn:Ha; cbn [orb]; [eapply keeps_routing; [apply close_after_routing|done]|].
  assert (bound_user_pub c = []) as Hb.
  { destruct (inv_conn _ _ Hinv fd c Ec) as [_ Hok]. unfold conn_ok in Hok. by rewrite Ha in Hok. }
  rewrite bool_decide_true by done. cbn [negb].
  destruct (negb (length _ =? 32)%nat).
  { eapply keeps_routing; [|done]. etransitivity; [apply enqueue_write_routing|apply close_after_routing]. }
  assert (server_inv (on_conn fd (set_claimed_pub (hello_identity_pubkey h)) s) sp) as Hinv1.
  { eapply inv_unauth_conn; [done..| |]; destruct c; done. }
  destruct (negb _ && negb _).
  { eapply keeps_routing; [|done]. etransitivity; [apply enqueue_write_routing|apply close_after_routing]. }
  eapply (keeps_routing _ _ (enqueue_write_routing _ _ _)).
  eapply inv_unauth_conn.
  - eapply same_routing_inv; [apply next_draw_routing|exact Hinv1].
  - cbn. by rewrite lookup_alter_eq, Ec.
  - by destruct c.
  - by destruct c.
  - by destruct c.
Qed.

Lemma handle_hello_ack_keeps fd c sig s : conns s !! fd = Some c -> keeps s (handle_hello_ack fd c sig s).
Proof.
  intros Ec. unfold handle_hello_ack.
  destruct (negb (challenge_issued c) || _) eqn:E1; [apply keeps_routing, close_after_routing|].
  destruct (negb (length sig =? 64)%nat); [apply keeps_routing, close_after_routing|].
  destruct (verify_detached _ _ sig) eqn:Ev; cbn [negb]; [|apply keeps_routing, close_after_routing].
  apply orb_false_iff in E1 as [_ E1]. apply negb_false_iff, Nat.eqb_eq in E1.
  assert (forall s', conns s' !! fd = Some c -> keeps s' (finish_auth fd (claimed_user_pub c) s')) as Hfin.
  { intros s' Ec' sp Hinv. eapply finish_auth_inv; eauto. }
  destruct (claimed_username c) as [|b name']; [by apply Hfin|].
  pose proof (register_routing (b :: name') (claimed_user_pub c) s) as Hreg.
  destruct (Directory.register_user _ _ _ _) as [[ok d] st].
  eapply keeps_trans; [by apply keeps_routing|]. destruct ok; [by apply Hfin|].
  apply keeps_routing. etransitivity; [apply enqueue_write_routing|apply close_after_routing].
Qed.

Lemma handle_key_fetch_routing fd u rid s : same_routing s (handle_key_fetch fd u rid s).
Proof.
  unfold handle_key_fetch. destruct (Directory.resolve u (dir s) (store s)) as [[pub|] d].
  - destruct (Directory.get_bundle pub _ _) as [b d'].
    etransitivity; [|apply enqueue_write_routing]. etransitivity; apply with_dir_routing; cbn; by destruct (store s).
  - etransitivity; [|apply enqueue_write_routing]. apply with_dir_routing. by destruct (store s).
Qed.

Lemma handle_envelope_keeps now fd c env s : keeps s (handle_envelope now fd c env s).
Proof.
  unfold handle_envelope. destruct (recipient env) as [|rcpt|gid|t]; try (by apply keeps_routing).
  - unfold handle_user_envelope. pose proof (charge_routing c env s) as Hch.
    destruct (charge c env s) as [ok s1]. cbn in Hch. eapply keeps_trans; [by apply keeps_routing|].
    destruct ok; cbn [negb]; [|apply keeps_routing, enqueue_write_routing].
    intros sp Hinv. pose proof (lookup_user_route rcpt s1 sp Hinv) as Hl.
    destruct (route sp !! rcpt) as [dst|] eqn:Er.
    + destruct Hl as [-> Hle]. rewrite (proj2 (Z.leb_le 0 dst)) by done.
      eapply keeps_routing; [apply enqueue_write_routing|done].
    + rewrite Hl. cbn [Z.leb Z.compare].
      destruct (Relay.enqueue_offline _ _ _ _ _) as [[rl st]|e] eqn:E; eexists.
      * by eapply enqueue_offline_inv.
      * by apply end_process_inv.
  - unfold handle_channel_envelope. pose proof (charge_routing c env s) as Hch.
    destruct (charge c env s) as [ok s1]. apply keeps_routing. etransitivity; [exact Hch|].
    destruct (negb ok); [reflexivity|]. destruct (negb _); [reflexivity|].
    apply foldl_routing. intros s2 sfd. destruct (sfd =? fd); [reflexivity|apply enqueue_write_routing].
Qed.

Lemma handle_peer_routing fd c pe s : same_routing s (handle_peer fd c pe s).
Proof.
  unfold handle_peer. destruct (negb (authenticated c)); [reflexivity|]. cbn [recipient_pubkey].
  destruct (recipient_pubkey pe) as [|b r].
  - apply foldl_routing. intros s1 p. destruct (p.1 =? fd); [reflexivity|].
    destruct (negb _); [reflexivity|apply enqueue_write_routing].
  - destruct (_ =? 32)%nat; [|reflexivity].
    destruct (list_find _ _) as [[? [ofd oc]]|]; [apply enqueue_write_routing|reflexivity].
Qed.

Lemma handle_frame_keeps now fd bs s : keeps s (handle_frame now fd bs s).
Proof.
  unfold handle_frame. destruct (conns s !! fd) as [c|] eqn:Ec; [|by apply keeps_routing].
  destruct (pb_parse bs) as [f|]; [|apply keeps_routing, close_after_routing].
  destruct (authenticated c) eqn:Ha; cbn [negb andb].
  2: { destruct f; cbn [pre_auth_ok negb]; try (by apply keeps_routing);
       [by apply handle_hello_keeps|by apply handle_hello_ack_keeps]. }
  assert (authed s fd) as Hau by (by exists c).
  destruct f as [|env| | |h| |bundle|u rid| |claim| |gid|gid|sig|pk| |rid v a ul|rid| | | | |pe];
    try (by apply keeps_routing).
  - apply handle_envelope_keeps.
  - by apply handle_hello_keeps.
  - apply keeps_routing. unfold handle_key_upload, Directory.put_bundle.
    apply with_dir_routing. destruct (store s); [apply put_bundle_offline|done].
  - apply keeps_routing, handle_key_fetch_routing.
  - unfold handle_register_req. destruct (negb _); [apply keeps_routing, enqueue_write_routing|].
    pose proof (register_routing (claim_username claim) (bound_user_pub c) s) as Hreg.
    destruct (Directory.register_user _ _ _ _) as [[ok d] st]. apply keeps_routing.
    etransitivity; [exact Hreg|apply enqueue_write_routing].
  - unfold handle_chan_subscribe. destruct (_ =? 32)%nat; [|by apply keeps_routing].
    intros sp Hinv. by eapply subscribe_inv.
  - unfold handle_chan_unsubscribe. destruct (_ =? 32)%nat; [|by apply keeps_routing].
    intros sp Hinv. by eapply unsubscribe_inv.
  - by apply handle_hello_ack_keeps.
  - apply keeps_routing. unfold handle_username_lookup.
    destruct (_ =? 32)%nat; [|apply enqueue_write_routing].
    destruct (Directory.reverse_resolve _ _ _) as [name d]. etransitivity; [|apply enqueue_write_routing].
    apply with_dir_routing. by destruct (store s).
  - unfold handle_room_join. destruct (negb _); [by apply keeps_routing|].
    eapply keeps_trans; [apply keeps_routing, on_conn_routing; intros; apply set_uplink_id|].
    eapply keeps_trans; [|apply keeps_routing, broadcast_routing].
    intros sp Hinv. eapply room_join_inv; [done|]. exists (set_uplink ul c). cbn.
    rewrite lookup_alter_eq, Ec. by destruct c.
  - unfold handle_room_leave. destruct (negb _); [by apply keeps_routing|].
    eapply keeps_trans; [|apply keeps_routing, broadcast_routing].
    intros sp Hinv. by eapply room_leave_inv.
  - apply keeps_routing, handle_peer_routing.
Qed.

Lemma close_conn_keeps fd s : keeps s (close_conn fd s).
Proof. intros sp Hinv. eexists. by apply close_conn_inv. Qed.

Lemma set_input_keeps fd d h p up s : keeps s (on_conn fd (set_input d h p up) s).
Proof. apply keeps_routing, on_conn_routing. intros. apply set_input_id. Qed.

Lemma set_write_buf_keeps fd (w : Conn -> bytes) s : keeps s (on_conn fd (fun c => set_write_buf (w c) c) s).
Proof. apply keeps_routing, on_conn_routing. intros. apply set_write_buf_id. Qed.

Lemma drain_tcp_keeps fuel now fd s : keeps s (drain_tcp fuel now fd s).
Proof.
  revert s. induction fuel as [|fuel IH]; intros s; cbn [drain_tcp]; [by apply keeps_routing|].
  destruct (conns s !! fd) as [c|]; [|by apply keeps_routing].
  destruct (try_pop (dec c)) as [[|frame|] d]; (eapply keeps_trans; [apply set_input_keeps|]);
    [by apply keeps_routing| |apply close_conn_keeps].
  eapply keeps_trans; [apply handle_frame_keeps|].
  destruct (wants_close_of _ _); [apply close_conn_keeps|apply IH].
Qed.

Lemma drain_ws_keeps fuel now fd s : keeps s (drain_ws fuel now fd s).
Proof.
  revert s. induction fuel as [|fuel IH]; intros s; cbn [drain_ws]; [by apply keeps_routing|].
  destruct (conns s !! fd) as [c|]; [|by apply keeps_routing].
  destruct (WebSocket.try_pop (ws_parser c)) as [[|msg| |] p]; (eapply keeps_trans; [apply set_input_keeps|]);
    [by apply keeps_routing| |apply close_conn_keeps..].
  eapply keeps_trans; [apply handle_frame_keeps|].
  destruct (wants_close_of _ _); [apply close_conn_keeps|apply IH].
Qed.

Lemma drain_all_keeps now fd s : keeps s (drain_tcp_all now fd s) /\ keeps s (drain_ws_all now fd s).
Proof.
  unfold drain_tcp_all, drain_ws_all. destruct (conns s !! fd).
  - split; [apply drain_tcp_keeps|apply drain_ws_keeps].
  - split; by apply keeps_routing.
Qed.

Lemma on_incoming_keeps now fd bs s : keeps s (on_incoming now fd bs s).
Proof.
  unfold on_incoming. destruct (conns s !! fd) as [c|]; [|by apply keeps_routing].
  destruct (transport c).
  - eapply keeps_trans; [apply set_input_keeps|apply drain_all_keeps].
  - destruct (ws_upgraded c); [eapply keeps_trans; [apply set_input_keeps|apply drain_all_keeps]|].
    destruct (WebSocket.hs_feed _ bs) as [[| |] h].
    + apply set_input_keeps.
    + set (resp := WebSocket.build_101_response _).
      eapply keeps_trans; [apply (set_write_buf_keeps fd (fun c => write_buf c ++ resp))|].
      eapply keeps_trans; [apply set_input_keeps|apply drain_all_keeps].
    + eapply keeps_trans; [apply set_input_keeps|apply close_conn_keeps].
Qed.

Lemma read_loop_keeps now fd chunks eof s : keeps s (read_loop now fd chunks eof s).
Proof.
  revert s. induction chunks as [|bs chunks IH]; intros s; cbn [read_loop];
    destruct (conns s !! fd); try (by apply keeps_routing).
  - destruct eof; [apply close_conn_keeps|by apply keeps_routing].
  - eapply keeps_trans; [apply on_incoming_keeps|apply IH].
Qed.

Lemma write_loop_keeps fd results s : keeps s (write_loop fd results s).
Proof.
  revert s. induction results as [|n results IH]; intros s; cbn [write_loop];
    (destruct (conns s !! fd) as [c|]; [|by apply keeps_routing]);
    destruct (write_buf c) as [|b w]; try (by apply keeps_routing).
  destruct (n <? 0); [apply close_conn_keeps|]. destruct (n =? 0); [by apply keeps_routing|].
  eapply keeps_trans; [apply (set_write_buf_keeps fd (fun _ => drop (Z.to_nat n) (b :: w)))|apply IH].
Qed.

Lemma accept_keeps fd tx s : keeps s (accept fd tx s).
Proof.
  unfold accept. destruct (ended s); [by apply keeps_routing|]. cbn [orb].
  destruct (Z.ltb_spec fd 0) as [|Hfd]; [by apply keeps_routing|].
  destruct (conns s !! fd) as [c|] eqn:Ec; [by apply keeps_routing|].
  intros sp [Hr Hc Hrt Hch Hrm Hq]. exists sp.
  assert (forall fd' c', conns s !! fd' = Some c' -> <[fd := new_conn tx]> (conns s) !! fd' = Some c') as Hold.
  { intros fd' c' E. rewrite lookup_insert_ne; [done|]. congruence. }
  split; cbn [conns with_conns relay store]; [done|..|done].
  - intros fd' c' [[<- <-]|[_ E]]%lookup_insert_Some; [done|by apply Hc].
  - intros u fd' Hu. destruct (Hrt u fd' Hu) as (c' & E & ?). eauto.
  - intros fd' k Hk. destruct (Hch fd' k Hk) as (c' & E & ?). exists c'. cbn. eauto.
  - intros fd' k Hk. destruct (Hrm fd' k Hk) as (c' & E & ?). exists c'. cbn. eauto.
Qed.

Lemma server_step_keeps e s : keeps s (server_step e s).
Proof.
  destruct e as [fd tx|fd now hup reads writes]; cbn [server_step]; [apply accept_keeps|].
  unfold on_conn_ready. destruct (conns s !! fd); [|by apply keeps_routing].
  destruct hup; [apply close_conn_keeps|].
  apply (keeps_trans _ (match reads with Some (chunks, eof) => read_loop now fd chunks eof s | None => s end)).
  - destruct reads as [[chunks eof]|]; [apply read_loop_keeps|by apply keeps_routing].
  - destruct writes; [apply write_loop_keeps|by apply keeps_routing].
Qed.

Lemma server_run_keeps es s : keeps s (server_run es s).
Proof.
  revert s. induction es as [|e es IH]; intros s; [by apply keeps_routing|].
  change (server_run (e :: es) s) with (server_run es (server_step e s)).
  eapply keeps_trans; [apply server_step_keeps|apply IH].
Qed.

(** ** Start *)

Lemma store_pending (st : Store) : exists pd : gmap bytes (list bytes), forall u, pd !!! u = store_queue u st.
Proof.
  assert (exists pd : gmap bytes (list bytes), forall u,
    pd !!! u = envelope <$> filter (fun r => recipient_pub r = u) (srv_offline st)) as [pd Hpd].
  { induction (srv_offline st) as [|r rows [pd IH]]; [by exists ∅|].
    exists (<[recipient_pub r := envelope r :: pd !!! recipient_pub r]> pd). intros u. rewrite filter_cons.
    case_decide as E.
    - rewrite <- E, lookup_total_insert_eq, IH. by rewrite E.
    - by rewrite lookup_total_insert_ne, IH. }
  exists (delete [] pd). intros u. unfold store_queue, rows_of, binds_null. case_bool_decide as E.
  - subst u. by rewrite lookup_total_delete_eq.
  - by rewrite lookup_total_delete_ne, Hpd.
Qed.

Definition start_store_ok (st : option Store) : Prop :=
  match st with Some db => store_wf db | None => True end.

Lemma new_server_inv st (l : L) : start_store_ok st -> exists sp, server_inv (new_server st l) sp.
Proof.
  intros Hst.
  assert (exists pd, queue_sim Relay.new_relay st pd) as [pd Hpd].
  { destruct st as [db|]; [|by exists ∅]. destruct (store_pending db) as [pd Hp].
    exists pd. split; [done|]. intros u. by rewrite Hp. }
  exists (mkSpec ∅ ∅ ∅ pd). split; try done.
  destruct (relay_sim_init None (or_introl eq_refl)) as [Hr Hb Hch Hrm _]. split; done.
Qed.

(** The state after any events from a start. *)
Definition reachable s : Prop :=
  exists st l es, start_store_ok st /\ s = server_run es (new_server st l).

Lemma reachable_inv s : reachable s -> exists sp, server_inv s sp.
Proof.
  intros (st & l & es & Hst & ->). destruct (new_server_inv st l Hst) as [sp Hinv].
  by apply (server_run_keeps es _ sp).
Qed.

End inv.

#[export] Hint Resolve enqueue_write_routing close_after_routing broadcast_routing with_limiter_routing
  next_draw_routing set_write_buf_id write_frame_id set_wants_close_id set_uplink_id set_input_id
  on_conn_routing : finbit.
