(* ===== verification/RelayServerTheorems.v ===== *)
(** * The relay server: theorems

    What a reachable server guarantees: routes lead to the authenticated owner,
    a direct message is written to the recipient's connection or queued for it,
    a queue is handed over in order at the next authentication, channel messages
    reach each subscriber once, and unauthenticated peers change nothing. *)
From S2P Require Import Prelude StdMap Crypto ServerStore Relay Directory Username Wire.
From S2P Require Import FrameCodec WebSocket RelayServer RelayServerInv.
Import RelayServer.

(** Integer fields of a parsed envelope fit their declared widths; an envelope with a
    recipient is written with at least the tag of that field. *)
Class FrameLaws `{!ProtoMsg Frame, !ProtoMsg Envelope} := {
  frame_envelope_ok : forall b env, pb_parse b = Some (FEnvelope env) -> pb_ok env;
  addressed_nonempty : forall env r, recipient env = UserPubkey r -> pb_serialize env <> [];
}.

Section theorems.
Context `{!ProtoMsg Frame, !ProtoMsg Envelope, !ProtoMsg PreKeyBundle}.
Context `{!Ed25519, !Random, !HashOrder, !RateLimiter L, !WebSocket.Base64}.
Implicit Types (s : Server L) (c : Conn) (fd : Z).

(** What is queued for a user, in RAM or in the store. *)
Definition offline_queue (u : bytes) s : list bytes :=
  match store s with
  | Some st => store_queue u st
  | None => Relay.offline_ (relay s) !!! u
  end.

Lemma offline_queue_spec u s sp :
  server_inv s sp -> offline_queue u s = visible (bool_decide (is_Some (store s))) (pending sp !!! u).
Proof.
  intros [[_ _ _ _ Hq] _ _ _ _ _]. unfold offline_queue, queue_sim in *. cbn in Hq.
  destruct (store s); [apply Hq|apply Hq].
Qed.

Lemma route_spec s sp u : server_inv s sp -> Relay.user_to_fd_ (relay s) !! u = route sp !! u.
Proof. intros [[Hr _ _ _ _] _ _ _ _ _]. cbn in Hr. by rewrite Hr. Qed.

(** C28: In every reachable state of the server, whatever bytes the network
    delivered: a user's route leads to a live connection that is bound to that
    user's 32-byte key and for which an Ed25519 signature by that key over the
    connection's own challenge verified; no connection serves two users; channel
    subscribers and room members are live authenticated connections, listed
    once; and a user who has a route has nothing waiting in the offline queue. *)
Theorem server_routes_authenticated s (Hreach : reachable s) :
  (forall u fd, Relay.user_to_fd_ (relay s) !! u = Some fd ->
     Relay.fd_to_user_ (relay s) !! fd = Some u /\ offline_queue u s = [] /\
     exists c sig, conns s !! fd = Some c /\ authenticated c = true /\ bound_user_pub c = u /\
       length u = 32%nat /\ verify_detached u (challenge c) sig = true) /\
  (forall k fd, fd ∈ Relay.channel_subscribers k (relay s) \/ fd ∈ Relay.room_member_fds k (relay s) ->
     exists c, conns s !! fd = Some c /\ authenticated c = true) /\
  (forall k, NoDup (Relay.channel_subscribers k (relay s)) /\ NoDup (Relay.room_member_fds k (relay s))).
Proof.
  destruct (reachable_inv s Hreach) as [sp Hinv].
  pose proof Hinv as [[Hr Hb [Hck Hcp] [Hmk Hmp] _] Hc Hrt Hch Hrm Hq]. cbn in *. split_and!.
  - intros u fd Hu. rewrite Hr in Hu. split; [by apply Hb|]. split.
    + rewrite (offline_queue_spec u s sp Hinv), (Hq u fd Hu). by destruct (bool_decide _).
    + destruct (Hrt u fd Hu) as (c & Ec & Ha & Hbu). destruct (Hc fd c Ec) as [_ Hok].
      unfold conn_ok in Hok. rewrite Ha, Hbu in Hok. destruct Hok as (_ & Hl & sig & Hv).
      exists c, sig. done.
  - intros k fd [Hk|Hk]; [apply Hcp in Hk; by apply (Hch fd k)|apply Hmp in Hk; by apply (Hrm fd k)].
  - intros k. split; apply Relay.sets_ok_total, Relay.ok_members; done.
Qed.

(** ** Direct messages *)

Lemma stamp_spec c env :
  (sender_pubkey (stamp c env) = [] \/ sender_pubkey (stamp c env) = bound_user_pub c \/ bound_user_pub c = []) /\
  ciphertext (stamp c env) = ciphertext env /\ recipient (stamp c env) = recipient env.
Proof.
  unfold stamp. destruct (decide (bound_user_pub c = [])) as [Eb|Eb].
  - rewrite bool_decide_true by done. cbn. auto.
  - rewrite bool_decide_false by done. case_bool_decide; cbn; destruct env; auto.
Qed.

Lemma conn_bound_nonempty s sp fd c :
  server_inv s sp -> conns s !! fd = Some c -> authenticated c = true -> bound_user_pub c <> [].
Proof.
  intros Hinv Ec Ha. destruct (inv_conn _ _ Hinv fd c Ec) as [_ Hok]. unfold conn_ok in Hok.
  rewrite Ha in Hok. destruct Hok as (_ & Hl & _). intros E. by rewrite E in Hl.
Qed.

Lemma charge_admitted c env s l :
  bound_user_pub c <> [] ->
  try_consume (bound_user_pub c) (Z.of_nat (length (ciphertext env))) (limiter s) = (true, l) ->
  charge c env s = (true, with_limiter l s).
Proof. intros Hne E. unfold charge. by rewrite bool_decide_false, E. Qed.

Lemma handle_frame_envelope now fd bs s c env :
  conns s !! fd = Some c -> authenticated c = true -> pb_parse bs = Some (FEnvelope env) ->
  handle_frame now fd bs s = handle_envelope now fd c env s.
Proof. intros Ec Ha Ep. unfold handle_frame. by rewrite Ec, Ep, Ha. Qed.

Lemma handle_user_envelope_admitted now fd c env r l s sp :
  server_inv s sp -> bound_user_pub c <> [] -> recipient env = UserPubkey r ->
  try_consume (bound_user_pub c) (Z.of_nat (length (ciphertext env))) (limiter s) = (true, l) ->
  handle_envelope now fd c env s =
    match route sp !! r with
    | Some dst => enqueue_write dst (serialize (FEnvelope (stamp c env))) (with_limiter l s)
    | None =>
        match Relay.enqueue_offline now r (pb_serialize (stamp c env)) (relay s) (store s) with
        | Ok (rl, st) => with_queue rl st (with_limiter l s)
        | Throw _ => end_process (with_limiter l s)
        end
    end.
Proof.
  intros Hinv Hb Hr Hl. unfold handle_envelope, handle_user_envelope. rewrite Hr.
  rewrite (charge_admitted c env s l Hb Hl). cbn [negb relay with_limiter store].
  pose proof (lookup_user_route r s sp Hinv) as Hlk.
  destruct (route sp !! r) as [dst|]; [destruct Hlk as [-> Hle]|rewrite Hlk].
  - by rewrite (proj2 (Z.leb_le 0 dst)).
  - by cbn [Z.leb Z.compare].
Qed.

(** [alter] at a key that is present. *)
Lemma alter_insert_eq `{Countable K} {A} (f : A -> A) (m : gmap K A) k x :
  m !! k = Some x -> alter f k m = <[k := f x]> m.
Proof.
  intros E. apply map_eq. intros k'. destruct (decide (k' = k)) as [->|Hk].
  - by rewrite lookup_alter_eq, lookup_insert_eq, E.
  - by rewrite lookup_alter_ne, lookup_insert_ne.
Qed.

Lemma last_n_idem {A} n (q : list A) : last_n n (last_n n q) = last_n n q.
Proof.
  unfold last_n. rewrite length_drop.
  replace (length q - (length q - n) - n)%nat with 0%nat by lia. done.
Qed.

Lemma offline_queue_enqueue now r x l s sp rl st u :
  server_inv s sp -> Relay.enqueue_offline now r x (relay s) (store s) = Ok (rl, st) ->
  offline_queue u (with_queue rl st (with_limiter l s)) =
    if decide (u = r)
    then let q := offline_queue r s ++ [x] in
         match store s with Some _ => q | None => last_n Relay.kMaxQueued q end
    else offline_queue u s.
Proof.
  intros Hinv. unfold offline_queue. destruct (store s) as [db|] eqn:Est; cbn [Relay.enqueue_offline].
  - destruct (srv_offline_enqueue db r x now) as [db'|] eqn:E; [|done]. cbn [rbind]. intros [= <- <-].
    cbn [store with_queue]. rewrite (store_queue_enqueue _ _ _ _ _ u E). case_decide as Eu; [subst; by rewrite decide_True|].
    by rewrite decide_False, app_nil_r.
  - intros [= <- <-]. cbn [store with_queue]. destruct (inv_relay _ _ Hinv) as [_ _ _ _ Hq]. cbn in Hq. rewrite Est in Hq. cbn in Hq.
    cbn [relay with_queue Relay.with_offline Relay.offline_]. case_decide as E.
    + subst u. rewrite lookup_total_insert_eq, last_n_snoc by (unfold Relay.kMaxQueued; lia).
      by rewrite !Hq, last_n_idem.
    + by rewrite lookup_total_insert_ne.
Qed.

(** The store has no row for it: the recipient or the message is empty. *)
Definition unstorable (r x : bytes) s : bool := bool_decide (is_Some (store s)) && bool_decide (r = [] \/ x = []).

Lemma enqueue_offline_result now r x s sp :
  server_inv s sp ->
  if unstorable r x s then Relay.enqueue_offline now r x (relay s) (store s) = Throw ConstraintFailed
  else exists rl st, Relay.enqueue_offline now r x (relay s) (store s) = Ok (rl, st) /\
         bool_decide (is_Some st) = bool_decide (is_Some (store s)).
Proof.
  intros Hinv. pose proof (enqueue_sim now r x (relay s) (store s) _ (sim_queue _ _ (inv_relay _ _ Hinv))) as He.
  unfold unstorable. destruct (Relay.enqueue_offline _ _ _ _ _) as [[rl st]|e].
  - destruct He as (-> & _ & _ & _ & _ & _ & ?). eauto.
  - by destruct He as [-> ->].
Qed.

(** C29: A direct message an authenticated connection sends and the limiter
    admits goes to its recipient and nowhere else.  If the recipient has a
    connection, the only change to any connection is one frame appended to the
    output of the connection authenticated as the recipient; otherwise no
    connection changes and the message is appended to the recipient's queue
    (which keeps the newest 1024 without a store, everything with one), no other
    queue changing.  The exception: with a store, a message for the empty key (or one
    that serialises to nothing) violates NOT NULL, and the exception ends the server
    with the database as it was.  The frame carries the sender's ciphertext, and as sender
    either nothing or the key the sending connection authenticated with. *)
Theorem direct_message_delivery s fd c now (bs : bytes) env r l (Hreach : reachable s)
    (Hc : conns s !! fd = Some c) (Hauth : authenticated c = true)
    (Hparse : pb_parse bs = Some (FEnvelope env)) (Hrcpt : recipient env = UserPubkey r)
    (Hadmit : try_consume (bound_user_pub c) (Z.of_nat (length (ciphertext env))) (limiter s) = (true, l)) :
  let s' := handle_frame now fd bs s in
  let fwd := stamp c env in
  (sender_pubkey fwd = [] \/ sender_pubkey fwd = bound_user_pub c) /\ ciphertext fwd = ciphertext env /\
  match Relay.user_to_fd_ (relay s) !! r with
  | Some dst => exists cd, conns s !! dst = Some cd /\ authenticated cd = true /\ bound_user_pub cd = r /\
      conns s' = <[dst := write_frame (serialize (FEnvelope fwd)) cd]> (conns s) /\
      relay s' = relay s /\ store s' = store s
  | None =>
      if unstorable r (pb_serialize fwd) s then ended s' = true /\ conns s' = ∅ /\ store s' = store s
      else ended s' = ended s /\ conns s' = conns s /\
        forall u, offline_queue u s' =
          if decide (u = r)
          then let q := offline_queue r s ++ [pb_serialize fwd] in
               match store s with Some _ => q | None => last_n Relay.kMaxQueued q end
          else offline_queue u s
  end.
Proof.
  cbv zeta. destruct (reachable_inv s Hreach) as [sp Hinv].
  pose proof (conn_bound_nonempty _ _ _ _ Hinv Hc Hauth) as Hne.
  rewrite (handle_frame_envelope now fd bs s c env Hc Hauth Hparse).
  rewrite (handle_user_envelope_admitted now fd c env r l s sp Hinv Hne Hrcpt Hadmit).
  destruct (stamp_spec c env) as (Hs & Hct & _).
  split; [naive_solver|]. split; [done|]. rewrite (route_spec s sp r Hinv).
  destruct (route sp !! r) as [dst|] eqn:Er.
  - destruct (inv_route _ _ Hinv r dst Er) as (cd & Ecd & Hacd & Hbcd). exists cd. split_and!; try done.
    cbn [conns enqueue_write on_conn with_conns with_limiter]. by apply alter_insert_eq.
  - pose proof (enqueue_offline_result now r (pb_serialize (stamp c env)) s sp Hinv) as He.
    destruct (unstorable r _ s); [by rewrite He|]. destruct He as (rl & st & E & _). rewrite E.
    split_and!; [done..|]. intros u. by apply (offline_queue_enqueue now r _ l s sp).
Qed.

(** ** Store and forward *)

Definition handle_frames (sends : list (Z * Z * bytes)) s : Server L :=
  foldl (fun s p => handle_frame p.1.1 p.1.2 p.2 s) s sends.

(** Frames [(now, fd, bytes)] that authenticated connections send to [r] one
    after the other and the limiter admits; [envs] are the stamped envelopes. *)
Fixpoint sends_to (r : bytes) s (sends : list (Z * Z * bytes)) (envs : list Envelope) : Prop :=
  match sends with
  | [] => envs = []
  | (now, fd, bs) :: sends' =>
      exists c env l envs', conns s !! fd = Some c /\ authenticated c = true /\
        pb_parse bs = Some (FEnvelope env) /\ recipient env = UserPubkey r /\
        try_consume (bound_user_pub c) (Z.of_nat (length (ciphertext env))) (limiter s) = (true, l) /\
        envs = stamp c env :: envs' /\ sends_to r (handle_frame now fd bs s) sends' envs'
  end.

Lemma stamp_ok c env : pb_ok env -> pb_ok (stamp c env).
Proof. unfold stamp. destruct (_ && _); [apply set_sender_ok|done]. Qed.

Lemma sends_to_queue `{!FrameLaws} r sends s envs sp :
  r <> [] -> server_inv s sp -> route sp !! r = None -> sends_to r s sends envs ->
  let s' := handle_frames sends s in
  Forall pb_ok envs /\ conns s' = conns s /\ dir s' = dir s /\
  bool_decide (is_Some (store s')) = bool_decide (is_Some (store s)) /\
  exists sp', server_inv s' sp' /\ route sp' !! r = None /\
    pending sp' !!! r = pending sp !!! r ++ (pb_serialize <$> envs).
Proof.
  intros Hrne. revert s envs sp. induction sends as [|[[now fd] bs] sends IH]; intros s envs sp Hinv Hr Hs.
  - cbn [sends_to] in Hs. subst envs. cbv zeta. split_and!; [constructor|done..|].
    exists sp. by rewrite app_nil_r.
  - destruct Hs as (c & env & l & envs' & Ec & Ha & Ep & Hrc & Hl & -> & Hs).
    pose proof (conn_bound_nonempty _ _ _ _ Hinv Ec Ha) as Hne.
    cbn [handle_frames foldl fst snd] in *. fold (handle_frames sends).
    rewrite (handle_frame_envelope now fd bs s c env Ec Ha Ep) in *.
    rewrite (handle_user_envelope_admitted now fd c env r l s sp Hinv Hne Hrc Hl), Hr in *.
    pose proof (enqueue_offline_result now r (pb_serialize (stamp c env)) s sp Hinv) as He.
    assert (unstorable r (pb_serialize (stamp c env)) s = false) as Hstor.
    { unfold unstorable. rewrite (bool_decide_false (_ \/ _)); [by rewrite andb_false_r|].
      intros [?|Hz]; [done|]. revert Hz. apply (addressed_nonempty _ r). by rewrite (proj2 (proj2 (stamp_spec c env))). }
    rewrite Hstor in He. destruct He as (rl & st & E & Est). rewrite E in *.
    pose proof (enqueue_offline_inv now r (pb_serialize (stamp c env)) (with_limiter l s) sp rl st
      (same_routing_inv _ _ _ (with_limiter_routing l s) Hinv) Hr E) as Hinv1.
    destruct (IH _ _ _ Hinv1 Hr Hs) as (Hok & Hcs & Hd & Hst & sp' & Hinv' & Hr' & Hp').
    split_and!; try done.
    + constructor; [|done]. by eapply stamp_ok, frame_envelope_ok.
    + etransitivity; [exact Hst|exact Est].
    + exists sp'. split_and!; try done. rewrite Hp'. cbn [pending]. rewrite lookup_total_insert_eq.
      cbn [fmap list_fmap]. by rewrite <- app_assoc.
Qed.

Lemma deliver_all `{!ProtoLaws Envelope} fd envs s c :
  Forall pb_ok envs -> conns s !! fd = Some c ->
  let s' := foldl (deliver_queued fd) s (pb_serialize <$> envs) in
  conns s' !! fd = Some (set_write_buf
    (write_buf c ++ mjoin ((fun e => frame_out (transport c) (serialize (FEnvelope e))) <$> envs)) c) /\
  relay s' = relay s /\ store s' = store s.
Proof.
  revert s c. induction envs as [|e envs IH]; intros s c Hok Ec.
  - cbn. rewrite app_nil_r. by destruct c.
  - apply Forall_cons in Hok as [He Hok]. cbn [fmap list_fmap foldl].
    assert (deliver_queued fd s (pb_serialize e) = enqueue_write fd (serialize (FEnvelope e)) s) as ->.
    { unfold deliver_queued. by rewrite pb_parse_serialize. }
    destruct (IH (enqueue_write fd (serialize (FEnvelope e)) s) (write_frame (serialize (FEnvelope e)) c) Hok)
      as (H1' & H2' & H3').
    { cbn. by rewrite lookup_alter_eq, Ec. }
    cbn [mjoin list_join]. split_and!; [|done..]. etransitivity; [exact H1'|].
    f_equal. destruct c. cbn. by rewrite <- app_assoc.
Qed.

Lemma fmap_last_n {A B} (f : A -> B) n l : last_n n (f <$> l) = f <$> last_n n l.
Proof. unfold last_n. by rewrite length_fmap, fmap_drop. Qed.

Lemma last_n_nil {A} n (l : list A) : (0 < n)%nat -> last_n n l = [] -> l = [].
Proof.
  intros Hn E. apply (f_equal length) in E. unfold last_n in E. rewrite length_drop in E. cbn in E.
  destruct l; [done|]. cbn in E. lia.
Qed.

Definition held (persistent : bool) (envs : list Envelope) : list Envelope :=
  if persistent then envs else last_n Relay.kMaxQueued envs.

Lemma finish_auth_delivers `{!ProtoLaws Envelope} fd c s sp envs :
  server_inv s sp -> conns s !! fd = Some c -> length (claimed_user_pub c) = 32%nat ->
  (exists sig, verify_detached (claimed_user_pub c) (challenge c) sig = true) ->
  pending sp !!! claimed_user_pub c = pb_serialize <$> envs -> Forall pb_ok envs ->
  let u := claimed_user_pub c in
  let s' := finish_auth fd u s in
  exists c', conns s' !! fd = Some c' /\ authenticated c' = true /\ bound_user_pub c' = u /\
    Relay.user_to_fd_ (relay s') !! u = Some fd /\ offline_queue u s' = [] /\
    write_buf c' = write_buf c ++
      mjoin ((fun e => frame_out (transport c) (serialize (FEnvelope e))) <$>
             held (bool_decide (is_Some (store s))) envs).
Proof.
  intros Hinv Ec Hlen Hsig Hp Hok u s'.
  destruct (bound_state_inv fd c s sp Hinv Ec Hlen Hsig) as (Hq & Hb & Hcs). fold u in Hq, Hb, Hcs, Hp.
  unfold s'. rewrite finish_auth_eq, Hq, Hp.
  assert (visible (bool_decide (is_Some (store s))) (pb_serialize <$> envs)
          = pb_serialize <$> held (bool_decide (is_Some (store s))) envs) as ->.
  { unfold visible, held. destruct (bool_decide _); [done|apply fmap_last_n]. }
  assert (Forall pb_ok (held (bool_decide (is_Some (store s))) envs)) as Hok'.
  { unfold held. destruct (bool_decide _); [done|]. by apply Forall_drop. }
  destruct (deliver_all fd _ (bound_state fd u s).2 (set_bound c) Hok') as (E1 & E2 & E3).
  { by rewrite Hcs, lookup_alter_eq, Ec. }
  eexists. split; [exact E1|].
  split_and!; [clear; by destruct c|unfold u; clear; by destruct c| | |clear; by destruct c].
  - rewrite E2, (route_spec _ _ u Hb). cbn [route]. by rewrite lookup_insert_eq.
  - assert (forall q, q = (bound_state fd u s).2 -> offline_queue u q = []) as Hnone.
    { intros q ->. rewrite (offline_queue_spec u _ _ Hb). cbn [pending].
      rewrite lookup_total_delete_eq. generalize (bool_decide (is_Some (store (bound_state fd u s).2))).
      by intros []. }
    unfold offline_queue in *. rewrite E2, E3. by apply Hnone.
Qed.

(** C30: Store and forward.  Messages sent to a user without a connection, by
    authenticated senders within their rate, are written to the connection on
    which the user next completes the challenge-response, each once, in the
    order sent (the newest 1024 without a store, all of them with one), after
    what that connection already had to send; the queue is then empty and the
    user is routed to that connection. *)
Theorem offline_messages_delivered `{!ProtoLaws Envelope, !FrameLaws} s r sends envs fd c now (ack sig : bytes)
    (Hreach : reachable s) (Hoff : Relay.user_to_fd_ (relay s) !! r = None) (Hempty : offline_queue r s = [])
    (Hsends : sends_to r s sends envs)
    (Hc : conns s !! fd = Some c) (Hissued : challenge_issued c = true)
    (Hclaim : claimed_user_pub c = r) (Hlen : length r = 32%nat)
    (Hname : claimed_username c = [] \/
             (Directory.register_user (claimed_username c) r (dir s) (store s)).1.1 = true)
    (Hparse : pb_parse ack = Some (FHelloAck sig)) (Hsig : length sig = 64%nat)
    (Hverify : verify_detached r (challenge c) sig = true) :
  let s' := handle_frame now fd ack (handle_frames sends s) in
  exists c', conns s' !! fd = Some c' /\ authenticated c' = true /\ bound_user_pub c' = r /\
    Relay.user_to_fd_ (relay s') !! r = Some fd /\ offline_queue r s' = [] /\
    write_buf c' = write_buf c ++
      mjoin ((fun e => frame_out (transport c) (serialize (FEnvelope e))) <$>
             held (bool_decide (is_Some (store s))) envs).
Proof.
  destruct (reachable_inv s Hreach) as [sp Hinv]. rewrite (route_spec s sp r Hinv) in Hoff.
  rewrite (offline_queue_spec r s sp Hinv) in Hempty.
  assert (pending sp !!! r = []) as Hp0.
  { unfold visible in Hempty. destruct (bool_decide _); [done|].
    apply last_n_nil in Hempty; [done|unfold Relay.kMaxQueued; lia]. }
  assert (r <> []) as Hrne by (by intros ->).
  destruct (sends_to_queue r sends s envs sp Hrne Hinv Hoff Hsends) as (Hok & Hcs & Hd & Hst & sp' & Hinv' & _ & Hp).
  rewrite Hp0, app_nil_l in Hp. set (s1 := handle_frames sends s) in *. cbv zeta. rewrite <- Hst.
  assert (conns s1 !! fd = Some c) as Hc1 by (by rewrite Hcs).
  assert (forall s2, same_routing s1 s2 -> conns s2 = conns s1 ->
    bool_decide (is_Some (store s2)) = bool_decide (is_Some (store s1)) ->
    let s' := finish_auth fd r s2 in
    exists c', conns s' !! fd = Some c' /\ authenticated c' = true /\ bound_user_pub c' = r /\
      Relay.user_to_fd_ (relay s') !! r = Some fd /\ offline_queue r s' = [] /\
      write_buf c' = write_buf c ++
        mjoin ((fun e => frame_out (transport c) (serialize (FEnvelope e))) <$>
               held (bool_decide (is_Some (store s1))) envs)) as Hfin.
  { intros s2 Hsr E2 Es2. subst r. rewrite <- Es2. eapply (finish_auth_delivers fd c s2 sp'); try done.
    - by eapply same_routing_inv.
    - by rewrite E2.
    - by eexists. }
  unfold handle_frame. rewrite Hc1, Hparse. cbn [pre_auth_ok negb]. rewrite andb_false_r.
  unfold handle_hello_ack. rewrite Hissued, Hclaim, Hlen, Hsig, Hverify. cbn [negb orb Nat.eqb].
  destruct (claimed_username c) as [|b n] eqn:En; [by apply Hfin|].
  destruct Hname as [Hname|Hname]; [done|].
  pose proof (register_routing (b :: n) r s1) as Hreg.
  assert ((Directory.register_user (b :: n) r (dir s1) (store s1)).1.1 = true) as Hok1.
  { rewrite Hd. unfold Directory.register_user in *. by destruct (Directory.name_to_pub_ (dir s) !! (b :: n)). }
  destruct (Directory.register_user (b :: n) r (dir s1) (store s1)) as [[ok d] st]. cbn in Hok1. subst ok.
  apply Hfin; [done|done|]. destruct Hreg as [_ Hq _]. cbn in Hq |- *.
  destruct (store s1), st; done.
Qed.

(** ** Unauthenticated connections *)

Lemma on_conn_other fd fd' f s : fd' <> fd -> conns (on_conn fd f s) !! fd' = conns s !! fd'.
Proof. intros Hne. cbn. by rewrite lookup_alter_ne. Qed.

(** Only the connection's own entry (and the random draws) differ, and it stays
    unauthenticated. *)
Definition own_change fd s s' : Prop :=
  relay s' = relay s /\ dir s' = dir s /\ store s' = store s /\ limiter s' = limiter s /\
  (forall fd', fd' <> fd -> conns s' !! fd' = conns s !! fd') /\
  (forall c', conns s' !! fd = Some c' -> authenticated c' = false).

Lemma own_change_conn fd f s c :
  conns s !! fd = Some c -> authenticated (f c) = false -> own_change fd s (on_conn fd f s).
Proof.
  intros Ec Ha. split_and!; try done.
  - intros fd' Hne. by apply on_conn_other.
  - intros c'. cbn. rewrite lookup_alter_eq, Ec. by intros [= <-].
Qed.

Lemma own_change_trans fd s1 s2 s3 : own_change fd s1 s2 -> own_change fd s2 s3 -> own_change fd s1 s3.
Proof.
  intros (? & ? & ? & ? & Ho & _) (? & ? & ? & ? & Ho' & Ha). split_and!; try congruence; [|done].
  intros fd' Hne. by rewrite Ho', Ho.
Qed.

Lemma own_change_then fd f s1 s2 :
  own_change fd s1 s2 -> is_Some (conns s2 !! fd) ->
  (forall c, authenticated c = false -> authenticated (f c) = false) ->
  own_change fd s1 (on_conn fd f s2).
Proof.
  intros Hch [c2 Ec2] Hf. eapply own_change_trans; [exact Hch|].
  eapply own_change_conn; [exact Ec2|]. apply Hf. destruct Hch as (_ & _ & _ & _ & _ & Ha). by apply Ha.
Qed.

Lemma own_change_refl fd s c : conns s !! fd = Some c -> authenticated c = false -> own_change fd s s.
Proof. intros Ec Ha. split_and!; try done. intros c' Ec'. congruence. Qed.

Lemma is_Some_on_conn fd f s : is_Some (conns s !! fd) -> is_Some (conns (on_conn fd f s) !! fd).
Proof. intros [c Ec]. cbn. rewrite lookup_alter_eq, Ec. by eexists. Qed.

(** C31: A connection that has not authenticated cannot influence anyone.
    Whatever bytes it sends, short of a HelloAck whose signature verifies for
    the key it claimed, handling the frame leaves the routing tables, the
    directory, the store, the rate limiter and every other connection exactly
    as they were, and the connection unauthenticated. *)
Theorem pre_auth_isolated s fd c now (bs : bytes)
    (Hc : conns s !! fd = Some c) (Hauth : authenticated c = false)
    (Hsig : forall sig, pb_parse bs = Some (FHelloAck sig) ->
                        verify_detached (claimed_user_pub c) (challenge c) sig = false) :
  let s' := handle_frame now fd bs s in
  relay s' = relay s /\ dir s' = dir s /\ store s' = store s /\ limiter s' = limiter s /\
  (forall fd', fd' <> fd -> conns s' !! fd' = conns s !! fd') /\
  (forall c', conns s' !! fd = Some c' -> authenticated c' = false).
Proof.
  cbv zeta. change (own_change fd s (handle_frame now fd bs s)).
  assert (forall c0 : Conn, authenticated (set_wants_close c0) = authenticated c0) as Hwc by (by intros []).
  assert (forall p (c0 : Conn), authenticated (write_frame p c0) = authenticated c0) as Hwf by (by intros p []).
  assert (own_change fd s (close_after fd s)) as Hclose by (eapply own_change_conn; [done|by rewrite Hwc]).
  unfold handle_frame. rewrite Hc. destruct (pb_parse bs) as [f|] eqn:Ep; [|done]. rewrite Hauth.
  destruct f; cbn [pre_auth_ok negb andb]; try (by eapply own_change_refl).
  - unfold handle_hello. rewrite Hauth. cbn [orb]. case_bool_decide; cbn [negb]; [|done].
    assert (forall s1 ok detail ch, own_change fd s s1 -> is_Some (conns s1 !! fd) ->
      own_change fd s (send_server_hello fd ok detail ch s1)) as Hsend.
    { intros. apply own_change_then; [done..|]. intros. by rewrite Hwf. }
    assert (forall s1, own_change fd s s1 -> is_Some (conns s1 !! fd) ->
      own_change fd s (close_after fd s1)) as Hca.
    { intros. apply own_change_then; [done..|]. intros. by rewrite Hwc. }
    assert (own_change fd s s) as Hrefl by (by eapply own_change_refl).
    destruct (negb _); [apply Hca; [apply Hsend|apply is_Some_on_conn]; by eauto|].
    assert (own_change fd s (on_conn fd (set_claimed_pub (hello_identity_pubkey h)) s)) as Hclaim.
    { eapply own_change_conn; [done|]. by destruct c. }
    assert (is_Some (conns (on_conn fd (set_claimed_pub (hello_identity_pubkey h)) s) !! fd)) as Hsome
      by (apply is_Some_on_conn; by eauto).
    destruct (negb _ && negb _); [apply Hca; [by apply Hsend|by apply is_Some_on_conn]|].
    apply Hsend; [|by apply is_Some_on_conn]. apply own_change_then; [done|done|]. by intros [].
  - unfold handle_hello_ack. destruct (negb _ || _); [done|]. destruct (negb _); [done|].
    rewrite Hsig by done. done.
Qed.

(** ** Channel messages *)

Lemma fanout_lookup (bs : bytes) fd subs s fd' :
  NoDup subs ->
  conns (foldl (fun s sfd => if sfd =? fd then s else enqueue_write sfd bs s) s subs) !! fd' =
    if decide (fd' ∈ subs /\ fd' <> fd) then write_frame bs <$> conns s !! fd' else conns s !! fd'.
Proof.
  revert s. induction subs as [|sfd subs IH]; intros s Hnd; cbn [foldl].
  - rewrite decide_False; [done|]. by intros [?%not_elem_of_nil _].
  - apply NoDup_cons in Hnd as [Hni Hnd]. rewrite IH by done.
    destruct (Z.eqb_spec sfd fd) as [->|Hsf].
    + apply decide_ext. set_solver.
    + destruct (decide (fd' = sfd)) as [->|Hne].
      * rewrite decide_False by naive_solver. rewrite decide_True by set_solver.
        cbn. by rewrite lookup_alter_eq.
      * unfold enqueue_write. rewrite (on_conn_other sfd fd') by done. apply decide_ext. set_solver.
Qed.

(** C32: A channel message from an authenticated connection, within its rate, is
    appended exactly once to the output of every current subscriber of the
    channel except the sender, and changes no other connection. *)
Theorem channel_message_fanout s fd c now (bs : bytes) env gid l (Hreach : reachable s)
    (Hc : conns s !! fd = Some c) (Hauth : authenticated c = true)
    (Hparse : pb_parse bs = Some (FEnvelope env)) (Hrcpt : recipient env = ChannelGroupId gid)
    (Hlen : length gid = 32%nat)
    (Hadmit : try_consume (bound_user_pub c) (Z.of_nat (length (ciphertext env))) (limiter s) = (true, l)) :
  forall fd', conns (handle_frame now fd bs s) !! fd' =
    if decide (fd' ∈ Relay.channel_subscribers gid (relay s) /\ fd' <> fd)
    then write_frame (serialize (FEnvelope (stamp c env))) <$> conns s !! fd'
    else conns s !! fd'.
Proof.
  intros fd'. destruct (reachable_inv s Hreach) as [sp Hinv].
  pose proof (conn_bound_nonempty _ _ _ _ Hinv Hc Hauth) as Hne.
  rewrite (handle_frame_envelope now fd bs s c env Hc Hauth Hparse).
  unfold handle_envelope, handle_channel_envelope. rewrite Hrcpt, (charge_admitted c env s l Hne Hadmit), Hlen.
  cbn [negb Nat.eqb]. rewrite fanout_lookup; [done|]. cbn [relay with_limiter].
  apply Relay.sets_ok_total, Relay.ok_members. by destruct (inv_relay _ _ Hinv) as [_ _ [? _] _ _].
Qed.

End theorems.

(** ** The relay server: the read loops end, and a finding about names

    [handle_frame] never touches a connection's decoders, so every turn of a
    drain loop shortens the input buffer and the fuel of the model is enough. *)
From S2P Require Import Prelude StdMap Crypto ServerStore Relay Directory Username Wire.
From S2P Require Import FrameCodec StreamParser WebSocket WebSocketProofs RelayServer.
Import RelayServer.

Section loops.
Context `{!ProtoMsg Frame, !ProtoMsg Envelope, !ProtoMsg PreKeyBundle}.
Context `{!Ed25519, !Random, !HashOrder, !RateLimiter L, !WebSocket.Base64}.
Implicit Types (s : Server L) (c : Conn) (fd : Z).

Definition input_of c := (transport c, dec c, ws_handshake c, ws_parser c, ws_upgraded c).

(** The same connections with the same decoders. *)
Definition same_input s s' : Prop := forall fd, input_of <$> conns s' !! fd = input_of <$> conns s !! fd.

#[local] Instance same_input_preorder : PreOrder same_input.
Proof.
  split; [by intros s fd|]. intros s1 s2 s3 H12 H23 fd. by rewrite H23, H12.
Qed.

Lemma on_conn_input fd f s : (forall c, input_of (f c) = input_of c) -> same_input s (on_conn fd f s).
Proof.
  intros Hf fd'. cbn. destruct (decide (fd' = fd)) as [->|Hne].
  - rewrite lookup_alter_eq. destruct (conns s !! fd); [|done]. cbn. by rewrite Hf.
  - by rewrite lookup_alter_ne.
Qed.

(** Members other than the connections. *)
Lemma with_dir_input d st s : same_input s (with_dir d st s).
Proof. by intros fd. Qed.
Lemma with_relay_input r s : same_input s (with_relay r s).
Proof. by intros fd. Qed.
Lemma with_queue_input r st s : same_input s (with_queue r st s).
Proof. by intros fd. Qed.
Lemma next_draw_input s : same_input s (next_draw s).
Proof. by intros fd. Qed.

Ltac solve_input :=
  repeat first
    [ reflexivity
    | apply on_conn_input; intros []; reflexivity
    | match goal with
      | |- same_input _ (enqueue_write _ _ _) => etransitivity; [|apply on_conn_input; intros []; reflexivity]
      | |- same_input _ (send_server_hello _ _ _ _ _) => unfold send_server_hello
      | |- same_input _ (close_after _ _) => etransitivity; [|apply on_conn_input; intros []; reflexivity]
      | |- same_input _ (on_conn _ _ _) => etransitivity; [|apply on_conn_input; intros []; reflexivity]
      | |- same_input _ (with_dir _ _ _) => etransitivity; [|apply with_dir_input]
      | |- same_input _ (with_relay _ _) => etransitivity; [|apply with_relay_input]
      | |- same_input _ (with_queue _ _ _) => etransitivity; [|apply with_queue_input]
      | |- same_input _ (next_draw _) => etransitivity; [|apply next_draw_input]
      | |- same_input _ (match ?x with _ => _ end) => destruct x
      end ].

Lemma foldl_input {A} (f : Server L -> A -> Server L) (l : list A) s :
  (forall s a, same_input s (f s a)) -> same_input s (foldl f s l).
Proof.
  intros Hf. revert s. induction l as [|a l IH]; intros s; cbn [foldl]; [reflexivity|].
  etransitivity; [apply Hf|apply IH].
Qed.

Lemma broadcast_input rid s : same_input s (broadcast_room_roster rid s).
Proof.
  unfold broadcast_room_roster. destruct (Relay.room_member_fds _ _); [reflexivity|].
  apply foldl_input. intros. solve_input.
Qed.

Lemma finish_auth_input fd u s : same_input s (finish_auth fd u s).
Proof.
  unfold finish_auth. destruct (Relay.drain_offline _ _ _) as [[q r] st].
  etransitivity; [|apply foldl_input; intros; solve_input]. solve_input.
Qed.

Lemma charge_input c env s : same_input s (charge c env s).2.
Proof. unfold charge. case_bool_decide; [reflexivity|]. destruct (try_consume _ _ _). by intros ?. Qed.

(** The same decoders, or no connection is left. *)
Definition input_kept s s' : Prop := same_input s s' \/ conns s' = ∅.

Lemma handle_envelope_input now fd c env s : input_kept s (handle_envelope now fd c env s).
Proof.
  unfold handle_envelope, handle_user_envelope, handle_channel_envelope.
  pose proof (charge_input c env s) as Hch.
  destruct (recipient env); try (left; reflexivity);
    destruct (charge c env s) as [ok s1]; cbn in Hch;
    (destruct (negb ok); [left; etransitivity; [exact Hch|solve_input]|]).
  - destruct (0 <=? _); [left; etransitivity; [exact Hch|solve_input]|].
    destruct (Relay.enqueue_offline _ _ _ _ _) as [[rl st]|e]; [|by right].
    left. etransitivity; [exact Hch|solve_input].
  - left. etransitivity; [exact Hch|]. destruct (negb _); [reflexivity|]. apply foldl_input. intros. solve_input.
Qed.

Lemma handle_frame_input now fd bs s : input_kept s (handle_frame now fd bs s).
Proof.
  unfold handle_frame. destruct (conns s !! fd) as [c|]; [|left; reflexivity].
  destruct (pb_parse bs) as [f|]; [|left; solve_input]. destruct (_ && _); [left; reflexivity|].
  destruct f as [|env| | |h| |bundle|u rid| |claim| |gid|gid|sig|pk| |rid v a ul|rid| | | | |pe];
    try (left; reflexivity); [apply handle_envelope_input|left..].
  - unfold handle_hello. solve_input.
  - unfold handle_key_upload, Directory.put_bundle. solve_input.
  - unfold handle_key_fetch. solve_input.
  - unfold handle_register_req. solve_input.
  - unfold handle_chan_subscribe. solve_input.
  - unfold handle_chan_unsubscribe. solve_input.
  - unfold handle_hello_ack. destruct (_ || _); [solve_input|]. destruct (negb _); [solve_input|].
    destruct (negb _); [solve_input|]. destruct (claimed_username c); [apply finish_auth_input|].
    destruct (Directory.register_user _ _ _ _) as [[[] d] st]; [|solve_input].
    etransitivity; [|apply finish_auth_input]. solve_input.
  - unfold handle_username_lookup. solve_input.
  - unfold handle_room_join. destruct (negb _); [reflexivity|].
    etransitivity; [|apply broadcast_input]. solve_input.
  - unfold handle_room_leave. destruct (negb _); [reflexivity|].
    etransitivity; [|apply broadcast_input]. solve_input.
  - unfold handle_peer. destruct (negb _); [reflexivity|]. cbn [recipient_pubkey].
    destruct (recipient_pubkey pe); [|solve_input]. apply foldl_input. intros. solve_input.
Qed.

(** ** The drain loops *)

Lemma ws_try_pop_length p msg p' :
  WebSocket.try_pop p = (WebSocket.kFrameReady msg, p') ->
  (length (WebSocket.buf_ p') < length (WebSocket.buf_ p))%nat.
Proof.
  intros E. destruct (decide (WebSocket.error_ p = "")) as [He|He].
  - pose proof (try_pop_drain p He) as Hd. rewrite E in Hd. apply Hd.
  - unfold WebSocket.try_pop in E. by rewrite bool_decide_false in E.
Qed.

Lemma after_frame fd f now bs s c :
  conns s !! fd = Some c ->
  (exists c', conns (handle_frame now fd bs (on_conn fd f s)) !! fd = Some c' /\ input_of c' = input_of (f c)) \/
  conns (handle_frame now fd bs (on_conn fd f s)) = ∅.
Proof.
  intros Ec. destruct (handle_frame_input now fd bs (on_conn fd f s)) as [Hi|Hi]; [left; specialize (Hi fd)|by right].
  cbn [conns on_conn with_conns] in Hi. rewrite lookup_alter_eq, Ec in Hi. cbn in Hi.
  destruct (conns (handle_frame _ _ _ _) !! fd) as [c'|]; [|done]. exists c'. split; [done|]. by apply (inj Some).
Qed.

(** Nothing is drained for a connection that is gone. *)
Lemma drain_tcp_gone n now fd s : conns s !! fd = None -> drain_tcp n now fd s = s.
Proof. intros E. destruct n; cbn [drain_tcp]; [done|]. by rewrite E. Qed.
Lemma drain_ws_gone n now fd s : conns s !! fd = None -> drain_ws n now fd s = s.
Proof. intros E. destruct n; cbn [drain_ws]; [done|]. by rewrite E. Qed.

Lemma drain_tcp_fuel n m now fd s c :
  conns s !! fd = Some c -> (length (buf_ (dec c)) < n)%nat -> (n <= m)%nat ->
  drain_tcp m now fd s = drain_tcp n now fd s.
Proof.
  revert m s c. induction n as [|n IH]; intros m s c Ec Hn Hm; [lia|]. destruct m as [|m]; [lia|].
  cbn [drain_tcp]. rewrite Ec. destruct (try_pop (dec c)) as [[|frame|] d] eqn:Et; [done| |done].
  apply try_pop_length in Et.
  destruct (wants_close_of _ _); [done|].
  destruct (after_frame fd (set_input d (ws_handshake c) (ws_parser c) (ws_upgraded c)) now frame s c Ec)
    as [(c' & Ec' & Hi)|Hg]; [|by rewrite !drain_tcp_gone by (by rewrite Hg)]. eapply IH; [exact Ec'| |lia].
  assert (dec c' = d) as -> by (destruct c, c'; by injection Hi). lia.
Qed.

Lemma drain_ws_fuel n m now fd s c :
  conns s !! fd = Some c -> (length (WebSocket.buf_ (ws_parser c)) < n)%nat -> (n <= m)%nat ->
  drain_ws m now fd s = drain_ws n now fd s.
Proof.
  revert m s c. induction n as [|n IH]; intros m s c Ec Hn Hm; [lia|]. destruct m as [|m]; [lia|].
  cbn [drain_ws]. rewrite Ec. destruct (WebSocket.try_pop (ws_parser c)) as [[|msg| |] p] eqn:Et; [done| |done..].
  apply ws_try_pop_length in Et.
  destruct (wants_close_of _ _); [done|].
  destruct (after_frame fd (set_input (dec c) (ws_handshake c) p (ws_upgraded c)) now msg s c Ec)
    as [(c' & Ec' & Hi)|Hg]; [|by rewrite !drain_ws_gone by (by rewrite Hg)]. eapply IH; [exact Ec'| |lia].
  assert (ws_parser c' = p) as -> by (destruct c, c'; by injection Hi). lia.
Qed.

Lemma close_conn_gone fd s : conns (close_conn fd s) !! fd = None.
Proof.
  unfold close_conn. set (s1 := with_conns _ _).
  pose proof (foldl_input (fun s rid => broadcast_room_roster rid s)
    (Relay.room_member_rooms fd (relay s)) s1 (fun s rid => broadcast_input rid s) fd) as Hi.
  assert (conns s1 !! fd = None) as E by (cbn; apply lookup_delete_eq). rewrite E in Hi. cbn in Hi.
  by destruct (conns (foldl _ s1 _) !! fd).
Qed.

Lemma drain_tcp_drained n now fd s c :
  conns s !! fd = Some c -> (length (buf_ (dec c)) < n)%nat ->
  match conns (drain_tcp n now fd s) !! fd with
  | Some c' => (try_pop (dec c')).1 = kNeedMore
  | None => True
  end.
Proof.
  revert s c. induction n as [|n IH]; intros s c Ec Hn; [lia|]. cbn [drain_tcp]. rewrite Ec.
  destruct (try_pop (dec c)) as [[|frame|] d] eqn:Et.
  - cbn. rewrite lookup_alter_eq, Ec. cbn. pose proof Et as [-> _]%try_pop_need_more.
    destruct c. cbn in *. by rewrite Et.
  - apply try_pop_length in Et. destruct (wants_close_of _ _); [by rewrite close_conn_gone|].
    destruct (after_frame fd (set_input d (ws_handshake c) (ws_parser c) (ws_upgraded c)) now frame s c Ec)
      as [(c' & Ec' & Hi)|Hg]; [|by rewrite drain_tcp_gone, Hg by (by rewrite Hg)]. eapply IH; [exact Ec'|].
    assert (dec c' = d) as -> by (destruct c, c'; by injection Hi). lia.
  - by rewrite close_conn_gone.
Qed.

(** C33: The read loops end by themselves.  Whatever a connection sent, the loops
    that pop and handle frames stop after at most as many turns as there are
    buffered bytes (more turns change nothing), on both transports; and after
    the TCP loop the connection is either closed or has no complete frame left
    in its decoder, so no frame is left unhandled. *)
Theorem read_loops_terminate s fd c now (fuel : nat) (Hc : conns s !! fd = Some c) :
  ((length (buf_ (dec c)) < fuel)%nat -> drain_tcp fuel now fd s = drain_tcp_all now fd s) /\
  ((length (WebSocket.buf_ (ws_parser c)) < fuel)%nat -> drain_ws fuel now fd s = drain_ws_all now fd s) /\
  match conns (drain_tcp_all now fd s) !! fd with
  | Some c' => (try_pop (dec c')).1 = kNeedMore
  | None => True
  end.
Proof.
  unfold drain_tcp_all, drain_ws_all. rewrite Hc. split_and!.
  - intros Hf. eapply drain_tcp_fuel; [exact Hc|lia|lia].
  - intros Hf. eapply drain_ws_fuel; [exact Hc|lia|lia].
  - eapply drain_tcp_drained; [exact Hc|lia].
Qed.

(** A registration request can take over another user's stored name.  The
    handler checks the claim's key but neither the username grammar nor the
    claim's signature: an authenticated connection that requests the name
    [victim ++ NUL ++ suffix] is accepted, and the store row it writes is
    [victim]'s, so that after a restart [victim] resolves to its key. *)
Theorem register_request_takes_over_name s fd c now (bs : bytes) claim db (victim suffix : bytes)
    (Hc : conns s !! fd = Some c) (Hauth : authenticated c = true)
    (Hparse : pb_parse bs = Some (FRegisterReq claim))
    (Hkey : claim_identity_pubkey claim = bound_user_pub c) (Hbound : bound_user_pub c <> [])
    (Hclaim : claim_username claim = victim ++ Byte.x00 :: suffix) (Hplain : Byte.x00 ∉ victim)
    (Hstore : store s = Some db)
    (Hfree : Directory.name_to_pub_ (dir s) !! claim_username claim = None) :
  let s' := handle_frame now fd bs s in
  conns s' !! fd = Some (write_frame (serialize (FRegisterResp true (str "ok"))) c) /\
  (Directory.resolve victim Directory.new_directory (store s')).1 = Some (bound_user_pub c).
Proof.
  cbv zeta. unfold handle_frame. rewrite Hc, Hparse, Hauth. cbn [negb andb].
  unfold handle_register_req. rewrite bool_decide_true by done. cbn [negb].
  unfold Directory.register_user. rewrite Hfree, Hstore. cbn [fmap option_fmap option_map].
  split; [cbn; by rewrite lookup_alter_eq, Hc|].
  cbn [store enqueue_write on_conn with_conns with_dir].
  unfold Directory.resolve, srv_resolve_username, srv_register_user, binds_null.
  rewrite bool_decide_eq_false_2 by done.
  cbn [Directory.new_directory Directory.name_to_pub_ mbind option_bind srv_directory].
  rewrite lookup_empty. by rewrite Hclaim, Directory.c_str_app_nul, (Directory.c_str_id victim), lookup_insert_eq.
Qed.

End loops.
