(* ===== verification/RelayServerWitness.v ===== *)
(** * The relay server on concrete data

    Evaluable codecs, signatures, randomness and limiter, and a small scenario:
    Alice (connection 4) is authenticated and in a channel, Bob (connection 5)
    holds a challenge, Carol (connection 6) subscribed to the channel.  The
    theorems are applied to it. *)
From S2P Require Import Prelude StdMap Crypto ServerStore Relay Directory Username Wire.
From S2P Require Import FrameCodec WebSocket WebSocketProofs RelayServer RelayServerInv.
From S2P Require Import SenderKeys Ratchet Toy ToySign RelayServerTheorems.
Import RelayServer.

(** ** Codecs *)

Definition toy_put_u64 (v : Z) : bytes := put_u32_be (v / u32_max) ++ put_u32_be (v mod u32_max).

Definition toy_read_u64 (l : bytes) : option (Z * bytes) :=
  '(hi, l) ← toy_read_u32 l; '(lo, l) ← toy_read_u32 l; Some (hi * u32_max + lo, l).

Lemma toy_read_put_u64 v l : is_u64 v -> toy_read_u64 (toy_put_u64 v ++ l) = Some (v, l).
Proof.
  intros Hv. unfold toy_put_u64, toy_read_u64. rewrite <- app_assoc.
  rewrite toy_read_put by (unfold_words; split; [apply Z.div_pos|apply Z.div_lt_upper_bound]; lia).
  cbn [mbind option_bind]. rewrite toy_read_put by (apply Z.mod_pos_bound; done).
  cbn [mbind option_bind]. do 2 f_equal. unfold_words. pose proof (Z.div_mod v 4294967296). lia.
Qed.

Lemma toy_read_u64_ok l v l' : toy_read_u64 l = Some (v, l') -> is_u64 v.
Proof.
  unfold toy_read_u64, mbind, option_bind. intros E. case_all.
  repeat match goal with Hr : toy_read_u32 _ = Some _ |- _ => apply toy_read_u32_ok in Hr end.
  unfold_words. lia.
Qed.

Definition toy_rcpt (r : Recipient) : bytes :=
  match r with
  | RecipientNotSet => toy_field [] ++ toy_field []
  | UserPubkey b => toy_field (str "u") ++ toy_field b
  | ChannelGroupId b => toy_field (str "c") ++ toy_field b
  | BroadcastTopic b => toy_field (str "t") ++ toy_field b
  end.

Definition toy_read_rcpt (l : bytes) : option (Recipient * bytes) :=
  '(k, l) ← toy_read l; '(b, l) ← toy_read l;
  Some (if bool_decide (k = str "u") then UserPubkey b
        else if bool_decide (k = str "c") then ChannelGroupId b
        else if bool_decide (k = str "t") then BroadcastTopic b else RecipientNotSet, l).

Lemma toy_read_rcpt_ok r l : toy_read_rcpt (toy_rcpt r ++ l) = Some (r, l).
Proof.
  unfold toy_read_rcpt, toy_rcpt. destruct r; rewrite <- app_assoc, toy_read_field;
    cbn [mbind option_bind]; by rewrite toy_read_field.
Qed.

Definition toy_envelope_bytes (e : Envelope) : bytes :=
  toy_field (envelope_id e) ++ toy_put_u64 (timestamp_ms e) ++ toy_field (sender_pubkey e) ++
  toy_field (Wire.ciphertext e) ++ toy_field (env_aad e) ++ put_u32_be (aead_alg e) ++
  put_u32_be (protocol_version e) ++ toy_field (signature e) ++ toy_field (pq_ct e) ++ toy_rcpt (recipient e).

Definition toy_read_envelope (l : bytes) : option (Envelope * bytes) :=
  '(i, l) ← toy_read l; '(t, l) ← toy_read_u64 l; '(sp, l) ← toy_read l; '(ct, l) ← toy_read l;
  '(aad, l) ← toy_read l; '(alg, l) ← toy_read_u32 l; '(v, l) ← toy_read_u32 l; '(sg, l) ← toy_read l;
  '(pq, l) ← toy_read l; '(r, l) ← toy_read_rcpt l;
  Some (mkEnvelope i t sp ct aad alg v sg pq r, l).

Lemma toy_read_envelope_bytes e l : pb_ok e -> toy_read_envelope (toy_envelope_bytes e ++ l) = Some (e, l).
Proof.
  destruct e as [i t sp ct aad alg v sg pq r]. intros (Ht & Ha & Hv). cbn in Ht, Ha, Hv.
  unfold toy_read_envelope, toy_envelope_bytes.
  cbn [envelope_id timestamp_ms sender_pubkey Wire.ciphertext env_aad aead_alg protocol_version signature pq_ct recipient].
  rewrite <- !app_assoc.
  repeat first [rewrite toy_read_field | rewrite toy_read_put_u64 by done | rewrite toy_read_put by done
               | rewrite toy_read_rcpt_ok | progress cbn [mbind option_bind]]. done.
Qed.

Lemma toy_read_envelope_ok l e l' : toy_read_envelope l = Some (e, l') -> pb_ok e.
Proof.
  unfold toy_read_envelope, mbind, option_bind. intros E. case_all.
  repeat match goal with
  | Hr : toy_read_u32 _ = Some _ |- _ => apply toy_read_u32_ok in Hr
  | Hr : toy_read_u64 _ = Some _ |- _ => apply toy_read_u64_ok in Hr
  end. done.
Qed.

#[export] Instance toy_envelope : ProtoMsg Envelope := {|
  pb_serialize := toy_envelope_bytes;
  pb_parse b := fst <$> toy_read_envelope b;
|}.

#[export] Instance toy_envelope_laws : ProtoLaws Envelope.
Proof.
  constructor.
  - intros e Hok. cbn [pb_parse pb_serialize toy_envelope].
    by rewrite <- (app_nil_r (toy_envelope_bytes e)), toy_read_envelope_bytes.
  - intros b e E. cbn [pb_parse toy_envelope] in E.
    destruct (toy_read_envelope b) as [[e' l]|] eqn:Er; [|done]. injection E as <-.
    by eapply toy_read_envelope_ok.
Qed.

(** The bodies the scenario uses; the others are written as nothing. *)
#[export] Instance toy_frame : ProtoMsg Frame := {|
  pb_serialize f :=
    match f with
    | FEnvelope e => Byte.x01 :: toy_envelope_bytes e
    | FHello h => Byte.x02 :: toy_field (hello_identity_pubkey h) ++ toy_field (hello_username h)
    | FHelloAck sig => Byte.x03 :: toy_field sig
    | FRegisterReq cl => Byte.x04 :: toy_field (claim_identity_pubkey cl) ++ toy_field (claim_username cl)
    | FChanSubscribe g => Byte.x05 :: toy_field g
    | _ => []
    end;
  pb_parse b :=
    match b with
    | Byte.x01 :: l => '(e, _) ← toy_read_envelope l; Some (FEnvelope e)
    | Byte.x02 :: l => '(pk, l) ← toy_read l; '(u, _) ← toy_read l; Some (FHello (mkClientHello pk u 0))
    | Byte.x03 :: l => '(sig, _) ← toy_read l; Some (FHelloAck sig)
    | Byte.x04 :: l => '(pk, l) ← toy_read l; '(u, _) ← toy_read l; Some (FRegisterReq (mkIdentityClaim pk u 0 []))
    | Byte.x05 :: l => '(g, _) ← toy_read l; Some (FChanSubscribe g)
    | _ => None
    end;
|}.

#[export] Instance toy_frame_laws : FrameLaws.
Proof.
  constructor.
  - intros b env E. cbn [pb_parse toy_frame] in E.
    destruct b as [|[] l]; try done; unfold mbind, option_bind in E; case_all.
    by eapply toy_read_envelope_ok.
  - intros env r _ E. apply (f_equal length) in E. cbn [pb_serialize toy_envelope] in E.
    unfold toy_envelope_bytes, toy_put_u64 in E. rewrite !length_app in E. cbn in E. lia.
Qed.

#[export] Instance toy_bundle : ProtoMsg PreKeyBundle := {| pb_serialize _ := []; pb_parse _ := None |}.

(** ** Randomness, limiter *)

#[export] Instance toy_random : Random := fun n => be_bytes 32 (1000 + Z.of_nat n).
#[export] Instance toy_random_laws : RandomLaws.
Proof. intros n. apply (length_be_bytes 32). Qed.

(** A budget in bytes, shared by everybody. *)
#[export] Instance toy_limiter : RateLimiter Z := fun _ n budget =>
  if n <=? budget then (true, budget - n) else (false, budget).

#[local] Existing Instance toy_hash_order.
#[local] Existing Instance rfc4648_base64.

(** ** The scenario *)

Definition w_pub (n : Z) : bytes := sign_public (be_bytes 32 n).
Definition w_gid : bytes := replicate 32 (z2b 7).

(** One TCP read with the given frames. *)
Definition w_read (fd : Z) (fs : list Frame) : Event :=
  EvReady fd 0 false (Some ([mjoin ((fun f => encode_frame (pb_serialize f)) <$> fs)], false)) None.

Definition w_hello (fd n : Z) (name : bytes) : Event := w_read fd [FHello (mkClientHello (w_pub n) name 0)].
(** [draw]: which challenge the server issued. *)
Definition w_ack (fd n : Z) (draw : nat) : Event :=
  w_read fd [FHelloAck (sign_detached (be_bytes 32 n) (randombytes32 draw))].

Definition w_events : list Event :=
  [EvAccept 4 kTcp; EvAccept 5 kTcp; EvAccept 6 kWs; EvAccept 7 kTcp;
   w_hello 4 1 (str "alice"); w_ack 4 1 0; w_hello 5 2 []; w_hello 7 3 (str "carol"); w_ack 7 3 2;
   w_read 7 [FChanSubscribe w_gid]].

Definition w_server (st : option Store) : Server Z := server_run w_events (new_server st 1000).
Definition w_conn (st : option Store) (fd : Z) : Conn := default (new_conn kTcp) (conns (w_server st) !! fd).

Definition w_env (r : Recipient) : Envelope :=
  mkEnvelope (str "id") 5 (str "x") (str "secret") [] 1 1 [] [] r.
Definition w_env_bytes (r : Recipient) : bytes := pb_serialize (FEnvelope (w_env r)).

Lemma w_reachable st : start_store_ok st -> reachable (w_server st).
Proof. intros Hst. exists st, 1000, w_events. done. Qed.

Lemma server_routes_authenticated_witness :
  let s := w_server None in
  exists c sig, conns s !! 4 = Some c /\ authenticated c = true /\ bound_user_pub c = w_pub 1 /\
    length (w_pub 1) = 32%nat /\ verify_detached (w_pub 1) (challenge c) sig = true.
Proof.
  cbv zeta. destruct (server_routes_authenticated (w_server None) (w_reachable None I)) as [Hr _].
  apply (Hr (w_pub 1) 4). vm_compute. reflexivity.
Defined.

(** Alice writes to Carol, who is there; and to nobody, which ends a server with a store. *)
Lemma direct_message_delivery_witness :
  (let s := w_server None in
   let s' := handle_frame 9 4 (w_env_bytes (UserPubkey (w_pub 3))) s in
   exists cd, conns s !! 7 = Some cd /\ bound_user_pub cd = w_pub 3 /\
    conns s' = <[7 := write_frame (serialize (FEnvelope (stamp (w_conn None 4) (w_env (UserPubkey (w_pub 3)))))) cd]>
                 (conns s)) /\
  ended (handle_frame 9 4 (w_env_bytes (UserPubkey [])) (w_server (Some empty_store))) = true.
Proof.
  cbv zeta. split.
  - pose proof (direct_message_delivery (w_server None) 4 (w_conn None 4) 9 (w_env_bytes (UserPubkey (w_pub 3)))
      (w_env (UserPubkey (w_pub 3))) (w_pub 3) 994 (w_reachable None I)
      ltac:(vm_compute; reflexivity) ltac:(vm_compute; reflexivity) ltac:(vm_compute; reflexivity) eq_refl
      ltac:(vm_compute; reflexivity)) as (_ & _ & Hd).
    assert (Relay.user_to_fd_ (relay (w_server None)) !! w_pub 3 = Some 7) as E by (vm_compute; reflexivity).
    rewrite E in Hd. destruct Hd as (cd & H1 & _ & H2 & H3 & _).
    exact (ex_intro _ cd (conj H1 (conj H2 H3))).
  - pose proof (direct_message_delivery (w_server (Some empty_store)) 4 (w_conn (Some empty_store) 4) 9 (w_env_bytes (UserPubkey []))
      (w_env (UserPubkey [])) [] 994 (w_reachable (Some empty_store) empty_store_wf)
      ltac:(vm_compute; reflexivity) ltac:(vm_compute; reflexivity) ltac:(vm_compute; reflexivity) eq_refl
      ltac:(vm_compute; reflexivity)) as (_ & _ & Hd).
    assert (Relay.user_to_fd_ (relay (w_server (Some empty_store))) !! [] = None) as E by (vm_compute; reflexivity).
    rewrite E in Hd. change (unstorable [] _ _) with true in Hd. exact (proj1 Hd).
Defined.

Lemma offline_messages_delivered_witness :
  let s := w_server (Some empty_store) in
  let s' := handle_frame 9 5 (pb_serialize (FHelloAck (sign_detached (be_bytes 32 2) (randombytes32 1))))
              (handle_frames [(8, 4, w_env_bytes (UserPubkey (w_pub 2)))] s) in
  exists c', conns s' !! 5 = Some c' /\ authenticated c' = true /\
    write_buf c' = write_buf (w_conn (Some empty_store) 5) ++
      encode_frame (serialize (FEnvelope (stamp (w_conn (Some empty_store) 4) (w_env (UserPubkey (w_pub 2)))))) ++ [].
Proof.
  cbv zeta.
  destruct (offline_messages_delivered (w_server (Some empty_store)) (w_pub 2)
    [(8, 4, w_env_bytes (UserPubkey (w_pub 2)))]
    [stamp (w_conn (Some empty_store) 4) (w_env (UserPubkey (w_pub 2)))]
    5 (w_conn (Some empty_store) 5) 9
    (pb_serialize (FHelloAck (sign_detached (be_bytes 32 2) (randombytes32 1))))
    (sign_detached (be_bytes 32 2) (randombytes32 1))) as (c' & E1 & E2 & _ & _ & _ & E3).
  - exact (w_reachable (Some empty_store) empty_store_wf).
  - vm_compute. reflexivity.
  - vm_compute. reflexivity.
  - exists (w_conn (Some empty_store) 4), (w_env (UserPubkey (w_pub 2))), 994, [].
    split_and!; vm_compute; reflexivity.
  - vm_compute. reflexivity.
  - vm_compute. reflexivity.
  - vm_compute. reflexivity.
  - vm_compute. reflexivity.
  - left. vm_compute. reflexivity.
  - vm_compute. reflexivity.
  - vm_compute. reflexivity.
  - vm_compute. reflexivity.
  - exists c'. split; [exact E1|]. split; [exact E2|].
    assert (bool_decide (is_Some (store (w_server (Some empty_store)))) = true) as Es by (vm_compute; reflexivity).
    assert (transport (w_conn (Some empty_store) 5) = kTcp) as Et by (vm_compute; reflexivity).
    rewrite E3, Es, Et. reflexivity.
Defined.

Lemma pre_auth_isolated_witness :
  let s := w_server None in
  relay (handle_frame 9 5 (w_env_bytes (UserPubkey (w_pub 3))) s) = relay s.
Proof.
  cbv zeta.
  destruct (pre_auth_isolated (w_server None) 5 (w_conn None 5) 9 (w_env_bytes (UserPubkey (w_pub 3)))) as [Hr _].
  - vm_compute. reflexivity.
  - vm_compute. reflexivity.
  - intros sig E. vm_compute in E. discriminate E.
  - exact Hr.
Defined.

Lemma channel_message_fanout_witness :
  let s := w_server None in
  let bs := w_env_bytes (ChannelGroupId w_gid) in
  conns (handle_frame 9 4 bs s) !! 7 =
    write_frame (serialize (FEnvelope (stamp (w_conn None 4) (w_env (ChannelGroupId w_gid))))) <$> conns s !! 7.
Proof.
  cbv zeta.
  rewrite (channel_message_fanout (w_server None) 4 (w_conn None 4) 9 (w_env_bytes (ChannelGroupId w_gid))
    (w_env (ChannelGroupId w_gid)) w_gid 994 (w_reachable None I)
    ltac:(vm_compute; reflexivity) ltac:(vm_compute; reflexivity) ltac:(vm_compute; reflexivity) eq_refl
    ltac:(vm_compute; reflexivity) ltac:(vm_compute; reflexivity)).
  rewrite decide_True; [done|]. by_computing.
Defined.

Lemma read_loops_terminate_witness :
  drain_tcp 500 3 4 (w_server None) = drain_tcp_all 3 4 (w_server None).
Proof.
  destruct (read_loops_terminate (w_server None) 4 (w_conn None 4) 3 500
              ltac:(vm_compute; reflexivity)) as (Ht & _ & _).
  exact (Ht ltac:(by_computing)).
Defined.

Lemma register_request_takes_over_name_witness :
  let s := w_server (Some empty_store) in
  let name := str "alice" ++ Byte.x00 :: [] in
  let s' := handle_frame 9 7 (pb_serialize (FRegisterReq (mkIdentityClaim (w_pub 3) name 0 []))) s in
  (Directory.resolve (str "alice") Directory.new_directory (store s)).1 = Some (w_pub 1) /\
  (Directory.resolve (str "alice") Directory.new_directory (store s')).1 = Some (bound_user_pub (w_conn (Some empty_store) 7)).
Proof.
  cbv zeta. split; [vm_compute; reflexivity|].
  destruct (store (w_server (Some empty_store))) as [db|] eqn:Edb; [|vm_compute in Edb; discriminate Edb].
  destruct (register_request_takes_over_name (w_server (Some empty_store)) 7 (w_conn (Some empty_store) 7) 9
    (pb_serialize (FRegisterReq (mkIdentityClaim (w_pub 3) (str "alice" ++ Byte.x00 :: []) 0 [])))
    (mkIdentityClaim (w_pub 3) (str "alice" ++ Byte.x00 :: []) 0 []) db (str "alice") []) as [_ Hr].
  - vm_compute. reflexivity.
  - vm_compute. reflexivity.
  - vm_compute. reflexivity.
  - vm_compute. reflexivity.
  - vm_compute. discriminate.
  - reflexivity.
  - by_computing.
  - exact Edb.
  - vm_compute. reflexivity.
  - exact Hr.
Defined.
