(* ===== verification/Kademlia.v ===== *)
(** * Kademlia routing table ([src/core/src/p2p/kademlia.cpp])

    XOR distance on 160-bit node ids, the k-buckets and the nearest-peers query.
    Ids are byte strings of length 20, compared lexicographically as
    [std::array] does, which is the order of the integers they spell. *)
From S2P Require Import Prelude StdMap.

(** [crypto_hash_sha256] *)
Class Sha256 := sha256 : bytes -> bytes.
Class Sha256Laws `{!Sha256} := length_sha256 : forall b, length (sha256 b) = 32%nat.

Module Kademlia.

Definition kNodeIdBytes : nat := 20.
Definition kBucketSize : nat := 16.
Definition kAddressBits : nat := 160.

Record PeerInfo := mkPeerInfo {
  id : bytes;
  addr : bytes;
  pubkey : bytes;
}.

#[export] Instance PeerInfo_eq_dec : EqDecision PeerInfo.
Proof. solve_decision. Defined.

Definition node_id_from_pubkey `{!Sha256} (pk : bytes) : bytes := take kNodeIdBytes (sha256 pk).

Definition xor_distance (a b : bytes) : bytes := zip_with byte_xor a b.

(** [for (bit = 7; bit >= 0; --bit) if ((x >> bit) & 1)] *)
Fixpoint scan_bit (n : nat) (x : Z) : option nat :=
  match n with
  | O => None
  | S bit => if Z.land (Z.shiftr x (Z.of_nat bit)) 1 =? 1 then Some bit else scan_bit bit x
  end.

Fixpoint bucket_scan (i : nat) (distance : bytes) : nat :=
  match distance with
  | [] => kAddressBits
  | x :: rest =>
      if b2z x =? 0 then bucket_scan (S i) rest
      else match scan_bit 8 (b2z x) with
           | Some bit => ((kNodeIdBytes - 1 - i) * 8 + bit)%nat
           | None => bucket_scan (S i) rest
           end
  end.

Definition bucket_index (distance : bytes) : nat := bucket_scan 0 distance.

Record RoutingTable := mkRoutingTable {
  self_ : bytes;
  buckets_ : list (list PeerInfo);
}.

Definition new_table (self : bytes) : RoutingTable := mkRoutingTable self (replicate kAddressBits []).

(** The new bucket, and whether the peer was added. *)
Definition observe_bucket (peer : PeerInfo) (b : list PeerInfo) : bool * list PeerInfo :=
  match list_find (fun p => id p = id peer) b with
  | Some (i, p) => (false, take i b ++ drop (S i) b ++ [mkPeerInfo (id p) (addr peer) (pubkey p)])
  | None =>
      if (length b <? kBucketSize)%nat then (true, b ++ [peer])
      else (true, match b with [] => [] | _ :: b' => peer :: b' end)
  end.

Definition observe (peer : PeerInfo) (t : RoutingTable) : bool * RoutingTable :=
  if bool_decide (id peer = self_ t) then (false, t)
  else
    let idx := bucket_index (xor_distance (self_ t) (id peer)) in
    match buckets_ t !! idx with
    | None => (false, t)
    | Some b =>
        let '(added, b') := observe_bucket peer b in
        (added, mkRoutingTable (self_ t) (<[idx := b']> (buckets_ t)))
    end.

Definition all (t : RoutingTable) : list PeerInfo := mjoin (buckets_ t).

Definition size (t : RoutingTable) : nat := sum_list_with length (buckets_ t).

Definition closer (target : bytes) (p q : PeerInfo) : Prop :=
  key_leb (xor_distance (id p) target) (xor_distance (id q) target) = true.

#[export] Instance closer_dec target : RelDecision (closer target).
Proof. intros p q. unfold closer. apply _. Defined.

(** Distinct ids have distinct distances, so any sort gives this list. *)
Definition closest (target : bytes) (limit : nat) (t : RoutingTable) : list PeerInfo :=
  take limit (merge_sort (closer target) (all t)).

(** ** Distances as integers *)

Lemma length_xor a b : length a = length b -> length (xor_distance a b) = length a.
Proof. intros E. unfold xor_distance. rewrite length_zip_with. lia. Qed.

Lemma byte_xor_comm a b : byte_xor a b = byte_xor b a.
Proof. unfold byte_xor. by rewrite Z.lxor_comm. Qed.

Lemma xor_distance_comm a b : length a = length b -> xor_distance a b = xor_distance b a.
Proof.
  revert b. induction a as [|x a IH]; intros [|y b] E; try done. injection E as E.
  unfold xor_distance in *. cbn [zip_with]. by rewrite byte_xor_comm, IH.
Qed.

Lemma xor_distance_inj a b t :
  length a = length t -> length b = length t -> xor_distance a t = xor_distance b t -> a = b.
Proof.
  revert a b. induction t as [|z t IH]; intros [|x a] [|y b] Ha Hb E; try done.
  injection Ha as Ha. injection Hb as Hb. unfold xor_distance in E. cbn [zip_with] in E.
  injection E as Ex Et. f_equal; [|by apply IH].
  by rewrite <- (byte_xor_involutive x z), Ex, byte_xor_involutive.
Qed.

(** The distance is zero exactly to oneself. *)
Lemma xor_distance_zero a b :
  length a = length b -> be_value (xor_distance a b) = 0 <-> a = b.
Proof.
  intros E. split.
  - intros H0. apply (xor_distance_inj a b b); [done|done|].
    apply be_value_inj; [by rewrite !length_xor|]. rewrite H0. clear.
    induction b as [|x b IH]; [done|]. unfold xor_distance in *. cbn [zip_with].
    rewrite be_value_cons, <- IH. unfold byte_xor. by rewrite Z.lxor_nilpotent.
  - intros <-. clear. induction a as [|x a IH]; [done|]. unfold xor_distance in *. cbn [zip_with].
    rewrite be_value_cons, IH. unfold byte_xor. by rewrite Z.lxor_nilpotent.
Qed.

Lemma key_leb_be_value (a b : bytes) :
  length a = length b -> key_leb a b = (be_value a <=? be_value b).
Proof.
  change (@key_leb bytes _) with (@list_leb byte _).
  revert b. induction a as [|x a IH]; intros [|y b] E; try done. injection E as E. cbn [list_leb].
  rewrite !be_value_cons, IH by done. rewrite <- E.
  pose proof (be_value_range a). pose proof (be_value_range b). rewrite <- E in *.
  pose proof (b2z_range x). pose proof (b2z_range y). set (w := 256 ^ Z.of_nat (length a)) in *.
  cbn [key_leb byte_ord].
  destruct (Z.leb_spec (b2z x) (b2z y)), (Z.leb_spec (b2z y) (b2z x));
    destruct (Z.leb_spec (be_value a) (be_value b)); symmetry;
    rewrite ?Z.leb_le, ?Z.leb_gt; nia.
Qed.

Lemma scan_bit_log2 (x : byte) : b2z x <> 0 -> scan_bit 8 (b2z x) = Some (Z.to_nat (Z.log2 (b2z x))).
Proof. by destruct x. Qed.

Lemma log2_top (x r : Z) (n : nat) :
  0 < x -> 0 <= r < 256 ^ Z.of_nat n -> Z.log2 (x * 256 ^ Z.of_nat n + r) = 8 * Z.of_nat n + Z.log2 x.
Proof.
  intros Hx Hr. destruct (Z.log2_spec x Hx) as [Hlo Hhi]. pose proof (Z.log2_nonneg x).
  assert (256 ^ Z.of_nat n = 2 ^ (8 * Z.of_nat n)) as E by (by rewrite Z.pow_mul_r by lia).
  rewrite E in *. apply Z.log2_unique; [lia|].
  rewrite Z.pow_succ_r, Z.pow_add_r by lia. rewrite Z.pow_succ_r in Hhi by lia. nia.
Qed.

Lemma bucket_scan_log2 i d :
  (i + length d = kNodeIdBytes)%nat ->
  bucket_scan i d = if be_value d =? 0 then kAddressBits else Z.to_nat (Z.log2 (be_value d)).
Proof.
  revert i. induction d as [|x d IH]; intros i Hi; [done|]. cbn [length] in Hi. cbn [bucket_scan].
  rewrite be_value_cons. pose proof (be_value_range d) as Hr. pose proof (b2z_range x) as Hx.
  destruct (Z.eqb_spec (b2z x) 0) as [E|E].
  - rewrite E, Z.mul_0_l, Z.add_0_l. apply IH. lia.
  - rewrite scan_bit_log2 by done. rewrite log2_top by lia.
    destruct (Z.eqb_spec (b2z x * 256 ^ Z.of_nat (length d) + be_value d) 0) as [E0|E0]; [nia|].
    pose proof (Z.log2_nonneg (b2z x)). unfold kNodeIdBytes in *. lia.
Qed.

(** ** The table's invariant *)

Definition peer_at (self : bytes) (i : nat) (p : PeerInfo) : Prop :=
  length (id p) = kNodeIdBytes /\ id p <> self /\ bucket_index (xor_distance self (id p)) = i.

Definition bucket_ok (self : bytes) (i : nat) (b : list PeerInfo) : Prop :=
  (length b <= kBucketSize)%nat /\ NoDup (id <$> b) /\ Forall (peer_at self i) b.

Record table_ok (t : RoutingTable) : Prop := {
  t_self : length (self_ t) = kNodeIdBytes;
  t_len : length (buckets_ t) = kAddressBits;
  t_bucket : forall i b, buckets_ t !! i = Some b -> bucket_ok (self_ t) i b;
}.

Lemma new_table_ok self : length self = kNodeIdBytes -> table_ok (new_table self).
Proof.
  intros Hs. split; [done|done|]. cbn [buckets_ new_table self_].
  intros i b [-> _]%lookup_replicate. repeat split; [unfold kBucketSize; cbn; lia|constructor|constructor].
Qed.

Lemma bucket_index_spec d :
  length d = kNodeIdBytes ->
  bucket_index d = if be_value d =? 0 then kAddressBits else Z.to_nat (Z.log2 (be_value d)).
Proof. intros Hd. by apply bucket_scan_log2. Qed.

Lemma bucket_index_lt d :
  length d = kNodeIdBytes -> be_value d <> 0 -> (bucket_index d < kAddressBits)%nat.
Proof.
  intros Hd H0. rewrite bucket_index_spec by done. destruct (Z.eqb_spec (be_value d) 0); [done|].
  pose proof (be_value_range d) as Hr. rewrite Hd in Hr. change (256 ^ Z.of_nat kNodeIdBytes) with (2 ^ 160) in Hr.
  assert (Z.log2 (be_value d) < 160) by (apply Z.log2_lt_pow2; lia).
  pose proof (Z.log2_nonneg (be_value d)). unfold kAddressBits. lia.
Qed.

Lemma observe_bucket_ok self i peer b :
  bucket_ok self i b -> peer_at self i peer -> bucket_ok self i (observe_bucket peer b).2.
Proof.
  intros (Hl & Hnd & Hall) Hp. unfold observe_bucket. destruct (list_find _ b) as [[k p]|] eqn:E.
  - apply list_find_Some in E as (Hk & Hid & _). cbn [snd].
    set (p' := mkPeerInfo (id p) (addr peer) (pubkey p)).
    assert (take k b ++ drop (S k) b ++ [p'] ≡ₚ p' :: delete k b) as Hperm.
    { rewrite delete_take_drop, app_assoc. by rewrite Permutation_app_comm. }
    assert (b ≡ₚ p :: delete k b) as Hb by (by apply delete_Permutation).
    split_and!.
    + rewrite Hperm. rewrite Hb in Hl. done.
    + rewrite Hperm. by rewrite Hb in Hnd.
    + rewrite Hperm. rewrite Hb in Hall. apply Forall_cons in Hall as [Hp0 Hrest]. by constructor.
  - apply list_find_None in E.
    assert (id peer ∉ id <$> b) as Hni.
    { intros (q & Eq & Hq)%list_elem_of_fmap. rewrite Forall_forall in E. by apply (E q Hq). }
    destruct (Nat.ltb_spec (length b) kBucketSize) as [Hlt|Hge]; cbn [snd].
    + split_and!; [rewrite length_app; cbn; lia| |].
      * rewrite fmap_app. apply NoDup_app. split_and!; [done| |apply NoDup_singleton].
        intros x Hx ->%list_elem_of_singleton. done.
      * apply Forall_app. split; [done|]. by apply Forall_singleton.
    + destruct b as [|q b]; [done|]. rewrite fmap_cons, NoDup_cons, not_elem_of_cons in *.
      apply Forall_cons in Hall as [_ Hall]. destruct Hnd as [_ Hnd], Hni as [_ Hni].
      split_and!; [done|constructor; done|by constructor].
Qed.

Lemma observe_ok peer t :
  table_ok t -> length (id peer) = kNodeIdBytes -> table_ok (observe peer t).2.
Proof.
  intros Ht Hp. pose proof Ht as [Hs Hl Hb]. unfold observe. case_bool_decide as Eself; [done|].
  destruct (buckets_ t !! bucket_index (xor_distance (self_ t) (id peer))) as [b|] eqn:E; [|done].
  destruct (observe_bucket peer b) as [added b'] eqn:Eo. cbn [snd].
  split; cbn [self_ buckets_]; [done|by rewrite length_insert|]. intros i c Hc.
  apply list_lookup_insert_Some in Hc as [(<- & <- & _)|[Hne Hc]]; [|by apply Hb].
  pose proof (observe_bucket_ok (self_ t) _ peer b (Hb _ _ E)) as Hok. rewrite Eo in Hok. by apply Hok.
Qed.

(** ** All peers *)

Lemma length_all t : length (all t) = size t.
Proof.
  unfold all, size. induction (buckets_ t) as [|b bs IH]; [done|].
  change (mjoin (b :: bs)) with (b ++ mjoin bs). cbn [sum_list_with]. by rewrite length_app, IH.
Qed.

Lemma elem_of_all t p : p ∈ all t <-> exists i b, buckets_ t !! i = Some b /\ p ∈ b.
Proof.
  unfold all. rewrite list_elem_of_join. split.
  - intros (b & Hp & [i Hi]%list_elem_of_lookup). eauto.
  - intros (i & b & Hi & Hp). exists b. split; [done|]. by apply list_elem_of_lookup_2 in Hi.
Qed.

Lemma NoDup_buckets self k bs :
  (forall i b, bs !! i = Some b -> bucket_ok self (k + i) b) -> NoDup (id <$> mjoin bs).
Proof.
  revert k. induction bs as [|b bs IH]; intros k Hb; [constructor|].
  change (mjoin (b :: bs)) with (b ++ mjoin bs). rewrite fmap_app. apply NoDup_app. split_and!.
  - apply (Hb 0%nat b eq_refl).
  - intros x (p & -> & Hp)%list_elem_of_fmap (q & E & Hq)%list_elem_of_fmap.
    apply list_elem_of_join in Hq as (b' & Hq & [i Hi]%list_elem_of_lookup).
    destruct (Hb 0%nat b eq_refl) as (_ & _ & H1). destruct (Hb (S i) b' Hi) as (_ & _ & H2).
    rewrite Forall_forall in H1, H2. destruct (H1 p Hp) as (_ & _ & E1), (H2 q Hq) as (_ & _ & E2).
    rewrite E in E1. lia.
  - apply (IH (S k)). intros i b' Hi. replace (S k + i)%nat with (k + S i)%nat by lia. by apply Hb.
Qed.

Lemma NoDup_all t : table_ok t -> NoDup (id <$> all t).
Proof. intros [_ _ Hb]. apply (NoDup_buckets (self_ t) 0). intros i b Hi. by apply Hb. Qed.

Lemma all_ids_ok t p : table_ok t -> p ∈ all t -> length (id p) = kNodeIdBytes /\ id p <> self_ t.
Proof.
  intros [_ _ Hb] (i & b & Hi & Hp)%elem_of_all. destruct (Hb i b Hi) as (_ & _ & Hall).
  rewrite Forall_forall in Hall. by destruct (Hall p Hp) as (? & ? & _).
Qed.

Lemma size_bound t : table_ok t -> (size t <= kAddressBits * kBucketSize)%nat.
Proof.
  intros [_ Hl Hb]. unfold size. rewrite <- Hl. clear Hl.
  assert (Forall (fun b => length b <= kBucketSize)%nat (buckets_ t)) as Hf.
  { apply Forall_lookup. intros i b Hi. by apply (Hb i b Hi). }
  clear Hb. induction (buckets_ t) as [|b bs IH]; [done|].
  apply Forall_cons in Hf as [H1 H2]. cbn [sum_list_with length]. specialize (IH H2). lia.
Qed.

(** ** Sequences of observations *)

Definition observe_all (ps : list PeerInfo) (t : RoutingTable) : RoutingTable :=
  foldl (fun t p => (observe p t).2) t ps.

Lemma observe_all_ok ps t :
  table_ok t -> Forall (fun p => length (id p) = kNodeIdBytes) ps -> table_ok (observe_all ps t).
Proof.
  intros Ht Hps. revert t Ht. induction Hps as [|p ps Hp Hps IH]; intros t Ht; [done|].
  apply IH. by apply observe_ok.
Qed.

(** C37: The routing table's structure survives every sequence of observations.
    For any peers with 20-byte ids: 160 buckets of at most 16 peers, hence at
    most 2560 in all; every id at most once; never the own id; and each peer in
    the bucket of its distance, the position of the highest bit set in the
    160-bit integer [self xor id]. *)
Theorem routing_table_invariant (self : bytes) (ps : list PeerInfo)
    (Hself : length self = kNodeIdBytes)
    (Hps : Forall (fun p => length (id p) = kNodeIdBytes) ps) :
  let t := observe_all ps (new_table self) in
  length (buckets_ t) = 160%nat /\ (size t <= 2560)%nat /\ NoDup (id <$> all t) /\
  (forall i b, buckets_ t !! i = Some b -> (length b <= 16)%nat /\
     forall p, p ∈ b -> id p <> self /\ Z.log2 (be_value (xor_distance self (id p))) = Z.of_nat i).
Proof.
  intros t. assert (table_ok t) as Ht by (apply observe_all_ok; [by apply new_table_ok|done]).
  assert (self_ t = self) as Es.
  { unfold t, observe_all. clear -ps. assert (forall t0, self_ (foldl (fun t p => (observe p t).2) t0 ps) = self_ t0)
      as ->; [|done]. induction ps as [|p ps IH]; intros t0; [done|]. cbn [foldl]. rewrite IH.
    unfold observe. case_bool_decide; [done|]. destruct (_ !! _); [|done]. by destruct (observe_bucket _ _). }
  split_and!; [apply t_len, Ht|by apply (size_bound t)|by apply NoDup_all|].
  intros i b Hi. destruct (t_bucket t Ht i b Hi) as (Hl & _ & Hall). split; [done|].
  intros p Hp. rewrite Forall_forall in Hall. destruct (Hall p Hp) as (Hlen & Hne & Hidx). rewrite Es in *.
  split; [done|]. rewrite bucket_index_spec in Hidx by (rewrite length_xor; congruence).
  destruct (Z.eqb_spec (be_value (xor_distance self (id p))) 0) as [E|E].
  - apply xor_distance_zero in E; congruence.
  - pose proof (Z.log2_nonneg (be_value (xor_distance self (id p)))). lia.
Qed.

(** ** The nearest peers *)

Definition dist (target : bytes) (p : PeerInfo) : Z := be_value (xor_distance (id p) target).

#[local] Instance closer_total target : Total (closer target).
Proof. intros p q. apply key_leb_total. Qed.
#[local] Instance closer_trans target : Transitive (closer target).
Proof. intros p q r. apply key_leb_trans. Qed.

Lemma closer_dist target p q :
  length target = kNodeIdBytes -> length (id p) = kNodeIdBytes -> length (id q) = kNodeIdBytes ->
  closer target p q <-> dist target p <= dist target q.
Proof.
  intros Ht Hp Hq. unfold closer, dist.
  by rewrite key_leb_be_value, Z.leb_le by (rewrite !length_xor; congruence).
Qed.

Lemma dist_inj target p q :
  length target = kNodeIdBytes -> length (id p) = kNodeIdBytes -> length (id q) = kNodeIdBytes ->
  dist target p = dist target q -> id p = id q.
Proof.
  intros Ht Hp Hq E. apply (xor_distance_inj _ _ target); [congruence..|].
  apply be_value_inj; [rewrite !length_xor; congruence|done].
Qed.

(** A list sorted by [closer] whose ids are distinct is strictly sorted. *)
Lemma sorted_strict target l :
  length target = kNodeIdBytes -> Forall (fun p => length (id p) = kNodeIdBytes) l -> NoDup (id <$> l) ->
  StronglySorted (closer target) l -> StronglySorted (fun p q => dist target p < dist target q) l.
Proof.
  intros Ht Hl Hnd Hs. induction Hs as [|p l Hs IH Hp]; [constructor|].
  rewrite fmap_cons, NoDup_cons in Hnd. destruct Hnd as [Hni Hnd].
  apply Forall_cons in Hl as [Hlp Hl]. constructor; [by apply IH|].
  apply Forall_forall. intros q Hq. rewrite Forall_forall in Hp, Hl.
  pose proof (proj1 (closer_dist target p q Ht Hlp (Hl q Hq)) (Hp q Hq)).
  assert (dist target p <> dist target q); [|lia]. intros E. apply dist_inj in E; [|auto..].
  apply Hni. rewrite E. by apply list_elem_of_fmap_2.
Qed.

Lemma closest_spec target limit t :
  table_ok t -> length target = kNodeIdBytes ->
  let r := closest target limit t in
  length r = Nat.min limit (size t) /\
  StronglySorted (fun p q => dist target p < dist target q) r /\
  (forall p, p ∈ r -> p ∈ all t) /\
  (forall p q, p ∈ r -> q ∈ all t -> q ∉ r -> dist target p < dist target q).
Proof.
  intros Ht Htg r. set (l := merge_sort (closer target) (all t)).
  assert (l ≡ₚ all t) as Hperm by apply merge_sort_Permutation.
  assert (StronglySorted (fun p q => dist target p < dist target q) l) as Hs.
  { apply sorted_strict; [done| | |apply StronglySorted_merge_sort; apply _].
    - apply Forall_forall. intros p Hp. rewrite Hperm in Hp. by apply (all_ids_ok t).
    - rewrite Hperm. by apply NoDup_all. }
  unfold r, closest. fold l. split_and!.
  - by rewrite length_take, Hperm, length_all.
  - by apply StronglySorted_take.
  - intros p Hp. rewrite <- Hperm, <- (take_drop limit l), elem_of_app. by left.
  - intros p q Hp Hq Hnq. rewrite <- Hperm, <- (take_drop limit l), elem_of_app in Hq.
    destruct Hq as [Hq|Hq]; [done|].
    by apply (StronglySorted_take_drop (fun p q => dist target p < dist target q) limit l).
Qed.

(** [closest] answers the nearest peers.  Over any table the observations
    can build, it returns as many peers as asked for or as there are, all from
    the table, in strictly increasing XOR distance from the target, and every
    peer it leaves out is farther than every peer it returns. *)
Theorem closest_nearest (self : bytes) (ps : list PeerInfo) (target : bytes) (limit : nat)
    (Hself : length self = kNodeIdBytes) (Htarget : length target = kNodeIdBytes)
    (Hps : Forall (fun p => length (id p) = kNodeIdBytes) ps) :
  let t := observe_all ps (new_table self) in
  let r := closest target limit t in
  length r = Nat.min limit (size t) /\
  StronglySorted (fun p q => dist target p < dist target q) r /\
  (forall p, p ∈ r -> p ∈ all t) /\
  (forall p q, p ∈ r -> q ∈ all t -> q ∉ r -> dist target p < dist target q).
Proof. apply closest_spec; [|done]. apply observe_all_ok; [by apply new_table_ok|done]. Qed.

(** A full bucket forgets its newest peer, not its oldest.  When a bucket
    holds 16 peers, a new peer takes the place of the front entry; the next new
    peer then replaces that newcomer, and the other 15 stay forever however
    long ago they were seen. *)
Theorem full_bucket_evicts_newcomer (t : RoutingTable) (idx : nat) (oldest : PeerInfo)
    (rest : list PeerInfo) (p q : PeerInfo)
    (Hfull : buckets_ t !! idx = Some (oldest :: rest)) (Hlen : length rest = 15%nat)
    (Hp : id p <> self_ t) (Hq : id q <> self_ t)
    (Hip : bucket_index (xor_distance (self_ t) (id p)) = idx)
    (Hiq : bucket_index (xor_distance (self_ t) (id q)) = idx)
    (Hnew : Forall (fun r => id r <> id p /\ id r <> id q) (oldest :: rest)) (Hpq : id p <> id q) :
  let t1 := (observe p t).2 in
  let t2 := (observe q t1).2 in
  buckets_ t1 !! idx = Some (p :: rest) /\ buckets_ t2 !! idx = Some (q :: rest).
Proof.
  assert (forall r o (t0 : RoutingTable), self_ t0 = self_ t -> id r <> self_ t ->
    bucket_index (xor_distance (self_ t) (id r)) = idx ->
    buckets_ t0 !! idx = Some (o :: rest) -> Forall (fun x => id x <> id r) (o :: rest) ->
    self_ (observe r t0).2 = self_ t /\ buckets_ (observe r t0).2 !! idx = Some (r :: rest)) as Hstep.
  { intros r o t0 Es Hr Hi Hb Hn. unfold observe. rewrite Es, bool_decide_false by done. rewrite Hi, Hb.
    unfold observe_bucket. rewrite (proj2 (list_find_None _ _)) by done. cbn [length].
    rewrite Hlen. cbn. split; [done|]. apply list_lookup_insert_eq. by apply lookup_lt_Some in Hb. }
  apply Forall_cons in Hnew as [[Hop Hoq] Hnew].
  destruct (Hstep p oldest t) as [Es1 Hb1]; try done.
  { constructor; [done|]. eapply Forall_impl; [exact Hnew|]. by intros ? []. }
  split; [done|]. apply (Hstep q p); try done.
  constructor; [done|]. eapply Forall_impl; [exact Hnew|]. by intros ? [].
Qed.

(** ** Witnesses *)

Definition w_id (n : Z) : bytes := be_bytes 20 n.
Definition w_peer (n : Z) : PeerInfo := mkPeerInfo (w_id n) (str "tcp://h") [].
Definition w_peers : list PeerInfo := (fun i => w_peer (64 + Z.of_nat i)) <$> seq 0 16.

Lemma w_ids_ok l : Forall (fun p => length (id p) = kNodeIdBytes) (w_peer <$> l).
Proof. apply Forall_fmap, Forall_true. intros n. apply (length_be_bytes 20). Qed.

Lemma routing_table_invariant_witness :
  let t := observe_all (w_peer <$> [5; 6; 7; 5]) (new_table (w_id 1)) in
  length (buckets_ t) = 160%nat /\ (size t <= 2560)%nat /\ NoDup (id <$> all t) /\ size t = 3%nat.
Proof.
  destruct (routing_table_invariant (w_id 1) (w_peer <$> [5; 6; 7; 5]) eq_refl (w_ids_ok _)) as (H1 & H2 & H3 & _).
  split; [exact H1|]. split; [exact H2|]. split; [exact H3|]. vm_compute. reflexivity.
Defined.

Lemma closest_nearest_witness :
  let t := observe_all (w_peer <$> [5; 6; 7; 12]) (new_table (w_id 1)) in
  length (closest (w_id 4) 3 t) = Nat.min 3 (size t) /\ closest (w_id 4) 3 t = w_peer <$> [5; 6; 7].
Proof.
  destruct (closest_nearest (w_id 1) (w_peer <$> [5; 6; 7; 12]) (w_id 4) 3 eq_refl eq_refl (w_ids_ok _)) as (H1 & _).
  split; [exact H1|]. vm_compute. reflexivity.
Defined.

Lemma full_bucket_evicts_newcomer_witness :
  let t := observe_all w_peers (new_table (w_id 1)) in
  let t2 := (observe (w_peer 101) (observe (w_peer 100) t).2).2 in
  buckets_ t2 !! 6%nat = Some (w_peer 101 :: tail w_peers).
Proof.
  refine (proj2 (full_bucket_evicts_newcomer (observe_all w_peers (new_table (w_id 1))) 6 (w_peer 64) (tail w_peers)
    (w_peer 100) (w_peer 101) _ _ _ _ _ _ _ _)); by_computing || (vm_compute; reflexivity).
Defined.
End Kademlia.
