(* ===== verification/ProviderRecords.v ===== *)
(** * Signed DHT records ([src/core/src/p2p/provider_records.cpp])

    Provider records (where a peer is reachable) and prekey records (how to
    start a session with it): the canonical bytes their publisher signs, their
    construction and verification, and the two stores that keep them.  The
    stores have the same code, so their bodies are written once over the class
    [StoredRecord]. *)
From S2P Require Import Prelude StdMap Username.

Definition kRecordClockSkewMs : Z := 5 * 60 * 1000.
Definition kMaxAddressesPerRecord : nat := 16.
Definition kMaxAddressBytes : nat := 128.
Definition kPqPubBytes : nat := 1184.

(** [fb::proto::ProviderRecord] *)
Record ProviderRecord := mkProviderRecord {
  publisher_pubkey : bytes;
  addresses : list bytes;
  published_at_ms : Z;
  ttl_ms : Z;
  nonce : bytes;
  signature : bytes;
  offline_relays : list bytes;
}.

(** [fb::proto::PrekeyRecord] *)
Record PrekeyRecord := mkPrekeyRecord {
  pk_publisher_pubkey : bytes;
  pk_signed_prekey : bytes;
  pk_signed_prekey_signature : bytes;
  pk_published_at_ms : Z;
  pk_ttl_ms : Z;
  pk_nonce : bytes;
  pk_signature : bytes;
  pk_pq_pubkey : bytes;
  pk_pq_pubkey_sig : bytes;
}.

#[export] Instance ProviderRecord_eq_dec : EqDecision ProviderRecord.
Proof. solve_decision. Defined.
#[export] Instance PrekeyRecord_eq_dec : EqDecision PrekeyRecord.
Proof. solve_decision. Defined.

(** The [std::invalid_argument]s. *)
Inductive RecordError :=
| BadPubkey | BadNonce | TooManyAddresses | AddressTooLong | BadRelay
| BadSecret | NoAddresses | BadSignedPrekey | BadPrekeySignature | BadPqPubkey | BadPqSignature.

Definition append_be16 (out : bytes) (v : Z) : bytes :=
  out ++ [z2b (Z.land (Z.shiftr v 8) 255); z2b (Z.land v 255)].

(** [for (i = 7; i >= 0; --i) out.push_back((v >> (8 * i)) & 0xff)] *)
Definition append_be64 (out : bytes) (v : Z) : bytes := out ++ be_bytes 8 v.

Definition kCanonicalMagic : bytes := str "fb.p2p.ProviderRecord:v1" ++ [Byte.x0a].

Fixpoint append_addresses (out : bytes) (addrs : list bytes) : result RecordError bytes :=
  match addrs with
  | [] => Ok out
  | addr :: rest =>
      if (kMaxAddressBytes <? length addr)%nat then Throw AddressTooLong
      else append_addresses (append_be16 out (u16 (Z.of_nat (length addr))) ++ addr) rest
  end.

Fixpoint append_relays (out : bytes) (relays : list bytes) : result RecordError bytes :=
  match relays with
  | [] => Ok out
  | r :: rest =>
      if negb (length r =? 32)%nat then Throw BadRelay
      else append_relays (out ++ r) rest
  end.

Definition canonical_signing_bytes (pubkey : bytes) (addrs : list bytes) (published ttl : Z)
    (nonce : bytes) (relays : list bytes) : result RecordError bytes :=
  if negb (length pubkey =? 32)%nat then Throw BadPubkey
  else if negb (length nonce =? 16)%nat then Throw BadNonce
  else if (kMaxAddressesPerRecord <? length addrs)%nat then Throw TooManyAddresses
  else
    let out := kCanonicalMagic ++ [z2b 32] ++ pubkey in
    let out := append_be16 out (u16 (Z.of_nat (length addrs))) in
    let? out := append_addresses out addrs in
    let out := append_be64 out published in
    let out := append_be64 out ttl in
    let out := out ++ [z2b 16] ++ nonce in
    let out := append_be16 out (u16 (Z.of_nat (length relays))) in
    append_relays out relays.

Definition kPrekeyMagic : bytes := str "fb.p2p.PrekeyRecord:v1" ++ [Byte.x0a].
Definition kPrekeyMagicV2 : bytes := str "fb.p2p.PrekeyRecord:v2" ++ [Byte.x0a].

Definition nonempty (b : bytes) : bool := match b with [] => false | _ => true end.

Definition prekey_canonical_signing_bytes (pubkey spk spk_sig : bytes) (published ttl : Z)
    (nonce pq_pubkey pq_pubkey_sig : bytes) : result RecordError bytes :=
  if negb (length pubkey =? 32)%nat then Throw BadPubkey
  else if negb (length spk =? 32)%nat then Throw BadSignedPrekey
  else if negb (length spk_sig =? 64)%nat then Throw BadPrekeySignature
  else if negb (length nonce =? 16)%nat then Throw BadNonce
  else
    let pq_present := nonempty pq_pubkey || nonempty pq_pubkey_sig in
    if pq_present && negb (length pq_pubkey =? kPqPubBytes)%nat then Throw BadPqPubkey
    else if pq_present && negb (length pq_pubkey_sig =? 64)%nat then Throw BadPqSignature
    else
      let out := (if pq_present then kPrekeyMagicV2 else kPrekeyMagic) in
      let out := out ++ [z2b 32] ++ pubkey in
      let out := out ++ [z2b 32] ++ spk in
      let out := out ++ [z2b 64] ++ spk_sig in
      let out := append_be64 out published in
      let out := append_be64 out ttl in
      let out := out ++ [z2b 16] ++ nonce in
      Ok (if pq_present then
            append_be16 out (Z.of_nat kPqPubBytes) ++ pq_pubkey ++ [z2b 64] ++ pq_pubkey_sig
          else out).

Definition provider_signing_bytes (r : ProviderRecord) : result RecordError bytes :=
  canonical_signing_bytes (publisher_pubkey r) (addresses r) (published_at_ms r) (ttl_ms r)
    (nonce r) (offline_relays r).

Definition prekey_signing_bytes (r : PrekeyRecord) : result RecordError bytes :=
  prekey_canonical_signing_bytes (pk_publisher_pubkey r) (pk_signed_prekey r)
    (pk_signed_prekey_signature r) (pk_published_at_ms r) (pk_ttl_ms r) (pk_nonce r)
    (pk_pq_pubkey r) (pk_pq_pubkey_sig r).

Section records.
Context `{!Ed25519}.

(** The nonce is what [randombytes_buf] wrote. *)
Definition build_record (sig_pub sig_priv : bytes) (addrs : list bytes) (published ttl : Z)
    (relays : list bytes) (random : bytes) : result RecordError ProviderRecord :=
  if negb (length sig_pub =? 32)%nat then Throw BadPubkey
  else if negb (length sig_priv =? 64)%nat then Throw BadSecret
  else if bool_decide (addrs = []) then Throw NoAddresses
  else if negb (forallb (fun r => (length r =? 32)%nat) relays) then Throw BadRelay
  else
    let? signing := canonical_signing_bytes sig_pub addrs published ttl random relays in
    Ok (mkProviderRecord sig_pub addrs published ttl random (sign_detached sig_priv signing) relays).

(** The format tests of [ProviderStore::put], all with the same answer. *)
Definition provider_format_ok (r : ProviderRecord) : bool :=
  (length (publisher_pubkey r) =? 32)%nat && (length (signature r) =? 64)%nat &&
  (length (nonce r) =? 16)%nat && negb (length (addresses r) =? 0)%nat &&
  negb (kMaxAddressesPerRecord <? length (addresses r))%nat &&
  forallb (fun a => negb (kMaxAddressBytes <? length a)%nat) (addresses r).

(** [canonical_signing_bytes] does not throw here ([provider_signing_total]). *)
Definition verify_record_signature (r : ProviderRecord) : bool :=
  if negb (provider_format_ok r) then false
  else if negb (forallb (fun rel => (length rel =? 32)%nat) (offline_relays r)) then false
  else match provider_signing_bytes r with
       | Ok signing => verify_detached (publisher_pubkey r) signing (signature r)
       | Throw _ => false
       end.

Definition build_prekey_record (sig_pub sig_priv spk spk_sig : bytes) (published ttl : Z)
    (pq_pubkey pq_pubkey_sig random : bytes) : result RecordError PrekeyRecord :=
  if negb (length sig_pub =? 32)%nat then Throw BadPubkey
  else if negb (length sig_priv =? 64)%nat then Throw BadSecret
  else
    let? signing := prekey_canonical_signing_bytes sig_pub spk spk_sig published ttl random
                      pq_pubkey pq_pubkey_sig in
    Ok (mkPrekeyRecord sig_pub spk spk_sig published ttl random
          (sign_detached sig_priv signing) pq_pubkey pq_pubkey_sig).

Definition prekey_format_ok (r : PrekeyRecord) : bool :=
  (length (pk_publisher_pubkey r) =? 32)%nat && (length (pk_signed_prekey r) =? 32)%nat &&
  (length (pk_signed_prekey_signature r) =? 64)%nat && (length (pk_signature r) =? 64)%nat &&
  (length (pk_nonce r) =? 16)%nat.

Definition pq_present (r : PrekeyRecord) : bool := nonempty (pk_pq_pubkey r) || nonempty (pk_pq_pubkey_sig r).

Definition verify_prekey_record_signature (r : PrekeyRecord) : bool :=
  if negb (prekey_format_ok r) then false
  else if pq_present r && negb (length (pk_pq_pubkey r) =? kPqPubBytes)%nat then false
  else if pq_present r && negb (length (pk_pq_pubkey_sig r) =? 64)%nat then false
  else match prekey_signing_bytes r with
       | Ok signing =>
           if negb (verify_detached (pk_publisher_pubkey r) signing (pk_signature r)) then false
           else if negb (verify_detached (pk_publisher_pubkey r) (pk_signed_prekey r)
                           (pk_signed_prekey_signature r)) then false
           else if pq_present r &&
                   negb (verify_detached (pk_publisher_pubkey r) (pk_pq_pubkey r) (pk_pq_pubkey_sig r))
                then false
           else true
       | Throw _ => false
       end.
End records.

(** ** The stores *)

(** What a store needs to know of its records. *)
Class StoredRecord (R : Type) := {
  rec_publisher : R -> bytes;
  rec_nonce : R -> bytes;
  rec_published : R -> Z;
  rec_ttl : R -> Z;
  rec_format_ok : R -> bool;
  rec_verify : R -> bool;
}.

#[export] Instance provider_stored `{!Ed25519} : StoredRecord ProviderRecord := {|
  rec_publisher := publisher_pubkey;
  rec_nonce := nonce;
  rec_published := published_at_ms;
  rec_ttl := ttl_ms;
  rec_format_ok := provider_format_ok;
  rec_verify := verify_record_signature;
|}.

#[export] Instance prekey_stored `{!Ed25519} : StoredRecord PrekeyRecord := {|
  rec_publisher := pk_publisher_pubkey;
  rec_nonce := pk_nonce;
  rec_published := pk_published_at_ms;
  rec_ttl := pk_ttl_ms;
  rec_format_ok := prekey_format_ok;
  rec_verify := verify_prekey_record_signature;
|}.

Inductive PutResult :=
| kAccepted | kAlreadyKnown | kRejectedSig | kRejectedFormat | kRejectedExpired | kRejectedClock.

#[export] Instance PutResult_eq_dec : EqDecision PutResult.
Proof. solve_decision. Defined.

(** The system clock is an argument; 0 asks for it. *)
Definition now_ms_or (clock override_ms : Z) : Z := if override_ms =? 0 then clock else override_ms.

(** [by_publisher]: publisher key, then publisher key and nonce. *)
Abbreviation RecordStore R := (gmap bytes (gmap bytes R)).

Section store.
Context {R : Type} `{!StoredRecord R}.

Definition record_expired (r : R) (now : Z) : bool := u64 (rec_published r + rec_ttl r) <=? now.

Definition record_key (r : R) : bytes := rec_publisher r ++ rec_nonce r.

Definition store_put (clock : Z) (record : R) (now_ms : Z) (s : RecordStore R) : PutResult * RecordStore R :=
  if negb (rec_format_ok record) then (kRejectedFormat, s)
  else
    let now := now_ms_or clock now_ms in
    if u64 (now + kRecordClockSkewMs) <? rec_published record then (kRejectedClock, s)
    else if record_expired record now then (kRejectedExpired, s)
    else if negb (rec_verify record) then (kRejectedSig, s)
    else
      let bucket := default ∅ (s !! rec_publisher record) in
      match bucket !! record_key record with
      | Some _ => (kAlreadyKnown, <[rec_publisher record := bucket]> s)
      | None => (kAccepted, <[rec_publisher record := <[record_key record := record]> bucket]> s)
      end.

Definition store_get (clock : Z) (pubkey : bytes) (now_ms : Z) (s : RecordStore R) : list R :=
  let now := now_ms_or clock now_ms in
  match s !! pubkey with
  | None => []
  | Some bucket => filter (fun r => record_expired r now = false) (map_elements bucket).*2
  end.

(** The inner loop: the bucket and how many records went. *)
Definition prune_bucket (now : Z) (bucket : gmap bytes R) : gmap bytes R :=
  update_loop (fun _ r => if record_expired r now then None else Some r) bucket.

Definition pruned_count (now : Z) (bucket : gmap bytes R) : nat :=
  length (filter (fun r => record_expired r now = true) (map_elements bucket).*2).

Definition store_prune (clock now_ms : Z) (s : RecordStore R) : nat * RecordStore R :=
  let now := now_ms_or clock now_ms in
  (sum_list_with (fun kb => pruned_count now kb.2) (map_elements s),
   update_loop (fun _ bucket =>
     let bucket' := prune_bucket now bucket in
     if bool_decide (bucket' = ∅) then None else Some bucket') s).

Definition store_size (s : RecordStore R) : nat := sum_list_with (fun kb => size kb.2) (map_elements s).
End store.

Section stores.
Context `{!Ed25519}.

Definition provider_put (clock : Z) (record : ProviderRecord) (now_ms : Z) (s : RecordStore ProviderRecord) :
    PutResult * RecordStore ProviderRecord := store_put clock record now_ms s.
Definition provider_get (clock : Z) (pubkey : bytes) (now_ms : Z) (s : RecordStore ProviderRecord) :
    list ProviderRecord := store_get clock pubkey now_ms s.
Definition provider_prune_expired (clock now_ms : Z) (s : RecordStore ProviderRecord) :
    nat * RecordStore ProviderRecord := store_prune clock now_ms s.
Definition provider_size (s : RecordStore ProviderRecord) : nat := store_size s.

Definition prekey_put (clock : Z) (record : PrekeyRecord) (now_ms : Z) (s : RecordStore PrekeyRecord) :
    PutResult * RecordStore PrekeyRecord := store_put clock record now_ms s.
Definition prekey_get_all (clock : Z) (pubkey : bytes) (now_ms : Z) (s : RecordStore PrekeyRecord) :
    list PrekeyRecord := store_get clock pubkey now_ms s.
Definition prekey_prune_expired (clock now_ms : Z) (s : RecordStore PrekeyRecord) :
    nat * RecordStore PrekeyRecord := store_prune clock now_ms s.
Definition prekey_size (s : RecordStore PrekeyRecord) : nat := store_size s.

Definition prekey_expired (r : PrekeyRecord) (now : Z) : bool := record_expired r now.

Definition latest_step (now : Z) (best : option PrekeyRecord) (rec : PrekeyRecord) : option PrekeyRecord :=
  if prekey_expired rec now then best
  else match best with
       | None => Some rec
       | Some b => if pk_published_at_ms b <? pk_published_at_ms rec then Some rec else best
       end.

Definition prekey_get_latest (clock : Z) (pubkey : bytes) (now_ms : Z) (s : RecordStore PrekeyRecord) :
    option PrekeyRecord :=
  let now := now_ms_or clock now_ms in
  match s !! pubkey with
  | None => None
  | Some bucket => foldl (latest_step now) None (map_elements bucket).*2
  end.
End stores.
