(* ===== verification/ProviderRecordsProofs.v ===== *)
(** * Properties of the signed DHT records

    The canonical bytes determine the record; built records are accepted and
    served; the stores hold only validly signed records and answer exactly the
    unexpired ones. *)
From S2P Require Import Prelude StdMap Username ProviderRecords.

(** ** The canonical bytes *)

Definition addr_enc (a : bytes) : bytes := be_bytes 2 (u16 (Z.of_nat (length a))) ++ a.

Lemma append_be16_eq out v : append_be16 out v = out ++ be_bytes 2 v.
Proof. unfold append_be16. cbn [be_bytes]. by rewrite Z.shiftr_0_r. Qed.

Lemma append_addresses_Ok out addrs b :
  append_addresses out addrs = Ok b <->
  Forall (fun a => length a <= kMaxAddressBytes)%nat addrs /\ b = out ++ mjoin (addr_enc <$> addrs).
Proof.
  revert out. induction addrs as [|a addrs IH]; intros out; cbn [append_addresses].
  - rewrite app_nil_r. split; [by intros [= ->]|by intros [_ ->]].
  - rewrite Forall_cons, fmap_cons. change (mjoin (?x :: ?l)) with (x ++ mjoin l).
    destruct (Nat.ltb_spec kMaxAddressBytes (length a)) as [Hlt|Hge].
    + split; [done|]. intros [[? _] _]. lia.
    + rewrite IH, append_be16_eq. unfold addr_enc at 2. rewrite <- !app_assoc. tauto.
Qed.

Lemma append_relays_Ok out relays b :
  append_relays out relays = Ok b <->
  Forall (fun r => length r = 32%nat) relays /\ b = out ++ mjoin relays.
Proof.
  revert out. induction relays as [|r relays IH]; intros out; cbn [append_relays].
  - change (mjoin []) with ([] : bytes). rewrite app_nil_r. split; [by intros [= ->]|by intros [_ ->]].
  - rewrite Forall_cons. change (mjoin (r :: relays)) with (r ++ mjoin relays).
    destruct (Nat.eqb_spec (length r) 32) as [E|E]; cbn [negb].
    + rewrite IH, <- app_assoc. tauto.
    + split; [done|]. by intros [[? _] _].
Qed.

(** The layout that the comment at the head of the source gives. *)
Definition provider_layout (r : ProviderRecord) : bytes :=
  kCanonicalMagic ++ [z2b 32] ++ publisher_pubkey r ++
  be_bytes 2 (Z.of_nat (length (addresses r))) ++ mjoin (addr_enc <$> addresses r) ++
  be_bytes 8 (published_at_ms r) ++ be_bytes 8 (ttl_ms r) ++ [z2b 16] ++ nonce r ++
  be_bytes 2 (u16 (Z.of_nat (length (offline_relays r)))) ++ mjoin (offline_relays r).

Record provider_shape (r : ProviderRecord) : Prop := {
  ps_pubkey : length (publisher_pubkey r) = 32%nat;
  ps_nonce : length (nonce r) = 16%nat;
  ps_count : (length (addresses r) <= kMaxAddressesPerRecord)%nat;
  ps_addrs : Forall (fun a => length a <= kMaxAddressBytes)%nat (addresses r);
  ps_relays : Forall (fun a => length a = 32%nat) (offline_relays r);
}.

Lemma provider_signing_Ok r b :
  provider_signing_bytes r = Ok b <-> provider_shape r /\ b = provider_layout r.
Proof.
  unfold provider_signing_bytes, canonical_signing_bytes, provider_layout.
  destruct (Nat.eqb_spec (length (publisher_pubkey r)) 32); cbn [negb];
    [|split; [done|by intros [[] _]]].
  destruct (Nat.eqb_spec (length (nonce r)) 16); cbn [negb]; [|split; [done|by intros [[] _]]].
  destruct (Nat.ltb_spec kMaxAddressesPerRecord (length (addresses r)));
    [split; [done|intros [[] _]; lia]|].
  assert (u16 (Z.of_nat (length (addresses r))) = Z.of_nat (length (addresses r))) as ->.
  { unfold kMaxAddressesPerRecord in *. unfold_words. apply Z.mod_small. lia. }
  unfold append_be64. rewrite !append_be16_eq.
  destruct (append_addresses _ (addresses r)) as [out|err] eqn:E; cbn [rbind].
  - apply append_addresses_Ok in E as [Ha ->]. rewrite append_be16_eq, append_relays_Ok, <- !app_assoc.
    split; [intros [Hr ->]; split; [by constructor|done]|intros [[] ->]; done].
  - split; [done|]. intros [[_ _ _ Ha _] _]. exfalso.
    assert (append_addresses (((kCanonicalMagic ++ [z2b 32] ++ publisher_pubkey r) ++
      be_bytes 2 (Z.of_nat (length (addresses r))))) (addresses r) = Ok _) as E'
      by (apply append_addresses_Ok; split; [exact Ha|reflexivity]).
    rewrite E' in E. done.
Qed.

Definition prekey_layout (r : PrekeyRecord) : bytes :=
  (if pq_present r then kPrekeyMagicV2 else kPrekeyMagic) ++
  [z2b 32] ++ pk_publisher_pubkey r ++ [z2b 32] ++ pk_signed_prekey r ++
  [z2b 64] ++ pk_signed_prekey_signature r ++
  be_bytes 8 (pk_published_at_ms r) ++ be_bytes 8 (pk_ttl_ms r) ++ [z2b 16] ++ pk_nonce r ++
  (if pq_present r then be_bytes 2 1184 ++ pk_pq_pubkey r ++ [z2b 64] ++ pk_pq_pubkey_sig r else []).

Record prekey_shape (r : PrekeyRecord) : Prop := {
  ks_pubkey : length (pk_publisher_pubkey r) = 32%nat;
  ks_spk : length (pk_signed_prekey r) = 32%nat;
  ks_spk_sig : length (pk_signed_prekey_signature r) = 64%nat;
  ks_nonce : length (pk_nonce r) = 16%nat;
  ks_pq : (pk_pq_pubkey r = [] /\ pk_pq_pubkey_sig r = []) \/
          (length (pk_pq_pubkey r) = kPqPubBytes /\ length (pk_pq_pubkey_sig r) = 64%nat);
}.

Lemma pq_present_false r :
  pq_present r = false <-> pk_pq_pubkey r = [] /\ pk_pq_pubkey_sig r = [].
Proof.
  unfold pq_present. rewrite orb_false_iff.
  destruct (pk_pq_pubkey r), (pk_pq_pubkey_sig r); cbn; intuition congruence.
Qed.

Lemma prekey_signing_Ok r b :
  prekey_signing_bytes r = Ok b <-> prekey_shape r /\ b = prekey_layout r.
Proof.
  unfold prekey_signing_bytes, prekey_canonical_signing_bytes, prekey_layout.
  change (nonempty (pk_pq_pubkey r) || nonempty (pk_pq_pubkey_sig r)) with (pq_present r).
  destruct (Nat.eqb_spec (length (pk_publisher_pubkey r)) 32); cbn [negb];
    [|split; [done|by intros [[] _]]].
  destruct (Nat.eqb_spec (length (pk_signed_prekey r)) 32); cbn [negb];
    [|split; [done|by intros [[] _]]].
  destruct (Nat.eqb_spec (length (pk_signed_prekey_signature r)) 64); cbn [negb];
    [|split; [done|by intros [[] _]]].
  destruct (Nat.eqb_spec (length (pk_nonce r)) 16); cbn [negb]; [|split; [done|by intros [[] _]]].
  unfold append_be64. rewrite append_be16_eq, <- !app_assoc.
  change (be_bytes 2 (Z.of_nat kPqPubBytes)) with (be_bytes 2 1184).
  destruct (pq_present r) eqn:Ep; cbn [andb].
  - assert (~ (pk_pq_pubkey r = [] /\ pk_pq_pubkey_sig r = [])) as Hn
      by (intros Hn; apply pq_present_false in Hn; congruence).
    destruct (Nat.eqb_spec (length (pk_pq_pubkey r)) kPqPubBytes) as [E1|E1]; cbn [negb];
      [|split; [done|intros [[_ _ _ _ [?|[? _]]] _]; done]].
    destruct (Nat.eqb_spec (length (pk_pq_pubkey_sig r)) 64) as [E2|E2]; cbn [negb];
      [|split; [done|intros [[_ _ _ _ [?|[_ ?]]] _]; done]].
    split; [intros [= <-]; split; [constructor; auto|done]|by intros [_ ->]].
  - apply pq_present_false in Ep. rewrite app_nil_r.
    split; [intros [= <-]; split; [constructor; auto|done]|by intros [_ ->]].
Qed.

(** ** Reading the layout back *)

Lemma addrs_enc_inj l1 l2 (t1 t2 : bytes) :
  length l1 = length l2 ->
  Forall (fun a => length a <= kMaxAddressBytes)%nat l1 ->
  Forall (fun a => length a <= kMaxAddressBytes)%nat l2 ->
  mjoin (addr_enc <$> l1) ++ t1 = mjoin (addr_enc <$> l2) ++ t2 -> l1 = l2 /\ t1 = t2.
Proof.
  revert l2. induction l1 as [|a l1 IH]; intros [|b l2] Hl H1 H2 E; try done.
  rewrite !fmap_cons in E. injection Hl as Hl. apply Forall_cons in H1 as [Ha H1].
  apply Forall_cons in H2 as [Hb H2]. unfold kMaxAddressBytes in *.
  change (mjoin (?x :: ?l)) with (x ++ mjoin l) in E. unfold addr_enc at 1 3 in E.
  rewrite <- !app_assoc in E. apply app_inj_1 in E as [El E]; [|by rewrite !length_be_bytes].
  apply be_bytes_inj in El; [|unfold_words; rewrite Z.mod_small; lia..].
  unfold_words. rewrite !Z.mod_small in El by lia. apply app_inj_1 in E as [-> E]; [|lia].
  destruct (IH l2) as [-> ->]; done.
Qed.

Lemma chunks_inj n (l1 l2 : list bytes) :
  (0 < n)%nat -> Forall (fun r => length r = n) l1 -> Forall (fun r => length r = n) l2 ->
  mjoin l1 = mjoin l2 -> l1 = l2.
Proof.
  intros Hn. revert l2. induction l1 as [|a l1 IH]; intros [|b l2] H1 H2 E; [done|..].
  - apply Forall_cons in H2 as [Hb _]. change (mjoin (b :: l2)) with (b ++ mjoin l2) in E.
    apply (f_equal length) in E. rewrite length_app in E. cbn in E. lia.
  - apply Forall_cons in H1 as [Ha _]. change (mjoin (a :: l1)) with (a ++ mjoin l1) in E.
    apply (f_equal length) in E. rewrite length_app in E. cbn in E. lia.
  - apply Forall_cons in H1 as [Ha H1]. apply Forall_cons in H2 as [Hb H2].
    change (mjoin (?x :: ?l)) with (x ++ mjoin l) in E. apply app_inj_1 in E as [-> E]; [|congruence].
    f_equal. by apply IH.
Qed.

Lemma be64_inj a b : is_u64 a -> is_u64 b -> be_bytes 8 a = be_bytes 8 b -> a = b.
Proof. intros Ha Hb. apply be_bytes_inj; unfold_words; cbn; lia. Qed.

(** Take the first field off both sides of an equation of layouts. *)
Ltac peel E X := apply app_inj_1 in E as [X E]; [|rewrite ?length_be_bytes; congruence].

Definition unsigned (r : ProviderRecord) : ProviderRecord :=
  mkProviderRecord (publisher_pubkey r) (addresses r) (published_at_ms r) (ttl_ms r) (nonce r) []
    (offline_relays r).

Definition prekey_unsigned (r : PrekeyRecord) : PrekeyRecord :=
  mkPrekeyRecord (pk_publisher_pubkey r) (pk_signed_prekey r) (pk_signed_prekey_signature r)
    (pk_published_at_ms r) (pk_ttl_ms r) (pk_nonce r) [] (pk_pq_pubkey r) (pk_pq_pubkey_sig r).

Lemma provider_layout_inj r r' :
  provider_shape r -> provider_shape r' ->
  is_u64 (published_at_ms r) -> is_u64 (published_at_ms r') -> is_u64 (ttl_ms r) -> is_u64 (ttl_ms r') ->
  provider_layout r = provider_layout r' -> unsigned r = unsigned r'.
Proof.
  intros [H1 H2 H3 H4 H5] [G1 G2 G3 G4 G5] Hp Gp Ht Gt E. unfold provider_layout in E.
  unfold kMaxAddressesPerRecord in *.
  peel E X0. peel E X1. peel E Epk. peel E Ecount.
  apply be_bytes_inj in Ecount; [|cbn; lia..]. apply Nat2Z.inj in Ecount.
  apply addrs_enc_inj in E as [Ea E]; [|done..].
  peel E Ep. peel E Et. peel E X2. peel E En. peel E X3.
  apply (chunks_inj 32) in E; [|lia|done..]. unfold unsigned.
  apply be64_inj in Ep, Et; [|done..]. congruence.
Qed.

Lemma prekey_layout_inj r r' :
  prekey_shape r -> prekey_shape r' ->
  is_u64 (pk_published_at_ms r) -> is_u64 (pk_published_at_ms r') ->
  is_u64 (pk_ttl_ms r) -> is_u64 (pk_ttl_ms r') ->
  prekey_layout r = prekey_layout r' -> prekey_unsigned r = prekey_unsigned r'.
Proof.
  intros [H1 H2 H3 H4 H5] [G1 G2 G3 G4 G5] Hp Gp Ht Gt E. unfold prekey_layout in E.
  apply app_inj_1 in E as [Em E]; [|by destruct (pq_present r), (pq_present r')].
  assert (pq_present r = pq_present r') as Epr by (by destruct (pq_present r), (pq_present r')).
  peel E X0. peel E Epk. peel E X1. peel E Espk. peel E X2. peel E Esig.
  peel E Ep. peel E Et. peel E X3. peel E En. apply be64_inj in Ep, Et; [|done..].
  rewrite <- Epr in E. unfold prekey_unsigned.
  destruct (pq_present r) eqn:Ec.
  - assert (~ (pk_pq_pubkey r = [] /\ pk_pq_pubkey_sig r = [])) as Hn.
    { rewrite <- pq_present_false. congruence. }
    assert (~ (pk_pq_pubkey r' = [] /\ pk_pq_pubkey_sig r' = [])) as Gn.
    { rewrite <- pq_present_false. congruence. }
    destruct H5 as [?|[H5 H6]]; [done|]. destruct G5 as [?|[G5 G6]]; [done|].
    peel E X4. peel E Epq. peel E X5. congruence.
  - symmetry in Epr. apply pq_present_false in Ec as [-> ->]. apply pq_present_false in Epr as [-> ->].
    congruence.
Qed.

(** The first bytes tell the three formats apart. *)
Lemma layouts_disjoint r k : provider_layout r <> prekey_layout k.
Proof.
  unfold provider_layout, prekey_layout. intros E. apply (f_equal (take 10)) in E.
  by destruct (pq_present k).
Qed.

(** What an identity key signs in this file. *)
Inductive Statement :=
| SProvider (r : ProviderRecord)
| SPrekey (r : PrekeyRecord).

Definition statement_bytes (s : Statement) : result RecordError bytes :=
  match s with
  | SProvider r => provider_signing_bytes r
  | SPrekey r => prekey_signing_bytes r
  end.

Definition statement_u64 (s : Statement) : Prop :=
  match s with
  | SProvider r => is_u64 (published_at_ms r) /\ is_u64 (ttl_ms r)
  | SPrekey r => is_u64 (pk_published_at_ms r) /\ is_u64 (pk_ttl_ms r)
  end.

Definition content (s : Statement) : Statement :=
  match s with
  | SProvider r => SProvider (unsigned r)
  | SPrekey r => SPrekey (prekey_unsigned r)
  end.

(** The bytes a publisher signs determine everything the record says.  Two
    records, of either kind, with the same canonical bytes are of the same kind
    and agree in every field but the signature, so a signature made for one
    record is valid for no other: not with another address list, time to live,
    relay list or prekey, and not with the post-quantum key stripped. *)
Theorem signing_bytes_injective (s s' : Statement) (b : bytes)
    (Hs : statement_u64 s) (Hs' : statement_u64 s')
    (Hb : statement_bytes s = Ok b) (Hb' : statement_bytes s' = Ok b) :
  content s = content s'.
Proof.
  destruct s as [r|k], s' as [r'|k']; cbn [statement_bytes statement_u64 content] in *; destruct Hs, Hs'.
  - apply provider_signing_Ok in Hb as [? Hb], Hb' as [? Hb']. f_equal.
    apply provider_layout_inj; [done..|congruence].
  - apply provider_signing_Ok in Hb as [? Hb]. apply prekey_signing_Ok in Hb' as [? Hb'].
    destruct (layouts_disjoint r k'). congruence.
  - apply provider_signing_Ok in Hb' as [? Hb']. apply prekey_signing_Ok in Hb as [? Hb].
    destruct (layouts_disjoint r' k). congruence.
  - apply prekey_signing_Ok in Hb as [? Hb], Hb' as [? Hb']. f_equal.
    apply prekey_layout_inj; [done..|congruence].
Qed.

Definition w_provider (sig : bytes) : ProviderRecord :=
  mkProviderRecord (replicate 32 Byte.x01) [str "tcp://h:1"] 5 7 (replicate 16 Byte.x02) sig
    [replicate 32 Byte.x03].

Lemma signing_bytes_injective_witness :
  content (SProvider (w_provider [])) = content (SProvider (w_provider [Byte.x09])).
Proof.
  apply (signing_bytes_injective _ _ (provider_layout (w_provider []))).
  - split; by_computing.
  - split; by_computing.
  - vm_compute. reflexivity.
  - vm_compute. reflexivity.
Defined.
