(* ===== verification/RecordStore.v ===== *)
(** * The record stores

    Both stores of [src/core/src/p2p/provider_records.cpp], over any sequence of
    puts and prunes: what is kept is what was validly signed, what is answered
    is what has not expired, and an accepted record is served until it does. *)
From S2P Require Import Prelude StdMap Username ToySign ProviderRecords ProviderRecordsProofs.

Section store.
Context {R : Type} `{!StoredRecord R}.
Implicit Types (r : R) (s : RecordStore R).

Definition stored s r : Prop :=
  exists bucket, s !! rec_publisher r = Some bucket /\ bucket !! record_key r = Some r.

(** Every record sits under its publisher and its nonce, and is validly signed. *)
Definition store_ok s : Prop :=
  forall pk bucket k r, s !! pk = Some bucket -> bucket !! k = Some r ->
    rec_publisher r = pk /\ k = record_key r /\ rec_format_ok r = true /\ rec_verify r = true.

Inductive StoreOp :=
| OpPut (clock : Z) (record : R) (now_ms : Z)
| OpPrune (clock now_ms : Z).

Definition run_op s (op : StoreOp) : RecordStore R :=
  match op with
  | OpPut clock r now_ms => (store_put clock r now_ms s).2
  | OpPrune clock now_ms => (store_prune clock now_ms s).2
  end.

Definition run_ops (ops : list StoreOp) s : RecordStore R := foldl run_op s ops.

(** ** put *)

Lemma store_put_snd clock r now_ms s :
  (store_put clock r now_ms s).2 = s \/
  rec_format_ok r = true /\ rec_verify r = true /\
  (store_put clock r now_ms s).2 =
    <[rec_publisher r := map_emplace (record_key r) r (default ∅ (s !! rec_publisher r))]> s.
Proof.
  unfold store_put, map_emplace. destruct (rec_format_ok r) eqn:Ef; cbn [negb]; [|by left].
  destruct (_ <? _); [by left|]. destruct (record_expired _ _); [by left|].
  destruct (rec_verify r) eqn:Ev; cbn [negb]; [|by left]. right. split_and!; [done..|].
  by destruct (default ∅ (s !! rec_publisher r) !! record_key r).
Qed.

Lemma store_put_ok clock r now_ms s : store_ok s -> store_ok (store_put clock r now_ms s).2.
Proof.
  intros Hs. destruct (store_put_snd clock r now_ms s) as [->|(Hf & Hv & ->)]; [done|].
  intros pk bucket k q Hb Hq. apply lookup_insert_Some in Hb as [[<- <-]|[_ Hb]]; [|by eapply Hs].
  unfold map_emplace in Hq. destruct (s !! rec_publisher r) as [b|] eqn:E; cbn [default id from_option] in Hq.
  - destruct (b !! record_key r); [by eapply Hs|].
    apply lookup_insert_Some in Hq as [[<- <-]|[_ Hq]]; [done|by eapply Hs].
  - rewrite lookup_empty in Hq. by apply lookup_insert_Some in Hq as [[<- <-]|[_ []%lookup_empty_Some]].
Qed.

Lemma stored_put clock r now_ms s q : stored s q -> stored (store_put clock r now_ms s).2 q.
Proof.
  intros (b & Hb & Hq). destruct (store_put_snd clock r now_ms s) as [->|(_ & _ & ->)]; [by exists b|].
  unfold stored. destruct (decide (rec_publisher r = rec_publisher q)) as [E|E].
  - rewrite E, lookup_insert_eq, Hb. eexists. split; [done|]. cbn [default id from_option].
    unfold map_emplace. destruct (b !! record_key r) eqn:Er; [done|].
    rewrite lookup_insert_ne; [done|]. congruence.
  - rewrite lookup_insert_ne by done. by exists b.
Qed.

Lemma put_accepted clock r now_ms s :
  (store_put clock r now_ms s).1 = kAccepted -> stored (store_put clock r now_ms s).2 r.
Proof.
  unfold store_put. destruct (negb (rec_format_ok r)); [done|]. destruct (_ <? _); [done|].
  destruct (record_expired _ _); [done|]. destruct (negb (rec_verify r)); [done|].
  destruct (_ !! record_key r); [done|]. cbn [snd]. intros _.
  eexists. rewrite lookup_insert_eq. split; [done|]. by rewrite lookup_insert_eq.
Qed.

(** The answer on every branch. *)
Lemma store_put_result clock r now_ms s :
  let now := now_ms_or clock now_ms in
  (store_put clock r now_ms s).1 =
  if negb (rec_format_ok r) then kRejectedFormat
  else if u64 (now + kRecordClockSkewMs) <? rec_published r then kRejectedClock
  else if u64 (rec_published r + rec_ttl r) <=? now then kRejectedExpired
  else if negb (rec_verify r) then kRejectedSig
  else if bool_decide (is_Some (default ∅ (s !! rec_publisher r) !! record_key r)) then kAlreadyKnown
  else kAccepted.
Proof.
  unfold store_put, record_expired. destruct (negb (rec_format_ok r)); [done|]. destruct (_ <? _); [done|].
  destruct (_ <=? _); [done|]. destruct (negb (rec_verify r)); [done|].
  destruct (default ∅ (s !! rec_publisher r) !! record_key r); [done|].
  rewrite bool_decide_false; [done|]. by intros [? [=]].
Qed.

(** ** prune *)

Lemma prune_bucket_filter (now : Z) (b : gmap bytes R) :
  prune_bucket now b = filter (fun kr => record_expired kr.2 now = false) b.
Proof.
  unfold prune_bucket. rewrite update_loop_eq. apply map_eq. intros k. apply option_eq. intros r.
  rewrite map_lookup_filter_Some, map_lookup_imap. destruct (b !! k) as [q|]; cbn; [|naive_solver].
  destruct (record_expired q now) eqn:E; split; [done|intros [[= ->] E2]; cbn in E2; congruence|intros [= ->]; done|by intros [[= ->] _]].
Qed.

Lemma lookup_store_prune clock now_ms s pk bucket :
  (store_prune clock now_ms s).2 !! pk = Some bucket <->
  exists b, s !! pk = Some b /\ bucket = prune_bucket (now_ms_or clock now_ms) b /\ bucket <> ∅.
Proof.
  unfold store_prune. cbn [snd]. rewrite update_loop_eq, map_lookup_imap.
  destruct (s !! pk) as [b|]; cbn; [|naive_solver].
  case_bool_decide as E; [split; [done|]|split].
  - intros (? & [= <-] & -> & Hne). done.
  - intros [= <-]. eauto.
  - by intros (? & [= <-] & -> & _).
Qed.

Lemma stored_prune clock now_ms s r :
  stored (store_prune clock now_ms s).2 r <->
  stored s r /\ record_expired r (now_ms_or clock now_ms) = false.
Proof.
  unfold stored. setoid_rewrite lookup_store_prune. setoid_rewrite prune_bucket_filter. split.
  - intros (b' & (b & Hb & -> & _) & Hr). apply map_lookup_filter_Some in Hr as [Hr He]. eauto.
  - intros ((b & Hb & Hr) & He). eexists. split; [exists b; split; [done|split; [done|]]|].
    + intros E. apply (f_equal (fun m : gmap bytes R => m !! record_key r)) in E. rewrite lookup_empty in E.
      rewrite (proj2 (map_lookup_filter_Some (fun kr => record_expired kr.2 _ = false) b (record_key r) r)) in E; done.
    + by apply map_lookup_filter_Some.
Qed.

Lemma store_prune_ok clock now_ms s : store_ok s -> store_ok (store_prune clock now_ms s).2.
Proof.
  intros Hs pk bucket k r (b & Hb & -> & _)%lookup_store_prune Hr.
  rewrite prune_bucket_filter in Hr. apply map_lookup_filter_Some in Hr as [Hr _]. by eapply Hs.
Qed.

Lemma run_ops_ok ops s : store_ok s -> store_ok (run_ops ops s).
Proof.
  revert s. induction ops as [|op ops IH]; intros s Hs; [done|]. apply IH.
  destruct op; [by apply store_put_ok|by apply store_prune_ok].
Qed.

Lemma store_ok_empty : store_ok ∅.
Proof. intros pk b k r []%lookup_empty_Some. Qed.

(** ** get *)

Lemma elem_of_store_get clock pk now_ms s r :
  store_ok s ->
  r ∈ store_get clock pk now_ms s <->
  stored s r /\ rec_publisher r = pk /\ record_expired r (now_ms_or clock now_ms) = false.
Proof.
  intros Hs. unfold store_get, stored. destruct (s !! pk) as [b|] eqn:E.
  - rewrite list_elem_of_filter, list_elem_of_fmap. split.
    + intros (He & [k q] & -> & Hq%elem_of_map_elements). destruct (Hs _ _ _ _ E Hq) as (<- & -> & _). eauto.
    + intros ((b' & Hb' & Hr) & <- & He). split; [done|]. simplify_eq. exists (record_key r, r).
      split; [done|]. by apply elem_of_map_elements.
  - split; [by intros []%not_elem_of_nil|]. intros ((b & Hb & _) & <- & _). congruence.
Qed.

Lemma NoDup_store_get clock pk now_ms s :
  store_ok s -> NoDup (rec_nonce <$> store_get clock pk now_ms s).
Proof.
  intros Hs. unfold store_get. destruct (s !! pk) as [b|] eqn:E; [|constructor].
  assert (NoDup (rec_nonce <$> (map_elements b).*2)) as Hnd.
  { assert (forall k r, (k, r) ∈ map_elements b -> k = pk ++ rec_nonce r) as Hk.
    { intros k r Hin%elem_of_map_elements. by destruct (Hs _ _ _ _ E Hin) as (<- & -> & _). }
    pose proof (NoDup_map_elements b) as Hnd. induction (map_elements b) as [|[k r] l IH]; [constructor|].
    rewrite !fmap_cons, NoDup_cons in *. destruct Hnd as [Hni Hnd].
    split; [|apply IH; [intros; apply Hk; by right|done]].
    intros (q & Eq & (kq & -> & Hq)%list_elem_of_fmap)%list_elem_of_fmap. apply Hni.
    apply list_elem_of_fmap. exists kq. split; [|done]. cbn [fst snd] in *.
    rewrite (Hk k r) by left. destruct kq as [k' q]. rewrite (Hk k' q) by (by right). cbn in Eq. by rewrite Eq. }
  eapply sublist_NoDup; [exact Hnd|].
  generalize (sublist_filter (fun r => record_expired r (now_ms_or clock now_ms) = false) (map_elements b).*2).
  generalize (filter (fun r => record_expired r (now_ms_or clock now_ms) = false) (map_elements b).*2).
  intros l Hl. clear -Hl. induction Hl; by constructor.
Qed.

(** An accepted record is served until it expires. *)
Lemma stored_run ops s r :
  stored s r ->
  Forall (fun op => match op with
                    | OpPrune clock now_ms => record_expired r (now_ms_or clock now_ms) = false
                    | OpPut _ _ _ => True end) ops ->
  stored (run_ops ops s) r.
Proof.
  intros Hr Hops. revert s Hr. induction Hops as [|op ops Hop Hops IH]; intros s Hr; [done|]. apply IH.
  destruct op; [by apply stored_put|by apply stored_prune].
Qed.

(** ** Counting *)

Lemma sum_list_with_perm {A} (f : A -> nat) l l' : l ≡ₚ l' -> sum_list_with f l = sum_list_with f l'.
Proof. induction 1; cbn; lia. Qed.

Definition map_sum (f : gmap bytes R -> nat) s : nat := sum_list_with (fun kb => f kb.2) (map_elements s).

Lemma map_sum_insert f s pk b :
  s !! pk = None -> map_sum f (<[pk := b]> s) = (f b + map_sum f s)%nat.
Proof.
  intros Hn. unfold map_sum. rewrite (sum_list_with_perm _ (map_elements (<[pk := b]> s)) ((pk, b) :: map_elements s)); [done|].
  by rewrite !map_elements_perm, map_to_list_insert.
Qed.

Lemma prune_bucket_size (now : Z) (b : gmap bytes R) : size b = (pruned_count now b + size (prune_bucket now b))%nat.
Proof.
  rewrite prune_bucket_filter. unfold pruned_count.
  rewrite <- !length_map_elements, map_elements_sublist. induction (map_elements b) as [|[k r] l IH]; [done|].
  rewrite fmap_cons. rewrite !filter_cons. cbn [fst snd].
  destruct (record_expired r now) eqn:E; repeat (case_decide; try congruence); cbn [length]; lia.
Qed.

Lemma store_prune_size clock now_ms s :
  store_size s = ((store_prune clock now_ms s).1 + store_size (store_prune clock now_ms s).2)%nat.
Proof.
  unfold store_size, store_prune. cbn [fst snd]. rewrite update_loop_eq.
  set (now := now_ms_or clock now_ms).
  set (g := fun (_ : bytes) (bucket : gmap bytes R) => if bool_decide (prune_bucket now bucket = ∅) then None else Some (prune_bucket now bucket)).
  change (map_sum size s = (map_sum (pruned_count now) s + map_sum size (map_imap g s))%nat).
  induction s as [|pk b s Hn IH] using map_ind; [by rewrite map_imap_empty|].
  rewrite !map_sum_insert, IH by done. rewrite (prune_bucket_size now b) at 1.
  assert (map_imap g s !! pk = None) as Hn' by (rewrite map_lookup_imap, Hn; done).
  destruct (g pk b) as [b'|] eqn:Eg.
  - rewrite (map_imap_insert_Some g pk b s b') by done. rewrite map_sum_insert by done.
    unfold g in Eg. case_bool_decide; [done|]. injection Eg as <-. lia.
  - rewrite map_imap_insert_None by done. rewrite delete_id by done.
    unfold g in Eg. case_bool_decide as E0; [|done]. rewrite E0, map_size_empty. lia.
Qed.

Lemma unexpired_snd (now : Z) (l : list (bytes * R)) :
  (filter (fun kr => record_expired kr.2 now = false) l).*2 = filter (fun r => record_expired r now = false) l.*2.
Proof.
  induction l as [|[k r] l IH]; [done|]. rewrite fmap_cons, !filter_cons. cbn [fst snd].
  case_decide; [by rewrite fmap_cons, IH|done].
Qed.

(** Pruning is invisible to lookups at the same time or later. *)
Lemma get_after_prune clock now_ms clock' now_ms' pk s :
  (now_ms_or clock now_ms <= now_ms_or clock' now_ms') ->
  store_get clock' pk now_ms' (store_prune clock now_ms s).2 = store_get clock' pk now_ms' s.
Proof.
  intros Hle. unfold store_get. set (now := now_ms_or clock now_ms) in *. set (now' := now_ms_or clock' now_ms') in *.
  assert (forall b : gmap bytes R, filter (fun r => record_expired r now' = false) (map_elements (prune_bucket now b)).*2 =
    filter (fun r => record_expired r now' = false) (map_elements b).*2) as Hf.
  { intros b. rewrite prune_bucket_filter, map_elements_sublist.
    rewrite unexpired_snd. apply list_filter_filter_l. unfold record_expired. intros r. rewrite !Z.leb_gt. lia. }
  destruct (s !! pk) as [b|] eqn:E.
  - destruct ((store_prune clock now_ms s).2 !! pk) as [b'|] eqn:E'.
    + apply lookup_store_prune in E' as (b0 & Hb0 & -> & _). simplify_eq. apply Hf.
    + destruct (decide (prune_bucket now b = ∅)) as [E0|E0].
      * rewrite <- Hf, E0. unfold map_elements. by rewrite map_to_list_empty.
      * rewrite (proj2 (lookup_store_prune clock now_ms s pk (prune_bucket now b))) in E'; [done|eauto].
  - destruct ((store_prune clock now_ms s).2 !! pk) as [b'|] eqn:E'; [|done].
    apply lookup_store_prune in E' as (b0 & Hb0 & _). congruence.
Qed.
End store.
Arguments StoreOp R : clear implicits.

Section theorems.
Context `{!Ed25519}.

(** ** Verification *)

Lemma provider_format_shape r :
  provider_format_ok r = true -> forallb (fun rel => (length rel =? 32)%nat) (offline_relays r) = true ->
  provider_shape r.
Proof.
  unfold provider_format_ok. rewrite !andb_true_iff, !negb_true_iff, !Nat.eqb_eq, Nat.ltb_ge.
  intros (((((? & ?) & ?) & _) & ?) & Ha) Hr. split; [done..| |].
  - apply Forall_forall. intros a Hin%list_elem_of_In. rewrite forallb_forall in Ha.
    specialize (Ha a Hin). by rewrite negb_true_iff, Nat.ltb_ge in Ha.
  - apply Forall_forall. intros a Hin%list_elem_of_In. rewrite forallb_forall in Hr.
    by apply Nat.eqb_eq, Hr.
Qed.

(** The exception of [canonical_signing_bytes] is out of reach of the verifier. *)
Lemma provider_signing_total r :
  provider_format_ok r = true -> forallb (fun rel => (length rel =? 32)%nat) (offline_relays r) = true ->
  provider_signing_bytes r = Ok (provider_layout r).
Proof. intros Hf Hr. apply provider_signing_Ok. split; [by apply provider_format_shape|done]. Qed.

Lemma prekey_signing_total r :
  prekey_format_ok r = true ->
  (pq_present r = true -> length (pk_pq_pubkey r) = kPqPubBytes /\ length (pk_pq_pubkey_sig r) = 64%nat) ->
  prekey_signing_bytes r = Ok (prekey_layout r).
Proof.
  unfold prekey_format_ok. rewrite !andb_true_iff, !Nat.eqb_eq. intros ((((? & ?) & ?) & _) & ?) Hpq.
  apply prekey_signing_Ok. split; [|done]. split; [done..|].
  destruct (pq_present r) eqn:E; [by right; apply Hpq|left; by apply pq_present_false].
Qed.

Lemma build_record_Ok pub sec addrs published ttl relays random r :
  build_record pub sec addrs published ttl relays random = Ok r ->
  addrs <> [] /\ provider_shape r /\
  r = mkProviderRecord pub addrs published ttl random (sign_detached sec (provider_layout r)) relays.
Proof.
  unfold build_record. destruct (negb (length pub =? 32)%nat); [done|].
  destruct (negb (length sec =? 64)%nat); [done|]. case_bool_decide as Ea; [done|].
  destruct (negb (forallb _ relays)); [done|].
  destruct (canonical_signing_bytes _ _ _ _ _ _) as [b|] eqn:E; cbn [rbind]; [|done]. intros [= <-].
  change (provider_signing_bytes (mkProviderRecord pub addrs published ttl random (sign_detached sec b) relays) = Ok b) in E.
  apply provider_signing_Ok in E as [Hs Eb]. split_and!; [done..|]. do 2 f_equal. exact Eb.
Qed.

Context `{!Ed25519Laws}.

Lemma built_record_valid sec addrs published ttl relays random r :
  build_record (sign_public sec) sec addrs published ttl relays random = Ok r ->
  provider_format_ok r = true /\ verify_record_signature r = true.
Proof.
  intros (Ha & Hs & Hr)%build_record_Ok. pose proof Hs as [H1 H2 H3 H4 H5].
  assert (provider_format_ok r = true) as Hf.
  { unfold provider_format_ok. rewrite !andb_true_iff, !negb_true_iff, !Nat.eqb_eq, Nat.ltb_ge, Nat.eqb_neq.
    split_and!; [done| |done| |done|].
    - rewrite Hr. apply length_sign.
    - rewrite Hr. cbn. by destruct addrs.
    - apply forallb_forall. intros a Hin%list_elem_of_In. rewrite Forall_forall in H4.
      rewrite negb_true_iff, Nat.ltb_ge. by apply H4. }
  split; [done|]. unfold verify_record_signature. rewrite Hf. cbn [negb].
  assert (forallb (fun rel => (length rel =? 32)%nat) (offline_relays r) = true) as Hrel.
  { apply forallb_forall. intros a Hin%list_elem_of_In. rewrite Forall_forall in H5. by apply Nat.eqb_eq, H5. }
  rewrite Hrel. cbn [negb]. rewrite provider_signing_total by done.
  rewrite Hr at 1 3. cbn [publisher_pubkey signature]. apply verify_sign.
Qed.

(** The store answers only authentic, live records, and pruning is exact.
    After any sequence of puts (of any records, at any times) and prunes: what a
    lookup for a key returns was signed by that key and has not expired, with
    no two records of the same nonce; pruning removes exactly as many records
    as it reports and no lookup at that time or later sees a difference. *)
Theorem provider_store_exact (ops : list (StoreOp ProviderRecord)) (clock now_ms : Z) (pk : bytes) :
  let s := run_ops ops ∅ in
  let now := now_ms_or clock now_ms in
  let '(pruned, s') := provider_prune_expired clock now_ms s in
  (forall r, r ∈ provider_get clock pk now_ms s ->
     publisher_pubkey r = pk /\ verify_record_signature r = true /\
     now < u64 (published_at_ms r + ttl_ms r)) /\
  NoDup (nonce <$> provider_get clock pk now_ms s) /\
  provider_size s = (pruned + provider_size s')%nat /\
  (forall clock' now_ms' pk', now <= now_ms_or clock' now_ms' ->
     provider_get clock' pk' now_ms' s' = provider_get clock' pk' now_ms' s) /\
  (forall r, stored s' r -> now < u64 (published_at_ms r + ttl_ms r)).
Proof.
  intros s now. assert (store_ok s) as Hs by (apply run_ops_ok, store_ok_empty).
  destruct (provider_prune_expired clock now_ms s) as [pruned s'] eqn:E.
  assert (pruned = (store_prune clock now_ms s).1 /\ s' = (store_prune clock now_ms s).2) as [-> ->]
    by (unfold provider_prune_expired in E; by rewrite E).
  split_and!.
  - intros r (Hr & Hp & He)%elem_of_store_get; [|done]. unfold record_expired in He. apply Z.leb_gt in He.
    destruct Hr as (b & Hb & Hr). by destruct (Hs _ _ _ _ Hb Hr) as (_ & _ & _ & Hv).
  - exact (NoDup_store_get (R := ProviderRecord) clock pk now_ms s Hs).
  - apply store_prune_size.
  - intros clock' now_ms' pk' Hle. by apply get_after_prune.
  - intros r [_ He]%stored_prune. unfold record_expired in He. by apply Z.leb_gt in He.
Qed.

(** A published record is served until it expires.  A record built with a
    key pair is accepted by every store that does not hold its nonce, if its
    time stamp is at most five minutes ahead and its life has not run out; from
    then on every lookup of the publisher before the expiry returns it, whatever
    else is put and however often the store is pruned before then. *)
Theorem published_record_served (sec : bytes) (addrs : list bytes) (published ttl : Z)
    (relays : list bytes) (random : bytes) (r : ProviderRecord)
    (before after : list (StoreOp ProviderRecord)) (now later : Z)
    (Hr : build_record (sign_public sec) sec addrs published ttl relays random = Ok r)
    (Hnew : forall q, stored (run_ops before ∅) q -> nonce q <> random)
    (Hu : 0 < now /\ now + kRecordClockSkewMs < u64_max /\ 0 <= published /\ 0 <= ttl)
    (Hskew : published <= now + kRecordClockSkewMs)
    (Hlife : now < published + ttl < u64_max)
    (Hprune : forall clock t, OpPrune clock t ∈ after -> now_ms_or clock t < published + ttl)
    (Hlater : 0 < later < published + ttl) :
  let '(res, s) := provider_put 0 r now (run_ops before ∅) in
  res = kAccepted /\ r ∈ provider_get 0 (sign_public sec) later (run_ops after s).
Proof.
  destruct (provider_put 0 r now (run_ops before ∅)) as [res s] eqn:E.
  assert (res = (store_put 0 r now (run_ops before ∅)).1 /\ s = (store_put 0 r now (run_ops before ∅)).2)
    as [-> ->] by (unfold provider_put in E; by rewrite E). clear E.
  set (s0 := run_ops before ∅) in *. assert (store_ok s0) as Hs0 by (apply run_ops_ok, store_ok_empty).
  destruct (built_record_valid _ _ _ _ _ _ _ Hr) as [Hf Hv]. apply build_record_Ok in Hr as (_ & _ & Hr).
  assert (publisher_pubkey r = sign_public sec /\ published_at_ms r = published /\ ttl_ms r = ttl /\ nonce r = random)
    as (Epk & Ep & Et & En) by (by rewrite Hr). clear Hr.
  assert (u64 (published_at_ms r + ttl_ms r) = published + ttl) as Ex.
  { rewrite Ep, Et. apply u64_small. unfold_words. lia. }
  assert ((store_put 0 r now s0).1 = kAccepted) as Hacc.
  { rewrite store_put_result. cbn [rec_format_ok rec_published rec_ttl rec_verify provider_stored].
    rewrite Hf, Hv, Ex, Ep. unfold now_ms_or. destruct (Z.eqb_spec now 0); [lia|]. cbn [negb].
    rewrite u64_small by (unfold_words; unfold kRecordClockSkewMs in *; lia).
    destruct (Z.ltb_spec (now + kRecordClockSkewMs) published); [lia|].
    destruct (Z.leb_spec (published + ttl) now); [lia|]. rewrite bool_decide_false; [done|].
    intros [q Hq]. destruct (s0 !! rec_publisher r) as [b|] eqn:Eb; [|by cbn [default from_option] in Hq; apply lookup_empty_Some in Hq].
    destruct (Hs0 _ _ _ _ Eb Hq) as (Hqp & Hqk & _). apply (Hnew q).
    - exists b. rewrite Hqp. split; [done|]. by rewrite <- Hqk.
    - unfold record_key in Hqk. rewrite Hqp in Hqk. apply app_inv_head in Hqk. cbn in Hqk. congruence. }
  split; [done|]. pose proof (put_accepted 0 r now s0 Hacc) as Hst.
  apply elem_of_store_get; [by apply run_ops_ok, store_put_ok|]. split_and!.
  - apply stored_run; [done|]. apply Forall_forall. intros [|clock t] Hop; [done|].
    unfold record_expired. apply Z.leb_gt. cbn [rec_published rec_ttl provider_stored]. rewrite Ex. by apply (Hprune clock).
  - done.
  - unfold record_expired, now_ms_or. cbn [rec_published rec_ttl provider_stored]. rewrite Ex.
    destruct (Z.eqb_spec later 0); [lia|]. apply Z.leb_gt. lia.
Qed.

(** ** The newest prekey *)

Lemma latest_fold now l best :
  (forall b, best = Some b -> prekey_expired b now = false) ->
  let res := foldl (latest_step now) best l in
  (forall b, res = Some b -> prekey_expired b now = false /\ (b ∈ l \/ best = Some b)) /\
  (forall q, q ∈ l \/ best = Some q -> prekey_expired q now = false ->
     exists b, res = Some b /\ pk_published_at_ms q <= pk_published_at_ms b).
Proof.
  revert best. induction l as [|x l IH]; intros best Hb.
  - cbn [foldl]. split; [intros b Eb; split; [by apply Hb|by right]|].
    intros q [[]%not_elem_of_nil|Hq] _. exists q. split; [done|lia].
  - cbn [foldl]. assert (forall b, latest_step now best x = Some b -> prekey_expired b now = false) as Hb'.
    { intros b. unfold latest_step. destruct (prekey_expired x now) eqn:Ex; [apply Hb|].
      destruct best as [b0|]; [|by intros [= <-]]. destruct (_ <? _); [by intros [= <-]|apply Hb]. }
    destruct (IH _ Hb') as [IH1 IH2]. split.
    + intros b Eb. destruct (IH1 b Eb) as [He [Hin|Hin]]; (split; [done|]); [by left; right|].
      unfold latest_step in Hin. destruct (prekey_expired x now); [by right|].
      destruct best as [b0|]; [destruct (_ <? _)|]; simplify_eq; auto; left; left.
    + intros q Hq He. assert (q ∈ l \/ exists b, latest_step now best x = Some b /\ pk_published_at_ms q <= pk_published_at_ms b) as [Hin|(b & Eb & Hle)].
      { rewrite elem_of_cons in Hq. unfold latest_step. destruct Hq as [[-> | Hin] | ->]; [|by left|].
        - right. rewrite He. destruct best as [b0|]; [|by exists x].
          destruct (Z.ltb_spec (pk_published_at_ms b0) (pk_published_at_ms x)); [by exists x|by exists b0].
        - right. destruct (prekey_expired x now); [by exists q|].
          destruct (Z.ltb_spec (pk_published_at_ms q) (pk_published_at_ms x)); [exists x; split; [done|lia]|by exists q]. }
      * by apply IH2; [left|].
      * destruct (IH2 b) as (b' & Eb' & Hle'); [by right|by apply Hb'|]. exists b'. split; [done|lia].
Qed.

(** The newest usable prekey is found.  After any puts and prunes,
    [get_latest] fails exactly when no unexpired record of the key is stored;
    otherwise it answers one with the largest time stamp, and that record
    carries valid signatures of the key over the whole record, over the signed
    prekey and, if present, over the post-quantum key. *)
Theorem prekey_latest_correct (ops : list (StoreOp PrekeyRecord)) (clock now_ms : Z) (pk : bytes) :
  let s := run_ops ops ∅ in
  match prekey_get_latest clock pk now_ms s with
  | None => prekey_get_all clock pk now_ms s = []
  | Some b =>
      b ∈ prekey_get_all clock pk now_ms s /\
      (forall q, q ∈ prekey_get_all clock pk now_ms s -> pk_published_at_ms q <= pk_published_at_ms b) /\
      pk_publisher_pubkey b = pk /\
      verify_detached pk (prekey_layout b) (pk_signature b) = true /\
      verify_detached pk (pk_signed_prekey b) (pk_signed_prekey_signature b) = true /\
      (pk_pq_pubkey b = [] \/ verify_detached pk (pk_pq_pubkey b) (pk_pq_pubkey_sig b) = true)
  end.
Proof.
  intros s. assert (store_ok s) as Hs by (apply run_ops_ok, store_ok_empty).
  unfold prekey_get_latest, prekey_get_all, store_get. destruct (s !! pk) as [bucket|] eqn:Eb; [|done].
  set (now := now_ms_or clock now_ms). set (l := (map_elements bucket).*2).
  destruct (latest_fold now l None) as [H1 H2]; [done|]. destruct (foldl (latest_step now) None l) as [b|] eqn:E.
  - destruct (H1 b eq_refl) as [He [Hin|]]; [|done].
    assert (b ∈ filter (fun r => record_expired r now = false) l) as Hb by (by apply list_elem_of_filter).
    split; [done|]. split.
    + intros q [Hq1 Hq2]%list_elem_of_filter. destruct (H2 q) as (b' & [= <-] & Hle); [by left|done|done].
    + apply list_elem_of_fmap in Hin as ([k b'] & -> & Hk%elem_of_map_elements).
      destruct (Hs _ _ _ _ Eb Hk) as (Hpub & _ & Hf & Hv). cbn [rec_publisher rec_format_ok rec_verify prekey_stored snd] in *.
      split; [done|]. unfold verify_prekey_record_signature in Hv. rewrite Hf in Hv. cbn [negb] in Hv.
      destruct (pq_present b' && negb (length (pk_pq_pubkey b') =? kPqPubBytes)%nat) eqn:E1; [done|].
      destruct (pq_present b' && negb (length (pk_pq_pubkey_sig b') =? 64)%nat) eqn:E2; [done|].
      rewrite prekey_signing_total in Hv; [|done|].
      2: { intros Hp. rewrite Hp in E1, E2. cbn [andb] in *. apply negb_false_iff, Nat.eqb_eq in E1, E2. done. }
      rewrite Hpub in Hv. destruct (verify_detached pk (prekey_layout b') _); [|done]. cbn [negb] in Hv.
      destruct (verify_detached pk (pk_signed_prekey b') _); [|done]. cbn [negb] in Hv. split_and!; [done..|].
      destruct (pq_present b') eqn:Ep; [|left; by apply pq_present_false].
      right. by destruct (verify_detached pk (pk_pq_pubkey b') _).
  - destruct (filter _ l) as [|q ql] eqn:Ef; [done|].
    assert (q ∈ filter (fun r => record_expired r now = false) l) as Hq by (rewrite Ef; left).
    apply list_elem_of_filter in Hq as [Hq1 Hq2]. destruct (H2 q) as (b & [=] & _); [by left|done].
Qed.
End theorems.

Definition w_sec : bytes := replicate 64 Byte.x05.

Definition w_built : ProviderRecord :=
  match build_record (sign_public w_sec) w_sec [str "tcp://h:1"] 1000000 3600000 [] (replicate 16 Byte.x07) with
  | Ok r => r
  | Throw _ => w_provider []
  end.

Lemma published_record_served_witness :
  let '(res, s) := provider_put 0 w_built 900000 (run_ops [] ∅) in
  res = kAccepted /\
  w_built ∈ provider_get 0 (sign_public w_sec) 4000000 (run_ops [OpPrune 0 1000000; OpPut 0 w_built 1000001] s).
Proof.
  apply (published_record_served w_sec [str "tcp://h:1"] 1000000 3600000 [] (replicate 16 Byte.x07) w_built []
    [OpPrune 0 1000000; OpPut 0 w_built 1000001] 900000 4000000).
  - vm_compute. reflexivity.
  - intros q (b & Hb & _). change (run_ops [] ∅) with (∅ : RecordStore ProviderRecord) in Hb.
    by apply lookup_empty_Some in Hb.
  - unfold kRecordClockSkewMs, u64_max. lia.
  - unfold kRecordClockSkewMs. lia.
  - unfold u64_max. lia.
  - intros clock t Hin. apply elem_of_cons in Hin as [E|Hin]; [injection E as -> ->; vm_compute; reflexivity|].
    apply list_elem_of_singleton in Hin. discriminate Hin.
  - lia.
Defined.
