(* ===== verification/DhtNode.v ===== *)
(** * The DHT node ([src/core/src/p2p/dht_node.cpp])

    A node keeps a Kademlia routing table, the two record stores and the lookups
    in flight.  Each operation is a function from the node to the node and the
    list of its effects, in order: wire messages handed to the send callback and
    result lists handed to lookup callbacks.  The clock and the random request
    id are arguments; a callback is a token. *)
From S2P Require Import Prelude StdMap Crypto Username Kademlia ProviderRecords.
Import Kademlia.

Module Dht.

Definition kReplicationFactor : nat := 8.

(** [fb::proto::DhtMessage]; [MEmpty]: no body set, or one of a later version. *)
Inductive DhtMessage :=
| MPublish (record : ProviderRecord)
| MLookup (target_pubkey request_id : bytes)
| MResponse (records : list ProviderRecord) (request_id : bytes)
| MPrekeyPublish (record : PrekeyRecord)
| MPrekeyLookup (target_pubkey request_id : bytes)
| MPrekeyResponse (records : list PrekeyRecord) (request_id : bytes)
| MEmpty.

Definition provider_u64 (r : ProviderRecord) : Prop := is_u64 (published_at_ms r) /\ is_u64 (ttl_ms r).
Definition prekey_u64 (r : PrekeyRecord) : Prop := is_u64 (pk_published_at_ms r) /\ is_u64 (pk_ttl_ms r).

(** What the parser accepts of a record: [addresses] are [string]s. *)
Definition provider_wire (r : ProviderRecord) : Prop :=
  provider_u64 r /\ Forall (fun a => utf8_valid a = true) (addresses r).

#[export] Instance dht_fields : ProtoFields DhtMessage := fun m =>
  match m with
  | MPublish r => provider_wire r
  | MResponse rs _ => Forall provider_wire rs
  | MPrekeyPublish r => prekey_u64 r
  | MPrekeyResponse rs _ => Forall prekey_u64 rs
  | _ => True
  end.

(** [PendingLookup] and [PendingPrekey] *)
Record Pending (R : Type) := mkPending {
  target_pubkey : bytes;
  callback : Z;
  awaiting_replies : nat;
  seen : gmap bytes R;
}.
Arguments mkPending {R} _ _ _ _.
Arguments target_pubkey {R} _.
Arguments callback {R} _.
Arguments awaiting_replies {R} _.
Arguments seen {R} _.

Record DhtNode := mkDhtNode {
  node_self : bytes;
  routing_ : RoutingTable;
  store_ : RecordStore ProviderRecord;
  prekeys_ : RecordStore PrekeyRecord;
  pending : gmap bytes (Pending ProviderRecord);
  pending_prekey : gmap bytes (Pending PrekeyRecord);
}.

Inductive Effect :=
| Send (peer : PeerInfo) (wire_bytes : bytes)
| Results (callback : Z) (records : list ProviderRecord)
| PrekeyResults (callback : Z) (records : list PrekeyRecord).

Definition new_node (self : bytes) : DhtNode := mkDhtNode self (new_table self) ∅ ∅ ∅ ∅.

Definition with_routing (t : RoutingTable) (n : DhtNode) : DhtNode :=
  mkDhtNode (node_self n) t (store_ n) (prekeys_ n) (pending n) (pending_prekey n).
Definition with_store (s : RecordStore ProviderRecord) (n : DhtNode) : DhtNode :=
  mkDhtNode (node_self n) (routing_ n) s (prekeys_ n) (pending n) (pending_prekey n).
Definition with_prekeys (s : RecordStore PrekeyRecord) (n : DhtNode) : DhtNode :=
  mkDhtNode (node_self n) (routing_ n) (store_ n) s (pending n) (pending_prekey n).
Definition with_pending (p : gmap bytes (Pending ProviderRecord)) (n : DhtNode) : DhtNode :=
  mkDhtNode (node_self n) (routing_ n) (store_ n) (prekeys_ n) p (pending_prekey n).
Definition with_pending_prekey (p : gmap bytes (Pending PrekeyRecord)) (n : DhtNode) : DhtNode :=
  mkDhtNode (node_self n) (routing_ n) (store_ n) (prekeys_ n) (pending n) p.

Definition closest_capped (rt : RoutingTable) (target : bytes) (k : nat) : list PeerInfo :=
  closest target (Nat.min k kBucketSize) rt.

(** [for (const auto& p : peers) { if (p.id == self_) continue; send_(p, wire); }] *)
Definition send_all (self : bytes) (peers : list PeerInfo) (wire : bytes) : list Effect :=
  (fun p => Send p wire) <$> filter (fun p => id p <> self) peers.

Definition put_ok (res : PutResult) : bool :=
  match res with kAccepted | kAlreadyKnown => true | _ => false end.

Section pending.
Context {R : Type} `{!StoredRecord R}.

(** [pl.seen[record_key(r)] = r] for every local hit. *)
Definition seen_of (hits : list R) : gmap bytes R :=
  foldl (fun seen r => <[record_key r := r]> seen) ∅ hits.

Definition snapshot (seen : gmap bytes R) : list R := (map_elements seen).*2.

(** One record of a response: into [seen] as it is, into the store if it verifies. *)
Definition absorb (clock : Z) (target : bytes) (acc : gmap bytes R * RecordStore R) (r : R) :
    gmap bytes R * RecordStore R :=
  let '(seen, st) := acc in
  if bool_decide (rec_publisher r = target) then
    (<[record_key r := r]> seen, (store_put clock r 0 st).2)
  else acc.

(** [if (pl.awaiting_replies > 0) --pl.awaiting_replies;
     if (pl.awaiting_replies == 0) pending.erase(it);] *)
Definition settle (rid : bytes) (pl : Pending R) (m : gmap bytes (Pending R)) : gmap bytes (Pending R) :=
  let pl := mkPending (target_pubkey pl) (callback pl) (pred (awaiting_replies pl)) (seen pl) in
  if (awaiting_replies pl =? 0)%nat then delete rid m else <[rid := pl]> m.
End pending.

Section node.
Context `{!Ed25519, !Sha256, !ProtoMsg DhtMessage}.

Definition observe (peer : PeerInfo) (n : DhtNode) : DhtNode :=
  with_routing (Kademlia.observe peer (routing_ n)).2 n.

(** Each operation returns the node, its effects and the number sent to. *)
Definition publish (clock : Z) (record : ProviderRecord) (n : DhtNode) : DhtNode * list Effect * nat :=
  let '(local, st) := provider_put clock record 0 (store_ n) in
  let n := with_store st n in
  if negb (put_ok local) then (n, [], O)
  else if negb (length (publisher_pubkey record) =? 32)%nat then (n, [], O)
  else
    let target := node_id_from_pubkey (publisher_pubkey record) in
    let peers := closest_capped (routing_ n) target kReplicationFactor in
    match peers with
    | [] => (n, [], O)
    | _ =>
        let sends := send_all (node_self n) peers (pb_serialize (MPublish record)) in
        (n, sends, length sends)
    end.

Definition lookup (clock : Z) (rid : bytes) (target : bytes) (cb : Z) (n : DhtNode) :
    DhtNode * list Effect * nat :=
  if negb (length target =? 32)%nat then (n, [], O)
  else
    let peers := closest_capped (routing_ n) (node_id_from_pubkey target) kReplicationFactor in
    let local_hits := provider_get clock target 0 (store_ n) in
    match peers with
    | [] => (n, [Results cb local_hits], O)
    | _ =>
        let pl := mkPending target cb (length peers) (seen_of local_hits) in
        let n' := with_pending (map_emplace rid pl (pending n)) n in
        let sends := send_all (node_self n) peers (pb_serialize (MLookup target rid)) in
        (n', Results cb (snapshot (seen pl)) :: sends, length sends)
    end.

Definition on_message (clock : Z) (from_peer : PeerInfo) (wire_bytes : bytes) (n : DhtNode) :
    DhtNode * list Effect :=
  match pb_parse wire_bytes with
  | None => (n, [])
  | Some msg =>
      let n := observe from_peer n in
      match msg with
      | MPublish rec => (with_store (provider_put clock rec 0 (store_ n)).2 n, [])
      | MLookup target rid =>
          if negb (length target =? 32)%nat then (n, [])
          else
            let records := provider_get clock target 0 (store_ n) in
            (n, [Send from_peer (pb_serialize (MResponse records rid))])
      | MResponse records rid =>
          match pending n !! rid with
          | None => (n, [])
          | Some pl =>
              let '(sn, st) := foldl (absorb clock (target_pubkey pl)) (seen pl, store_ n) records in
              let pl := mkPending (target_pubkey pl) (callback pl) (awaiting_replies pl) sn in
              (with_pending (settle rid pl (pending n)) (with_store st n),
               [Results (callback pl) (snapshot sn)])
          end
      | MPrekeyPublish rec => (with_prekeys (prekey_put clock rec 0 (prekeys_ n)).2 n, [])
      | MPrekeyLookup target rid =>
          if negb (length target =? 32)%nat then (n, [])
          else
            let records := prekey_get_all clock target 0 (prekeys_ n) in
            (n, [Send from_peer (pb_serialize (MPrekeyResponse records rid))])
      | MPrekeyResponse records rid =>
          match pending_prekey n !! rid with
          | None => (n, [])
          | Some pp =>
              let '(sn, st) := foldl (absorb clock (target_pubkey pp)) (seen pp, prekeys_ n) records in
              let pp := mkPending (target_pubkey pp) (callback pp) (awaiting_replies pp) sn in
              (with_pending_prekey (settle rid pp (pending_prekey n)) (with_prekeys st n),
               [PrekeyResults (callback pp) (snapshot sn)])
          end
      | MEmpty => (n, [])
      end
  end.

Definition abort_lookup (request_id : bytes) (n : DhtNode) : DhtNode :=
  with_pending (delete request_id (pending n)) n.

Definition pending_lookups (n : DhtNode) : nat := base.size (pending n).

Definition publish_prekey (clock : Z) (record : PrekeyRecord) (n : DhtNode) : DhtNode * list Effect * nat :=
  let '(local, st) := prekey_put clock record 0 (prekeys_ n) in
  let n := with_prekeys st n in
  if negb (put_ok local) then (n, [], O)
  else if negb (length (pk_publisher_pubkey record) =? 32)%nat then (n, [], O)
  else
    let target := node_id_from_pubkey (pk_publisher_pubkey record) in
    let peers := closest_capped (routing_ n) target kReplicationFactor in
    match peers with
    | [] => (n, [], O)
    | _ =>
        let sends := send_all (node_self n) peers (pb_serialize (MPrekeyPublish record)) in
        (n, sends, length sends)
    end.

Definition lookup_prekey (clock : Z) (rid : bytes) (target : bytes) (cb : Z) (n : DhtNode) :
    DhtNode * list Effect * nat :=
  if negb (length target =? 32)%nat then (n, [], O)
  else
    let peers := closest_capped (routing_ n) (node_id_from_pubkey target) kReplicationFactor in
    let local_hits := prekey_get_all clock target 0 (prekeys_ n) in
    match peers with
    | [] => (n, [PrekeyResults cb local_hits], O)
    | _ =>
        let pp := mkPending target cb (length peers) (seen_of local_hits) in
        let n' := with_pending_prekey (map_emplace rid pp (pending_prekey n)) n in
        let sends := send_all (node_self n) peers (pb_serialize (MPrekeyLookup target rid)) in
        (n', PrekeyResults cb (snapshot (seen pp)) :: sends, length sends)
    end.

Definition abort_prekey_lookup (request_id : bytes) (n : DhtNode) : DhtNode :=
  with_pending_prekey (delete request_id (pending_prekey n)) n.

Definition pending_prekey_lookups (n : DhtNode) : nat := base.size (pending_prekey n).
End node.

End Dht.
