(* ===== verification/DhtTheorems.v ===== *)
(** * Properties of the DHT node

    The invariant of a node under arbitrary traffic, the path of a record from
    its publisher through the DHT to a node that looks it up, and what a node
    does with responses it cannot trust. *)
From S2P Require Import Prelude StdMap Crypto Username ToySign Kademlia.
From S2P Require Import ProviderRecords ProviderRecordsProofs RecordStore DhtNode.
Import Kademlia Dht.

Section pending.
Context {R : Type} `{!StoredRecord R}.
Implicit Types (r : R) (s : RecordStore R).

Lemma stored_put_inv clock r now_ms s q :
  stored (store_put clock r now_ms s).2 q -> stored s q \/ q = r.
Proof.
  destruct (store_put_snd clock r now_ms s) as [->|(_ & _ & ->)]; [by left|].
  intros (b & Hb & Hq). apply lookup_insert_Some in Hb as [[E <-]|[_ Hb]]; [|left; by exists b].
  unfold map_emplace in Hq. destruct (s !! rec_publisher r) as [b0|] eqn:Eb; cbn [default from_option] in Hq.
  - change (Datatypes.id b0) with b0 in Hq. unfold stored. rewrite <- E, Eb.
    destruct (b0 !! record_key r) eqn:Er; [left; by exists b0|].
    apply lookup_insert_Some in Hq as [[_ <-]|[_ Hq]]; [by right|left; by exists b0].
  - rewrite lookup_empty in Hq. by apply lookup_insert_Some in Hq as [[_ <-]|[_ []%lookup_empty_Some]]; right.
Qed.

(** Looking the record up after a put that was not refused. *)
Lemma put_fresh_stored clock r now_ms s :
  put_ok (store_put clock r now_ms s).1 = true -> (forall q, stored s q -> record_key q <> record_key r) ->
  store_ok s -> stored (store_put clock r now_ms s).2 r.
Proof.
  intros Hok Hnew Hs. apply put_accepted. rewrite store_put_result in *.
  destruct (negb (rec_format_ok r)); [done|]. destruct (_ <? _); [done|]. destruct (_ <=? _); [done|].
  destruct (negb (rec_verify r)); [done|]. rewrite bool_decide_false; [done|].
  intros [q Hq]. destruct (s !! rec_publisher r) as [b|] eqn:Eb; cbn [default from_option] in Hq;
    [|by apply lookup_empty_Some in Hq].
  destruct (Hs _ _ _ _ Eb Hq) as (Hqp & Hqk & _). apply (Hnew q); [|done].
  exists b. rewrite Hqp, <- Hqk. done.
Qed.

(** [put] depends on the store only through what it already holds. *)
Lemma put_ok_store clock r now_ms s s' :
  put_ok (store_put clock r now_ms s).1 = put_ok (store_put clock r now_ms s').1.
Proof.
  rewrite !store_put_result. repeat (case_match; [done|]). by do 2 case_bool_decide.
Qed.

Lemma absorb_store clock target rs acc :
  store_ok acc.2 -> store_ok (foldl (absorb clock target) acc rs).2.
Proof.
  revert acc. induction rs as [|r rs IH]; intros [sn st] Hs; [done|]. apply IH. cbn [absorb].
  case_bool_decide; [by apply store_put_ok|done].
Qed.

Lemma absorb_stored_inv clock target rs acc q :
  stored (foldl (absorb clock target) acc rs).2 q -> stored acc.2 q \/ q ∈ rs.
Proof.
  revert acc. induction rs as [|r rs IH]; intros [sn st] Hq; [by left|]. rewrite elem_of_cons.
  apply IH in Hq as [Hq|Hq]; [|by auto]. cbn [absorb] in Hq. case_bool_decide; [|by left].
  apply stored_put_inv in Hq as [Hq|Hq]; auto.
Qed.

Lemma absorb_stored clock target rs acc q :
  stored acc.2 q -> stored (foldl (absorb clock target) acc rs).2 q.
Proof.
  revert acc. induction rs as [|r rs IH]; intros [sn st] Hq; [done|]. apply IH. cbn [absorb].
  case_bool_decide; [by apply stored_put|done].
Qed.

Lemma absorb_seen clock target rs acc r :
  NoDup (record_key <$> rs) -> r ∈ rs -> rec_publisher r = target ->
  (foldl (absorb clock target) acc rs).1 !! record_key r = Some r.
Proof.
  intros Hnd Hin Ht. assert (forall rs acc, record_key r ∉ (record_key <$> rs) ->
    (foldl (absorb clock target) acc rs).1 !! record_key r = acc.1 !! record_key r) as Hother.
  { clear. induction rs as [|q rs IH]; intros [sn st] Hni; [done|]. rewrite fmap_cons, not_elem_of_cons in Hni.
    destruct Hni as [Hne Hni]. cbn [foldl]. rewrite IH by done. cbn [absorb]. case_bool_decide; [|done].
    cbn [fst]. by rewrite lookup_insert_ne. }
  revert acc. induction rs as [|q rs IH]; intros acc; [by apply not_elem_of_nil in Hin|].
  rewrite fmap_cons, NoDup_cons in Hnd. destruct Hnd as [Hni Hnd]. cbn [foldl].
  apply elem_of_cons in Hin as [<-|Hin]; [|by apply IH].
  rewrite Hother by done. destruct acc as [sn st]. cbn [absorb]. rewrite bool_decide_true by done.
  cbn [fst]. by rewrite lookup_insert_eq.
Qed.

(** What a response brings into the store. *)
Lemma absorb_put clock target rs acc r :
  NoDup (record_key <$> rs) -> r ∈ rs -> rec_publisher r = target -> store_ok acc.2 ->
  put_ok (store_put clock r 0 acc.2).1 = true -> (forall q, stored acc.2 q -> record_key q <> record_key r) ->
  stored (foldl (absorb clock target) acc rs).2 r.
Proof.
  intros Hnd Hin Ht. revert acc. induction rs as [|q rs IH]; intros [sn st] Hs Hok Hnew;
    [by apply not_elem_of_nil in Hin|].
  rewrite fmap_cons, NoDup_cons in Hnd. destruct Hnd as [Hni Hnd]. cbn [foldl].
  apply elem_of_cons in Hin as [<-|Hin].
  - apply absorb_stored. cbn [absorb]. rewrite bool_decide_true by done. by apply put_fresh_stored.
  - apply IH; [done|done|..]; cbn [absorb]; case_bool_decide; cbn [snd] in *; try done.
    + by apply store_put_ok.
    + rewrite <- Hok. apply put_ok_store.
    + intros q' [Hq'| ->]%stored_put_inv; [by apply Hnew|]. intros E. apply Hni. rewrite E.
      by apply list_elem_of_fmap_2.
Qed.

Lemma NoDup_keys_get clock pk now_ms s :
  store_ok s -> NoDup (record_key <$> store_get clock pk now_ms s).
Proof.
  intros Hs. pose proof (NoDup_store_get clock pk now_ms s Hs) as Hnd.
  assert (forall r, r ∈ store_get clock pk now_ms s -> rec_publisher r = pk) as Hp.
  { intros r (_ & Hp & _)%elem_of_store_get; done. }
  induction (store_get clock pk now_ms s) as [|r l IH]; [constructor|].
  rewrite fmap_cons, NoDup_cons in *. destruct Hnd as [Hni Hnd].
  split; [|apply IH; [done|]; intros; apply Hp; by right].
  intros (q & E & Hq)%list_elem_of_fmap. apply Hni. unfold record_key in E.
  rewrite (Hp r) in E by left. rewrite (Hp q) in E by (by right). apply app_inv_head in E. rewrite E.
  by apply list_elem_of_fmap_2.
Qed.

Definition pending_ok (m : gmap bytes (Pending R)) : Prop :=
  forall rid pl, m !! rid = Some pl -> (1 <= awaiting_replies pl <= kReplicationFactor)%nat.

Lemma pending_settle_ok (rid : bytes) (pl : Pending R) (m : gmap bytes (Pending R)) :
  pending_ok m -> m !! rid = Some pl -> forall sn,
  pending_ok (settle rid (mkPending (target_pubkey pl) (callback pl) (awaiting_replies pl) sn) m).
Proof.
  intros Hm Hpl sn rid' pl'. unfold settle. cbn [awaiting_replies target_pubkey callback seen].
  pose proof (Hm rid pl Hpl). destruct (Nat.eqb_spec (pred (awaiting_replies pl)) 0).
  - intros [_ Hl]%lookup_delete_Some. by apply (Hm rid').
  - intros [[_ <-]|[_ Hl]]%lookup_insert_Some; [|by apply (Hm rid')]. cbn [awaiting_replies]. lia.
Qed.

Lemma pending_emplace_ok (rid : bytes) (pl : Pending R) (m : gmap bytes (Pending R)) :
  pending_ok m -> (1 <= awaiting_replies pl <= kReplicationFactor)%nat -> pending_ok (map_emplace rid pl m).
Proof.
  intros Hm Hpl rid' pl'. unfold map_emplace. destruct (m !! rid); [by apply Hm|].
  intros [[_ <-]|[_ Hl]]%lookup_insert_Some; [done|by apply (Hm rid')].
Qed.

Lemma pending_delete_ok (rid : bytes) (m : gmap bytes (Pending R)) : pending_ok m -> pending_ok (delete rid m).
Proof. intros Hm rid' pl' [_ Hl]%lookup_delete_Some. by apply (Hm rid'). Qed.
End pending.

Section node.
Context `{!Ed25519, !Sha256, !ProtoMsg DhtMessage}.

(** ** The invariant *)

Record node_ok (n : DhtNode) : Prop := {
  n_table : table_ok (routing_ n);
  n_self : node_self n = self_ (routing_ n);
  n_store : store_ok (store_ n);
  n_prekeys : store_ok (prekeys_ n);
  n_u64 : forall r, stored (store_ n) r -> provider_u64 r;
  n_prekeys_u64 : forall r, stored (prekeys_ n) r -> prekey_u64 r;
  n_pending : pending_ok (pending n);
  n_pending_prekey : pending_ok (pending_prekey n);
}.

(** Everything a program can do to a node. *)
Inductive DhtOp :=
| ObserveOp (peer : PeerInfo)
| PublishOp (clock : Z) (record : ProviderRecord)
| LookupOp (clock : Z) (rid target : bytes) (cb : Z)
| MessageOp (clock : Z) (from_peer : PeerInfo) (wire_bytes : bytes)
| AbortOp (rid : bytes)
| PublishPrekeyOp (clock : Z) (record : PrekeyRecord)
| LookupPrekeyOp (clock : Z) (rid target : bytes) (cb : Z)
| AbortPrekeyOp (rid : bytes)
| PruneOp (clock now_ms : Z).

Definition run_dht (op : DhtOp) (n : DhtNode) : DhtNode * list Effect :=
  match op with
  | ObserveOp p => (observe p n, [])
  | PublishOp clock r => (publish clock r n).1
  | LookupOp clock rid target cb => (lookup clock rid target cb n).1
  | MessageOp clock from wire => on_message clock from wire n
  | AbortOp rid => (abort_lookup rid n, [])
  | PublishPrekeyOp clock r => (publish_prekey clock r n).1
  | LookupPrekeyOp clock rid target cb => (lookup_prekey clock rid target cb n).1
  | AbortPrekeyOp rid => (abort_prekey_lookup rid n, [])
  | PruneOp clock now_ms =>
      (with_prekeys (prekey_prune_expired clock now_ms (prekeys_ n)).2
         (with_store (provider_prune_expired clock now_ms (store_ n)).2 n), [])
  end.

(** The types of the arguments: 20-byte node ids and 64-bit times. *)
Definition op_ok (op : DhtOp) : Prop :=
  match op with
  | ObserveOp p | MessageOp _ p _ => length (id p) = kNodeIdBytes
  | PublishOp _ r => provider_u64 r
  | PublishPrekeyOp _ r => prekey_u64 r
  | _ => True
  end.

Definition run_dhts (ops : list DhtOp) (n : DhtNode) : DhtNode :=
  foldl (fun n op => (run_dht op n).1) n ops.

Lemma new_node_ok self : length self = kNodeIdBytes -> node_ok (new_node self).
Proof.
  intros Hs. split; cbn [new_node node_self routing_ store_ prekeys_ pending pending_prekey].
  - by apply new_table_ok.
  - done.
  - apply store_ok_empty.
  - apply store_ok_empty.
  - by intros r (b & []%lookup_empty_Some & _).
  - by intros r (b & []%lookup_empty_Some & _).
  - by intros rid pl []%lookup_empty_Some.
  - by intros rid pl []%lookup_empty_Some.
Qed.

Lemma observe_self p (t : RoutingTable) : self_ (Kademlia.observe p t).2 = self_ t.
Proof.
  unfold Kademlia.observe. case_bool_decide; [done|]. destruct (_ !! _); [|done].
  by destruct (observe_bucket _ _).
Qed.

Lemma node_observe_ok p n : node_ok n -> length (id p) = kNodeIdBytes -> node_ok (observe p n).
Proof.
  intros [] Hp. split; cbn [observe with_routing node_self routing_ store_ prekeys_ pending pending_prekey]; try done.
  - by apply observe_ok.
  - by rewrite observe_self.
Qed.

Lemma with_store_ok n st :
  node_ok n -> store_ok st -> (forall r, stored st r -> provider_u64 r) -> node_ok (with_store st n).
Proof. intros [] Hs Hu. by split. Qed.

Lemma with_prekeys_ok n st :
  node_ok n -> store_ok st -> (forall r, stored st r -> prekey_u64 r) -> node_ok (with_prekeys st n).
Proof. intros [] Hs Hu. by split. Qed.

Lemma with_pending_ok n p : node_ok n -> pending_ok p -> node_ok (with_pending p n).
Proof. intros [] Hp. by split. Qed.

Lemma with_pending_prekey_ok n p : node_ok n -> pending_ok p -> node_ok (with_pending_prekey p n).
Proof. intros [] Hp. by split. Qed.

Lemma node_put_ok clock r n :
  node_ok n -> provider_u64 r -> node_ok (with_store (provider_put clock r 0 (store_ n)).2 n).
Proof.
  intros Hn Hr. apply with_store_ok; [done|apply store_put_ok, Hn|].
  intros q [Hq| ->]%stored_put_inv; [by apply (n_u64 n)|done].
Qed.

Lemma node_prekey_put_ok clock r n :
  node_ok n -> prekey_u64 r -> node_ok (with_prekeys (prekey_put clock r 0 (prekeys_ n)).2 n).
Proof.
  intros Hn Hr. apply with_prekeys_ok; [done|apply store_put_ok, Hn|].
  intros q [Hq| ->]%stored_put_inv; [by apply (n_prekeys_u64 n)|done].
Qed.

Lemma closest_capped_length t target : (length (closest_capped t target kReplicationFactor) <= kReplicationFactor)%nat.
Proof. unfold closest_capped, closest. rewrite length_take. lia. Qed.

Lemma publish_ok clock r n : node_ok n -> provider_u64 r -> node_ok (publish clock r n).1.1.
Proof.
  intros Hn Hr. unfold publish. pose proof (node_put_ok clock r n Hn Hr) as Hok.
  destruct (provider_put clock r 0 (store_ n)) as [res st]. cbn [snd] in Hok.
  destruct (negb (put_ok res)); [done|]. destruct (negb _); [done|]. by destruct (closest_capped _ _ _).
Qed.

Lemma publish_prekey_ok clock r n : node_ok n -> prekey_u64 r -> node_ok (publish_prekey clock r n).1.1.
Proof.
  intros Hn Hr. unfold publish_prekey. pose proof (node_prekey_put_ok clock r n Hn Hr) as Hok.
  destruct (prekey_put clock r 0 (prekeys_ n)) as [res st]. cbn [snd] in Hok.
  destruct (negb (put_ok res)); [done|]. destruct (negb _); [done|]. by destruct (closest_capped _ _ _).
Qed.

Lemma lookup_ok clock rid target cb n : node_ok n -> node_ok (lookup clock rid target cb n).1.1.
Proof.
  intros Hn. unfold lookup. destruct (negb _); [done|].
  pose proof (closest_capped_length (routing_ n) (node_id_from_pubkey target)) as Hl.
  destruct (closest_capped _ _ _) as [|p ps]; [done|]. cbn [fst]. apply with_pending_ok; [done|].
  apply pending_emplace_ok; [apply Hn|]. cbn [awaiting_replies length] in *. lia.
Qed.

Lemma lookup_prekey_ok clock rid target cb n : node_ok n -> node_ok (lookup_prekey clock rid target cb n).1.1.
Proof.
  intros Hn. unfold lookup_prekey. destruct (negb _); [done|].
  pose proof (closest_capped_length (routing_ n) (node_id_from_pubkey target)) as Hl.
  destruct (closest_capped _ _ _) as [|p ps]; [done|]. cbn [fst]. apply with_pending_prekey_ok; [done|].
  apply pending_emplace_ok; [apply Hn|]. cbn [awaiting_replies length] in *. lia.
Qed.

Context `{!ProtoLaws DhtMessage}.

Lemma on_message_ok clock from wire n :
  node_ok n -> length (id from) = kNodeIdBytes -> node_ok (on_message clock from wire n).1.
Proof.
  intros Hn Hf. unfold on_message. destruct (pb_parse wire) as [m|] eqn:Em; [|done].
  apply pb_parse_ok in Em. pose proof (node_observe_ok from n Hn Hf) as Hn1.
  set (n1 := observe from n) in *.
  destruct m as [r|t rid|rs rid|r|t rid|rs rid|]; cbn [pb_ok dht_fields] in Em.
  - apply node_put_ok; [done|apply Em].
  - by destruct (negb _).
  - destruct (pending n1 !! rid) as [pl|] eqn:Epl; [|done].
    destruct (foldl _ (seen pl, store_ n1) rs) as [sn st] eqn:Ef. cbn [fst].
    apply with_pending_ok; [|apply pending_settle_ok; [apply Hn1|done]].
    assert (st = (foldl (absorb clock (target_pubkey pl)) (seen pl, store_ n1) rs).2) as -> by (by rewrite Ef).
    apply with_store_ok; [done|apply absorb_store, Hn1|].
    intros q [Hq|Hq]%absorb_stored_inv; [by apply (n_u64 n1)|]. rewrite Forall_forall in Em. by apply (Em q).
  - by apply node_prekey_put_ok.
  - by destruct (negb _).
  - destruct (pending_prekey n1 !! rid) as [pl|] eqn:Epl; [|done].
    destruct (foldl _ (seen pl, prekeys_ n1) rs) as [sn st] eqn:Ef. cbn [fst].
    apply with_pending_prekey_ok; [|apply pending_settle_ok; [apply Hn1|done]].
    assert (st = (foldl (absorb clock (target_pubkey pl)) (seen pl, prekeys_ n1) rs).2) as -> by (by rewrite Ef).
    apply with_prekeys_ok; [done|apply absorb_store, Hn1|].
    intros q [Hq|Hq]%absorb_stored_inv; [by apply (n_prekeys_u64 n1)|]. rewrite Forall_forall in Em. by apply Em.
  - done.
Qed.

Lemma run_dht_ok op n : node_ok n -> op_ok op -> node_ok (run_dht op n).1.
Proof.
  intros Hn Hop. destruct op; cbn [run_dht op_ok] in *.
  - by apply node_observe_ok.
  - by apply publish_ok.
  - by apply lookup_ok.
  - by apply on_message_ok.
  - apply with_pending_ok, pending_delete_ok, Hn; done.
  - by apply publish_prekey_ok.
  - by apply lookup_prekey_ok.
  - apply with_pending_prekey_ok, pending_delete_ok, Hn; done.
  - apply with_prekeys_ok; [apply with_store_ok; [done|apply store_prune_ok, Hn|]|apply store_prune_ok, Hn|].
    + intros r [Hr _]%stored_prune. by apply (n_u64 n).
    + intros r [Hr _]%stored_prune. by apply (n_prekeys_u64 n).
Qed.

Lemma run_dhts_ok ops n : node_ok n -> Forall op_ok ops -> node_ok (run_dhts ops n).
Proof.
  intros Hn Hops. revert n Hn. induction Hops as [|op ops Hop Hops IH]; intros n Hn; [done|].
  apply IH. by apply run_dht_ok.
Qed.

(** Every node a program can build. *)
Definition dht_reachable (n : DhtNode) : Prop :=
  exists self ops, length self = kNodeIdBytes /\ Forall op_ok ops /\ n = run_dhts ops (new_node self).

Lemma dht_reachable_ok n : dht_reachable n -> node_ok n.
Proof. intros (self & ops & Hs & Hops & ->). by apply run_dhts_ok; [apply new_node_ok|]. Qed.

(** ** What a node sends *)

Definition message_ok (m : DhtMessage) : Prop :=
  match m with
  | MPublish r => verify_record_signature r = true
  | MResponse rs _ => Forall (fun r => verify_record_signature r = true) rs
  | MPrekeyPublish r => verify_prekey_record_signature r = true
  | MPrekeyResponse rs _ => Forall (fun r => verify_prekey_record_signature r = true) rs
  | MLookup target _ | MPrekeyLookup target _ => length target = 32%nat
  | MEmpty => False
  end.

Definition sends (effects : list Effect) : list (PeerInfo * bytes) :=
  omap (fun e => match e with Send p w => Some (p, w) | _ => None end) effects.

Definition sends_ok (effects : list Effect) : Prop :=
  (length (sends effects) <= kReplicationFactor)%nat /\
  forall p w, (p, w) ∈ sends effects -> exists m, w = pb_serialize m /\ message_ok m.

Lemma sends_send_all self ps w :
  sends (send_all self ps w) = (fun p => (p, w)) <$> filter (fun p => id p <> self) ps.
Proof. unfold sends, send_all. induction (filter _ ps) as [|p l IH]; [done|]. rewrite !fmap_cons. cbn. by f_equal. Qed.

Lemma send_all_ok self ps m :
  (length ps <= kReplicationFactor)%nat -> message_ok m -> sends_ok (send_all self ps (pb_serialize m)).
Proof.
  intros Hl Hm. unfold sends_ok. rewrite sends_send_all. split.
  - rewrite length_fmap. etrans; [apply length_filter|done].
  - intros p w (q & [= -> ->] & _)%list_elem_of_fmap. eauto.
Qed.

Lemma sends_ok_nil : sends_ok [].
Proof. split; [cbn; lia|]. by intros p w []%not_elem_of_nil. Qed.

Lemma sends_ok_one p m : message_ok m -> sends_ok [Send p (pb_serialize m)].
Proof.
  intros Hm. split; [cbn; unfold kReplicationFactor; lia|].
  intros q w [= -> ->]%list_elem_of_singleton. eauto.
Qed.

Lemma sends_ok_results cb rs l : sends_ok l -> sends_ok (Results cb rs :: l).
Proof. done. Qed.
Lemma sends_ok_prekey_results cb rs l : sends_ok l -> sends_ok (PrekeyResults cb rs :: l).
Proof. done. Qed.

Lemma put_ok_verify {R} `{!StoredRecord R} clock (r : R) now_ms s :
  put_ok (store_put clock r now_ms s).1 = true -> rec_format_ok r = true /\ rec_verify r = true.
Proof.
  rewrite store_put_result. destruct (rec_format_ok r); [|done]. cbn [negb]. destruct (_ <? _); [done|].
  destruct (_ <=? _); [done|]. by destruct (rec_verify r).
Qed.

Lemma get_verified {R} `{!StoredRecord R} (clock : Z) (pk : bytes) (now_ms : Z) (s : RecordStore R) :
  store_ok s -> Forall (fun r => rec_verify r = true) (store_get clock pk now_ms s).
Proof.
  intros Hs. apply Forall_forall. intros r ((b & Hb & Hr) & _)%elem_of_store_get; [|done].
  by destruct (Hs _ _ _ _ Hb Hr) as (_ & _ & _ & ?).
Qed.

#[local] Hint Resolve sends_ok_nil closest_capped_length : core.

Lemma on_message_sends clock from wire n : node_ok n -> length (id from) = kNodeIdBytes -> sends_ok (on_message clock from wire n).2.
Proof.
  intros Hn Hf. unfold on_message. destruct (pb_parse wire) as [m|] eqn:Em; [|apply sends_ok_nil].
  pose proof (node_observe_ok from n Hn Hf) as Hn1. set (n1 := observe from n) in *.
  destruct m as [r|t rid|rs rid|r|t rid|rs rid|]; try apply sends_ok_nil.
  - destruct (negb _); [apply sends_ok_nil|]. apply sends_ok_one. exact (get_verified (R := ProviderRecord) clock t 0 (store_ n1) (n_store n1 Hn1)).
  - destruct (pending n1 !! rid) as [pl|]; [|apply sends_ok_nil]. destruct (foldl _ _ rs). apply sends_ok_results, sends_ok_nil.
  - destruct (negb _); [apply sends_ok_nil|]. apply sends_ok_one. exact (get_verified (R := PrekeyRecord) clock t 0 (prekeys_ n1) (n_prekeys n1 Hn1)).
  - destruct (pending_prekey n1 !! rid) as [pl|]; [|apply sends_ok_nil]. destruct (foldl _ _ rs).
    apply sends_ok_prekey_results, sends_ok_nil.
Qed.

Lemma run_dht_sends op n : node_ok n -> op_ok op -> sends_ok (run_dht op n).2.
Proof.
  intros Hn Hop. destruct op as [p|clock r|clock rid t cb|clock p w|rid|clock r|clock rid t cb|rid|clock now]; try apply sends_ok_nil.
  - cbn [run_dht]. unfold publish. destruct (provider_put clock r 0 (store_ n)) as [res st] eqn:Ep.
    destruct (put_ok res) eqn:Eok; cbn [negb]; [|apply sends_ok_nil]. destruct (negb _); [apply sends_ok_nil|].
    destruct (closest_capped _ _ _) as [|p ps] eqn:Ec; [apply sends_ok_nil|]. rewrite <- Ec.
    apply send_all_ok; [apply closest_capped_length|].
    refine (proj2 (put_ok_verify (R := ProviderRecord) clock r 0 (store_ n) _)). unfold provider_put in Ep. by rewrite Ep.
  - cbn [run_dht]. unfold lookup. destruct (Nat.eqb_spec (length t) 32); cbn [negb]; [|apply sends_ok_nil].
    destruct (closest_capped _ _ _) as [|p ps] eqn:Ec; [apply sends_ok_results, sends_ok_nil|]. rewrite <- Ec.
    cbn [fst snd]. apply sends_ok_results, send_all_ok; [apply closest_capped_length|done].
  - by apply on_message_sends.
  - cbn [run_dht]. unfold publish_prekey. destruct (prekey_put clock r 0 (prekeys_ n)) as [res st] eqn:Ep.
    destruct (put_ok res) eqn:Eok; cbn [negb]; [|apply sends_ok_nil]. destruct (negb _); [apply sends_ok_nil|].
    destruct (closest_capped _ _ _) as [|p ps] eqn:Ec; [apply sends_ok_nil|]. rewrite <- Ec.
    apply send_all_ok; [apply closest_capped_length|].
    refine (proj2 (put_ok_verify (R := PrekeyRecord) clock r 0 (prekeys_ n) _)). unfold prekey_put in Ep. by rewrite Ep.
  - cbn [run_dht]. unfold lookup_prekey. destruct (Nat.eqb_spec (length t) 32); cbn [negb]; [|apply sends_ok_nil].
    destruct (closest_capped _ _ _) as [|p ps] eqn:Ec; [apply sends_ok_prekey_results, sends_ok_nil|]. rewrite <- Ec.
    cbn [fst snd]. apply sends_ok_prekey_results, send_all_ok; [apply closest_capped_length|done].
Qed.

(** C14: A node never stores or passes on an unauthentic record.  Whatever
    messages arrive from whatever peers, and whatever the program calls: all
    records in both stores carry a valid signature of the key they are stored
    under; everything the node sends is a well-formed message whose records all
    verify, to at most eight peers; the routing table stays within its bounds
    and each lookup in flight waits for one to eight replies. *)
Theorem dht_traffic_authentic (self : bytes) (ops : list DhtOp) (op : DhtOp)
    (Hself : length self = kNodeIdBytes) (Hops : Forall op_ok ops) (Hop : op_ok op) :
  let '(n, effects) := run_dht op (run_dhts ops (new_node self)) in
  (forall pk clock now_ms r, r ∈ provider_get clock pk now_ms (store_ n) ->
     publisher_pubkey r = pk /\ verify_record_signature r = true) /\
  (forall pk clock now_ms r, r ∈ prekey_get_all clock pk now_ms (prekeys_ n) ->
     pk_publisher_pubkey r = pk /\ verify_prekey_record_signature r = true) /\
  sends_ok effects /\
  (size (routing_ n) <= 2560)%nat /\ NoDup (id <$> all (routing_ n)) /\
  pending_ok (pending n) /\ pending_ok (pending_prekey n).
Proof.
  assert (node_ok (run_dhts ops (new_node self))) as Hn by (by apply run_dhts_ok; [apply new_node_ok|]).
  pose proof (run_dht_ok op _ Hn Hop) as Hn'. pose proof (run_dht_sends op _ Hn Hop) as Hs.
  destruct (run_dht op _) as [n effects]. cbn [fst snd] in *. pose proof Hn' as [Ht _ Hst Hpk _ _ Hp Hpp].
  split_and!; [..|done|by apply (size_bound (routing_ n))|by apply NoDup_all|done|done].
  - intros pk clock now_ms r Hr. pose proof (get_verified clock pk now_ms (store_ n) Hst) as Hv.
    rewrite Forall_forall in Hv. split; [|by apply Hv]. by apply elem_of_store_get in Hr as (_ & ? & _).
  - intros pk clock now_ms r Hr. pose proof (get_verified clock pk now_ms (prekeys_ n) Hpk) as Hv.
    rewrite Forall_forall in Hv. split; [|by apply Hv]. by apply elem_of_store_get in Hr as (_ & ? & _).
Qed.
End node.

(** ** Records across the DHT

    Three nodes that exchange the messages of [src/core/src/p2p/dht_node.cpp]:
    a record travels from its publisher through a storing node to a node that
    looks it up; and what responses from a hostile peer can do to a lookup. *)
From S2P Require Import Prelude StdMap Crypto Username ToySign Kademlia.
From S2P Require Import ProviderRecords ProviderRecordsProofs RecordStore DhtNode.
Import Kademlia Dht.

Section dht.
Context `{!Ed25519, !Sha256, !ProtoMsg DhtMessage, !ProtoLaws DhtMessage}.

Lemma elem_of_closest t target k p : p ∈ closest target k t -> p ∈ all t.
Proof.
  unfold closest. intros Hp. rewrite <- (merge_sort_Permutation (closer target) (all t)).
  rewrite <- (take_drop k), elem_of_app. by left.
Qed.

Lemma capped_peer n target p :
  node_ok n -> p ∈ closest_capped (routing_ n) target kReplicationFactor ->
  length (id p) = kNodeIdBytes /\ id p <> node_self n.
Proof. intros Hn Hp%elem_of_closest. rewrite (n_self n Hn). by apply all_ids_ok; [apply Hn|]. Qed.

Lemma elem_of_send_all self ps w p : p ∈ ps -> id p <> self -> Send p w ∈ send_all self ps w.
Proof. intros Hp Hne. unfold send_all. apply list_elem_of_fmap. exists p. split; [done|]. by apply list_elem_of_filter. Qed.

Lemma publish_sends clock r n p :
  node_ok n -> put_ok (provider_put clock r 0 (store_ n)).1 = true ->
  p ∈ closest_capped (routing_ n) (node_id_from_pubkey (publisher_pubkey r)) kReplicationFactor ->
  Send p (pb_serialize (MPublish r)) ∈ (publish clock r n).1.2.
Proof.
  intros Hn Hok Hp. destruct (put_ok_verify _ _ _ _ Hok) as [Hf _]. unfold publish.
  destruct (provider_put clock r 0 (store_ n)) as [res st] eqn:Ep. cbn [fst] in Hok. rewrite Hok. cbn [negb].
  assert (length (publisher_pubkey r) = 32%nat) as Hl.
  { cbn in Hf. unfold provider_format_ok in Hf. rewrite !andb_true_iff, Nat.eqb_eq in Hf. tauto. }
  rewrite Hl. cbn [Nat.eqb negb]. change (routing_ (with_store st n)) with (routing_ n).
  change (node_self (with_store st n)) with (node_self n).
  destruct (closest_capped _ _ _) as [|q qs] eqn:Ec; [by apply not_elem_of_nil in Hp|].
  cbn [fst snd]. apply elem_of_send_all; [done|]. rewrite <- Ec in Hp. by eapply capped_peer.
Qed.

Lemma lookup_starts clock rid target cb n p :
  node_ok n -> length target = 32%nat -> pending n !! rid = None ->
  p ∈ closest_capped (routing_ n) (node_id_from_pubkey target) kReplicationFactor ->
  Send p (pb_serialize (MLookup target rid)) ∈ (lookup clock rid target cb n).1.2 /\
  exists k sn, pending (lookup clock rid target cb n).1.1 !! rid = Some (mkPending target cb k sn).
Proof.
  intros Hn Hl Hnone Hp. unfold lookup. rewrite Hl. cbn [Nat.eqb negb].
  destruct (closest_capped _ _ _) as [|q qs] eqn:Ec; [by apply not_elem_of_nil in Hp|].
  cbn [fst snd]. split.
  - apply elem_of_cons. right. apply elem_of_send_all; [done|]. rewrite <- Ec in Hp. by eapply capped_peer.
  - do 2 eexists. cbn [pending with_pending]. rewrite map_emplace_None by done. by rewrite lookup_insert_eq.
Qed.

Lemma lookup_store clock rid target cb n : store_ (lookup clock rid target cb n).1.1 = store_ n.
Proof. unfold lookup. destruct (negb _); [done|]. by destruct (closest_capped _ _ _). Qed.

Lemma on_response clock from rs rid n pl :
  pb_ok (MResponse rs rid) -> pending n !! rid = Some pl ->
  on_message clock from (pb_serialize (MResponse rs rid)) n =
  let '(sn, st) := foldl (absorb clock (target_pubkey pl)) (seen pl, store_ n) rs in
  (with_pending (settle rid (mkPending (target_pubkey pl) (callback pl) (awaiting_replies pl) sn) (pending n))
     (with_store st (observe from n)), [Results (callback pl) (snapshot sn)]).
Proof.
  intros Hok Hpl. unfold on_message. rewrite pb_parse_serialize by done.
  cbn [observe with_routing pending store_]. rewrite Hpl. by destruct (foldl _ _ rs).
Qed.

Lemma elem_of_snapshot {R} `{!StoredRecord R} (sn : gmap bytes R) k r : sn !! k = Some r -> r ∈ snapshot sn.
Proof.
  intros Hr. unfold snapshot. apply list_elem_of_fmap. exists (k, r). split; [done|]. by apply elem_of_map_elements.
Qed.

(** A put that is not refused at one time is not refused later, before the expiry. *)
Lemma put_ok_later {R} `{!StoredRecord R} (t t' : Z) (r : R) (s s' : RecordStore R) :
  0 <= t <= t' -> t' + kRecordClockSkewMs < u64_max -> record_expired r t' = false ->
  put_ok (store_put t r 0 s).1 = true -> put_ok (store_put t' r 0 s').1 = true.
Proof.
  intros Ht Hu He. rewrite !store_put_result. cbn [now_ms_or Z.eqb].
  destruct (negb (rec_format_ok r)); [done|]. unfold kRecordClockSkewMs in *.
  rewrite (u64_small (t + _)), (u64_small (t' + _)) by (unfold_words; lia).
  destruct (Z.ltb_spec (t + 5 * 60 * 1000) (rec_published r)); [done|].
  destruct (Z.ltb_spec (t' + 5 * 60 * 1000) (rec_published r)); [lia|].
  destruct (_ <=? t); [done|]. unfold record_expired in He. rewrite He.
  destruct (negb (rec_verify r)); [done|]. intros _. by destruct (bool_decide _).
Qed.

Lemma put_ok_unexpired {R} `{!StoredRecord R} (t : Z) (r : R) (s : RecordStore R) :
  put_ok (store_put t r 0 s).1 = true -> record_expired r t = false.
Proof.
  rewrite store_put_result. cbn [now_ms_or Z.eqb]. unfold record_expired. destruct (negb _); [done|].
  destruct (_ <? _); [done|]. by destruct (_ <=? t).
Qed.

(** C12: Publishing makes a record findable.  Node A publishes a record its own
    store takes, node B is among the eight nodes of A's table nearest to the
    publisher's key, and so it is in C's table when C looks the key up before
    the record expires.  Then A's publish message, C's query and B's answer are
    sent as the code sends them, and handling them makes C's callback receive a
    list containing the record, and C's store keep it, unless B or C already
    hold another record under the same key and nonce.  The addresses of the record, and
    of what B already holds of this publisher, are UTF-8: the parser refuses a message
    with any other. *)
Theorem dht_publish_lookup (nA nB nC : DhtNode) (pA pB pC : PeerInfo) (r : ProviderRecord)
    (t t' : Z) (rid : bytes) (cb : Z)
    (HA : dht_reachable nA) (HB : dht_reachable nB) (HC : dht_reachable nC)
    (Hids : length (id pA) = kNodeIdBytes /\ length (id pC) = kNodeIdBytes)
    (Hr : provider_wire r) (Hput : put_ok (provider_put t r 0 (store_ nA)).1 = true)
    (Hnear : pB ∈ closest_capped (routing_ nA) (node_id_from_pubkey (publisher_pubkey r)) kReplicationFactor)
    (Hnear' : pB ∈ closest_capped (routing_ nC) (node_id_from_pubkey (publisher_pubkey r)) kReplicationFactor)
    (Hfresh : forall q, stored (store_ nB) q \/ stored (store_ nC) q -> record_key q <> record_key r)
    (Hwire : forall q, stored (store_ nB) q -> publisher_pubkey q = publisher_pubkey r ->
       Forall (fun a => utf8_valid a = true) (addresses q))
    (Ht : 0 <= t <= t' /\ t' + kRecordClockSkewMs < u64_max)
    (Hlive : record_expired r t' = false)
    (Hrid : pending nC !! rid = None) :
  exists w1 w2 w3 results,
    Send pB w1 ∈ (publish t r nA).1.2 /\
    let nB1 := (on_message t pA w1 nB).1 in
    Send pB w2 ∈ (lookup t' rid (publisher_pubkey r) cb nC).1.2 /\
    let nC1 := (lookup t' rid (publisher_pubkey r) cb nC).1.1 in
    (on_message t' pC w2 nB1).2 = [Send pC w3] /\
    let '(nC2, effects) := on_message t' pB w3 nC1 in
    effects = [Results cb results] /\ r ∈ results /\ stored (store_ nC2) r.
Proof.
  apply dht_reachable_ok in HA, HB, HC. destruct Hids as [HpA HpC], Ht as [Ht Hu].
  destruct (put_ok_verify _ _ _ _ Hput) as [Hf _].
  assert (length (publisher_pubkey r) = 32%nat) as Hl.
  { cbn in Hf. unfold provider_format_ok in Hf. rewrite !andb_true_iff, Nat.eqb_eq in Hf. tauto. }
  set (w1 := pb_serialize (MPublish r)). set (nB1 := (on_message t pA w1 nB).1).
  assert (node_ok nB1) as HB1 by (by apply on_message_ok).
  assert (store_ nB1 = (provider_put t r 0 (store_ nB)).2) as EB1.
  { unfold nB1, on_message, w1. by rewrite pb_parse_serialize. }
  assert (stored (store_ nB1) r) as HrB.
  { rewrite EB1. apply put_fresh_stored; [|intros q Hq; apply Hfresh; by left|apply HB].
    rewrite <- Hput. apply put_ok_store. }
  destruct (lookup_starts t' rid (publisher_pubkey r) cb nC pB) as [Hsend (k & sn & Hpl)]; [done..|].
  set (nC1 := (lookup t' rid (publisher_pubkey r) cb nC).1.1) in *.
  assert (node_ok nC1) as HC1 by (by apply lookup_ok).
  assert (store_ nC1 = store_ nC) as EC1.
  { apply lookup_store. }
  set (rs := provider_get t' (publisher_pubkey r) 0 (store_ nB1)).
  assert (r ∈ rs) as Hrs by (apply elem_of_store_get; [apply HB1|split_and!; [exact HrB|reflexivity|exact Hlive]]).
  assert (pb_ok (MResponse rs rid)) as Hok.
  { cbn [pb_ok dht_fields]. apply Forall_forall. intros q (Hq & Hqp & _)%elem_of_store_get; [|apply HB1].
    split; [by apply (n_u64 nB1)|]. rewrite EB1 in Hq. apply stored_put_inv in Hq as [Hq| ->]; [by apply Hwire|apply Hr]. }
  assert (NoDup (record_key <$> rs)) as Hnd by apply NoDup_keys_get, HB1.
  exists w1, (pb_serialize (MLookup (publisher_pubkey r) rid)), (pb_serialize (MResponse rs rid)),
    (snapshot (foldl (absorb t' (publisher_pubkey r)) (sn, store_ nC1) rs).1).
  split; [by apply publish_sends|]. split; [done|]. cbn zeta. split.
  { unfold on_message at 1. rewrite pb_parse_serialize by done. rewrite Hl. done. }
  rewrite (on_response t' pB rs rid nC1 _ Hok Hpl). cbn [target_pubkey callback awaiting_replies seen].
  destruct (foldl (absorb t' (publisher_pubkey r)) (sn, store_ nC1) rs) as [sn' st] eqn:Ef. cbn [fst].
  split; [done|]. split.
  - apply (elem_of_snapshot _ (record_key r)).
    change sn' with (sn', st).1. rewrite <- Ef. by apply absorb_seen.
  - cbn [store_ with_pending with_store]. change st with (sn', st).2. rewrite <- Ef.
    apply absorb_put; cbn [snd]; [done|done|done|apply HC1| |].
    + by apply (put_ok_later t t' r (store_ nA)).
    + rewrite EC1. intros q Hq. apply Hfresh. by right.
Qed.

(** ** Untrusted responses *)

(** Lookup callbacks receive unverified records.  Anyone who knows the id of
    a lookup in flight can make its callback receive a record that names the
    looked-up key as publisher and carries no valid signature; the store, unlike
    the callback, refuses it. *)
Theorem dht_callback_unverified (n : DhtNode) (rid : bytes) (pl : Pending ProviderRecord)
    (forged : ProviderRecord) (clock : Z) (from : PeerInfo)
    (Hn : dht_reachable n) (Hpl : pending n !! rid = Some pl) (Hr : provider_wire forged)
    (Htarget : publisher_pubkey forged = target_pubkey pl)
    (Hbad : verify_record_signature forged = false) :
  let '(n', effects) := on_message clock from (pb_serialize (MResponse [forged] rid)) n in
  exists results, effects = [Results (callback pl) results] /\ forged ∈ results /\
                  ~ stored (store_ n') forged.
Proof.
  apply dht_reachable_ok in Hn. rewrite (on_response clock from [forged] rid n pl); [|by apply Forall_singleton|done].
  destruct (foldl _ _ [forged]) as [sn st] eqn:Ef. eexists. split; [done|]. split.
  - apply (elem_of_snapshot _ (record_key forged)). change sn with (sn, st).1. rewrite <- Ef.
    apply absorb_seen; [apply NoDup_singleton|by left|done].
  - cbn [store_ with_pending with_store]. change st with (sn, st).2. rewrite <- Ef. intros (b & Hb & Hq).
    destruct (absorb_store clock (target_pubkey pl) [forged] (seen pl, store_ n) (n_store n Hn) _ _ _ _ Hb Hq)
      as (_ & _ & _ & Hv). cbn in Hv. congruence.
Qed.

(** [k] empty responses to the same lookup from one peer. *)
Definition empty_replies (clock : Z) (from : PeerInfo) (rid : bytes) (k : nat) (n : DhtNode) : DhtNode :=
  Nat.iter k (fun n => (on_message clock from (pb_serialize (MResponse [] rid)) n).1) n.

Lemma empty_reply clock from rid n pl :
  pending n !! rid = Some pl ->
  pending (on_message clock from (pb_serialize (MResponse [] rid)) n).1 !! rid =
  if (pred (awaiting_replies pl) =? 0)%nat then None
  else Some (mkPending (target_pubkey pl) (callback pl) (pred (awaiting_replies pl)) (seen pl)).
Proof.
  intros Hpl. rewrite (on_response clock from [] rid n pl); [|by apply Forall_nil|done]. cbn [foldl fst pending with_pending].
  unfold settle. cbn [awaiting_replies target_pubkey callback seen].
  destruct (_ =? 0)%nat; [by rewrite lookup_delete_eq|by rewrite lookup_insert_eq].
Qed.

(** One peer can close a lookup.  Replies are counted, not attributed: as
    many empty responses as peers were asked, all from one of them, end the
    lookup, and the answer of every other peer is then dropped without reaching
    the callback or the store. *)
Theorem dht_one_peer_closes_lookup (n : DhtNode) (rid : bytes) (pl : Pending ProviderRecord)
    (clock : Z) (hostile honest : PeerInfo) (records : list ProviderRecord)
    (Hpl : pending n !! rid = Some pl) (Hk : (0 < awaiting_replies pl)%nat)
    (Hrecords : Forall provider_wire records) :
  let n' := empty_replies clock hostile rid (awaiting_replies pl) n in
  pending n' !! rid = None /\
  on_message clock honest (pb_serialize (MResponse records rid)) n' = (observe honest n', []).
Proof.
  intros n'. assert (pending n' !! rid = None) as Hnone.
  { unfold n', empty_replies. assert (forall k n pl, pending n !! rid = Some pl -> awaiting_replies pl = S k ->
      pending (Nat.iter (S k) (fun n => (on_message clock hostile (pb_serialize (MResponse [] rid)) n).1) n) !! rid = None) as Hind.
    { induction k as [|k IH]; intros n0 pl0 Hpl0 Hk0.
      - pose proof (empty_reply clock hostile rid n0 pl0 Hpl0) as E. rewrite Hk0 in E. exact E.
      - pose proof (empty_reply clock hostile rid n0 pl0 Hpl0) as E. rewrite Hk0 in E.
        rewrite Nat.iter_succ_r. by apply (IH _ _ E). }
    destruct (awaiting_replies pl) as [|k] eqn:Ek; [lia|]. by eapply Hind. }
  split; [done|]. unfold on_message. rewrite pb_parse_serialize by done.
  cbn [observe with_routing pending]. by rewrite Hnone.
Qed.
End dht.
