(* ===== verification/DhtWitness.v ===== *)
(** * The DHT on concrete data

    An evaluable wire codec and hash, and nodes to which the theorems about the
    DHT are applied. *)
From S2P Require Import Prelude StdMap Crypto Username ToySign Kademlia.
From S2P Require Import ProviderRecords ProviderRecordsProofs RecordStore DhtNode DhtTheorems.
Import Kademlia Dht.

(** ** A codec *)

#[export] Instance ProviderRecord_countable : Countable ProviderRecord.
Proof.
  refine (inj_countable'
    (fun r => (publisher_pubkey r, addresses r, published_at_ms r, ttl_ms r, nonce r, signature r, offline_relays r))
    (fun '(a, b, c, d, e, f, g) => mkProviderRecord a b c d e f g) _). by intros [].
Defined.

#[export] Instance PrekeyRecord_countable : Countable PrekeyRecord.
Proof.
  refine (inj_countable'
    (fun r => (pk_publisher_pubkey r, pk_signed_prekey r, pk_signed_prekey_signature r, pk_published_at_ms r,
               pk_ttl_ms r, pk_nonce r, pk_signature r, pk_pq_pubkey r, pk_pq_pubkey_sig r))
    (fun '(a, b, c, d, e, f, g, h, i) => mkPrekeyRecord a b c d e f g h i) _). by intros [].
Defined.

#[export] Instance DhtMessage_eq_dec : EqDecision DhtMessage.
Proof. solve_decision. Defined.

#[export] Instance DhtMessage_countable : Countable DhtMessage.
Proof.
  refine (inj_countable'
    (fun m => match m with
     | MPublish r => inl (inl (inl r))
     | MPrekeyPublish r => inl (inl (inr r))
     | MLookup t rid => inl (inr (inl (t, rid)))
     | MPrekeyLookup t rid => inl (inr (inr (t, rid)))
     | MResponse rs rid => inr (inl (inl (rs, rid)))
     | MPrekeyResponse rs rid => inr (inl (inr (rs, rid)))
     | MEmpty => inr (inr tt)
     end)
    (fun x => match x with
     | inl (inl (inl r)) => MPublish r
     | inl (inl (inr r)) => MPrekeyPublish r
     | inl (inr (inl (t, rid))) => MLookup t rid
     | inl (inr (inr (t, rid))) => MPrekeyLookup t rid
     | inr (inl (inl (rs, rid))) => MResponse rs rid
     | inr (inl (inr (rs, rid))) => MPrekeyResponse rs rid
     | inr (inr _) => MEmpty
     end) _). by intros [].
Defined.

#[export] Instance dht_fields_dec (m : DhtMessage) : Decision (pb_ok m).
Proof.
  destruct m; cbn [pb_ok dht_fields]; unfold provider_wire, provider_u64, prekey_u64, is_u64; apply _.
Defined.

Definition toy_pos_bytes (p : positive) : bytes := be_bytes (Pos.size_nat p) (Z.pos p).

#[export] Instance toy_dht : ProtoMsg DhtMessage := {|
  pb_serialize m := toy_pos_bytes (encode m);
  pb_parse b := m ← decode (Z.to_pos (be_value b)); if decide (pb_ok m) then Some m else None;
|}.

Lemma toy_pos_value p : be_value (toy_pos_bytes p) = Z.pos p.
Proof.
  apply be_value_be_bytes. split; [lia|]. pose proof (Pos.size_gt p) as Hs.
  assert (Pos.size_nat p = Pos.to_nat (Pos.size p)) as -> by (clear; induction p; cbn [Pos.size_nat Pos.size]; lia).
  rewrite positive_nat_Z.
  assert (Z.pos p < 2 ^ Z.pos (Pos.size p)) by (rewrite <- Pos2Z.inj_pow; lia).
  pose proof (Z.pow_le_mono_l 2 256 (Z.pos (Pos.size p))). lia.
Qed.

#[export] Instance toy_dht_laws : ProtoLaws DhtMessage.
Proof.
  split.
  - intros m Hm. cbn [pb_parse pb_serialize toy_dht]. rewrite toy_pos_value. cbn [Z.to_pos].
    rewrite decode_encode. cbn. by rewrite decide_True.
  - intros b m. cbn [pb_parse toy_dht]. intros (m' & _ & E)%bind_Some. by case_decide; simplify_eq.
Qed.

#[export] Instance toy_sha256 : Sha256 := fun b => be_bytes 32 (be_value b).

(** ** The nodes

    All three nodes know the peer B; A publishes [w_built]. *)

Definition w_peer (n : Z) : PeerInfo := mkPeerInfo (be_bytes 20 n) [] [].
Definition w_node (n : Z) (peers : list Z) : DhtNode :=
  run_dhts ((fun k => ObserveOp (w_peer k)) <$> peers) (new_node (be_bytes 20 n)).

Lemma w_node_reachable n peers : dht_reachable (w_node n peers).
Proof.
  exists (be_bytes 20 n), ((fun k => ObserveOp (w_peer k)) <$> peers). split; [apply length_be_bytes|].
  split; [|done]. apply Forall_fmap, Forall_forall. intros k _. apply (length_be_bytes 20).
Qed.

Lemma dht_traffic_authentic_witness :
  let '(n, effects) := run_dht (PublishOp 1000000 w_built)
                         (run_dhts [ObserveOp (w_peer 2); ObserveOp (w_peer 3)] (new_node (be_bytes 20 1))) in
  sends_ok effects /\ (size (routing_ n) <= 2560)%nat.
Proof.
  pose proof (dht_traffic_authentic (be_bytes 20 1) [ObserveOp (w_peer 2); ObserveOp (w_peer 3)]
    (PublishOp 1000000 w_built) (length_be_bytes 20 1)) as T.
  assert (Forall op_ok [ObserveOp (w_peer 2); ObserveOp (w_peer 3)]) as Hops.
  { apply Forall_cons_2; [apply (length_be_bytes 20)|]. apply Forall_singleton. apply (length_be_bytes 20). }
  assert (op_ok (PublishOp 1000000 w_built)) as Hop by (split; by_computing).
  specialize (T Hops Hop). destruct (run_dht _ _) as [n effects]. destruct T as (_ & _ & T1 & T2 & _).
  split; [exact T1|exact T2].
Defined.

Lemma dht_publish_lookup_witness :
  exists w1 w2 w3 results,
    Send (w_peer 2) w1 ∈ (publish 1000000 w_built (w_node 1 [2; 3])).1.2 /\
    let nB1 := (on_message 1000000 (w_peer 1) w1 (w_node 2 [1])).1 in
    Send (w_peer 2) w2 ∈ (lookup 2000000 (str "rid") (publisher_pubkey w_built) 9 (w_node 3 [2])).1.2 /\
    let nC1 := (lookup 2000000 (str "rid") (publisher_pubkey w_built) 9 (w_node 3 [2])).1.1 in
    (on_message 2000000 (w_peer 3) w2 nB1).2 = [Send (w_peer 3) w3] /\
    let '(nC2, effects) := on_message 2000000 (w_peer 2) w3 nC1 in
    effects = [Results 9 results] /\ w_built ∈ results /\ stored (store_ nC2) w_built.
Proof.
  apply (dht_publish_lookup (w_node 1 [2; 3]) (w_node 2 [1]) (w_node 3 [2]) (w_peer 1) (w_peer 2) (w_peer 3)
    w_built 1000000 2000000 (str "rid") 9).
  - apply w_node_reachable.
  - apply w_node_reachable.
  - apply w_node_reachable.
  - split; apply (length_be_bytes 20).
  - split; [split; by_computing|]. apply (bool_decide_unpack _). vm_compute. exact I.
  - vm_compute. reflexivity.
  - apply (bool_decide_unpack _). vm_compute. exact I.
  - apply (bool_decide_unpack _). vm_compute. exact I.
  - assert (store_ (w_node 2 [1]) = ∅ /\ store_ (w_node 3 [2]) = ∅) as [E1 E2] by (split; vm_compute; reflexivity).
    intros q Hq. rewrite E1, E2 in Hq. by destruct Hq as [(b & []%lookup_empty_Some & _)|(b & []%lookup_empty_Some & _)].
  - assert (store_ (w_node 2 [1]) = ∅) as E by (vm_compute; reflexivity).
    intros q Hq. rewrite E in Hq. by destruct Hq as (b & []%lookup_empty_Some & _).
  - unfold kRecordClockSkewMs, u64_max. lia.
  - vm_compute. reflexivity.
  - vm_compute. reflexivity.
Defined.

(** A node with one lookup in flight, and a record nobody signed. *)
Definition w_key : bytes := replicate 32 Byte.x01.
Definition w_ops : list DhtOp := [ObserveOp (w_peer 2); LookupOp 1000000 (str "rid") w_key 9].
Definition w_looking : DhtNode := run_dhts w_ops (new_node (be_bytes 20 1)).

Definition w_pending : Pending ProviderRecord := mkPending w_key 9 1 ∅.

Lemma w_looking_pending : pending w_looking !! str "rid" = Some w_pending.
Proof. vm_compute. reflexivity. Qed.

Lemma dht_callback_unverified_witness :
  let '(n', effects) := on_message 1000000 (w_peer 2) (pb_serialize (MResponse [w_provider []] (str "rid"))) w_looking in
  exists results, effects = [Results 9 results] /\ w_provider [] ∈ results /\ ~ stored (store_ n') (w_provider []).
Proof.
  apply (dht_callback_unverified w_looking (str "rid") w_pending (w_provider []) 1000000 (w_peer 2)).
  - exists (be_bytes 20 1), w_ops. split; [apply length_be_bytes|]. split; [|reflexivity].
    apply Forall_cons_2; [apply (length_be_bytes 20)|]. apply Forall_singleton. exact I.
  - exact w_looking_pending.
  - split; [split; by_computing|]. apply (bool_decide_unpack _). vm_compute. exact I.
  - reflexivity.
  - vm_compute. reflexivity.
Defined.

Lemma dht_one_peer_closes_lookup_witness :
  let n' := empty_replies 1000000 (w_peer 2) (str "rid") 1 w_looking in
  pending n' !! str "rid" = None /\
  on_message 1000000 (w_peer 3) (pb_serialize (MResponse [w_built] (str "rid"))) n' = (observe (w_peer 3) n', []).
Proof.
  apply (dht_one_peer_closes_lookup w_looking (str "rid") w_pending 1000000 (w_peer 2) (w_peer 3) [w_built]).
  - exact w_looking_pending.
  - cbn. lia.
  - apply Forall_singleton. split; [split; by_computing|]. apply (bool_decide_unpack _). vm_compute. exact I.
Defined.
