(* ===== verification/Handshake.v ===== *)
(** * Session bootstrap ([src/core/src/handshake/hybrid.cpp],
    [src/core/src/crypto/hybrid_kem.cpp], the key derivations of
    [src/core/src/crypto/identity.cpp])

    The X25519 agreement with its HKDF, the ML-KEM-768 extension, prekey bundles
    with their Ed25519 and ML-DSA-65 bindings, and sealed senders.  libsodium's
    key conversion and OpenSSL's post-quantum algorithms are parameters; a
    [None] is the exception they may throw. *)
From S2P Require Import Prelude Crypto Username Wire.

(** [crypto_sign_ed25519_{sk,pk}_to_curve25519] *)
Class EdCurve := {
  sk_to_curve25519 : bytes -> option bytes;
  pk_to_curve25519 : bytes -> option bytes;
}.

(** Converting both halves of a key pair gives a key pair. *)
Class EdCurveLaws `{!Sodium, !Ed25519, !EdCurve} := {
  curve_pair : forall sk x, sk_to_curve25519 sk = Some x ->
    pk_to_curve25519 (sign_public sk) = Some (scalarmult_base x);
}.

(** ML-KEM-768 and ML-DSA-65. The second argument of [encap] is its randomness. *)
Class PqCrypto := {
  kem_keygen : bytes -> bytes * bytes;
  kem_encap : bytes -> bytes -> option (bytes * bytes);
  kem_decap : bytes -> bytes -> option bytes;
  dsa_keygen : bytes -> bytes * bytes;
  dsa_sign : bytes -> bytes -> bytes;
  dsa_verify : bytes -> bytes -> bytes -> bool;
}.

Definition kMlKem768PubBytes : nat := 1184.
Definition kMlKem768CtBytes : nat := 1088.
Definition kMlDsa65PubBytes : nat := 1952.
Definition kMlDsa65SigBytes : nat := 3309.

Class PqLaws `{!PqCrypto} := {
  length_kem_pub : forall seed, length (kem_keygen seed).1 = kMlKem768PubBytes;
  kem_correct : forall seed rnd ct ss,
    kem_encap (kem_keygen seed).1 rnd = Some (ct, ss) -> kem_decap (kem_keygen seed).2 ct = Some ss;
  length_kem_ct : forall pub rnd ct ss, kem_encap pub rnd = Some (ct, ss) -> length ct = kMlKem768CtBytes;
  length_dsa_pub : forall seed, length (dsa_keygen seed).1 = kMlDsa65PubBytes;
  length_dsa_sig : forall sk m, length (dsa_sign sk m) = kMlDsa65SigBytes;
  dsa_correct : forall seed m, dsa_verify (dsa_keygen seed).1 m (dsa_sign (dsa_keygen seed).2 m) = true;
}.

Inductive HandshakeError :=
| SkConversionFailed | PkConversionFailed | ScalarmultLowOrder | HkdfFailure | PqFailure
| SendPqPubkeySize | RecvPqCtSize | BundleIdentitySize | MissingPqPubkeySig | PqPubkeySigInvalid
| PqSigsInvalid.

(** [fb::crypto::Identity] *)
Record Identity := mkIdentity {
  id_pub : bytes;
  id_sec : bytes;
}.

Record X25519Pair := mkX25519Pair {
  x_pub : bytes;
  x_priv : bytes;
}.

Record PqIdentity := mkPqIdentity {
  pq_pub : bytes;
  pq_sec : bytes;
  pq_binding_sig : bytes;
}.

Record HybridSendResult := mkHybridSendResult {
  hs_shared : bytes;
  hs_pq_ct : bytes;
}.

Section handshake.
Context `{!Sodium, !Ed25519, !EdCurve, !PqCrypto}.

Definition id_sign (i : Identity) (message : bytes) : bytes := sign_detached (id_sec i) message.

Definition or_throw {A} (o : option A) (e : HandshakeError) : result HandshakeError A :=
  match o with Some a => Ok a | None => Throw e end.

(** [hkdf_extract(salt, ikm)] then [hkdf_expand(prk, info, n)], copied out. *)
Definition hkdf (salt ikm info : bytes) (n : nat) : result HandshakeError bytes :=
  match hkdf_expand (hkdf_extract salt ikm) info n with
  | Ok okm => Ok (take n okm)
  | Throw _ => Throw HkdfFailure
  end.

Definition derive_pq_seed_from_identity_seed (seed : bytes) : result HandshakeError bytes :=
  hkdf [] seed (str "FinBit-PQ-seed-v1") 64.

Definition derive_pq_sig_seed_from_identity_seed (seed : bytes) : result HandshakeError bytes :=
  hkdf [] seed (str "FinBit-PQSIG-seed-v1") 32.

Definition combine_x25519_mlkem768 (ss_x25519 ss_mlkem768 : bytes) : result HandshakeError bytes :=
  hkdf (str "FinBit-hybrid-v1") (ss_x25519 ++ ss_mlkem768) (str "FinBit hybrid X25519+ML-KEM-768") 32.

Definition derive_x25519 (i : Identity) : result HandshakeError X25519Pair :=
  let? priv := or_throw (sk_to_curve25519 (id_sec i)) SkConversionFailed in
  let? pub := or_throw (pk_to_curve25519 (id_pub i)) PkConversionFailed in
  Ok (mkX25519Pair pub priv).

Definition derive_shared_secret (mine : X25519Pair) (peer_pub : bytes) : result HandshakeError bytes :=
  let? dh := or_throw (scalarmult (x_priv mine) peer_pub) ScalarmultLowOrder in
  hkdf [] dh (str "FinBit-X3DH-v0") 32.

Definition derive_pq_identity (i : Identity) (seed : bytes) : result HandshakeError PqIdentity :=
  let? pq_seed := derive_pq_seed_from_identity_seed seed in
  let kp := kem_keygen pq_seed in
  Ok (mkPqIdentity kp.1 kp.2 (id_sign i kp.1)).

(** [rnd]: the randomness of the encapsulation. *)
Definition derive_hybrid_send (mine : X25519Pair) (peer_x peer_pq_pub rnd : bytes) :
    result HandshakeError HybridSendResult :=
  let? shared := derive_shared_secret mine peer_x in
  match peer_pq_pub with
  | [] => Ok (mkHybridSendResult shared [])
  | _ =>
      if negb (length peer_pq_pub =? kMlKem768PubBytes)%nat then Throw SendPqPubkeySize
      else
        let? (ct, ss) := or_throw (kem_encap peer_pq_pub rnd) PqFailure in
        let? hyb := combine_x25519_mlkem768 shared ss in
        Ok (mkHybridSendResult hyb ct)
  end.

Definition derive_hybrid_recv (mine : X25519Pair) (peer_x my_pq_sec pq_ct_bytes : bytes) :
    result HandshakeError bytes :=
  let? ss_x := derive_shared_secret mine peer_x in
  match pq_ct_bytes with
  | [] => Ok ss_x
  | _ =>
      if negb (length pq_ct_bytes =? kMlKem768CtBytes)%nat then Throw RecvPqCtSize
      else
        let? ss_pq := or_throw (kem_decap my_pq_sec pq_ct_bytes) PqFailure in
        combine_x25519_mlkem768 ss_x ss_pq
  end.

Definition filled (b : bytes) : bool := match b with [] => false | _ => true end.

Definition verify_bundle_pq_sigs (b : PreKeyBundle) : bool :=
  let any := filled (pq_sig_pubkey b) || filled (pq_sig_pubkey_sig b) ||
             filled (signed_prekey_sig_pq b) || filled (pq_pubkey_sig_pq b) in
  if negb any then true
  else if negb (length (pq_sig_pubkey b) =? kMlDsa65PubBytes)%nat then false
  else if negb (length (pq_sig_pubkey_sig b) =? 64)%nat then false
  else if negb (length (signed_prekey_sig_pq b) =? kMlDsa65SigBytes)%nat then false
  else if negb (length (pk_identity_pubkey b) =? 32)%nat then false
  else if negb (length (signed_prekey b) =? 32)%nat then false
  else if negb (length (pq_pubkey b) =? kMlKem768PubBytes)%nat then false
  else if negb (length (pq_pubkey_sig_pq b) =? kMlDsa65SigBytes)%nat then false
  else if negb (verify_detached (pk_identity_pubkey b) (pq_sig_pubkey b) (pq_sig_pubkey_sig b)) then false
  else if negb (dsa_verify (pq_sig_pubkey b) (signed_prekey b) (signed_prekey_sig_pq b)) then false
  else if negb (dsa_verify (pq_sig_pubkey b) (pq_pubkey b) (pq_pubkey_sig_pq b)) then false
  else true.

Definition derive_hybrid_send_from_bundle (mine : X25519Pair) (peer_x : bytes) (b : PreKeyBundle) (rnd : bytes) :
    result HandshakeError HybridSendResult :=
  let? _ := (if filled (pq_pubkey b) then
               if negb (length (pk_identity_pubkey b) =? 32)%nat then Throw BundleIdentitySize
               else if negb (length (pq_pubkey_sig b) =? 64)%nat then Throw MissingPqPubkeySig
               else if negb (verify_detached (pk_identity_pubkey b) (pq_pubkey b) (pq_pubkey_sig b))
                    then Throw PqPubkeySigInvalid
               else Ok tt
             else Ok tt) in
  if negb (verify_bundle_pq_sigs b) then Throw PqSigsInvalid
  else derive_hybrid_send mine peer_x (pq_pubkey b) rnd.

Definition derive_hybrid_recv_from_env (mine : X25519Pair) (peer_x my_pq_sec : bytes) (env : Envelope) :
    result HandshakeError bytes :=
  derive_hybrid_recv mine peer_x my_pq_sec (pq_ct env).

(** ** Hybrid signatures *)

Record PqSigIdentity := mkPqSigIdentity {
  pqs_pub : bytes;
  pqs_sec : bytes;
  pqs_binding_sig : bytes;
}.

Record HybridSignature := mkHybridSignature {
  sig_ed25519 : bytes;
  sig_pq : bytes;
}.

Definition derive_pq_sig_identity (i : Identity) (seed : bytes) : result HandshakeError PqSigIdentity :=
  let? pq_seed := derive_pq_sig_seed_from_identity_seed seed in
  let kp := dsa_keygen pq_seed in
  Ok (mkPqSigIdentity kp.1 kp.2 (id_sign i kp.1)).

Definition hybrid_sign (classical : Identity) (pq : PqSigIdentity) (message : bytes) : HybridSignature :=
  mkHybridSignature (id_sign classical message) (dsa_sign (pqs_sec pq) message).

Definition hybrid_verify (ed25519_pub pq_pub message : bytes) (sig : HybridSignature) : bool :=
  let ok_ed := verify_detached ed25519_pub message (sig_ed25519 sig) in
  let ok_pq := dsa_verify pq_pub message (sig_pq sig) in
  ok_ed && ok_pq.

Definition add_pq_sig_fields_to_bundle (b : PreKeyBundle) (pq : PqSigIdentity) : PreKeyBundle :=
  mkPreKeyBundle (pk_identity_pubkey b) (signed_prekey b) (signed_prekey_sig b) (one_time_prekey b)
    (one_time_prekey_id b) (published_at_ms b) (pq_pubkey b) (pq_pubkey_sig b)
    (pqs_pub pq) (pqs_binding_sig pq) (dsa_sign (pqs_sec pq) (signed_prekey b))
    (if filled (pq_pubkey b) then dsa_sign (pqs_sec pq) (pq_pubkey b) else pq_pubkey_sig_pq b).

(** ** Sealed sender *)

Definition kSealedSenderDomain : bytes := str "FinBit-SealedSender-v1".

Definition sealed_sender_sig_input (envelope_id : bytes) (timestamp_ms : Z) (recipient_pubkey : bytes) : bytes :=
  kSealedSenderDomain ++ envelope_id ++ be_bytes 8 timestamp_ms ++ recipient_pubkey.

Record SealedSenderFields := mkSealedSenderFields {
  ssf_pubkey : bytes;
  ssf_sig : bytes;
}.

Definition make_sealed_sender_fields (i : Identity) (envelope_id : bytes) (timestamp_ms : Z)
    (recipient_pubkey : bytes) : SealedSenderFields :=
  mkSealedSenderFields (id_pub i) (id_sign i (sealed_sender_sig_input envelope_id timestamp_ms recipient_pubkey)).

Definition verify_sealed_sender (claimed_pubkey claimed_sig envelope_id : bytes) (timestamp_ms : Z)
    (recipient_pubkey : bytes) : bool :=
  verify_detached claimed_pubkey (sealed_sender_sig_input envelope_id timestamp_ms recipient_pubkey) claimed_sig.
End handshake.
