(* ===== verification/HandshakeProofs.v ===== *)
(** * Properties of the session bootstrap

    Both sides derive the same secret and the ratchet started from it works;
    which bundles are accepted and what an accepted bundle guarantees; what a
    sealed-sender signature covers. *)
From S2P Require Import Prelude StdMap ProviderRecords ProviderRecordsProofs.
From S2P Require Import Crypto Username Wire Ratchet RatchetProofs RatchetConversation Handshake.
Import Ratchet.

Section handshake.
Context `{!Sodium, !SodiumLaws, !Ed25519, !EdCurve, !EdCurveLaws, !PqCrypto, !PqLaws}.

Definition identity_ok (i : Identity) : Prop := id_pub i = sign_public (id_sec i).

Lemma derive_x25519_Ok i p :
  identity_ok i -> derive_x25519 i = Ok p ->
  sk_to_curve25519 (id_sec i) = Some (x_priv p) /\ pk_to_curve25519 (id_pub i) = Some (x_pub p) /\
  x_pub p = scalarmult_base (x_priv p).
Proof.
  intros Hi. unfold derive_x25519, or_throw. destruct (sk_to_curve25519 (id_sec i)) as [x|] eqn:Es; [|done].
  rewrite Hi, (curve_pair _ _ Es). cbn [rbind]. intros [= <-]. done.
Qed.

Lemma hkdf_Ok salt ikm info n : (1 <= n <= 255 * 32)%nat -> exists okm, hkdf salt ikm info n = Ok okm.
Proof.
  intros Hn. unfold hkdf, hkdf_expand, kHkdfSha256Bytes.
  destruct (Nat.eqb_spec n 0); [lia|]. destruct (Nat.ltb_spec (255 * 32) n); [lia|]. cbn [orb]. eauto.
Qed.

Lemma shared_secret_comm a b :
  x_pub a = scalarmult_base (x_priv a) -> x_pub b = scalarmult_base (x_priv b) ->
  derive_shared_secret a (x_pub b) = derive_shared_secret b (x_pub a).
Proof. intros Ha Hb. unfold derive_shared_secret. by rewrite Ha, Hb, scalarmult_comm. Qed.

(** ** Agreement *)

Lemma hybrid_agreement a b seed pq rnd hyb :
  x_pub a = scalarmult_base (x_priv a) -> x_pub b = scalarmult_base (x_priv b) ->
  (pq = [] \/ pq = (kem_keygen seed).1) ->
  derive_hybrid_send a (x_pub b) pq rnd = Ok hyb ->
  derive_hybrid_recv b (x_pub a) (kem_keygen seed).2 (hs_pq_ct hyb) = Ok (hs_shared hyb).
Proof.
  intros Ha Hb Hpq. unfold derive_hybrid_send, derive_hybrid_recv. rewrite (shared_secret_comm a b) by done.
  destruct (derive_shared_secret b (x_pub a)) as [ss|err]; cbn [rbind]; [|done].
  destruct pq as [|x l] eqn:E; [by intros [= <-]|]. destruct Hpq as [|Hpq]; [done|]. rewrite Hpq.
  rewrite length_kem_pub. cbn [Nat.eqb negb].
  destruct (kem_encap (kem_keygen seed).1 rnd) as [[ct ss']|] eqn:Ek; cbn [or_throw rbind]; [|done].
  pose proof (length_kem_ct _ _ _ _ Ek) as Hl. pose proof (kem_correct _ _ _ _ Ek) as Hd.
  destruct (combine_x25519_mlkem768 ss ss') as [h|err] eqn:Ec; cbn [rbind]; [|done]. intros [= <-].
  cbn [hs_pq_ct hs_shared]. destruct ct as [|c ct]; [done|]. rewrite Hl. cbn [negb Nat.eqb]. rewrite Nat.eqb_refl.
  cbn [negb]. rewrite Hd. cbn [or_throw rbind]. done.
Qed.

(** ** Bundles *)

(** The bundle an identity uploads ([chat_client.cpp], [fb-cli]): prekey, KEM
    key and binding signature, then the ML-DSA fields. *)
Definition own_bundle (i : Identity) (x : X25519Pair) (pq : PqIdentity) (pqs : PqSigIdentity) : PreKeyBundle :=
  add_pq_sig_fields_to_bundle
    (mkPreKeyBundle (id_pub i) (x_pub x) [] [] 0 0 (pq_pub pq) (pq_binding_sig pq) [] [] [] []) pqs.

Context `{!Ed25519Laws}.

Lemma own_bundle_accepted i x pq pqs seed seed' mine rnd :
  identity_ok i -> length (x_pub x) = 32%nat ->
  derive_pq_identity i seed = Ok pq -> derive_pq_sig_identity i seed' = Ok pqs ->
  derive_hybrid_send_from_bundle mine (x_pub x) (own_bundle i x pq pqs) rnd =
  derive_hybrid_send mine (x_pub x) (pq_pub pq) rnd.
Proof.
  intros Hi Hx Hpq Hpqs. unfold derive_pq_identity in Hpq. unfold derive_pq_sig_identity in Hpqs.
  destruct (derive_pq_seed_from_identity_seed seed) as [s1|]; [|done]. cbn [rbind] in Hpq. injection Hpq as <-.
  destruct (derive_pq_sig_seed_from_identity_seed seed') as [s2|]; [|done]. cbn [rbind] in Hpqs. injection Hpqs as <-.
  unfold derive_hybrid_send_from_bundle, own_bundle, add_pq_sig_fields_to_bundle, verify_bundle_pq_sigs.
  cbn [pk_identity_pubkey signed_prekey pq_pubkey pq_pubkey_sig pq_sig_pubkey pq_sig_pubkey_sig
       signed_prekey_sig_pq pq_pubkey_sig_pq pqs_pub pqs_sec pqs_binding_sig pq_pub pq_binding_sig].
  pose proof (length_kem_pub s1) as Hk. pose proof (length_dsa_pub s2) as Hd.
  assert (filled (kem_keygen s1).1 = true) as -> by (destruct (kem_keygen s1) as [[|? ?] ?]; done).
  assert (filled (dsa_keygen s2).1 = true) as -> by (destruct (dsa_keygen s2) as [[|? ?] ?]; done).
  rewrite Hi. unfold id_sign. rewrite Hk, Hd, Hx, !length_dsa_sig, length_sign_public, !length_sign.
  rewrite !verify_sign, !dsa_correct. rewrite !Nat.eqb_refl. done.
Qed.

(** C22: A bundle is never accepted half-stripped.  When a send from a bundle
    succeeds, a KEM key in the bundle carries a valid signature of the bundle's
    identity; and if any of the four ML-DSA fields is present, then all are, the
    identity signed the ML-DSA key, the ML-DSA key signed both the prekey and
    the KEM key, and the result is hybrid: a 1088-byte KEM ciphertext. *)
Theorem no_partial_downgrade (mine : X25519Pair) (peer_x rnd : bytes) (b : PreKeyBundle) (res : HybridSendResult)
    (Hres : derive_hybrid_send_from_bundle mine peer_x b rnd = Ok res) :
  (pq_pubkey b = [] /\ hs_pq_ct res = [] \/
   length (pq_pubkey b) = 1184%nat /\ length (hs_pq_ct res) = 1088%nat /\
   verify_detached (pk_identity_pubkey b) (pq_pubkey b) (pq_pubkey_sig b) = true) /\
  ((pq_sig_pubkey b = [] /\ pq_sig_pubkey_sig b = [] /\ signed_prekey_sig_pq b = [] /\ pq_pubkey_sig_pq b = []) \/
   verify_detached (pk_identity_pubkey b) (pq_sig_pubkey b) (pq_sig_pubkey_sig b) = true /\
   dsa_verify (pq_sig_pubkey b) (signed_prekey b) (signed_prekey_sig_pq b) = true /\
   dsa_verify (pq_sig_pubkey b) (pq_pubkey b) (pq_pubkey_sig_pq b) = true /\
   length (pq_pubkey b) = 1184%nat /\ length (hs_pq_ct res) = 1088%nat).
Proof.
  unfold derive_hybrid_send_from_bundle in Hres.
  destruct (if filled (pq_pubkey b) then _ else _) as [[]|err] eqn:Eg; cbn [rbind] in Hres; [|done].
  destruct (verify_bundle_pq_sigs b) eqn:Ev; cbn [negb] in Hres; [|done].
  assert (pq_pubkey b = [] /\ hs_pq_ct res = [] \/
    length (pq_pubkey b) = 1184%nat /\ length (hs_pq_ct res) = 1088%nat /\
    verify_detached (pk_identity_pubkey b) (pq_pubkey b) (pq_pubkey_sig b) = true) as Hk.
  { unfold derive_hybrid_send in Hres. destruct (derive_shared_secret mine peer_x) as [ss|]; cbn [rbind] in Hres; [|done].
    destruct (pq_pubkey b) as [|x l] eqn:Ep; [left; by injection Hres as <-|]. rewrite <- Ep in *.
    assert (filled (pq_pubkey b) = true) as Hf by (by rewrite Ep). rewrite Hf in Eg.
    destruct (Nat.eqb_spec (length (pq_pubkey b)) kMlKem768PubBytes) as [El|]; cbn [negb] in Hres; [|done].
    destruct (kem_encap (pq_pubkey b) rnd) as [[ct s]|] eqn:Ek; cbn [or_throw rbind] in Hres; [|done].
    destruct (combine_x25519_mlkem768 ss s); cbn [rbind] in Hres; [|done]. injection Hres as <-. right.
    split; [done|]. split; [by apply (length_kem_ct _ _ _ _ Ek)|].
    destruct (negb (length (pk_identity_pubkey b) =? 32)%nat); [done|].
    destruct (negb (length (pq_pubkey_sig b) =? 64)%nat); [done|].
    by destruct (verify_detached (pk_identity_pubkey b) (pq_pubkey b) (pq_pubkey_sig b)). }
  split; [done|]. unfold verify_bundle_pq_sigs in Ev.
  destruct (filled (pq_sig_pubkey b) || filled (pq_sig_pubkey_sig b) || filled (signed_prekey_sig_pq b) ||
    filled (pq_pubkey_sig_pq b)) eqn:Ea; cbn [negb] in Ev.
  - right. repeat match type of Ev with
      | (if negb ?c then false else _) = true => destruct c eqn:?; cbn [negb] in Ev; [|done]
      end.
    destruct Hk as [[E _]|(? & ? & _)]; [by rewrite E in *|by split_and!].
  - left. rewrite !orb_false_iff in Ea. destruct Ea as (((F1 & F2) & F3) & F4).
    destruct (pq_sig_pubkey b), (pq_sig_pubkey_sig b), (signed_prekey_sig_pq b), (pq_pubkey_sig_pq b); done.
Qed.

(** The relay's substitution: its own prekey, no post-quantum fields. *)
Definition swap_prekey (attacker_pub : bytes) (b : PreKeyBundle) : PreKeyBundle :=
  mkPreKeyBundle (pk_identity_pubkey b) attacker_pub (signed_prekey_sig b) (one_time_prekey b)
    (one_time_prekey_id b) (published_at_ms b) [] [] [] [] [] [].

(** C23: The classical prekey of a bundle is not authenticated.  Whoever relays
    a bundle can replace the signed prekey with a key of its own and drop the
    post-quantum fields: the sender accepts the bundle under the unchanged
    identity, whatever [signed_prekey_sig] says, and derives a secret that the
    relay computes from its own private key and the sender's public key. *)
Theorem bundle_prekey_unauthenticated (iA : Identity) (a : X25519Pair) (evil : bytes) (b : PreKeyBundle)
    (my_pq_sec rnd : bytes)
    (HA : identity_ok iA) (Ha : derive_x25519 iA = Ok a)
    (Hgood : is_Some (scalarmult (x_priv a) (scalarmult_base evil))) :
  let m := mkX25519Pair (scalarmult_base evil) evil in
  let forged := swap_prekey (scalarmult_base evil) b in
  exists shared,
    derive_hybrid_send_from_bundle a (signed_prekey forged) forged rnd = Ok (mkHybridSendResult shared []) /\
    derive_hybrid_recv m (x_pub a) my_pq_sec [] = Ok shared /\
    pk_identity_pubkey forged = pk_identity_pubkey b.
Proof.
  intros m forged. destruct (derive_x25519_Ok iA a HA Ha) as (_ & _ & Hpub). destruct Hgood as [dh Hdh].
  unfold derive_hybrid_send_from_bundle, verify_bundle_pq_sigs, derive_hybrid_send, derive_hybrid_recv.
  cbn [forged swap_prekey pq_pubkey pq_sig_pubkey pq_sig_pubkey_sig signed_prekey_sig_pq pq_pubkey_sig_pq
       signed_prekey pk_identity_pubkey filled orb negb rbind].
  assert (derive_shared_secret m (x_pub a) = derive_shared_secret a (scalarmult_base evil)) as ->
    by (by apply (shared_secret_comm m a)).
  unfold derive_shared_secret. rewrite Hdh. cbn [or_throw rbind].
  destruct (hkdf_Ok [] dh (str "FinBit-X3DH-v0") 32) as [okm E]; [lia|]. rewrite E. cbn [rbind]. eauto.
Qed.

(** What the sender derives from the bundle, the recipient derives from the ciphertext. *)
Lemma bundle_agreement (iA iB : Identity) (seed rnd_kem : bytes) (a b : X25519Pair) (pqB : PqIdentity)
    (bundle : PreKeyBundle) (hyb : HybridSendResult) :
  identity_ok iA -> identity_ok iB -> derive_x25519 iA = Ok a -> derive_x25519 iB = Ok b ->
  derive_pq_identity iB seed = Ok pqB -> pq_pubkey bundle = [] \/ pq_pubkey bundle = pq_pub pqB ->
  derive_hybrid_send_from_bundle a (x_pub b) bundle rnd_kem = Ok hyb ->
  derive_hybrid_recv b (x_pub a) (pq_sec pqB) (hs_pq_ct hyb) = Ok (hs_shared hyb).
Proof.
  intros HA HB Ha Hb HpqB Hkem Hsend.
  destruct (derive_x25519_Ok _ _ HA Ha) as (_ & Hax & Hap). destruct (derive_x25519_Ok _ _ HB Hb) as (_ & _ & Hbp).
  unfold derive_pq_identity in HpqB. destruct (derive_pq_seed_from_identity_seed seed) as [s1|]; [|done].
  cbn [rbind] in HpqB. injection HpqB as <-. cbn [pq_pub pq_sec] in *.
  unfold derive_hybrid_send_from_bundle in Hsend. destruct (if filled (pq_pubkey bundle) then _ else _); [|done].
  cbn [rbind] in Hsend. destruct (negb (verify_bundle_pq_sigs bundle)); [done|].
  exact (hybrid_agreement a b s1 _ _ _ Hap Hbp Hkem Hsend).
Qed.

(** ** First contact *)

Context `{!ProtoMsg RatchetMessage, !ProtoLaws RatchetMessage}.

(** First contact works.  Alice fetches Bob's bundle (with or without his
    KEM key), derives the secret from it and starts a ratchet; the envelope
    carries the KEM ciphertext.  Bob, who knows only Alice's identity key and
    the envelope, derives the same secret; the two ratchets are in the initial
    state of the conversation theorems, and the first message Alice encrypts
    decrypts at Bob, for every plaintext and associated data. *)
Theorem first_contact (iA iB : Identity) (seed : bytes) (a b : X25519Pair) (pqB : PqIdentity)
    (bundle : PreKeyBundle) (env : Envelope) (rnd_kem rnd_ratchet rnd_bob : bytes) (hyb : HybridSendResult)
    (sA sA' : State) (pt aad wire : bytes)
    (HA : identity_ok iA) (HB : identity_ok iB)
    (Ha : derive_x25519 iA = Ok a) (Hb : derive_x25519 iB = Ok b)
    (HpqB : derive_pq_identity iB seed = Ok pqB)
    (Hspk : signed_prekey bundle = x_pub b) (Hkem : pq_pubkey bundle = [] \/ pq_pubkey bundle = pq_pub pqB)
    (Hsend : derive_hybrid_send_from_bundle a (signed_prekey bundle) bundle rnd_kem = Ok hyb)
    (Henv : pq_ct env = hs_pq_ct hyb)
    (Hinit : init_alice (hs_shared hyb) (signed_prekey bundle) rnd_ratchet = Ok sA)
    (Hfresh : scalarmult_base rnd_ratchet <> x_pub b)
    (Henc : encrypt sA pt aad = (Ok wire, sA'))
    (Hbob : Forall (fun p => scalarmult_base rnd_bob <> p /\ is_Some (scalarmult rnd_bob p))
              [scalarmult_base rnd_ratchet; x_pub b]) :
  exists alice_x shared,
    pk_to_curve25519 (id_pub iA) = Some alice_x /\
    derive_hybrid_recv_from_env b alice_x (pq_sec pqB) env = Ok shared /\
    initial (mkWorld sA (init_bob shared (x_priv b) (x_pub b)) [] [scalarmult_base rnd_ratchet; x_pub b] 0) /\
    (decrypt (init_bob shared (x_priv b) (x_pub b)) wire aad rnd_bob).1 = Ok (Some pt).
Proof.
  destruct (derive_x25519_Ok _ _ HA Ha) as (_ & Hax & Hap). destruct (derive_x25519_Ok _ _ HB Hb) as (_ & _ & Hbp).
  rewrite Hspk in Hsend, Hinit.
  pose proof (bundle_agreement _ _ _ _ _ _ _ _ _ HA HB Ha Hb HpqB Hkem Hsend) as Hrecv.
  exists (x_pub a), (hs_shared hyb). split; [done|]. split; [unfold derive_hybrid_recv_from_env; by rewrite Henv|].
  set (w0 := mkWorld sA (init_bob (hs_shared hyb) (x_priv b) (x_pub b)) [] [scalarmult_base rnd_ratchet; x_pub b] 0).
  assert (initial w0) as Hw0.
  { unfold w0. rewrite Hbp in Hinit, Hfresh |- *. by apply Initial. }
  split; [done|].
  assert (step w0 (with_state w0 false sA' [mkPacket true wire aad pt] (used w0) 1)) as Hstep.
  { apply (Step_send w0 false pt aad wire sA'); [cbn; unfold kMaxSkip; lia| |done].
    unfold init_alice in Hinit. destruct (x25519_keypair rnd_ratchet) as [pub priv].
    destruct (x25519_dh priv (x_pub b)) as [dh|]; cbn [rbind] in Hinit; [|done].
    destruct (kdf_rk (hs_shared hyb) dh) as [[k1 k2]|]; cbn [rbind] in Hinit; [|done]. by injection Hinit as <-. }
  destruct (reach_inv _ (Reach_step _ _ (Reach_init _ Hw0) Hstep)) as (g & ep & ids & Hinv).
  destruct (deliver_packet g ep ids _ [] (mkPacket true wire aad pt) [] rnd_bob Hinv) as (s' & _ & _ & _ & E & _);
    [done|done|]. cbn in E. by rewrite E.
Qed.

(** ** Sealed sender *)

(** What a sealed-sender signature covers.  A seal made by an identity
    verifies for its envelope id, time stamp and recipient; the signed bytes
    determine all three, and differ from everything else the identity key signs
    in a fixed format: record statements of the DHT, and the 32-byte server
    challenges and prekeys. *)
Theorem sealed_sender_binding (i : Identity) (eid eid' recip recip' other : bytes) (ts ts' : Z) (s : Statement)
    (Hi : identity_ok i) (Hts : is_u64 ts /\ is_u64 ts')
    (Hrecip : length recip = 32%nat /\ length recip' = 32%nat) (Hother : length other = 32%nat) :
  let f := make_sealed_sender_fields i eid ts recip in
  verify_sealed_sender (ssf_pubkey f) (ssf_sig f) eid ts recip = true /\
  (sealed_sender_sig_input eid ts recip = sealed_sender_sig_input eid' ts' recip' ->
   eid = eid' /\ ts = ts' /\ recip = recip') /\
  statement_bytes s <> Ok (sealed_sender_sig_input eid ts recip) /\
  sealed_sender_sig_input eid ts recip <> other.
Proof.
  intros f. destruct Hts as [Hts Hts'], Hrecip as [Hr Hr']. split_and!.
  - unfold verify_sealed_sender, f, make_sealed_sender_fields, id_sign. cbn [ssf_pubkey ssf_sig]. rewrite Hi. apply verify_sign.
  - unfold sealed_sender_sig_input. intros E. apply app_inv_head in E. rewrite !app_assoc in E.
    apply app_inj_2 in E as [E Er]; [|congruence]. apply app_inj_2 in E as [E Et]; [|by rewrite !length_be_bytes].
    split_and!; [done| |done]. by apply be64_inj.
  - intros E. destruct s as [r|k]; cbn [statement_bytes] in E.
    + apply provider_signing_Ok in E as [_ E]. by apply (f_equal head) in E.
    + apply prekey_signing_Ok in E as [_ E]. apply (f_equal head) in E. unfold prekey_layout in E.
      by destruct (pq_present k).
  - intros E. apply (f_equal length) in E. unfold sealed_sender_sig_input in E.
    rewrite !length_app, length_be_bytes in E. change (length kSealedSenderDomain) with 22%nat in E. lia.
Qed.
End handshake.

(** ** The session bootstrap on concrete data

    Evaluable stand-ins for the key conversion and the post-quantum algorithms,
    two identities, and the theorems of the bootstrap applied to them. *)
From S2P Require Import Prelude StdMap ProviderRecords ProviderRecordsProofs.
From S2P Require Import Crypto Username ToySign Wire Ratchet RatchetProofs RatchetConversation Toy.
From S2P Require Import Handshake.
Import Ratchet.

#[export] Instance toy_curve : EdCurve := {|
  sk_to_curve25519 sk := Some (be_bytes 32 (be_value sk));
  pk_to_curve25519 pk := Some (scalarmult_base pk);
|}.
#[export] Instance toy_curve_laws : EdCurveLaws.
Proof. split. by intros sk x [= <-]. Qed.

(** [32 + n] bytes. *)
Definition toy_wide (n : nat) (v : Z) : bytes := replicate n Byte.x00 ++ be_bytes 32 v.

Lemma length_toy_wide n v : length (toy_wide n v) = (n + 32)%nat.
Proof. unfold toy_wide. by rewrite length_app, length_replicate. Qed.

Definition toy_dsa (k m : bytes) : bytes := toy_wide 3277 (be_value (toy_hmac k m)).
Definition toy_dsa_key (seed : bytes) : bytes := toy_wide 1920 (be_value seed).
Definition toy_kem_key (seed : bytes) : bytes := toy_wide 1152 (be_value seed).
Definition toy_ct (rnd : bytes) : bytes := toy_wide 1056 (be_value rnd).

#[export] Instance toy_pq : PqCrypto := {|
  kem_keygen seed := (toy_kem_key seed, toy_kem_key seed);
  kem_encap pub rnd := Some (toy_ct rnd, toy_hmac pub (toy_ct rnd));
  kem_decap sec ct := Some (toy_hmac sec ct);
  dsa_keygen seed := (toy_dsa_key seed, toy_dsa_key seed);
  dsa_sign := toy_dsa;
  dsa_verify pub m sig := bool_decide (sig = toy_dsa pub m);
|}.
#[export] Instance toy_pq_laws : PqLaws.
Proof.
  split.
  - intros seed. apply length_toy_wide.
  - intros seed rnd ct ss E. cbn [kem_encap kem_keygen kem_decap toy_pq fst snd] in *. by injection E as <- <-.
  - intros pub rnd ct ss E. cbn [kem_encap toy_pq] in E. injection E as <- _. apply length_toy_wide.
  - intros seed. apply length_toy_wide.
  - intros sk m. apply length_toy_wide.
  - intros seed m. cbn [dsa_verify dsa_keygen dsa_sign toy_pq fst snd]. by rewrite bool_decide_true.
Qed.

Definition get {E A} (d : A) (r : result E A) : A := match r with Ok a => a | Throw _ => d end.

Definition w_identity (n : Z) : Identity := mkIdentity (sign_public (be_bytes 64 n)) (be_bytes 64 n).
Definition w_x (n : Z) : X25519Pair := get (mkX25519Pair [] []) (derive_x25519 (w_identity n)).
Definition w_pq (n : Z) : PqIdentity := get (mkPqIdentity [] [] []) (derive_pq_identity (w_identity n) (be_bytes 32 n)).
Definition w_pqs (n : Z) : PqSigIdentity :=
  get (mkPqSigIdentity [] [] []) (derive_pq_sig_identity (w_identity n) (be_bytes 32 n)).
Definition w_bundle (n : Z) : PreKeyBundle := own_bundle (w_identity n) (w_x n) (w_pq n) (w_pqs n).

(** Alice is 5, Bob is 11. *)
Definition w_hyb : HybridSendResult :=
  get (mkHybridSendResult [] [])
    (derive_hybrid_send_from_bundle (w_x 5) (signed_prekey (w_bundle 11)) (w_bundle 11) (be_bytes 32 77)).
Definition w_env : Envelope := mkEnvelope [] 0 [] [] [] 0 0 [] (hs_pq_ct w_hyb) RecipientNotSet.
Definition w_alice : State := get default_state (init_alice (hs_shared w_hyb) (signed_prekey (w_bundle 11)) (be_bytes 32 21)).
Definition w_wire : bytes := get [] (encrypt w_alice (str "hello") (str "aad")).1.
Definition w_alice' : State := (encrypt w_alice (str "hello") (str "aad")).2.

Lemma no_partial_downgrade_witness :
  length (hs_pq_ct w_hyb) = 1088%nat.
Proof.
  destruct (no_partial_downgrade (w_x 5) (signed_prekey (w_bundle 11)) (be_bytes 32 77) (w_bundle 11) w_hyb) as [[[E _]|(_ & E & _)] _].
  - vm_compute. reflexivity.
  - apply (f_equal length) in E. vm_compute in E. discriminate E.
  - exact E.
Defined.

Lemma bundle_prekey_unauthenticated_witness :
  let forged := swap_prekey (scalarmult_base (be_bytes 32 13)) (w_bundle 11) in
  exists shared,
    derive_hybrid_send_from_bundle (w_x 5) (signed_prekey forged) forged [] = Ok (mkHybridSendResult shared []) /\
    derive_hybrid_recv (mkX25519Pair (scalarmult_base (be_bytes 32 13)) (be_bytes 32 13)) (x_pub (w_x 5)) [] [] = Ok shared /\
    pk_identity_pubkey forged = pk_identity_pubkey (w_bundle 11).
Proof.
  apply (bundle_prekey_unauthenticated (w_identity 5) (w_x 5) (be_bytes 32 13) (w_bundle 11) [] []).
  - reflexivity.
  - vm_compute. reflexivity.
  - apply (bool_decide_unpack _). vm_compute. exact I.
Defined.

Lemma first_contact_witness :
  exists alice_x shared,
    pk_to_curve25519 (id_pub (w_identity 5)) = Some alice_x /\
    derive_hybrid_recv_from_env (w_x 11) alice_x (pq_sec (w_pq 11)) w_env = Ok shared /\
    initial (mkWorld w_alice (init_bob shared (x_priv (w_x 11)) (x_pub (w_x 11))) []
               [scalarmult_base (be_bytes 32 21); x_pub (w_x 11)] 0) /\
    (decrypt (init_bob shared (x_priv (w_x 11)) (x_pub (w_x 11))) w_wire (str "aad") (be_bytes 32 22)).1 = Ok (Some (str "hello")).
Proof.
  apply (first_contact (w_identity 5) (w_identity 11) (be_bytes 32 11) (w_x 5) (w_x 11) (w_pq 11) (w_bundle 11) w_env
    (be_bytes 32 77) (be_bytes 32 21) (be_bytes 32 22) w_hyb w_alice w_alice' (str "hello") (str "aad") w_wire).
  - reflexivity.
  - reflexivity.
  - vm_compute. reflexivity.
  - vm_compute. reflexivity.
  - vm_compute. reflexivity.
  - reflexivity.
  - right. reflexivity.
  - vm_compute. reflexivity.
  - reflexivity.
  - vm_compute. reflexivity.
  - by_computing.
  - vm_compute. reflexivity.
  - apply Forall_cons_2; [|apply Forall_singleton]; split; by_computing.
Defined.

Lemma sealed_sender_binding_witness :
  let f := make_sealed_sender_fields (w_identity 5) (str "e") 7 (id_pub (w_identity 11)) in
  verify_sealed_sender (ssf_pubkey f) (ssf_sig f) (str "e") 7 (id_pub (w_identity 11)) = true.
Proof.
  destruct (sealed_sender_binding (w_identity 5) (str "e") (str "e") (id_pub (w_identity 11)) (id_pub (w_identity 11))
    (be_bytes 32 0) 7 7 (SProvider (w_provider []))) as [T _].
  - reflexivity.
  - split; by_computing.
  - split; reflexivity.
  - reflexivity.
  - exact T.
Defined.
