(* ===== verification/Identity.v ===== *)
(** * What people compare ([src/core/src/crypto/identity.cpp])

    The short fingerprint of one key and the safety number of two, over
    libsodium's BLAKE2b as a parameter. *)
From S2P Require Import Prelude StdMap.

(** [crypto_generichash(out, outlen, in)] without a key. *)
Class Blake2b := generichash : nat -> bytes -> bytes.
Class Blake2bLaws `{!Blake2b} := length_generichash : forall n b, length (generichash n b) = n.

Definition kBase32Alphabet : bytes := str "0123456789ABCDEFGHJKMNPQRSTVWXYZ".

(** [v = (v << 8) | b] in 64 bits. *)
Definition push_byte (v : Z) (b : byte) : Z := Z.lor (u64 (Z.shiftl v 8)) (b2z b).

(** One turn of [for (shift = 45; shift >= 0; shift -= 5)]. *)
Definition fingerprint_step (bits : Z) (out : bytes) (shift : Z) : bytes :=
  let out := if (length out =? 5)%nat then out ++ str "-" else out in
  let idx := Z.land (Z.shiftr bits shift) 31 in
  out ++ [nth (Z.to_nat idx) kBase32Alphabet Byte.x00].

Definition fingerprint_shifts : list Z := [45; 40; 35; 30; 25; 20; 15; 10; 5; 0].

(** ["%05u"] of a value below 100000. *)
Definition pad5 (v : Z) : bytes :=
  [z2b (48 + v / 10000 mod 10); z2b (48 + v / 1000 mod 10); z2b (48 + v / 100 mod 10);
   z2b (48 + v / 10 mod 10); z2b (48 + v mod 10)].

Section identity.
Context `{!Blake2b}.

Definition fingerprint (pubkey : bytes) : bytes :=
  let hash := generichash 20 pubkey in
  let window := take 7 hash in
  let bits := foldl push_byte 0 (take 5 window) in
  foldl (fingerprint_step bits) [] fingerprint_shifts.

(** One five-byte chunk of the hash: two groups of digits. *)
Definition safety_chunk (out chunk : bytes) : bytes :=
  let v := foldl push_byte 0 chunk in
  let out := if bool_decide (out = []) then out else out ++ str " " in
  let out := out ++ pad5 (v / 100000 mod 100000) in
  out ++ str " " ++ pad5 (v mod 100000).

Definition safety_number (a b : bytes) : bytes :=
  let a_first := key_leb a b in
  let joined := (if a_first then a else b) ++ (if a_first then b else a) in
  let h := generichash 32 joined in
  foldl safety_chunk [] ((fun i => take 5 (drop (5 * i) h)) <$> seq 0 6).

(** ** Fingerprints *)

Lemma push_bytes_value l acc :
  0 <= acc -> (acc + 1) * 256 ^ Z.of_nat (length l) <= u64_max ->
  foldl push_byte acc l = acc * 256 ^ Z.of_nat (length l) + be_value l.
Proof.
  revert acc. induction l as [|b l IH]; intros acc Ha Hb; [cbn; lia|]. cbn [foldl length] in *.
  rewrite Nat2Z.inj_succ, Z.pow_succ_r in * by lia. pose proof (b2z_range b) as Hr.
  assert (0 < 256 ^ Z.of_nat (length l)) by (apply Z.pow_pos_nonneg; lia).
  assert (push_byte acc b = acc * 256 + b2z b) as ->.
  { unfold push_byte. rewrite Z.shiftl_mul_pow2 by lia. change (2 ^ 8) with 256.
    rewrite u64_small by (unfold_words; nia). pose proof (lor_shiftl_add acc (b2z b) 8) as L.
    rewrite Z.shiftl_mul_pow2 in L by lia. apply L; lia. }
  rewrite IH by nia. rewrite be_value_cons. nia.
Qed.

Definition quintet (v : Z) (shift : Z) : byte := nth (Z.to_nat (Z.land (Z.shiftr v shift) 31)) kBase32Alphabet Byte.x00.

Lemma fingerprint_unfold pubkey :
  let v := be_value (take 5 (generichash 20 pubkey)) in
  fingerprint pubkey =
    [quintet v 45; quintet v 40; quintet v 35; quintet v 30; quintet v 25] ++ str "-" ++
    [quintet v 20; quintet v 15; quintet v 10; quintet v 5; quintet v 0].
Proof.
  intros v. unfold fingerprint. rewrite take_take. change (5 `min` 7)%nat with 5%nat.
  assert (foldl push_byte 0 (take 5 (generichash 20 pubkey)) = v) as ->; [|reflexivity].
  rewrite push_bytes_value; [lia|lia|]. rewrite Z.mul_1_l.
  etrans; [apply (Z.pow_le_mono_r 256 _ 5); [lia|]|unfold_words; cbn; lia].
  rewrite length_take. lia.
Qed.

Lemma quintet_mod v s : 0 <= s -> quintet v s = nth (Z.to_nat (v / 2 ^ s mod 32)) kBase32Alphabet Byte.x00.
Proof.
  intros Hs. unfold quintet. change 31 with (Z.ones 5). by rewrite Z.land_ones, Z.shiftr_div_pow2 by lia.
Qed.

Lemma alphabet_inj x y :
  0 <= x < 32 -> 0 <= y < 32 ->
  nth (Z.to_nat x) kBase32Alphabet Byte.x00 = nth (Z.to_nat y) kBase32Alphabet Byte.x00 -> x = y.
Proof.
  intros Hx Hy E. assert (NoDup kBase32Alphabet) as Hnd by by_computing.
  apply Z2Nat.inj; [lia..|]. eapply (NoDup_nth kBase32Alphabet Byte.x00); [by apply NoDup_ListNoDup| | |done].
  - change (length kBase32Alphabet) with 32%nat. lia.
  - change (length kBase32Alphabet) with 32%nat. lia.
Qed.

(** One base-32 digit more. *)
Lemma quintet_step v w s :
  0 <= s -> v / 2 ^ (s + 5) = w / 2 ^ (s + 5) -> quintet v s = quintet w s -> v / 2 ^ s = w / 2 ^ s.
Proof.
  intros Hs Hhi Hq. rewrite !quintet_mod in Hq by done.
  apply alphabet_inj in Hq; [|apply Z.mod_pos_bound; lia..].
  rewrite Z.pow_add_r, <- !Z.div_div in Hhi by lia. change (2 ^ 5) with 32 in Hhi.
  pose proof (Z.div_mod (v / 2 ^ s) 32). pose proof (Z.div_mod (w / 2 ^ s) 32). lia.
Qed.

Context `{!Blake2bLaws}.

(** A fingerprint carries 40 bits.  It has eleven characters, five, a dash
    and five; but only five bytes of the hash enter the 50 bits that are spelled
    out, so the first two characters are 0 for every key, and two keys have the
    same fingerprint as soon as five bytes of their hashes agree. *)
Theorem fingerprint_40_bits (a b : bytes) :
  length (fingerprint a) = 11%nat /\
  take 2 (fingerprint a) = str "00" /\
  (fingerprint a = fingerprint b <-> take 5 (generichash 20 a) = take 5 (generichash 20 b)).
Proof.
  assert (forall k, 0 <= be_value (take 5 (generichash 20 k)) < 2 ^ 40) as Hv.
  { intros k. pose proof (be_value_range (take 5 (generichash 20 k))) as Hr.
    rewrite length_take, length_generichash in Hr. exact Hr. }
  assert (forall v s, 0 <= v < 2 ^ 40 -> 40 <= s -> v / 2 ^ s = 0) as Hhi.
  { intros v s Hb Hs. apply Z.div_small. pose proof (Z.pow_le_mono_r 2 40 s). lia. }
  rewrite !fingerprint_unfold. pose proof (Hv a) as Ha. pose proof (Hv b) as Hb.
  set (v := be_value (take 5 (generichash 20 a))) in *. set (w := be_value (take 5 (generichash 20 b))) in *.
  split_and!; [done| |].
  - cbn [app take]. rewrite !quintet_mod, !Hhi by lia. done.
  - split; [|intros E; unfold v, w; by rewrite E]. cbn [app str]. intros E. injection E as _ _ E35 E30 E25 E20 E15 E10 E5 E0.
    assert (v / 2 ^ (35 + 5) = w / 2 ^ (35 + 5)) as S by (rewrite !Hhi by lia; done).
    apply quintet_step in S; [|lia|done]. apply (quintet_step v w 30) in S; [|lia|done].
    apply (quintet_step v w 25) in S; [|lia|done]. apply (quintet_step v w 20) in S; [|lia|done].
    apply (quintet_step v w 15) in S; [|lia|done]. apply (quintet_step v w 10) in S; [|lia|done].
    apply (quintet_step v w 5) in S; [|lia|done]. apply (quintet_step v w 0) in S; [|lia|done].
    rewrite !Z.div_1_r in S. apply be_value_inj; [|done]. by rewrite !length_take, !length_generichash.
Qed.

(** ** Safety numbers *)

Definition spaced (gs : list Z) : bytes :=
  foldl (fun out g => (if bool_decide (out = []) then out else out ++ str " ") ++ pad5 g) [] gs.

Definition chunk_groups (chunk : bytes) : list Z :=
  let v := foldl push_byte 0 chunk in [v / 100000 mod 100000; v mod 100000].

Lemma safety_chunk_groups out chunk :
  safety_chunk out chunk =
  foldl (fun out g => (if bool_decide (out = []) then out else out ++ str " ") ++ pad5 g) out (chunk_groups chunk).
Proof.
  unfold safety_chunk, chunk_groups. cbn [foldl]. set (o := (if bool_decide (out = []) then out else out ++ str " ")).
  rewrite (bool_decide_false (o ++ pad5 _ = [])); [by rewrite <- !app_assoc|].
  intros [_ [=]]%app_eq_nil.
Qed.

Lemma safety_chunks_groups out chunks :
  foldl safety_chunk out chunks =
  foldl (fun out g => (if bool_decide (out = []) then out else out ++ str " ") ++ pad5 g) out
    (mjoin (chunk_groups <$> chunks)).
Proof.
  revert out. induction chunks as [|c cs IH]; intros out; [done|].
  rewrite fmap_cons. change (mjoin (chunk_groups c :: ?l)) with (chunk_groups c ++ mjoin l).
  rewrite foldl_app. cbn [foldl]. by rewrite safety_chunk_groups, IH.
Qed.

(** Both sides read the same safety number: the order of the keys does not
    matter, and the result is twelve groups of five decimal digits separated
    by spaces, 71 characters. *)
Theorem safety_number_shared (a b : bytes) :
  safety_number a b = safety_number b a /\
  length (safety_number a b) = 71%nat /\
  exists gs, length gs = 12%nat /\ Forall (fun g => 0 <= g < 100000) gs /\ safety_number a b = spaced gs.
Proof.
  assert (exists gs, length gs = 12%nat /\ Forall (fun g => 0 <= g < 100000) gs /\ safety_number a b = spaced gs) as Hgs.
  { unfold safety_number. set (h := generichash 32 _).
    set (chunks := (fun i => take 5 (drop (5 * i) h)) <$> seq 0 6).
    exists (mjoin (chunk_groups <$> chunks)). split_and!.
    - done.
    - unfold chunks. cbn [seq fmap list_fmap].
      repeat (apply Forall_cons_2; [apply Z.mod_pos_bound; lia|]). apply Forall_nil_2.
    - apply safety_chunks_groups. }
  split_and!; [| |done].
  - unfold safety_number. destruct (key_leb a b) eqn:E1, (key_leb b a) eqn:E2; try done.
    + by rewrite (key_leb_antisym a b).
    + destruct (key_leb_total a b); congruence.
  - destruct Hgs as (gs & Hl & _ & ->). do 12 (destruct gs as [|? gs]; [done|]). by destruct gs.
Qed.
End identity.

#[local] Instance toy_blake : Blake2b := fun n b => be_bytes n (be_value b).
#[local] Instance toy_blake_laws : Blake2bLaws.
Proof. intros n b. apply length_be_bytes. Qed.

Lemma fingerprint_40_bits_witness :
  take 2 (fingerprint (be_bytes 32 12345678901234567890123456789)) = str "00" /\
  fingerprint (be_bytes 32 1) = fingerprint (be_bytes 32 2).
Proof.
  split.
  - exact (proj1 (proj2 (fingerprint_40_bits (be_bytes 32 12345678901234567890123456789) []))).
  - apply (fingerprint_40_bits (be_bytes 32 1) (be_bytes 32 2)). vm_compute. reflexivity.
Defined.
