(* ===== verification/UsernameLog.v ===== *)
(** * The username log ([src/core/src/identity/username_log.cpp])

    Signed claims that bind names to keys, kept in an SQLite table with primary
    key (username, pubkey).  The table is the list of its rows in insertion
    order; the result of an [ORDER BY] is a parameter that is only known to be a
    sorted permutation, since SQL leaves the order of ties open. *)
From S2P Require Import Prelude StdMap Username ServerStore ProviderRecords.

Definition kAcceptedClockSkewMs : Z := 5 * 60 * 1000.

(** [fb::proto::UserClaim] *)
Record UserClaim := mkUserClaim {
  uc_username : bytes;
  uc_pubkey : bytes;
  uc_timestamp_ms : Z;
  uc_nonce : bytes;
  uc_signature : bytes;
}.

#[export] Instance UserClaim_eq_dec : EqDecision UserClaim.
Proof. solve_decision. Defined.

(** [ORDER BY key ASC] *)
Class SqlOrder := sql_order_by : forall {K} `{OrdKey K}, (UserClaim -> K) -> list UserClaim -> list UserClaim.

Definition key_sorted `{OrdKey K} (key : UserClaim -> K) : list UserClaim -> Prop :=
  StronglySorted (fun a b => key_leb (key a) (key b) = true).

Class SqlOrderLaws `{!SqlOrder} := {
  sql_order_perm : forall {K} `{OrdKey K} (key : UserClaim -> K) l, sql_order_by key l ≡ₚ l;
  sql_order_sorted : forall {K} `{OrdKey K} (key : UserClaim -> K) l, key_sorted key (sql_order_by key l);
}.

(** [static_cast<sqlite3_int64>] *)
Definition i64 (z : Z) : Z := if z <? 2 ^ 63 then z else z - u64_max.

Definition hex_digit (v : Z) : byte := z2b (if v <? 10 then 48 + v else 55 + v).
(** SQLite's [hex]. *)
Definition hex (b : bytes) : bytes := b ≫= (fun x => [hex_digit (b2z x / 16); hex_digit (b2z x mod 16)]).

Inductive ClaimError := ClaimBadPubkey | ClaimBadNonce | ClaimBadUsername | ClaimBadSecret.

Definition kClaimMagic : bytes := str "fb.identity.UserClaim:v1" ++ [Byte.x0a].

Definition claim_canonical_signing_bytes (username pubkey : bytes) (timestamp_ms : Z) (nonce : bytes) :
    result ClaimError bytes :=
  if negb (length pubkey =? 32)%nat then Throw ClaimBadPubkey
  else if negb (length nonce =? 16)%nat then Throw ClaimBadNonce
  else
    let out := append_be16 kClaimMagic (u16 (Z.of_nat (length username))) in
    let out := out ++ username ++ [z2b 32] ++ pubkey in
    let out := append_be64 out timestamp_ms in
    Ok (out ++ [z2b 16] ++ nonce).

Section log.
Context `{!Ed25519}.

Definition build_claim (username sig_pub sig_priv : bytes) (timestamp_ms : Z) (random : bytes) :
    result ClaimError UserClaim :=
  if negb (is_valid_username username) then Throw ClaimBadUsername
  else if negb (length sig_pub =? 32)%nat then Throw ClaimBadPubkey
  else if negb (length sig_priv =? 64)%nat then Throw ClaimBadSecret
  else
    let? signing := claim_canonical_signing_bytes username sig_pub timestamp_ms random in
    Ok (mkUserClaim username sig_pub timestamp_ms random (sign_detached sig_priv signing)).

Definition verify_claim_signature (c : UserClaim) : bool :=
  if negb (length (uc_pubkey c) =? 32)%nat then false
  else if negb (length (uc_signature c) =? 64)%nat then false
  else if negb (length (uc_nonce c) =? 16)%nat then false
  else match claim_canonical_signing_bytes (uc_username c) (uc_pubkey c) (uc_timestamp_ms c) (uc_nonce c) with
       | Ok signing => verify_detached (uc_pubkey c) signing (uc_signature c)
       | Throw _ => false
       end.

Definition claim_format_ok (c : UserClaim) : bool :=
  is_valid_username (uc_username c) && (length (uc_pubkey c) =? 32)%nat &&
  (length (uc_nonce c) =? 16)%nat && (length (uc_signature c) =? 64)%nat.

Inductive AppendResult :=
| ClaimAccepted | ClaimAlreadyKnown | ClaimRejectedFormat | ClaimRejectedSig | ClaimRejectedClock.

(** The row a claim is stored as: text columns hold [c_str()], integers 64 bits. *)
Definition row_of (c : UserClaim) : UserClaim :=
  mkUserClaim (c_str (uc_username c)) (uc_pubkey c) (u64 (i64 (uc_timestamp_ms c))) (uc_nonce c) (uc_signature c).

Definition same_pair (c r : UserClaim) : bool :=
  bool_decide (uc_username r = c_str (uc_username c) /\ uc_pubkey r = uc_pubkey c).

Definition append_claim (clock : Z) (claim : UserClaim) (now_ms : Z) (log : list UserClaim) :
    AppendResult * list UserClaim :=
  if negb (claim_format_ok claim) then (ClaimRejectedFormat, log)
  else
    let now := now_ms_or clock now_ms in
    if u64 (now + kAcceptedClockSkewMs) <? uc_timestamp_ms claim then (ClaimRejectedClock, log)
    else if negb (verify_claim_signature claim) then (ClaimRejectedSig, log)
    else if existsb (same_pair claim) log then (ClaimAlreadyKnown, log)
    else (ClaimAccepted, log ++ [row_of claim]).

Context `{!SqlOrder}.

Definition claim_rank (c : UserClaim) : Z * bytes := (i64 (uc_timestamp_ms c), hex (uc_signature c)).

Definition resolve (username : bytes) (log : list UserClaim) : option bytes :=
  match sql_order_by claim_rank (filter (fun r => uc_username r = c_str username) log) with
  | [] => None
  | r :: _ => if (length (uc_pubkey r) =? 32)%nat then Some (uc_pubkey r) else None
  end.

Definition claim_time (c : UserClaim) : Z := i64 (uc_timestamp_ms c).

Definition usernames_of (pubkey : bytes) (log : list UserClaim) : list bytes :=
  uc_username <$> sql_order_by claim_time (filter (fun r => uc_pubkey r = pubkey) log).

(** A negative [LIMIT] is none. *)
Definition sql_limit {A} (n : Z) (l : list A) : list A := if n <? 0 then l else take (Z.to_nat n) l.

Definition claims_since (since_ms max : Z) (log : list UserClaim) : list UserClaim :=
  sql_limit (i64 max) (sql_order_by claim_time (filter (fun r => i64 since_ms < claim_time r) log)).

Definition total_claims (log : list UserClaim) : nat := length log.
End log.
