(* ===== verification/UsernameLogProofs.v ===== *)
(** * Properties of the username log

    Who owns a name: the winner is the oldest claim, independent of the order in
    which the claims arrive, as long as nobody claims a name twice. *)
From S2P Require Import Prelude StdMap Username ToySign ServerStore Directory ProviderRecords ProviderRecordsProofs UsernameLog.

Lemma i64_small z : 0 <= z < 2 ^ 63 -> i64 z = z.
Proof. intros Hz. unfold i64. destruct (Z.ltb_spec z (2 ^ 63)); lia. Qed.

(** ** The signed bytes *)

Definition claim_layout (c : UserClaim) : bytes :=
  kClaimMagic ++ be_bytes 2 (u16 (Z.of_nat (length (uc_username c)))) ++ uc_username c ++ [z2b 32] ++ uc_pubkey c ++
  be_bytes 8 (uc_timestamp_ms c) ++ [z2b 16] ++ uc_nonce c.

Lemma claim_signing_Ok c b :
  claim_canonical_signing_bytes (uc_username c) (uc_pubkey c) (uc_timestamp_ms c) (uc_nonce c) = Ok b <->
  length (uc_pubkey c) = 32%nat /\ length (uc_nonce c) = 16%nat /\ b = claim_layout c.
Proof.
  unfold claim_canonical_signing_bytes, claim_layout, append_be64.
  destruct (Nat.eqb_spec (length (uc_pubkey c)) 32); cbn [negb]; [|split; [done|by intros (? & _)]].
  destruct (Nat.eqb_spec (length (uc_nonce c)) 16); cbn [negb]; [|split; [done|by intros (_ & ? & _)]].
  rewrite append_be16_eq, <- !app_assoc. split; [by intros [= <-]|by intros (_ & _ & ->)].
Qed.

(** A claim's signed bytes determine it (names have at most 32 bytes) and are
    not those of a DHT record. *)
Lemma claim_layout_inj c c' :
  is_valid_username (uc_username c) = true -> is_valid_username (uc_username c') = true ->
  length (uc_pubkey c) = 32%nat -> length (uc_pubkey c') = 32%nat ->
  is_u64 (uc_timestamp_ms c) -> is_u64 (uc_timestamp_ms c') -> claim_layout c = claim_layout c' ->
  uc_username c = uc_username c' /\ uc_pubkey c = uc_pubkey c' /\
  uc_timestamp_ms c = uc_timestamp_ms c' /\ uc_nonce c = uc_nonce c'.
Proof.
  intros Hu Hu' Hp Hp' Ht Ht' E. apply valid_username_length in Hu, Hu'. unfold claim_layout in E.
  apply app_inv_head in E. apply app_inj_1 in E as [El E]; [|by rewrite !length_be_bytes].
  apply be_bytes_inj in El; [|unfold_words; cbn; rewrite Z.mod_small; lia..].
  unfold_words. rewrite !Z.mod_small in El by lia.
  apply app_inj_1 in E as [Eu E]; [|lia]. apply app_inj_1 in E as [_ E]; [|done].
  apply app_inj_1 in E as [Epk E]; [|congruence]. apply app_inj_1 in E as [Et E]; [|by rewrite !length_be_bytes].
  apply app_inj_1 in E as [_ E]; [|done]. apply be64_inj in Et; [done|done|done].
Qed.

Lemma claim_not_statement c s b :
  statement_bytes s = Ok b -> claim_layout c <> b.
Proof.
  intros Hs E. destruct s as [r|k]; cbn [statement_bytes] in Hs.
  - apply provider_signing_Ok in Hs as [_ Hs]. rewrite Hs in E. by apply (f_equal (take 4)) in E.
  - apply prekey_signing_Ok in Hs as [_ Hs]. rewrite Hs in E. apply (f_equal (take 4)) in E.
    unfold prekey_layout in E. by destruct (pq_present k).
Qed.

Section log.
Context `{!Ed25519}.

(** ** Appending *)

Definition claim_valid (c : UserClaim) : Prop := claim_format_ok c = true /\ verify_claim_signature c = true.

#[global] Instance claim_valid_dec c : Decision (claim_valid c).
Proof. unfold claim_valid. apply _. Defined.

Definition feed (clock : Z) (claims log : list UserClaim) : list UserClaim :=
  foldl (fun log c => (append_claim clock c 0 log).2) log claims.

Definition in_time (clock : Z) (c : UserClaim) : Prop :=
  0 <= uc_timestamp_ms c <= clock + kAcceptedClockSkewMs.

Definition clock_ok (clock : Z) : Prop := 0 <= clock /\ clock + kAcceptedClockSkewMs < 2 ^ 63.

Lemma valid_claim_name c : claim_valid c -> c_str (uc_username c) = uc_username c.
Proof.
  intros [Hf _]. unfold claim_format_ok in Hf. rewrite !andb_true_iff in Hf.
  destruct Hf as (((Hu & _) & _) & _). by apply Directory.c_str_id, valid_username_nul.
Qed.

Lemma row_of_valid clock c : clock_ok clock -> in_time clock c -> claim_valid c -> row_of c = c.
Proof.
  intros [_ Hc] [Ht1 Ht2] Hv. unfold row_of. rewrite valid_claim_name by done.
  rewrite i64_small by lia. rewrite u64_small by (unfold_words; lia). by destruct c.
Qed.

(** What one append does to the log. *)
Lemma append_claim_log clock c log :
  clock_ok clock -> in_time clock c ->
  (append_claim clock c 0 log).2 =
  if bool_decide (claim_valid c /\ Forall (fun r => ~ (uc_username r = uc_username c /\ uc_pubkey r = uc_pubkey c)) log)
  then log ++ [c] else log.
Proof.
  intros Hclock Ht. unfold append_claim. cbn [now_ms_or Z.eqb].
  destruct Hclock as [Hc1 Hc2]. rewrite u64_small by (unfold kAcceptedClockSkewMs in *; unfold_words; lia).
  destruct (claim_format_ok c) eqn:Ef; cbn [negb];
    [|rewrite bool_decide_false; [done|]; unfold claim_valid; by intros [[? _] _]; congruence].
  destruct (Z.ltb_spec (clock + kAcceptedClockSkewMs) (uc_timestamp_ms c)) as [Hl|_]; [destruct Ht; lia|].
  destruct (verify_claim_signature c) eqn:Ev; cbn [negb];
    [|rewrite bool_decide_false; [done|]; unfold claim_valid; by intros [[_ ?] _]; congruence].
  assert (claim_valid c) as Hv by done.
  assert (row_of c = c) as -> by (by apply (row_of_valid clock)).
  destruct (existsb (same_pair c) log) eqn:Ex.
  - rewrite bool_decide_false; [done|]. intros [_ Hall]. apply existsb_exists in Ex as (r & Hr%list_elem_of_In & Hs).
    unfold same_pair in Hs. apply bool_decide_eq_true in Hs. rewrite valid_claim_name in Hs by done.
    rewrite Forall_forall in Hall. by apply (Hall r).
  - rewrite bool_decide_true; [done|]. split; [done|]. apply Forall_forall. intros r Hr Hs.
    assert (existsb (same_pair c) log = true) as Ex'; [|congruence].
    apply existsb_exists. exists r. split; [by apply list_elem_of_In|]. unfold same_pair.
    apply bool_decide_eq_true. by rewrite valid_claim_name.
Qed.

(** Nobody claims a name twice. *)
Definition claimed_once (claims : list UserClaim) : Prop :=
  forall c c', c ∈ claims -> c' ∈ claims -> uc_username c = uc_username c' -> uc_pubkey c = uc_pubkey c' -> c = c'.

Lemma elem_of_feed clock claims log c :
  clock_ok clock -> Forall (in_time clock) claims -> claimed_once (log ++ claims) ->
  c ∈ feed clock claims log <-> c ∈ log \/ (c ∈ claims /\ claim_valid c).
Proof.
  intros Hc Ht. revert log. induction Ht as [|x claims Hx Ht IH]; intros log Honce.
  - split; [by left|]. intros [?|[[]%not_elem_of_nil _]]. done.
  - unfold feed. cbn [foldl]. rewrite append_claim_log by done. case_bool_decide as Hcase.
    + destruct Hcase as [Hv _]. fold (feed clock claims (log ++ [x])). rewrite IH by (by rewrite <- app_assoc).
      rewrite elem_of_app, list_elem_of_singleton, elem_of_cons. naive_solver.
    + fold (feed clock claims log). rewrite IH.
      2: { intros a b Ha Hb. apply Honce; rewrite elem_of_app, elem_of_cons in *; tauto. }
      rewrite elem_of_cons. split; [tauto|]. intros [Hin|[[->|Hin] Hv]]; [tauto| |tauto].
      left. destruct (decide (x ∈ log)) as [|Hn]; [done|]. exfalso. apply Hcase. split; [done|].
      apply Forall_forall. intros r Hr [E1 E2]. apply Hn. rewrite <- (Honce r x); [done| | |done|done].
      * rewrite elem_of_app. by left.
      * rewrite elem_of_app, elem_of_cons. auto.
Qed.

(** ** Resolving *)

Context `{!SqlOrder, !SqlOrderLaws}.

Lemma sql_first {K} `{OrdKey K} (key : UserClaim -> K) l r rest :
  sql_order_by key l = r :: rest -> r ∈ l /\ forall c, c ∈ l -> key_leb (key r) (key c) = true.
Proof.
  intros E. pose proof (sql_order_perm key l) as Hp. pose proof (sql_order_sorted key l) as Hs. rewrite E in Hp, Hs.
  split; [rewrite <- Hp; by left|]. intros c Hc. rewrite <- Hp in Hc. apply elem_of_cons in Hc as [->|Hc]; [apply key_leb_refl|].
  apply StronglySorted_inv in Hs as [_ Hs]. rewrite Forall_forall in Hs. by apply Hs.
Qed.

Lemma sql_empty {K} `{OrdKey K} (key : UserClaim -> K) l : sql_order_by key l = [] -> l = [].
Proof. intros E. pose proof (sql_order_perm key l) as Hp. rewrite E in Hp. by apply Permutation_nil_l in Hp. Qed.

(** The winner of a name in a log of 32-byte keys. *)
Lemma resolve_spec name log :
  Forall (fun c => length (uc_pubkey c) = 32%nat) log ->
  match resolve name log with
  | None => forall c, c ∈ log -> uc_username c <> c_str name
  | Some pk => exists c, c ∈ log /\ uc_username c = c_str name /\ uc_pubkey c = pk /\
      forall c', c' ∈ log -> uc_username c' = c_str name -> key_leb (claim_rank c) (claim_rank c') = true
  end.
Proof.
  intros Hl. unfold resolve. destruct (sql_order_by claim_rank _) as [|r rest] eqn:E.
  - apply sql_empty in E. intros c Hc Hn. assert (c ∈ filter (fun r => uc_username r = c_str name) log) as Hf
      by (by apply list_elem_of_filter). rewrite E in Hf. by apply not_elem_of_nil in Hf.
  - apply sql_first in E as [Hr Hmin]. apply list_elem_of_filter in Hr as [Hn Hr].
    rewrite Forall_forall in Hl. rewrite (Hl r Hr). cbn [Nat.eqb]. exists r. split_and!; try done.
    intros c' Hc' Hn'. apply Hmin. by apply list_elem_of_filter.
Qed.

Lemma feed_pubkeys clock claims :
  clock_ok clock -> Forall (in_time clock) claims -> claimed_once claims ->
  Forall (fun c => length (uc_pubkey c) = 32%nat) (feed clock claims []).
Proof.
  intros Hc Ht Honce. apply Forall_forall. intros c Hin. apply elem_of_feed in Hin; [|done..].
  destruct Hin as [[]%not_elem_of_nil|[_ [Hf _]]]. unfold claim_format_ok in Hf.
  rewrite !andb_true_iff, !Nat.eqb_eq in Hf. tauto.
Qed.

Lemma claim_rank_time c c' :
  key_leb (claim_rank c) (claim_rank c') = true -> i64 (uc_timestamp_ms c) <= i64 (uc_timestamp_ms c').
Proof.
  unfold claim_rank. cbn [key_leb prod_ord Z_ord fst snd].
  destruct (Z.leb_spec (i64 (uc_timestamp_ms c)) (i64 (uc_timestamp_ms c'))); [done|discriminate].
Qed.

(** C27: The log converges, and the oldest claim wins.  Two logs that were given
    the same claims, in any order and any number of times, at clocks that admit
    them, resolve every name to the same key, if no key claims a name twice and
    no two keys share a signature.  The answer is the key of a valid claim with
    the smallest time stamp; there is none exactly when no claim is valid. *)
Theorem username_log_converges (claims claims' : list UserClaim) (clock clock' : Z) (name : bytes)
    (Hsame : forall c, c ∈ claims <-> c ∈ claims')
    (Hclock : clock_ok clock /\ clock_ok clock')
    (Htime : Forall (fun c => in_time clock c /\ in_time clock' c) claims)
    (Honce : claimed_once claims)
    (Hsig : forall c c', c ∈ claims -> c' ∈ claims -> claim_rank c = claim_rank c' -> uc_pubkey c = uc_pubkey c')
    (Hname : Byte.x00 ∉ name) :
  resolve name (feed clock claims []) = resolve name (feed clock' claims' []) /\
  match resolve name (feed clock claims []) with
  | None => forall c, c ∈ claims -> claim_valid c -> uc_username c <> name
  | Some pk => exists c, c ∈ claims /\ claim_valid c /\ uc_username c = name /\ uc_pubkey c = pk /\
      forall c', c' ∈ claims -> claim_valid c' -> uc_username c' = name -> uc_timestamp_ms c <= uc_timestamp_ms c'
  end.
Proof.
  destruct Hclock as [Hc Hc']. rewrite Forall_forall in Htime.
  assert (Forall (in_time clock) claims) as Ht by (apply Forall_forall; intros c Hin; by apply Htime).
  assert (Forall (in_time clock') claims') as Ht'.
  { apply Forall_forall. intros c Hin. apply Hsame in Hin. by apply Htime. }
  assert (claimed_once claims') as Honce' by (intros a b Ha Hb; apply Honce; by apply Hsame).
  assert (forall c, c ∈ feed clock claims [] <-> c ∈ claims /\ claim_valid c) as Hin.
  { intros c. rewrite elem_of_feed by done. split; [by intros [[]%not_elem_of_nil|?]|by right]. }
  assert (forall c, c ∈ feed clock' claims' [] <-> c ∈ claims /\ claim_valid c) as Hin'.
  { intros c. rewrite elem_of_feed by done. rewrite Hsame. split; [by intros [[]%not_elem_of_nil|?]|by right]. }
  pose proof (resolve_spec name _ (feed_pubkeys clock claims Hc Ht Honce)) as R.
  pose proof (resolve_spec name _ (feed_pubkeys clock' claims' Hc' Ht' Honce')) as R'.
  rewrite Directory.c_str_id in R, R' by done. split.
  - destruct (resolve name (feed clock claims [])) as [pk|], (resolve name (feed clock' claims' [])) as [pk'|]; [..|done].
    + destruct R as (c & Hcin & Hn & <- & Hmin), R' as (c' & Hcin' & Hn' & <- & Hmin'). f_equal.
      apply Hin in Hcin as [Hm Hv]. apply Hin' in Hcin' as [Hm' Hv']. apply Hsig; [done|done|].
      apply key_leb_antisym; [apply Hmin|apply Hmin']; [by apply Hin|done|by apply Hin'|done].
    + destruct R as (c & Hcin & Hn & _). exfalso. apply (R' c); [|done]. by apply Hin', Hin.
    + destruct R' as (c & Hcin & Hn & _). exfalso. apply (R c); [|done]. by apply Hin, Hin'.
  - destruct (resolve name (feed clock claims [])) as [pk|].
    + destruct R as (c & Hcin & Hn & Hp & Hmin). apply Hin in Hcin as [Hm Hv]. exists c. split_and!; try done.
      intros c' Hm' Hv' Hn'. assert (key_leb (claim_rank c) (claim_rank c') = true) as Hk by (apply Hmin; [by apply Hin|done]).
      apply claim_rank_time in Hk. destruct (Htime c Hm) as [[? ?] _], (Htime c' Hm') as [[? ?] _]. destruct Hc.
      by rewrite !i64_small in Hk by lia.
    + intros c Hm Hv. apply R. by apply Hin.
Qed.

(** ** Claiming a name twice *)

Lemma resolve_oldest name log c :
  Forall (fun c => length (uc_pubkey c) = 32%nat) log -> c ∈ log -> uc_username c = c_str name ->
  (forall c', c' ∈ log -> uc_username c' = c_str name -> c' <> c -> i64 (uc_timestamp_ms c) < i64 (uc_timestamp_ms c')) ->
  resolve name log = Some (uc_pubkey c).
Proof.
  intros Hl Hc Hn Hmin. pose proof (resolve_spec name log Hl) as R. destruct (resolve name log) as [pk|].
  - destruct R as (d & Hd & Hdn & <- & Hdmin). destruct (decide (d = c)) as [->|Hne]; [done|].
    pose proof (claim_rank_time _ _ (Hdmin c Hc Hn)). pose proof (Hmin d Hd Hdn Hne). lia.
  - by destruct (R c Hc).
Qed.

(** The second of two claims by one key for one name is ignored. *)
Lemma feed_pair clock a b c :
  clock_ok clock -> in_time clock a -> in_time clock b -> in_time clock c -> claim_valid a -> claim_valid c ->
  uc_username a = uc_username b -> uc_pubkey a = uc_pubkey b -> uc_pubkey a <> uc_pubkey c ->
  feed clock [a; b; c] [] = [a; c].
Proof.
  intros Hc Ta Tb Tc Va Vc En Ek Ne. unfold feed. cbn [foldl].
  assert ((append_claim clock a 0 []).2 = [a]) as ->.
  { rewrite append_claim_log by done. by rewrite bool_decide_true by (split; [done|apply Forall_nil_2]). }
  assert ((append_claim clock b 0 [a]).2 = [a]) as ->.
  { rewrite append_claim_log by done. rewrite bool_decide_false; [done|]. intros [_ Hall].
    rewrite Forall_singleton in Hall. by apply Hall. }
  rewrite append_claim_log by done. rewrite bool_decide_true; [done|]. split; [done|].
  apply Forall_singleton. by intros [_ E].
Qed.

(** Given the same three claims, two logs can disagree for good: the first claim
    of a key for a name is kept and a later one with an older time stamp is
    ignored. *)
Theorem reclaim_diverges (early late rival : UserClaim) (clock : Z)
    (Hclock : clock_ok clock) (Ht : Forall (in_time clock) [early; late; rival])
    (Hv : Forall claim_valid [early; late; rival])
    (Hname : uc_username late = uc_username early /\ uc_username rival = uc_username early)
    (Hkey : uc_pubkey late = uc_pubkey early /\ uc_pubkey rival <> uc_pubkey early)
    (Hts : uc_timestamp_ms early < uc_timestamp_ms rival < uc_timestamp_ms late) :
  resolve (uc_username early) (feed clock [early; late; rival] []) = Some (uc_pubkey early) /\
  resolve (uc_username early) (feed clock [late; early; rival] []) = Some (uc_pubkey rival).
Proof.
  apply Forall_cons in Ht as [T1 Ht]. apply Forall_cons in Ht as [T2 Ht]. rewrite Forall_singleton in Ht. rename Ht into T3.
  apply Forall_cons in Hv as [V1 Hv]. apply Forall_cons in Hv as [V2 Hv]. rewrite Forall_singleton in Hv. rename Hv into V3.
  destruct Hname as [N2 N3], Hkey as [K2 K3].
  assert (forall c, claim_valid c -> length (uc_pubkey c) = 32%nat) as Hlen.
  { intros c [Hf _]. unfold claim_format_ok in Hf. rewrite !andb_true_iff, !Nat.eqb_eq in Hf. tauto. }
  rewrite (feed_pair clock early late rival) by (done || congruence).
  rewrite (feed_pair clock late early rival) by (done || congruence).
  pose proof (valid_claim_name early V1) as Hc. destruct T1, T2, T3, Hclock. split.
  - apply resolve_oldest; [by apply Forall_cons_2; [auto|apply Forall_singleton; auto]|by left|done|].
    intros c' Hin _ Hne. apply elem_of_cons in Hin as [->|Hin]; [done|]. apply list_elem_of_singleton in Hin as ->.
    rewrite !i64_small by lia. lia.
  - apply resolve_oldest; [by apply Forall_cons_2; [auto|apply Forall_singleton; auto]|right; by left|by rewrite N3|].
    intros c' Hin _ Hne. apply elem_of_cons in Hin as [->|Hin]; [rewrite !i64_small by lia; lia|].
    by apply list_elem_of_singleton in Hin.
Qed.
End log.
