(* ===== verification/UsernameGossip.v ===== *)
(** * Synchronising username logs ([src/core/src/identity/username_gossip.cpp])

    Requests for claims newer than a time stamp, answered in pages of at most
    256, and the merge of the answers.  The generated codec is a parameter; the
    requester's loop over pages, which the header prescribes, is
    [sync_rounds]. *)
From S2P Require Import Prelude StdMap Crypto Username ToySign ServerStore Directory Kademlia.
From S2P Require Import ProviderRecords ProviderRecordsProofs UsernameLog UsernameLogProofs.
Import Kademlia.

Definition kClaimsPageMax : Z := 256.

(** [fb::proto::IdentityGossipMessage] *)
Inductive IdentityGossipMessage :=
| IGRequest (since_timestamp_ms max_records : Z) (request_id : bytes)
| IGResponse (claims : list UserClaim) (truncated : bool) (max_seen_ms : Z) (inner_request_id request_id : bytes)
| IGEmpty.

Record UsernameGossip := mkUsernameGossip {
  log_ : list UserClaim;
  accepted_count : nat;
}.

Section gossip.
Context `{!Ed25519, !SqlOrder, !ProtoMsg IdentityGossipMessage}.

(** The request id is what [randombytes_buf] wrote. *)
Definition sync_with (peer : PeerInfo) (since_ms : Z) (rid : bytes) : list (PeerInfo * bytes) :=
  [(peer, pb_serialize (IGRequest since_ms kClaimsPageMax rid))].

Definition want_max (max_records : Z) : Z :=
  if 0 <? max_records then Z.min max_records kClaimsPageMax else kClaimsPageMax.

(** The claims of the page, whether more exist, and the largest time stamp. *)
Definition claims_page (since_ms max_records : Z) (log : list UserClaim) : list UserClaim * bool * Z :=
  let want := want_max max_records in
  let claims := claims_since since_ms (want + 1) log in
  let truncated := want <? Z.of_nat (length claims) in
  let claims := if truncated then removelast claims else claims in
  let max_seen := foldl (fun m c => if m <? uc_timestamp_ms c then uc_timestamp_ms c else m) since_ms claims in
  (claims, truncated, max_seen).

Definition merge_claim (clock : Z) (g : UsernameGossip) (c : UserClaim) : UsernameGossip :=
  let '(r, log) := append_claim clock c 0 (log_ g) in
  mkUsernameGossip log (match r with ClaimAccepted => S (accepted_count g) | _ => accepted_count g end).

Definition gossip_on_message (clock : Z) (from_peer : PeerInfo) (wire_bytes : bytes) (g : UsernameGossip) :
    UsernameGossip * list (PeerInfo * bytes) :=
  match pb_parse wire_bytes with
  | None => (g, [])
  | Some (IGRequest since max_records rid) =>
      let '(claims, truncated, max_seen) := claims_page since max_records (log_ g) in
      (g, [(from_peer, pb_serialize (IGResponse claims truncated max_seen rid rid))])
  | Some (IGResponse claims _ _ _ _) => (foldl (merge_claim clock) g claims, [])
  | Some IGEmpty => (g, [])
  end.

Definition accepted_via_gossip (g : UsernameGossip) : nat := accepted_count g.

(** All pages from a watermark on: the next request uses [max_seen_ms]. *)
Fixpoint sync_rounds (fuel : nat) (since_ms max_records : Z) (log : list UserClaim) : list UserClaim :=
  match fuel with
  | O => []
  | S fuel' =>
      let '(claims, truncated, max_seen) := claims_page since_ms max_records log in
      claims ++ (if truncated then sync_rounds fuel' max_seen max_records log else [])
  end.

Lemma merge_claims_log clock claims g :
  log_ (foldl (merge_claim clock) g claims) = feed clock claims (log_ g).
Proof.
  revert g. induction claims as [|c claims IH]; intros g; [done|]. cbn [foldl]. rewrite IH. unfold feed. cbn [foldl].
  unfold merge_claim. by destruct (append_claim clock c 0 (log_ g)).
Qed.

(** ** Pages *)

Context `{!SqlOrderLaws}.

Definition newer (since : Z) (log : list UserClaim) : list UserClaim :=
  filter (fun c => since < uc_timestamp_ms c) log.

Definition times_ok (log : list UserClaim) : Prop := Forall (fun c => 0 <= uc_timestamp_ms c < 2 ^ 63) log.

Definition time_lt (a b : UserClaim) : Prop := uc_timestamp_ms a < uc_timestamp_ms b.

Lemma sorted_newer since log :
  times_ok log -> 0 <= since < 2 ^ 63 ->
  exists L, L ≡ₚ newer since log /\ StronglySorted (fun a b => uc_timestamp_ms a <= uc_timestamp_ms b) L /\
    forall n, 0 <= n < 2 ^ 63 -> claims_since since n log = take (Z.to_nat n) L.
Proof.
  intros Hl Hs. unfold claims_since, newer.
  assert (filter (fun r => i64 since < claim_time r) log = filter (fun c => since < uc_timestamp_ms c) log) as ->.
  { rewrite i64_small by done. unfold claim_time. induction Hl as [|c l Hc Hl IH]; [done|].
    rewrite !filter_cons, i64_small by done. by rewrite IH. }
  set (F := filter _ log). exists (sql_order_by claim_time F). split; [apply sql_order_perm|]. split.
  - pose proof (sql_order_sorted claim_time F) as Hsort.
    assert (Forall (fun c => 0 <= uc_timestamp_ms c < 2 ^ 63) (sql_order_by claim_time F)) as HF.
    { rewrite sql_order_perm. apply Forall_forall. intros c [_ Hc]%list_elem_of_filter.
      unfold times_ok in Hl. rewrite Forall_forall in Hl. by apply Hl. }
    unfold key_sorted in Hsort. induction Hsort as [|a l _ IH Ha]; [constructor|].
    apply Forall_cons in HF as [Ha0 HF]. constructor; [by apply IH|].
    rewrite Forall_forall in Ha, HF |- *. intros b Hb. specialize (Ha b Hb). unfold claim_time in Ha.
    rewrite !i64_small in Ha by (done || by apply HF). by apply Z.leb_le in Ha.
  - intros n Hn. unfold sql_limit. rewrite i64_small by done. destruct (Z.ltb_spec n 0); [lia|done].
Qed.

Lemma removelast_take {A} n (l : list A) : (n < length l)%nat -> removelast (take (S n) l) = take n l.
Proof.
  revert n. induction l as [|x l IH]; intros n Hn; [cbn in Hn; lia|]. destruct n as [|n]; [done|].
  cbn [length] in Hn. change (take (S (S n)) (x :: l)) with (x :: take (S n) l).
  change (take (S n) (x :: l)) with (x :: take n l). rewrite <- (IH n) by lia.
  destruct l as [|y l]; [cbn in Hn; lia|]. done.
Qed.

(** The page in terms of the sorted list of newer claims. *)
Lemma claims_page_spec since max_records log L :
  times_ok log -> 0 <= since < 2 ^ 63 ->
  (forall n, 0 <= n < 2 ^ 63 -> claims_since since n log = take (Z.to_nat n) L) ->
  let n := Z.to_nat (want_max max_records) in
  let m := foldl (fun m c => if m <? uc_timestamp_ms c then uc_timestamp_ms c else m) since (take n L) in
  claims_page since max_records log = (take n L, (n <? length L)%nat, m).
Proof.
  intros Hl Hs HL n m. unfold claims_page.
  assert (1 <= want_max max_records <= 256) as Hw.
  { unfold want_max, kClaimsPageMax. destruct (Z.ltb_spec 0 max_records); lia. }
  rewrite HL by lia. replace (Z.to_nat (want_max max_records + 1)) with (S n) by lia.
  rewrite length_take. destruct (Nat.ltb_spec n (length L)) as [Hlt|Hge].
  - destruct (Z.ltb_spec (want_max max_records) (Z.of_nat (S n `min` length L))); [|lia].
    by rewrite removelast_take by done.
  - destruct (Z.ltb_spec (want_max max_records) (Z.of_nat (S n `min` length L))); [lia|].
    unfold m. by rewrite !take_ge by lia.
Qed.

Lemma max_fold_sorted since l :
  StronglySorted (fun a b => uc_timestamp_ms a <= uc_timestamp_ms b) l -> Forall (fun c => since < uc_timestamp_ms c) l ->
  foldl (fun m c => if m <? uc_timestamp_ms c then uc_timestamp_ms c else m) since l =
  default since (uc_timestamp_ms <$> last l).
Proof.
  intros Hs. revert since. induction Hs as [|a l Hs IH Ha]; intros since Hl; [done|]. cbn [foldl].
  apply Forall_cons in Hl as [Hs0 Hl]. destruct (Z.ltb_spec since (uc_timestamp_ms a)); [|lia].
  destruct l as [|b l]; [done|]. rewrite last_cons_cons.
  apply Forall_cons in Ha as [Hab Ha]. destruct (decide (uc_timestamp_ms a < uc_timestamp_ms b)) as [Hlt|Hge].
  - rewrite IH.
    + destruct (last (b :: l)) eqn:E; [done|]. apply last_None in E. done.
    + apply Forall_cons_2; [done|]. apply StronglySorted_inv in Hs as [_ Hb]. rewrite Forall_forall in Hb |- *.
      intros c Hc. specialize (Hb c Hc). cbn in Hb. lia.
  - cbn [foldl]. destruct (Z.ltb_spec (uc_timestamp_ms a) (uc_timestamp_ms b)); [lia|].
    specialize (IH since). cbn [foldl] in IH. assert (since < uc_timestamp_ms b) by lia.
    destruct (Z.ltb_spec since (uc_timestamp_ms b)); [|lia].
    replace (uc_timestamp_ms a) with (uc_timestamp_ms b) by lia. by apply IH.
Qed.

Lemma strict_times L :
  StronglySorted (fun a b => uc_timestamp_ms a <= uc_timestamp_ms b) L -> NoDup (uc_timestamp_ms <$> L) ->
  StronglySorted time_lt L.
Proof.
  intros Hs. induction Hs as [|a l Hs IH Ha]; intros Hnd; [constructor|].
  rewrite fmap_cons, NoDup_cons in Hnd. destruct Hnd as [Hni Hnd]. constructor; [by apply IH|].
  rewrite Forall_forall in Ha |- *. intros b Hb. unfold time_lt. specialize (Ha b Hb). cbn in Ha.
  assert (uc_timestamp_ms a <> uc_timestamp_ms b); [|lia]. intros E. apply Hni. rewrite E. by apply list_elem_of_fmap_2.
Qed.

Lemma filter_all {A} (P : A -> Prop) `{!forall x, Decision (P x)} l : Forall P l -> filter P l = l.
Proof. induction 1 as [|x l Hx Hl IH]; [done|]. by rewrite filter_cons_True, IH. Qed.
Lemma filter_none {A} (P : A -> Prop) `{!forall x, Decision (P x)} l : Forall (fun x => ~ P x) l -> filter P l = [].
Proof. induction 1 as [|x l Hx Hl IH]; [done|]. by rewrite filter_cons_False. Qed.

(** What is newer than a page is what the page left out. *)
Lemma newer_after_page since log L n x :
  L ≡ₚ newer since log -> StronglySorted time_lt L -> last (take n L) = Some x ->
  newer (uc_timestamp_ms x) log ≡ₚ drop n L.
Proof.
  intros Hperm Hs Hlast. assert (x ∈ take n L) as Hx by (by apply last_Some_elem_of).
  assert (since < uc_timestamp_ms x) as Hsx.
  { assert (x ∈ newer since log) as Hn by (rewrite <- Hperm, <- (take_drop n L), elem_of_app; by left).
    by apply list_elem_of_filter in Hn as [? _]. }
  assert (newer (uc_timestamp_ms x) log = filter (fun c => uc_timestamp_ms x < uc_timestamp_ms c) (newer since log)) as ->.
  { symmetry. apply list_filter_filter_l. intros c. lia. }
  rewrite <- Hperm. rewrite <- (take_drop n L) at 1. rewrite filter_app, filter_none, filter_all; [done|..].
  - apply Forall_forall. intros c Hc. by apply (StronglySorted_take_drop time_lt n L).
  - apply Forall_forall. intros c Hc.
    assert (StronglySorted time_lt (take n L)) as Hst by (by apply StronglySorted_take).
    apply last_Some in Hlast as [l' Hl']. rewrite Hl' in Hc, Hst. clear -Hc Hst.
    apply elem_of_app in Hc as [Hc|Hc%list_elem_of_singleton]; [|subst; lia].
    induction l' as [|y l' IH]; [by apply not_elem_of_nil in Hc|]. apply StronglySorted_inv in Hst as [Hst Hy].
    apply elem_of_cons in Hc as [->|Hc]; [|by apply IH]. rewrite Forall_forall in Hy.
    assert (time_lt y x) as Hlt by (apply Hy; rewrite elem_of_app; right; by left). unfold time_lt in Hlt. lia.
Qed.

Lemma sync_rounds_all fuel since max_records log :
  times_ok log -> NoDup (uc_timestamp_ms <$> log) -> 0 <= since < 2 ^ 63 ->
  (length (newer since log) < fuel)%nat -> sync_rounds fuel since max_records log ≡ₚ newer since log.
Proof.
  intros Hl Hnd. revert since. induction fuel as [|fuel IH]; intros since Hs Hf; [lia|].
  destruct (sorted_newer since log Hl Hs) as (L & Hperm & Hsort & HL). cbn [sync_rounds].
  rewrite (claims_page_spec since max_records log L Hl Hs HL). set (n := Z.to_nat (want_max max_records)).
  assert (1 <= n)%nat as Hn1.
  { unfold n, want_max, kClaimsPageMax. destruct (Z.ltb_spec 0 max_records); lia. }
  assert (NoDup (uc_timestamp_ms <$> L)) as HndL.
  { rewrite Hperm. eapply sublist_NoDup; [exact Hnd|]. unfold newer.
    generalize (sublist_filter (fun c => since < uc_timestamp_ms c) log).
    generalize (filter (fun c => since < uc_timestamp_ms c) log). intros l Hsub. clear -Hsub.
    induction Hsub; by constructor. }
  pose proof (strict_times L Hsort HndL) as Hstrict.
  destruct (Nat.ltb_spec n (length L)) as [Hlt|Hge].
  - assert (exists x, last (take n L) = Some x) as [x Hx].
    { destruct (last (take n L)) eqn:E; [by eexists|]. apply last_None in E. apply (f_equal length) in E.
      rewrite length_take in E. cbn in E. lia. }
    pose proof (newer_after_page since log L n x Hperm Hstrict Hx) as Hnext.
    assert (x ∈ newer since log) as Hxn.
    { rewrite <- Hperm, <- (take_drop n L), elem_of_app. left. by apply last_Some_elem_of. }
    apply list_elem_of_filter in Hxn as [Hsx Hxl]. unfold times_ok in Hl. rewrite Forall_forall in Hl.
    rewrite max_fold_sorted, Hx.
    + cbn [fmap option_fmap option_map default from_option]. change (Datatypes.id ?z) with z.
      rewrite IH; [by rewrite Hnext, take_drop|by apply Hl|].
      rewrite (Permutation_length Hnext), length_drop. rewrite (Permutation_length (symmetry Hperm)) in Hf. lia.
    + by apply StronglySorted_take.
    + apply Forall_take. rewrite Hperm. apply Forall_forall. by intros c [? _]%list_elem_of_filter.
  - rewrite app_nil_r, take_ge by lia. done.
Qed.

(** Paging transfers the whole log.  When no two claims of a log have the
    same time stamp, a peer that starts at time 0 and follows [max_seen_ms] from
    page to page, with any page size, ends after at most one more round than
    there are claims, and its own log then holds exactly the claims of the
    other, so both resolve every name to the same key. *)
Theorem gossip_sync_complete (log : list UserClaim) (clock max_records : Z) (name : bytes)
    (Hclock : clock_ok clock) (Hvalid : Forall (fun c => in_time clock c /\ claim_valid c /\ 0 < uc_timestamp_ms c) log)
    (Honce : claimed_once log) (Hties : NoDup (uc_timestamp_ms <$> log))
    (Hsig : forall c c', c ∈ log -> c' ∈ log -> claim_rank c = claim_rank c' -> uc_pubkey c = uc_pubkey c')
    (Hname : Byte.x00 ∉ name) :
  let received := sync_rounds (S (length log)) 0 max_records log in
  let log' := log_ (foldl (merge_claim clock) (mkUsernameGossip [] 0) received) in
  (forall c, c ∈ log' <-> c ∈ log) /\ resolve name log' = resolve name log.
Proof.
  intros received log'. rewrite Forall_forall in Hvalid.
  assert (newer 0 log = log) as Hall by (apply filter_all, Forall_forall; intros c Hc; by apply Hvalid).
  assert (received ≡ₚ log) as Hrec.
  { unfold received. rewrite sync_rounds_all; [by rewrite Hall| |done|lia|rewrite Hall; lia].
    apply Forall_forall. intros c Hc. destruct (Hvalid c Hc) as [[? ?] _], Hclock. lia. }
  assert (claimed_once ([] ++ received)) as Honce'.
  { intros a b Ha Hb. rewrite app_nil_l, Hrec in Ha, Hb. by apply Honce. }
  assert (forall c, c ∈ log' <-> c ∈ log) as Hin.
  { intros c. unfold log'. rewrite merge_claims_log. rewrite elem_of_feed; [|done| |done].
    - cbn [log_]. rewrite Hrec. split; [by intros [[]%not_elem_of_nil|[? _]]|].
      intros Hc. right. split; [done|]. by apply Hvalid.
    - rewrite Hrec. apply Forall_forall. intros c' Hc'. by apply Hvalid. }
  split; [done|].
  assert (forall c, c ∈ log -> length (uc_pubkey c) = 32%nat) as Hlen.
  { intros c Hc. destruct (Hvalid c Hc) as (_ & [Hf _] & _). unfold claim_format_ok in Hf.
    rewrite !andb_true_iff, !Nat.eqb_eq in Hf. tauto. }
  pose proof (resolve_spec name log) as R. pose proof (resolve_spec name log') as R'.
  specialize (R (proj2 (Forall_forall _ _) Hlen)).
  specialize (R' (proj2 (Forall_forall _ _) (fun c Hc => Hlen c (proj1 (Hin c) Hc)))).
  destruct (resolve name log) as [pk|], (resolve name log') as [pk'|]; [..|done].
  - destruct R as (c & Hc & Hn & <- & Hmin), R' as (c' & Hc' & Hn' & <- & Hmin'). f_equal.
    apply Hin in Hc' as Hc1. apply Hsig; [done|done|].
    apply key_leb_antisym; [apply Hmin'; [by apply Hin|done]|by apply Hmin].
  - destruct R as (c & Hc & Hn & _). exfalso. by apply (R' c (proj2 (Hin c) Hc)).
  - destruct R' as (c & Hc & Hn & _). exfalso. by apply (R c (proj1 (Hin c) Hc)).
Qed.

(** ** Claims that paging skips *)

Lemma sync_rounds_newer fuel since max_records log c :
  times_ok log -> 0 <= since < 2 ^ 63 -> c ∈ sync_rounds fuel since max_records log -> since < uc_timestamp_ms c.
Proof.
  intros Hl. revert since. induction fuel as [|fuel IH]; intros since Hs Hc; [by apply not_elem_of_nil in Hc|].
  destruct (sorted_newer since log Hl Hs) as (L & Hperm & Hsort & HL). cbn [sync_rounds] in Hc.
  rewrite (claims_page_spec since max_records log L Hl Hs HL) in Hc.
  assert (forall d, d ∈ L -> since < uc_timestamp_ms d /\ d ∈ log) as HL0.
  { intros d Hd. rewrite Hperm in Hd. by apply list_elem_of_filter in Hd. }
  apply elem_of_app in Hc as [Hc|Hc].
  - apply HL0. rewrite <- (take_drop (Z.to_nat (want_max max_records)) L), elem_of_app. by left.
  - destruct (_ <? _)%nat; [|by apply not_elem_of_nil in Hc].
    rewrite max_fold_sorted in Hc.
    + destruct (last (take _ L)) as [x|] eqn:Ex; cbn in Hc; [|by apply IH].
      assert (x ∈ L) as Hx.
      { rewrite <- (take_drop (Z.to_nat (want_max max_records)) L), elem_of_app. left. by apply last_Some_elem_of. }
      destruct (HL0 x Hx) as [Hsx Hxl]. unfold times_ok in Hl. rewrite Forall_forall in Hl.
      apply IH in Hc; [lia|]. specialize (Hl x Hxl). cbn in Hl. lia.
    + by apply StronglySorted_take.
    + apply Forall_take, Forall_forall. intros d Hd. by apply HL0.
Qed.

Lemma fold_max_ge (l : list UserClaim) (since : Z) :
  since <= foldl (fun m c => if m <? uc_timestamp_ms c then uc_timestamp_ms c else m) since l.
Proof.
  revert since. induction l as [|d l IH]; intros since; [done|]. cbn [foldl]. etransitivity; [|apply IH].
  destruct (Z.ltb_spec since (uc_timestamp_ms d)); lia.
Qed.

(** A claim whose time stamp is not above the page's largest is never sent by a
    later page: a tie across a page boundary, or an older claim that reached the
    log after the watermark had passed it, is lost to the requester. *)
Theorem watermark_skips_claims (fuel : nat) (since max_records : Z) (log : list UserClaim) (c : UserClaim)
    (Hl : times_ok log) (Hs : 0 <= since < 2 ^ 63)
    (Hc : uc_timestamp_ms c <= (claims_page since max_records log).2) (Hbound : (claims_page since max_records log).2 < 2 ^ 63) :
  c ∉ sync_rounds fuel (claims_page since max_records log).2 max_records log.
Proof.
  intros Hin. apply sync_rounds_newer in Hin; [lia|done|]. split; [|done].
  etransitivity; [apply Hs|apply fold_max_ge].
Qed.
End gossip.

(** ** Usernames on concrete data

    An evaluable [ORDER BY] (merge sort) and signed claims to which the theorems
    about the username log and its synchronisation are applied. *)
From S2P Require Import Prelude StdMap Username ToySign ProviderRecords UsernameLog UsernameLogProofs.

Definition claim_key_le `{OrdKey K} (key : UserClaim -> K) (a b : UserClaim) : Prop := key_leb (key a) (key b) = true.

#[export] Instance claim_key_le_dec `{OrdKey K} (key : UserClaim -> K) : RelDecision (claim_key_le key).
Proof. intros a b. unfold claim_key_le. apply _. Defined.

#[export] Instance claim_key_le_total `{OrdKey K} (key : UserClaim -> K) : Total (claim_key_le key).
Proof. intros a b. apply key_leb_total. Qed.

#[export] Instance claim_key_le_trans `{OrdKey K} (key : UserClaim -> K) : Transitive (claim_key_le key).
Proof. intros a b c. apply key_leb_trans. Qed.

#[export] Instance merge_sql_order : SqlOrder := fun K _ key l => merge_sort (claim_key_le key) l.

#[export] Instance merge_sql_order_laws : SqlOrderLaws.
Proof.
  split.
  - intros K HK key l. apply merge_sort_Permutation.
  - intros K HK key l. unfold key_sorted. apply (StronglySorted_merge_sort (claim_key_le key)).
Qed.

(** ** Two owners of a name and an invalid claim *)

Definition toy_claim (name : string) (who : Z) (t : Z) : UserClaim :=
  match build_claim (str name) (be_bytes 32 who) (be_bytes 64 who) t (replicate 16 (z2b t)) with
  | Ok c => c
  | Throw _ => mkUserClaim [] [] 0 [] []
  end.

Definition alice_claim := toy_claim "alice" 1 100.
Definition mallory_claim := toy_claim "alice" 2 200.
Definition bob_claim := toy_claim "bob_1" 3 50.
(** A claim back-dated after it was signed. *)
Definition backdated_claim : UserClaim :=
  mkUserClaim (uc_username mallory_claim) (uc_pubkey mallory_claim) 10 (uc_nonce mallory_claim) (uc_signature mallory_claim).

Definition toy_claims := [alice_claim; bob_claim; mallory_claim].

#[export] Instance in_time_dec clock c : Decision (in_time clock c).
Proof. unfold in_time. apply _. Defined.

(** A decidable relation on all pairs of a concrete list, by evaluation. *)
Lemma all_pairs {A} (R : A -> A -> Prop) (l : list A) :
  Forall (fun a => Forall (R a) l) l -> forall a b, a ∈ l -> b ∈ l -> R a b.
Proof. rewrite Forall_forall. intros Hall a b Ha. specialize (Hall a Ha). rewrite Forall_forall in Hall. apply Hall. Qed.

Lemma toy_claims_once : claimed_once toy_claims.
Proof.
  refine (all_pairs (fun c c' => uc_username c = uc_username c' -> uc_pubkey c = uc_pubkey c' -> c = c') _ _). by_computing.
Qed.

Lemma toy_claims_rank c c' : c ∈ toy_claims -> c' ∈ toy_claims -> claim_rank c = claim_rank c' -> uc_pubkey c = uc_pubkey c'.
Proof. refine (all_pairs (fun c c' => claim_rank c = claim_rank c' -> uc_pubkey c = uc_pubkey c') _ _ c c'). by_computing. Qed.

Lemma username_log_converges_witness :
  resolve (str "alice") (feed 1000 toy_claims []) = Some (be_bytes 32 1) /\
  resolve (str "alice") (feed 2000 [mallory_claim; alice_claim; bob_claim; alice_claim] []) = Some (be_bytes 32 1).
Proof.
  assert (resolve (str "alice") (feed 1000 toy_claims []) = Some (be_bytes 32 1)) as E by (vm_compute; reflexivity).
  destruct (username_log_converges toy_claims [mallory_claim; alice_claim; bob_claim; alice_claim] 1000 2000 (str "alice"))
    as [Hsame _].
  - intros c. unfold toy_claims. rewrite !elem_of_cons. tauto.
  - split; split; vm_compute; (reflexivity || discriminate).
  - by_computing.
  - exact toy_claims_once.
  - exact toy_claims_rank.
  - by_computing.
  - split; [exact E|]. rewrite <- Hsame. exact E.
Defined.

(** The oldest valid claim wins; the back-dated one does not count. *)
Example backdated_loses : resolve (str "alice") (feed 1000 (backdated_claim :: toy_claims) []) = Some (be_bytes 32 1).
Proof. vm_compute. reflexivity. Qed.

Lemma gossip_sync_complete_witness :
  let received := sync_rounds 4 0 1 toy_claims in
  length received = 3%nat /\
  resolve (str "alice") (log_ (foldl (merge_claim 1000) (mkUsernameGossip [] 0) received)) = Some (be_bytes 32 1).
Proof.
  intros received. split; [vm_compute; reflexivity|].
  destruct (gossip_sync_complete toy_claims 1000 1 (str "alice")) as [_ Hres].
  - split; vm_compute; (reflexivity || discriminate).
  - by_computing.
  - exact toy_claims_once.
  - by_computing.
  - exact toy_claims_rank.
  - by_computing.
  - etransitivity; [exact Hres|]. vm_compute. reflexivity.
Defined.

Definition alice_again := toy_claim "alice" 1 300.

(** The hypotheses of [reclaim_diverges] hold for signed claims. *)
Example reclaim_diverges_instance :
  resolve (str "alice") (feed 1000 [alice_claim; alice_again; mallory_claim] []) = Some (be_bytes 32 1) /\
  resolve (str "alice") (feed 1000 [alice_again; alice_claim; mallory_claim] []) = Some (be_bytes 32 2).
Proof. vm_compute. done. Qed.

(** Two claims of one time stamp across a page boundary: the second is never sent. *)
Example paging_loses_tie :
  sync_rounds 10 0 1 [alice_claim; toy_claim "carol" 4 100] = [alice_claim].
Proof. vm_compute. reflexivity. Qed.
