(* ===== verification/OfflineRelay.v ===== *)
(** * The friend-relay store for offline messages ([src/core/src/p2p/offline_relay.cpp])

    Per recipient a FIFO of opaque blobs with the time of their deposit.  The
    [std::map] is a [gmap]: its order only shows in sums.  The mutex makes every
    operation one step. *)
From S2P Require Import Prelude ProviderRecords.

Definition kMaxBlobsPerRecipient : nat := 256.
Definition kDefaultBlobTtlMs : Z := 7 * 24 * 60 * 60 * 1000.

Record Blob := mkBlob {
  blob_bytes : bytes;
  deposited_at_ms : Z;
}.

#[export] Instance Blob_eq_dec : EqDecision Blob.
Proof. solve_decision. Defined.

Abbreviation OfflineRelayStore := (gmap bytes (list Blob)).

Inductive DepositResult := DepAccepted | DepRejectedFormat | DepRejectedFull.

Definition deposit (clock : Z) (recipient payload : bytes) (now_ms : Z) (s : OfflineRelayStore) :
    DepositResult * OfflineRelayStore :=
  if negb (length recipient =? 32)%nat then (DepRejectedFormat, s)
  else if (length payload =? 0)%nat then (DepRejectedFormat, s)
  else
    let t := now_ms_or clock now_ms in
    let q := default [] (s !! recipient) in
    if (kMaxBlobsPerRecipient <=? length q)%nat then (DepRejectedFull, <[recipient := q]> s)
    else (DepAccepted, <[recipient := q ++ [mkBlob payload t]]> s).

(** [b.deposited_at_ms + ttl > t], in 64-bit arithmetic. *)
Definition blob_fresh (ttl_ms t : Z) (b : Blob) : bool := t <? u64 (deposited_at_ms b + ttl_ms).

Definition fetch_and_clear (clock : Z) (recipient : bytes) (now_ms : Z) (s : OfflineRelayStore) :
    list bytes * OfflineRelayStore :=
  if negb (length recipient =? 32)%nat then ([], s)
  else
    let t := now_ms_or clock now_ms in
    match s !! recipient with
    | None => ([], s)
    | Some q => (blob_bytes <$> List.filter (blob_fresh kDefaultBlobTtlMs t) q, delete recipient s)
    end.

(** A queue without its expired blobs; an empty queue is erased. *)
Definition prune_queue (ttl_ms t : Z) (q : list Blob) : option (list Blob) :=
  match List.filter (blob_fresh ttl_ms t) q with
  | [] => None
  | q' => Some q'
  end.

Definition total_blobs (s : OfflineRelayStore) : nat :=
  map_fold (fun _ q n => (n + length q)%nat) 0%nat s.

Definition prune_expired (clock now_ms ttl_ms : Z) (s : OfflineRelayStore) : nat * OfflineRelayStore :=
  let t := now_ms_or clock now_ms in
  (map_fold (fun _ q n => (n + length (List.filter (fun b => negb (blob_fresh ttl_ms t b)) q))%nat) 0%nat s,
   omap (prune_queue ttl_ms t) s).

Definition recipients (s : OfflineRelayStore) : nat := size s.

(** ** Behaviour of a relay over a sequence of operations *)

Inductive RelayOp :=
| OpDeposit (recipient payload : bytes) (at_ms : Z)
| OpFetch (recipient : bytes) (at_ms : Z)
| OpPrune (at_ms ttl_ms : Z).

Definition relay_op (op : RelayOp) (s : OfflineRelayStore) : OfflineRelayStore :=
  match op with
  | OpDeposit r p t => (deposit t r p 0 s).2
  | OpFetch r t => (fetch_and_clear t r 0 s).2
  | OpPrune t ttl => (prune_expired t 0 ttl s).2
  end.

(** What was accepted for [r] since its last fetch, in order of deposit. *)
Definition mailbox_op (r : bytes) (op : RelayOp) (s : OfflineRelayStore) (acc : list Blob) : list Blob :=
  match op with
  | OpDeposit r' p t =>
      match (deposit t r' p 0 s).1 with
      | DepAccepted => if decide (r' = r) then acc ++ [mkBlob p t] else acc
      | _ => acc
      end
  | OpFetch r' _ => if decide (r' = r) then [] else acc
  | OpPrune _ _ => acc
  end.

Fixpoint mailbox (r : bytes) (ops : list RelayOp) (s : OfflineRelayStore) (acc : list Blob) : list Blob :=
  match ops with
  | [] => acc
  | op :: ops => mailbox r ops (relay_op op s) (mailbox_op r op s acc)
  end.

Definition run_relay (ops : list RelayOp) : OfflineRelayStore := foldl (fun s op => relay_op op s) ∅ ops.

(** Prunes use at least the default time to live, at times up to [t]; no sum wraps. *)
Definition op_ok (t : Z) (op : RelayOp) : Prop :=
  match op with
  | OpDeposit _ _ d => 0 <= d < 2 ^ 62
  | OpFetch _ _ => True
  | OpPrune d ttl => d <= t /\ kDefaultBlobTtlMs <= ttl < 2 ^ 62
  end.

#[export] Instance op_ok_dec t op : Decision (op_ok t op).
Proof. destruct op; cbn; apply _. Defined.

Definition queue_ok (q : list Blob) : Prop :=
  (length q <= kMaxBlobsPerRecipient)%nat /\ Forall (fun b => 0 <= deposited_at_ms b < 2 ^ 62) q.

Definition store_ok (s : OfflineRelayStore) : Prop := map_Forall (fun _ q => queue_ok q) s.

Definition queue (r : bytes) (s : OfflineRelayStore) : list Blob := default [] (s !! r).

Lemma queue_store_ok r s : store_ok s -> queue_ok (queue r s).
Proof.
  intros Hs. unfold queue. destruct (s !! r) as [q|] eqn:E; [by apply (Hs r)|]. split; [cbn; lia|constructor].
Qed.

Lemma prune_queue_default ttl t q : default [] (prune_queue ttl t q) = List.filter (blob_fresh ttl t) q.
Proof. unfold prune_queue. by destruct (List.filter _ q). Qed.

Lemma list_filter_sublist {A} (f : A -> bool) l : List.filter f l `sublist_of` l.
Proof. induction l as [|x l IH]; cbn; [done|]. destruct (f x); by constructor. Qed.

Lemma queue_ok_filter f q : queue_ok q -> queue_ok (List.filter f q).
Proof.
  intros [Hl Hq]. pose proof (list_filter_sublist f q) as Hs. split.
  - etransitivity; [by apply sublist_length|done].
  - rewrite Forall_forall in Hq |- *. intros b [Hb _]%list_elem_of_In%filter_In. by apply Hq, list_elem_of_In.
Qed.

Lemma relay_op_ok t op s : op_ok t op -> store_ok s -> store_ok (relay_op op s).
Proof.
  intros Hop Hs. destruct op as [r p d|r d|d ttl]; cbn [relay_op].
  - unfold deposit. destruct (negb _); [done|]. destruct (_ =? 0)%nat; [done|]. cbn [now_ms_or Z.eqb].
    pose proof (queue_store_ok r s Hs) as [Hl Hq]. unfold queue in *.
    destruct (Nat.leb_spec kMaxBlobsPerRecipient (length (default [] (s !! r)))); cbn [snd];
      (apply map_Forall_insert_2; [|done]); [done|]. split; [rewrite length_app; cbn; lia|].
    apply Forall_app_2; [done|]. by apply Forall_singleton.
  - unfold fetch_and_clear. destruct (negb _); [done|]. destruct (s !! r); [|done]. by apply map_Forall_delete.
  - unfold prune_expired. cbn [snd]. intros r q Hq. rewrite lookup_omap in Hq.
    destruct (s !! r) as [q0|] eqn:E; [|done]. cbn in Hq. unfold prune_queue in Hq.
    pose proof (queue_ok_filter (blob_fresh ttl (now_ms_or d 0)) q0 (Hs r q0 E)) as Hok.
    destruct (List.filter _ q0); by simplify_eq.
Qed.

(** A prune removes nothing that is fresh later under the default time to live. *)
Lemma prune_keeps_fresh t d ttl q :
  d <= t -> kDefaultBlobTtlMs <= ttl < 2 ^ 62 -> queue_ok q ->
  List.filter (blob_fresh kDefaultBlobTtlMs t) (List.filter (blob_fresh ttl d) q) =
  List.filter (blob_fresh kDefaultBlobTtlMs t) q.
Proof.
  intros Hd Httl [_ Hq]. unfold kDefaultBlobTtlMs in *. induction Hq as [|b q Hb Hq IH]; [done|]. cbn [List.filter].
  destruct (blob_fresh ttl d b) eqn:E; cbn [List.filter]; [by rewrite IH|]. rewrite IH.
  destruct (blob_fresh _ t b) eqn:E'; [|done]. unfold blob_fresh in E, E'.
  rewrite u64_small in E, E' by (unfold_words; lia). bool_props. lia.
Qed.

Lemma queue_deposit d r p r' s :
  queue r (deposit d r' p 0 s).2 = mailbox_op r (OpDeposit r' p d) s (queue r s).
Proof.
  cbn [mailbox_op]. unfold deposit. destruct (negb _); [done|]. destruct (_ =? 0)%nat; [done|]. cbn [now_ms_or Z.eqb].
  unfold queue. destruct (_ <=? _)%nat; cbn [fst snd]; destruct (decide (r' = r)) as [->|Hne];
    by rewrite ?lookup_insert_eq, ?lookup_insert_ne.
Qed.

Lemma queue_fetch d r r' s :
  length r = 32%nat -> queue r (fetch_and_clear d r' 0 s).2 = mailbox_op r (OpFetch r' d) s (queue r s).
Proof.
  intros Hr. cbn [mailbox_op]. unfold fetch_and_clear, queue. destruct (decide (r' = r)) as [->|Hne].
  - rewrite Hr. cbn. destruct (s !! r) eqn:E; cbn [snd]; by rewrite ?lookup_delete_eq, ?E.
  - destruct (negb _); [done|]. destruct (s !! r'); cbn [snd]; by rewrite ?lookup_delete_ne.
Qed.

(** The fresh part of the queue is the fresh part of the mailbox. *)
Lemma mailbox_correct t r ops s acc :
  length r = 32%nat -> Forall (op_ok t) ops -> store_ok s ->
  List.filter (blob_fresh kDefaultBlobTtlMs t) (queue r s) = List.filter (blob_fresh kDefaultBlobTtlMs t) acc ->
  store_ok (foldl (fun s op => relay_op op s) s ops) /\
  List.filter (blob_fresh kDefaultBlobTtlMs t) (queue r (foldl (fun s op => relay_op op s) s ops)) =
  List.filter (blob_fresh kDefaultBlobTtlMs t) (mailbox r ops s acc).
Proof.
  intros Hr Hops. revert s acc. induction Hops as [|op ops Hop Hops IH]; intros s acc Hs Hacc; [done|].
  cbn [foldl mailbox]. apply IH; [by eapply relay_op_ok|]. destruct op as [r' p d|r' d|d ttl]; cbn [relay_op].
  - rewrite queue_deposit. cbn [mailbox_op]. repeat case_match; rewrite ?List.filter_app; congruence.
  - rewrite queue_fetch by done. cbn [mailbox_op]. by case_match.
  - unfold prune_expired, queue in *. cbn [snd now_ms_or Z.eqb mailbox_op]. rewrite lookup_omap.
    destruct (s !! r) as [q|] eqn:E; [|done]. cbn [option_bind mbind]. cbn in Hacc |- *. rewrite prune_queue_default.
    destruct Hop. rewrite prune_keeps_fresh; [done..|by apply (Hs r)].
Qed.

(** The relay is a bounded mailbox.  After any sequence of deposits, fetches
    and prunes, a fetch returns exactly the blobs accepted for that recipient
    since its last fetch that have not outlived their seven days, in the order of
    deposit, and leaves the mailbox empty; no recipient ever holds more than 256
    blobs. *)
Theorem offline_mailbox_exact (ops : list RelayOp) (r : bytes) (t : Z)
    (Hr : length r = 32%nat) (Hops : Forall (op_ok t) ops) :
  let s := run_relay ops in
  (fetch_and_clear t r 0 s).1 = blob_bytes <$> List.filter (blob_fresh kDefaultBlobTtlMs t) (mailbox r ops ∅ []) /\
  (fetch_and_clear t r 0 (fetch_and_clear t r 0 s).2).1 = [] /\
  map_Forall (fun _ q => (length q <= kMaxBlobsPerRecipient)%nat) s.
Proof.
  intros s. destruct (mailbox_correct t r ops ∅ []) as [Hok Hq]; [done..|apply map_Forall_empty|done|]. fold (run_relay ops) in *.
  fold s in Hok, Hq. split_and!.
  - rewrite <- Hq. unfold fetch_and_clear, queue. rewrite Hr. cbn. by destruct (s !! r).
  - unfold fetch_and_clear. rewrite Hr. cbn. destruct (s !! r) eqn:E; cbn [snd]; by rewrite ?lookup_delete_eq, ?E.
  - intros r' q Hq'. by destruct (Hok r' q Hq').
Qed.

(** ** Pruning reports what it removes *)

Lemma filter_split_length {A} (f : A -> bool) l :
  (length (List.filter f l) + length (List.filter (fun x => negb (f x)) l))%nat = length l.
Proof. induction l as [|x l IH]; [done|]. cbn [List.filter]. destruct (f x); cbn; lia. Qed.

Lemma map_fold_len_insert (f : list Blob -> nat) (r : bytes) (q : list Blob) (s : OfflineRelayStore) :
  s !! r = None ->
  map_fold (fun _ q n => (n + f q)%nat) 0%nat (<[r := q]> s) = (map_fold (fun _ q n => (n + f q)%nat) 0%nat s + f q)%nat.
Proof. intros Hs. rewrite map_fold_insert_L; [done|intros; lia|done]. Qed.

(** The blobs left and the reported ones make up the blobs there were. *)
Lemma prune_reports (clock now_ms ttl : Z) (s : OfflineRelayStore) :
  let '(pruned, s') := prune_expired clock now_ms ttl s in (total_blobs s' + pruned)%nat = total_blobs s.
Proof.
  unfold prune_expired, total_blobs. set (t := now_ms_or clock now_ms).
  set (gone := fun q => length (List.filter (fun b => negb (blob_fresh ttl t b)) q)).
  induction s as [|r q s Hr IH] using map_ind.
  - by rewrite omap_empty, !map_fold_empty.
  - rewrite (map_fold_len_insert length), (map_fold_len_insert gone) by done. rewrite <- IH.
    pose proof (filter_split_length (blob_fresh ttl t) q) as Hlen. fold (gone q) in Hlen.
    assert (omap (prune_queue ttl t) s !! r = None) as Hr' by (by rewrite lookup_omap, Hr).
    destruct (prune_queue ttl t q) as [q'|] eqn:E.
    + rewrite (omap_insert_Some _ _ _ _ q') by done. rewrite (map_fold_len_insert length) by done.
      unfold prune_queue in E. destruct (List.filter _ q) eqn:Ef in E; simplify_eq. rewrite Ef in Hlen. unfold gone in *. lia.
    + rewrite omap_insert_None, delete_id by done.
      unfold prune_queue in E. destruct (List.filter _ q) eqn:Ef in E; simplify_eq. rewrite Ef in Hlen. cbn in Hlen. unfold gone in *. lia.
Qed.

(** ** Expired blobs hold their places *)

(** A full mailbox refuses deposits whatever the time: only a fetch or an
    explicit prune makes room, even when every blob in it has expired. *)
Lemma expired_blobs_block_deposits (clock : Z) (r p : bytes) (s : OfflineRelayStore) :
  length r = 32%nat -> p <> [] -> (kMaxBlobsPerRecipient <= length (queue r s))%nat ->
  (deposit clock r p 0 s).1 = DepRejectedFull /\ queue r (deposit clock r p 0 s).2 = queue r s.
Proof.
  intros Hr Hp Hfull. rewrite queue_deposit. cbn [mailbox_op]. unfold deposit. rewrite Hr. cbn [negb Nat.eqb].
  destruct p; [done|]. cbn [length Nat.eqb]. unfold queue in Hfull. apply Nat.leb_le in Hfull. by rewrite Hfull.
Qed.

Lemma offline_mailbox_exact_witness :
  let r := replicate 32 (z2b 7) in
  let ops := [OpDeposit r [z2b 1] 10; OpDeposit (replicate 32 (z2b 8)) [z2b 9] 11; OpDeposit r [z2b 2] 1000;
              OpPrune 604800020 kDefaultBlobTtlMs] in
  (fetch_and_clear 604800500 r 0 (run_relay ops)).1 = [[z2b 2]].
Proof.
  intros r ops. destruct (offline_mailbox_exact ops r 604800500) as (E & _ & _); [reflexivity|by_computing|].
  etransitivity; [exact E|]. vm_compute. reflexivity.
Defined.

(** 256 blobs from time 1 block a deposit a month later. *)
Example stale_blobs_block :
  let r := replicate 32 (z2b 7) in
  let s := run_relay (replicate 256 (OpDeposit r [z2b 1] 1)) in
  (deposit (30 * 24 * 60 * 60 * 1000) r [z2b 2] 0 s).1 = DepRejectedFull.
Proof. vm_compute. reflexivity. Qed.
