(* ===== verification/Gossip.v ===== *)
(** * Gossip publish/subscribe ([src/core/src/p2p/gossip.cpp])

    A [P2PNode]: its connections with their frame decoders and write buffers, the
    routing table, subscriptions and the cache of seen message ids, the handling
    of every message and the connection events.  The system calls are arguments:
    what [read_some] and [write_some] returned.  The order in which an
    [unordered_map] of connections is visited does not show, since every
    connection has its own buffer. *)
From S2P Require Import Prelude StdMap Crypto FrameCodec Kademlia.
Import Kademlia.

Module Gossip.

Definition kSeenMessageCap : nat := 4096.

(** [fb::proto::PeerInfo] *)
Record WirePeer := mkWirePeer {
  wp_node_id : bytes;
  wp_addr : bytes;
}.

#[export] Instance WirePeer_eq_dec : EqDecision WirePeer.
Proof. solve_decision. Defined.

(** [fb::proto::P2PMessage]; [P2PNone]: no body set. *)
Inductive P2PMessage :=
| Ping (from : WirePeer) (nonce : bytes)
| Pong (from : WirePeer) (nonce : bytes)
| FindNode (from : WirePeer) (target_node_id : bytes)
| FindNodeResponse (from : WirePeer) (peers : list WirePeer)
| Subscribe (from : WirePeer) (topic : bytes)
| Unsubscribe (from : WirePeer) (topic : bytes)
| Publish (from : WirePeer) (topic message_id payload : bytes) (ttl : Z)
| P2PNone.

#[export] Instance P2PMessage_eq_dec : EqDecision P2PMessage.
Proof. solve_decision. Defined.

(** [want_out]: [EPOLLOUT] is in the interest set of the descriptor. *)
Record PeerConn := mkPeerConn {
  dec : FrameDecoder;
  write_buf : bytes;
  want_out : bool;
  peer : PeerInfo;
  peer_known : bool;
  outbound : bool;
  remote_addr : bytes;
}.

Record P2PNode := mkP2PNode {
  self_id : bytes;
  self_addr : bytes;
  table : RoutingTable;
  conns : gmap Z PeerConn;
  id_to_fd : gmap bytes Z;
  my_topics : gset bytes;
  topic_subs : gmap bytes (gset bytes);
  seen_order : list bytes;
  seen_set : gset bytes;
  on_topic : bool;
  carry_guard : PeerInfo -> Z -> bool;
}.

(** An invocation of the topic callback. *)
Record TopicCall := mkTopicCall {
  tc_topic : bytes;
  tc_payload : bytes;
  tc_origin : PeerInfo;
}.

#[export] Instance TopicCall_eq_dec : EqDecision TopicCall.
Proof. solve_decision. Defined.

Definition set_table (t : RoutingTable) (n : P2PNode) : P2PNode :=
  mkP2PNode (self_id n) (self_addr n) t (conns n) (id_to_fd n) (my_topics n) (topic_subs n)
    (seen_order n) (seen_set n) (on_topic n) (carry_guard n).
Definition set_conns (m : gmap Z PeerConn) (n : P2PNode) : P2PNode :=
  mkP2PNode (self_id n) (self_addr n) (table n) m (id_to_fd n) (my_topics n) (topic_subs n)
    (seen_order n) (seen_set n) (on_topic n) (carry_guard n).
Definition set_id_to_fd (m : gmap bytes Z) (n : P2PNode) : P2PNode :=
  mkP2PNode (self_id n) (self_addr n) (table n) (conns n) m (my_topics n) (topic_subs n)
    (seen_order n) (seen_set n) (on_topic n) (carry_guard n).
Definition set_my_topics (s : gset bytes) (n : P2PNode) : P2PNode :=
  mkP2PNode (self_id n) (self_addr n) (table n) (conns n) (id_to_fd n) s (topic_subs n)
    (seen_order n) (seen_set n) (on_topic n) (carry_guard n).
Definition set_topic_subs (m : gmap bytes (gset bytes)) (n : P2PNode) : P2PNode :=
  mkP2PNode (self_id n) (self_addr n) (table n) (conns n) (id_to_fd n) (my_topics n) m
    (seen_order n) (seen_set n) (on_topic n) (carry_guard n).
Definition set_seen (o : list bytes) (s : gset bytes) (n : P2PNode) : P2PNode :=
  mkP2PNode (self_id n) (self_addr n) (table n) (conns n) (id_to_fd n) (my_topics n) (topic_subs n)
    o s (on_topic n) (carry_guard n).

Definition new_p2p_node `{!Sha256} (pubkey : bytes) : P2PNode :=
  let id := node_id_from_pubkey pubkey in
  mkP2PNode id [] (new_table id) ∅ ∅ ∅ ∅ [] ∅ false (fun _ _ => true).

(** [start]: the listener is up and the advertised address known. *)
Definition start (bind_addr : bytes) (n : P2PNode) : P2PNode :=
  mkP2PNode (self_id n) bind_addr (table n) (conns n) (id_to_fd n) (my_topics n) (topic_subs n)
    (seen_order n) (seen_set n) (on_topic n) (carry_guard n).

Definition set_on_topic_message (n : P2PNode) : P2PNode :=
  mkP2PNode (self_id n) (self_addr n) (table n) (conns n) (id_to_fd n) (my_topics n) (topic_subs n)
    (seen_order n) (seen_set n) true (carry_guard n).

Definition set_carry_guard (guard : PeerInfo -> Z -> bool) (n : P2PNode) : P2PNode :=
  mkP2PNode (self_id n) (self_addr n) (table n) (conns n) (id_to_fd n) (my_topics n) (topic_subs n)
    (seen_order n) (seen_set n) (on_topic n) guard.

(** Whether the id was seen, and the node with the id remembered. *)
Definition seen_recently (mid : bytes) (n : P2PNode) : bool * P2PNode :=
  if bool_decide (mid ∈ seen_set n) then (true, n)
  else
    let '(order, set) :=
      if (kSeenMessageCap <=? length (seen_order n))%nat
      then match seen_order n with
           | [] => ([], seen_set n)
           | front :: rest => (rest, seen_set n ∖ {[front]})
           end
      else (seen_order n, seen_set n) in
    (false, set_seen (order ++ [mid]) ({[mid]} ∪ set) n).

Definition self_wire (n : P2PNode) : WirePeer := mkWirePeer (self_id n) (self_addr n).

Definition from_proto (p : WirePeer) : PeerInfo :=
  mkPeerInfo (if (length (wp_node_id p) =? kNodeIdBytes)%nat then wp_node_id p else replicate kNodeIdBytes Byte.x00)
    (wp_addr p) [].

Section node.
Context `{!ProtoMsg P2PMessage}.

Definition enqueue_conn (payload : bytes) (c : PeerConn) : PeerConn :=
  mkPeerConn (dec c) (write_buf c ++ encode_frame payload) true (peer c) (peer_known c) (outbound c) (remote_addr c).

Definition enqueue (fd : Z) (payload : bytes) (n : P2PNode) : P2PNode :=
  set_conns (alter (enqueue_conn payload) fd (conns n)) n.

(** [for (auto& [fd, c] : conns) if (...) enqueue] *)
Definition enqueue_where (P : Z -> PeerConn -> bool) (payload : bytes) (n : P2PNode) : P2PNode :=
  set_conns (map_imap (fun fd c => Some (if P fd c then enqueue_conn payload c else c)) (conns n)) n.

Definition send_to_all (payload : bytes) (except_fd : Z) (n : P2PNode) : P2PNode :=
  enqueue_where (fun fd c => if fd =? except_fd then false else peer_known c) payload n.

Definition send_handshake (fd : Z) (nonce : bytes) (n : P2PNode) : P2PNode :=
  enqueue fd (pb_serialize (Ping (self_wire n) nonce)) n.

Definition send_my_subscriptions (fd : Z) (n : P2PNode) : P2PNode :=
  foldl (fun n t => enqueue fd (pb_serialize (Subscribe (self_wire n) t)) n) n (set_elements (my_topics n)).

Definition set_peer (p : PeerInfo) (c : PeerConn) : PeerConn :=
  mkPeerConn (dec c) (write_buf c) (want_out c) p true (outbound c) (remote_addr c).

Definition observe_peer (p : PeerInfo) (n : P2PNode) : P2PNode := set_table (observe p (table n)).2 n.

Definition on_handshake_observed (fd : Z) (p : PeerInfo) (n : P2PNode) : P2PNode :=
  let n := set_conns (alter (set_peer p) fd (conns n)) n in
  let n := set_id_to_fd (<[id p := fd]> (id_to_fd n)) n in
  let n := observe_peer p n in
  send_my_subscriptions fd n.

Definition observe_other (p : PeerInfo) (n : P2PNode) : P2PNode :=
  if bool_decide (id p = self_id n) then n else observe_peer p n.

Definition to_wire (p : PeerInfo) : WirePeer := mkWirePeer (id p) (addr p).

(** Who gets a publish relayed. *)
Definition relays_to (n : P2PNode) (from_fd : Z) (from : PeerInfo) (size : Z) (fd : Z) (c : PeerConn) : bool :=
  if fd =? from_fd then false
  else if negb (peer_known c) then false
  else if bool_decide (id (peer c) = id from) then false
  else carry_guard n (peer c) size.

Definition handle_publish (fd : Z) (from : WirePeer) (topic mid payload : bytes) (ttl : Z) (n : P2PNode) :
    P2PNode * list TopicCall :=
  if (length mid =? 0)%nat then (n, [])
  else
    let '(seen, n) := seen_recently mid n in
    if seen then (n, [])
    else
      let origin := from_proto from in
      let calls :=
        if bool_decide (topic ∈ my_topics n) && on_topic n then [mkTopicCall topic payload origin] else [] in
      if ttl =? 0 then (n, calls)
      else
        let bytes_out := pb_serialize (Publish from topic mid payload (ttl - 1)) in
        (enqueue_where (relays_to n fd origin (Z.of_nat (length bytes_out))) bytes_out n, calls).

Definition handle_frame (fd : Z) (b : bytes) (n : P2PNode) : P2PNode * list TopicCall :=
  match pb_parse b with
  | None => (n, [])
  | Some (Ping from nonce) =>
      let p := from_proto from in
      let n := if bool_decide (id p = self_id n) then n else on_handshake_observed fd p n in
      (enqueue fd (pb_serialize (Pong (self_wire n) nonce)) n, [])
  | Some (Pong from nonce) =>
      let p := from_proto from in
      (if bool_decide (id p = self_id n) then n else on_handshake_observed fd p n, [])
  | Some (FindNode from target) =>
      let n := observe_other (from_proto from) n in
      if negb (length target =? kNodeIdBytes)%nat then (n, [])
      else
        let found := closest target kBucketSize (table n) in
        (enqueue fd (pb_serialize (FindNodeResponse (self_wire n) (to_wire <$> found))) n, [])
  | Some (FindNodeResponse from peers) =>
      (foldl (fun n p => observe_other (from_proto p) n) (observe_other (from_proto from) n) peers, [])
  | Some (Subscribe from topic) =>
      let p := from_proto from in
      if bool_decide (id p = self_id n) then (n, [])
      else
        let subs := default ∅ (topic_subs n !! topic) in
        (observe_peer p (set_topic_subs (<[topic := {[id p]} ∪ subs]> (topic_subs n)) n), [])
  | Some (Unsubscribe from topic) =>
      let p := from_proto from in
      (set_topic_subs (alter (fun subs => subs ∖ {[id p]}) topic (topic_subs n)) n, [])
  | Some (Publish from topic mid payload ttl) => handle_publish fd from topic mid payload ttl n
  | Some P2PNone => (n, [])
  end.

(** ** Calls of the application *)

Definition subscribe (topic : bytes) (n : P2PNode) : P2PNode :=
  let n := set_my_topics ({[topic]} ∪ my_topics n) n in
  send_to_all (pb_serialize (Subscribe (self_wire n) topic)) (-1) n.

Definition unsubscribe (topic : bytes) (n : P2PNode) : P2PNode :=
  let n := set_my_topics (my_topics n ∖ {[topic]}) n in
  send_to_all (pb_serialize (Unsubscribe (self_wire n) topic)) (-1) n.

(** [mid] is what [randombytes_buf] wrote. *)
Definition publish (topic payload : bytes) (ttl : Z) (mid : bytes) (n : P2PNode) : P2PNode :=
  let n := (seen_recently mid n).2 in
  send_to_all (pb_serialize (Publish (self_wire n) topic mid payload ttl)) (-1) n.

Definition known_peer_count (n : P2PNode) : nat := size (table n).

(** ** Connections *)

Definition register_conn (fd : Z) (is_outbound : bool) (remote nonce : bytes) (n : P2PNode) : P2PNode :=
  let c := mkPeerConn new_decoder [] false (mkPeerInfo (replicate kNodeIdBytes Byte.x00) [] []) false is_outbound remote in
  send_handshake fd nonce (set_conns (<[fd := c]> (conns n)) n).

(** A call that returned, or one that locks the (not recursive) mutex its own
    thread holds. *)
Inductive Outcome :=
| Returned (n : P2PNode) (calls : list TopicCall)
| SelfDeadlock.

Definition close_conn (locked : bool) (fd : Z) (n : P2PNode) (calls : list TopicCall) : Outcome :=
  if locked then SelfDeadlock
  else match conns n !! fd with
  | None => Returned n calls
  | Some c =>
      let m :=
        if peer_known c && bool_decide (id_to_fd n !! id (peer c) = Some fd)
        then delete (id (peer c)) (id_to_fd n) else id_to_fd n in
      Returned (set_conns (delete fd (conns n)) (set_id_to_fd m n)) calls
  end.

Definition set_dec (d : FrameDecoder) (c : PeerConn) : PeerConn :=
  mkPeerConn d (write_buf c) (want_out c) (peer c) (peer_known c) (outbound c) (remote_addr c).

Definition set_write (b : bytes) (want : bool) (c : PeerConn) : PeerConn :=
  mkPeerConn (dec c) b want (peer c) (peer_known c) (outbound c) (remote_addr c).

Definition feed_conn (fd : Z) (b : bytes) (n : P2PNode) : P2PNode :=
  set_conns (alter (fun c => set_dec (feed (dec c) b) c) fd (conns n)) n.

(** One turn of the drain loop: the status and what the frame did. *)
Definition pop_frame (fd : Z) (n : P2PNode) : Status * P2PNode * list TopicCall :=
  match conns n !! fd with
  | None => (kNeedMore, n, [])
  | Some c =>
      let '(st, d) := try_pop (dec c) in
      let n := set_conns (alter (set_dec d) fd (conns n)) n in
      match st with
      | kFrameReady frame => let '(n, calls) := handle_frame fd frame n in (st, n, calls)
      | _ => (st, n, [])
      end
  end.

Fixpoint drain (fuel : nat) (fd : Z) (n : P2PNode) (calls : list TopicCall) : Status * P2PNode * list TopicCall :=
  match fuel with
  | O => (kNeedMore, n, calls)
  | S fuel' =>
      let '(st, n, new) := pop_frame fd n in
      match st with
      | kFrameReady _ => drain fuel' fd n (calls ++ new)
      | _ => (st, n, calls ++ new)
      end
  end.

Definition drain_fuel (fd : Z) (n : P2PNode) : nat :=
  match conns n !! fd with Some c => S (length (buf_ (dec c))) | None => 1%nat end.

Definition kReadBuf : nat := 4096.

(** The read loop: the chunks [read_some] returned; when they are used up it
    returned [kReadRetry], or 0 or -1 if [closed]. *)
Fixpoint read_loop (fd : Z) (chunks : list bytes) (closed : bool) (n : P2PNode) (calls : list TopicCall) :
    Outcome * bool :=
  match chunks with
  | [] => if closed then (close_conn false fd n calls, true) else (Returned n calls, false)
  | b :: chunks =>
      let n := feed_conn fd b n in
      let '(st, n, calls) := drain (drain_fuel fd n) fd n calls in
      match st with
      | kError => (close_conn false fd n calls, true)
      | _ => if (length b <? kReadBuf)%nat then (Returned n calls, false)
             else read_loop fd chunks closed n calls
      end
  end.

(** The write loop under the mutex: the results of [write_some]; no more
    results means 0. *)
Fixpoint write_loop (fd : Z) (writes : list Z) (c : PeerConn) : option PeerConn :=
  if (length (write_buf c) =? 0)%nat then Some c
  else match writes with
  | [] => Some c
  | w :: writes =>
      if w <? 0 then None
      else if w =? 0 then Some c
      else write_loop fd writes (set_write (drop (Z.to_nat w) (write_buf c)) (want_out c) c)
  end.

Definition on_writable (fd : Z) (writes : list Z) (n : P2PNode) (calls : list TopicCall) : Outcome :=
  match conns n !! fd with
  | None => Returned n calls
  | Some c =>
      match write_loop fd writes c with
      | None => close_conn true fd n calls
      | Some c' =>
          let c' := set_write (write_buf c') (negb (length (write_buf c') =? 0)%nat) c' in
          Returned (set_conns (<[fd := c']> (conns n)) n) calls
      end
  end.

Definition on_conn_event (fd : Z) (hup : bool) (reads : option (list bytes * bool)) (writes : option (list Z))
    (n : P2PNode) : Outcome :=
  match conns n !! fd with
  | None => Returned n []
  | Some _ =>
      if hup then close_conn false fd n []
      else
        let '(r, stop) :=
          match reads with
          | Some (chunks, closed) => read_loop fd chunks closed n []
          | None => (Returned n [], false)
          end in
        match r, writes with
        | Returned n calls, Some ws => if stop then r else on_writable fd ws n calls
        | _, _ => r
        end
  end.
End node.
End Gossip.
