(* ===== verification/GossipNet.v ===== *)
(** * A network of gossip nodes

    Nodes joined by byte streams: a step moves bytes from a write buffer to the
    wire, from the wire to the decoder at the other end, or handles the next
    complete frame, in any order.  Ghost state records what was published and
    which callbacks ran. *)
From S2P Require Import Prelude StdMap Crypto FrameCodec Kademlia Gossip.
Import Gossip.

(** Strings of a message survive the codec when they are ASCII (the generated
    parser refuses strings that are not UTF-8). *)
Definition ascii_bytes (b : bytes) : Prop := Forall (fun x => b2z x < 128) b.

Definition wire_ok (m : P2PMessage) : Prop :=
  match m with
  | Publish from topic _ _ ttl => ascii_bytes (wp_addr from) /\ ascii_bytes topic /\ is_u32 ttl
  | _ => True
  end.

Class PublishCodec `{!ProtoMsg P2PMessage} :=
  publish_parse : forall from topic mid payload ttl,
    wire_ok (Publish from topic mid payload ttl) ->
    pb_parse (pb_serialize (Publish from topic mid payload ttl)) = Some (Publish from topic mid payload ttl).

(** What was published: the origin and the fields of the message. *)
Record Pub := mkPub {
  pub_origin : nat;
  pub_from : WirePeer;
  pub_topic : bytes;
  pub_payload : bytes;
  pub_ttl : Z;
}.

Definition copy (mid : bytes) (p : Pub) (ttl : Z) : P2PMessage := Publish (pub_from p) (pub_topic p) mid (pub_payload p) ttl.

Record World := mkWorld {
  nodes : gmap nat P2PNode;
  wire : gmap (nat * Z) bytes;
  pubs : gmap bytes Pub;
  log : list (nat * bytes * TopicCall);
}.

Definition set_node (i : nat) (n : P2PNode) (w : World) : World :=
  mkWorld (<[i := n]> (nodes w)) (wire w) (pubs w) (log w).

(** The nodes that remember a message id. *)
Definition seen (w : World) (mid : bytes) : gset nat :=
  dom (filter (fun ni : nat * P2PNode => mid ∈ seen_set ni.2) (nodes w)).

Lemma elem_of_seen w mid i : i ∈ seen w mid <-> exists n, nodes w !! i = Some n /\ mid ∈ seen_set n.
Proof.
  unfold seen. rewrite elem_of_dom. split.
  - intros [n Hn]. apply map_lookup_filter_Some in Hn as [Hn Hm]. eauto.
  - intros (n & Hn & Hm). exists n. by apply map_lookup_filter_Some.
Qed.

Lemma size_seen w mid : (size (seen w mid) <= size (nodes w))%nat.
Proof.
  rewrite <- (size_dom (nodes w)). apply subseteq_size. intros i (n & Hn & _)%elem_of_seen. by apply elem_of_dom.
Qed.

Lemma seen_full w mid i n :
  nodes w !! i = Some n -> mid ∉ seen_set n -> (size (seen w mid) < size (nodes w))%nat.
Proof.
  intros Hn Hm. rewrite <- (size_dom (nodes w)). apply subset_size. split.
  - intros j (nj & Hj & _)%elem_of_seen. by apply elem_of_dom.
  - intros Hsub. assert (i ∈ seen w mid) as (n' & Hn' & Hm')%elem_of_seen; [|congruence].
    apply Hsub. by apply elem_of_dom.
Qed.

(** ** Nodes and their caches of seen ids *)

Definition conn_shape (c : PeerConn) : Kademlia.PeerInfo * bool := (peer c, peer_known c).

(** What publishing leaves alone. *)
Definition same_shape (n n' : P2PNode) : Prop :=
  self_id n' = self_id n /\ self_addr n' = self_addr n /\ my_topics n' = my_topics n /\ on_topic n' = on_topic n /\
  carry_guard n' = carry_guard n /\ conn_shape <$> conns n' = conn_shape <$> conns n.

#[export] Instance same_shape_equiv : Equivalence same_shape.
Proof. split; [done|..]; intros ?; unfold same_shape; intuition congruence. Qed.

(** The ids of current publications stand at the end of the queue. *)
Definition cache_ok (ps : gmap bytes Pub) (n : P2PNode) : Prop :=
  exists old new, seen_order n = old ++ new /\ NoDup (old ++ new) /\ seen_set n = list_to_set (old ++ new) /\
    Forall (fun x => x ∈ dom ps) new /\ Forall (fun x => x ∉ dom ps) old.

Lemma NoDup_length_dom {A} (l : list bytes) (m : gmap bytes A) :
  NoDup l -> Forall (fun x => x ∈ dom m) l -> (length l <= size m)%nat.
Proof.
  intros Hnd Hl. rewrite <- (size_dom m), <- (size_list_to_set (C := gset bytes) l) by done.
  apply subseteq_size. intros x Hx%elem_of_list_to_set. rewrite Forall_forall in Hl. by apply Hl.
Qed.

(** A new publication enters the cache and pushes out none of the others. *)
Lemma seen_recently_new ps mid n :
  cache_ok ps n -> mid ∈ dom ps -> (size ps <= kSeenMessageCap)%nat -> mid ∉ seen_set n ->
  exists o s, seen_recently mid n = (false, set_seen o s n) /\ cache_ok ps (set_seen o s n) /\
    forall x, x ∈ dom ps -> x ∈ s <-> x = mid \/ x ∈ seen_set n.
Proof.
  intros (old & new & Ho & Hnd & Hs & Hnew & Hold) Hmid Hcap Hns. unfold seen_recently.
  rewrite bool_decide_false by done. rewrite Hs in Hns. rewrite elem_of_list_to_set in Hns.
  assert (NoDup (new ++ [mid])) as Hnd1.
  { apply NoDup_app. apply NoDup_app in Hnd as (_ & _ & Hnew2). split; [done|]. split; [|apply NoDup_singleton].
    intros x Hx ->%list_elem_of_singleton. apply Hns. rewrite elem_of_app. by right. }
  assert (Forall (fun x => x ∈ dom ps) (new ++ [mid])) as Hnew1 by (apply Forall_app_2; [done|by apply Forall_singleton]).
  destruct (Nat.leb_spec kSeenMessageCap (length (seen_order n))) as [Hfull|_].
  - destruct old as [|front old].
    { rewrite Ho in Hfull. apply (NoDup_length_dom _ ps) in Hnd1; [|done]. rewrite length_app in Hnd1. cbn in Hnd1, Hfull. lia. }
    rewrite Ho. cbn [app]. eexists _, _. split; [done|]. apply Forall_cons in Hold as [Hf Hold].
    apply NoDup_cons in Hnd as [Hfront Hnd]. split.
    + exists old, (new ++ [mid]). cbn [seen_order seen_set set_seen]. split_and!; try done; [by rewrite app_assoc| |].
      * rewrite app_assoc. apply NoDup_app. split; [done|]. split; [|apply NoDup_singleton].
        intros x Hx ->%list_elem_of_singleton. apply Hns. cbn. by right.
      * rewrite Hs, app_assoc, list_to_set_app_L. apply set_eq. intros x. cbn. set_solver.
    + intros x Hx. rewrite Hs. cbn. assert (x <> front) by (by intros ->). set_solver.
  - eexists _, _. split; [done|]. split.
    + exists old, (new ++ [mid]). cbn [seen_order seen_set set_seen]. rewrite Ho, app_assoc. split_and!; try done.
      * apply NoDup_app. split; [done|]. split; [|apply NoDup_singleton]. by intros x Hx ->%list_elem_of_singleton.
      * rewrite Hs, !list_to_set_app_L. set_solver.
    + intros x Hx. set_solver.
Qed.

(** A publication that no cache knows can be added. *)
Lemma cache_ok_insert ps mid p n :
  cache_ok ps n -> mid ∉ seen_set n -> cache_ok (<[mid := p]> ps) n.
Proof.
  intros (old & new & Ho & Hnd & Hs & Hnew & Hold) Hm. exists old, new. split_and!; try done.
  - eapply Forall_impl; [done|]. intros x Hx. cbn. set_solver.
  - rewrite Hs in Hm. rewrite Forall_forall in Hold |- *. intros x Hx. specialize (Hold x Hx).
    assert (x <> mid) by (intros ->; apply Hm; rewrite elem_of_list_to_set, elem_of_app; by left). set_solver.
Qed.

Section net.
Context `{!ProtoMsg P2PMessage, !PublishCodec}.
(** The other end of a connection. *)
Variable peer_of : nat -> Z -> option (nat * Z).

(** ** Steps *)

Definition frame_mid (frame : bytes) : bytes :=
  match pb_parse frame with Some (Publish _ _ mid _ _) => mid | _ => [] end.

(** What the network does by itself. *)
Inductive net_step (w : World) : World -> Prop :=
| step_flush i fd k n n' c :
    nodes w !! i = Some n -> conns n !! fd = Some c -> (0 < k <= length (write_buf c))%nat ->
    on_writable fd [Z.of_nat k] n [] = Returned n' [] ->
    net_step w (mkWorld (<[i := n']> (nodes w)) (<[(i, fd) := (wire w !!! (i, fd)) ++ take k (write_buf c)]> (wire w))
                  (pubs w) (log w))
| step_read j fd i fd' n b rest :
    peer_of j fd = Some (i, fd') -> nodes w !! j = Some n -> is_Some (conns n !! fd) ->
    wire w !!! (i, fd') = b ++ rest -> b <> [] ->
    net_step w (mkWorld (<[j := feed_conn fd b n]> (nodes w)) (<[(i, fd') := rest]> (wire w)) (pubs w) (log w))
| step_pop j fd n n' frame calls :
    nodes w !! j = Some n -> pop_frame fd n = (kFrameReady frame, n', calls) ->
    net_step w (mkWorld (<[j := n']> (nodes w)) (wire w) (pubs w) (log w ++ ((fun c => (j, frame_mid frame, c)) <$> calls))).

(** The message fits a frame whatever its remaining hops. *)
Definition fits (mid : bytes) (p : Pub) : Prop :=
  forall t, 0 <= t <= pub_ttl p -> wire_ok (copy mid p t) /\ frame_ok (pb_serialize (copy mid p t)).

(** A call of [publish] with an id nobody has, at most [kSeenMessageCap] in all. *)
Inductive publish_step (w : World) : World -> Prop :=
| step_publish i topic payload ttl mid n :
    nodes w !! i = Some n -> mid <> [] -> mid ∉ dom (pubs w) ->
    map_Forall (fun _ n' => mid ∉ seen_set n') (nodes w) ->
    (S (size (pubs w)) <= kSeenMessageCap)%nat -> 0 <= ttl ->
    fits mid (mkPub i (self_wire n) topic payload ttl) ->
    publish_step w (mkWorld (<[i := publish topic payload ttl mid n]> (nodes w)) (wire w)
                      (<[mid := mkPub i (self_wire n) topic payload ttl]> (pubs w)) (log w)).

Inductive reachable (w0 : World) : World -> Prop :=
| reach_refl : reachable w0 w0
| reach_net w w' : reachable w0 w -> net_step w w' -> reachable w0 w'
| reach_publish w w' : reachable w0 w -> publish_step w w' -> reachable w0 w'.

(** ** Meshes: handshakes done, everyone relays *)

Record mesh_node (ns : gmap nat P2PNode) (i : nat) (n : P2PNode) : Prop := {
  mesh_dom : forall fd, is_Some (conns n !! fd) <-> is_Some (peer_of i fd);
  mesh_link : forall fd c j fd', conns n !! fd = Some c -> peer_of i fd = Some (j, fd') ->
    peer_known c = true /\ peer_of j fd' = Some (i, fd) /\
    exists nj, ns !! j = Some nj /\ Kademlia.id (peer c) = self_id nj;
  mesh_fd : peer_of i (-1) = None;
  mesh_id : length (self_id n) = Kademlia.kNodeIdBytes;
  mesh_inj : forall j nj, ns !! j = Some nj -> self_id nj = self_id n -> j = i;
  mesh_guard : forall p z, carry_guard n p z = true;
}.

Definition mesh (ns : gmap nat P2PNode) : Prop := map_Forall (mesh_node ns) ns.

(** Buffers and wires are empty, nothing was published. *)
Definition at_rest (w : World) : Prop :=
  mesh (nodes w) /\ wire w = ∅ /\ pubs w = ∅ /\ log w = [] /\
  map_Forall (fun _ n => NoDup (seen_order n) /\ seen_set n = list_to_set (seen_order n) /\
    map_Forall (fun _ c => write_buf c = [] /\ buf_ (dec c) = [] /\ error_ (dec c) = false) (conns n)) (nodes w).

Lemma shape_conn n n' fd c' :
  same_shape n n' -> conns n' !! fd = Some c' ->
  exists c, conns n !! fd = Some c /\ peer c' = peer c /\ peer_known c' = peer_known c.
Proof.
  intros (_ & _ & _ & _ & _ & E) Hc. apply (f_equal (fun m => m !! fd)) in E. rewrite !lookup_fmap, Hc in E.
  destruct (conns n !! fd) as [c|]; [|done]. injection E as E1 E2. eauto.
Qed.

Lemma mesh_update ns i n n' :
  mesh ns -> ns !! i = Some n -> same_shape n n' -> mesh (<[i := n']> ns).
Proof.
  intros Hm Hn Hsh.
  assert (forall j nj, <[i := n']> ns !! j = Some nj -> exists nj0, ns !! j = Some nj0 /\ same_shape nj0 nj) as Hback.
  { intros j nj Hj. destruct (decide (j = i)) as [->|Hne].
    - rewrite lookup_insert_eq in Hj. injection Hj as <-. eauto.
    - rewrite lookup_insert_ne in Hj by done. by exists nj. }
  assert (forall j nj, ns !! j = Some nj -> exists nj', <[i := n']> ns !! j = Some nj' /\ same_shape nj nj') as Hfwd.
  { intros j nj Hj. destruct (decide (j = i)) as [->|Hne].
    - assert (nj = n) as -> by congruence. exists n'. by rewrite lookup_insert_eq.
    - exists nj. by rewrite lookup_insert_ne. }
  intros j nj' Hj'. destruct (Hback j nj' Hj') as (nj & Hj & Hs). destruct (Hm j nj Hj) as [Md Ml Mf Mi Mj Mg].
  pose proof Hs as (S1 & S2 & S3 & S4 & S5 & S6). split.
  - intros fd. rewrite <- Md. apply (f_equal (fun m => m !! fd)) in S6. rewrite !lookup_fmap in S6.
    destruct (conns nj' !! fd), (conns nj !! fd); try done; split; intros []; done.
  - intros fd c' k fd' Hc' Hp. destruct (shape_conn nj nj' fd c' Hs Hc') as (c & Hc & -> & ->).
    destruct (Ml fd c k fd' Hc Hp) as (Hk & Hback' & nk & Hnk & Hid). destruct (Hfwd k nk Hnk) as (nk' & Hnk' & Hs').
    split_and!; try done. exists nk'. split; [done|]. destruct Hs' as (-> & _). done.
  - done.
  - by rewrite S1.
  - intros k nk' Hk' Hid. destruct (Hback k nk' Hk') as (nk & Hk & (E & _)). apply (Mj k nk Hk). congruence.
  - intros p z. by rewrite S5.
Qed.

(** ** The invariant *)

Definition streams := nat -> Z -> list P2PMessage.

Definition encoded (ms : list P2PMessage) : bytes := mjoin ((fun m => encode_frame (pb_serialize m)) <$> ms).

Lemma encoded_app ms ms' : encoded (ms ++ ms') = encoded ms ++ encoded ms'.
Proof. unfold encoded. by rewrite fmap_app, join_app. Qed.

Lemma encoded_cons m ms : encoded (m :: ms) = encode_frame (pb_serialize m) ++ encoded ms.
Proof. done. Qed.

Definition calls_of (j : nat) (mid : bytes) (w : World) : list TopicCall :=
  snd <$> filter (fun e => e.1 = (j, mid)) (log w).

(** Who is called for a publication. *)
Definition wants (p : Pub) (j : nat) (n : P2PNode) : Prop :=
  j <> pub_origin p /\ pub_topic p ∈ my_topics n /\ on_topic n = true.

#[global] Instance wants_dec p j n : Decision (wants p j n).
Proof. unfold wants. apply _. Defined.

Lemma wants_shape p j n n' : same_shape n n' -> wants p j n <-> wants p j n'.
Proof. intros (_ & _ & St & Son & _). unfold wants. by rewrite St, Son. Qed.

Definition the_call (p : Pub) : TopicCall := mkTopicCall (pub_topic p) (pub_payload p) (from_proto (pub_from p)).

Record pub_ok (w : World) (mid : bytes) (p : Pub) : Prop := {
  pub_mid : mid <> [];
  pub_at : exists n, nodes w !! pub_origin p = Some n /\ mid ∈ seen_set n /\ pub_from p = self_wire n;
  pub_fits : fits mid p;
  pub_ttl_pos : 0 <= pub_ttl p;
}.

Record copy_ok (w : World) (i : nat) (m : P2PMessage) (mid : bytes) (p : Pub) (t : Z) : Prop := {
  copy_pub : pubs w !! mid = Some p;
  copy_eq : m = copy mid p t;
  copy_ttl : 0 <= t <= pub_ttl p;
  copy_seen : i ∈ seen w mid;
  copy_hops : pub_ttl p + 1 <= t + Z.of_nat (size (seen w mid));
}.

(** The write buffer and the decoder of a connection. *)
Definition queued (ns : gmap nat P2PNode) (i : nat) (fd : Z) : option bytes :=
  n ← ns !! i; c ← conns n !! fd; Some (write_buf c).
Definition decoder (ns : gmap nat P2PNode) (i : nat) (fd : Z) : option FrameDecoder :=
  n ← ns !! i; c ← conns n !! fd; Some (dec c).

Lemma queued_insert ns i n j fd :
  queued (<[i := n]> ns) j fd = if decide (j = i) then write_buf <$> conns n !! fd else queued ns j fd.
Proof.
  unfold queued. destruct (decide (j = i)) as [->|Hne]; [rewrite lookup_insert_eq|by rewrite lookup_insert_ne].
  cbn. by destruct (conns n !! fd).
Qed.

Lemma decoder_insert ns i n j fd :
  decoder (<[i := n]> ns) j fd = if decide (j = i) then dec <$> conns n !! fd else decoder ns j fd.
Proof.
  unfold decoder. destruct (decide (j = i)) as [->|Hne]; [rewrite lookup_insert_eq|by rewrite lookup_insert_ne].
  cbn. by destruct (conns n !! fd).
Qed.

Lemma queued_node ns i n fd : ns !! i = Some n -> queued ns i fd = write_buf <$> conns n !! fd.
Proof. intros Hn. unfold queued. rewrite Hn. cbn. by destruct (conns n !! fd). Qed.

Lemma decoder_node ns i n fd : ns !! i = Some n -> decoder ns i fd = dec <$> conns n !! fd.
Proof. intros Hn. unfold decoder. rewrite Hn. cbn. by destruct (conns n !! fd). Qed.

(** Between the two ends of a link: what is decoded, on the wire and queued spells
    the copies in flight. *)
Definition stream_ok (w : World) (M : streams) (i : nat) (fd : Z) (j : nat) (fd' : Z) : Prop :=
  forall b d, queued (nodes w) i fd = Some b -> decoder (nodes w) j fd' = Some d ->
    error_ d = false /\ buf_ d ++ (wire w !!! (i, fd)) ++ b = encoded (M i fd).

Record inv (w : World) (M : streams) : Prop := {
  inv_mesh : mesh (nodes w);
  inv_cap : (size (pubs w) <= kSeenMessageCap)%nat;
  inv_pubs : map_Forall (pub_ok w) (pubs w);
  inv_cache : map_Forall (fun _ n => cache_ok (pubs w) n) (nodes w);
  inv_streams : forall i fd j fd', peer_of i fd = Some (j, fd') -> stream_ok w M i fd j fd';
  inv_copies : forall i fd m, m ∈ M i fd -> exists mid p t, copy_ok w i m mid p t;
  inv_cover : forall mid p i fd j fd', pubs w !! mid = Some p -> Z.of_nat (size (nodes w)) <= pub_ttl p + 1 ->
    i ∈ seen w mid -> peer_of i fd = Some (j, fd') -> j ∈ seen w mid \/ exists t, copy mid p t ∈ M i fd;
  inv_calls : forall j n mid p, nodes w !! j = Some n -> pubs w !! mid = Some p ->
    calls_of j mid w = if decide (j ∈ seen w mid /\ wants p j n) then [the_call p] else [];
  inv_log : forall j mid c, (j, mid, c) ∈ log w -> is_Some (nodes w !! j) /\ mid ∈ dom (pubs w);
}.

Lemma seen_empty_pubs (mid : bytes) (w : World) : pubs w = ∅ -> pubs w !! mid = None.
Proof. intros ->. apply lookup_empty. Qed.

Lemma inv_init w : at_rest w -> inv w (fun _ _ => []).
Proof.
  intros (Hmesh & Hwire & Hpubs & Hlog & Hn). split.
  - done.
  - rewrite Hpubs, map_size_empty. lia.
  - rewrite Hpubs. apply map_Forall_empty.
  - intros i n Hi. destruct (Hn i n Hi) as (Hnd & Hs & _). exists (seen_order n), []. rewrite app_nil_r.
    split_and!; try done. rewrite Hpubs, dom_empty_L. apply Forall_forall. intros x _. apply not_elem_of_empty.
  - intros i fd j fd' _ b d Hb Hd. unfold queued, decoder in *.
    destruct (nodes w !! i) as [ni|] eqn:Hi; [|done]. destruct (nodes w !! j) as [nj|] eqn:Hj; [|done]. cbn in Hb, Hd.
    destruct (conns ni !! fd) as [ci|] eqn:Hci; [|done]. destruct (conns nj !! fd') as [cj|] eqn:Hcj; [|done].
    injection Hb as <-. injection Hd as <-. destruct (Hn i ni Hi) as (_ & _ & Hc), (Hn j nj Hj) as (_ & _ & Hc').
    destruct (Hc fd ci Hci) as (-> & _ & _), (Hc' fd' cj Hcj) as (_ & -> & ->). rewrite Hwire, lookup_total_empty. done.
  - intros i fd m Hm. by apply not_elem_of_nil in Hm.
  - intros mid p. by rewrite seen_empty_pubs.
  - intros j n mid p _. by rewrite seen_empty_pubs.
  - intros j mid c. rewrite Hlog. intros Hin. by apply not_elem_of_nil in Hin.
Qed.

(** ** Steps that accept no publication *)

Lemma seen_update w w' i n n' x :
  nodes w !! i = Some n -> nodes w' = <[i := n']> (nodes w) -> (x ∈ seen_set n' <-> x ∈ seen_set n) ->
  seen w' x = seen w x.
Proof.
  intros Hn Hw Hx. apply set_eq. intros j. rewrite !elem_of_seen, Hw. destruct (decide (j = i)) as [->|Hne].
  - rewrite lookup_insert_eq, Hn. naive_solver.
  - by rewrite lookup_insert_ne.
Qed.

(** How a copy may leave a link: its receiver knows it. *)
Definition drops_only_known (w : World) (M M' : streams) : Prop :=
  forall mid p t i fd, copy mid p t ∈ M i fd -> copy mid p t ∈ M' i fd \/
    forall j fd', peer_of i fd = Some (j, fd') -> j ∈ seen w mid.

Lemma size_update ns i (n n' : P2PNode) : ns !! i = Some n -> size (<[i := n']> ns) = size (ns : gmap nat P2PNode).
Proof. intros Hn. by rewrite map_size_insert_Some. Qed.

Lemma inv_quiet w M M' i n n' wire' :
  inv w M -> nodes w !! i = Some n -> same_shape n n' ->
  seen_order n' = seen_order n -> seen_set n' = seen_set n ->
  (forall j fd m, m ∈ M' j fd -> m ∈ M j fd) -> drops_only_known w M M' ->
  let w' := mkWorld (<[i := n']> (nodes w)) wire' (pubs w) (log w) in
  (forall i fd j fd', peer_of i fd = Some (j, fd') -> stream_ok w' M' i fd j fd') ->
  inv w' M'.
Proof.
  intros Hinv Hn Hsh Ho Hs Hsub Hdrop w' Hstr.
  assert (forall x, seen w' x = seen w x) as Hseen by (intros x; eapply (seen_update w w' i n n'); [done|done|by rewrite Hs]).
  pose proof (size_update (nodes w) i n n' Hn) as Hsize. destruct Hinv as [Im Ic Ip Ich Is Icp Icv Icl Il].
  assert (forall j nj', nodes w' !! j = Some nj' -> exists nj, nodes w !! j = Some nj /\ same_shape nj nj' /\
    seen_order nj' = seen_order nj /\ seen_set nj' = seen_set nj) as Hback.
  { intros j nj' Hj. cbn in Hj. destruct (decide (j = i)) as [->|Hne].
    - rewrite lookup_insert_eq in Hj. injection Hj as <-. by exists n.
    - rewrite lookup_insert_ne in Hj by done. by exists nj'. }
  split; cbn [pubs log nodes w'].
  - by eapply mesh_update.
  - done.
  - intros mid p Hp. destruct (Ip mid p Hp) as [P1 (no & Hno & Hso & Hfo) P3 P4]. split; [done| |done|done].
    destruct (decide (pub_origin p = i)) as [E|Hne].
    + exists n'. rewrite E in Hno. assert (no = n) as -> by congruence. subst w'. cbn. rewrite E, lookup_insert_eq, Hs.
      split_and!; try done. rewrite Hfo. destruct Hsh as (S1 & S2 & _). unfold self_wire. by rewrite S1, S2.
    + exists no. subst w'. cbn. by rewrite lookup_insert_ne.
  - intros j nj' Hj'. destruct (Hback j nj' Hj') as (nj & Hj & _ & Eo & Es).
    destruct (Ich j nj Hj) as (old & new & C). exists old, new. by rewrite Eo, Es.
  - done.
  - intros j fd m Hm. destruct (Icp j fd m (Hsub j fd m Hm)) as (mid & p & t & [C1 C2 C3 C4 C5]). exists mid, p, t.
    split; cbn [pubs w']; rewrite ?Hseen; done.
  - intros mid p j fd k fd' Hp Hsz Hj Hpe. rewrite Hseen in *. rewrite Hsize in Hsz.
    destruct (Icv mid p j fd k fd' Hp Hsz Hj Hpe) as [|(t & Ht)]; [by left|].
    destruct (Hdrop mid p t j fd Ht) as [Ht'|Hk]; [right; eauto|left; by eapply Hk].
  - intros j nj' mid p Hj' Hp. rewrite Hseen. destruct (Hback j nj' Hj') as (nj & Hj & Hsj & _).
    unfold calls_of. cbn [log w']. fold (calls_of j mid w). rewrite (Icl j nj mid p Hj Hp).
    apply decide_ext. by rewrite (wants_shape p j nj nj').
  - intros j mid c Hin. destruct (Il j mid c Hin) as [Hj Hd]. split; [|done].
    destruct (decide (j = i)) as [->|Hne]; [by rewrite lookup_insert_eq|by rewrite lookup_insert_ne].
Qed.

Lemma on_writable_flush fd k n n' c :
  conns n !! fd = Some c -> (0 < k <= length (write_buf c))%nat -> on_writable fd [Z.of_nat k] n [] = Returned n' [] ->
  exists want, n' = set_conns (<[fd := set_write (drop k (write_buf c)) want c]> (conns n)) n.
Proof.
  intros Hc Hk. unfold on_writable. rewrite Hc. cbn [write_loop].
  destruct (Nat.eqb_spec (length (write_buf c)) 0) as [|_]; [lia|].
  destruct (Z.ltb_spec (Z.of_nat k) 0) as [|_]; [lia|]. destruct (Z.eqb_spec (Z.of_nat k) 0) as [|_]; [lia|].
  rewrite Nat2Z.id. cbn [write_buf set_write]. destruct (_ =? 0)%nat; intros [= <-]; eauto.
Qed.

Lemma same_shape_conns n m :
  conn_shape <$> m = conn_shape <$> conns n -> same_shape n (set_conns m n).
Proof. done. Qed.

Lemma shape_insert (m : gmap Z PeerConn) fd c c' :
  m !! fd = Some c -> conn_shape c' = conn_shape c -> conn_shape <$> <[fd := c']> m = conn_shape <$> m.
Proof. intros Hc E. rewrite fmap_insert, E. apply insert_id. by rewrite lookup_fmap, Hc. Qed.

Lemma drops_refl w M : drops_only_known w M M.
Proof. intros mid p t i fd Hin. by left. Qed.

Lemma inv_flush w M i fd k n n' c :
  inv w M -> nodes w !! i = Some n -> conns n !! fd = Some c -> (0 < k <= length (write_buf c))%nat ->
  on_writable fd [Z.of_nat k] n [] = Returned n' [] ->
  inv (mkWorld (<[i := n']> (nodes w)) (<[(i, fd) := (wire w !!! (i, fd)) ++ take k (write_buf c)]> (wire w)) (pubs w) (log w)) M.
Proof.
  intros Hinv Hn Hc Hk Hw. destruct (on_writable_flush fd k n n' c Hc Hk Hw) as [want ->].
  apply (inv_quiet w M M i n); try done.
  - by apply same_shape_conns, (shape_insert _ _ c).
  - apply drops_refl.
  - intros a fa b fb Hp q d Hq Hd. cbn [nodes wire] in *.
    rewrite queued_insert in Hq. rewrite decoder_insert in Hd. cbn [conns set_conns] in Hq, Hd.
    assert (decoder (nodes w) b fb = Some d) as Hd'.
    { destruct (decide (b = i)) as [->|]; [|done]. rewrite (decoder_node _ _ n) by done.
      destruct (decide (fb = fd)) as [->|]; [by rewrite lookup_insert_eq in Hd; rewrite Hc|by rewrite lookup_insert_ne in Hd]. }
    destruct (decide (a = i /\ fa = fd)) as [[-> ->]|Hne].
    + rewrite decide_True, lookup_insert_eq in Hq by done. injection Hq as <-. rewrite lookup_total_insert_eq.
      destruct (inv_streams w M Hinv i fd b fb Hp (write_buf c) d) as [He E]; [by rewrite (queued_node _ _ n), Hc by done|done|].
      split; [done|]. rewrite <- E, <- app_assoc. cbn [write_buf set_write]. by rewrite take_drop.
    + rewrite lookup_total_insert_ne by naive_solver. apply (inv_streams w M Hinv a fa b fb Hp); [|done].
      destruct (decide (a = i)) as [->|]; [|done]. rewrite (queued_node _ _ n) by done.
      by rewrite lookup_insert_ne in Hq by naive_solver.
Qed.

Lemma mesh_receiver w M j fd i fd' n :
  inv w M -> nodes w !! j = Some n -> peer_of j fd = Some (i, fd') -> peer_of i fd' = Some (j, fd).
Proof.
  intros Hinv Hn Hp. destruct (inv_mesh w M Hinv j n Hn) as [Md Ml _ _ _ _].
  destruct (proj2 (Md fd)) as [c Hc]; [by rewrite Hp|]. by destruct (Ml fd c i fd' Hc Hp) as (_ & ? & _).
Qed.

Lemma inv_read w M j fd i fd' n b rest :
  inv w M -> peer_of j fd = Some (i, fd') -> nodes w !! j = Some n -> is_Some (conns n !! fd) ->
  wire w !!! (i, fd') = b ++ rest ->
  inv (mkWorld (<[j := feed_conn fd b n]> (nodes w)) (<[(i, fd') := rest]> (wire w)) (pubs w) (log w)) M.
Proof.
  intros Hinv Hpj Hn [c Hc] Hw. pose proof (mesh_receiver w M j fd i fd' n Hinv Hn Hpj) as Hpi.
  assert (feed_conn fd b n = set_conns (<[fd := set_dec (feed (dec c) b) c]> (conns n)) n) as ->.
  { unfold feed_conn. f_equal. apply map_eq. intros x. destruct (decide (x = fd)) as [->|];
      [by rewrite lookup_alter_eq, lookup_insert_eq, Hc|by rewrite lookup_alter_ne, lookup_insert_ne]. }
  apply (inv_quiet w M M j n); try done.
  - by apply same_shape_conns, (shape_insert _ _ c).
  - apply drops_refl.
  - intros a fa k fk Hp q d Hq Hd. cbn [nodes wire] in *.
    rewrite queued_insert in Hq. rewrite decoder_insert in Hd. cbn [conns set_conns] in Hq, Hd.
    assert (queued (nodes w) a fa = Some q) as Hq'.
    { destruct (decide (a = j)) as [->|]; [|done]. rewrite (queued_node _ _ n) by done.
      destruct (decide (fa = fd)) as [->|]; [by rewrite lookup_insert_eq in Hq; rewrite Hc|by rewrite lookup_insert_ne in Hq]. }
    destruct (decide (k = j /\ fk = fd)) as [[-> ->]|Hne].
    + rewrite decide_True, lookup_insert_eq in Hd by done. injection Hd as <-. cbn [dec set_dec].
      assert (a = i /\ fa = fd') as [-> ->].
      { destruct (nodes w !! a) as [na|] eqn:Ha; [|unfold queued in Hq'; by rewrite Ha in Hq'].
        pose proof (mesh_receiver w M a fa j fd na Hinv Ha Hp). naive_solver. }
      rewrite lookup_total_insert_eq.
      destruct (inv_streams w M Hinv i fd' j fd Hp q (dec c) Hq') as [He E]; [by rewrite (decoder_node _ _ n), Hc by done|].
      unfold feed. rewrite He. cbn [error_ buf_]. split; [done|]. rewrite <- E, Hw, <- !app_assoc. done.
    + assert ((i, fd') <> (a, fa)) as Hne'.
      { intros [= <- <-]. rewrite Hpi in Hp. injection Hp as <- <-. naive_solver. }
      rewrite lookup_total_insert_ne by done. apply (inv_streams w M Hinv a fa k fk Hp); [done|].
      destruct (decide (k = j)) as [->|]; [|done]. rewrite (decoder_node _ _ n) by done.
      by rewrite lookup_insert_ne in Hd by naive_solver.
Qed.

(** ** Popping a frame and sending copies *)

Definition all_streams (w : World) (M : streams) : Prop :=
  forall i fd j fd', peer_of i fd = Some (j, fd') -> stream_ok w M i fd j fd'.

Definition set_stream (i : nat) (fd : Z) (ms : list P2PMessage) (M : streams) : streams :=
  fun a fa => if decide (a = i /\ fa = fd) then ms else M a fa.

Definition send_stream (j : nat) (n : P2PNode) (P : Z -> PeerConn -> bool) (m : P2PMessage) (M : streams) : streams :=
  fun a fa => M a fa ++
    if decide (a = j) then match conns n !! fa with Some c => if P fa c then [m] else [] | None => [] end else [].

Definition popped (fd : Z) (d : FrameDecoder) (n : P2PNode) : P2PNode := set_conns (alter (set_dec d) fd (conns n)) n.

Lemma popped_eq fd d n c :
  conns n !! fd = Some c -> popped fd d n = set_conns (<[fd := set_dec d c]> (conns n)) n.
Proof.
  intros Hc. unfold popped. f_equal. apply map_eq. intros x. destruct (decide (x = fd)) as [->|];
    [by rewrite lookup_alter_eq, lookup_insert_eq, Hc|by rewrite lookup_alter_ne, lookup_insert_ne].
Qed.

Lemma popped_shape fd d n c : conns n !! fd = Some c -> same_shape n (popped fd d n).
Proof. intros Hc. rewrite (popped_eq fd d n c Hc). by apply same_shape_conns, (shape_insert _ _ c). Qed.

(** The first frame of a buffer is the first message of the stream. *)
Lemma first_frame frame m rest b tail :
  frame_ok frame -> frame_ok (pb_serialize m) -> encode_frame frame ++ b = encoded (m :: rest) ++ tail ->
  frame = pb_serialize m /\ b = encoded rest ++ tail.
Proof.
  intros Hf Hm E. pose proof (try_pop_encoded frame b "" Hf) as E1.
  rewrite E, encoded_cons, <- app_assoc, try_pop_encoded in E1 by done. by injection E1.
Qed.

Lemma streams_pop w M j fd i fd' n c frame d' :
  inv w M -> nodes w !! j = Some n -> conns n !! fd = Some c -> peer_of j fd = Some (i, fd') ->
  try_pop (dec c) = (kFrameReady frame, d') ->
  exists m rest, M i fd' = m :: rest /\ frame = pb_serialize m /\
    all_streams (set_node j (popped fd d' n) w) (set_stream i fd' rest M).
Proof.
  intros Hinv Hn Hc Hpj Hpop. pose proof (mesh_receiver w M j fd i fd' n Hinv Hn Hpj) as Hpi.
  destruct (try_pop_ready_inv _ _ _ Hpop) as (_ & He' & _ & Hok & Hb).
  destruct (inv_mesh w M Hinv j n Hn) as [_ Ml _ _ _ _]. destruct (Ml fd c i fd' Hc Hpj) as (_ & _ & ni & Hni & _).
  destruct (inv_mesh w M Hinv i ni Hni) as [Mdi _ _ _ _ _]. destruct (proj2 (Mdi fd')) as [ci Hci]; [by rewrite Hpi|].
  destruct (inv_streams w M Hinv i fd' j fd Hpi (write_buf ci) (dec c)) as [_ Hstr];
    [by rewrite (queued_node _ _ ni), Hci by done|by rewrite (decoder_node _ _ n), Hc by done|].
  rewrite Hb, <- app_assoc in Hstr. destruct (M i fd') as [|m rest] eqn:EM; [done|].
  assert (frame_ok (pb_serialize m)) as Hm.
  { destruct (inv_copies w M Hinv i fd' m) as (mid & p & t & [Cp -> Ct _ _]); [rewrite EM; by left|].
    destruct (inv_pubs w M Hinv mid p Cp) as [_ _ Hfits _]. by apply Hfits. }
  rewrite <- (app_nil_r (encoded _)) in Hstr. apply first_frame in Hstr as [-> Hstr]; [|done|done]. rewrite app_nil_r in Hstr.
  exists m, rest. split_and!; try done. intros a fa k fk Hp q d Hq Hd. cbn [nodes set_node wire] in *.
  rewrite (popped_eq fd d' n c) in Hq, Hd by done.
  rewrite queued_insert in Hq. rewrite decoder_insert in Hd. cbn [conns set_conns] in Hq, Hd.
  assert (queued (nodes w) a fa = Some q) as Hq'.
  { destruct (decide (a = j)) as [->|]; [|done]. rewrite (queued_node _ _ n) by done.
    destruct (decide (fa = fd)) as [->|]; [by rewrite lookup_insert_eq in Hq; rewrite Hc|by rewrite lookup_insert_ne in Hq]. }
  unfold set_stream. destruct (decide (a = i /\ fa = fd')) as [[-> ->]|Hne].
  - rewrite Hpi in Hp. injection Hp as <- <-. rewrite decide_True, lookup_insert_eq in Hd by done. injection Hd as <-.
    split; [done|]. rewrite (queued_node _ _ ni), Hci in Hq' by done. injection Hq' as <-. done.
  - apply (inv_streams w M Hinv a fa k fk Hp); [done|]. destruct (decide (k = j)) as [->|]; [|done].
    rewrite (decoder_node _ _ n) by done. destruct (decide (fk = fd)) as [->|]; [|by rewrite lookup_insert_ne in Hd].
    exfalso. destruct (nodes w !! a) as [na|] eqn:Ha; [|unfold queued in Hq'; by rewrite Ha in Hq'].
    pose proof (mesh_receiver w M a fa j fd na Hinv Ha Hp). naive_solver.
Qed.

Lemma lookup_enqueue_where P payload n fd :
  conns (enqueue_where P payload n) !! fd = (fun c => if P fd c then enqueue_conn payload c else c) <$> conns n !! fd.
Proof. cbn [conns enqueue_where set_conns]. rewrite map_lookup_imap. by destruct (conns n !! fd). Qed.

Lemma enqueue_where_shape P payload n : same_shape n (enqueue_where P payload n).
Proof.
  unfold enqueue_where. apply same_shape_conns, map_eq. intros fd. rewrite !lookup_fmap, map_lookup_imap.
  destruct (conns n !! fd) as [c|]; [|done]. cbn. by destruct (P fd c).
Qed.

Lemma streams_send w M j n P m :
  all_streams w M -> nodes w !! j = Some n ->
  all_streams (set_node j (enqueue_where P (pb_serialize m) n) w) (send_stream j n P m M).
Proof.
  intros Hall Hn a fa k fk Hp q d Hq Hd. cbn [nodes set_node wire] in *.
  rewrite queued_insert, lookup_enqueue_where in Hq. rewrite decoder_insert, lookup_enqueue_where in Hd.
  assert (decoder (nodes w) k fk = Some d) as Hd'.
  { destruct (decide (k = j)) as [->|]; [|done]. rewrite (decoder_node _ _ n) by done.
    destruct (conns n !! fk) as [c|]; [|done]. cbn in Hd |- *. by destruct (P fk c). }
  unfold send_stream. destruct (decide (a = j)) as [->|]; [|rewrite app_nil_r; by apply (Hall a fa k fk)].
  destruct (conns n !! fa) as [c|] eqn:Hc; [|done].
  destruct (Hall j fa k fk Hp (write_buf c) d) as [He E]; [by rewrite (queued_node _ _ n), Hc by done|done|].
  split; [done|]. injection Hq as <-. destruct (P fa c); [|by rewrite app_nil_r].
  cbn [write_buf enqueue_conn]. rewrite encoded_app, <- E, <- !app_assoc. unfold encoded. cbn. by rewrite app_nil_r.
Qed.

Lemma all_streams_nodes w w' M : nodes w' = nodes w -> wire w' = wire w -> all_streams w M -> all_streams w' M.
Proof. intros En Ew Hall i fd j fd' Hp. unfold stream_ok. rewrite En, Ew. by apply Hall. Qed.

Lemma all_streams_conns w M j n n' :
  all_streams w M -> nodes w !! j = Some n -> conns n' = conns n -> all_streams (set_node j n' w) M.
Proof.
  intros Hall Hn Hc a fa k fk Hp q d Hq Hd. cbn [nodes set_node wire] in *.
  rewrite queued_insert, Hc in Hq. rewrite decoder_insert, Hc in Hd. apply (Hall a fa k fk Hp).
  - destruct (decide (a = j)) as [->|]; [by rewrite (queued_node _ _ n)|done].
  - destruct (decide (k = j)) as [->|]; [by rewrite (decoder_node _ _ n)|done].
Qed.

(** ** A node accepts a publication *)

(** Node [i] takes up [mid] and sends copies with [t] hops left. *)
Record accepts (w : World) (M : streams) (i : nat) (n n' : P2PNode) (mid : bytes) (p : Pub) (t : Z)
    (ps : gmap bytes Pub) (M' : streams) : Prop := {
  acc_node : nodes w !! i = Some n;
  acc_shape : same_shape n n';
  acc_new : mid ∉ seen_set n;
  acc_pub : ps !! mid = Some p;
  acc_others : forall x, x <> mid -> ps !! x = pubs w !! x;
  acc_was : pubs w !! mid = Some p \/ (pubs w !! mid = None /\ seen w mid = ∅ /\ calls_of i mid w = [] /\ i = pub_origin p);
  acc_cap : (size ps <= kSeenMessageCap)%nat;
  acc_set : forall x, x ∈ dom ps -> x ∈ seen_set n' <-> x = mid \/ x ∈ seen_set n;
  acc_cache : cache_ok ps n' /\ map_Forall (fun _ n => cache_ok ps n) (nodes w);
  acc_hops : 0 <= t <= pub_ttl p /\ pub_ttl p <= t + Z.of_nat (size (seen w mid));
  acc_ok : pub_ok (set_node i n' w) mid p;
  acc_sub : forall j fd m, m ∈ M' j fd -> m ∈ M j fd \/ (j = i /\ m = copy mid p t);
  acc_drop : forall x q s j fd, copy x q s ∈ M j fd -> copy x q s ∈ M' j fd \/
    forall k fd', peer_of j fd = Some (k, fd') -> x = mid /\ k = i;
  acc_send : Z.of_nat (size (nodes w)) <= pub_ttl p + 1 ->
    forall fd k fd', peer_of i fd = Some (k, fd') -> k = i \/ k ∈ seen w mid \/ copy mid p t ∈ M' i fd;
}.

Section accept.
Context (w : World) (M : streams) (i : nat) (n n' : P2PNode) (mid : bytes) (p : Pub) (t : Z)
  (ps : gmap bytes Pub) (M' : streams).
Hypothesis Hinv : inv w M.
Hypothesis Hacc : accepts w M i n n' mid p t ps M'.

Let calls := if decide (wants p i n) then [the_call p] else [].
Let w' := mkWorld (<[i := n']> (nodes w)) (wire w) ps (log w ++ ((fun c => (i, mid, c)) <$> calls)).

Lemma accept_seen x : x ∈ dom ps -> seen w' x = if decide (x = mid) then {[i]} ∪ seen w x else seen w x.
Proof.
  intros Hx. destruct Hacc as [Hn _ _ _ _ _ _ Hset _ _ _ _ _ _]. apply set_eq. intros j.
  assert (j ∈ seen w' x <-> (j = i /\ x ∈ seen_set n') \/ (j <> i /\ j ∈ seen w x)) as ->.
  { rewrite !elem_of_seen. unfold w'. cbn [nodes]. destruct (decide (j = i)) as [->|Hne].
    - rewrite lookup_insert_eq. naive_solver.
    - rewrite lookup_insert_ne by done. naive_solver. }
  rewrite Hset by done. destruct (decide (j = i)) as [->|Hne].
  - assert (i ∈ seen w x <-> x ∈ seen_set n) as Hi by (rewrite elem_of_seen; naive_solver).
    destruct (decide (x = mid)); [|naive_solver]. rewrite elem_of_union, elem_of_singleton. naive_solver.
  - destruct (decide (x = mid)); [|naive_solver]. rewrite elem_of_union, elem_of_singleton. naive_solver.
Qed.

Lemma accept_fresh : i ∉ seen w mid.
Proof. destruct Hacc as [Hn _ Hnew]. intros (m & Hm & Hs)%elem_of_seen. congruence. Qed.

Lemma accept_mid : mid ∈ dom ps.
Proof. destruct Hacc as [_ _ _ Hp]. by apply elem_of_dom. Qed.

Lemma accept_seen_mono x : x ∈ dom ps -> seen w x ⊆ seen w' x.
Proof. intros Hx. rewrite accept_seen by done. destruct (decide (x = mid)); set_solver. Qed.

Lemma accept_old x q : pubs w !! x = Some q -> ps !! x = Some q.
Proof.
  destruct Hacc as [_ _ _ Hp Hoth Hwas]. intros Hx. destruct (decide (x = mid)) as [->|Hne]; [|by rewrite Hoth].
  destruct Hwas as [?|[? _]]; congruence.
Qed.

Lemma accept_size : size (seen w' mid) = S (size (seen w mid)).
Proof.
  rewrite accept_seen, decide_True by (done || apply accept_mid).
  rewrite size_union by (pose proof accept_fresh; set_solver). by rewrite size_singleton.
Qed.

Lemma accept_copies j fd m : m ∈ M' j fd -> exists x q s, copy_ok w' j m x q s.
Proof.
  intros Hm. destruct (acc_sub _ _ _ _ _ _ _ _ _ _ Hacc j fd m Hm) as [Hm'|[-> ->]].
  - destruct (inv_copies w M Hinv j fd m Hm') as (x & q & s & [C1 C2 C3 C4 C5]). exists x, q, s.
    assert (x ∈ dom ps) as Hx by (apply elem_of_dom; eexists; by apply accept_old).
    split; [by apply accept_old|done|done|by apply (accept_seen_mono x Hx)|].
    pose proof (subseteq_size _ _ (accept_seen_mono x Hx)). lia.
  - exists mid, p, t. destruct Hacc as [_ _ _ Hp _ _ _ _ _ [Ht Hh] _ _ _ _]. split; [done|done|done| |].
    + rewrite accept_seen, decide_True by (done || apply accept_mid). set_solver.
    + rewrite accept_size. lia.
Qed.

Lemma accept_cover x q j fd k fd' :
  ps !! x = Some q -> Z.of_nat (size (nodes w')) <= pub_ttl q + 1 -> j ∈ seen w' x -> peer_of j fd = Some (k, fd') ->
  k ∈ seen w' x \/ exists s, copy x q s ∈ M' j fd.
Proof.
  intros Hq Hsz Hj Hp. assert (x ∈ dom ps) as Hx by (by apply elem_of_dom).
  assert (size (nodes w') = size (nodes w)) as Es by (destruct Hacc as [Hn]; by apply (size_update _ _ n)).
  rewrite Es in Hsz.
  assert (x = mid -> i ∈ seen w' x) as Himid.
  { intros ->. rewrite accept_seen, decide_True by done. set_solver. }
  destruct (decide (x = mid /\ j = i)) as [[-> ->]|Hne].
  - destruct (acc_send _ _ _ _ _ _ _ _ _ _ Hacc) with fd k fd' as [->|[Hk|Hk]]; [|done|left; by apply Himid| |].
    + assert (q = p) as -> by (destruct Hacc; congruence). done.
    + left. by apply accept_seen_mono.
    + right. assert (q = p) as -> by (destruct Hacc; congruence). eauto.
  - assert (j ∈ seen w x) as Hj'.
    { rewrite accept_seen in Hj by done. destruct (decide (x = mid)); [|done]. set_solver. }
    assert (pubs w !! x = Some q) as Hq'.
    { destruct Hacc as [_ _ _ Hp' Hoth Hwas]. destruct (decide (x = mid)) as [->|]; [|by rewrite <- Hoth].
      destruct Hwas as [?|(_ & He & _)]; [congruence|]. rewrite He in Hj'. set_solver. }
    destruct (inv_cover w M Hinv x q j fd k fd' Hq' Hsz Hj' Hp) as [Hk|(s & Hs)]; [left; by apply accept_seen_mono|].
    destruct (acc_drop _ _ _ _ _ _ _ _ _ _ Hacc x q s j fd Hs) as [Hs'|Hk]; [right; eauto|].
    left. destruct (Hk k fd' Hp) as [-> ->]. by apply Himid.
Qed.

Lemma calls_of_accept j x :
  calls_of j x w' = calls_of j x w ++ if decide (j = i /\ x = mid) then calls else [].
Proof.
  unfold calls_of, w'. cbn [log]. rewrite filter_app, fmap_app. f_equal.
  unfold calls. destruct (decide (wants p i n)); cbn [fmap list_fmap].
  - rewrite filter_cons, filter_nil. cbn [fst]. destruct (decide ((i, mid) = (j, x))) as [[= <- <-]|Hne].
    + by rewrite decide_True.
    + rewrite decide_False; [done|naive_solver].
  - by destruct (decide _).
Qed.

Lemma accept_calls j nj x q :
  nodes w' !! j = Some nj -> ps !! x = Some q ->
  calls_of j x w' = if decide (j ∈ seen w' x /\ wants q j nj) then [the_call q] else [].
Proof.
  intros Hj Hq. assert (x ∈ dom ps) as Hx by (by apply elem_of_dom). rewrite calls_of_accept.
  destruct Hacc as [Hn Hsh _ Hp Hoth Hwas _ _ _ _ _ _ _ _].
  assert (exists nj0, nodes w !! j = Some nj0 /\ same_shape nj0 nj) as (nj0 & Hj0 & Hsj).
  { unfold w' in Hj. cbn [nodes] in Hj. destruct (decide (j = i)) as [->|Hne].
    - rewrite lookup_insert_eq in Hj. injection Hj as <-. eauto.
    - rewrite lookup_insert_ne in Hj by done. by exists nj. }
  destruct (decide (j = i /\ x = mid)) as [[-> ->]|Hne].
  - assert (q = p) as -> by congruence. assert (nj0 = n) as -> by congruence.
    assert (calls_of i mid w = []) as ->.
    { destruct Hwas as [Hw|(_ & _ & Hc & _)]; [|done]. rewrite (inv_calls w M Hinv i n mid p Hn Hw).
      rewrite decide_False; [done|]. intros [Hi _]. by apply accept_fresh in Hi. }
    unfold calls. apply decide_ext. rewrite (wants_shape p i n nj) by done.
    rewrite accept_seen, decide_True by done. set_solver.
  - rewrite app_nil_r. destruct (decide (x = mid)) as [->|Hxm].
    + assert (q = p) as -> by congruence. destruct Hwas as [Hw|(Hw & He & _ & Ho)].
      * rewrite (inv_calls w M Hinv j nj0 mid p Hj0 Hw). apply decide_ext. rewrite (wants_shape p j nj0 nj) by done.
        rewrite accept_seen, decide_True by done. set_solver.
      * rewrite decide_False.
        2: { rewrite accept_seen, decide_True by done. rewrite He. intros [Hs _]. set_solver. }
        destruct (calls_of j mid w) as [|c l] eqn:Ec; [done|]. exfalso.
        assert (c ∈ calls_of j mid w) as Hin by (rewrite Ec; by left). unfold calls_of in Hin.
        apply list_elem_of_fmap in Hin as (((j' & x') & c') & _ & Hin). apply list_elem_of_filter in Hin as [[= -> ->] Hin].
        apply (inv_log w M Hinv) in Hin as [_ Hin]. apply elem_of_dom in Hin as [? ?]. congruence.
    + assert (pubs w !! x = Some q) as Hq' by (by rewrite <- Hoth).
      rewrite (inv_calls w M Hinv j nj0 x q Hj0 Hq'). apply decide_ext. rewrite (wants_shape q j nj0 nj) by done.
      by rewrite accept_seen, decide_False.
Qed.

Lemma inv_accept : all_streams w' M' -> inv w' M'.
Proof.
  intros Hstr. pose proof Hacc as [Hn Hsh _ Hp Hoth Hwas Hcap _ [Hc1 Hc2] _ Hok _ _ _].
  split; cbn [nodes pubs log w'].
  - eapply mesh_update; [by apply (inv_mesh w M)|done|done].
  - done.
  - intros x q Hq. destruct (decide (x = mid)) as [->|Hne]; [assert (q = p) as -> by congruence; by destruct Hok|].
    rewrite Hoth in Hq by done. destruct (inv_pubs w M Hinv x q Hq) as [P1 (no & Hno & Hso & Hfo) P3 P4].
    split; [done| |done|done]. unfold w'. cbn [nodes]. destruct (decide (pub_origin q = i)) as [E|Hno'].
    + exists n'. rewrite E, lookup_insert_eq. assert (no = n) as -> by congruence. split_and!; [done| |].
      * apply (acc_set _ _ _ _ _ _ _ _ _ _ Hacc); [apply elem_of_dom; by rewrite Hoth|by right].
      * rewrite Hfo. destruct Hsh as (S1 & S2 & _). unfold self_wire. by rewrite S1, S2.
    + exists no. by rewrite lookup_insert_ne.
  - by apply map_Forall_insert_2.
  - done.
  - apply accept_copies.
  - apply accept_cover.
  - apply accept_calls.
  - intros j x c Hin. apply elem_of_app in Hin as [Hin|Hin].
    + destruct (inv_log w M Hinv j x c Hin) as [Hj Hx]. split.
      * destruct (decide (j = i)) as [->|]; [by rewrite lookup_insert_eq|by rewrite lookup_insert_ne].
      * apply elem_of_dom in Hx as [q Hq]. apply elem_of_dom. exists q. by apply accept_old.
    + apply list_elem_of_fmap in Hin as (c' & [= -> -> ->] & _). rewrite lookup_insert_eq. split; [done|apply accept_mid].
Qed.
End accept.
End net.
