(* ===== verification/GossipFlood.v ===== *)
(** * Flooding: what a network of gossip nodes delivers

    The invariant of [GossipNet] is kept by every step; from it follow exact
    delivery when the network comes to rest and the fact that it does. *)
From S2P Require Import Prelude StdMap Crypto FrameCodec Kademlia Gossip GossipNet.
Import Gossip.

Section flood.
Context `{!ProtoMsg P2PMessage, !PublishCodec}.
Variable peer_of : nat -> Z -> option (nat * Z).

Local Abbreviation inv := (inv peer_of).

Lemma pop_frame_ready fd n frame n' calls :
  pop_frame fd n = (kFrameReady frame, n', calls) ->
  exists c d', conns n !! fd = Some c /\ try_pop (dec c) = (kFrameReady frame, d') /\
    handle_frame fd frame (popped fd d' n) = (n', calls).
Proof.
  unfold pop_frame. destruct (conns n !! fd) as [c|]; [|done]. destruct (try_pop (dec c)) as [[|out|] d'] eqn:E; [done| |done].
  destruct (handle_frame fd out _) as [n1 calls1] eqn:Eh. intros [= <- <- <-]. eauto.
Qed.

Lemma drop_first M i fd' m rest j fd mid p t :
  M i fd' = m :: rest -> m = copy mid p t -> peer_of i fd' = Some (j, fd) ->
  forall x q s a fa, copy x q s ∈ M a fa -> copy x q s ∈ set_stream i fd' rest M a fa \/
    forall k fk, peer_of a fa = Some (k, fk) -> x = mid /\ k = j.
Proof.
  intros EM -> Hp x q s a fa Hin. unfold set_stream. destruct (decide (a = i /\ fa = fd')) as [[-> ->]|]; [|by left].
  rewrite EM in Hin. apply elem_of_cons in Hin as [E|Hin]; [|by left]. right. intros k fk Hk. unfold copy in E.
  rewrite Hp in Hk. injection Hk as <- <-. by injection E as _ _ -> _ _.
Qed.

Lemma set_stream_sub i fd' m rest M j fd x :
  M i fd' = m :: rest -> x ∈ set_stream i fd' rest M j fd -> x ∈ M j fd.
Proof.
  intros EM. unfold set_stream. destruct (decide _) as [[-> ->]|]; [|done]. intros Hx. rewrite EM. by right.
Qed.

Lemma send_stream_inv j n P m M a fa x :
  x ∈ send_stream j n P m M a fa -> x ∈ M a fa \/ (a = j /\ x = m).
Proof.
  unfold send_stream. intros [Hm|Hm]%elem_of_app; [by left|]. right.
  destruct (decide (a = j)); [|by apply not_elem_of_nil in Hm].
  destruct (conns n !! fa); [|by apply not_elem_of_nil in Hm]. destruct (P fa _); [|by apply not_elem_of_nil in Hm].
  by apply list_elem_of_singleton in Hm.
Qed.

(** The callback of a node that takes up a publication. *)
Lemma callback_wants p j n n1 :
  same_shape n n1 -> j <> pub_origin p ->
  (if bool_decide (pub_topic p ∈ my_topics n1) && on_topic n1
   then [mkTopicCall (pub_topic p) (pub_payload p) (from_proto (pub_from p))] else []) =
  (if decide (wants p j n) then [the_call p] else []).
Proof.
  intros (_ & _ & St & So & _) Hj. rewrite St, So. unfold the_call.
  case_bool_decide as Ht; destruct (on_topic n) eqn:Eo; cbn [andb].
  - rewrite decide_True; [done|]. by unfold wants.
  - rewrite decide_False; [done|]. unfold wants. naive_solver congruence.
  - rewrite decide_False; [done|]. unfold wants. naive_solver.
  - rewrite decide_False; [done|]. unfold wants. naive_solver.
Qed.

Lemma set_seen_shape o s n : same_shape n (set_seen o s n).
Proof. done. Qed.

(** A relay reaches every neighbour but the sender and the origin. *)
Lemma relays_cover w M j n n2 fd i fd' p mid fa k fk size' :
  inv w M -> nodes w !! j = Some n -> same_shape n n2 -> peer_of j fd = Some (i, fd') -> peer_of j fa = Some (k, fk) ->
  i ∈ seen w mid -> pub_ok w mid p ->
  k ∈ seen w mid \/ exists c, conns n2 !! fa = Some c /\ relays_to n2 fd (from_proto (pub_from p)) size' fa c = true.
Proof.
  intros Hinv Hn Hsh Hpj Hpa Hi Hok. destruct (inv_mesh _ w M Hinv j n Hn) as [Md Ml _ _ _ Mg].
  destruct (proj2 (Md fa)) as [c Hc]; [by rewrite Hpa|].
  destruct (Ml fa c k fk Hc Hpa) as (Hk & _ & nk & Hnk & Hid).
  assert (exists c2, conns n2 !! fa = Some c2 /\ peer c2 = peer c /\ peer_known c2 = peer_known c) as (c2 & Hc2 & Ep & Ek).
  { destruct Hsh as (_ & _ & _ & _ & _ & E). apply (f_equal (fun m => m !! fa)) in E. rewrite !lookup_fmap, Hc in E.
    destruct (conns n2 !! fa) as [c2|]; [|done]. injection E as E1 E2. eauto. }
  unfold relays_to. destruct (Z.eqb_spec fa fd) as [->|Hne]; [left; congruence|].
  destruct (bool_decide (Kademlia.id (peer c2) = Kademlia.id (from_proto (pub_from p)))) eqn:Eo.
  - left. apply bool_decide_eq_true in Eo. destruct Hok as [_ (no & Hno & Hso & Hfo) _ _].
    destruct (inv_mesh _ w M Hinv _ no Hno) as [_ _ _ Mi Mj _].
    rewrite Hfo in Eo. unfold from_proto, self_wire in Eo. cbn [wp_node_id Kademlia.id] in Eo. rewrite Mi in Eo. cbn in Eo.
    assert (k = pub_origin p) as -> by (apply (Mj k nk Hnk); congruence). apply elem_of_seen. eauto.
  - right. exists c2. split; [done|]. rewrite Ek, Hk, Eo. cbn [negb]. destruct Hsh as (_ & _ & _ & _ & -> & _). apply Mg.
Qed.

(** A frame that is handled is a copy of a publication. *)
Lemma popped_copy w M j fd n frame n' calls :
  inv w M -> nodes w !! j = Some n -> pop_frame fd n = (kFrameReady frame, n', calls) ->
  exists c d' i fd' rest mid p t,
    conns n !! fd = Some c /\ peer_of j fd = Some (i, fd') /\ peer_of i fd' = Some (j, fd) /\
    M i fd' = copy mid p t :: rest /\ copy_ok w i (copy mid p t) mid p t /\ pub_ok w mid p /\
    frame_mid frame = mid /\ all_streams peer_of (set_node j (popped fd d' n) w) (set_stream i fd' rest M) /\
    handle_publish fd (pub_from p) (pub_topic p) mid (pub_payload p) t (popped fd d' n) = (n', calls) /\
    try_pop (dec c) = (kFrameReady frame, d').
Proof.
  intros Hinv Hn Hpop. destruct (pop_frame_ready fd n frame n' calls Hpop) as (c & d' & Hc & Htry & Hh).
  destruct (proj1 (mesh_dom _ _ _ _ (inv_mesh _ w M Hinv j n Hn) fd)) as [[i fd'] Hpj]; [by rewrite Hc|].
  destruct (streams_pop peer_of w M j fd i fd' n c frame d' Hinv Hn Hc Hpj Htry) as (m & rest & EM & Ef & Hall).
  destruct (inv_copies _ w M Hinv i fd' m) as (mid & p & t & Hcopy); [rewrite EM; by left|].
  pose proof Hcopy as [Cp -> Ct _ _]. pose proof (inv_pubs _ w M Hinv mid p Cp) as Hok.
  assert (pb_parse frame = Some (copy mid p t)) as Hparse.
  { rewrite Ef. apply publish_parse. by apply (pub_fits _ _ _ Hok). }
  exists c, d', i, fd', rest, mid, p, t. split_and!; try done.
  - by eapply mesh_receiver.
  - unfold frame_mid. by rewrite Hparse.
  - unfold handle_frame in Hh. by rewrite Hparse in Hh.
Qed.

(** Node [j] pops the copy of [mid] with [t] hops that [i] sent it. *)
Section pop.
Context (w : World) (M : streams) (j : nat) (fd : Z) (n : P2PNode) (c : PeerConn) (d' : FrameDecoder).
Context (i : nat) (fd' : Z) (rest : list P2PMessage) (mid : bytes) (p : Pub) (t : Z).
Hypothesis Hinv : inv w M.
Hypothesis Hn : nodes w !! j = Some n.
Hypothesis Hc : conns n !! fd = Some c.
Hypothesis Hpj : peer_of j fd = Some (i, fd').
Hypothesis Hpi : peer_of i fd' = Some (j, fd).
Hypothesis EM : M i fd' = copy mid p t :: rest.
Hypothesis Hcopy : copy_ok w i (copy mid p t) mid p t.
Hypothesis Hok : pub_ok w mid p.
Hypothesis Hall : all_streams peer_of (set_node j (popped fd d' n) w) (set_stream i fd' rest M).

Let n1 := popped fd d' n.
Let M1 := set_stream i fd' rest M.

Lemma pop_sub a fa m : m ∈ M1 a fa -> m ∈ M a fa.
Proof. by apply (set_stream_sub i fd' (copy mid p t)). Qed.

Lemma inv_pop_known :
  mid ∈ seen_set n -> inv (mkWorld (<[j := n1]> (nodes w)) (wire w) (pubs w) (log w)) M1.
Proof.
  intros Hin. apply (inv_quiet peer_of w M _ j n); try done; [by apply (popped_shape fd d' n c)|apply pop_sub|].
  intros x q s a fa Hx. destruct (drop_first M i fd' _ rest j fd mid p t EM eq_refl Hpi x q s a fa Hx) as [?|Hd]; [by left|].
  right. intros k fk Hk. destruct (Hd k fk Hk) as [-> ->]. apply elem_of_seen. eauto.
Qed.

(** The copy is new: the cache becomes [o], [s]. *)
Context (o : list bytes) (s : gset bytes).
Hypothesis Hnin : mid ∉ seen_set n.
Hypothesis Hcache : cache_ok (pubs w) (set_seen o s n1).
Hypothesis Hset : forall x, x ∈ dom (pubs w) -> x ∈ s <-> x = mid \/ x ∈ seen_set n.

Let n2 := set_seen o s n1.

Lemma pop_shape : same_shape n n2.
Proof. etransitivity; [by apply (popped_shape fd d' n c)|apply set_seen_shape]. Qed.

Lemma pop_not_origin : j <> pub_origin p.
Proof. intros ->. destruct (pub_at _ _ _ Hok) as (no & Hno & Hso & _). congruence. Qed.

Lemma pop_streams : all_streams peer_of (set_node j n2 w) M1.
Proof.
  apply (all_streams_nodes peer_of (set_node j n2 (set_node j n1 w))); [cbn; by rewrite insert_insert_eq|done|].
  apply (all_streams_conns peer_of _ _ j n1); [done|cbn; by rewrite lookup_insert_eq|done].
Qed.

Lemma pop_pub_ok n3 : pub_ok (set_node j n3 w) mid p.
Proof.
  pose proof pop_not_origin. destruct Hok as [P1 (no & Hno & Hso & Hfo) P3 P4]. split; [done| |done|done].
  exists no. cbn. by rewrite lookup_insert_ne by done.
Qed.

(** What taking up the publication leaves open: the copies sent on. *)
Lemma pop_accepts n3 t' M' :
  same_shape n n3 -> seen_order n3 = o -> seen_set n3 = s -> 0 <= t' <= pub_ttl p -> t <= t' + 1 ->
  (forall a fa m, m ∈ M' a fa -> m ∈ M1 a fa \/ (a = j /\ m = copy mid p t')) ->
  (forall a fa m, m ∈ M1 a fa -> m ∈ M' a fa) ->
  (Z.of_nat (size (nodes w)) <= pub_ttl p + 1 -> forall fa k fk, peer_of j fa = Some (k, fk) ->
     k = j \/ k ∈ seen w mid \/ copy mid p t' ∈ M' j fa) ->
  accepts peer_of w M j n n3 mid p t' (pubs w) M'.
Proof.
  intros Hsh Ho Hs Ht' Htt Hsub Hsup Hsend. destruct Hcopy as [Cp _ Ct Cs Ch]. split; try done.
  - by left.
  - apply (inv_cap _ w M Hinv).
  - by rewrite Hs.
  - split; [|apply (inv_cache _ w M Hinv)]. destruct Hcache as (old & new & C). exists old, new. by rewrite Ho, Hs.
  - split; [done|lia].
  - apply pop_pub_ok.
  - intros a fa m Hm. destruct (Hsub a fa m Hm) as [Hm'|?]; [left; by apply pop_sub|by right].
  - intros x q r a fa Hx. destruct (drop_first M i fd' _ rest j fd mid p t EM eq_refl Hpi x q r a fa Hx) as [Hx'|Hd];
      [left; by apply Hsup|by right].
Qed.

Lemma inv_pop_last l : t = 0 -> l = (if decide (wants p j n) then [the_call p] else []) ->
  inv (mkWorld (<[j := n2]> (nodes w)) (wire w) (pubs w) (log w ++ ((fun c => (j, mid, c)) <$> l))) M1.
Proof.
  intros Et ->. eapply (inv_accept peer_of w M j n n2 mid p 0); [done| |].
  - destruct Hcopy as [_ _ Ct _ Ch]. apply pop_accepts; try done; [apply pop_shape|lia|lia|by left|].
    intros Hsz. exfalso. pose proof (seen_full w mid j n Hn Hnin). lia.
  - apply (all_streams_nodes peer_of (set_node j n2 w)); [done|done|apply pop_streams].
Qed.

Lemma inv_pop_relay l : t <> 0 -> l = (if decide (wants p j n) then [the_call p] else []) ->
  let m := copy mid p (t - 1) in
  let P := relays_to n2 fd (from_proto (pub_from p)) (Z.of_nat (length (pb_serialize m))) in
  inv (mkWorld (<[j := enqueue_where P (pb_serialize m) n2]> (nodes w)) (wire w) (pubs w)
         (log w ++ ((fun c => (j, mid, c)) <$> l))) (send_stream j n2 P m M1).
Proof.
  intros Et -> m P. eapply (inv_accept peer_of w M j n _ mid p (t - 1)); [done| |].
  - destruct Hcopy as [_ _ Ct Cs Ch]. apply pop_accepts; try done; try lia.
    + etransitivity; [apply pop_shape|apply enqueue_where_shape].
    + intros a fa x. apply send_stream_inv.
    + intros a fa x Hx. unfold send_stream. rewrite elem_of_app. by left.
    + intros _ fa k fk Hpa. right.
      destruct (relays_cover w M j n n2 fd i fd' p mid fa k fk (Z.of_nat (length (pb_serialize m)))) as [Hk|(ca & Hca & HP)];
        try done; [apply pop_shape|by left|].
      right. unfold send_stream. rewrite elem_of_app. right. rewrite decide_True by done. rewrite Hca. unfold P. rewrite HP. by left.
  - apply (all_streams_nodes peer_of (set_node j (enqueue_where P (pb_serialize m) n2) (set_node j n2 w)));
      [cbn; by rewrite insert_insert_eq|done|].
    apply streams_send; [apply pop_streams|]. cbn. by rewrite lookup_insert_eq.
Qed.
End pop.

Lemma inv_pop w M j fd n frame n' calls :
  inv w M -> nodes w !! j = Some n -> pop_frame fd n = (kFrameReady frame, n', calls) ->
  exists M', inv (mkWorld (<[j := n']> (nodes w)) (wire w) (pubs w) (log w ++ ((fun c => (j, frame_mid frame, c)) <$> calls))) M'.
Proof.
  intros Hinv Hn Hpop.
  destruct (popped_copy w M j fd n frame n' calls Hinv Hn Hpop)
    as (c & d' & i & fd' & rest & mid & p & t & Hc & Hpj & Hpi & EM & Hcopy & Hok & -> & Hall & Hh & _).
  unfold handle_publish in Hh.
  destruct (Nat.eqb_spec (length mid) 0) as [E0|_]; [by apply nil_length_inv in E0; destruct (pub_mid _ _ _ Hok)|].
  destruct (decide (mid ∈ seen_set n)) as [Hin|Hnin].
  - unfold seen_recently in Hh. rewrite bool_decide_true in Hh by done. injection Hh as <- <-.
    eexists. cbn [fmap list_fmap]. rewrite app_nil_r. by eapply (inv_pop_known w M j fd n c).
  - destruct (seen_recently_new (pubs w) mid (popped fd d' n)) as (o & s & Esr & Hcache & Hset);
      [apply (inv_cache _ w M Hinv j n Hn)|destruct Hcopy; by apply elem_of_dom|apply (inv_cap _ w M Hinv)|done|].
    rewrite Esr in Hh. rewrite (callback_wants p j n) in Hh; [|by eapply pop_shape|by eapply pop_not_origin].
    destruct (Z.eqb_spec t 0) as [Et|Et]; injection Hh as <- <-; eexists.
    + by eapply (inv_pop_last w M j fd n c).
    + by eapply (inv_pop_relay w M j fd n c).
Qed.

Lemma inv_publish w M i topic payload ttl mid n :
  inv w M -> nodes w !! i = Some n -> mid <> [] -> mid ∉ dom (pubs w) ->
  map_Forall (fun _ n' => mid ∉ seen_set n') (nodes w) ->
  (S (size (pubs w)) <= kSeenMessageCap)%nat -> 0 <= ttl ->
  let p := mkPub i (self_wire n) topic payload ttl in
  fits mid p ->
  exists M', inv (mkWorld (<[i := publish topic payload ttl mid n]> (nodes w)) (wire w) (<[mid := p]> (pubs w)) (log w)) M'.
Proof.
  intros Hinv Hn Hmid Hfresh Hnone Hcap Httl p Hfits. set (ps := <[mid := p]> (pubs w)).
  assert (forall j nj, nodes w !! j = Some nj -> cache_ok ps nj) as Hcaches.
  { intros j nj Hj. apply cache_ok_insert; [by apply (inv_cache _ w M Hinv j)|by apply (Hnone j)]. }
  assert (pubs w !! mid = None) as Hpm by (by apply not_elem_of_dom).
  assert (size ps <= kSeenMessageCap)%nat as Hcap' by (unfold ps; by rewrite map_size_insert_None).
  destruct (seen_recently_new ps mid n) as (o & s & Esr & Hcache & Hset);
    [by eapply Hcaches|unfold ps; set_solver|done|by apply (Hnone i)|].
  unfold publish. rewrite Esr. cbn [snd]. set (n1 := set_seen o s n) in *. unfold send_to_all.
  set (P := fun (fd : Z) (c : PeerConn) => if fd =? -1 then false else peer_known c).
  set (m := copy mid p ttl). change (Publish (self_wire n1) topic mid payload ttl) with m.
  assert (same_shape n (enqueue_where P (pb_serialize m) n1)) as Hsh by (etransitivity; [apply set_seen_shape|apply enqueue_where_shape]).
  assert (seen w mid = ∅) as Hempty.
  { apply set_eq. intros j. split; [|set_solver]. intros (nj & Hj & Hs)%elem_of_seen. by destruct (Hnone j nj Hj). }
  assert (calls_of i mid w = []) as Hnocall.
  { unfold calls_of. destruct (filter _ (log w)) as [|[[j x] c] l] eqn:Ef; [done|]. exfalso.
    assert ((j, x, c) ∈ filter (fun e : nat * bytes * TopicCall => e.1 = (i, mid)) (log w)) as Hin by (rewrite Ef; by left).
    apply list_elem_of_filter in Hin as [[= -> ->] Hin]. by apply (inv_log _ w M Hinv) in Hin as [_ Hin]. }
  exists (send_stream i n1 P m M). rewrite <- (app_nil_r (log w)).
  assert ([] = (fun c => (i, mid, c)) <$> (if decide (wants p i n) then [the_call p] else [])) as ->.
  { rewrite decide_False; [done|]. by intros [? _]. }
  apply (inv_accept peer_of w M i n (enqueue_where P (pb_serialize m) n1) mid p ttl ps); [done| |].
  - split; try done.
    + by apply (Hnone i).
    + unfold ps. by rewrite lookup_insert_eq.
    + intros x Hx. unfold ps. by rewrite lookup_insert_ne.
    + right. done.
    + cbn [pub_ttl p]. rewrite Hempty, size_empty. lia.
    + split; [done| |done|done]. exists (enqueue_where P (pb_serialize m) n1). cbn. rewrite lookup_insert_eq.
      split_and!; [done| |done]. apply Hset; [unfold ps; set_solver|by left].
    + intros a fa x. apply send_stream_inv.
    + intros x q r a fa Hx. left. unfold send_stream. rewrite elem_of_app. by left.
    + intros _ fa k fk Hpa. right. right. destruct (inv_mesh _ w M Hinv i n Hn) as [Md Ml Mf _ _ _].
      destruct (proj2 (Md fa)) as [c Hc]; [by rewrite Hpa|]. destruct (Ml fa c k fk Hc Hpa) as (Hk & _).
      unfold send_stream. rewrite elem_of_app. right. rewrite decide_True by done. cbn [n1 set_seen conns]. rewrite Hc.
      unfold P. destruct (Z.eqb_spec fa (-1)) as [->|_]; [congruence|]. rewrite Hk. by left.
  - apply (all_streams_nodes peer_of (set_node i (enqueue_where P (pb_serialize m) n1) (set_node i n1 w)));
      [cbn; by rewrite insert_insert_eq|done|].
    apply streams_send; [|cbn; by rewrite lookup_insert_eq].
    apply (all_streams_conns peer_of _ _ i n); [|done|done]. intros a fa b fb. apply (inv_streams _ w M Hinv).
Qed.

Lemma inv_reachable w0 w : at_rest peer_of w0 -> reachable peer_of w0 w -> exists M, inv w M.
Proof.
  intros Hrest Hreach. induction Hreach as [|w w' _ [M IH] Hs|w w' _ [M IH] Hs].
  - eexists. by apply inv_init.
  - destruct Hs; [eexists; by eapply inv_flush|eexists; by eapply inv_read|by eapply inv_pop].
  - destruct Hs. by eapply inv_publish.
Qed.

(** ** At rest everyone connected was called *)

Definition quiescent (w : World) : Prop := forall w', ~ net_step peer_of w w'.

Definition connected : nat -> nat -> Prop := rtc (fun a b => exists fd fd', peer_of a fd = Some (b, fd')).

Lemma flush_possible fd n c :
  conns n !! fd = Some c -> write_buf c <> [] ->
  exists n', on_writable fd [Z.of_nat (length (write_buf c))] n [] = Returned n' [].
Proof.
  intros Hc Hw. unfold on_writable. rewrite Hc. cbn [write_loop].
  assert (length (write_buf c) <> 0)%nat as Hlen by (by destruct (write_buf c)).
  destruct (Nat.eqb_spec (length (write_buf c)) 0) as [|_]; [done|].
  destruct (Z.ltb_spec (Z.of_nat (length (write_buf c))) 0) as [|_]; [lia|].
  destruct (Z.eqb_spec (Z.of_nat (length (write_buf c))) 0) as [|_]; [lia|].
  destruct (_ =? 0)%nat; eauto.
Qed.

(** As long as a copy is in flight some step is possible. *)
Lemma quiescent_empty w M i fd j fd' :
  inv w M -> quiescent w -> i ∈ dom (nodes w) -> peer_of i fd = Some (j, fd') -> M i fd = [].
Proof.
  intros Hinv Hq [ni Hi]%elem_of_dom Hp. destruct (inv_mesh _ w M Hinv i ni Hi) as [Md Ml _ _ _ _].
  destruct (proj2 (Md fd)) as [ci Hci]; [by rewrite Hp|]. destruct (Ml fd ci j fd' Hci Hp) as (_ & Hback & nj & Hj & _).
  destruct (inv_mesh _ w M Hinv j nj Hj) as [Mdj _ _ _ _ _]. destruct (proj2 (Mdj fd')) as [cj Hcj]; [by rewrite Hback|].
  destruct (inv_streams _ w M Hinv i fd j fd' Hp (write_buf ci) (dec cj)) as [He E];
    [by rewrite (queued_node _ _ ni), Hci by done|by rewrite (decoder_node _ _ nj), Hcj by done|].
  destruct (M i fd) as [|m rest] eqn:EM; [done|]. exfalso.
  destruct (decide (write_buf ci = [])) as [Ew|Ew].
  2: { destruct (flush_possible fd ni ci Hci Ew) as [n' Hn']. eapply Hq, step_flush; [exact Hi|exact Hci| |exact Hn'].
       destruct (write_buf ci); [done|cbn; lia]. }
  destruct (decide (wire w !!! (i, fd) = [])) as [Et|Et].
  2: { eapply Hq, (step_read peer_of w j fd' i fd nj (wire w !!! (i, fd)) []); [done|done|by rewrite Hcj|by rewrite app_nil_r|done]. }
  rewrite Ew, Et, !app_nil_r in E.
  destruct (inv_copies _ w M Hinv i fd m) as (mid & p & t & [Cp -> Ct _ _]); [rewrite EM; by left|].
  destruct (inv_pubs _ w M Hinv mid p Cp) as [_ _ Hfits _]. destruct (Hfits t Ct) as [_ Hok].
  assert (exists d', try_pop (dec cj) = (kFrameReady (pb_serialize (copy mid p t)), d')) as [d' Htry].
  { destruct (dec cj) as [b e msg]. cbn [error_ buf_] in He, E. subst e b. rewrite encoded_cons, try_pop_encoded by done. eauto. }
  assert (exists n' calls, pop_frame fd' nj = (kFrameReady (pb_serialize (copy mid p t)), n', calls)) as (n' & calls & Hpop).
  { unfold pop_frame. rewrite Hcj, Htry. destruct (handle_frame _ _ _) as [n' calls]. eauto. }
  by eapply Hq, step_pop.
Qed.

Lemma quiescent_covers w M mid p j :
  inv w M -> quiescent w -> pubs w !! mid = Some p -> Z.of_nat (size (nodes w)) <= pub_ttl p + 1 ->
  connected (pub_origin p) j -> j ∈ seen w mid.
Proof.
  intros Hinv Hq Hp Hsz Hconn.
  assert (pub_origin p ∈ seen w mid) as Ho.
  { destruct (pub_at _ _ _ (inv_pubs _ w M Hinv mid p Hp)) as (no & Hno & Hso & _). apply elem_of_seen. eauto. }
  revert Ho. induction Hconn as [a|a b k (fd & fd' & Hab) _ IH]; intros Ha; [done|]. apply IH.
  destruct (inv_cover _ w M Hinv mid p a fd b fd' Hp Hsz Ha Hab) as [|(t & Ht)]; [done|].
  rewrite (quiescent_empty w M a fd b fd') in Ht; try done; [by apply not_elem_of_nil in Ht|].
  apply elem_of_seen in Ha as (na & Hna & _). by apply elem_of_dom.
Qed.

Lemma calls_of_unknown w M j mid :
  inv w M -> nodes w !! j = None \/ mid ∉ dom (pubs w) -> calls_of j mid w = [].
Proof.
  intros Hinv Hno. unfold calls_of. destruct (filter _ (log w)) as [|[[j' x] c] l] eqn:Ef; [done|]. exfalso.
  assert ((j', x, c) ∈ filter (fun e : nat * bytes * TopicCall => e.1 = (j, mid)) (log w)) as Hin by (rewrite Ef; by left).
  apply list_elem_of_filter in Hin as [[= -> ->] Hin].
  apply (inv_log _ w M Hinv) in Hin as [[? ?] Hin]. destruct Hno; congruence.
Qed.

(** C11: Publishing floods the network exactly once.  In a mesh whose handshakes
    are done and whose carry guards permit, with any number of concurrent
    publications (at most 4096 ids), bytes moving and frames being handled in any
    order: no node is ever called twice for a publication, and when nothing more
    can move, every node connected to the publisher has seen the message and its
    callback has run exactly once, with the published payload and origin, if it
    subscribes to the topic and is not the publisher, provided the publication
    started with at least as many hops as there are other nodes. *)
Theorem gossip_flood (w0 w : World) (Hrest : at_rest peer_of w0) (Hreach : reachable peer_of w0 w) :
  (forall j mid, (length (calls_of j mid w) <= 1)%nat) /\
  (quiescent w -> forall mid p j n, pubs w !! mid = Some p -> Z.of_nat (size (nodes w)) <= pub_ttl p + 1 ->
     nodes w !! j = Some n -> connected (pub_origin p) j ->
     calls_of j mid w = if decide (wants p j n) then [the_call p] else []).
Proof.
  destruct (inv_reachable w0 w Hrest Hreach) as [M Hinv]. split.
  - intros j mid. destruct (nodes w !! j) as [n|] eqn:Hj; [|rewrite (calls_of_unknown w M); [cbn; lia|done|by left]].
    destruct (pubs w !! mid) as [p|] eqn:Hp.
    + rewrite (inv_calls _ w M Hinv j n mid p Hj Hp). destruct (decide _); cbn; lia.
    + rewrite (calls_of_unknown w M); [cbn; lia|done|right; by apply not_elem_of_dom].
  - intros Hq mid p j n Hp Hsz Hj Hconn. rewrite (inv_calls _ w M Hinv j n mid p Hj Hp). apply decide_ext.
    pose proof (quiescent_covers w M mid p j Hinv Hq Hp Hsz Hconn). tauto.
Qed.

(** ** The flood ends *)

Section sums.
Context {K A : Type} `{Countable K} (f : A -> nat).

Definition sum_map (m : gmap K A) : nat := map_fold (fun _ x acc => (f x + acc)%nat) 0%nat m.

Lemma sum_map_insert (m : gmap K A) (k : K) (x : A) :
  m !! k = None -> sum_map (<[k := x]> m) = (f x + sum_map m)%nat.
Proof. intros Hk. unfold sum_map. rewrite map_fold_insert_L; [done|intros; lia|done]. Qed.

Lemma sum_map_update (m : gmap K A) (k : K) (x y : A) :
  m !! k = Some x -> (sum_map (<[k := y]> m) + f x = sum_map m + f y)%nat.
Proof.
  intros Hk. rewrite <- (insert_delete_id m k x) at 2 by done. rewrite <- insert_delete_eq.
  rewrite !sum_map_insert by apply lookup_delete_eq. lia.
Qed.

Lemma sum_map_total `{Inhabited A} (m : gmap K A) (k : K) (y : A) :
  f inhabitant = 0%nat -> (sum_map (<[k := y]> m) + f (m !!! k) = sum_map m + f y)%nat.
Proof.
  intros Hz. destruct (m !! k) as [x|] eqn:Hk.
  - rewrite (lookup_total_correct m k x) by done. by apply sum_map_update.
  - rewrite lookup_total_alt, Hk. cbn. rewrite Hz, sum_map_insert by done. lia.
Qed.
End sums.

Definition conn_weight (c : PeerConn) : nat := (3 * length (write_buf c) + length (buf_ (dec c)))%nat.
Definition node_weight (n : P2PNode) : nat := sum_map conn_weight (conns n).
(** Bytes weigh less the further they have come. *)
Definition weight (w : World) : nat :=
  (sum_map node_weight (nodes w) + sum_map (fun b : bytes => 2 * length b) (wire w))%nat.

(** Nodes that have yet to see a publication, over all publications. *)
Definition unseen (w : World) : nat :=
  sum_list_with (fun mid => size (nodes w) - size (seen w mid))%nat (map_to_list (pubs w)).*1.

Lemma sum_list_with_le {A} (f g : A -> nat) (l : list A) :
  (forall x, x ∈ l -> f x <= g x)%nat -> (sum_list_with f l <= sum_list_with g l)%nat.
Proof.
  induction l as [|x l IH]; intros Hle; [done|]. cbn. pose proof (Hle x (list_elem_of_here _ _)).
  specialize (IH (fun y Hy => Hle y (list_elem_of_further _ _ _ Hy))). lia.
Qed.

Lemma sum_list_with_lt {A} (f g : A -> nat) (l : list A) a :
  (forall x, x ∈ l -> f x <= g x)%nat -> a ∈ l -> (f a < g a)%nat -> (sum_list_with f l < sum_list_with g l)%nat.
Proof.
  intros Hle Ha Hlt. induction Ha as [|a b l Ha IH]; cbn.
  - pose proof (sum_list_with_le f g l (fun y Hy => Hle y (list_elem_of_further _ _ _ Hy))). lia.
  - pose proof (Hle b (list_elem_of_here _ _)). specialize (IH (fun y Hy => Hle y (list_elem_of_further _ _ _ Hy)) Hlt). lia.
Qed.

Lemma weight_update ns wr ps l i n n' k b :
  ns !! i = Some n ->
  (weight (mkWorld (<[i := n']> ns) (<[k := b]> wr) ps l) + node_weight n + 2 * length (wr !!! k) =
   weight (mkWorld ns wr ps l) + node_weight n' + 2 * length b)%nat.
Proof.
  intros Hn. unfold weight. cbn [nodes wire].
  pose proof (sum_map_update node_weight ns i n n' Hn).
  pose proof (sum_map_total (fun b : bytes => 2 * length b)%nat wr k b eq_refl). cbn beta in *. lia.
Qed.

Lemma weight_node ns wr ps l ps' l' i n n' :
  ns !! i = Some n ->
  (weight (mkWorld (<[i := n']> ns) wr ps' l') + node_weight n = weight (mkWorld ns wr ps l) + node_weight n')%nat.
Proof.
  intros Hn. unfold weight. cbn [nodes wire]. pose proof (sum_map_update node_weight ns i n n' Hn). lia.
Qed.

Lemma seen_mono w j n n' wr l x :
  nodes w !! j = Some n -> (x ∈ seen_set n -> x ∈ seen_set n') ->
  seen w x ⊆ seen (mkWorld (<[j := n']> (nodes w)) wr (pubs w) l) x.
Proof.
  intros Hn Hx k (nk & Hk & Hs)%elem_of_seen. apply elem_of_seen. cbn [nodes]. destruct (decide (k = j)) as [->|Hne].
  - exists n'. rewrite lookup_insert_eq. split; [done|]. apply Hx. congruence.
  - exists nk. by rewrite lookup_insert_ne.
Qed.

Lemma unseen_le w j n n' wr l :
  nodes w !! j = Some n -> (forall x, x ∈ dom (pubs w) -> x ∈ seen_set n -> x ∈ seen_set n') ->
  (unseen (mkWorld (<[j := n']> (nodes w)) wr (pubs w) l) <= unseen w)%nat.
Proof.
  intros Hn Hx. unfold unseen. cbn [pubs nodes]. apply sum_list_with_le. intros x Hin.
  rewrite (size_update _ _ n) by done. assert (x ∈ dom (pubs w)) as Hd.
  { apply list_elem_of_fmap in Hin as ((y & p) & -> & Hin). apply elem_of_map_to_list in Hin. by apply elem_of_dom. }
  pose proof (subseteq_size _ _ (seen_mono w j n n' wr l x Hn (Hx x Hd))). lia.
Qed.

Lemma unseen_lt w j n n' wr l mid :
  nodes w !! j = Some n -> (forall x, x ∈ dom (pubs w) -> x ∈ seen_set n -> x ∈ seen_set n') ->
  mid ∈ dom (pubs w) -> mid ∉ seen_set n -> mid ∈ seen_set n' ->
  (unseen (mkWorld (<[j := n']> (nodes w)) wr (pubs w) l) < unseen w)%nat.
Proof.
  intros Hn Hx Hmid Hnin Hin. unfold unseen. cbn [pubs nodes]. apply (sum_list_with_lt _ _ _ mid).
  - intros x Hl. rewrite (size_update _ _ n) by done. assert (x ∈ dom (pubs w)) as Hd.
    { apply list_elem_of_fmap in Hl as ((y & p) & -> & Hl). apply elem_of_map_to_list in Hl. by apply elem_of_dom. }
    pose proof (subseteq_size _ _ (seen_mono w j n n' wr l x Hn (Hx x Hd))). lia.
  - apply elem_of_dom in Hmid as [p Hp]. apply list_elem_of_fmap. exists (mid, p). by rewrite elem_of_map_to_list.
  - rewrite (size_update _ _ n) by done. pose proof (seen_full w mid j n Hn Hnin).
    assert (seen w mid ⊂ seen (mkWorld (<[j := n']> (nodes w)) wr (pubs w) l) mid) as Hss%subset_size; [|lia].
    split; [by apply (seen_mono w j n); auto|]. intros Hsub.
    assert (j ∈ seen w mid) as (m & Hm & Hs)%elem_of_seen; [|congruence].
    apply Hsub, elem_of_seen. exists n'. cbn [nodes]. by rewrite lookup_insert_eq.
Qed.

Lemma conn_update_weight n fd c c' :
  conns n !! fd = Some c ->
  (node_weight (set_conns (<[fd := c']> (conns n)) n) + conn_weight c = node_weight n + conn_weight c')%nat.
Proof. intros Hc. unfold node_weight. cbn [conns set_conns]. by apply sum_map_update. Qed.

Definition smaller (w' w : World) : Prop :=
  (unseen w' < unseen w)%nat \/ (unseen w' <= unseen w /\ weight w' < weight w)%nat.

Lemma world_eta w : w = mkWorld (nodes w) (wire w) (pubs w) (log w).
Proof. by destruct w. Qed.

Lemma flush_smaller w i fd k n n' c :
  nodes w !! i = Some n -> conns n !! fd = Some c -> (0 < k <= length (write_buf c))%nat ->
  on_writable fd [Z.of_nat k] n [] = Returned n' [] ->
  smaller (mkWorld (<[i := n']> (nodes w)) (<[(i, fd) := (wire w !!! (i, fd)) ++ take k (write_buf c)]> (wire w)) (pubs w) (log w)) w.
Proof.
  intros Hn Hc Hk Hw. destruct (on_writable_flush fd k n n' c Hc Hk Hw) as [want ->]. right. split.
  - by apply (unseen_le w i n).
  - pose proof (weight_update (nodes w) (wire w) (pubs w) (log w) i n
      (set_conns (<[fd := set_write (drop k (write_buf c)) want c]> (conns n)) n) (i, fd)
      ((wire w !!! (i, fd)) ++ take k (write_buf c)) Hn) as E.
    pose proof (conn_update_weight n fd c (set_write (drop k (write_buf c)) want c) Hc) as Ec.
    rewrite <- world_eta in E. unfold conn_weight in Ec. cbn [write_buf dec set_write] in Ec.
    rewrite length_drop in Ec. rewrite length_app, length_take in E. lia.
Qed.

Lemma read_smaller w M j fd i fd' n b rest :
  inv w M -> peer_of j fd = Some (i, fd') -> nodes w !! j = Some n -> is_Some (conns n !! fd) ->
  wire w !!! (i, fd') = b ++ rest -> b <> [] ->
  smaller (mkWorld (<[j := feed_conn fd b n]> (nodes w)) (<[(i, fd') := rest]> (wire w)) (pubs w) (log w)) w.
Proof.
  intros Hinv Hp Hn [c Hc] Hw Hb. right. split; [by apply (unseen_le w j n)|].
  assert (feed_conn fd b n = set_conns (<[fd := set_dec (feed (dec c) b) c]> (conns n)) n) as ->.
  { unfold feed_conn. f_equal. apply map_eq. intros x. destruct (decide (x = fd)) as [->|];
      [by rewrite lookup_alter_eq, lookup_insert_eq, Hc|by rewrite lookup_alter_ne, lookup_insert_ne]. }
  pose proof (weight_update (nodes w) (wire w) (pubs w) (log w) j n
    (set_conns (<[fd := set_dec (feed (dec c) b) c]> (conns n)) n) (i, fd') rest Hn) as E.
  pose proof (conn_update_weight n fd c (set_dec (feed (dec c) b) c) Hc) as Ec.
  rewrite <- world_eta in E. unfold conn_weight in Ec. cbn [write_buf dec set_dec] in Ec.
  assert (length (buf_ (feed (dec c) b)) <= length (buf_ (dec c)) + length b)%nat.
  { unfold feed. destruct (error_ (dec c)); cbn [buf_]; rewrite ?length_app; lia. }
  rewrite Hw, length_app in E. assert (0 < length b)%nat by (destruct b; [done|cbn; lia]). lia.
Qed.

Lemma pop_smaller w M j fd n frame n' calls :
  inv w M -> nodes w !! j = Some n -> pop_frame fd n = (kFrameReady frame, n', calls) ->
  smaller (mkWorld (<[j := n']> (nodes w)) (wire w) (pubs w) (log w ++ ((fun c => (j, frame_mid frame, c)) <$> calls))) w.
Proof.
  intros Hinv Hn Hpop.
  destruct (popped_copy w M j fd n frame n' calls Hinv Hn Hpop)
    as (c & d' & i & fd' & rest & mid & p & t & Hc & Hpj & Hpi & EM & Hcopy & Hok & -> & Hall & Hh & Htry).
  unfold handle_publish in Hh.
  destruct (Nat.eqb_spec (length mid) 0) as [E0|_]; [by apply nil_length_inv in E0; destruct (pub_mid _ _ _ Hok)|].
  assert (mid ∈ dom (pubs w)) as Hmid by (destruct Hcopy; by apply elem_of_dom).
  destruct (decide (mid ∈ seen_set n)) as [Hin|Hnin].
  - unfold seen_recently in Hh. rewrite bool_decide_true in Hh by done. injection Hh as <- <-. right.
    split; [by apply (unseen_le w j n)|].
    pose proof (weight_node (nodes w) (wire w) (pubs w) (log w) (pubs w)
      (log w ++ ((fun c => (j, mid, c)) <$> [])) j n (popped fd d' n) Hn) as E.
    rewrite <- world_eta in E. rewrite (popped_eq fd d' n c Hc) in E |- *.
    pose proof (conn_update_weight n fd c (set_dec d' c) Hc) as Ec. unfold conn_weight in Ec. cbn [write_buf dec set_dec] in Ec.
    apply try_pop_length in Htry. lia.
  - destruct (seen_recently_new (pubs w) mid (popped fd d' n)) as (o & s & Esr & _ & Hset);
      [apply (inv_cache _ w M Hinv j n Hn)|done|apply (inv_cap _ w M Hinv)|done|].
    rewrite Esr in Hh. left.
    assert (seen_set n' = s) as Es by (destruct (t =? 0); by injection Hh as <- <-).
    apply (unseen_lt w j n n' _ _ mid); try done; rewrite Es; [|by apply Hset; [|left]].
    intros x Hx Hxs. apply Hset; [done|]. by right.
Qed.

Lemma step_smaller w M w' : inv w M -> net_step peer_of w w' -> smaller w' w /\ exists M', inv w' M'.
Proof.
  intros Hinv Hs. destruct Hs; split.
  - by eapply flush_smaller.
  - eexists. by eapply inv_flush.
  - by eapply read_smaller.
  - eexists. by eapply inv_read.
  - by eapply pop_smaller.
  - by eapply inv_pop.
Qed.

(** A gossip storm ends.  Whatever was published in a mesh, the network by
    itself takes only finitely many steps in every order of events: each takes up
    a publication at one more node, or moves bytes closer to their receiver. *)
Theorem gossip_settles (w0 w : World) (Hrest : at_rest peer_of w0) (Hreach : reachable peer_of w0 w) :
  Acc (fun w2 w1 => net_step peer_of w1 w2) w.
Proof.
  destruct (inv_reachable w0 w Hrest Hreach) as [M Hinv]. clear Hreach.
  remember (unseen w) as u eqn:Eu. assert (unseen w <= u)%nat as Hu by lia. clear Eu. revert w M Hinv Hu.
  induction u as [u IHu] using lt_wf_ind. intros w. remember (weight w) as v eqn:Ev. revert w Ev.
  induction v as [v IHv] using lt_wf_ind. intros w -> M Hinv Hu. constructor. intros w' Hs.
  destruct (step_smaller w M w' Hinv Hs) as [[Hlt|[Hle Hlt]] [M' Hinv']].
  - by apply (IHu (unseen w') ltac:(lia) w' M').
  - eapply (IHv (weight w')); [lia|done|exact Hinv'|lia].
Qed.
End flood.

(** ** The event handler of a gossip node

    Queued bytes are always watched for, a readable event is a sequence of the
    steps the network is made of, and a failed write locks the node up. *)
From S2P Require Import Prelude StdMap Crypto FrameCodec Kademlia Gossip GossipNet.
Import Gossip.

Section events.
Context `{!ProtoMsg P2PMessage}.

(** ** Queued bytes are watched for *)

Definition conn_watched (c : PeerConn) : Prop := write_buf c <> [] -> want_out c = true.
Definition watched (n : P2PNode) : Prop := map_Forall (fun _ => conn_watched) (conns n).

Lemma watched_conns n m : map_Forall (fun _ => conn_watched) m -> watched (set_conns m n).
Proof. done. Qed.

Lemma watched_alter n fd (f : PeerConn -> PeerConn) :
  (forall c, conn_watched c -> conn_watched (f c)) -> watched n -> watched (set_conns (alter f fd (conns n)) n).
Proof.
  intros Hf Hn. apply watched_conns. intros x c Hc. apply lookup_alter_Some in Hc as [(<- & c0 & Hc & ->)|[_ Hc]].
  - by apply Hf, (Hn fd).
  - by apply (Hn x).
Qed.

Lemma watched_enqueue fd payload n : watched n -> watched (enqueue fd payload n).
Proof. by apply watched_alter. Qed.

Lemma watched_enqueue_where P payload n : watched n -> watched (enqueue_where P payload n).
Proof.
  intros Hn. apply watched_conns. intros x c Hc. rewrite map_lookup_imap in Hc.
  destruct (conns n !! x) as [c0|] eqn:E; [|done]. injection Hc as <-. destruct (P x c0); [done|by apply (Hn x)].
Qed.

Lemma watched_subscriptions fd n : watched n -> watched (send_my_subscriptions fd n).
Proof.
  unfold send_my_subscriptions. generalize (set_elements (my_topics n)). intros l. revert n.
  induction l as [|t l IH]; intros n Hn; [done|]. by apply IH, watched_enqueue.
Qed.

Lemma watched_handshake fd p n : watched n -> watched (on_handshake_observed fd p n).
Proof. intros Hn. apply watched_subscriptions. by apply (watched_alter n). Qed.

Lemma watched_observe_other p n : watched n -> watched (observe_other p n).
Proof. unfold observe_other. by case_bool_decide. Qed.

Lemma watched_seen mid n : watched n -> watched (seen_recently mid n).2.
Proof.
  intros Hn. unfold seen_recently. case_bool_decide; [done|].
  destruct (_ <=? _)%nat; [|done]. by destruct (seen_order n).
Qed.

Lemma watched_publish fd from topic mid payload ttl n : watched n -> watched (handle_publish fd from topic mid payload ttl n).1.
Proof.
  intros Hn. unfold handle_publish. destruct (_ =? 0)%nat; [done|]. pose proof (watched_seen mid n Hn) as Hs.
  destruct (seen_recently mid n) as [[] n2]; [done|]. destruct (ttl =? 0); [done|]. by apply watched_enqueue_where.
Qed.

#[local] Hint Resolve watched_enqueue watched_enqueue_where watched_handshake watched_observe_other watched_publish : finbit.

Lemma watched_handle_frame fd b n : watched n -> watched (handle_frame fd b n).1.
Proof.
  intros Hn. unfold handle_frame. destruct (pb_parse b) as [[]|]; cbn [fst]; auto with finbit.
  - apply watched_enqueue. case_bool_decide; auto with finbit.
  - case_bool_decide; auto with finbit.
  - destruct (negb _); cbn [fst]; auto with finbit.
  - generalize (watched_observe_other (from_proto from) n Hn). generalize (observe_other (from_proto from) n).
    induction peers as [|p l IH]; intros n1 Hn1; [done|]. cbn [foldl]. by apply IH, watched_observe_other.
  - by case_bool_decide.
Qed.

Lemma watched_drain fuel fd n calls : watched n -> watched (drain fuel fd n calls).1.2.
Proof.
  revert n calls. induction fuel as [|fuel IH]; intros n calls Hn; [done|]. cbn [drain].
  assert (watched (pop_frame fd n).1.2) as Hpop.
  { unfold pop_frame. destruct (conns n !! fd) as [c|]; [|done]. destruct (try_pop (dec c)) as [st d].
    assert (watched (set_conns (alter (set_dec d) fd (conns n)) n)) as Hd by (by apply watched_alter).
    destruct st as [|frame|]; [done| |done]. pose proof (watched_handle_frame fd frame _ Hd).
    by destruct (handle_frame fd frame _). }
  destruct (pop_frame fd n) as [[st n1] new]. destruct st; [done|by apply IH|done].
Qed.

Definition outcome_watched (r : Outcome) : Prop := match r with Returned n _ => watched n | SelfDeadlock => True end.

Lemma watched_close locked fd n calls : watched n -> outcome_watched (close_conn locked fd n calls).
Proof.
  intros Hn. unfold close_conn. destruct locked; [done|]. destruct (conns n !! fd); [|done]. cbn.
  by apply map_Forall_delete.
Qed.

Lemma watched_read_loop fd chunks closed n calls : watched n -> outcome_watched (read_loop fd chunks closed n calls).1.
Proof.
  revert n calls. induction chunks as [|b chunks IH]; intros n calls Hn; cbn [read_loop].
  - destruct closed; [by apply watched_close|done].
  - assert (watched (feed_conn fd b n)) as Hf by (by apply watched_alter).
    pose proof (watched_drain (drain_fuel fd (feed_conn fd b n)) fd _ calls Hf) as Hd.
    destruct (drain _ fd (feed_conn fd b n) calls) as [[st n1] calls1].
    destruct st; [destruct (_ <? _)%nat; [done|by apply IH]|destruct (_ <? _)%nat; [done|by apply IH]|by apply watched_close].
Qed.

Lemma watched_on_writable fd ws n calls : watched n -> outcome_watched (on_writable fd ws n calls).
Proof.
  intros Hn. unfold on_writable. destruct (conns n !! fd) as [c|]; [|done]. destruct (write_loop fd ws c) as [c'|]; [|done].
  cbn. apply map_Forall_insert_2; [|done]. intros Hw. cbn in Hw |- *. by destruct (write_buf c').
Qed.

(** Whatever arrives and whatever the sockets do, a connection with bytes left to
    send is registered for [EPOLLOUT], so they are never forgotten. *)
Theorem queued_bytes_watched (fd : Z) (hup : bool) (reads : option (list bytes * bool)) (writes : option (list Z)) (n : P2PNode)
    (Hn : watched n) :
  outcome_watched (on_conn_event fd hup reads writes n) /\
  (forall topic, watched (subscribe topic n) /\ watched (unsubscribe topic n)) /\
  (forall topic payload ttl mid, watched (publish topic payload ttl mid n)) /\
  (forall is_out remote nonce, watched (register_conn fd is_out remote nonce n)).
Proof.
  split_and!.
  - unfold on_conn_event. destruct (conns n !! fd); [|done]. destruct hup; [by apply watched_close|].
    assert (forall r stop, outcome_watched r ->
      outcome_watched (match r, writes with
        | Returned n calls, Some ws => if stop : bool then r else on_writable fd ws n calls | _, _ => r end)) as Hw.
    { intros r stop Hr. destruct r as [n1 c1|], writes as [ws|]; try done. destruct stop; [done|by apply watched_on_writable]. }
    destruct reads as [[chunks closed]|]; [|by apply (Hw (Returned n []) false)].
    pose proof (watched_read_loop fd chunks closed n [] Hn) as Hr. destruct (read_loop fd chunks closed n []) as [r stop].
    by apply Hw.
  - intros topic. split; by apply watched_enqueue_where.
  - intros topic payload ttl mid. apply watched_enqueue_where. by apply watched_seen.
  - intros is_out remote nonce. apply watched_enqueue. apply map_Forall_insert_2; [intros Hw; by destruct Hw|exact Hn].
Qed.

(** ** The drain loop ends by itself *)

Lemma alter_same n fd c : conns n !! fd = Some c -> set_conns (alter (set_dec (dec c)) fd (conns n)) n = n.
Proof.
  intros Hc. assert (alter (set_dec (dec c)) fd (conns n) = conns n) as ->; [|by destruct n].
  apply map_eq. intros x. destruct (decide (x = fd)) as [->|]; [|by rewrite lookup_alter_ne].
  rewrite lookup_alter_eq, Hc. cbn. by destruct c.
Qed.

Definition decs (n : P2PNode) : gmap Z FrameDecoder := dec <$> conns n.

Lemma decs_alter fd (f : PeerConn -> PeerConn) n :
  (forall c, dec (f c) = dec c) -> decs (set_conns (alter f fd (conns n)) n) = decs n.
Proof.
  intros Hf. unfold decs. cbn [conns set_conns]. apply map_eq. intros x. rewrite !lookup_fmap.
  destruct (decide (x = fd)) as [->|]; [rewrite lookup_alter_eq|by rewrite lookup_alter_ne].
  destruct (conns n !! fd); cbn; by rewrite ?Hf.
Qed.

Lemma decs_enqueue fd payload n : decs (enqueue fd payload n) = decs n.
Proof. by apply decs_alter. Qed.

Lemma decs_enqueue_where P payload n : decs (enqueue_where P payload n) = decs n.
Proof.
  unfold decs. apply map_eq. intros x. rewrite !lookup_fmap, lookup_enqueue_where.
  destruct (conns n !! x) as [c|]; [|done]. cbn. by destruct (P x c).
Qed.

Lemma decs_observe_other p n : decs (observe_other p n) = decs n.
Proof. unfold observe_other. by case_bool_decide. Qed.

Lemma decs_handshake fd p n : decs (on_handshake_observed fd p n) = decs n.
Proof.
  unfold on_handshake_observed, send_my_subscriptions. rewrite <- (decs_alter fd (set_peer p) n) by done.
  set (n1 := set_conns _ n). change (decs n1) with (decs (observe_peer p (set_id_to_fd (<[Kademlia.id p := fd]> (id_to_fd n1)) n1))).
  set (n2 := observe_peer p _). generalize (set_elements (my_topics n2)). intros l. generalize n2.
  induction l as [|t l IH]; intros m; [done|]. cbn [foldl]. by rewrite IH, decs_enqueue.
Qed.

Lemma decs_publish fd from topic mid payload ttl n : decs (handle_publish fd from topic mid payload ttl n).1 = decs n.
Proof.
  unfold handle_publish. destruct (_ =? 0)%nat; [done|].
  assert (decs (seen_recently mid n).2 = decs n) as Hs.
  { unfold seen_recently. case_bool_decide; [done|]. destruct (_ <=? _)%nat; [|done]. by destruct (seen_order n). }
  destruct (seen_recently mid n) as [[] n2]; [done|]. destruct (ttl =? 0); [done|]. cbn [fst]. by rewrite decs_enqueue_where.
Qed.

Lemma decs_handle_frame fd b n : decs (handle_frame fd b n).1 = decs n.
Proof.
  unfold handle_frame. destruct (pb_parse b) as [[]|]; cbn [fst]; try done.
  - rewrite decs_enqueue. case_bool_decide; [done|apply decs_handshake].
  - case_bool_decide; [done|apply decs_handshake].
  - destruct (negb _); cbn [fst]; by rewrite ?decs_enqueue, decs_observe_other.
  - rewrite <- (decs_observe_other (from_proto from) n). generalize (observe_other (from_proto from) n).
    induction peers as [|p l IH]; intros m; [done|]. cbn [foldl]. by rewrite IH, decs_observe_other.
  - by case_bool_decide.
  - apply decs_publish.
Qed.

Lemma pop_frame_shrinks fd n frame n' calls :
  pop_frame fd n = (kFrameReady frame, n', calls) -> (drain_fuel fd n' < drain_fuel fd n)%nat.
Proof.
  intros Hpop. destruct (pop_frame_ready fd n frame n' calls Hpop) as (c & d' & Hc & Htry & Hh).
  pose proof (decs_handle_frame fd frame (popped fd d' n)) as Hd. rewrite Hh in Hd. cbn [fst] in Hd.
  apply (f_equal (fun m => m !! fd)) in Hd. unfold decs in Hd. rewrite !lookup_fmap, (popped_eq fd d' n c Hc) in Hd.
  cbn [conns set_conns] in Hd. rewrite lookup_insert_eq in Hd. unfold drain_fuel. rewrite Hc.
  destruct (conns n' !! fd) as [c'|]; [|done]. injection Hd as ->. apply try_pop_length in Htry. cbn [dec set_dec]. lia.
Qed.

(** The fuel of the read loop is enough: the drain stops because no complete
    frame is left. *)
Lemma drain_complete fd n calls :
  let '(st, n', _) := drain (drain_fuel fd n) fd n calls in
  match st with kFrameReady _ => False | kNeedMore => (pop_frame fd n').1.1 = kNeedMore | kError => True end.
Proof.
  enough (forall fuel n calls, (drain_fuel fd n <= fuel)%nat ->
    let '(st, n', _) := drain fuel fd n calls in
    match st with kFrameReady _ => False | kNeedMore => (pop_frame fd n').1.1 = kNeedMore | kError => True end) as Hgen
    by by apply Hgen.
  clear n calls. induction fuel as [|fuel IH]; intros n calls Hf.
  { unfold drain_fuel in Hf. destruct (conns n !! fd); lia. }
  cbn [drain]. destruct (pop_frame fd n) as [[st n1] new] eqn:Hpop. destruct st as [|frame|]; [|apply IH|done].
  - assert (n1 = n) as ->; [|by rewrite Hpop]. unfold pop_frame in Hpop. destruct (conns n !! fd) as [c|] eqn:Hc; [|by injection Hpop].
    destruct (try_pop (dec c)) as [[|out|] d] eqn:Htry; [|by destruct (handle_frame fd out _)|done].
    apply try_pop_need_more in Htry as [-> _]. rewrite (alter_same n fd c Hc) in Hpop. by injection Hpop.
  - apply pop_frame_shrinks in Hpop. lia.
Qed.

(** ** A failed write *)

(** A write error is handled with the mutex held, and closing the connection
    locks it again: the thread never returns. *)
Theorem write_error_deadlocks (fd : Z) (n : P2PNode) (c : PeerConn) (ws : list Z)
    (Hc : conns n !! fd = Some c) (Hw : write_buf c <> []) :
  on_conn_event fd false None (Some (-1 :: ws)) n = SelfDeadlock.
Proof.
  unfold on_conn_event. rewrite Hc. unfold on_writable. rewrite Hc. cbn [write_loop].
  destruct (Nat.eqb_spec (length (write_buf c)) 0) as [E|_]; [by apply nil_length_inv in E|done].
Qed.
End events.

(** ** A readable event is a sequence of network steps *)

Section steps.
Context `{!ProtoMsg P2PMessage, !PublishCodec}.
Variable peer_of : nat -> Z -> option (nat * Z).

Local Abbreviation inv := (inv peer_of).
Local Abbreviation steps := (rtc (net_step peer_of)).

(** On a stream of whole frames the decoder never fails. *)
Lemma stream_no_error d d' ms tail :
  error_ d = false -> Forall (fun m => frame_ok (pb_serialize m)) ms -> buf_ d ++ tail = encoded ms -> try_pop d <> (kError, d').
Proof.
  intros He Hms E Htry. destruct d as [b e msg]. cbn [error_ buf_] in *. subst e.
  apply (try_pop_app_error _ _ _ tail) in Htry as [d'' Htry]. rewrite E in Htry.
  destruct Hms as [|m ms Hm _]; [done|]. by rewrite encoded_cons, try_pop_encoded in Htry.
Qed.

Lemma inv_frames w M i fd : inv w M -> Forall (fun m => frame_ok (pb_serialize m)) (M i fd).
Proof.
  intros Hinv. apply Forall_forall. intros m Hm. destruct (inv_copies _ w M Hinv i fd m Hm) as (mid & p & t & [Cp -> Ct _ _]).
  destruct (inv_pubs _ w M Hinv mid p Cp) as [_ _ Hfits _]. by apply Hfits.
Qed.

Lemma inv_receiver w M j fd n c :
  inv w M -> nodes w !! j = Some n -> conns n !! fd = Some c ->
  exists ms tail, error_ (dec c) = false /\ Forall (fun m => frame_ok (pb_serialize m)) ms /\ buf_ (dec c) ++ tail = encoded ms.
Proof.
  intros Hinv Hn Hc. destruct (inv_mesh _ w M Hinv j n Hn) as [Md Ml _ _ _ _].
  destruct (proj1 (Md fd)) as [[i fd'] Hpj]; [by rewrite Hc|]. destruct (Ml fd c i fd' Hc Hpj) as (_ & Hpi & ni & Hi & _).
  destruct (inv_mesh _ w M Hinv i ni Hi) as [Mdi _ _ _ _ _]. destruct (proj2 (Mdi fd')) as [ci Hci]; [by rewrite Hpi|].
  destruct (inv_streams _ w M Hinv i fd' j fd Hpi (write_buf ci) (dec c)) as [He E];
    [by rewrite (queued_node _ _ ni), Hci by done|by rewrite (decoder_node _ _ n), Hc by done|].
  exists (M i fd'), ((wire w !!! (i, fd')) ++ write_buf ci). split_and!; try done. by eapply inv_frames.
Qed.

Lemma drain_steps fuel w M j fd n calls st n' calls' :
  inv w M -> nodes w !! j = Some n -> is_Some (conns n !! fd) -> drain fuel fd n calls = (st, n', calls') ->
  exists w' M', steps w w' /\ inv w' M' /\ nodes w' !! j = Some n' /\ is_Some (conns n' !! fd) /\ st <> kError /\ wire w' = wire w.
Proof.
  revert w M n calls. induction fuel as [|fuel IH]; intros w M n calls Hinv Hn Hc; cbn [drain].
  { intros [= <- <- <-]. exists w, M. split_and!; done. }
  destruct (pop_frame fd n) as [[st1 n1] new] eqn:Hpop. destruct st1 as [|frame|].
  - intros [= <- <- <-]. exists w, M. destruct Hc as [c Hc]. unfold pop_frame in Hpop. rewrite Hc in Hpop.
    destruct (try_pop (dec c)) as [[|out|] d] eqn:Htry; [|by destruct (handle_frame fd out _)|done].
    apply try_pop_need_more in Htry as [-> _]. rewrite (alter_same n fd c Hc) in Hpop. injection Hpop as <- <-.
    split_and!; try done; by rewrite ?Hc.
  - intros Hd. destruct (inv_pop peer_of w M j fd n frame n1 new Hinv Hn Hpop) as [M1 Hinv1].
    assert (nodes (mkWorld (<[j := n1]> (nodes w)) (wire w) (pubs w) (log w ++ ((fun c => (j, frame_mid frame, c)) <$> new))) !! j
      = Some n1) as Hn1 by (cbn; by rewrite lookup_insert_eq).
    assert (is_Some (conns n1 !! fd)) as Hc1.
    { destruct (inv_mesh _ _ _ Hinv1 j n1 Hn1) as [Md1 _ _ _ _ _], (inv_mesh _ _ _ Hinv j n Hn) as [Md _ _ _ _ _].
      by apply Md1, Md. }
    destruct (IH _ M1 n1 (calls ++ new) Hinv1 Hn1 Hc1 Hd) as (w' & M' & Hs & H').
    exists w', M'. split; [|exact H']. eapply rtc_l; [by eapply step_pop|exact Hs].
  - intros _. exfalso. destruct Hc as [c Hc]. destruct (inv_receiver w M j fd n c Hinv Hn Hc) as (ms & tail & He & Hms & E).
    unfold pop_frame in Hpop. rewrite Hc in Hpop. destruct (try_pop (dec c)) as [[|out|] d] eqn:Htry;
      [done|by destruct (handle_frame fd out _)|]. by eapply stream_no_error in Htry.
Qed.

(** What the handler does with bytes from the wire is what the network's steps
    do: it reads them and handles the complete frames. *)
Theorem read_event_is_steps (w0 w : World) (j i : nat) (fd fd' : Z) (n n' : P2PNode) (chunks : list bytes) (rest : bytes)
    (calls : list TopicCall)
    (Hrest : at_rest peer_of w0) (Hreach : reachable peer_of w0 w) (Hn : nodes w !! j = Some n)
    (Hp : peer_of j fd = Some (i, fd')) (Hwire : wire w !!! (i, fd') = mjoin chunks ++ rest)
    (Hchunks : Forall (fun b => b <> []) chunks)
    (Hev : on_conn_event fd false (Some (chunks, false)) None n = Returned n' calls) :
  exists w', steps w w' /\ nodes w' !! j = Some n'.
Proof.
  destruct (inv_reachable peer_of w0 w Hrest Hreach) as [M Hinv]. clear Hreach.
  destruct (proj2 (mesh_dom _ _ _ _ (inv_mesh _ w M Hinv j n Hn) fd)) as [c Hc]; [by rewrite Hp|].
  unfold on_conn_event in Hev. rewrite Hc in Hev. assert (is_Some (conns n !! fd)) as Hc' by (by rewrite Hc).
  assert ((read_loop fd chunks false n []).1 = Returned n' calls) as Hloop by (by destruct (read_loop fd chunks false n []) as [[] ?]).
  clear Hev Hc c. revert w M n Hinv Hn Hc' Hwire Hloop. generalize (@nil TopicCall) as acc.
  induction Hchunks as [|b chunks Hb Hchunks IH]; intros acc w M n Hinv Hn Hc Hwire Hloop; cbn [read_loop] in Hloop.
  { injection Hloop as <- <-. exists w. by split. }
  cbn in Hwire. rewrite <- app_assoc in Hwire. pose proof (inv_read peer_of w M j fd i fd' n b _ Hinv Hp Hn Hc Hwire) as Hinv1.
  pose proof (step_read peer_of w j fd i fd' n b _ Hp Hn Hc Hwire Hb) as Hstep.
  set (w1 := mkWorld _ _ _ _) in Hinv1, Hstep. set (n1 := feed_conn fd b n) in *.
  assert (nodes w1 !! j = Some n1) as Hn1 by (cbn; by rewrite lookup_insert_eq).
  assert (is_Some (conns n1 !! fd)) as Hc1 by (unfold n1; cbn; rewrite lookup_alter_eq; by apply fmap_is_Some).
  destruct (drain (drain_fuel fd n1) fd n1 acc) as [[st n2] acc2] eqn:Hd.
  destruct (drain_steps _ w1 M j fd n1 acc st n2 acc2 Hinv1 Hn1 Hc1 Hd) as (w2 & M2 & Hs & Hinv2 & Hn2 & Hc2 & Hst & Hw2).
  assert (steps w w2) as Hs2 by (by eapply rtc_l).
  assert ((if (length b <? kReadBuf)%nat then (Returned n2 acc2, false) else read_loop fd chunks false n2 acc2).1 = Returned n' calls) as Hl
    by (by destruct st).
  destruct (length b <? kReadBuf)%nat; [injection Hl as <- <-; by exists w2|].
  destruct (IH acc2 w2 M2 n2 Hinv2 Hn2 Hc2) as (w3 & Hs3 & Hn3); [by rewrite Hw2; cbn; rewrite lookup_total_insert_eq|done|].
  exists w3. split; [by etransitivity|done].
Qed.
End steps.

(** ** Gossip on concrete nodes

    An evaluable codec and three nodes in a chain, whose handshakes are run by
    the code itself, and a publication that floods them. *)
From S2P Require Import Prelude StdMap Crypto FrameCodec Kademlia Gossip GossipNet.
Import Gossip.

(** ** A codec: every byte of a field is announced, so fields end by themselves *)

Fixpoint put_field (b : bytes) : bytes :=
  match b with [] => [Byte.x00] | x :: b => Byte.x01 :: x :: put_field b end.

Fixpoint get_field (l : bytes) : option (bytes * bytes) :=
  match l with
  | Byte.x00 :: rest => Some ([], rest)
  | Byte.x01 :: x :: rest => '(b, rest') ← get_field rest; Some (x :: b, rest')
  | _ => None
  end.

Lemma get_put_field b rest : get_field (put_field b ++ rest) = Some (b, rest).
Proof.
  induction b as [|x b IH]; [done|]. cbn. by rewrite IH.
Qed.

Fixpoint put_fields (l : list bytes) : bytes :=
  match l with [] => [] | b :: l => put_field b ++ put_fields l end.

Fixpoint get_fields (k : nat) (l : bytes) : option (list bytes * bytes) :=
  match k with
  | O => Some ([], l)
  | S k => '(b, rest) ← get_field l; '(bs, rest) ← get_fields k rest; Some (b :: bs, rest)
  end.

Lemma get_put_fields bs rest : get_fields (length bs) (put_fields bs ++ rest) = Some (bs, rest).
Proof.
  induction bs as [|b bs IH]; [done|]. cbn. rewrite <- app_assoc, get_put_field. cbn. by rewrite IH.
Qed.

Definition toy_serialize (m : P2PMessage) : bytes :=
  match m with
  | Ping f nonce => z2b 1 :: put_fields [wp_node_id f; wp_addr f; nonce]
  | Pong f nonce => z2b 2 :: put_fields [wp_node_id f; wp_addr f; nonce]
  | Subscribe f topic => z2b 5 :: put_fields [wp_node_id f; wp_addr f; topic]
  | Publish f topic mid payload ttl => z2b 7 :: put_fields [wp_node_id f; wp_addr f; topic; mid; payload] ++ be_bytes 4 ttl
  | _ => []
  end.

Definition toy_parse (b : bytes) : option P2PMessage :=
  match b with
  | Byte.x01 :: l => match get_fields 3 l with Some ([i; a; x], []) => Some (Ping (mkWirePeer i a) x) | _ => None end
  | Byte.x02 :: l => match get_fields 3 l with Some ([i; a; x], []) => Some (Pong (mkWirePeer i a) x) | _ => None end
  | Byte.x05 :: l => match get_fields 3 l with Some ([i; a; x], []) => Some (Subscribe (mkWirePeer i a) x) | _ => None end
  | Byte.x07 :: l =>
      match get_fields 5 l with
      | Some ([i; a; topic; mid; payload], t) => Some (Publish (mkWirePeer i a) topic mid payload (be_value t))
      | _ => None
      end
  | _ => None
  end.

#[export] Instance toy_p2p : ProtoMsg P2PMessage := {| pb_serialize := toy_serialize; pb_parse := toy_parse |}.

#[export] Instance toy_publish_codec : PublishCodec.
Proof.
  intros [i a] topic mid payload ttl (_ & _ & Ht). cbn [pb_parse pb_serialize toy_p2p toy_serialize].
  change (z2b 7) with Byte.x07. cbn [toy_parse wp_node_id wp_addr].
  rewrite (get_put_fields [i; a; topic; mid; payload]). f_equal. f_equal. apply be_value_be_bytes. exact Ht.
Qed.

(** ** Running the network *)

Inductive action :=
| AFlush (i : nat) (fd : Z)
| ARead (j : nat) (fd : Z)
| APop (j : nat) (fd : Z).

Section exec.
Variable links : gmap nat (gmap Z (nat * Z)).

Definition peer_in (i : nat) (fd : Z) : option (nat * Z) := m ← links !! i; m !! fd.

Definition exec (a : action) (w : World) : World :=
  match a with
  | AFlush i fd =>
      match nodes w !! i with
      | Some n =>
          match conns n !! fd with
          | Some c =>
              match write_buf c, on_writable fd [Z.of_nat (length (write_buf c))] n [] with
              | _ :: _, Returned n' [] =>
                  mkWorld (<[i := n']> (nodes w))
                    (<[(i, fd) := (wire w !!! (i, fd)) ++ take (length (write_buf c)) (write_buf c)]> (wire w)) (pubs w) (log w)
              | _, _ => w
              end
          | None => w
          end
      | None => w
      end
  | ARead j fd =>
      match peer_in j fd, nodes w !! j with
      | Some (i, fd'), Some n =>
          if decide (is_Some (conns n !! fd) /\ wire w !!! (i, fd') <> []) then
            mkWorld (<[j := feed_conn fd (wire w !!! (i, fd')) n]> (nodes w)) (<[(i, fd') := []]> (wire w)) (pubs w) (log w)
          else w
      | _, _ => w
      end
  | APop j fd =>
      match nodes w !! j with
      | Some n =>
          match pop_frame fd n with
          | (kFrameReady frame, n', calls) =>
              mkWorld (<[j := n']> (nodes w)) (wire w) (pubs w) (log w ++ ((fun c => (j, frame_mid frame, c)) <$> calls))
          | _ => w
          end
      | None => w
      end
  end.

Lemma exec_sound a w0 w : reachable peer_in w0 w -> reachable peer_in w0 (exec a w).
Proof.
  intros Hr. destruct a as [i fd|j fd|j fd]; cbn [exec].
  - destruct (nodes w !! i) as [n|] eqn:Hn; [|done]. destruct (conns n !! fd) as [c|] eqn:Hc; [|done].
    destruct (write_buf c) as [|x b] eqn:Hw; [done|]. rewrite <- Hw.
    destruct (on_writable fd _ n []) as [n' [|]|] eqn:E; try done.
    eapply reach_net; [done|]. eapply step_flush; [done|done| |done]. rewrite Hw. cbn; lia.
  - destruct (peer_in j fd) as [[i fd']|] eqn:Hp; [|done]. destruct (nodes w !! j) as [n|] eqn:Hn; [|done].
    case_decide as Hcase; [|done]. destruct Hcase as [Hc Hw]. eapply reach_net; [done|].
    apply step_read; try done. by rewrite app_nil_r.
  - destruct (nodes w !! j) as [n|] eqn:Hn; [|done]. destruct (pop_frame fd n) as [[[|frame|] n'] calls] eqn:E; try done.
    eapply reach_net; [done|]. by eapply step_pop.
Qed.

Definition exec_all (l : list action) (w : World) : World := foldl (fun w a => exec a w) w l.

Lemma exec_all_sound l w0 w : reachable peer_in w0 w -> reachable peer_in w0 (exec_all l w).
Proof. revert w. induction l as [|a l IH]; intros w Hr; [done|]. cbn. by apply IH, exec_sound. Qed.

(** Empty buffers everywhere: nothing can move. *)
Definition idle (w : World) : Prop :=
  map_Forall (fun _ n => map_Forall (fun _ c => write_buf c = [] /\ buf_ (dec c) = []) (conns n)) (nodes w) /\
  map_Forall (fun _ b => b = []) (wire w).

Lemma idle_quiescent w : idle w -> quiescent peer_in w.
Proof.
  intros [Hn Hw] w' Hs. destruct Hs as [i fd k n n' c Hi Hc Hk _|j fd i fd' n b rest Hp Hj Hc Hb Hne|j fd n n' frame calls Hj Hpop].
  - destruct (Hn i n Hi fd c Hc) as [E _]. rewrite E in Hk. cbn in Hk. lia.
  - destruct (wire w !! (i, fd')) as [x|] eqn:E.
    + rewrite (lookup_total_correct _ _ x) in Hb by done. rewrite (Hw _ _ E) in Hb. by destruct b.
    + rewrite lookup_total_alt, E in Hb. by destruct b.
  - apply pop_frame_ready in Hpop as (c & d' & Hc & Htry & _). destruct (Hn j n Hj fd c Hc) as [_ E].
    apply try_pop_length in Htry. rewrite E in Htry. cbn in Htry. lia.
Qed.

(** ** Checking a mesh *)

Definition link_check (ns : gmap nat P2PNode) (i : nat) (fd : Z) (c : PeerConn) : bool :=
  match peer_in i fd with
  | Some (j, fd') =>
      peer_known c && bool_decide (peer_in j fd' = Some (i, fd)) && bool_decide (self_id <$> ns !! j = Some (Kademlia.id (peer c)))
  | None => false
  end.

Definition node_check (ns : gmap nat P2PNode) (i : nat) (n : P2PNode) : Prop :=
  dom (conns n) = dom (default ∅ (links !! i)) /\ map_Forall (fun fd c => link_check ns i fd c = true) (conns n) /\
  peer_in i (-1) = None /\ length (self_id n) = Kademlia.kNodeIdBytes /\ map_Forall (fun j nj => self_id nj = self_id n -> j = i) ns.

Lemma node_check_ok ns i n : node_check ns i n -> (forall p z, carry_guard n p z = true) -> mesh_node peer_in ns i n.
Proof.
  intros (Hdom & Hlinks & Hfd & Hid & Hinj) Hg. split; try done.
  - intros fd. rewrite <- !elem_of_dom, Hdom, elem_of_dom. unfold peer_in. by destruct (links !! i).
  - intros fd c j fd' Hc Hp. specialize (Hlinks fd c Hc). unfold link_check in Hlinks. cbn in Hlinks. rewrite Hp in Hlinks. bool_props.
    split_and!; try done. destruct (ns !! j) as [nj|]; [|done]. exists nj. split; [done|].
    match goal with E : _ <$> Some nj = _ |- _ => by injection E end.
Qed.
End exec.

(** ** A chain of three nodes *)

#[local] Instance id_sha256 : Sha256 := fun b => b.

Definition room : bytes := str "room".

(** Started, with a callback and subscribed to [room]. *)
Definition g_node (k : Z) : P2PNode :=
  subscribe room (set_on_topic_message (start (str "127.0.0.1:7") (new_p2p_node (be_bytes 20 k)))).

Definition g_links : gmap nat (gmap Z (nat * Z)) :=
  {[ 0%nat := {[ 3 := (1%nat, 4) ]}; 1%nat := {[ 4 := (0%nat, 3); 5 := (2%nat, 6) ]}; 2%nat := {[ 6 := (1%nat, 5) ]} ]}.

Definition g_dialled : World := mkWorld
  {[ 0%nat := register_conn 3 true (str "b") (str "n0") (g_node 10);
     1%nat := register_conn 5 true (str "c") (str "n2") (register_conn 4 false [] (str "n1") (g_node 11));
     2%nat := register_conn 6 false [] (str "n3") (g_node 12) ]} ∅ ∅ [].

(** Every connection writes and reads what there is and handles three frames. *)
Definition g_ends : list (nat * Z) := [(0%nat, 3); (1%nat, 4); (1%nat, 5); (2%nat, 6)].
Definition g_round : list action :=
  ((fun e => AFlush e.1 e.2) <$> g_ends) ++ ((fun e => ARead e.1 e.2) <$> g_ends) ++
  (g_ends ≫= (fun e => replicate 3 (APop e.1 e.2))).
Definition g_rounds (k : nat) (w : World) : World := exec_all g_links (mjoin (replicate k g_round)) w.

(** The handshakes run; then the publications are counted from here. *)
Definition g_start : World := mkWorld (nodes (g_rounds 4 g_dialled)) ∅ ∅ [].

Definition g_mid : bytes := str "0123456789abcdef".
Definition g_n0 : P2PNode := default (g_node 10) (nodes g_start !! 0%nat).
Definition g_pub : Pub := mkPub 0 (self_wire g_n0) room (str "hello") 4.
Definition g_published : World :=
  mkWorld (<[0%nat := publish room (str "hello") 4 g_mid g_n0]> (nodes g_start)) (wire g_start)
    (<[g_mid := g_pub]> (pubs g_start)) (log g_start).
Definition g_end : World := g_rounds 3 g_published.

Example g_handshakes : (fun n => peer_known <$> conns n) <$> nodes g_start =
  ({[ 0%nat := {[ 3 := true ]}; 1%nat := {[ 4 := true; 5 := true ]}; 2%nat := {[ 6 := true ]} ]} : gmap nat (gmap Z bool)).
Proof. vm_compute. reflexivity. Qed.

Example g_log : log g_end = [(1%nat, g_mid, the_call g_pub); (2%nat, g_mid, the_call g_pub)].
Proof. vm_compute. reflexivity. Qed.

#[local] Instance node_check_dec links ns i n : Decision (node_check links ns i n).
Proof. unfold node_check. apply _. Defined.

Lemma g_guards i n : nodes g_start !! i = Some n -> forall p z, carry_guard n p z = true.
Proof.
  assert (carry_guard <$> nodes g_start =
    {[ 0%nat := (fun _ _ => true); 1%nat := (fun _ _ => true); 2%nat := (fun _ _ => true) ]}) as E by (vm_compute; reflexivity).
  intros Hn. assert ((carry_guard <$> nodes g_start) !! i = Some (carry_guard n)) as Hg by (by rewrite lookup_fmap, Hn).
  rewrite E in Hg. clear E Hn.
  repeat (apply lookup_insert_Some in Hg as [[_ <-]|[_ Hg]]; [done|]). apply lookup_singleton_Some in Hg as [_ <-]. done.
Qed.

Lemma g_mesh : mesh (peer_in g_links) (nodes g_start).
Proof.
  assert (map_Forall (node_check g_links (nodes g_start)) (nodes g_start)) as Hc by by_computing.
  intros i n Hn. apply node_check_ok; [by apply Hc|by eapply g_guards].
Qed.

Lemma g_at_rest : at_rest (peer_in g_links) g_start.
Proof.
  split; [exact g_mesh|]. split; [done|]. split; [done|]. split; [done|]. by_computing.
Qed.

Lemma g_fits : fits g_mid g_pub.
Proof.
  assert (Forall (fun k => wire_ok (copy g_mid g_pub (Z.of_nat k)) /\ frame_ok (pb_serialize (copy g_mid g_pub (Z.of_nat k)))) (seq 0 5)) as Hall.
  { repeat (apply Forall_cons_2; [split; [split; [by_computing|split; [by_computing|by vm_compute]]|by vm_compute]|]). done. }
  intros t Ht. rewrite Forall_forall in Hall. rewrite <- (Z2Nat.id t) by lia. apply Hall, elem_of_seq. cbn in Ht. lia.
Qed.

Lemma g_n0_lookup : nodes g_start !! 0%nat = Some g_n0.
Proof.
  assert (bool_decide (is_Some (nodes g_start !! 0%nat)) = true) as E by (vm_compute; reflexivity).
  apply bool_decide_eq_true in E as [n E]. unfold g_n0. by rewrite E.
Qed.

Lemma g_reachable_published : reachable (peer_in g_links) g_start g_published.
Proof.
  assert (map_Forall (fun _ n' => g_mid ∉ seen_set n') (nodes g_start)) as Hnew by by_computing.
  assert (g_mid <> []) as Hne by by_computing.
  assert (g_mid ∉ dom (pubs g_start)) as Hd by by_computing.
  eapply reach_publish; [apply reach_refl|].
  refine (step_publish g_start 0 room (str "hello") 4 g_mid g_n0 g_n0_lookup Hne Hd Hnew _ _ g_fits); [by_computing|lia].
Qed.

Lemma g_reachable : reachable (peer_in g_links) g_start g_end.
Proof. apply exec_all_sound, g_reachable_published. Qed.

#[local] Instance idle_dec w : Decision (idle w).
Proof. unfold idle. apply _. Defined.

Lemma g_connected : connected (peer_in g_links) 0 2.
Proof.
  eapply rtc_l; [exists 3, 4; reflexivity|]. eapply rtc_l; [exists 5, 6; reflexivity|]. apply rtc_refl.
Qed.

(** The far end of the chain is called once. *)
Lemma gossip_flood_witness : calls_of 2 g_mid g_end = [the_call g_pub].
Proof.
  destruct (gossip_flood (peer_in g_links) g_start g_end g_at_rest g_reachable) as [_ Hflood].
  assert (quiescent (peer_in g_links) g_end) as Hq by (apply idle_quiescent; by_computing).
  destruct (nodes g_end !! 2%nat) as [n|] eqn:Hn; [|by vm_compute in Hn].
  assert (pubs g_end !! g_mid = Some g_pub) as Hp by (vm_compute; reflexivity).
  assert (Z.of_nat (size (nodes g_end)) <= pub_ttl g_pub + 1) as Hs by (vm_compute; discriminate).
  rewrite (Hflood Hq g_mid g_pub 2%nat n Hp Hs Hn g_connected). rewrite decide_True; [reflexivity|].
  assert ((fun n => bool_decide (wants g_pub 2 n)) <$> nodes g_end !! 2%nat = Some true) as Hw by (vm_compute; reflexivity).
  rewrite Hn in Hw. injection Hw as Hw. by apply bool_decide_eq_true in Hw.
Defined.

Lemma gossip_settles_witness : Acc (fun w2 w1 => net_step (peer_in g_links) w1 w2) g_published.
Proof. exact (gossip_settles (peer_in g_links) g_start g_published g_at_rest g_reachable_published). Defined.
