(* ===== verification/SFrame.v ===== *)
(** * Sealed media frames ([src/core/src/media/sframe.cpp])

    Per-frame keys and nonces from a base key, AES-256-GCM
    ([src/core/src/crypto/aead.cpp]) and the 12-byte header.  The cipher and the
    answer whether the processor supports it are parameters. *)
From S2P Require Import Prelude Crypto.

Class AesGcm := {
  (** [crypto_aead_aes256gcm_is_available] *)
  aes256gcm_hw_available : bool;
  (** [crypto_aead_aes256gcm_encrypt / _decrypt]: key, nonce, text, data. *)
  gcm_seal : bytes -> bytes -> bytes -> bytes -> bytes;
  gcm_open : bytes -> bytes -> bytes -> bytes -> option bytes;
}.

Class AesGcmLaws `{!AesGcm} := {
  gcm_open_seal : forall k n p a, gcm_open k n (gcm_seal k n p a) a = Some p;
  length_gcm_seal : forall k n p a, length (gcm_seal k n p a) = (length p + 16)%nat;
}.

Inductive AeadError := NoAesHardware.

Lemma Ok_inj {E A} (a b : A) : Ok (E := E) a = Ok b -> a = b.
Proof. by intros [= ->]. Qed.

Section aead.
Context `{!AesGcm}.

Definition gcm_ABYTES : nat := 16.

(** [alg] is always [kAes256Gcm]. *)
Definition aead_encrypt (key nonce plaintext aad : bytes) : result AeadError bytes :=
  if negb aes256gcm_hw_available then Throw NoAesHardware else Ok (gcm_seal key nonce plaintext aad).

Definition aead_decrypt (key nonce ct aad : bytes) : result AeadError (option bytes) :=
  if negb aes256gcm_hw_available then Throw NoAesHardware
  else if (length ct <? gcm_ABYTES)%nat then Ok None
  else Ok (gcm_open key nonce ct aad).
End aead.

Section sframe.
Context `{Sodium, !AesGcm}.

Definition kInfoKey : bytes := str "FB-SFrame-key".
Definition kInfoNonce : bytes := str "FB-SFrame-nonce".

(** [hkdf_expand] of a legal length does not throw. *)
Definition expand_fixed (prk info : bytes) (n : nat) : bytes :=
  match hkdf_expand prk info n with Ok okm => okm | Throw _ => [] end.

Definition sframe_header (epoch counter : Z) : bytes := put_u32_be epoch ++ be_bytes 8 counter.

Definition hkdf_expand_label (out : nat) (base label : bytes) (epoch counter : Z) : bytes :=
  expand_fixed (hkdf_extract [] base) (label ++ put_u32_be epoch ++ be_bytes 8 counter) out.

Definition kRoomLabel : bytes := str "FinBit-SFrame-room-v1".

Definition derive_room_sframe_key (room_secret sender_pubkey : bytes) (epoch : Z) : bytes :=
  expand_fixed (hkdf_extract [] room_secret) (kRoomLabel ++ sender_pubkey ++ put_u32_be epoch) 32.

(** The key and nonce of one frame. *)
Definition frame_key (base_key : bytes) (epoch counter : Z) : bytes := hkdf_expand_label 32 base_key kInfoKey epoch counter.
Definition frame_nonce (base_key : bytes) (epoch counter : Z) : bytes := hkdf_expand_label 12 base_key kInfoNonce epoch counter.

Definition sframe_seal_v1 (base_key : bytes) (epoch counter : Z) (plaintext : bytes) : result AeadError bytes :=
  let key := frame_key base_key epoch counter in
  let nonce := frame_nonce base_key epoch counter in
  let aad := sframe_header epoch counter in
  let? ct := aead_encrypt key nonce plaintext aad in
  Ok (sframe_header epoch counter ++ ct).

Definition sframe_open_v1 (base_key sealed : bytes) : result AeadError (option bytes) :=
  if (length sealed <? 12)%nat then Ok None
  else
    let epoch := be_value (take 4 sealed) in
    let counter := be_value (take 8 (drop 4 sealed)) in
    let key := frame_key base_key epoch counter in
    let nonce := frame_nonce base_key epoch counter in
    let aad := sframe_header epoch counter in
    aead_decrypt key nonce (drop 12 sealed) aad.

Definition sframe_peek_epoch (sealed : bytes) : option Z :=
  if (length sealed <? 12)%nat then None else Some (be_value (take 4 sealed)).

Lemma sframe_parts epoch counter ct :
  is_u32 epoch -> is_u64 counter ->
  let sealed := sframe_header epoch counter ++ ct in
  (length sealed <? 12)%nat = false /\ be_value (take 4 sealed) = epoch /\
  be_value (take 8 (drop 4 sealed)) = counter /\ drop 12 sealed = ct.
Proof.
  intros He Hc sealed. unfold sealed, sframe_header. rewrite put_u32_be_eq, <- app_assoc.
  assert (length (be_bytes 4 epoch) = 4%nat) as L4 by apply length_be_bytes.
  assert (length (be_bytes 8 counter) = 8%nat) as L8 by apply length_be_bytes.
  split_and!.
  - apply Nat.ltb_ge. rewrite !length_app, L4, L8. lia.
  - rewrite take_app_length' by done. by apply be_value_be_bytes.
  - rewrite drop_app_length' by done. rewrite take_app_length' by done. by apply be_value_be_bytes.
  - rewrite app_assoc. rewrite drop_app_length'; [done|]. by rewrite length_app, L4, L8.
Qed.

Lemma sframe_roundtrip `{!AesGcmLaws} base_key epoch counter plaintext sealed :
  is_u32 epoch -> is_u64 counter -> sframe_seal_v1 base_key epoch counter plaintext = Ok sealed ->
  sframe_peek_epoch sealed = Some epoch /\ sframe_open_v1 base_key sealed = Ok (Some plaintext).
Proof.
  intros He Hc. unfold sframe_seal_v1, aead_encrypt. destruct aes256gcm_hw_available eqn:Ehw; cbn [negb rbind]; [|done].
  intros <-%Ok_inj. destruct (sframe_parts epoch counter
    (gcm_seal (frame_key base_key epoch counter) (frame_nonce base_key epoch counter) plaintext (sframe_header epoch counter)) He Hc)
    as (E1 & E2 & E3 & E4).
  unfold sframe_peek_epoch, sframe_open_v1. rewrite E1, E2, E3, E4. split; [done|]. unfold aead_decrypt. rewrite Ehw. cbn [negb].
  rewrite length_gcm_seal. destruct (Nat.ltb_spec (length plaintext + 16) gcm_ABYTES); [unfold gcm_ABYTES in *; lia|].
  by rewrite gcm_open_seal.
Qed.
End sframe.
