(* ===== verification/RoomKeys.v ===== *)
(** * Room keys ([src/core/src/media/room_keys.cpp])

    The registry of a room's media secret: the current epoch, the previous one
    during a grace period, and a cache of derived keys.  The clock is an
    argument; the mutex makes every call one step. *)
From S2P Require Import Prelude Crypto SFrame.

(** [RoomKeyRegistry::SealKey] *)
Record SealKey := mkSealKey {
  sk_key : bytes;
  sk_epoch : Z;
}.

Record RoomKeyRegistry := mkRoomKeyRegistry {
  my_pubkey_ : bytes;
  grace_ : Z;
  has_ : bool;
  cur_secret_ : bytes;
  cur_epoch_ : Z;
  cur_seal_ : SealKey;
  has_prev_ : bool;
  prev_secret_ : bytes;
  prev_epoch_ : Z;
  prev_until_ : Z;
  cache_ : gmap (bytes * Z) bytes;
}.

Definition zero_key : bytes := replicate 32 Byte.x00.

Definition new_registry (my_pubkey : bytes) (grace : Z) : RoomKeyRegistry :=
  mkRoomKeyRegistry my_pubkey grace false zero_key 0 (mkSealKey zero_key 0) false zero_key 0 0 ∅.

Section registry.
Context `{Sodium}.

Definition keep_epoch (cur : Z) (has_prev : bool) (prev : Z) (e : Z) : bool := (e =? cur) || (has_prev && (e =? prev)).

Definition set_secret (now : Z) (secret : bytes) (epoch : Z) (r : RoomKeyRegistry) : RoomKeyRegistry :=
  if has_ r && (epoch <=? cur_epoch_ r) then r
  else
    let '(has_prev, prev_secret, prev_epoch, prev_until) :=
      if has_ r then (true, cur_secret_ r, cur_epoch_ r, now + grace_ r)
      else (has_prev_ r, prev_secret_ r, prev_epoch_ r, prev_until_ r) in
    mkRoomKeyRegistry (my_pubkey_ r) (grace_ r) true secret epoch
      (mkSealKey (derive_room_sframe_key secret (my_pubkey_ r) epoch) epoch)
      has_prev prev_secret prev_epoch prev_until
      (filter (fun kv => keep_epoch epoch has_prev prev_epoch kv.1.2 = true) (cache_ r)).

Definition has_secret (r : RoomKeyRegistry) : bool := has_ r.
Definition epoch (r : RoomKeyRegistry) : Z := cur_epoch_ r.
Definition seal_key (r : RoomKeyRegistry) : option SealKey := if has_ r then Some (cur_seal_ r) else None.

(** Which secret covers the epoch of a frame. *)
Definition covering_secret (now frame_epoch : Z) (r : RoomKeyRegistry) : option bytes :=
  if has_ r && (frame_epoch =? cur_epoch_ r) then Some (cur_secret_ r)
  else if has_prev_ r && (frame_epoch =? prev_epoch_ r) && (now <? prev_until_ r) then Some (prev_secret_ r)
  else None.

Definition open_key (now : Z) (sender_pubkey : bytes) (frame_epoch : Z) (r : RoomKeyRegistry) :
    option bytes * RoomKeyRegistry :=
  match covering_secret now frame_epoch r with
  | None => (None, r)
  | Some secret =>
      match cache_ r !! (sender_pubkey, frame_epoch) with
      | Some k => (Some k, r)
      | None =>
          let derived := derive_room_sframe_key secret sender_pubkey frame_epoch in
          (Some derived,
           mkRoomKeyRegistry (my_pubkey_ r) (grace_ r) (has_ r) (cur_secret_ r) (cur_epoch_ r) (cur_seal_ r)
             (has_prev_ r) (prev_secret_ r) (prev_epoch_ r) (prev_until_ r)
             (<[(sender_pubkey, frame_epoch) := derived]> (cache_ r)))
      end
  end.

(** ** What the registry stands for: the rotations that took effect *)

Record Rotation := mkRotation {
  rot_time : Z;
  rot_epoch : Z;
  rot_secret : bytes;
}.

(** Newest first; an epoch that is not newer is ignored. *)
Definition rotate (now : Z) (secret : bytes) (e : Z) (rs : list Rotation) : list Rotation :=
  match rs with
  | [] => [mkRotation now e secret]
  | r :: _ => if e <=? rot_epoch r then rs else mkRotation now e secret :: rs
  end.

Definition secret_at (grace now e : Z) (rs : list Rotation) : option bytes :=
  match rs with
  | [] => None
  | r :: rest =>
      if e =? rot_epoch r then Some (rot_secret r)
      else match rest with
           | [] => None
           | p :: _ => if (e =? rot_epoch p) && (now <? rot_time r + grace) then Some (rot_secret p) else None
           end
  end.

Inductive RoomOp :=
| OpSetSecret (now : Z) (secret : bytes) (e : Z)
| OpOpenKey (now : Z) (sender : bytes) (e : Z).

Definition run_op (op : RoomOp) (r : RoomKeyRegistry) : RoomKeyRegistry :=
  match op with
  | OpSetSecret now secret e => set_secret now secret e r
  | OpOpenKey now sender e => (open_key now sender e r).2
  end.

Definition run_ops (ops : list RoomOp) (r : RoomKeyRegistry) : RoomKeyRegistry := foldl (fun r op => run_op op r) r ops.

Definition rotate_op (op : RoomOp) (rs : list Rotation) : list Rotation :=
  match op with OpSetSecret now secret e => rotate now secret e rs | OpOpenKey _ _ _ => rs end.

Definition rotations (ops : list RoomOp) : list Rotation := foldl (fun rs op => rotate_op op rs) [] ops.

#[local] Opaque derive_room_sframe_key.

(** The registry in terms of the rotations. *)
Record represents (me : bytes) (grace : Z) (rs : list Rotation) (r : RoomKeyRegistry) : Prop := {
  rep_me : my_pubkey_ r = me;
  rep_grace : grace_ r = grace;
  rep_cur : match rs with
    | [] => has_ r = false
    | x :: _ => has_ r = true /\ cur_secret_ r = rot_secret x /\ cur_epoch_ r = rot_epoch x /\
                cur_seal_ r = mkSealKey (derive_room_sframe_key (rot_secret x) me (rot_epoch x)) (rot_epoch x)
    end;
  rep_prev : match rs with
    | x :: p :: _ => has_prev_ r = true /\ prev_secret_ r = rot_secret p /\ prev_epoch_ r = rot_epoch p /\
                     prev_until_ r = rot_time x + grace /\ rot_epoch p < rot_epoch x
    | _ => has_prev_ r = false
    end;
  rep_cache : map_Forall (fun ke k => exists x, x ∈ take 2 rs /\ rot_epoch x = ke.2 /\
    k = derive_room_sframe_key (rot_secret x) ke.1 ke.2) (cache_ r);
}.

Lemma represents_new me grace : represents me grace [] (new_registry me grace).
Proof. by split. Qed.

Lemma represents_set me grace rs r now secret e :
  represents me grace rs r -> represents me grace (rotate now secret e rs) (set_secret now secret e r).
Proof.
  intros [Rm Rg Rc Rp Rk]. unfold set_secret, rotate. destruct rs as [|x rs].
  - rewrite Rc. cbn [andb]. split; cbn; rewrite ?Rm, ?Rg; try done.
    intros ke k Hk. apply map_lookup_filter_Some in Hk as [Hk _]. destruct (Rk ke k Hk) as (y & Hy & _). by apply not_elem_of_nil in Hy.
  - destruct Rc as (Rh & Rs & Re & Rsl). rewrite Rh, Re. cbn [andb]. destruct (Z.leb_spec e (rot_epoch x)) as [Hle|Hlt]; [by split|].
    split; cbn; rewrite ?Rm, ?Rg; try done.
    intros ke k Hk. apply map_lookup_filter_Some in Hk as [Hk Hkeep]. destruct (Rk ke k Hk) as (y & Hy & Ey & ->).
    exists y. split; [|done]. unfold keep_epoch in Hkeep. cbn in Hkeep.
    assert (rot_epoch y = rot_epoch x -> y = x) as Hx.
    { intros E. destruct rs as [|p rs]; cbn in Hy; [by apply list_elem_of_singleton in Hy|].
      rewrite take_0, elem_of_cons, list_elem_of_singleton in Hy. destruct Hy as [->| ->]; [done|].
      destruct Rp as (_ & _ & _ & _ & Hlt'). lia. }
    apply orb_true_iff in Hkeep as [He%Z.eqb_eq|He%Z.eqb_eq].
    + exfalso. destruct rs as [|p rs]; cbn in Hy; [apply list_elem_of_singleton in Hy as ->; lia|].
      rewrite take_0, elem_of_cons, list_elem_of_singleton in Hy. destruct Hy as [->| ->]; [lia|].
      destruct Rp as (_ & _ & _ & _ & Hlt'). lia.
    + rewrite (Hx ltac:(congruence)). cbn. rewrite elem_of_cons, elem_of_cons. auto.
Qed.

Lemma covering_spec me grace rs r now e :
  represents me grace rs r -> covering_secret now e r = secret_at grace now e rs.
Proof.
  intros [_ _ Rc Rp _]. unfold covering_secret, secret_at. destruct rs as [|x [|p rs]].
  - by rewrite Rc, Rp.
  - destruct Rc as (-> & -> & -> & _). rewrite Rp. cbn [andb]. by destruct (e =? rot_epoch x).
  - destruct Rc as (-> & -> & -> & _), Rp as (-> & -> & -> & -> & _). cbn [andb]. done.
Qed.

Lemma secret_at_elem grace now e rs s :
  secret_at grace now e rs = Some s -> exists x, x ∈ take 2 rs /\ rot_epoch x = e /\ rot_secret x = s.
Proof.
  unfold secret_at. destruct rs as [|x [|p rs]]; [done|..]; destruct (Z.eqb_spec e (rot_epoch x)) as [->|_].
  - intros [= <-]. exists x. split; [by left|done].
  - done.
  - intros [= <-]. exists x. split; [by left|done].
  - destruct (Z.eqb_spec e (rot_epoch p)) as [->|_]; [|done]. destruct (_ <? _); [|done]. intros [= <-].
    exists p. split; [right; by left|done].
Qed.

(** The cache never changes an answer. *)
Lemma open_key_spec me grace rs r now sender e :
  represents me grace rs r ->
  (open_key now sender e r).1 = (fun s => derive_room_sframe_key s sender e) <$> secret_at grace now e rs /\
  represents me grace rs (open_key now sender e r).2.
Proof.
  intros Hr. pose proof (covering_spec me grace rs r now e Hr) as Hc. unfold open_key. rewrite Hc.
  destruct (secret_at grace now e rs) as [s|] eqn:Es; [|done].
  destruct (secret_at_elem grace now e rs s Es) as (x & Hx & Ex & Esx).
  destruct (cache_ r !! (sender, e)) as [k|] eqn:Ek.
  - split; [|done]. destruct Hr as [_ _ _ Rp Rk]. destruct (Rk _ _ Ek) as (y & Hy & Ey & ->). cbn in Ey |- *. repeat f_equal.
    destruct rs as [|a [|b rs]]; cbn in Hx, Hy.
    + by apply not_elem_of_nil in Hx.
    + apply list_elem_of_singleton in Hx, Hy. congruence.
    + rewrite take_0, elem_of_cons, list_elem_of_singleton in Hx, Hy. destruct Rp as (_ & _ & _ & _ & Hlt).
      destruct Hx as [->| ->], Hy as [->| ->]; congruence || lia.
  - split; [done|]. destruct Hr as [Rm Rg Rc Rp Rk]. split; try done. cbn [cache_]. apply map_Forall_insert_2; [|done].
    exists x. cbn. split; [done|]. by rewrite Ex, Esx.
Qed.

Lemma represents_run me grace ops rs r :
  represents me grace rs r -> represents me grace (foldl (fun rs op => rotate_op op rs) rs ops) (run_ops ops r).
Proof.
  revert rs r. induction ops as [|op ops IH]; intros rs r Hr; [done|]. cbn [foldl]. apply IH.
  destruct op; [by apply represents_set|by apply open_key_spec].
Qed.

Lemma represents_ops me grace ops : represents me grace (rotations ops) (run_ops ops (new_registry me grace)).
Proof. apply represents_run, represents_new. Qed.

(** The answers of a registry after any history. *)
Lemma open_key_run me grace ops now sender e :
  (open_key now sender e (run_ops ops (new_registry me grace))).1 =
  (fun s => derive_room_sframe_key s sender e) <$> secret_at grace now e (rotations ops).
Proof. apply (open_key_spec me grace), represents_ops. Qed.

Lemma seal_key_run me grace ops :
  seal_key (run_ops ops (new_registry me grace)) =
  match rotations ops with
  | [] => None
  | x :: _ => Some (mkSealKey (derive_room_sframe_key (rot_secret x) me (rot_epoch x)) (rot_epoch x))
  end.
Proof.
  destruct (represents_ops me grace ops) as [_ _ Rc _ _]. unfold seal_key. destruct (rotations ops) as [|x rs]; [by rewrite Rc|].
  by destruct Rc as (-> & _ & _ & ->).
Qed.

Lemma rotations_sorted ops : StronglySorted (fun a b => rot_epoch b < rot_epoch a) (rotations ops).
Proof.
  unfold rotations. assert (StronglySorted (fun a b => rot_epoch b < rot_epoch a) []) as Hs by constructor.
  revert Hs. generalize (@nil Rotation). induction ops as [|op ops IH]; intros rs Hs; [done|]. cbn [foldl]. apply IH.
  destruct op as [now secret e|]; [|done]. cbn [rotate_op]. unfold rotate. destruct rs as [|x rs]; [by repeat constructor|].
  destruct (Z.leb_spec e (rot_epoch x)) as [|Hlt]; [done|]. constructor; [done|].
  apply StronglySorted_inv in Hs as [_ Hall]. constructor; [done|]. eapply Forall_impl; [done|]. cbn. intros y Hy. lia.
Qed.

(** C38: The registry refines its list of rotations.  After any sequence of secret
    changes and key requests, the seal key is derived from the newest accepted
    secret, and a request for a sender's key is answered exactly for the current
    epoch, and for the one before until the grace period after the last rotation
    ends, with the key derived from that epoch's secret: neither the cache nor
    stale or repeated announcements ever change an answer. *)
Theorem room_keys_refine (me : bytes) (grace : Z) (ops : list RoomOp) (now : Z) (sender : bytes) (e : Z) :
  let r := run_ops ops (new_registry me grace) in
  (open_key now sender e r).1 =
    (fun s => derive_room_sframe_key s sender e) <$> secret_at grace now e (rotations ops) /\
  seal_key r = match rotations ops with
               | [] => None
               | x :: _ => Some (mkSealKey (derive_room_sframe_key (rot_secret x) me (rot_epoch x)) (rot_epoch x))
               end /\
  StronglySorted (fun a b => rot_epoch b < rot_epoch a) (rotations ops).
Proof. split; [apply open_key_run|split; [apply seal_key_run|apply rotations_sorted]]. Qed.
End registry.
