(* ===== verification/Topics.v ===== *)
(** * Topic names of channels and rooms ([src/core/src/p2p/channel_gossip.cpp]) *)
From S2P Require Import Prelude.

Definition hex_digits : bytes := str "0123456789abcdef".

(** [hex[v & 0x0f]] *)
Definition hex_at (v : Z) : byte := default Byte.x00 (hex_digits !! Z.to_nat (Z.land v 15)).

Definition to_hex (b : bytes) : bytes := b ≫= (fun x => [hex_at (Z.shiftr (b2z x) 4); hex_at (b2z x)]).

Inductive TopicError := BadTopicId.

Definition hex_topic (prefix id : bytes) : bytes := prefix ++ to_hex id.

Definition kChannelGossipTopicPrefix : bytes := str "fb-chan:".
Definition kRoomGossipTopicPrefix : bytes := str "fb-room:".

Definition channel_topic_name (channel_id : bytes) : result TopicError bytes :=
  if negb (length channel_id =? 32)%nat then Throw BadTopicId else Ok (hex_topic kChannelGossipTopicPrefix channel_id).

Definition room_topic_name (room_id : bytes) : result TopicError bytes :=
  if negb (length room_id =? 32)%nat then Throw BadTopicId else Ok (hex_topic kRoomGossipTopicPrefix room_id).

Lemma hex_at_inj u v : hex_at u = hex_at v -> Z.land u 15 = Z.land v 15.
Proof.
  assert (forall z, 0 <= Z.land z 15 < 16) as Hr.
  { intros z. change 15 with (Z.ones 4). rewrite Z.land_ones by lia. apply Z.mod_pos_bound. lia. }
  assert (Forall (fun i => Forall (fun j => hex_digits !! Z.to_nat i = hex_digits !! Z.to_nat j -> i = j) (seqZ 0 16)) (seqZ 0 16)) as Hall
    by by_computing.
  rewrite Forall_forall in Hall. intros E. specialize (Hall (Z.land u 15)). rewrite Forall_forall in Hall.
  apply Hall; [apply elem_of_seqZ; pose proof (Hr u); lia|apply elem_of_seqZ; pose proof (Hr v); lia|].
  unfold hex_at in E. pose proof (Hr u). pose proof (Hr v).
  destruct (lookup_lt_is_Some_2 hex_digits (Z.to_nat (Z.land u 15))) as [x Hx]; [change (length hex_digits) with 16%nat; lia|].
  destruct (lookup_lt_is_Some_2 hex_digits (Z.to_nat (Z.land v 15))) as [y Hy]; [change (length hex_digits) with 16%nat; lia|].
  rewrite Hx, Hy in E |- *. cbn in E. by rewrite E.
Qed.

Lemma hex_pair_inj x y :
  hex_at (Z.shiftr (b2z x) 4) = hex_at (Z.shiftr (b2z y) 4) -> hex_at (b2z x) = hex_at (b2z y) -> x = y.
Proof.
  intros E1%hex_at_inj E2%hex_at_inj. apply b2z_inj. pose proof (b2z_range x). pose proof (b2z_range y).
  change 15 with (Z.ones 4) in *. rewrite !Z.land_ones in E1, E2 by lia. rewrite !Z.shiftr_div_pow2 in E1 by lia.
  rewrite !(Z.mod_small (_ / _)) in E1 by (split; [apply Z.div_pos; lia|apply Z.div_lt_upper_bound; lia]).
  rewrite (Z.div_mod (b2z x) (2 ^ 4)), (Z.div_mod (b2z y) (2 ^ 4)) by lia. congruence.
Qed.

Lemma to_hex_inj a b : to_hex a = to_hex b -> a = b.
Proof.
  revert b. induction a as [|x a IH]; intros [|y b]; try done. unfold to_hex. cbn [mbind list_bind app].
  intros [= E1 E2 E3]. f_equal; [by apply hex_pair_inj|by apply IH].
Qed.

Lemma length_to_hex b : length (to_hex b) = (2 * length b)%nat.
Proof. induction b as [|x b IH]; [done|]. unfold to_hex in *. cbn [mbind list_bind length]. cbn in IH |- *. lia. Qed.

(** A topic determines the kind and the id it was made for. *)
Lemma topic_names_injective a b t :
  (channel_topic_name a = Ok t -> channel_topic_name b = Ok t -> a = b) /\
  (room_topic_name a = Ok t -> room_topic_name b = Ok t -> a = b) /\
  (channel_topic_name a = Ok t -> room_topic_name b = Ok t -> False).
Proof.
  unfold channel_topic_name, room_topic_name, hex_topic.
  destruct (negb (length a =? 32)%nat), (negb (length b =? 32)%nat); split_and!; try done; intros [= <-] [= E].
  - by apply to_hex_inj.
  - by apply to_hex_inj.
Qed.
