(* ===== verification/MediaCall.v ===== *)
(** * Frames of a call ([src/client-desktop/src/media_call.cpp])

    The contexts of a call and the probes through which every encoded frame
    passes: sealed between encoder and network, opened between network and
    decoder.  A pipeline buffer is its bytes; [mapped] is what [gst_buffer_map]
    answered for reading (mapping a fresh buffer for writing succeeds).  The
    registry a context points to is an argument. *)
From S2P Require Import Prelude Crypto SFrame RoomKeys Topics.

(** [seal_room]: [reg] is not null. *)
Record SframeSealCtx := mkSealCtx {
  seal_room : bool;
  seal_base_key : bytes;
  seal_epoch : Z;
  send_counter : Z;
}.

Record SframeOpenCtx := mkOpenCtx {
  open_room : bool;
  open_sender_pubkey : bytes;
  open_base_key : bytes;
}.

Inductive ProbeResult := Passed (b : bytes) | Dropped.

Section call.
Context `{Sodium, !AesGcm}.

Definition kCallLabel : bytes := str "FinBit-SFrame-call-v1-".

Definition call_base_key (shared_secret call_id : bytes) : bytes :=
  expand_fixed (hkdf_extract [] shared_secret) (kCallLabel ++ to_hex call_id) 32.

Definition set_sframe_context (sframe_epoch : Z) (shared_secret call_id : bytes) (ctx : SframeSealCtx) : SframeSealCtx :=
  mkSealCtx false (call_base_key shared_secret call_id) sframe_epoch 0.

(** [given]: the registry passed in is not null. *)
Definition set_room_context (given : bool) (ctx : SframeSealCtx) : SframeSealCtx :=
  mkSealCtx given (seal_base_key ctx) (seal_epoch ctx) 0.

Definition sframe_seal_probe (reg : RoomKeyRegistry) (mapped : bool) (ctx : SframeSealCtx) (buf : bytes) :
    SframeSealCtx * bytes :=
  let key_epoch :=
    if seal_room ctx then (fun sk => (sk_key sk, sk_epoch sk)) <$> seal_key reg
    else Some (seal_base_key ctx, seal_epoch ctx) in
  match key_epoch with
  | None => (ctx, buf)
  | Some (key, epoch) =>
      if negb mapped then (ctx, buf)
      else
        let counter := send_counter ctx in
        let ctx := mkSealCtx (seal_room ctx) (seal_base_key ctx) (seal_epoch ctx) (u64 (counter + 1)) in
        match sframe_seal_v1 key epoch counter buf with
        | Throw _ => (ctx, buf)
        | Ok sealed => (ctx, sealed)
        end
  end.

Definition sframe_open_probe (now : Z) (reg : RoomKeyRegistry) (mapped : bool) (ctx : SframeOpenCtx) (buf : bytes) :
    RoomKeyRegistry * result AeadError ProbeResult :=
  if negb mapped then (reg, Ok (Passed buf))
  else
    let '(key, reg) :=
      if open_room ctx then
        match sframe_peek_epoch buf with
        | Some fe => open_key now (open_sender_pubkey ctx) fe reg
        | None => (None, reg)
        end
      else (Some (open_base_key ctx), reg) in
    match key with
    | None => (reg, Ok Dropped)
    | Some key =>
        (reg, let? opened := sframe_open_v1 key buf in
              Ok (match opened with Some b => Passed b | None => Dropped end))
    end.

(** ** A frame through a room *)

Context `{!AesGcmLaws}.

Lemma seal_available base_key epoch counter p :
  aes256gcm_hw_available = true -> exists sealed, sframe_seal_v1 base_key epoch counter p = Ok sealed.
Proof. intros Hhw. unfold sframe_seal_v1, aead_encrypt. rewrite Hhw. cbn [negb rbind]. eauto. Qed.

(** Media frames of a room arrive.  Whatever secrets two members were given
    and whatever keys they asked for before, a frame that one seals under its
    current epoch is opened by the other as that sender's frame, if the other
    knows the same secret for that epoch, as its current one or as the previous
    one within the grace period; otherwise, if it has no secret for the epoch, the
    frame is dropped. *)
Theorem room_frame_delivered (opsA opsB : list RoomOp) (alice bob : bytes) (graceA graceB now : Z) (x : Rotation)
    (rest : list Rotation) (ctx : SframeSealCtx) (octx : SframeOpenCtx) (frame : bytes)
    (Hhw : aes256gcm_hw_available = true)
    (Hctx : seal_room ctx = true /\ is_u64 (send_counter ctx))
    (Hoctx : open_room octx = true /\ open_sender_pubkey octx = alice)
    (Hrot : rotations opsA = x :: rest) (Hx : is_u32 (rot_epoch x)) :
  let regA := run_ops opsA (new_registry alice graceA) in
  let regB := run_ops opsB (new_registry bob graceB) in
  let sealed := (sframe_seal_probe regA true ctx frame).2 in
  (secret_at graceB now (rot_epoch x) (rotations opsB) = Some (rot_secret x) ->
   (sframe_open_probe now regB true octx sealed).2 = Ok (Passed frame)) /\
  (secret_at graceB now (rot_epoch x) (rotations opsB) = None ->
   (sframe_open_probe now regB true octx sealed).2 = Ok Dropped).
Proof.
  intros regA regB. destruct Hctx as [Hroom Hcnt], Hoctx as [Horoom Hsender].
  pose proof (seal_key_run alice graceA opsA) as Hseal. fold regA in Hseal. rewrite Hrot in Hseal.
  unfold sframe_seal_probe. rewrite Hroom, Hseal. cbn [fmap option_fmap option_map sk_key sk_epoch negb].
  destruct (seal_available (derive_room_sframe_key (rot_secret x) alice (rot_epoch x)) (rot_epoch x) (send_counter ctx) frame Hhw)
    as [sealed Es].
  rewrite Es. cbn [snd]. destruct (sframe_roundtrip _ _ _ _ _ Hx Hcnt Es) as [Epeek Eopen].
  unfold sframe_open_probe. cbn [negb]. rewrite Horoom, Epeek, Hsender.
  pose proof (open_key_run bob graceB opsB now alice (rot_epoch x)) as Hopen. fold regB in Hopen.
  destruct (open_key now alice (rot_epoch x) regB) as [k reg']. cbn [fst] in Hopen. rewrite Hopen. split; intros Hsec; rewrite Hsec.
  - cbn [fmap option_fmap option_map snd]. by rewrite Eopen.
  - done.
Qed.

(** ** Keys and nonces that are used twice *)

(** The part of a sealed frame that depends on the frame. *)
Definition sealed_with (key nonce header frame : bytes) : bytes := header ++ gcm_seal key nonce frame header.

Lemma seal_v1_with base_key epoch counter p :
  aes256gcm_hw_available = true ->
  sframe_seal_v1 base_key epoch counter p =
  Ok (sealed_with (frame_key base_key epoch counter) (frame_nonce base_key epoch counter) (sframe_header epoch counter) p).
Proof. intros Hhw. unfold sframe_seal_v1, aead_encrypt. rewrite Hhw. done. Qed.

(** The context after sending frames. *)
Definition send_frames (reg : RoomKeyRegistry) (frames : list bytes) (ctx : SframeSealCtx) : SframeSealCtx :=
  foldl (fun ctx f => (sframe_seal_probe reg true ctx f).1) ctx frames.

Lemma send_frames_counter reg frames ctx :
  seal_room ctx = false ->
  send_frames reg frames ctx =
  mkSealCtx false (seal_base_key ctx) (seal_epoch ctx) (foldl (fun c _ => u64 (c + 1)) (send_counter ctx) frames).
Proof.
  revert ctx. induction frames as [|f frames IH]; intros ctx Hr; [destruct ctx; cbn in *; by subst|].
  cbn [send_frames foldl]. fold (send_frames reg frames (sframe_seal_probe reg true ctx f).1).
  assert ((sframe_seal_probe reg true ctx f).1 = mkSealCtx false (seal_base_key ctx) (seal_epoch ctx) (u64 (send_counter ctx + 1))) as ->.
  { unfold sframe_seal_probe. rewrite Hr. cbn [negb]. by destruct (sframe_seal_v1 _ _ _ _). }
  by rewrite IH.
Qed.

Lemma foldl_length {A B} (f : A -> A) (l l' : list B) (a : A) :
  length l = length l' -> foldl (fun x _ => f x) a l = foldl (fun x _ => f x) a l'.
Proof.
  revert l' a. induction l as [|b l IH]; intros [|b' l'] a E; try done. injection E as E. cbn. by apply IH.
Qed.

(** C40: Both directions of a call use the same keys and nonces.  Caller and
    callee derive one base key from the shared secret and the call id, and both
    count from 0: after equally many frames, the next frames of the two sides are
    sealed under the same key and nonce, whatever their contents, and a side that
    is sent its own frame back accepts it as the peer's.  In a room, setting the
    room context again restarts the counter under an unchanged key, so the next
    frame reuses the key and nonce of the first. *)
Theorem call_nonces_reused (shared call_id : bytes) (epoch : Z) (ctxA ctxB : SframeSealCtx) (regA regB : RoomKeyRegistry)
    (framesA framesB : list bytes)
    (Hhw : aes256gcm_hw_available = true) (Hlen : length framesA = length framesB) (He : is_u32 epoch) :
  let A := send_frames regA framesA (set_sframe_context epoch shared call_id ctxA) in
  let B := send_frames regB framesB (set_sframe_context epoch shared call_id ctxB) in
  (exists key nonce header, forall a b,
     (sframe_seal_probe regA true A a).2 = sealed_with key nonce header a /\
     (sframe_seal_probe regB true B b).2 = sealed_with key nonce header b) /\
  (is_u64 (send_counter A) -> forall now a,
     (sframe_open_probe now regA true (mkOpenCtx false [] (seal_base_key A)) (sframe_seal_probe regA true A a).2).2 = Ok (Passed a)) /\
  (forall reg sk ctx, seal_key reg = Some sk ->
     exists key nonce header, forall a b,
       (sframe_seal_probe reg true (set_room_context true ctx) a).2 = sealed_with key nonce header a /\
       (sframe_seal_probe reg true (set_room_context true (sframe_seal_probe reg true (set_room_context true ctx) a).1) b).2 =
         sealed_with key nonce header b).
Proof.
  intros A B. split_and!.
  - unfold A, B. rewrite !send_frames_counter by done. cbn [set_sframe_context seal_base_key seal_epoch send_counter].
    rewrite (foldl_length (fun c => u64 (c + 1)) framesA framesB) by done. unfold sframe_seal_probe.
    cbn [seal_room seal_base_key seal_epoch send_counter negb]. do 3 eexists. intros a b. rewrite !seal_v1_with by done. by split.
  - intros Hc now a. unfold A in *. rewrite send_frames_counter in * by done.
    cbn [set_sframe_context seal_base_key seal_epoch send_counter] in *. unfold sframe_seal_probe.
    cbn [seal_room seal_base_key seal_epoch send_counter negb].
    destruct (seal_available (call_base_key shared call_id) epoch (foldl (fun c _ => u64 (c + 1)) 0 framesA) a Hhw) as [sealed Es].
    rewrite Es. cbn [snd]. destruct (sframe_roundtrip _ _ _ _ _ He Hc Es) as [_ Eopen].
    unfold sframe_open_probe. cbn [negb open_room open_base_key snd]. by rewrite Eopen.
  - intros reg sk ctx Hsk. do 3 eexists. intros a b. unfold sframe_seal_probe, set_room_context.
    cbn [seal_room seal_base_key seal_epoch send_counter]. rewrite Hsk. cbn [fmap option_fmap option_map negb].
    rewrite !seal_v1_with by done. cbn [fst snd seal_base_key seal_epoch]. by split.
Qed.

(** ** Sealing fails open *)

(** Without AES hardware, without a room secret or without a mapping the frame
    leaves unsealed. *)
Lemma seal_probe_fails_open reg mapped ctx frame :
  aes256gcm_hw_available = false \/ (seal_room ctx = true /\ seal_key reg = None) \/ mapped = false ->
  (sframe_seal_probe reg mapped ctx frame).2 = frame.
Proof.
  intros Hcase. unfold sframe_seal_probe.
  destruct (if seal_room ctx then _ else _) as [[key epoch]|] eqn:Ek; [|done]. destruct mapped; [|done]. cbn [negb].
  destruct Hcase as [Hhw|[[Hr Hs]|]]; [|rewrite Hr, Hs in Ek; done|done].
  unfold sframe_seal_v1, aead_encrypt. by rewrite Hhw.
Qed.
End call.

(** ** Which sender a track carries ([src/core/src/media/track_bindings.cpp]) *)

(** [RoomOffer.track_bindings]: (mid, sender key) in order. *)
Definition TrackBindings := list (bytes * bytes).

Definition bind_track (mid sender_pubkey : bytes) (offer : TrackBindings) : TrackBindings := offer ++ [(mid, sender_pubkey)].

Definition sender_for_track (mid : bytes) (offer : TrackBindings) : option bytes :=
  if bool_decide (mid = []) then None else snd <$> find (fun tb => bool_decide (tb.1 = mid)) offer.

(** A track keeps its first binding; binding a new one does not disturb others. *)
Lemma sender_for_track_bind mid mid' pk offer :
  sender_for_track mid (bind_track mid' pk offer) =
  match sender_for_track mid offer with
  | Some s => Some s
  | None => if bool_decide (mid = mid' /\ mid <> []) then Some pk else None
  end.
Proof.
  unfold sender_for_track, bind_track. case_bool_decide as Hm; [by rewrite bool_decide_false by tauto|].
  induction offer as [|[m k] offer IH]; cbn [app find fst].
  - destruct (decide (mid' = mid)) as [->|Hne].
    + by rewrite !bool_decide_true by done.
    + by rewrite !bool_decide_false by naive_solver.
  - destruct (bool_decide (m = mid)); [done|]. apply IH.
Qed.

(** ** Media frames on concrete data *)
From S2P Require Import Prelude Crypto SenderKeys Ratchet Toy SFrame RoomKeys Topics.

#[export] Instance toy_gcm : AesGcm := {| aes256gcm_hw_available := true; gcm_seal := toy_seal; gcm_open := toy_open |}.

#[export] Instance toy_gcm_laws : AesGcmLaws.
Proof. split; [apply (@open_seal toy_sodium _)|apply (@length_seal toy_sodium _)]. Qed.

Definition m_alice : bytes := replicate 32 (z2b 1).
Definition m_bob : bytes := replicate 32 (z2b 2).
Definition m_secret (k : Z) : bytes := replicate 32 (z2b k).

(** Bob has rotated to epoch 2 while Alice still seals under epoch 1. *)
Definition m_opsA : list RoomOp := [OpSetSecret 0 (m_secret 7) 1].
Definition m_opsB : list RoomOp := [OpSetSecret 0 (m_secret 7) 1; OpOpenKey 5 m_alice 1; OpSetSecret 100 (m_secret 8) 2].
Definition m_seal : SframeSealCtx := mkSealCtx true [] 1 3.
Definition m_open : SframeOpenCtx := mkOpenCtx true m_alice [].

Lemma room_frame_delivered_witness :
  let regA := run_ops m_opsA (new_registry m_alice 50) in
  let regB := run_ops m_opsB (new_registry m_bob 50) in
  let sealed := (sframe_seal_probe regA true m_seal (str "voice")).2 in
  (sframe_open_probe 120 regB true m_open sealed).2 = Ok (Passed (str "voice")) /\
  (sframe_open_probe 150 regB true m_open sealed).2 = Ok Dropped.
Proof.
  assert (rotations m_opsA = [mkRotation 0 1 (m_secret 7)]) as Hrot by (vm_compute; reflexivity).
  assert (seal_room m_seal = true /\ is_u64 (send_counter m_seal)) as Hs by (split; [reflexivity|split; [discriminate|reflexivity]]).
  assert (open_room m_open = true /\ open_sender_pubkey m_open = m_alice) as Ho by (split; reflexivity).
  assert (is_u32 (rot_epoch (mkRotation 0 1 (m_secret 7)))) as Hx by (split; [discriminate|reflexivity]).
  assert (secret_at 50 120 1 (rotations m_opsB) = Some (m_secret 7)) as H1 by (vm_compute; reflexivity).
  assert (secret_at 50 150 1 (rotations m_opsB) = None) as H2 by (vm_compute; reflexivity).
  pose proof (room_frame_delivered m_opsA m_opsB m_alice m_bob 50 50 120 _ [] m_seal m_open (str "voice") eq_refl Hs Ho Hrot Hx) as T1.
  pose proof (room_frame_delivered m_opsA m_opsB m_alice m_bob 50 50 150 _ [] m_seal m_open (str "voice") eq_refl Hs Ho Hrot Hx) as T2.
  split; [exact (proj1 T1 H1)|exact (proj2 T2 H2)].
Defined.

Lemma call_nonces_reused_witness :
  let c := mkSealCtx false [] 0 0 in
  let r := new_registry m_alice 50 in
  exists key nonce header, forall a b,
    (sframe_seal_probe r true (send_frames r [str "x"] (set_sframe_context 1 (m_secret 7) (m_secret 9) c)) a).2 =
      sealed_with key nonce header a /\
    (sframe_seal_probe r true (send_frames r [str "y"] (set_sframe_context 1 (m_secret 7) (m_secret 9) c)) b).2 =
      sealed_with key nonce header b.
Proof.
  intros c r. assert (aes256gcm_hw_available = true) as Hhw by reflexivity.
  assert (is_u32 1) as He by (split; [discriminate|reflexivity]).
  exact (proj1 (call_nonces_reused (m_secret 7) (m_secret 9) 1 c c r r [str "x"] [str "y"] Hhw eq_refl He)).
Defined.
