(* ===== verification/Forwarder.v ===== *)
(** * Topology of group calls ([src/core/src/media/forwarder.cpp])

    Election of the forwarder, who dials whom, the distribution tree and the
    forwarding edges as leaves come and go. *)
From S2P Require Import Prelude StdMap.

Record ForwarderCandidate := mkCandidate {
  fc_pubkey : bytes;
  uplink_class : Z;
}.

#[export] Instance ForwarderCandidate_eq_dec : EqDecision ForwarderCandidate.
Proof. solve_decision. Defined.

(** [c] replaces [best]. *)
Definition better (c best : ForwarderCandidate) : bool :=
  (uplink_class best <? uplink_class c) ||
  ((uplink_class c =? uplink_class best) && key_ltb (fc_pubkey c) (fc_pubkey best)).

Definition elect_step (best : option ForwarderCandidate) (c : ForwarderCandidate) : option ForwarderCandidate :=
  if uplink_class c <=? 0 then best
  else match best with
       | None => Some c
       | Some b => if better c b then Some c else best
       end.

Definition elect_forwarder (candidates : list ForwarderCandidate) (mesh_threshold : nat) : bytes :=
  if (length candidates <? mesh_threshold)%nat then []
  else match foldl elect_step None candidates with
       | Some best => fc_pubkey best
       | None => []
       end.

Record ForwarderPlan := mkPlan {
  plan_forwarder : bytes;
  i_am_forwarder : bool;
  mesh : bool;
  dial : list bytes;
}.

Definition sort_keys (l : list bytes) : list bytes := merge_sort key_le l.

Definition plan_topology (participants : list bytes) (my_pubkey forwarder : bytes) : ForwarderPlan :=
  let others := filter (fun p => p <> my_pubkey) participants in
  if bool_decide (forwarder = []) then mkPlan forwarder false true (sort_keys others)
  else if bool_decide (forwarder = my_pubkey) then mkPlan forwarder true false (sort_keys others)
  else mkPlan forwarder false false (sort_keys [forwarder]).

(** ** The distribution tree *)

Record TreeNode := mkTreeNode {
  tn_pubkey : bytes;
  tn_parent : bytes;
  tn_depth : Z;
}.

(** The comparator of the sort: strongest first, ties by key. *)
Definition rank (c : ForwarderCandidate) : Z * bytes := (- uplink_class c, fc_pubkey c).
Definition rank_le (a b : ForwarderCandidate) : Prop := key_leb (rank a) (rank b) = true.
#[export] Instance rank_le_dec : RelDecision rank_le.
Proof. intros a b. unfold rank_le. apply _. Defined.
#[export] Instance rank_le_total : Total rank_le.
Proof. intros a b. apply key_leb_total. Qed.
#[export] Instance rank_le_trans : Transitive rank_le.
Proof. intros a b c. apply key_leb_trans. Qed.

(** One turn of the loop: [out], [parent_idx], [children_of_parent]. *)
Definition attach (fanout : nat) (st : list TreeNode * nat * nat) (c : ForwarderCandidate) : list TreeNode * nat * nat :=
  let '(out, parent_idx, children) := st in
  let '(parent_idx, children) := if (children =? fanout)%nat then (S parent_idx, 0%nat) else (parent_idx, children) in
  let parent := default (mkTreeNode [] [] 0) (out !! parent_idx) in
  (out ++ [mkTreeNode (fc_pubkey c) (tn_pubkey parent) (tn_depth parent + 1)], parent_idx, S children).

Definition build_distribution_tree (nodes : list ForwarderCandidate) (fanout : nat) : list TreeNode :=
  let fanout := if (fanout <? 1)%nat then 1%nat else fanout in
  match merge_sort rank_le nodes with
  | [] => []
  | root :: rest => (foldl (attach fanout) ([mkTreeNode (fc_pubkey root) [] 0], 0%nat, 0%nat) rest).1.1
  end.

(** ** Forwarding edges *)

Abbreviation ForwardEdge := (bytes * bytes)%type.
Abbreviation Leaves := (gset bytes).

Definition sort_edges (l : list ForwardEdge) : list ForwardEdge := merge_sort key_le l.

Definition leaf_edges (leaf : bytes) (s : Leaves) : list ForwardEdge :=
  set_elements s ≫= (fun other => [(leaf, other); (other, leaf)]).

Definition add_leaf (leaf : bytes) (s : Leaves) : list ForwardEdge * Leaves :=
  if bool_decide (leaf = []) || bool_decide (leaf ∈ s) then ([], s)
  else (sort_edges (leaf_edges leaf s), {[leaf]} ∪ s).

Definition remove_leaf (leaf : bytes) (s : Leaves) : list ForwardEdge * Leaves :=
  if bool_decide (leaf ∈ s) then
    let s := s ∖ {[leaf]} in (sort_edges (leaf_edges leaf s), s)
  else ([], s).

Definition edges (s : Leaves) : list ForwardEdge :=
  sort_edges (set_elements s ≫= (fun a => (fun b => (a, b)) <$> filter (fun b => a <> b) (set_elements s))).

Definition subscribers_of (src : bytes) (s : Leaves) : list bytes :=
  if bool_decide (src ∈ s) then filter (fun other => other <> src) (set_elements s) else [].

Definition leaves (s : Leaves) : list bytes := set_elements s.
Definition leaf_count (s : Leaves) : nat := size s.
Definition has_leaf (leaf : bytes) (s : Leaves) : bool := bool_decide (leaf ∈ s).

(** ** The election *)

Lemma better_rank c b : better c b = key_ltb (rank c) (rank b).
Proof.
  unfold better, key_ltb, rank. cbn [key_leb prod_ord Z_ord fst snd].
  destruct (Z.leb_spec (- uplink_class b) (- uplink_class c)), (Z.ltb_spec (uplink_class b) (uplink_class c));
    try lia; cbn [orb]; try done.
  destruct (Z.leb_spec (- uplink_class c) (- uplink_class b)), (Z.eqb_spec (uplink_class c) (uplink_class b)); try lia; done.
Qed.

Definition elected (l : list ForwarderCandidate) (best : option ForwarderCandidate) : Prop :=
  match best with
  | None => Forall (fun c => uplink_class c <= 0) l
  | Some b => b ∈ l /\ 0 < uplink_class b /\ Forall (fun c => 0 < uplink_class c -> rank_le b c) l
  end.

Lemma elect_step_elected l best c : elected l best -> elected (l ++ [c]) (elect_step best c).
Proof.
  unfold elect_step. intros He. destruct (Z.leb_spec (uplink_class c) 0) as [Hc|Hc].
  - destruct best as [b|]; cbn in He |- *.
    + destruct He as (Hb & Hp & Hall). rewrite elem_of_app, Forall_app, Forall_singleton. split_and!; auto. lia.
    + by rewrite Forall_app, Forall_singleton.
  - destruct best as [b|]; cbn in He.
    + destruct He as (Hb & Hp & Hall). rewrite better_rank. unfold key_ltb.
      destruct (key_leb (rank b) (rank c)) eqn:E; cbn; rewrite elem_of_app, Forall_app, Forall_singleton, list_elem_of_singleton.
      * split_and!; auto.
      * split_and!; auto; [|intros _; apply key_leb_refl]. eapply Forall_impl; [exact Hall|]. cbn. intros d Hd Hpos.
        unfold rank_le in *. specialize (Hd Hpos). destruct (key_leb_total (rank b) (rank c)) as [|Hcb]; [congruence|].
        by apply (key_leb_trans _ (rank b)).
    + cbn. rewrite elem_of_app, Forall_app, Forall_singleton, list_elem_of_singleton. split_and!; auto.
      * eapply Forall_impl; [exact He|]. cbn. lia.
      * intros _. apply key_leb_refl.
Qed.

Lemma elect_elected l : elected l (foldl elect_step None l).
Proof.
  induction l as [|c l IH] using rev_ind; [constructor|]. rewrite foldl_app. cbn [foldl]. by apply elect_step_elected.
Qed.

Lemma rank_inj a b : rank a = rank b -> a = b.
Proof. destruct a, b. unfold rank. cbn. intros [= ? ->]. f_equal. lia. Qed.

(** The winner depends on the roster, not on its order. *)
Lemma elect_perm l l' best best' : l ≡ₚ l' -> elected l best -> elected l' best' -> best = best'.
Proof.
  intros Hp He He'. destruct best as [b|], best' as [b'|]; cbn in He, He'; [..|done].
  - destruct He as (Hb & Hpos & Hall), He' as (Hb' & Hpos' & Hall'). f_equal. rewrite Forall_forall in Hall, Hall'.
    apply rank_inj, key_leb_antisym; [apply Hall; [by rewrite Hp|done]|apply Hall'; [by rewrite <- Hp|done]].
  - destruct He as (Hb & Hpos & _). rewrite Hp in Hb. rewrite Forall_forall in He'. specialize (He' b Hb). cbn in He'. lia.
  - destruct He' as (Hb & Hpos & _). rewrite <- Hp in Hb. rewrite Forall_forall in He. specialize (He b' Hb). cbn in He. lia.
Qed.

Lemma elem_of_sort_keys x l : x ∈ sort_keys l <-> x ∈ l.
Proof. unfold sort_keys. by rewrite merge_sort_Permutation. Qed.

(** Whom a member dials. *)
Lemma elem_of_dial participants me f q :
  q ∈ dial (plan_topology participants me f) <->
  if decide (f = [] \/ f = me) then q ∈ participants /\ q <> me else q = f.
Proof.
  unfold plan_topology. destruct (decide (f = [] \/ f = me)) as [Hf|Hf].
  - case_bool_decide; [|rewrite bool_decide_true by naive_solver]; cbn [dial]; rewrite elem_of_sort_keys, list_elem_of_filter; tauto.
  - rewrite !bool_decide_false by tauto. cbn [dial]. by rewrite elem_of_sort_keys, list_elem_of_singleton.
Qed.

Lemma elect_forwarder_member cs th : elect_forwarder cs th = [] \/ elect_forwarder cs th ∈ fc_pubkey <$> cs.
Proof.
  unfold elect_forwarder. destruct (_ <? _)%nat; [by left|]. pose proof (elect_elected cs) as He.
  destruct (foldl elect_step None cs) as [b|]; [|by left]. right. apply list_elem_of_fmap. exists b. by destruct He.
Qed.

(** C39: A group call is wired consistently.  Members that see the same roster in
    any order elect the same forwarder, one of them or none; each connection that
    one side plans is planned by the other, and any two members are joined
    directly or through the forwarder. *)
Theorem call_topology_consistent (cs cs' : list ForwarderCandidate) (th : nat) (p q : bytes)
    (Hperm : cs ≡ₚ cs') (Hkeys : [] ∉ fc_pubkey <$> cs)
    (Hp : p ∈ fc_pubkey <$> cs) (Hq : q ∈ fc_pubkey <$> cs) (Hne : p <> q) :
  let f := elect_forwarder cs th in
  let planP := plan_topology (fc_pubkey <$> cs) p f in
  let planQ := plan_topology (fc_pubkey <$> cs') q (elect_forwarder cs' th) in
  plan_forwarder planP = plan_forwarder planQ /\
  (q ∈ dial planP <-> p ∈ dial planQ) /\
  (q ∈ dial planP \/ (f ∈ fc_pubkey <$> cs /\ f ∈ dial planP /\ f ∈ dial planQ)).
Proof.
  intros f planP planQ.
  assert (elect_forwarder cs' th = f) as Ef.
  { unfold f, elect_forwarder. rewrite <- (Permutation_length Hperm). destruct (_ <? _)%nat; [done|].
    by rewrite (elect_perm cs cs' _ _ Hperm (elect_elected cs) (elect_elected cs')). }
  assert (forall x, x ∈ fc_pubkey <$> cs' <-> x ∈ fc_pubkey <$> cs) as Hsame by (intros x; by rewrite Hperm).
  unfold planP, planQ. rewrite Ef. split_and!.
  - unfold plan_topology. destruct (bool_decide (f = [])), (bool_decide (f = p)), (bool_decide (f = q)); done.
  - rewrite !elem_of_dial. repeat case_decide; rewrite ?Hsame; naive_solver.
  - rewrite !elem_of_dial. destruct (elect_forwarder_member cs th) as [E|E]; fold f in E;
      repeat case_decide; rewrite ?Hsame; naive_solver.
Qed.

(** ** The tree *)

Section tree.
Context (F : nat) (HF : (1 <= F)%nat) (ranked : list ForwarderCandidate).

(** Node [i] hangs under node [(i - 1) / F]. *)
Definition tree_node (out : list TreeNode) (i : nat) (c : ForwarderCandidate) (t : TreeNode) : Prop :=
  tn_pubkey t = fc_pubkey c /\
  if decide (i = 0)%nat then tn_parent t = [] /\ tn_depth t = 0
  else exists pc pt, ranked !! ((i - 1) / F)%nat = Some pc /\ out !! ((i - 1) / F)%nat = Some pt /\
    tn_parent t = fc_pubkey pc /\ tn_depth t = tn_depth pt + 1.

Definition tree_ok (out : list TreeNode) : Prop :=
  forall i t, out !! i = Some t -> exists c, ranked !! i = Some c /\ tree_node out i c t.

(** After [k + 1] nodes the parent is [(k - 1) / F], with the children counted. *)
Definition loop_ok (k : nat) (st : list TreeNode * nat * nat) : Prop :=
  let '(out, pi, ch) := st in
  length out = S k /\ tree_ok out /\ (pi * F + ch = k)%nat /\ (ch <= F)%nat.

Lemma tree_node_app out more i c t : (0 < length out)%nat -> tree_node out i c t -> tree_node (out ++ more) i c t.
Proof.
  intros _ [Hk Hp]. split; [done|]. case_decide; [done|]. destruct Hp as (pc & pt & H1 & H2 & H3 & H4).
  exists pc, pt. split_and!; try done. by apply lookup_app_l_Some.
Qed.

Lemma attach_ok k st c : ranked !! S k = Some c -> loop_ok k st -> loop_ok (S k) (attach F st c).
Proof.
  destruct st as [[out pi] ch]. intros Hc (Hlen & Hok & Hk & Hch). unfold attach.
  assert (exists pi' ch', (if (ch =? F)%nat then (S pi, 0%nat) else (pi, ch)) = (pi', ch') /\
    (pi' * F + ch' = k)%nat /\ (ch' < F)%nat) as (pi' & ch' & -> & Hk' & Hch').
  { destruct (Nat.eqb_spec ch F) as [->|Hne]; eexists _, _; (split; [done|]); [|lia]. split; [cbn; lia|lia]. }
  assert (pi' = k / F)%nat as Hpi by (apply (Nat.div_unique k F pi' ch'); lia).
  assert (pi' < S k)%nat as Hlt by nia.
  destruct (lookup_lt_is_Some_2 out pi') as [pt Hpt]; [lia|]. rewrite Hpt. cbn [default].
  split_and!; [rewrite length_app; cbn; lia| |lia|lia].
  intros i t Hi. apply lookup_app_Some in Hi as [Hi|[Hge Hi]].
  - destruct (Hok i t Hi) as (ci & Hci & Hti). exists ci. split; [done|]. apply tree_node_app; [lia|done].
  - assert (i = S k) as ->.
    { apply lookup_lt_Some in Hi. cbn in Hi. lia. }
    rewrite Hlen, Nat.sub_diag in Hi. injection Hi as <-. exists c. split; [done|]. split; [done|].
    rewrite decide_False by lia. replace (S k - 1)%nat with k by lia. rewrite <- Hpi.
    destruct (Hok pi' pt Hpt) as (pc & Hpc & Hpk & _). exists pc, pt. split_and!; [done|by apply lookup_app_l_Some|by rewrite <- Hpk|done].
Qed.

Lemma attach_loop l k st :
  loop_ok k st -> drop (S k) ranked = l -> loop_ok (k + length l) (foldl (attach F) st l).
Proof.
  revert k st. induction l as [|c l IH]; intros k st Hst Hl; [by rewrite Nat.add_0_r|]. cbn [foldl length].
  assert (ranked !! S k = Some c) as Hc.
  { rewrite <- (Nat.add_0_r (S k)), <- lookup_drop, Hl. done. }
  rewrite Nat.add_succ_r, <- Nat.add_succ_l. apply IH; [by apply attach_ok|].
  replace (S (S k)) with (S k + 1)%nat by lia. by rewrite <- drop_drop, Hl.
Qed.
End tree.

(** The tree has one node per member, strongest first; every other node hangs
    under an earlier one, one level deeper, and each node has at most [fanout]
    children, those at the positions that divide to its own. *)
Theorem distribution_tree_correct (nodes : list ForwarderCandidate) (fanout : nat) :
  let ranked := merge_sort rank_le nodes in
  let out := build_distribution_tree nodes fanout in
  ranked ≡ₚ nodes /\ StronglySorted rank_le ranked /\ length out = length nodes /\
  tree_ok (Nat.max 1 fanout) ranked out.
Proof.
  intros ranked out. assert (ranked ≡ₚ nodes) as Hperm by apply merge_sort_Permutation.
  split; [done|]. split; [apply (StronglySorted_merge_sort rank_le)|].
  assert ((if (fanout <? 1)%nat then 1%nat else fanout) = Nat.max 1 fanout) as EF by (destruct (Nat.ltb_spec fanout 1); lia).
  unfold out, build_distribution_tree. rewrite EF. fold ranked. rewrite <- (Permutation_length Hperm). destruct ranked as [|root rest] eqn:Er.
  { split; [done|]. intros i t Hi. by rewrite lookup_nil in Hi. }
  pose proof (attach_loop (Nat.max 1 fanout) ltac:(lia) (root :: rest) rest 0 ([mkTreeNode (fc_pubkey root) [] 0], 0%nat, 0%nat)) as Hloop.
  destruct (foldl (attach (Nat.max 1 fanout)) _ rest) as [[o pi] ch]. destruct Hloop as (Hlen & Hok & _); [|by cbn; rewrite drop_0|].
  - split_and!; [done| |done|lia]. intros i t Hi. destruct i as [|i]; [|by rewrite lookup_nil in Hi || done].
    injection Hi as <-. exists root. done.
  - split; [cbn; lia|done].
Qed.

(** ** The edges *)

Lemma elem_of_edges a b s : (a, b) ∈ edges s <-> a ∈ s /\ b ∈ s /\ a <> b.
Proof.
  unfold edges, sort_edges. rewrite merge_sort_Permutation, list_elem_of_bind. split.
  - intros (x & Hin & Hx). apply list_elem_of_fmap in Hin as (y & [= -> ->] & Hy). apply list_elem_of_filter in Hy as [Hne Hy].
    rewrite elem_of_set_elements in Hx, Hy. done.
  - intros (Ha & Hb & Hne). exists a. rewrite elem_of_set_elements. split; [|done]. apply list_elem_of_fmap. exists b.
    split; [done|]. by rewrite list_elem_of_filter, elem_of_set_elements.
Qed.

Lemma NoDup_edges s : NoDup (edges s).
Proof.
  unfold edges, sort_edges. rewrite merge_sort_Permutation. apply NoDup_bind.
  - intros x y z _ _ Hx Hy. apply list_elem_of_fmap in Hx as (? & -> & _), Hy as (? & [= ->] & _). done.
  - intros x _. apply NoDup_fmap_2; [by intros ? ? [=]|]. apply NoDup_filter, NoDup_set_elements.
  - apply NoDup_set_elements.
Qed.

Lemma elem_of_leaf_edges leaf s a b :
  (a, b) ∈ leaf_edges leaf s <-> (a = leaf /\ b ∈ s) \/ (a ∈ s /\ b = leaf).
Proof.
  unfold leaf_edges. rewrite list_elem_of_bind. split.
  - intros (x & Hin & Hx). rewrite elem_of_set_elements in Hx. rewrite !elem_of_cons in Hin.
    destruct Hin as [[= -> ->]|[[= -> ->]|[]%not_elem_of_nil]]; auto.
  - intros [[-> Hb]|[Ha ->]]; [exists b|exists a]; rewrite elem_of_set_elements, !elem_of_cons; auto.
Qed.

Lemma NoDup_leaf_edges leaf s : leaf ∉ s -> NoDup (leaf_edges leaf s).
Proof.
  intros Hl. unfold leaf_edges. assert (forall x, x ∈ set_elements s -> x <> leaf) as Hne.
  { intros x Hx ->. by rewrite elem_of_set_elements in Hx. }
  apply NoDup_bind.
  - intros x y z Hx Hy Hzx Hzy. specialize (Hne x Hx) as Nx. specialize (Hne y Hy) as Ny.
    rewrite !elem_of_cons in Hzx, Hzy. destruct Hzx as [->|[->|[]%not_elem_of_nil]], Hzy as [E|[E|[]%not_elem_of_nil]]; congruence.
  - intros x Hx. specialize (Hne x Hx). apply NoDup_cons. split; [|apply NoDup_singleton].
    intros [= E1 E2]%list_elem_of_singleton. congruence.
  - apply NoDup_set_elements.
Qed.

Lemma sort_edges_perm l : sort_edges l ≡ₚ l.
Proof. apply merge_sort_Permutation. Qed.

(** Joining a fresh leaf adds exactly its edges. *)
Lemma edges_join leaf s : leaf ∉ s -> edges ({[leaf]} ∪ s) ≡ₚ edges s ++ leaf_edges leaf s.
Proof.
  intros Hl. apply NoDup_Permutation; [apply NoDup_edges|apply NoDup_app; split_and!|].
  - apply NoDup_edges.
  - intros [a b] Hab Hin. rewrite elem_of_edges in Hab. rewrite elem_of_leaf_edges in Hin. naive_solver.
  - by apply NoDup_leaf_edges.
  - intros [a b]. rewrite elem_of_app, !elem_of_edges, elem_of_leaf_edges, !elem_of_union, !elem_of_singleton.
    destruct (decide (a = leaf)), (decide (b = leaf)); naive_solver.
Qed.

(** The forwarder's edge deltas are exact.  The edges are the ordered pairs of
    distinct leaves, without repetition; adding a leaf reports exactly the edges
    that appear and removing one exactly those that disappear, whatever the set of
    leaves; a leaf's subscribers are the targets of its edges. *)
Theorem forwarding_deltas_exact (leaf : bytes) (s : Leaves) :
  let '(added, s1) := add_leaf leaf s in
  let '(removed, s2) := remove_leaf leaf s in
  (edges s1 ≡ₚ edges s ++ added) /\ (edges s ≡ₚ edges s2 ++ removed) /\
  (leaf ∉ s2) /\ (leaf <> [] -> leaf ∈ s1) /\
  NoDup (edges s) /\ (forall a b, (a, b) ∈ edges s <-> a ∈ s /\ b ∈ s /\ a <> b) /\
  (forall src other, other ∈ subscribers_of src s <-> (src, other) ∈ edges s).
Proof.
  unfold add_leaf, remove_leaf.
  assert (forall src other, other ∈ subscribers_of src s <-> (src, other) ∈ edges s) as Hsub.
  { intros src other. rewrite elem_of_edges. unfold subscribers_of. case_bool_decide.
    - rewrite list_elem_of_filter, elem_of_set_elements. naive_solver.
    - split; [by intros []%not_elem_of_nil|naive_solver]. }
  pose proof (NoDup_edges s) as Hnd. pose proof (fun a b => elem_of_edges a b s) as Hel.
  destruct (bool_decide (leaf ∈ s)) eqn:El.
  - apply bool_decide_eq_true in El. rewrite orb_true_r. rewrite app_nil_r, sort_edges_perm.
    split; [done|]. split; [|split; [set_solver|by auto]].
    rewrite <- edges_join by set_solver. by rewrite <- union_difference_singleton_L.
  - apply bool_decide_eq_false in El. rewrite orb_false_r, app_nil_r. case_bool_decide.
    + rewrite app_nil_r. split; [done|]. split; [done|]. by auto.
    + rewrite sort_edges_perm, edges_join by done. split; [done|]. split; [done|]. split; [done|]. split; [set_solver|by auto].
Qed.

Lemma call_topology_consistent_witness :
  let a := mkCandidate (str "a") 1 in
  let b := mkCandidate (str "b") 2 in
  let c := mkCandidate (str "c") 2 in
  elect_forwarder [a; b; c] 3 = str "b" /\
  str "b" ∈ dial (plan_topology [str "a"; str "b"; str "c"] (str "a") (str "b")) /\
  str "a" ∈ dial (plan_topology [str "c"; str "b"; str "a"] (str "b") (elect_forwarder [c; b; a] 3)).
Proof.
  intros a b c.
  assert ([a; b; c] ≡ₚ [c; b; a]) as Hperm by by_computing.
  assert ([] ∉ fc_pubkey <$> [a; b; c]) as Hk by by_computing.
  assert (str "a" ∈ fc_pubkey <$> [a; b; c]) as Ha by by_computing.
  assert (str "b" ∈ fc_pubkey <$> [a; b; c]) as Hb by by_computing.
  assert (str "a" <> str "b") as Hne by by_computing.
  destruct (call_topology_consistent [a; b; c] [c; b; a] 3 (str "a") (str "b") Hperm Hk Ha Hb Hne) as (_ & Hsym & _).
  split; [vm_compute; reflexivity|]. split; [by_computing|]. apply Hsym. by_computing.
Defined.
