(* ===== verification/ActiveSpeaker.v ===== *)
(** * Who is heard and seen ([src/core/src/media/active_speaker.cpp] and
      [plan_forwarded_video] of [src/core/src/media/forwarder.cpp])

    Levels are IEEE doubles ([spec_float]), NaN included.  A level that reaches
    the floor is not NaN, so the comparator of the sorts orders what it is given
    by [loudness], and since keys are distinct any sort returns the same list. *)
From Stdlib Require Import SpecFloat.
From S2P Require Import Prelude StdMap.

Definition level := spec_float.

(** [lvl >= floor_db] *)
Definition reaches (floor_db lvl : level) : bool := SFleb floor_db lvl.

(** The order of the numbers as one of integers. *)
Definition float_key (f : level) : Z * (Z * Z) :=
  match f with
  | S754_nan => (3, (0, 0))
  | S754_infinity true => (-2, (0, 0))
  | S754_finite true m e => (-1, (- e, Z.neg m))
  | S754_zero _ => (0, (0, 0))
  | S754_finite false m e => (1, (e, Z.pos m))
  | S754_infinity false => (2, (0, 0))
  end.

Definition flip_key (k : Z * (Z * Z)) : Z * (Z * Z) := (- k.1, (- k.2.1, - k.2.2)).

(** Louder first, ties by key. *)
Definition loudness (t : level * bytes) : (Z * (Z * Z)) * bytes := (flip_key (float_key t.1), t.2).

Definition louder_le (a b : level * bytes) : Prop := key_leb (loudness a) (loudness b) = true.
#[export] Instance louder_le_dec : RelDecision louder_le.
Proof. intros a b. unfold louder_le. apply _. Defined.
#[export] Instance louder_le_total : Total louder_le.
Proof. intros a b. apply key_leb_total. Qed.
#[export] Instance louder_le_trans : Transitive louder_le.
Proof. intros a b c. apply key_leb_trans. Qed.

(** [a.first != b.first ? a.first > b.first : a.second < b.second] *)
Definition louder (a b : level * bytes) : bool :=
  if negb (SFeqb a.1 b.1) then SFltb b.1 a.1 else key_ltb a.2 b.2.

Definition talkers (levels : gmap bytes level) (floor_db : level) : list (level * bytes) :=
  (fun kv => (kv.2, kv.1)) <$> filter (fun kv => reaches floor_db kv.2 = true) (map_elements levels).

Definition ranked_talkers (levels : gmap bytes level) (floor_db : level) : list (level * bytes) :=
  merge_sort louder_le (talkers levels floor_db).

Definition select_active_speakers (levels : gmap bytes level) (max_active : nat) (floor_db : level) : gset bytes :=
  if (length (talkers levels floor_db) <=? max_active)%nat then dom levels
  else list_to_set (snd <$> take max_active (ranked_talkers levels floor_db)).

Inductive VideoQuality := kDrop | kThumbnail | kHigh.
#[export] Instance VideoQuality_eq_dec : EqDecision VideoQuality.
Proof. solve_decision. Defined.

(** [give]: the plan and the thumbnails used. *)
Definition give (max_thumbnail : nat) (st : gmap bytes VideoQuality * nat) (key : bytes) : gmap bytes VideoQuality * nat :=
  let '(out, thumbs) := st in
  match out !! key with
  | Some _ => st
  | None => if (thumbs <? max_thumbnail)%nat then (<[key := kThumbnail]> out, S thumbs) else (<[key := kDrop]> out, thumbs)
  end.

Definition plan_forwarded_video (levels : gmap bytes level) (max_high max_thumbnail : nat) (floor_db : level) :
    gmap bytes VideoQuality :=
  let talking := ranked_talkers levels floor_db in
  let high := foldl (fun out t => <[t.2 := kHigh]> out) (∅ : gmap bytes VideoQuality) (take max_high talking) in
  let st := foldl (give max_thumbnail) (high, 0%nat) (snd <$> drop max_high talking) in
  (foldl (give max_thumbnail) st (map_elements levels).*1).1.

(** ** The comparator *)

Lemma SFcompare_key a b :
  a <> S754_nan -> b <> S754_nan ->
  SFcompare a b = Some (if bool_decide (float_key a = float_key b) then Eq
                        else if key_leb (float_key a) (float_key b) then Lt else Gt).
Proof.
  intros Ha Hb.
  assert (forall m m', Pos.compare_cont Eq m m' = Z.compare (Z.pos m) (Z.pos m')) as Hpos by done.
  destruct a as [sa|[]| |[] ma ea], b as [sb|[]| |[] mb eb]; try done; cbn [SFcompare float_key]; f_equal; rewrite ?Hpos;
    cbn [key_leb prod_ord Z_ord fst snd].
  - destruct (Z.compare_spec ea eb) as [->|Hlt|Hgt].
    + destruct (Z.compare_spec (Z.pos ma) (Z.pos mb)) as [E|Hlt|Hgt]; cbn [CompOpp].
      * injection E as ->. by rewrite bool_decide_true.
      * rewrite bool_decide_false by (intros [=]; lia). rewrite !Z.leb_refl.
        destruct (Z.leb_spec (Z.neg ma) (Z.neg mb)); [lia|done].
      * rewrite bool_decide_false by (intros [=]; lia). rewrite !Z.leb_refl.
        destruct (Z.leb_spec (Z.neg ma) (Z.neg mb)); [done|lia].
    + rewrite bool_decide_false by (intros [=]; lia). rewrite Z.leb_refl. destruct (Z.leb_spec (- ea) (- eb)); [lia|done].
    + rewrite bool_decide_false by (intros [=]; lia). rewrite Z.leb_refl.
      destruct (Z.leb_spec (- ea) (- eb)), (Z.leb_spec (- eb) (- ea)); try lia; done.
  - destruct (Z.compare_spec ea eb) as [->|Hlt|Hgt].
    + destruct (Z.compare_spec (Z.pos ma) (Z.pos mb)) as [E|Hlt|Hgt].
      * injection E as ->. by rewrite bool_decide_true.
      * rewrite bool_decide_false by (intros [=]; lia). rewrite !Z.leb_refl.
        destruct (Z.leb_spec (Z.pos ma) (Z.pos mb)); [done|lia].
      * rewrite bool_decide_false by (intros [=]; lia). rewrite !Z.leb_refl.
        destruct (Z.leb_spec (Z.pos ma) (Z.pos mb)); [lia|done].
    + rewrite bool_decide_false by (intros [=]; lia). rewrite Z.leb_refl.
      destruct (Z.leb_spec ea eb), (Z.leb_spec eb ea); try lia; done.
    + rewrite bool_decide_false by (intros [=]; lia). rewrite Z.leb_refl. destruct (Z.leb_spec ea eb); [lia|done].
Qed.

Lemma flip_key_leb a b : key_leb (flip_key a) (flip_key b) = key_leb b a.
Proof.
  assert (forall x y : Z, (- x <=? - y) = (y <=? x)) as Hz by (intros; destruct (Z.leb_spec (- x) (- y)), (Z.leb_spec y x); lia).
  destruct a as [a1 [a2 a3]], b as [b1 [b2 b3]]. cbn [flip_key key_leb prod_ord Z_ord fst snd]. by rewrite !Hz.
Qed.

Lemma key_leb_prod `{OrdKey A, OrdKey B} (a a' : A) (b b' : B) :
  key_leb (a, b) (a', b') = if key_leb a a' then (if key_leb a' a then key_leb b b' else true) else false.
Proof. done. Qed.

Lemma reaches_number floor_db lvl : reaches floor_db lvl = true -> lvl <> S754_nan.
Proof. intros Hr ->. unfold reaches, SFleb in Hr. by destruct floor_db as [| | |[] ??]. Qed.

(** The comparator of the sorts is the strict order of [loudness]. *)
Lemma louder_loudness (a b : level * bytes) :
  a.1 <> S754_nan -> b.1 <> S754_nan -> louder a b = key_ltb (loudness a) (loudness b).
Proof.
  intros Ha Hb. unfold louder, SFeqb, SFltb, key_ltb, loudness.
  rewrite (SFcompare_key a.1 b.1), (SFcompare_key b.1 a.1) by done.
  rewrite key_leb_prod, !flip_key_leb.
  destruct (decide (float_key a.1 = float_key b.1)) as [E|Hne].
  - rewrite E, !bool_decide_true, !key_leb_refl by done. done.
  - rewrite !bool_decide_false by congruence. cbn [negb].
    destruct (key_leb (float_key a.1) (float_key b.1)) eqn:E1, (key_leb (float_key b.1) (float_key a.1)) eqn:E2; try done.
    + by destruct Hne; apply key_leb_antisym.
    + destruct (key_leb_total (float_key a.1) (float_key b.1)); congruence.
Qed.

(** ** Who talks *)

Section speakers.
Context (levels : gmap bytes level) (floor_db : level).

Lemma elem_of_talkers lvl key :
  (lvl, key) ∈ talkers levels floor_db <-> levels !! key = Some lvl /\ reaches floor_db lvl = true.
Proof.
  unfold talkers. rewrite list_elem_of_fmap. split.
  - intros ([k l] & [= -> ->] & Hin). apply list_elem_of_filter in Hin as [Hr Hin]. by rewrite elem_of_map_elements in Hin.
  - intros [Hl Hr]. exists (key, lvl). split; [done|]. apply list_elem_of_filter. split; [done|]. by apply elem_of_map_elements.
Qed.

Lemma NoDup_talkers : NoDup (talkers levels floor_db).*2.
Proof.
  unfold talkers. rewrite <- list_fmap_compose. change (snd ∘ _) with (fst (A:=bytes) (B:=level)).
  pose proof (NoDup_map_elements levels) as Hnd. induction (map_elements levels) as [|[k l] es IH]; [constructor|].
  rewrite fmap_cons, NoDup_cons in Hnd. destruct Hnd as [Hni Hnd]. rewrite filter_cons. case_decide; [|by apply IH].
  rewrite fmap_cons, NoDup_cons. split; [|by apply IH]. intros Hin. apply Hni.
  apply list_elem_of_fmap in Hin as (e & -> & He). apply list_elem_of_filter in He as [_ He]. by apply list_elem_of_fmap_2.
Qed.

Lemma ranked_perm : ranked_talkers levels floor_db ≡ₚ talkers levels floor_db.
Proof. apply merge_sort_Permutation. Qed.

(** A chosen talker is strictly before one that is left. *)
Lemma ranked_louder n p q :
  p ∈ take n (ranked_talkers levels floor_db) -> q ∈ drop n (ranked_talkers levels floor_db) -> louder p q = true.
Proof.
  intros Hp Hq. set (r := ranked_talkers levels floor_db) in *.
  assert (forall t, t ∈ take n r \/ t ∈ drop n r -> t.1 <> S754_nan) as Hnum.
  { intros [lvl key] Ht. rewrite <- elem_of_app, take_drop in Ht. unfold r in Ht. rewrite ranked_perm in Ht.
    apply elem_of_talkers in Ht as [_ Hr]. by apply reaches_number in Hr. }
  rewrite louder_loudness by (apply Hnum; tauto). apply key_ltb_iff. split.
  - apply (StronglySorted_take_drop louder_le n r); [apply StronglySorted_merge_sort; apply _|done..].
  - intros E. assert (NoDup r.*2) as Hnd by (unfold r; rewrite ranked_perm; apply NoDup_talkers).
    rewrite <- (take_drop n r), fmap_app, NoDup_app in Hnd. destruct Hnd as (_ & Hdis & _).
    apply (Hdis p.2); [by apply list_elem_of_fmap_2|]. rewrite (f_equal snd E : p.2 = q.2). by apply list_elem_of_fmap_2.
Qed.

(** Active speakers.  As long as no more than [max_active] participants reach
    the floor, everybody stays audible.  Beyond that exactly [max_active] are
    audible, all of them talkers, and each precedes every talker that is muted in
    the order of the code (louder, or as loud and with the smaller key), whatever
    the levels are, NaN and infinities included. *)
Theorem active_speakers_loudest (max_active : nat) :
  let audible := select_active_speakers levels max_active floor_db in
  ((length (talkers levels floor_db) <= max_active)%nat -> audible = dom levels) /\
  ((max_active < length (talkers levels floor_db))%nat ->
   size audible = max_active /\
   forall key, key ∈ audible -> exists lvl, (lvl, key) ∈ talkers levels floor_db /\
     forall lvl' key', (lvl', key') ∈ talkers levels floor_db -> key' ∉ audible -> louder (lvl, key) (lvl', key') = true).
Proof.
  intros audible. unfold audible, select_active_speakers. split; intros Hn.
  - by rewrite (proj2 (Nat.leb_le _ _) Hn).
  - rewrite (proj2 (Nat.leb_gt _ _) Hn). split.
    + rewrite size_list_to_set.
      * rewrite length_fmap, length_take, ranked_perm. lia.
      * assert (NoDup (ranked_talkers levels floor_db).*2) as Hnd by (rewrite ranked_perm; apply NoDup_talkers).
        rewrite <- (take_drop max_active (ranked_talkers levels floor_db)), fmap_app, NoDup_app in Hnd. apply Hnd.
    + intros key Hk. apply elem_of_list_to_set, list_elem_of_fmap in Hk as ([lvl k] & -> & Hk). exists lvl. split.
      * rewrite <- ranked_perm, <- (take_drop max_active (ranked_talkers levels floor_db)), elem_of_app. by left.
      * intros lvl' key' Hin Hnin. apply (ranked_louder max_active); [done|].
        rewrite <- ranked_perm, <- (take_drop max_active (ranked_talkers levels floor_db)), elem_of_app in Hin.
        destruct Hin as [Hin|Hin]; [|done]. destruct Hnin. apply elem_of_list_to_set.
        by apply (list_elem_of_fmap_2 snd _ (lvl', key')).
Qed.
End speakers.

(** ** The video tiers *)

Lemma filter_ext_elem {A} (P Q : A -> Prop) `{!forall x, Decision (P x), !forall x, Decision (Q x)} (l : list A) :
  (forall x, x ∈ l -> P x <-> Q x) -> filter P l = filter Q l.
Proof.
  induction l as [|x l IH]; intros Hl; [done|]. rewrite !filter_cons.
  assert (filter P l = filter Q l) as -> by (apply IH; intros; apply Hl; by right).
  pose proof (Hl x ltac:(left)). repeat case_decide; tauto.
Qed.

Section video.
Context (max_thumbnail : nat).
#[local] Abbreviation give := (give max_thumbnail).

(** Keys that have a tier are passed over. *)
Lemma give_known ks out thumbs :
  NoDup ks -> foldl give (out, thumbs) ks = foldl give (out, thumbs) (filter (fun k => out !! k = None) ks).
Proof.
  revert out thumbs. induction ks as [|k ks IH]; intros out thumbs Hnd; [done|]. apply NoDup_cons in Hnd as [Hni Hnd].
  rewrite filter_cons. cbn [foldl ActiveSpeaker.give]. case_decide as Hk.
  - cbn [foldl ActiveSpeaker.give]. rewrite Hk.
    assert (forall q t, foldl give (<[k := q]> out, t) ks =
      foldl give (<[k := q]> out, t) (filter (fun k' => out !! k' = None) ks)) as Hins.
    { intros q t. rewrite IH by done. f_equal. apply filter_ext_elem. intros k' Hk'. rewrite lookup_insert_ne; [done|].
      by intros ->. }
    destruct (thumbs <? max_thumbnail)%nat; apply Hins.
  - destruct (out !! k) eqn:E; [by apply IH|done].
Qed.

(** Fresh keys get thumbnails until the budget is used, in their order. *)
Lemma give_fresh ks out thumbs :
  NoDup ks -> Forall (fun k => out !! k = None) ks ->
  (forall i k, ks !! i = Some k ->
     (foldl give (out, thumbs) ks).1 !! k = Some (if (thumbs + i <? max_thumbnail)%nat then kThumbnail else kDrop)) /\
  (forall k, k ∉ ks -> (foldl give (out, thumbs) ks).1 !! k = out !! k) /\
  (thumbs <= max_thumbnail -> (foldl give (out, thumbs) ks).2 = Nat.min (thumbs + length ks) max_thumbnail)%nat.
Proof.
  revert out thumbs. induction ks as [|k0 ks IH]; intros out thumbs Hnd Hout; [split_and!; [done|done|cbn; lia]|].
  apply NoDup_cons in Hnd as [Hni Hnd]. apply Forall_cons in Hout as [Hk0 Hout].
  cbn [foldl ActiveSpeaker.give]. rewrite Hk0.
  assert (forall q, Forall (fun k => <[k0 := q]> out !! k = None) ks) as Hout'.
  { intros q. rewrite Forall_forall in *. intros k Hk. rewrite lookup_insert_ne; [by apply Hout|]. by intros ->. }
  destruct (Nat.ltb_spec thumbs max_thumbnail) as [Hlt|Hge].
  - destruct (IH (<[k0 := kThumbnail]> out) (S thumbs) Hnd (Hout' _)) as (H1 & H2 & H3). split_and!.
    + intros [|i] k; cbn [lookup list_lookup].
      * intros [= <-]. rewrite H2 by done. rewrite lookup_insert, decide_True, Nat.add_0_r by done.
        by rewrite (proj2 (Nat.ltb_lt _ _) Hlt).
      * intros Hi. rewrite (H1 i k Hi). by replace (thumbs + S i)%nat with (S thumbs + i)%nat by lia.
    + intros k Hk. rewrite not_elem_of_cons in Hk. destruct Hk. rewrite H2 by done. by rewrite lookup_insert_ne.
    + intros _. rewrite H3 by lia. cbn [length]. lia.
  - destruct (IH (<[k0 := kDrop]> out) thumbs Hnd (Hout' _)) as (H1 & H2 & H3). split_and!.
    + intros [|i] k; cbn [lookup list_lookup].
      * intros [= <-]. rewrite H2 by done. rewrite lookup_insert, decide_True, Nat.add_0_r by done.
        by rewrite (proj2 (Nat.ltb_ge _ _) Hge).
      * intros Hi. rewrite (H1 i k Hi). destruct (Nat.ltb_spec (thumbs + i) max_thumbnail), (Nat.ltb_spec (thumbs + S i) max_thumbnail); (done || lia).
    + intros k Hk. rewrite not_elem_of_cons in Hk. destruct Hk. rewrite H2 by done. by rewrite lookup_insert_ne.
    + intros. rewrite H3 by lia. cbn [length]. lia.
Qed.
End video.

Lemma high_lookup (ts : list (level * bytes)) (out : gmap bytes VideoQuality) k :
  foldl (fun out t => <[t.2 := kHigh]> out) out ts !! k = if decide (k ∈ ts.*2) then Some kHigh else out !! k.
Proof.
  revert out. induction ts as [|t ts IH]; intros out; [done|]. cbn [foldl]. rewrite IH, fmap_cons.
  destruct (decide (k ∈ ts.*2)) as [Hin|Hni].
  - rewrite decide_True; [done|by right].
  - destruct (decide (t.2 = k)) as [<-|Hne].
    + rewrite lookup_insert, decide_True by done. rewrite decide_True; [done|by left].
    + rewrite lookup_insert_ne by done. rewrite decide_False; [done|]. rewrite not_elem_of_cons. naive_solver.
Qed.

(** Talkers, loudest first, then the others by key. *)
Definition video_order (levels : gmap bytes level) (floor_db : level) : list bytes :=
  (ranked_talkers levels floor_db).*2 ++ filter (fun k => k ∉ (talkers levels floor_db).*2) (map_elements levels).*1.

Definition tier (max_high max_thumbnail i : nat) : VideoQuality :=
  if (i <? max_high)%nat then kHigh else if (i <? max_high + max_thumbnail)%nat then kThumbnail else kDrop.

Lemma video_order_spec levels floor_db :
  NoDup (video_order levels floor_db) /\ forall k, k ∈ video_order levels floor_db <-> is_Some (levels !! k).
Proof.
  unfold video_order. split.
  - apply NoDup_app. split_and!.
    + rewrite ranked_perm. apply NoDup_talkers.
    + intros k Hk Hin. apply list_elem_of_filter in Hin as [Hni _]. by rewrite ranked_perm in Hk.
    + apply NoDup_filter, NoDup_map_elements.
  - intros k. rewrite elem_of_app, list_elem_of_filter, ranked_perm.
    assert (k ∈ (map_elements levels).*1 <-> is_Some (levels !! k)) as ->.
    { rewrite map_elements_perm, list_elem_of_fmap. split.
      - intros ([k' l] & -> & Hin). apply elem_of_map_to_list in Hin. by exists l.
      - intros [l Hl]. exists (k, l). by rewrite elem_of_map_to_list. }
    split; [|destruct (decide (k ∈ (talkers levels floor_db).*2)); tauto]. intros [Hin|[_ ?]]; [|done].
    apply list_elem_of_fmap in Hin as ([l k'] & -> & Hin). apply elem_of_talkers in Hin as [? _]. by exists l.
Qed.

(** The two passes of [give] are one over the keys that follow the high tier. *)
Lemma plan_one_pass levels max_high max_thumbnail floor_db :
  let r := ranked_talkers levels floor_db in
  let high := foldl (fun out t => <[t.2 := kHigh]> out) (∅ : gmap bytes VideoQuality) (take max_high r) in
  let rest := (drop max_high r).*2 ++ filter (fun k => k ∉ (talkers levels floor_db).*2) (map_elements levels).*1 in
  NoDup rest /\ Forall (fun k => high !! k = None) rest /\
  plan_forwarded_video levels max_high max_thumbnail floor_db = (foldl (give max_thumbnail) (high, 0%nat) rest).1.
Proof.
  intros r high rest. destruct (video_order_spec levels floor_db) as [Hnd _]. unfold video_order in Hnd. fold r in Hnd.
  rewrite <- (take_drop max_high r), fmap_app, <- app_assoc in Hnd. fold rest in Hnd.
  apply NoDup_app in Hnd as (_ & Hdis & Hnd).
  assert (Forall (fun k => high !! k = None) rest) as Hfresh.
  { apply Forall_forall. intros k Hk. unfold high. rewrite high_lookup, decide_False; [done|]. intros Hin. by apply (Hdis k). }
  split_and!; [done..|]. unfold plan_forwarded_video. fold r high. unfold rest. rewrite foldl_app.
  unfold rest in Hnd, Hfresh. apply NoDup_app in Hnd as (Hnd & _ & _). apply Forall_app in Hfresh as [Hfresh _].
  pose proof (give_fresh max_thumbnail (drop max_high r).*2 high 0%nat Hnd Hfresh) as (H1 & H2 & _).
  destruct (foldl (give max_thumbnail) (high, 0%nat) (drop max_high r).*2) as [out1 t1]. cbn [fst] in *.
  rewrite give_known by apply NoDup_map_elements. do 2 f_equal. apply filter_ext_elem. intros k _.
  assert (k ∈ (talkers levels floor_db).*2 <-> k ∈ (take max_high r).*2 \/ k ∈ (drop max_high r).*2) as ->.
  { rewrite <- elem_of_app, <- fmap_app, take_drop. unfold r. by rewrite ranked_perm. }
  destruct (decide (k ∈ (drop max_high r).*2)) as [Hin|Hni].
  - split; [|tauto]. apply list_elem_of_lookup in Hin as [i Hi]. by rewrite (H1 i k Hi).
  - rewrite H2 by done. unfold high. rewrite high_lookup. case_decide; [naive_solver|]. rewrite lookup_empty. tauto.
Qed.

(** The video plan.  Every participant of the call gets a tier and nobody
    else: in the order of talkers, loudest first, followed by the silent ones by
    key, the first [max_high] talkers are forwarded in high quality, the next
    [max_thumbnail] participants as thumbnails and the rest is dropped. *)
Theorem video_plan_tiers levels max_high max_thumbnail floor_db :
  let plan := plan_forwarded_video levels max_high max_thumbnail floor_db in
  let n := Nat.min max_high (length (talkers levels floor_db)) in
  NoDup (video_order levels floor_db) /\
  (forall i key, video_order levels floor_db !! i = Some key -> plan !! key = Some (tier n max_thumbnail i)) /\
  dom plan = dom levels.
Proof.
  intros plan n. destruct (video_order_spec levels floor_db) as [Hnd Hel]. split; [done|].
  destruct (plan_one_pass levels max_high max_thumbnail floor_db) as (Hrest & Hfresh & E). fold plan in E.
  set (r := ranked_talkers levels floor_db) in *. set (high := foldl _ _ _) in *. set (rest := _ ++ filter _ _) in *.
  destruct (give_fresh max_thumbnail rest high 0%nat Hrest Hfresh) as (H1 & H2 & _). rewrite <- E in H1, H2.
  assert (video_order levels floor_db = (take max_high r).*2 ++ rest) as Eo.
  { unfold rest, video_order. fold r. rewrite app_assoc, <- fmap_app, take_drop. done. }
  assert (length (take max_high r).*2 = n) as Hlen.
  { rewrite length_fmap, length_take. unfold n, r. by rewrite ranked_perm. }
  assert (forall i key, video_order levels floor_db !! i = Some key -> plan !! key = Some (tier n max_thumbnail i)) as Htier.
  { intros i key Hi. rewrite Eo, lookup_app_Some, Hlen in Hi. unfold tier. destruct Hi as [Hi|[Hge Hi]].
    - pose proof (lookup_lt_Some _ _ _ Hi) as Hlt. rewrite Hlen in Hlt. rewrite (proj2 (Nat.ltb_lt _ _) Hlt).
      apply list_elem_of_lookup_2 in Hi. rewrite H2.
      + unfold high. by rewrite high_lookup, decide_True.
      + rewrite Eo in Hnd. apply NoDup_app in Hnd as (_ & Hd & _). by apply Hd.
    - rewrite (H1 _ _ Hi), (proj2 (Nat.ltb_ge _ _) Hge). f_equal. cbn [Nat.add].
      destruct (Nat.ltb_spec (i - n) max_thumbnail), (Nat.ltb_spec i (n + max_thumbnail)); (done || lia). }
  split; [done|]. apply set_eq. intros k. rewrite !elem_of_dom, <- Hel. split.
  - intros Hp. rewrite Eo, elem_of_app. destruct (decide (k ∈ rest)) as [|Hni]; [by right|left].
    rewrite H2 in Hp by done. unfold high in Hp. rewrite high_lookup in Hp. case_decide; [done|]. by destruct Hp.
  - intros Hin. apply list_elem_of_lookup in Hin as [i Hi]. by rewrite (Htier i k Hi).
Qed.
