(* ===== verification/Socks5.v ===== *)
(** * SOCKS5 client ([src/core/src/net/socks5.cpp])

    The formats and the handshake.  The proxy's side of the connection is the
    sequence of segments that [recv] will see and the numbers of bytes that
    successive [send]s accept; an empty segment is the end of the stream, a zero
    or a missing entry an error or a timeout. *)
From S2P Require Import Prelude.

(** ** Formats *)

(** [enum class Rep : std::uint8_t]: any byte can be stored. *)
Definition Rep := byte.
Definition kSucceeded : Rep := Byte.x00.

Definition rep_to_string (r : Rep) : bytes :=
  match r with
  | Byte.x00 => str "succeeded"
  | Byte.x01 => str "general SOCKS failure"
  | Byte.x02 => str "connection not allowed by ruleset"
  | Byte.x03 => str "network unreachable"
  | Byte.x04 => str "host unreachable"
  | Byte.x05 => str "connection refused"
  | Byte.x06 => str "TTL expired"
  | Byte.x07 => str "command not supported"
  | Byte.x08 => str "address type not supported"
  | _ => str "unknown SOCKS reply"
  end.

Definition encode_greeting : bytes := [Byte.x05; Byte.x01; Byte.x00].
Definition encode_greeting_with_userpass : bytes := [Byte.x05; Byte.x02; Byte.x00; Byte.x02].

(** [s.size() > 255 ? 255 : s.size()] *)
Definition cap255 (s : bytes) : nat := if (255 <? length s)%nat then 255%nat else length s.

Definition encode_userpass_auth (username password : bytes) : bytes :=
  let ulen := cap255 username in
  let plen := cap255 password in
  [Byte.x01] ++ [z2b (Z.of_nat ulen)] ++ take ulen username ++ [z2b (Z.of_nat plen)] ++ take plen password.

Definition parse_greeting_response (r : bytes) : option byte :=
  match r with
  | [v; m] => if negb (bool_decide (v = Byte.x05)) then None else Some m
  | _ => None
  end.

Definition parse_userpass_response (r : bytes) : option byte :=
  match r with
  | [v; s] => if negb (bool_decide (v = Byte.x01)) then None else Some s
  | _ => None
  end.

Definition encode_connect_request (host : bytes) (port : Z) : bytes :=
  let hlen := cap255 host in
  [Byte.x05; Byte.x01; Byte.x00; Byte.x03] ++ [z2b (Z.of_nat hlen)] ++ take hlen host ++
  [z2b (Z.land (Z.shiftr port 8) 255); z2b (Z.land port 255)].

Definition connect_response_tail_len (atyp first_addr_byte : byte) : option nat :=
  match atyp with
  | Byte.x01 => Some (4 + 2)%nat
  | Byte.x03 => Some (Z.to_nat (b2z first_addr_byte) + 1 + 2)%nat
  | Byte.x04 => Some (16 + 2)%nat
  | _ => None
  end.

Definition parse_connect_response (r : bytes) : option Rep :=
  match r with
  | r0 :: r1 :: r2 :: r3 :: r4 :: _ =>
      if negb (bool_decide (r0 = Byte.x05)) then None
      else if negb (bool_decide (r2 = Byte.x00)) then None
      else match connect_response_tail_len r3 r4 with
           | None => None
           | Some tail => if (length r <? 4 + tail)%nat then None else Some r1
           end
  | _ => None
  end.

(** ** The connection to the proxy *)

Inductive SocksError :=
  | BadTargetHost
  | ProxyConnectFailed
  | ShortSend
  | ShortRecv
  | MalformedGreeting
  | MethodsRejected
  | MalformedAuthResponse
  | AuthRejected
  | UnsupportedMethod
  | MalformedReply
  | Refused (why : bytes)
  | UnknownAtyp.

Record ProxyConn := mkProxyConn {
  inbox : list bytes;
  sends : list nat;
  outbox : bytes;
  non_blocking : bool;
  io_timeout : Z;
}.

(** Code that talks to the proxy. *)
Definition Talk (A : Type) := ProxyConn -> ProxyConn * result SocksError A.

Definition tret {A} (a : A) : Talk A := fun c => (c, Ok a).
Definition tthrow {A} (e : SocksError) : Talk A := fun c => (c, Throw e).
Definition tbind {A B} (m : Talk A) (k : A -> Talk B) : Talk B :=
  fun c => match m c with
           | (c', Ok a) => k a c'
           | (c', Throw e) => (c', Throw e)
           end.

Declare Scope talk_scope.
#[local] Open Scope talk_scope.
Notation "'let!' x := m 'in' k" := (tbind m (fun x => k)) (at level 10, x name, m at level 100, k at level 200) : talk_scope.
Notation "m ;! k" := (tbind m (fun _ => k)) (at level 199, right associativity) : talk_scope.

Fixpoint send_loop (data : bytes) (sends : list nat) (out : bytes) : bytes * list nat * bool :=
  match data, sends with
  | [], _ => (out, sends, true)
  | _, [] => (out, [], false)
  | _, n :: sends' => if (n =? 0)%nat then (out, sends', false) else send_loop (drop n data) sends' (out ++ take n data)
  end.

Definition send_all (data : bytes) : Talk unit :=
  fun c => let '(out, sends', ok) := send_loop data (sends c) (outbox c) in
           (mkProxyConn (inbox c) sends' out (non_blocking c) (io_timeout c), if ok then Ok tt else Throw ShortSend).

(** Each turn receives at most what is still missing, from one segment. *)
Fixpoint recv_loop (n : nat) (segs : list bytes) : list bytes * option bytes :=
  match n, segs with
  | 0%nat, _ => (segs, Some [])
  | _, [] => ([], None)
  | _, seg :: segs' =>
      if (length seg =? 0)%nat then (segs', None)
      else if (n <? length seg)%nat then (drop n seg :: segs', Some (take n seg))
      else let '(rest, r) := recv_loop (n - length seg) segs' in (rest, app seg <$> r)
  end.

Definition recv_exact (n : nat) : Talk bytes :=
  fun c => let '(segs, r) := recv_loop n (inbox c) in
           (mkProxyConn segs (sends c) (outbox c) (non_blocking c) (io_timeout c),
            match r with Some b => Ok b | None => Throw ShortRecv end).

Definition set_blocking_mode (nb : bool) : Talk unit :=
  fun c => (mkProxyConn (inbox c) (sends c) (outbox c) nb (io_timeout c), Ok tt).
Definition set_rcv_timeout (ms : Z) : Talk unit :=
  fun c => (mkProxyConn (inbox c) (sends c) (outbox c) (non_blocking c) ms, Ok tt).

(** ** The handshake *)

Definition authenticate (username password : bytes) (method : byte) : Talk unit :=
  if bool_decide (method = Byte.xff) then tthrow MethodsRejected
  else if bool_decide (method = Byte.x02) then
    send_all (encode_userpass_auth username password) ;!
    let! auth_resp := recv_exact 2 in
    match parse_userpass_response auth_resp with
    | None => tthrow MalformedAuthResponse
    | Some status => if negb (bool_decide (status = Byte.x00)) then tthrow AuthRejected else tret tt
    end
  else if negb (bool_decide (method = Byte.x00)) then tthrow UnsupportedMethod
  else tret tt.

Definition read_reply : Talk unit :=
  let! hdr := recv_exact 5 in
  match hdr with
  | [h0; h1; h2; h3; h4] =>
      if negb (bool_decide (h0 = Byte.x05)) || negb (bool_decide (h2 = Byte.x00)) then tthrow MalformedReply
      else if negb (bool_decide (h1 = Byte.x00)) then tthrow (Refused (rep_to_string h1))
      else match connect_response_tail_len h3 h4 with
           | None => tthrow UnknownAtyp
           | Some tail => if (1 <? tail)%nat then let! _ := recv_exact (tail - 1) in tret tt else tret tt
           end
  | _ => tthrow MalformedReply
  end.

Definition handshake (target_host : bytes) (target_port timeout_ms : Z) (username password : bytes) : Talk unit :=
  let offer_userpass := negb (bool_decide (username = [])) || negb (bool_decide (password = [])) in
  set_blocking_mode false ;! set_rcv_timeout timeout_ms ;!
  send_all (if offer_userpass then encode_greeting_with_userpass else encode_greeting) ;!
  let! greet_resp := recv_exact 2 in
  match parse_greeting_response greet_resp with
  | None => tthrow MalformedGreeting
  | Some method =>
      authenticate username password method ;!
      send_all (encode_connect_request target_host target_port) ;!
      read_reply ;!
      set_blocking_mode true ;! set_rcv_timeout 0
  end.

(** [dialled]: what [tcp_connect] gave. *)
Definition socks5_connect (dialled : option ProxyConn) (target_host : bytes) (target_port timeout_ms : Z)
    (username password : bytes) : result SocksError ProxyConn :=
  if bool_decide (target_host = []) || (255 <? length target_host)%nat then Throw BadTargetHost
  else match dialled with
  | None => Throw ProxyConnectFailed
  | Some s =>
      match handshake target_host target_port timeout_ms username password s with
      | (s', Ok _) => Ok s'
      | (_, Throw e) => Throw e
      end
  end.

(** ** Streams *)

Definition stream (c : ProxyConn) : bytes := concat (inbox c).

(** Nothing fails at the sockets: no empty segment, and room for [n] sends. *)
Definition healthy (n : nat) (c : ProxyConn) : Prop :=
  Forall (fun seg => seg <> []) (inbox c) /\ Forall (fun k => k <> 0%nat) (sends c) /\ (n <= length (sends c))%nat.

Lemma recv_loop_stream n segs :
  Forall (fun seg => seg <> []) segs ->
  let '(rest, r) := recv_loop n segs in
  Forall (fun seg => seg <> []) rest /\
  (if decide (n <= length (concat segs))%nat
   then r = Some (take n (concat segs)) /\ concat rest = drop n (concat segs)
   else r = None).
Proof.
  revert n. induction segs as [|seg segs IH]; intros [|n] Hs; cbn [recv_loop].
  - done.
  - by cbn.
  - split; [done|]. rewrite decide_True by lia. done.
  - apply Forall_cons in Hs as [Hseg Hs]. rewrite (proj2 (Nat.eqb_neq _ _)) by (destruct seg; done).
    cbn [concat]. rewrite length_app. destruct (Nat.ltb_spec (S n) (length seg)) as [Hlt|Hge].
    + split.
      * constructor; [|done]. intros E. apply (f_equal length) in E. rewrite length_drop in E. cbn in E. lia.
      * rewrite decide_True by lia. cbn [concat]. rewrite take_app_le, drop_app_le by lia. done.
    + specialize (IH (S n - length seg)%nat Hs). destruct (recv_loop (S n - length seg) segs) as [rest r].
      destruct IH as [Hrest Hr]. split; [done|]. case_decide as Hn; case_decide as Hn'; try lia.
      * destruct Hr as [-> ->]. cbn. by rewrite take_app_ge, drop_app_ge by lia.
      * by rewrite Hr.
Qed.

Lemma send_loop_all data sends out :
  Forall (fun k => k <> 0%nat) sends -> (length data <= length sends)%nat ->
  exists rest, send_loop data sends out = (out ++ data, rest, true) /\
    Forall (fun k => k <> 0%nat) rest /\ (length sends - length data <= length rest)%nat.
Proof.
  revert data out. induction sends as [|k sends IH]; intros [|b data] out Hs Hlen; cbn [send_loop length] in *; try lia.
  - exists []. by rewrite app_nil_r.
  - exists (k :: sends). rewrite app_nil_r. cbn. split_and!; [done..|lia].
  - apply Forall_cons in Hs as [Hk Hs]. rewrite (proj2 (Nat.eqb_neq _ _)) by done.
    destruct (IH (drop k (b :: data)) (out ++ take k (b :: data)) Hs) as (rest & E & Hrest & Hl).
    { rewrite length_drop. cbn. lia. }
    exists rest. rewrite E, <- app_assoc, take_drop. split_and!; [done..|]. rewrite length_drop in Hl. cbn in Hl. lia.
Qed.

(** ** A logic of conversations

    [speaks m n L]: on a healthy connection with [n] sends to spare, [m] returns
    [a] after reading [w] and writing [o] with [L w a o] if the stream starts with
    such a [w], and throws if it does not. *)
Definition Lang (A : Type) := bytes -> A -> bytes -> Prop.

Definition speaks {A} (m : Talk A) (n : nat) (L : Lang A) : Prop :=
  forall k c, healthy (n + k) c ->
    (exists c' w a o, m c = (c', Ok a) /\ L w a o /\ healthy k c' /\ stream c = w ++ stream c' /\ outbox c' = outbox c ++ o) \/
    (exists c' e, m c = (c', Throw e) /\ forall w a o rest, L w a o -> stream c <> w ++ rest).

(** What is read tells where it ends and what it means. *)
Definition prefix_free {A} (L : Lang A) : Prop :=
  forall w a o w' a' o' x x', L w a o -> L w' a' o' -> w ++ x = w' ++ x' -> w = w' /\ a = a' /\ o = o'.

Definition nothing : Lang unit := fun w _ o => w = [] /\ o = [].

Lemma speaks_iff {A} (m : Talk A) n (L L' : Lang A) :
  (forall w a o, L w a o <-> L' w a o) -> speaks m n L -> speaks m n L'.
Proof.
  intros HL Hm k c Hc. destruct (Hm k c Hc) as [(c' & w & a & o & H1 & H2 & H3)|(c' & e & H1 & H2)].
  - left. exists c', w, a, o. rewrite <- HL. tauto.
  - right. exists c', e. split; [done|]. intros w a o rest Hl. apply (H2 w a o). by apply HL.
Qed.

Lemma healthy_le n n' c : (n <= n')%nat -> healthy n' c -> healthy n c.
Proof. intros ? (? & ? & ?). split_and!; [done..|lia]. Qed.

Lemma speaks_le {A} (m : Talk A) n n' L : (n <= n')%nat -> speaks m n L -> speaks m n' L.
Proof.
  intros Hn Hm k c Hc. destruct (Hm (n' - n + k)%nat c) as [(c' & w & a & o & H1 & H2 & H3 & H4)|]; [|left|by right].
  - replace (n + (n' - n + k))%nat with (n' + k)%nat by lia. done.
  - exists c', w, a, o. split_and!; [done..| |tauto|tauto]. eapply healthy_le; [|exact H3]. lia.
Qed.

Lemma speaks_ret {A} (a : A) : speaks (tret a) 0 (fun w b o => w = [] /\ b = a /\ o = []).
Proof. intros k c Hc. left. exists c, [], a, []. rewrite app_nil_r. done. Qed.

Lemma speaks_throw {A} e : speaks (A := A) (tthrow e) 0 (fun _ _ _ => False).
Proof. intros k c Hc. right. by exists c, e. Qed.

Lemma speaks_bind {A B} (m : Talk A) (f : A -> Talk B) n1 n2 (L1 : Lang A) (L2 : A -> Lang B) :
  speaks m n1 L1 -> prefix_free L1 -> (forall w a o, L1 w a o -> speaks (f a) n2 (L2 a)) ->
  speaks (tbind m f) (n1 + n2)
    (fun w b o => exists w1 a o1 w2 o2, w = w1 ++ w2 /\ o = o1 ++ o2 /\ L1 w1 a o1 /\ L2 a w2 b o2).
Proof.
  intros Hm Hpf Hf k c Hc. rewrite <- Nat.add_assoc in Hc. unfold tbind.
  destruct (Hm _ c Hc) as [(c1 & w1 & a & o1 & E1 & HL1 & Hc1 & Es & Eo)|(c1 & e & E1 & Hno)]; rewrite E1.
  - destruct (Hf w1 a o1 HL1 k c1 Hc1) as [(c2 & w2 & b & o2 & E2 & HL2 & Hc2 & Es2 & Eo2)|(c2 & e & E2 & Hno)]; rewrite E2.
    + left. exists c2, (w1 ++ w2), b, (o1 ++ o2). split; [done|]. split; [by exists w1, a, o1, w2, o2|]. split; [done|].
      rewrite Es, Es2, Eo2, Eo, !app_assoc. done.
    + right. exists c2, e. split; [done|]. intros w b o rest (w1' & a' & o1' & w2 & o2 & -> & -> & HL1' & HL2).
      rewrite Es, <- app_assoc. intros E. destruct (Hpf _ _ _ _ _ _ _ _ HL1 HL1' E) as (-> & -> & ->).
      apply app_inv_head in E. by apply (Hno w2 b o2 rest).
  - right. exists c1, e. split; [done|]. intros w b o rest (w1' & a' & o1' & w2 & o2 & -> & -> & HL1' & HL2) E.
    rewrite <- app_assoc in E. by apply (Hno _ _ _ _ HL1' E).
Qed.

Lemma speaks_send data : speaks (send_all data) (length data) (fun w _ o => w = [] /\ o = data).
Proof.
  intros k c (Hin & Hs & Hlen). destruct (send_loop_all data (sends c) (outbox c) Hs ltac:(lia)) as (rest & E & Hrest & Hl).
  left. eexists _, [], tt, data. unfold send_all. rewrite E. split; [done|]. split; [done|].
  split; [|done]. split_and!; [done..|cbn; lia].
Qed.

Lemma speaks_recv n : speaks (recv_exact n) 0 (fun w a o => length w = n /\ a = w /\ o = []).
Proof.
  intros k c (Hin & Hs & Hlen). pose proof (recv_loop_stream n (inbox c) Hin) as Hr. unfold recv_exact, stream.
  destruct (recv_loop n (inbox c)) as [segs r]. destruct Hr as [Hsegs Hr]. case_decide as Hn.
  - destruct Hr as [-> Hrest]. left. eexists _, (take n (concat (inbox c))), _, []. split; [done|].
    cbn. rewrite app_nil_r, Hrest, take_drop, length_take. split_and!; try done; lia.
  - subst r. right. eexists _, _. split; [done|]. intros w a o rest (Hw & _) E. apply (f_equal length) in E.
    rewrite length_app in E. lia.
Qed.

Lemma speaks_mode nb : speaks (set_blocking_mode nb) 0 nothing.
Proof. intros k c Hc. left. eexists _, [], tt, []. cbn. rewrite app_nil_r. done. Qed.
Lemma speaks_timeout ms : speaks (set_rcv_timeout ms) 0 nothing.
Proof. intros k c Hc. left. eexists _, [], tt, []. cbn. rewrite app_nil_r. done. Qed.

Lemma prefix_free_fixed {A} (L : Lang A) n :
  (forall w a o, L w a o -> length w = n) -> (forall w a o a' o', L w a o -> L w a' o' -> a = a' /\ o = o') -> prefix_free L.
Proof.
  intros Hlen Hdet w a o w' a' o' x x' HL HL' E.
  assert (w = w') as <- by (apply app_inj_1 in E as [? _]; [done|]; rewrite (Hlen _ _ _ HL), (Hlen _ _ _ HL'); done).
  split; [done|]. by apply (Hdet w).
Qed.

(** ** The language of the handshake *)

(** A successful reply to CONNECT, to its last byte. *)
Definition connect_reply (w : bytes) : Prop :=
  exists atyp b0 body, w = [Byte.x05; Byte.x00; Byte.x00; atyp; b0] ++ body /\
    connect_response_tail_len atyp b0 = Some (S (length body)).

Lemma connect_reply_parses w : connect_reply w -> parse_connect_response w = Some kSucceeded.
Proof.
  intros (atyp & b0 & body & -> & Ht). cbn [app parse_connect_response]. rewrite !bool_decide_true by done. cbn [negb].
  rewrite Ht. cbn [length]. by rewrite (proj2 (Nat.ltb_ge _ _)) by lia.
Qed.

Definition lang_reply : Lang unit := fun w _ o => connect_reply w /\ o = [].

Lemma tail_len_pos atyp b0 n : connect_response_tail_len atyp b0 = Some n -> (1 < n)%nat.
Proof. intros E. destruct atyp; try done; injection E as <-; lia. Qed.

Lemma prefix_free_recv n : prefix_free (fun (w a : bytes) (o : bytes) => length w = n /\ a = w /\ o = []).
Proof. apply (prefix_free_fixed _ n); naive_solver. Qed.

Lemma prefix_free_send data : prefix_free (fun w (_ : unit) o => w = [] /\ o = data).
Proof.
  apply (prefix_free_fixed _ 0); [by intros w a o [-> _]|]. intros w [] o [] o' [_ ->] [_ ->]. done.
Qed.

Lemma speaks_reply : speaks read_reply 0 lang_reply.
Proof.
  eapply speaks_iff; [|eapply (speaks_bind _ _ 0 0 _ (fun hdr w _ o => connect_reply (hdr ++ w) /\ o = []));
    [apply speaks_recv|apply prefix_free_recv|]].
  - intros w [] o. unfold lang_reply. split.
    + intros (w1 & a & o1 & w2 & o2 & -> & -> & (Hl & -> & ->) & Hr & ->). done.
    + intros [Hr ->]. exists (take 5 w), (take 5 w), [], (drop 5 w), []. rewrite take_drop. split_and!; try done.
      rewrite length_take. destruct Hr as (? & ? & ? & -> & _). cbn. lia.
  - intros w hdr o (Hlen & -> & ->). destruct w as [|h0 [|h1 [|h2 [|h3 [|h4 [|]]]]]]; try done. clear Hlen.
    assert (forall e, h0 <> Byte.x05 \/ h1 <> Byte.x00 \/ h2 <> Byte.x00 \/ connect_response_tail_len h3 h4 = None ->
      speaks (tthrow e) 0 (fun w (_ : unit) o => connect_reply ([h0; h1; h2; h3; h4] ++ w) /\ o = [])) as Hthrow.
    { intros e Hbad. eapply speaks_iff; [|apply speaks_throw]. intros w a o. split; [done|].
      intros [(atyp & b0 & body & E & Ht) _]. cbn in E. injection E as -> -> -> -> -> ->. rewrite Ht in Hbad. naive_solver. }
    case_bool_decide as H0; [|apply Hthrow; tauto]. case_bool_decide as H2; [|apply Hthrow; tauto].
    case_bool_decide as H1; [|apply Hthrow; tauto]. cbn [negb orb].
    destruct (connect_response_tail_len h3 h4) as [tail|] eqn:Et; [|apply Hthrow; tauto].
    pose proof (tail_len_pos _ _ _ Et) as Hpos. rewrite (proj2 (Nat.ltb_lt _ _) Hpos). subst h0 h1 h2.
    eapply speaks_iff; [|eapply (speaks_bind _ _ 0 0); [apply speaks_recv|apply prefix_free_recv|intros ? ? ? _; apply speaks_ret]].
    intros w [] o. split.
    + intros (w1 & a & o1 & w2 & o2 & -> & -> & (Hl & -> & ->) & -> & _ & ->). split; [|done].
      exists h3, h4, w1. rewrite app_nil_r. split; [done|]. rewrite Et. f_equal. lia.
    + intros [(atyp & b0 & body & E & Ht) ->]. cbn in E. injection E as <- <- ->. rewrite Et in Ht. injection Ht as ->.
      exists body, body, [], [], []. rewrite app_nil_r. split_and!; try done. lia.
Qed.

Definition lang_auth (username password : bytes) (method : byte) : Lang unit := fun w _ o =>
  (method = Byte.x00 /\ w = [] /\ o = []) \/
  (method = Byte.x02 /\ w = [Byte.x01; Byte.x00] /\ o = encode_userpass_auth username password).

Lemma speaks_auth username password method :
  speaks (authenticate username password method) (length (encode_userpass_auth username password)) (lang_auth username password method).
Proof.
  unfold authenticate. case_bool_decide as Hff.
  { eapply speaks_le; [apply Nat.le_0_l|]. eapply speaks_iff; [|apply speaks_throw]. intros w a o.
    unfold lang_auth. naive_solver. }
  case_bool_decide as H02.
  - rewrite <- (Nat.add_0_r (length _)).
    eapply speaks_iff; [|eapply (speaks_bind _ _ _ 0 _ (fun _ w _ o => w = [Byte.x01; Byte.x00] /\ o = []));
      [apply speaks_send|apply prefix_free_send|]].
    + intros w [] o. unfold lang_auth. split.
      * intros (w1 & a & o1 & w2 & o2 & -> & -> & (-> & ->) & -> & ->). rewrite app_nil_r. by right.
      * intros [(? & _)|(_ & -> & ->)]; [naive_solver|]. exists [], tt, (encode_userpass_auth username password), [Byte.x01; Byte.x00], [].
        by rewrite app_nil_r.
    + intros _ _ _ _. eapply speaks_iff; [|eapply (speaks_bind _ _ 0 0 _ (fun r w _ o => r = [Byte.x01; Byte.x00] /\ w = [] /\ o = []));
        [apply speaks_recv|apply prefix_free_recv|]].
      * intros w [] o. split.
        -- intros (w1 & a & o1 & w2 & o2 & -> & -> & (Hl & -> & ->) & -> & -> & ->). done.
        -- intros [-> ->]. by exists [Byte.x01; Byte.x00], [Byte.x01; Byte.x00], [], [], [].
      * intros w r o (Hl & -> & ->). destruct w as [|v [|s [|]]]; try done. cbn [parse_userpass_response].
        case_bool_decide as Hv; cbn [negb]; [case_bool_decide as Hst; cbn [negb]|].
        -- subst. eapply speaks_iff; [|apply speaks_ret]. intros w [] o. naive_solver.
        -- eapply speaks_iff; [|apply speaks_throw]. naive_solver.
        -- eapply speaks_iff; [|apply speaks_throw]. naive_solver.
  - eapply speaks_le; [apply Nat.le_0_l|]. case_bool_decide as H00; cbn [negb].
    + eapply speaks_iff; [|apply speaks_ret]. intros w [] o. unfold lang_auth. naive_solver.
    + eapply speaks_iff; [|apply speaks_throw]. intros w [] o. unfold lang_auth. naive_solver.
Qed.

Lemma prefix_free_auth username password method : prefix_free (lang_auth username password method).
Proof.
  intros w [] o w' [] o' x x' [(E & -> & ->)|(E & -> & ->)] [(E' & -> & ->)|(E' & -> & ->)] _; (done || congruence).
Qed.

Lemma prefix_free_reply : prefix_free lang_reply.
Proof.
  intros w [] o w' [] o' x x' [(atyp & b0 & body & -> & Ht) ->] [(atyp' & b0' & body' & -> & Ht') ->] E.
  rewrite <- !app_assoc in E. cbn in E. injection E as <- <- E. rewrite Ht in Ht'. injection Ht' as Hl.
  apply app_inj_1 in E as [-> _]; done.
Qed.

Lemma speaks_then_send {A} data (m : Talk A) n L :
  speaks m n L -> speaks (send_all data ;! m) (length data + n) (fun w a o => exists o', o = data ++ o' /\ L w a o').
Proof.
  intros Hm. eapply speaks_iff; [|eapply (speaks_bind _ _ _ n _ (fun _ => L)); [apply speaks_send|apply prefix_free_send|done]].
  intros w a o. split.
  - intros (w1 & ? & o1 & w2 & o2 & -> & -> & (-> & ->) & HL). by exists o2.
  - intros (o' & -> & HL). by exists [], tt, data, w, o'.
Qed.

Lemma speaks_then_nothing {A} (s : Talk unit) (m : Talk A) n L :
  speaks s 0 nothing -> speaks m n L -> speaks (s ;! m) n L.
Proof.
  intros Hs Hm. eapply speaks_iff; [|eapply (speaks_bind _ _ 0 n _ (fun _ => L)); [exact Hs|apply prefix_free_send|done]].
  intros w a o. split.
  - intros (w1 & ? & o1 & w2 & o2 & -> & -> & (-> & ->) & HL). done.
  - intros HL. by exists [], tt, [], w, o.
Qed.

(** What is sent, and what the proxy must answer; [auth]: it asks for the
    credentials. *)
Definition sent (username password host : bytes) (port : Z) (auth : bool) : bytes :=
  (if negb (bool_decide (username = [])) || negb (bool_decide (password = [])) then encode_greeting_with_userpass else encode_greeting)
  ++ (if auth then encode_userpass_auth username password else []) ++ encode_connect_request host port.

Definition method_reply (auth : bool) : bytes :=
  if auth then [Byte.x05; Byte.x02] ++ [Byte.x01; Byte.x00] else [Byte.x05; Byte.x00].

Lemma speaks_request username password host port method :
  speaks (authenticate username password method ;! send_all (encode_connect_request host port) ;! read_reply ;!
          set_blocking_mode true ;! set_rcv_timeout 0)
    (length (encode_userpass_auth username password) + length (encode_connect_request host port))
    (fun w _ o => exists auth reply, method = (if auth : bool then Byte.x02 else Byte.x00) /\ connect_reply reply /\
       w = (if auth then [Byte.x01; Byte.x00] else []) ++ reply /\
       o = (if auth then encode_userpass_auth username password else []) ++ encode_connect_request host port).
Proof.
  rewrite <- (Nat.add_0_r (length (encode_connect_request host port))).
  eapply speaks_iff; [|eapply speaks_bind; [apply speaks_auth|apply prefix_free_auth|intros ? ? ? _; apply speaks_then_send]].
  2:{ eapply (speaks_iff _ _ _ lang_reply); [|eapply (speaks_bind _ _ 0 0 _ (fun _ => nothing)); [apply speaks_reply|apply prefix_free_reply|]].
      - intros v [] p. unfold nothing, lang_reply. split.
        + intros (w1 & b & o1 & w2 & o2 & -> & -> & (Hr & ->) & -> & ->). by rewrite app_nil_r.
        + intros [Hr ->]. exists v, tt, [], [], []. by rewrite app_nil_r.
      - intros ? ? ? _. apply speaks_then_nothing; [apply speaks_mode|apply speaks_timeout]. }
  intros w [] o. unfold lang_auth, lang_reply. split.
  - intros (w1 & a & o1 & w2 & o2 & -> & -> & Ha & o' & -> & Hr & ->). rewrite app_nil_r.
    destruct Ha as [(-> & -> & ->)|(-> & -> & ->)]; [exists false, w2|exists true, w2]; done.
  - intros ([] & reply & -> & Hr & -> & ->).
    + eexists _, tt, _, reply, _. split_and!; [done..|by right|]. exists []. by rewrite app_nil_r.
    + eexists [], tt, [], reply, _. split_and!; [done..|by left|]. exists []. by rewrite app_nil_r.
Qed.

Lemma speaks_handshake username password host port timeout :
  speaks (handshake host port timeout username password) (length (sent username password host port true))
    (fun w _ o => exists auth reply, connect_reply reply /\ w = method_reply auth ++ reply /\ o = sent username password host port auth).
Proof.
  unfold handshake. set (g := if (_ : bool) then encode_greeting_with_userpass else encode_greeting).
  assert (forall auth, sent username password host port auth =
    g ++ (if auth then encode_userpass_auth username password else []) ++ encode_connect_request host port) as Hsent by done.
  rewrite Hsent, !length_app. do 2 (apply speaks_then_nothing; [apply speaks_mode || apply speaks_timeout|]).
  eapply speaks_iff; [|apply speaks_then_send; eapply (speaks_bind _ _ 0 _ _ (fun r w _ o => exists auth reply,
    r = [Byte.x05; if auth : bool then Byte.x02 else Byte.x00] /\ connect_reply reply /\
    w = (if auth then [Byte.x01; Byte.x00] else []) ++ reply /\
    o = (if auth then encode_userpass_auth username password else []) ++ encode_connect_request host port));
    [apply speaks_recv|apply prefix_free_recv|]].
  - intros w [] o. split.
    + intros (o' & -> & w1 & r & o1 & w2 & o2 & -> & -> & (_ & -> & ->) & auth & reply & -> & Hr & -> & ->).
      exists auth, reply. rewrite Hsent. split_and!; [done| |done]. by destruct auth.
    + intros (auth & reply & Hr & -> & ->). rewrite Hsent. eexists. split; [done|].
      exists [Byte.x05; if auth then Byte.x02 else Byte.x00], [Byte.x05; if auth then Byte.x02 else Byte.x00], [],
        ((if auth then [Byte.x01; Byte.x00] else []) ++ reply),
        ((if auth then encode_userpass_auth username password else []) ++ encode_connect_request host port).
      split; [by destruct auth|]. split; [done|]. split; [done|]. by exists auth, reply.
  - intros w r o (Hl & -> & ->). destruct w as [|v [|m [|]]]; try done. cbn [parse_greeting_response].
    case_bool_decide as Hv; cbn [negb].
    + subst v. eapply speaks_iff; [|apply speaks_request]. intros w [] o.
      split; intros (auth & reply & E & H'); exists auth, reply; (split; [congruence|done]).
    + eapply speaks_le; [apply Nat.le_0_l|]. eapply speaks_iff; [|apply speaks_throw]. intros w [] o. split; [done|].
      intros (auth & reply & [= -> _] & _). done.
Qed.

Lemma handshake_modes host port timeout username password c c' r :
  handshake host port timeout username password c = (c', Ok r) -> non_blocking c' = true /\ io_timeout c' = 0.
Proof.
  unfold handshake, tbind at 1, set_blocking_mode at 1, tbind at 1, set_rcv_timeout at 1. unfold tbind at 1.
  destruct (send_all _ _) as [c1 [|]]; [|done]. unfold tbind at 1. destruct (recv_exact _ _) as [c2 [b|]]; [|done].
  destruct (parse_greeting_response b); [|done]. unfold tbind at 1. destruct (authenticate _ _ _ _) as [c3 [|]]; [|done].
  unfold tbind at 1. destruct (send_all _ _) as [c4 [|]]; [|done]. unfold tbind at 1.
  destruct (read_reply _) as [c5 [|]]; [|done]. intros E. by injection E as <- _.
Qed.

(** C35: the SOCKS5 handshake.  However the proxy's bytes are cut into segments and
    however few bytes each [send] takes, a connection is returned exactly when the
    stream starts with a method reply that the client accepts (after the
    credentials, where the proxy asks for them) and a successful CONNECT reply of
    the length its address type announces.  Then exactly greeting, credentials if
    asked for and request were sent, and not one byte that follows the reply was
    taken: the tunnel starts where the caller's TLS session expects it, on a
    non-blocking socket without timeouts. *)
Theorem socks5_tunnel (c : ProxyConn) (host username password : bytes) (port timeout : Z)
    (Hhost : (1 <= length host <= 255)%nat)
    (Hc : healthy (length (sent username password host port true)) c) :
  (forall c', socks5_connect (Some c) host port timeout username password = Ok c' ->
     exists auth reply, connect_reply reply /\ stream c = method_reply auth ++ reply ++ stream c' /\
       outbox c' = outbox c ++ sent username password host port auth /\ non_blocking c' = true /\ io_timeout c' = 0) /\
  (forall auth reply rest, connect_reply reply -> stream c = method_reply auth ++ reply ++ rest ->
     exists c', socks5_connect (Some c) host port timeout username password = Ok c').
Proof.
  unfold socks5_connect. rewrite bool_decide_false by (intros ->; cbn in Hhost; lia).
  rewrite (proj2 (Nat.ltb_ge _ _)) by lia. cbn [orb]. rewrite <- (Nat.add_0_r (length _)) in Hc.
  destruct (speaks_handshake username password host port timeout 0%nat c Hc)
    as [(c' & w & [] & o & E & (auth & reply & Hr & -> & ->) & _ & Es & Eo)|(c' & e & E & Hno)]; rewrite E.
  - split; [|by eauto]. intros ? [= <-]. exists auth, reply. rewrite Es, <- app_assoc. split_and!; try done.
    all: by eapply handshake_modes in E as [? ?].
  - split; [done|]. intros auth reply rest Hr Es. exfalso.
    apply (Hno (method_reply auth ++ reply) tt (sent username password host port auth) rest); [eauto|].
    by rewrite Es, app_assoc.
Qed.

(** A proxy that answers in pieces and asks for the credentials. *)
Definition w_proxy : ProxyConn :=
  mkProxyConn [[Byte.x05]; [Byte.x02; Byte.x01]; [Byte.x00; Byte.x05; Byte.x00; Byte.x00; Byte.x01; Byte.x7f];
               [Byte.x00; Byte.x00; Byte.x01; Byte.x1f; Byte.x90; Byte.x16]; [Byte.x03]]
    (replicate 40 1%nat) [] true 0.

Lemma socks5_tunnel_witness :
  exists c', socks5_connect (Some w_proxy) (str "host") 443 10000 (str "u") (str "p") = Ok c' /\ stream c' = [Byte.x16; Byte.x03].
Proof.
  assert (1 <= length (str "host") <= 255)%nat as Hh by (cbn; lia).
  assert (healthy (length (sent (str "u") (str "p") (str "host") 443 true)) w_proxy) as Hc.
  { split; [by_computing|]. split; [by_computing|]. vm_compute. lia. }
  destruct (socks5_tunnel w_proxy (str "host") (str "u") (str "p") 443 10000 Hh Hc) as [T1 T2].
  set (reply := [Byte.x05; Byte.x00; Byte.x00; Byte.x01; Byte.x7f; Byte.x00; Byte.x00; Byte.x01; Byte.x1f; Byte.x90]).
  assert (connect_reply reply) as Hr
    by (exists Byte.x01, Byte.x7f, [Byte.x00; Byte.x00; Byte.x01; Byte.x1f; Byte.x90]; split; reflexivity).
  destruct (T2 true reply [Byte.x16; Byte.x03] Hr eq_refl) as [c' Hok]. exists c'. split; [exact Hok|].
  vm_compute in Hok. injection Hok as <-. reflexivity.
Defined.

(** The client goes on when the proxy picks a method that was not offered. *)
Example socks5_unoffered_method :
  exists c', socks5_connect (Some w_proxy) (str "host") 443 10000 [] [] = Ok c' /\
    firstn 3 (outbox c') = encode_greeting.
Proof. eexists. split; vm_compute; reflexivity. Qed.
