(* ===== verification/AttachmentFrame.v ===== *)
(** * Attachments in the message table ([src/core/src/store/attachment_frame.cpp]) *)
From S2P Require Import Prelude.

Record AttachmentFrame := mkAttachmentFrame {
  mime : bytes;
  filename : bytes;
  att_content : bytes;
}.

Definition kMagic : bytes := [Byte.x00] ++ str "FBAT1" ++ [Byte.x00].
Definition kMagicLen : nat := 7.

Definition put_u16 (v : nat) : bytes :=
  [z2b (Z.land (Z.shiftr (Z.of_nat v) 8) 255); z2b (Z.land (Z.of_nat v) 255)].

Definition is_framed_attachment (blob : bytes) : bool :=
  if (length blob <? kMagicLen)%nat then false else bool_decide (take kMagicLen blob = kMagic).

(** [if (s.size() > 0xFFFF) s = s.substr(0, 0xFFFF)] *)
Definition cap_u16 (s : bytes) : bytes := if 65535 <? Z.of_nat (length s) then take (Z.to_nat 65535) s else s.

Definition frame_attachment (mime filename content : bytes) : bytes :=
  let mime := cap_u16 mime in
  let filename := cap_u16 filename in
  kMagic ++ put_u16 (length mime) ++ mime ++ put_u16 (length filename) ++ filename ++ content.

(** [need(2)], [get_u16()], [need(len)] and the copy of [len] bytes, on what is
    left of the blob. *)
Definition take_field (rest : bytes) : option (bytes * bytes) :=
  match rest with
  | b0 :: b1 :: rest =>
      let len := Z.to_nat (Z.lor (Z.shiftl (b2z b0) 8) (b2z b1)) in
      if (len <=? length rest)%nat then Some (take len rest, drop len rest) else None
  | _ => None
  end.

Definition parse_attachment_frame (blob : bytes) : option AttachmentFrame :=
  if negb (is_framed_attachment blob) then None
  else match take_field (drop kMagicLen blob) with
       | None => None
       | Some (mime, rest) =>
           match take_field rest with
           | None => None
           | Some (filename, content) => Some (mkAttachmentFrame mime filename content)
           end
       end.

Lemma put_u16_be n : put_u16 n = be_bytes 2 (Z.of_nat n).
Proof. unfold put_u16. cbn [be_bytes]. by rewrite Z.shiftr_0_r. Qed.

Lemma u16_value b0 b1 : Z.lor (Z.shiftl (b2z b0) 8) (b2z b1) = be_value [b0; b1].
Proof. unfold be_value. cbn [foldl]. unfold be_step. by rewrite Z.shiftl_0_l, Z.lor_0_l. Qed.

Lemma take_field_put s rest :
  Z.of_nat (length s) < 65536 -> take_field (put_u16 (length s) ++ s ++ rest) = Some (s, rest).
Proof.
  intros Hs. pose proof (be_value_be_bytes 2 (Z.of_nat (length s)) ltac:(lia)) as E. rewrite <- put_u16_be in E.
  unfold put_u16 in *. cbn [app take_field]. rewrite u16_value, E, Nat2Z.id, length_app.
  rewrite (proj2 (Nat.leb_le _ _)) by lia. by rewrite take_app_length, drop_app_length.
Qed.

Lemma take_field_inv blob s rest :
  take_field blob = Some (s, rest) -> blob = put_u16 (length s) ++ s ++ rest /\ Z.of_nat (length s) < 65536.
Proof.
  unfold take_field. destruct blob as [|b0 [|b1 blob]]; [done..|]. rewrite u16_value.
  pose proof (be_value_range [b0; b1]) as Hr. cbn [length] in Hr. destruct (Nat.leb_spec (Z.to_nat (be_value [b0; b1])) (length blob)); [|done].
  intros [= <- <-]. rewrite length_take, Nat.min_l by done. rewrite take_drop, put_u16_be, Z2Nat.id by lia.
  change 2%nat with (length [b0; b1]). rewrite be_bytes_be_value. split; [done|lia].
Qed.

Lemma cap_u16_length s : Z.of_nat (length (cap_u16 s)) < 65536.
Proof. unfold cap_u16. destruct (Z.ltb_spec 65535 (Z.of_nat (length s))); [|lia]. rewrite length_take. lia. Qed.

Lemma cap_u16_small s : Z.of_nat (length s) < 65536 -> cap_u16 s = s.
Proof. intros. unfold cap_u16. by rewrite (proj2 (Z.ltb_ge _ _)) by lia. Qed.

Lemma framed_magic rest : is_framed_attachment (kMagic ++ rest) = true.
Proof.
  unfold is_framed_attachment. rewrite length_app. change (length kMagic) with kMagicLen.
  rewrite (proj2 (Nat.ltb_ge _ _)) by lia. apply bool_decide_true. change kMagicLen with (length kMagic). apply take_app_length.
Qed.

(** Framing and parsing are inverse to each other: a framed attachment comes back
    with its names cut at 65535 bytes, and a blob that parses is the framing of
    what it parsed to, so no two attachments share a blob and no blob has two
    readings. *)
Theorem attachment_frame_roundtrip (m f c blob : bytes) (a : AttachmentFrame) :
  parse_attachment_frame (frame_attachment m f c) = Some (mkAttachmentFrame (cap_u16 m) (cap_u16 f) c) /\
  (parse_attachment_frame blob = Some a -> frame_attachment (mime a) (filename a) (att_content a) = blob) /\
  (is_framed_attachment blob = false -> parse_attachment_frame blob = None).
Proof.
  split_and!.
  - unfold frame_attachment, parse_attachment_frame. rewrite framed_magic. cbn [negb].
    rewrite (drop_app_length' kMagic) by done. rewrite take_field_put by apply cap_u16_length.
    by rewrite take_field_put by apply cap_u16_length.
  - unfold parse_attachment_frame. destruct (is_framed_attachment blob) eqn:Ef; [|done]. cbn [negb].
    destruct (take_field (drop kMagicLen blob)) as [[m' rest]|] eqn:E1; [|done].
    destruct (take_field rest) as [[f' c']|] eqn:E2; [|done]. intros [= <-]. cbn [mime filename att_content].
    apply take_field_inv in E1 as [E1 Hm], E2 as [E2 Hf]. unfold frame_attachment. rewrite !cap_u16_small by done.
    rewrite <- E2, <- E1. unfold is_framed_attachment in Ef. destruct (length blob <? kMagicLen)%nat; [done|].
    apply bool_decide_eq_true in Ef. rewrite <- Ef. apply take_drop.
  - unfold parse_attachment_frame. by intros ->.
Qed.

(** A text that starts with the magic bytes is valid UTF-8 (they are all ASCII)
    and is taken for an attachment. *)
Example text_read_as_attachment :
  Forall (fun b => b2z b < 128) (kMagic ++ [Byte.x00; Byte.x00; Byte.x00; Byte.x00] ++ str "hi") /\
  parse_attachment_frame (kMagic ++ [Byte.x00; Byte.x00; Byte.x00; Byte.x00] ++ str "hi") = Some (mkAttachmentFrame [] [] (str "hi")).
Proof. split; [by_computing|vm_compute; reflexivity]. Qed.
