(* ===== verification/Bootstrap.v ===== *)
(** * Bootstrap lists ([src/core/src/p2p/bootstrap.cpp])

    The text format, the search for a file and the union with what DNS over HTTPS
    answered; the environment, the file system and the resolver are arguments.  Then the
    resolver itself ([net/doh_resolver.cpp]) and the configurations of Encrypted Client
    Hello that records carry ([net/ech.cpp]). *)
From S2P Require Import Prelude StdMap StreamParser WebSocket WebSocketProofs Kademlia Topics AttachmentFrame.
Import WebSocket.WebSocket Kademlia.Kademlia.

Record BootstrapParseResult := mkBootstrap {
  peers : list PeerInfo;
  malformed_lines : nat;
}.

Definition no_bootstrap : BootstrapParseResult := mkBootstrap [] 0.

Definition nyb (c : byte) : option Z :=
  let z := b2z c in
  if (48 <=? z) && (z <=? 57) then Some (z - 48)
  else if (97 <=? z) && (z <=? 102) then Some (10 + (z - 97))
  else if (65 <=? z) && (z <=? 70) then Some (10 + (z - 65))
  else None.

Fixpoint hex_to_bytes (hex : bytes) : option bytes :=
  match hex with
  | [] => Some []
  | a :: b :: hex' =>
      match nyb a, nyb b with
      | Some hi, Some lo => cons (z2b (Z.lor (Z.shiftl hi 4) lo)) <$> hex_to_bytes hex'
      | _, _ => None
      end
  | _ => None
  end.

(** [while (std::getline(is, line))] *)
Fixpoint getlines (line contents : bytes) : list bytes :=
  match contents with
  | [] => if bool_decide (line = []) then [] else [line]
  | c :: contents' => if bool_decide (c = Byte.x0a) then line :: getlines [] contents' else getlines (line ++ [c]) contents'
  end.

(** [ls >> word] *)
Fixpoint take_word (s : bytes) : bytes * bytes :=
  match s with
  | [] => ([], [])
  | c :: s' => if isspace c then ([], s) else let '(w, r) := take_word s' in (c :: w, r)
  end.
Definition next_word (s : bytes) : bytes * bytes := take_word (drop_space s).

Definition strip_cr (line : bytes) : bytes :=
  if bool_decide (last line = Some Byte.x0d) then take (length line - 1) line else line.

Section bootstrap.
Context `{!Sha256}.

(** One turn of the loop. *)
Definition parse_line (out : BootstrapParseResult) (line : bytes) : BootstrapParseResult :=
  let trimmed := trim_ws (strip_cr line) in
  if bool_decide (trimmed = []) || bool_decide (head trimmed = Some Byte.x23) then out
  else
    let '(hex_pub, ls) := next_word trimmed in
    let '(addr, _) := next_word ls in
    let malformed := mkBootstrap (peers out) (S (malformed_lines out)) in
    if bool_decide (hex_pub = []) || bool_decide (addr = []) then malformed
    else match hex_to_bytes hex_pub with
         | None => malformed
         | Some pk =>
             if negb (length pk =? 32)%nat then malformed
             else if bool_decide (search byte_eqb addr (str "://") = None) then malformed
             else mkBootstrap (peers out ++ [mkPeerInfo (node_id_from_pubkey pk) addr pk]) (malformed_lines out)
         end.

Definition parse_bootstrap_text (contents : bytes) : BootstrapParseResult :=
  foldl parse_line no_bootstrap (getlines [] contents).

Inductive BootstrapError := CannotOpen (path : bytes).

Definition load_bootstrap_file (files : bytes -> option bytes) (path : bytes) : result BootstrapError BootstrapParseResult :=
  match files path with
  | None => Throw (CannotOpen path)
  | Some contents => Ok (parse_bootstrap_text contents)
  end.

Definition try_path (files : bytes -> option bytes) (p : bytes) : BootstrapParseResult :=
  if bool_decide (p = []) then no_bootstrap
  else match files p with
       | None => no_bootstrap
       | Some contents => parse_bootstrap_text contents
       end.

(** [env(k)]: empty when unset. *)
Definition candidates (env : bytes -> bytes) : list bytes :=
  let add k suffix := let x := env (str k) in if bool_decide (x = []) then [] else [x ++ str suffix] in
  add "FB_BOOTSTRAP_FILE" "" ++ add "XDG_CONFIG_HOME" "/finbit/bootstrap.txt" ++
  add "HOME" "/.finbit/bootstrap.txt" ++ [str "/etc/finbit/bootstrap.txt"].

Definition found (r : BootstrapParseResult) : bool :=
  negb (bool_decide (peers r = [])) || (0 <? malformed_lines r)%nat.

Definition load_default_bootstrap (env : bytes -> bytes) (files : bytes -> option bytes) : BootstrapParseResult :=
  default no_bootstrap (find found (try_path files <$> candidates env)).

Definition load_doh_bootstrap (env : bytes -> bytes) (resolve : bytes -> list PeerInfo) : BootstrapParseResult :=
  let q := env (str "FB_BOOTSTRAP_DOH") in
  if bool_decide (q = []) then no_bootstrap else mkBootstrap (resolve q) 0.

(** [consume]: the peers kept and the keys seen. *)
Definition consume (st : list PeerInfo * gset bytes) (p : PeerInfo) : list PeerInfo * gset bytes :=
  let '(kept, seen) := st in
  let key := to_hex (pubkey p) in
  if bool_decide (key ∈ seen) then st else (kept ++ [p], {[key]} ∪ seen).

Definition load_default_bootstrap_all (env : bytes -> bytes) (files : bytes -> option bytes)
    (resolve : bytes -> list PeerInfo) : BootstrapParseResult :=
  let file_r := load_default_bootstrap env files in
  let doh_r := load_doh_bootstrap env resolve in
  mkBootstrap (foldl consume (foldl consume ([], ∅) (peers file_r)) (peers doh_r)).1
    (malformed_lines file_r + malformed_lines doh_r).
End bootstrap.

(** ** Words and lines *)

Definition spaces (s : bytes) : Prop := Forall (fun c => isspace c = true) s.
Definition no_spaces (s : bytes) : Prop := Forall (fun c => isspace c = false) s.
Definition one_line (s : bytes) : Prop := Forall (fun c => c <> Byte.x0a) s.

Lemma drop_spaces sp l : spaces sp -> drop_space (sp ++ l) = drop_space l.
Proof. induction 1 as [|c sp Hc _ IH]; [done|]. cbn. by rewrite Hc. Qed.

Lemma drop_space_word c l : isspace c = false -> drop_space (c :: l) = c :: l.
Proof. cbn. by intros ->. Qed.

Lemma drop_space_snoc l x : isspace x = false -> exists l', drop_space (l ++ [x]) = l' ++ [x].
Proof.
  intros Hx. induction l as [|c l [l' IH]]; cbn; [rewrite Hx; by exists []|].
  destruct (isspace c); [by exists l'|]. by exists (c :: l).
Qed.

(** A text that starts and ends with something visible keeps all of it. *)
Lemma trim_core indent x core y trail :
  spaces indent -> spaces trail -> isspace x = false -> isspace y = false ->
  trim_ws (indent ++ (x :: core ++ [y]) ++ trail) = x :: core ++ [y].
Proof.
  intros Hi Ht Hx Hy. unfold trim_ws. rewrite drop_spaces by done. cbn [app]. rewrite drop_space_word by done.
  rewrite app_comm_cons, reverse_app. rewrite drop_spaces by (unfold spaces; by apply Forall_reverse).
  cbn [app]. rewrite app_comm_cons, reverse_snoc, drop_space_word by done.
  by rewrite <- reverse_snoc, reverse_involutive.
Qed.

Lemma trim_spaces sp : spaces sp -> trim_ws sp = [].
Proof. intros Hsp. unfold trim_ws. by rewrite <- (app_nil_r sp), drop_spaces. Qed.

Lemma trim_head indent x l : spaces indent -> isspace x = false -> head (trim_ws (indent ++ x :: l)) = Some x.
Proof.
  intros Hi Hx. unfold trim_ws. rewrite drop_spaces, drop_space_word by done. rewrite reverse_cons.
  destruct (drop_space_snoc (reverse l) x Hx) as [l' ->]. by rewrite reverse_snoc.
Qed.

Lemma take_word_app w r : no_spaces w -> (forall c, head r = Some c -> isspace c = true) -> take_word (w ++ r) = (w, r).
Proof.
  intros Hw Hr. induction Hw as [|c w Hc _ IH]; cbn.
  - destruct r as [|c r]; [done|]. cbn. by rewrite (Hr c eq_refl).
  - by rewrite Hc, IH.
Qed.

Lemma getlines_line line l rest : one_line l -> getlines line (l ++ [Byte.x0a] ++ rest) = (line ++ l) :: getlines [] rest.
Proof.
  intros Hl. revert line. induction Hl as [|c l Hc _ IH]; intros line; cbn [app getlines].
  - by rewrite bool_decide_true, app_nil_r by done.
  - rewrite bool_decide_false by done. cbn [app] in IH. rewrite IH, <- app_assoc. done.
Qed.

(** A carriage return at the end is trimmed anyway. *)
Lemma trim_snoc l c : isspace c = true -> trim_ws (l ++ [c]) = trim_ws l.
Proof.
  intros Hc. unfold trim_ws.
  assert (drop_space (l ++ [c]) = drop_space l ++ [c] \/ (drop_space (l ++ [c]) = [] /\ drop_space l = [])) as [->|[-> ->]].
  - induction l as [|d l IH]; cbn; [rewrite Hc; by right|]. destruct (isspace d); [done|]. by left.
  - rewrite reverse_snoc. cbn. by rewrite Hc.
  - done.
Qed.

Lemma trim_strip_cr l : trim_ws (strip_cr l) = trim_ws l.
Proof.
  unfold strip_cr. case_bool_decide as Hl; [|done]. apply last_Some in Hl as [l' ->].
  rewrite length_app, Nat.add_sub, take_app_length. symmetry. by apply trim_snoc.
Qed.

(** ** Hexadecimal *)

Lemma nyb_hex_at v : nyb (hex_at v) = Some (Z.land v 15).
Proof.
  assert (Forall (fun i => nyb (default Byte.x00 (hex_digits !! Z.to_nat i)) = Some i) (seqZ 0 16)) as Hall by by_computing.
  rewrite Forall_forall in Hall. apply (Hall (Z.land v 15)), elem_of_seqZ. change 15 with (Z.ones 4).
  rewrite Z.land_ones by lia. pose proof (Z.mod_pos_bound v (2 ^ 4)). lia.
Qed.

Lemma hex_at_visible v : isspace (hex_at v) = false.
Proof.
  assert (Forall (fun i => isspace (default Byte.x00 (hex_digits !! Z.to_nat i)) = false) (seqZ 0 16)) as Hall by by_computing.
  rewrite Forall_forall in Hall. apply (Hall (Z.land v 15)), elem_of_seqZ. change 15 with (Z.ones 4).
  rewrite Z.land_ones by lia. pose proof (Z.mod_pos_bound v (2 ^ 4)). lia.
Qed.

Lemma nybbles b : Z.lor (Z.shiftl (Z.land (Z.shiftr (b2z b) 4) 15) 4) (Z.land (b2z b) 15) = b2z b.
Proof.
  assert (Forall (fun z => Z.lor (Z.shiftl (Z.land (Z.shiftr z 4) 15) 4) (Z.land z 15) = z) (seqZ 0 256)) as Hall by by_computing.
  rewrite Forall_forall in Hall. apply Hall, elem_of_seqZ. pose proof (b2z_range b). lia.
Qed.

Lemma hex_roundtrip b : hex_to_bytes (to_hex b) = Some b.
Proof.
  induction b as [|x b IH]; [done|]. unfold to_hex. cbn [mbind list_bind app hex_to_bytes].
  rewrite !nyb_hex_at, nybbles, z2b_b2z. unfold to_hex in IH. by rewrite IH.
Qed.

Lemma no_spaces_hex b : no_spaces (to_hex b).
Proof.
  induction b as [|x b IH]; [constructor|]. unfold to_hex. cbn [mbind list_bind app].
  repeat (constructor; [apply hex_at_visible|]). apply IH.
Qed.

(** ** Writing and reading a list *)

Inductive BootEntry :=
  | EntryBlank (sp : bytes)
  | EntryComment (indent text : bytes)
  | EntryPeer (indent pk sep addr trail : bytes).

Definition entry_line (e : BootEntry) : bytes :=
  match e with
  | EntryBlank sp => sp
  | EntryComment indent text => indent ++ [Byte.x23] ++ text
  | EntryPeer indent pk sep addr trail => indent ++ (to_hex pk ++ sep ++ addr) ++ trail
  end.

Definition render (es : list BootEntry) : bytes := concat ((fun e => entry_line e ++ [Byte.x0a]) <$> es).

Definition entry_ok (e : BootEntry) : Prop :=
  one_line (entry_line e) /\
  match e with
  | EntryBlank sp => spaces sp
  | EntryComment indent _ => spaces indent
  | EntryPeer indent pk sep addr trail =>
      spaces indent /\ length pk = 32%nat /\ spaces sep /\ sep <> [] /\ no_spaces addr /\
      search byte_eqb addr (str "://") <> None /\ spaces trail
  end.

Section roundtrip.
Context `{!Sha256}.

Definition entry_peer (e : BootEntry) : option PeerInfo :=
  match e with
  | EntryPeer _ pk _ addr _ => Some (mkPeerInfo (node_id_from_pubkey pk) addr pk)
  | _ => None
  end.

Lemma parse_peer_line out indent pk sep addr trail :
  entry_ok (EntryPeer indent pk sep addr trail) ->
  parse_line out (entry_line (EntryPeer indent pk sep addr trail)) =
  mkBootstrap (peers out ++ [mkPeerInfo (node_id_from_pubkey pk) addr pk]) (malformed_lines out).
Proof.
  intros (_ & Hi & Hpk & Hsep & Hsep0 & Haddr & Hurl & Ht). unfold parse_line. rewrite trim_strip_cr. cbn [entry_line].
  assert (exists y a, addr = a ++ [y] /\ isspace y = false) as (y & a & Ea & Hy).
  { destruct addr as [|z addr' _] using rev_ind; [by destruct Hurl|]. apply Forall_app in Haddr as [_ Hz]. apply Forall_inv in Hz. by exists z, addr'. }
  pose proof (no_spaces_hex pk) as Hhex. pose proof (hex_roundtrip pk) as Hrt.
  assert (exists x h, to_hex pk = x :: h) as (x & h & Eh).
  { pose proof (length_to_hex pk). destruct (to_hex pk) as [|x h]; [cbn in *; lia|eauto]. }
  rewrite Eh in *. pose proof (Forall_inv Hhex : isspace x = false) as Hx.
  assert ((x :: h) ++ sep ++ addr = x :: (h ++ sep ++ a) ++ [y]) as Ecore by (subst addr; cbn; by rewrite !app_assoc).
  rewrite Ecore, trim_core by done. rewrite bool_decide_false by done. cbn [head orb].
  rewrite bool_decide_false by (intros [= ->]; by destruct h). rewrite <- Ecore. clear Ecore.
  unfold next_word. change ((x :: h) ++ sep ++ addr) with (x :: (h ++ sep ++ addr)). rewrite drop_space_word by done.
  change (x :: (h ++ sep ++ addr)) with ((x :: h) ++ sep ++ addr). rewrite (take_word_app (x :: h) (sep ++ addr)); [|done|].
  2:{ intros c Hc. destruct sep as [|d sep]; [done|]. injection Hc as <-. by apply Forall_inv in Hsep. }
  rewrite drop_spaces by done.
  assert (drop_space addr = addr) as ->.
  { destruct addr as [|c addr']; [by destruct a|]. apply drop_space_word. by apply Forall_inv in Haddr. }
  rewrite <- (app_nil_r addr) at 1. rewrite take_word_app by done.
  rewrite !bool_decide_false by (done || (subst addr; by destruct a)). cbn [orb].
  rewrite Hrt, Hpk. done.
Qed.

Lemma parse_entry out e :
  entry_ok e -> parse_line out (entry_line e) = mkBootstrap (peers out ++ option_list (entry_peer e)) (malformed_lines out).
Proof.
  destruct e as [sp|indent text|]; [| |by apply parse_peer_line].
  - intros [_ Hsp]. unfold parse_line. rewrite trim_strip_cr. cbn [entry_line]. rewrite trim_spaces by done.
    cbn. rewrite app_nil_r. by destruct out.
  - intros [_ Hi]. unfold parse_line. rewrite trim_strip_cr. cbn [entry_line app]. rewrite trim_head by done.
    rewrite (bool_decide_true (Some _ = Some _)) by done. rewrite orb_true_r. cbn. rewrite app_nil_r. by destruct out.
Qed.

(** A bootstrap list reads back: comments and blank lines are skipped, peers come
    in order with key and address verbatim and the id derived from the key, and
    nothing is counted as malformed, whatever the indentation, the spacing and the
    line endings. *)
Theorem bootstrap_text_roundtrip (es : list BootEntry) (Hok : Forall entry_ok es) :
  parse_bootstrap_text (render es) = mkBootstrap (omap entry_peer es) 0.
Proof.
  unfold parse_bootstrap_text.
  assert (forall out, foldl parse_line out (getlines [] (render es)) =
    mkBootstrap (peers out ++ omap entry_peer es) (malformed_lines out)) as Hgen.
  { induction Hok as [|e es He _ IH]; intros out; cbn [render fmap list_fmap concat].
    - cbn. rewrite app_nil_r. by destruct out.
    - rewrite <- app_assoc, getlines_line by apply He. cbn [app foldl]. rewrite parse_entry by done.
      unfold render in IH. rewrite IH. cbn [peers malformed_lines omap list_omap]. destruct (entry_peer e); cbn; by rewrite <- ?app_assoc. }
  apply (Hgen no_bootstrap).
Qed.

(** ** The union *)

Definition consumed (st : list PeerInfo * gset bytes) : Prop :=
  NoDup (pubkey <$> st.1) /\ forall pk, to_hex pk ∈ st.2 <-> pk ∈ pubkey <$> st.1.

Lemma consume_consumed st p : consumed st -> consumed (consume st p) /\
  (forall pk, pk ∈ pubkey <$> (consume st p).1 <-> pk ∈ pubkey <$> st.1 \/ pk = pubkey p).
Proof.
  destruct st as [kept seen]. intros [Hnd Hseen]. cbn [fst snd] in *. unfold consume. case_bool_decide as Hin.
  - split; [done|]. cbn [fst]. intros pk. split; [tauto|]. intros [?| ->]; [done|]. by apply Hseen.
  - assert (forall pk, pk ∈ pubkey <$> kept ++ [p] <-> pk ∈ pubkey <$> kept \/ pk = pubkey p) as Hel.
    { intros pk. rewrite fmap_app, elem_of_app. cbn. by rewrite list_elem_of_singleton. }
    split; [|done]. split; cbn [fst snd].
    + rewrite fmap_app. apply NoDup_app. split_and!; [done| |apply NoDup_singleton].
      intros pk Hpk Hs. cbn in Hs. apply list_elem_of_singleton in Hs as ->. by apply Hin, Hseen.
    + intros pk. rewrite Hel, elem_of_union, elem_of_singleton, Hseen. split.
      * intros [E|?]; [right; by apply to_hex_inj|by left].
      * intros [?| ->]; [by right|by left].
Qed.

Lemma consume_all ps st : consumed st -> consumed (foldl consume st ps) /\
  (forall pk, pk ∈ pubkey <$> (foldl consume st ps).1 <-> pk ∈ pubkey <$> st.1 \/ pk ∈ pubkey <$> ps) /\
  (exists more, (foldl consume st ps).1 = st.1 ++ more /\ more ⊆+ ps).
Proof.
  revert st. induction ps as [|p ps IH]; intros st Hst; cbn [foldl].
  - split; [done|]. split; [set_solver|]. exists []. by rewrite app_nil_r.
  - destruct (consume_consumed st p Hst) as [Hst' Hel]. destruct (IH _ Hst') as (Hc & Hel' & more & E & Hsub).
    split; [done|]. split; [intros pk; rewrite Hel', Hel, fmap_cons, elem_of_cons; tauto|].
    destruct st as [kept seen]. unfold consume in E |- *. cbn [fst]. destruct (bool_decide (to_hex (pubkey p) ∈ seen)); cbn [fst] in E.
    + exists more. split; [done|]. by apply submseteq_cons.
    + exists (p :: more). rewrite E, <- app_assoc. split; [done|]. by apply submseteq_skip.
Qed.

(** The union holds every key of either source once; a key of the file keeps the
    file's entry, since the kept file entries come first. *)
Theorem bootstrap_union_exact (env : bytes -> bytes) (files : bytes -> option bytes) (resolve : bytes -> list PeerInfo) :
  let all := load_default_bootstrap_all env files resolve in
  let file := load_default_bootstrap env files in
  let doh := load_doh_bootstrap env resolve in
  NoDup (pubkey <$> peers all) /\
  (forall pk, pk ∈ pubkey <$> peers all <-> pk ∈ pubkey <$> peers file \/ pk ∈ pubkey <$> peers doh) /\
  (exists fs ds, peers all = fs ++ ds /\ fs ⊆+ peers file /\ ds ⊆+ peers doh /\
     forall pk, pk ∈ pubkey <$> fs <-> pk ∈ pubkey <$> peers file).
Proof.
  intros all file doh. unfold all, load_default_bootstrap_all. cbn [peers]. fold file doh.
  assert (consumed ([], ∅)) as H0 by (split; [apply NoDup_nil_2|set_solver]).
  destruct (consume_all (peers file) _ H0) as (H1 & Hel1 & fs & E1 & Hsub1).
  destruct (consume_all (peers doh) _ H1) as ((Hnd & _) & Hel2 & ds & E2 & Hsub2).
  split; [done|]. split; [intros pk; rewrite Hel2, Hel1; cbn; set_solver|].
  exists fs, ds. rewrite E2, E1. split_and!; [done..|]. intros pk. rewrite E1 in Hel1. cbn [app fst] in Hel1. rewrite Hel1. cbn. set_solver.
Qed.

(** A file that exists but names no peer does not end the search. *)
Lemma empty_file_passed_over (env : bytes -> bytes) (files : bytes -> option bytes) :
  env (str "FB_BOOTSTRAP_FILE") = str "a" -> env (str "XDG_CONFIG_HOME") = [] -> env (str "HOME") = [] ->
  files (str "a") = Some (str "# none") ->
  load_default_bootstrap env files = let r := try_path files (str "/etc/finbit/bootstrap.txt") in if found r then r else no_bootstrap.
Proof.
  intros E1 E2 E3 Ef. unfold load_default_bootstrap, candidates. rewrite E1, E2, E3.
  assert (try_path files (str "a" ++ str "") = no_bootstrap) as Ea.
  { unfold try_path. rewrite bool_decide_false by done. change (str "a" ++ str "") with (str "a"). rewrite Ef. vm_compute. reflexivity. }
  rewrite (bool_decide_false (str "a" = [])) by done. rewrite !bool_decide_true by done. cbn [app fmap list_fmap]. rewrite Ea. cbn [find]. change (found no_bootstrap) with false.
  by destruct (found (try_path files (str "/etc/finbit/bootstrap.txt"))) eqn:E.
Qed.
End roundtrip.

(** ** Bootstrap peers from DNS over HTTPS ([src/core/src/net/doh_resolver.cpp])

    The text of a TXT record, the JSON answer of a resolver, the HTTP exchange, the
    fallback over the resolvers.  A TLS connection is what its reads return. *)
Module Doh.

Definition quote : byte := Byte.x22.
Definition backslash : byte := Byte.x5c.

Record DohEndpoint := mkDohEndpoint {
  doh_host : bytes;
  doh_port : Z;
  doh_path : bytes;
}.

Definition default_doh_endpoints : list DohEndpoint :=
  [mkDohEndpoint (str "cloudflare-dns.com") 443 (str "/dns-query");
   mkDohEndpoint (str "dns.google") 443 (str "/resolve");
   mkDohEndpoint (str "dns.quad9.net") 443 (str "/dns-query")].

Definition hex_decode (s : bytes) (expected_bytes : nat) : option bytes :=
  if negb (length s =? expected_bytes * 2)%nat then None else hex_to_bytes s.

(** [find_first_of] *)
Fixpoint find_first_of (p : byte -> bool) (s : bytes) : option nat :=
  match s with
  | [] => None
  | c :: s' => if p c then Some 0%nat else S <$> find_first_of p s'
  end.

Definition is_blank (c : byte) : bool := (b2z c =? 32) || (b2z c =? 9).
Definition is_char (k c : byte) : bool := bool_decide (c = k).

Definition kTxtMagic : bytes := str "fb1 ".
Definition kKp : bytes := str "ed25519:".

Section txt.
Context `{!Sha256}.

Definition parse_finbit_txt (txt_body : bytes) : option PeerInfo :=
  let txt_body := trim_ws txt_body in
  if (length txt_body <=? 4)%nat || negb (bool_decide (take 4 txt_body = kTxtMagic)) then None
  else
    let rest := trim_ws (drop 4 txt_body) in
    match find_first_of (is_char Byte.x20) rest with
    | None => None
    | Some space =>
        let key_tok := take space rest in
        if (length key_tok <=? 8)%nat || negb (bool_decide (take 8 key_tok = kKp)) then None
        else
          match hex_decode (drop 8 key_tok) 32 with
          | None => None
          | Some pub =>
              let after_key := trim_ws (drop (S space) rest) in
              let addr := match find_first_of is_blank after_key with
                          | None => after_key
                          | Some addr_end => trim_ws (take addr_end after_key)
                          end in
              if bool_decide (addr = []) then None
              else Some (mkPeerInfo (node_id_from_pubkey pub) addr pub)
          end
    end.
End txt.

(** *** The JSON scanner *)

Definition isdigit (c : byte) : bool := (48 <=? b2z c) && (b2z c <=? 57).

(** [std::stoi]: white space, a sign, digits; [None] is an exception. *)
Fixpoint take_digits (s : bytes) : bytes * bytes :=
  match s with
  | c :: s' => if isdigit c then let '(d, r) := take_digits s' in (c :: d, r) else ([], s)
  | [] => ([], [])
  end.

Definition digits_value (d : bytes) : Z := foldl (fun v c => v * 10 + (b2z c - 48)) 0 d.

Definition stoi (s : bytes) : option Z :=
  let s := drop_space s in
  let '(neg, s) := match s with
                   | c :: s' => if bool_decide (c = Byte.x2d) then (true, s')
                                else if bool_decide (c = Byte.x2b) then (false, s') else (false, s)
                   | [] => (false, [])
                   end in
  let '(d, _) := take_digits s in
  match d with
  | [] => None
  | _ => let v := if neg : bool then - digits_value d else digits_value d in
         if (v <? -2147483648) || (2147483647 <? v) then None else Some v
  end.

Record ObjFields := mkObjFields {
  of_type : Z;
  of_data : bytes;
  has_data : bool;
}.

Fixpoint skip_ws_colon (s : bytes) : bytes :=
  match s with
  | c :: s' => if isspace c || bool_decide (c = Byte.x3a) then skip_ws_colon s' else s
  | [] => []
  end.

Definition unescape (d : byte) : byte :=
  if bool_decide (d = Byte.x6e) then Byte.x0a
  else if bool_decide (d = Byte.x74) then Byte.x09
  else if bool_decide (d = Byte.x72) then Byte.x0d else d.

(** The string after the key [data]: its value and what follows. *)
Fixpoint read_string (s : bytes) (de : bool) (acc : bytes) : bytes * bytes :=
  match s with
  | [] => (acc, [])
  | d :: s' =>
      if de then read_string s' false (acc ++ [unescape d])
      else if bool_decide (d = backslash) then read_string s' true acc
      else if bool_decide (d = quote) then (acc, s')
      else read_string s' false (acc ++ [d])
  end.

(** The quotes of a TXT character string. *)
Definition strip_quotes (s : bytes) : bytes :=
  if (2 <=? length s)%nat && bool_decide (head s = Some quote) && bool_decide (last s = Some quote)
  then take (length s - 2) (drop 1 s) else s.

Definition kTypeKey : bytes := quote :: str "type" ++ [quote].
Definition kDataKey : bytes := quote :: str "data" ++ [quote].

(** The loop of [scan_object_fields] on what is left of [body]. *)
Fixpoint scan_loop (fuel : nat) (s : bytes) (depth : Z) (in_str esc : bool) (out : ObjFields) : ObjFields :=
  match fuel, s with
  | O, _ | _, [] => out
  | S fuel', c :: s' =>
      if in_str then
        if esc then scan_loop fuel' s' depth true false out
        else if bool_decide (c = backslash) then scan_loop fuel' s' depth true true out
        else if bool_decide (c = quote) then scan_loop fuel' s' depth false false out
        else scan_loop fuel' s' depth true false out
      else if bool_decide (c = quote) then
        if (depth =? 0) && bool_decide (take 6 s = kTypeKey) then
          let '(num, r) := take_digits (skip_ws_colon (drop 6 s)) in
          let ty := match num with [] => of_type out | _ => default (of_type out) (stoi num) end in
          scan_loop fuel' r depth false esc (mkObjFields ty (of_data out) (has_data out))
        else if (depth =? 0) && bool_decide (take 6 s = kDataKey) then
          let r := skip_ws_colon (drop 6 s) in
          if bool_decide (head r = Some quote) then
            let '(v, r') := read_string (drop 1 r) false [] in
            scan_loop fuel' r' depth false esc (mkObjFields (of_type out) (strip_quotes v) true)
          else scan_loop fuel' r depth false esc out
        else scan_loop fuel' s' depth true esc out
      else if bool_decide (c = Byte.x7b) || bool_decide (c = Byte.x5b) then scan_loop fuel' s' (depth + 1) false esc out
      else if bool_decide (c = Byte.x7d) || bool_decide (c = Byte.x5d) then scan_loop fuel' s' (depth - 1) false esc out
      else scan_loop fuel' s' depth false esc out
  end.

Definition scan_object_fields (body : bytes) : ObjFields :=
  scan_loop (length body) body 0 false false (mkObjFields (-1) [] false).

(** The search for the matching brace: the text before it and the text after. *)
Fixpoint match_brace (s : bytes) (d2 : Z) (s2 e2 : bool) (acc : bytes) : option (bytes * bytes) :=
  match s with
  | [] => None
  | d :: s' =>
      if s2 then
        if e2 then match_brace s' d2 true false (acc ++ [d])
        else if bool_decide (d = backslash) then match_brace s' d2 true true (acc ++ [d])
        else if bool_decide (d = quote) then match_brace s' d2 false false (acc ++ [d])
        else match_brace s' d2 true false (acc ++ [d])
      else if bool_decide (d = quote) then match_brace s' d2 true e2 (acc ++ [d])
      else if bool_decide (d = Byte.x7b) || bool_decide (d = Byte.x5b) then match_brace s' (d2 + 1) false e2 (acc ++ [d])
      else if bool_decide (d = Byte.x7d) || bool_decide (d = Byte.x5d) then
        if d2 - 1 =? 0 then Some (acc, s') else match_brace s' (d2 - 1) false e2 (acc ++ [d])
      else match_brace s' d2 false e2 (acc ++ [d])
  end.

(** The walk over the objects of the array; its [depth] stays 0. *)
Fixpoint answer_loop (fuel : nat) (s : bytes) (in_str esc : bool) (out : list bytes) : list bytes :=
  match fuel, s with
  | O, _ | _, [] => out
  | S fuel', c :: s' =>
      if in_str then
        if esc then answer_loop fuel' s' true false out
        else if bool_decide (c = backslash) then answer_loop fuel' s' true true out
        else if bool_decide (c = quote) then answer_loop fuel' s' false false out
        else answer_loop fuel' s' true false out
      else if bool_decide (c = quote) then answer_loop fuel' s' true esc out
      else if bool_decide (c = Byte.x5d) then out
      else if bool_decide (c = Byte.x7b) then
        match match_brace s' 1 false false [] with
        | None => out
        | Some (inner, s'') =>
            let fields := scan_object_fields inner in
            answer_loop fuel' s'' false esc
              (if (of_type fields =? 16) && has_data fields then out ++ [of_data fields] else out)
        end
      else answer_loop fuel' s' false esc out
  end.

Definition kAnswerKey : bytes := quote :: str "Answer" ++ [quote].

Definition extract_txt_data_values (body : bytes) : list bytes :=
  match find_from body kAnswerKey 0 with
  | None => []
  | Some ans_key =>
      match find_from body [Byte.x5b] ans_key with
      | None => []
      | Some p => let s := drop (S p) body in answer_loop (length s) s false false []
      end
  end.

(** *** The exchange *)

Definition isalnum (c : byte) : bool :=
  isdigit c || ((65 <=? b2z c) && (b2z c <=? 90)) || ((97 <=? b2z c) && (b2z c <=? 122)).

Definition hex_upper (v : Z) : byte := default Byte.x00 (str "0123456789ABCDEF" !! Z.to_nat (Z.land v 15)).

Definition url_char (c : byte) : bytes :=
  if isalnum c || bool_decide (c ∈ str ".-_~") then [c] else [Byte.x25; hex_upper (Z.shiftr (b2z c) 4); hex_upper (b2z c)].

Definition url_encode (s : bytes) : bytes := s ≫= url_char.

Record HttpResponse := mkHttpResponse {
  http_status : Z;
  http_body : bytes;
}.

Definition parse_http_response (raw : bytes) : HttpResponse :=
  match find_from raw crlf 0 with
  | None => mkHttpResponse 0 []
  | Some first_nl =>
      let status_line := take first_nl raw in
      match find_from status_line [Byte.x20] 0 with
      | None => mkHttpResponse 0 []
      | Some sp1 =>
          match find_from status_line [Byte.x20] (S sp1) with
          | None => mkHttpResponse 0 []
          | Some sp2 =>
              match stoi (take (sp2 - sp1 - 1) (drop (S sp1) status_line)) with
              | None => mkHttpResponse 0 []
              | Some status =>
                  match find_from raw terminator 0 with
                  | None => mkHttpResponse status []
                  | Some body_start => mkHttpResponse status (drop (body_start + 4) raw)
                  end
              end
          end
      end
  end.

Definition doh_request (ep : DohEndpoint) (query_name : bytes) : bytes :=
  str "GET " ++ doh_path ep ++ str "?name=" ++ url_encode query_name ++ str "&type=TXT" ++ str " HTTP/1.1" ++ crlf ++
  str "Host: " ++ doh_host ep ++ crlf ++ str "Accept: application/dns-json" ++ crlf ++
  str "User-Agent: FinBit-DoH/1" ++ crlf ++ str "Connection: close" ++ crlf ++ crlf.

(** What [blocking_read] returned in turn; an empty read or the end is 0. *)
Fixpoint drain_reads (raw : bytes) (reads : list bytes) : bytes :=
  match reads with
  | [] => raw
  | r :: reads' =>
      if bool_decide (r = []) then raw
      else if (256 * 1024 <? length (raw ++ r))%nat then raw ++ r else drain_reads (raw ++ r) reads'
  end.

Section resolve.
Context `{!Sha256}.

Definition parse_dns_json (body : bytes) : list PeerInfo := omap parse_finbit_txt (extract_txt_data_values body).

(** [exchange ep request]: the reads after the request was sent; [None] is an exception. *)
Definition resolve_finbit_bootstrap (exchange : DohEndpoint -> bytes -> option (list bytes)) (ep : DohEndpoint)
    (query_name : bytes) : list PeerInfo :=
  match exchange ep (doh_request ep query_name) with
  | None => []
  | Some reads =>
      let parsed := parse_http_response (drain_reads [] reads) in
      if negb (http_status parsed =? 200) then [] else parse_dns_json (http_body parsed)
  end.

Fixpoint first_answer (exchange : DohEndpoint -> bytes -> option (list bytes)) (eps : list DohEndpoint) (query_name : bytes)
    : list PeerInfo :=
  match eps with
  | [] => []
  | ep :: eps' =>
      match resolve_finbit_bootstrap exchange ep query_name with
      | [] => first_answer exchange eps' query_name
      | ps => ps
      end
  end.

Definition resolve_finbit_bootstrap_default (exchange : DohEndpoint -> bytes -> option (list bytes)) (query_name : bytes)
    : list PeerInfo := first_answer exchange default_doh_endpoints query_name.
End resolve.

(** *** Answers as resolvers write them *)

Definition esc1 (c : byte) : bytes := if bool_decide (c = quote) || bool_decide (c = backslash) then [backslash; c] else [c].
Definition escape (s : bytes) : bytes := s ≫= esc1.
Definition jstr (s : bytes) : bytes := quote :: escape s ++ [quote].

Inductive JsonVal :=
| JStr (s : bytes)
| JNum (digits : bytes).

Definition render_val (v : JsonVal) : bytes := match v with JStr s => jstr s | JNum d => d end.

(** A member with the white space around its parts. *)
Record Member := mkMember {
  m_before : bytes;
  m_key : bytes;
  m_colon : bytes * bytes;
  m_val : JsonVal;
  m_after : bytes;
}.

Definition render_member (m : Member) : bytes :=
  m_before m ++ jstr (m_key m) ++ (m_colon m).1 ++ [Byte.x3a] ++ (m_colon m).2 ++ render_val (m_val m) ++ m_after m.

Definition comma : byte := Byte.x2c.

Fixpoint commas (parts : list bytes) : bytes :=
  match parts with
  | [] => []
  | [p] => p
  | p :: parts' => p ++ comma :: commas parts'
  end.

Definition render_obj (ms : list Member) : bytes := commas (render_member <$> ms).

Definition member_ok (m : Member) : Prop :=
  spaces (m_before m) /\ spaces (m_colon m).1 /\ spaces (m_colon m).2 /\ spaces (m_after m) /\
  match m_val m with
  | JStr _ => True
  | JNum d => d <> [] /\ Forall (fun c => isdigit c = true) d /\ digits_value d <= 2147483647
  end.

(** What the object says of its type and data: the last member of each name counts. *)
Definition member_fields (out : ObjFields) (m : Member) : ObjFields :=
  match m_val m with
  | JNum d => if bool_decide (m_key m = str "type") then mkObjFields (digits_value d) (of_data out) (has_data out) else out
  | JStr s => if bool_decide (m_key m = str "data") then mkObjFields (of_type out) (strip_quotes s) true else out
  end.

(** *** Strings *)

Lemma read_string_escape s rest acc : read_string (escape s ++ quote :: rest) false acc = (acc ++ s, rest).
Proof.
  revert acc. induction s as [|c s IH]; intros acc; [cbn; by rewrite app_nil_r|].
  change (escape (c :: s)) with (esc1 c ++ escape s). unfold esc1.
  destruct (bool_decide_reflect (c = quote)) as [->|Hq]; [|destruct (bool_decide_reflect (c = backslash)) as [->|Hb]];
    cbn [orb app read_string].
  - cbn. rewrite IH. by rewrite <- app_assoc.
  - cbn. rewrite IH. by rewrite <- app_assoc.
  - rewrite (bool_decide_eq_false_2 (c = backslash)), (bool_decide_eq_false_2 (c = quote)) by done.
    rewrite IH. by rewrite <- app_assoc.
Qed.

(** A string that looks like a key is that key. *)
Lemma jstr_key k rest w : escape w = w -> take (length w + 2) (jstr k ++ rest) = jstr w -> k = w.
Proof.
  intros Hw E. unfold jstr in E. cbn [app] in E. rewrite Nat.add_succ_r in E. cbn [take] in E. injection E as E.
  assert ((escape k ++ [quote]) ++ rest = (escape w ++ [quote]) ++ drop (length w + 1) ((escape k ++ [quote]) ++ rest)) as E'.
  { rewrite <- (take_drop (length w + 1) ((escape k ++ [quote]) ++ rest)) at 1. by rewrite E. }
  rewrite <- !app_assoc in E'. cbn [app] in E'.
  pose proof (read_string_escape k rest []) as H1.
  pose proof (read_string_escape w (drop (length w + 1) (escape k ++ quote :: rest)) []) as H2.
  rewrite <- E', H1 in H2. by injection H2.
Qed.
(** *** The scanner on such text *)

Lemma skip_ws_colon_length s : (length (skip_ws_colon s) <= length s)%nat.
Proof. induction s as [|c s IH]; [done|]. cbn [skip_ws_colon length]. destruct (_ || _); cbn [length]; lia. Qed.

Lemma take_digits_length s : (length (take_digits s).2 <= length s)%nat.
Proof.
  induction s as [|c s IH]; [done|]. cbn [take_digits length]. destruct (isdigit c); [|done].
  destruct (take_digits s). cbn [snd] in *. lia.
Qed.

Lemma read_string_length s de acc : (length (read_string s de acc).2 <= length s)%nat.
Proof.
  revert de acc. induction s as [|c s IH]; intros de acc; [done|]. cbn [read_string length].
  destruct de; [etrans; [apply IH|lia]|]. destruct (bool_decide (c = backslash)); [etrans; [apply IH|lia]|].
  destruct (bool_decide (c = quote)); [cbn; lia|]. etrans; [apply IH|lia].
Qed.

Lemma scan_fuel n m s depth i e out :
  (length s <= n)%nat -> (length s <= m)%nat -> scan_loop n s depth i e out = scan_loop m s depth i e out.
Proof.
  revert m s depth i e out. induction n as [|n IH]; intros m s depth i e out Hn Hm.
  { destruct s; [by destruct m|cbn in Hn; lia]. }
  destruct s as [|c s]; [by destruct m|]. destruct m as [|m]; [cbn in Hm; lia|]. cbn [scan_loop length] in *.
  assert (length (drop 6 (c :: s)) <= length s)%nat as H6 by (rewrite length_drop; cbn [length]; lia).
  pose proof (skip_ws_colon_length (drop 6 (c :: s))) as Hs.
  pose proof (take_digits_length (skip_ws_colon (drop 6 (c :: s)))) as Hd.
  pose proof (read_string_length (drop 1 (skip_ws_colon (drop 6 (c :: s)))) false []) as Hr. rewrite length_drop in Hr.
  destruct (take_digits _) as [num r]. destruct (read_string _ _ _) as [v r']. cbn [snd] in *.
  repeat match goal with |- (if ?b then _ else _) = _ => destruct b end; apply IH; lia.
Qed.

Definition scan (s : bytes) (depth : Z) (i e : bool) (out : ObjFields) : ObjFields := scan_loop (length s) s depth i e out.

Lemma scan_tail n s depth i e out : (length s <= n)%nat -> scan_loop n s depth i e out = scan s depth i e out.
Proof. intros Hn. by apply scan_fuel. Qed.

(** Characters without a meaning. *)
Definition plain (c : byte) : bool :=
  negb (bool_decide (c = quote) || bool_decide (c = Byte.x7b) || bool_decide (c = Byte.x5b) ||
        bool_decide (c = Byte.x7d) || bool_decide (c = Byte.x5d)).

Lemma plain_inv c : plain c = true ->
  bool_decide (c = quote) = false /\ bool_decide (c = Byte.x7b) = false /\ bool_decide (c = Byte.x5b) = false /\
  bool_decide (c = Byte.x7d) = false /\ bool_decide (c = Byte.x5d) = false.
Proof. unfold plain. repeat destruct (bool_decide _); done. Qed.

Lemma scan_plain l s depth out : Forall (fun c => plain c = true) l -> scan (l ++ s) depth false false out = scan s depth false false out.
Proof.
  induction 1 as [|c l Hc _ IH]; [done|]. unfold scan at 1. cbn [app length scan_loop].
  destruct (plain_inv c Hc) as (-> & -> & -> & -> & ->). cbn [orb]. exact IH.
Qed.

Lemma spaces_plain l : spaces l -> Forall (fun c => plain c = true) l.
Proof. intros Hl. eapply Forall_impl; [exact Hl|]. intros c. by destruct c. Qed.

Lemma digits_plain l : Forall (fun c => isdigit c = true) l -> Forall (fun c => plain c = true) l.
Proof. intros Hl. eapply Forall_impl; [exact Hl|]. intros c. by destruct c. Qed.

(** Inside a string. *)
Lemma scan_in_string s rest depth out :
  scan (escape s ++ quote :: rest) depth true false out = scan rest depth false false out.
Proof.
  induction s as [|c s IH]; [reflexivity|]. change (escape (c :: s)) with (esc1 c ++ escape s). rewrite <- app_assoc. unfold esc1.
  destruct (bool_decide_reflect (c = quote)) as [->|Hq]; [exact IH|].
  destruct (bool_decide_reflect (c = backslash)) as [->|Hb]; [exact IH|]. cbn [orb app].
  unfold scan at 1. cbn [length scan_loop]. rewrite (bool_decide_eq_false_2 (c = backslash)), (bool_decide_eq_false_2 (c = quote)) by done.
  exact IH.
Qed.
(** What follows a value: the next member or the end. *)
Definition ends (t : bytes) : Prop := t = [] \/ head t = Some comma.

Lemma skip_spaces l s : spaces l -> skip_ws_colon (l ++ s) = skip_ws_colon s.
Proof. induction 1 as [|c l Hc _ IH]; [done|]. cbn [app skip_ws_colon]. by rewrite Hc. Qed.

Lemma skip_word c s : isspace c = false -> c <> Byte.x3a -> skip_ws_colon (c :: s) = c :: s.
Proof. intros Hc Hn. cbn [skip_ws_colon]. by rewrite Hc, bool_decide_eq_false_2. Qed.

Lemma ends_stops t : ends t -> skip_ws_colon t = t /\ take_digits t = ([], t) /\ head t <> Some quote.
Proof. intros [->|E]; [done|]. destruct t as [|c t]; [done|]. cbn [head] in E. injection E as ->. done. Qed.

(** A string at a place where a key might be. *)
Lemma scan_at_string s rest out :
  (take 6 (jstr s ++ rest) = kTypeKey /\ s = str "type") \/ (take 6 (jstr s ++ rest) = kDataKey /\ s = str "data") \/
  s <> str "type" /\ s <> str "data" /\ scan (jstr s ++ rest) 0 false false out = scan rest 0 false false out.
Proof.
  destruct (bool_decide_reflect (take 6 (jstr s ++ rest) = kTypeKey)) as [E|E1]; [left; split; [done|by apply (jstr_key s rest)]|].
  destruct (bool_decide_reflect (take 6 (jstr s ++ rest) = kDataKey)) as [E|E2]; [right; left; split; [done|by apply (jstr_key s rest)]|].
  right. right. split; [intros ->; by destruct E1|]. split; [intros ->; by destruct E2|].
  unfold scan at 1. change (jstr s ++ rest) with (quote :: (escape s ++ [quote]) ++ rest) in *. cbn [length scan_loop].
  rewrite (bool_decide_eq_true_2 (quote = quote)) by done. cbn [Z.eqb andb].
  rewrite (bool_decide_eq_false_2 _ E1), (bool_decide_eq_false_2 _ E2). rewrite <- app_assoc.
  apply (scan_in_string s rest 0 out).
Qed.

Lemma scan_type_key rest out :
  scan (kTypeKey ++ rest) 0 false false out =
  let '(num, r) := take_digits (skip_ws_colon rest) in
  scan r 0 false false (mkObjFields (match num with [] => of_type out | _ => default (of_type out) (stoi num) end) (of_data out) (has_data out)).
Proof.
  unfold scan at 1. change (kTypeKey ++ rest) with (quote :: str "type" ++ [quote] ++ rest). cbn [length scan_loop].
  change (take 6 (quote :: str "type" ++ [quote] ++ rest)) with kTypeKey.
  change (drop 6 (quote :: str "type" ++ [quote] ++ rest)) with rest.
  rewrite !bool_decide_eq_true_2 by done. cbn [Z.eqb andb].
  pose proof (take_digits_length (skip_ws_colon rest)) as Hd. pose proof (skip_ws_colon_length rest).
  destruct (take_digits (skip_ws_colon rest)) as [num r]. cbn [snd] in Hd. apply scan_tail. cbn [length app str]. rewrite length_app. cbn. lia.
Qed.

Lemma scan_data_key rest out :
  scan (kDataKey ++ rest) 0 false false out =
  let r := skip_ws_colon rest in
  if bool_decide (head r = Some quote) then
    let '(v, r') := read_string (drop 1 r) false [] in scan r' 0 false false (mkObjFields (of_type out) (strip_quotes v) true)
  else scan r 0 false false out.
Proof.
  unfold scan at 1. change (kDataKey ++ rest) with (quote :: str "data" ++ [quote] ++ rest). cbn [length scan_loop].
  change (take 6 (quote :: str "data" ++ [quote] ++ rest)) with kDataKey.
  change (drop 6 (quote :: str "data" ++ [quote] ++ rest)) with rest.
  rewrite !(bool_decide_eq_true_2 (_ = _)) by done. cbn [Z.eqb andb].
  change (bool_decide (kDataKey = kTypeKey)) with false. cbv zeta.
  pose proof (skip_ws_colon_length rest) as Hs.
  pose proof (read_string_length (drop 1 (skip_ws_colon rest)) false []) as Hr. rewrite length_drop in Hr.
  destruct (bool_decide (head (skip_ws_colon rest) = Some quote)); [destruct (read_string _ _ _) as [v r']|]; apply scan_tail; cbn [snd] in Hr; cbn [length app str];
    rewrite length_app; cbn; lia.
Qed.

Lemma scan_value s sp t out : spaces sp -> ends t -> scan (jstr s ++ sp ++ t) 0 false false out = scan t 0 false false out.
Proof.
  intros Hsp Ht. destruct (ends_stops t Ht) as (Hs & Hd & Hq). destruct (scan_at_string s (sp ++ t) out) as [[_ ->]|[[_ ->]|(_ & _ & E)]].
  - change (jstr (str "type")) with kTypeKey. rewrite scan_type_key, skip_spaces, Hs, Hd by done. by destruct out.
  - change (jstr (str "data")) with kDataKey. rewrite scan_data_key, skip_spaces, Hs by done. cbv zeta.
    by rewrite bool_decide_eq_false_2.
  - rewrite E. by apply scan_plain, spaces_plain.
Qed.

Lemma take_digits_app d t : Forall (fun c => isdigit c = true) d -> take_digits t = ([], t) -> take_digits (d ++ t) = (d, t).
Proof. intros Hd Ht. induction Hd as [|c d Hc _ IH]; [done|]. cbn [app take_digits]. by rewrite Hc, IH. Qed.

Lemma digits_nonneg d v : Forall (fun c => isdigit c = true) d -> 0 <= v -> 0 <= foldl (fun v c => v * 10 + (b2z c - 48)) v d.
Proof.
  intros Hd. revert v. induction Hd as [|c d Hc _ IH]; intros v Hv; [done|]. cbn [foldl]. apply IH.
  unfold isdigit in Hc. apply andb_prop in Hc as [Hc _]. apply Z.leb_le in Hc. lia.
Qed.

Lemma digit_starts c : isdigit c = true -> isspace c = false /\ c <> Byte.x3a /\ c <> quote /\ c <> Byte.x2d /\ c <> Byte.x2b.
Proof. by destruct c. Qed.

Lemma stoi_digits d : d <> [] -> Forall (fun c => isdigit c = true) d -> digits_value d <= 2147483647 -> stoi d = Some (digits_value d).
Proof.
  intros Hne Hd Hv. pose proof (digits_nonneg d 0 Hd ltac:(lia)) as H0. fold (digits_value d) in H0.
  pose proof (take_digits_app d [] Hd eq_refl) as Ht. rewrite app_nil_r in Ht.
  destruct d as [|c d]; [done|]. destruct (digit_starts c (Forall_inv Hd)) as (Hs & _ & _ & Hm & Hp).
  unfold stoi. rewrite drop_space_word by done. rewrite !bool_decide_eq_false_2 by done. rewrite Ht.
  destruct (Z.ltb_spec (digits_value (c :: d)) (-2147483648)); [lia|].
  destruct (Z.ltb_spec 2147483647 (digits_value (c :: d))); [lia|done].
Qed.

Lemma spaces_digits sp t : spaces sp -> ends t -> take_digits (sp ++ t) = ([], sp ++ t).
Proof.
  intros Hsp Ht. destruct sp as [|c sp]; [by apply ends_stops|]. cbn [app take_digits].
  assert (isdigit c = false) as -> by (apply Forall_inv in Hsp; by destruct c). done.
Qed.

(** One member. *)
Lemma scan_member m t out :
  member_ok m -> ends t -> scan (render_member m ++ t) 0 false false out = scan t 0 false false (member_fields out m).
Proof.
  intros (Hb & Hc1 & Hc2 & Ha & Hv) Ht. unfold render_member. rewrite <- !app_assoc. rewrite scan_plain by by apply spaces_plain.
  set (rest := (m_colon m).1 ++ [Byte.x3a] ++ (m_colon m).2 ++ render_val (m_val m) ++ m_after m ++ t).
  assert (skip_ws_colon rest = skip_ws_colon (render_val (m_val m) ++ m_after m ++ t)) as Hskip.
  { unfold rest. rewrite skip_spaces by done. cbn [app skip_ws_colon]. rewrite (bool_decide_eq_true_2 (Byte.x3a = Byte.x3a)), orb_true_r by done.
    by rewrite skip_spaces. }
  assert (scan rest 0 false false out = scan (render_val (m_val m) ++ m_after m ++ t) 0 false false out) as Hrest.
  { unfold rest. rewrite scan_plain by by apply spaces_plain. rewrite (scan_plain [Byte.x3a]) by by repeat constructor.
    by apply scan_plain, spaces_plain. }
  pose proof (scan_plain (m_after m) t 0) as Hafter. specialize (fun o => Hafter o (spaces_plain _ Ha)).
  unfold member_fields. destruct (m_val m) as [s|d] eqn:Ev; cbn [render_val] in *.
  - assert (forall r, skip_ws_colon (jstr s ++ r) = jstr s ++ r) as Hj by done. rewrite Hj in Hskip.
    destruct (scan_at_string (m_key m) rest out) as [[_ ->]|[[_ ->]|(_ & Hnd & E)]].
    + change (jstr (str "type")) with kTypeKey. rewrite scan_type_key, Hskip. change (take_digits (jstr s ++ m_after m ++ t)) with (@nil byte, jstr s ++ m_after m ++ t).
      cbv iota beta. rewrite scan_value by done. by destruct out.
    + change (jstr (str "data")) with kDataKey. rewrite scan_data_key, Hskip. cbv zeta.
      rewrite !bool_decide_eq_true_2 by done. change (drop 1 (jstr s ++ m_after m ++ t)) with ((escape s ++ [quote]) ++ m_after m ++ t).
      rewrite <- app_assoc. cbn [app]. rewrite read_string_escape. cbn [app]. apply Hafter.
    + rewrite E, Hrest, scan_value by done. by rewrite bool_decide_eq_false_2.
  - destruct Hv as (Hne & Hdig & Hmax). destruct d as [|c d]; [done|]. destruct (digit_starts c (Forall_inv Hdig)) as (Hs & Hcol & Hq & _ & _).
    assert (forall r, skip_ws_colon ((c :: d) ++ r) = (c :: d) ++ r) as Hj by (intros r; by apply skip_word). rewrite Hj in Hskip.
    destruct (scan_at_string (m_key m) rest out) as [[_ ->]|[[_ ->]|(Hnt & _ & E)]].
    + change (jstr (str "type")) with kTypeKey. rewrite scan_type_key, Hskip, (take_digits_app (c :: d)) by (done || by apply spaces_digits).
      rewrite stoi_digits by done. rewrite bool_decide_eq_true_2 by done. apply Hafter.
    + change (jstr (str "data")) with kDataKey. rewrite scan_data_key, Hskip. cbv zeta.
      rewrite (bool_decide_eq_false_2 (head _ = _)) by (cbn; congruence). rewrite scan_plain by by apply digits_plain.
      rewrite bool_decide_eq_false_2 by done. apply Hafter.
    + rewrite E, Hrest, scan_plain by by apply digits_plain. rewrite bool_decide_eq_false_2 by done. apply Hafter.
Qed.
(** *** Objects *)

Lemma commas_cons p ps : ps <> [] -> commas (p :: ps) = p ++ comma :: commas ps.
Proof. by destruct ps. Qed.

Lemma scan_obj ms out : Forall member_ok ms -> scan (render_obj ms) 0 false false out = foldl member_fields out ms.
Proof.
  intros Hms. revert out. induction Hms as [|m ms Hm Hms IH]; intros out; [done|]. cbn [foldl]. unfold render_obj. cbn [fmap list_fmap].
  destruct ms as [|m' ms'].
  - cbn [fmap list_fmap commas foldl]. pose proof (scan_member m [] out Hm (or_introl eq_refl)) as E. rewrite app_nil_r in E. exact E.
  - rewrite commas_cons by done. rewrite scan_member by (done || by right). rewrite <- IH.
    apply (scan_plain [comma]). by repeat constructor.
Qed.

(** Text without a brace outside of strings. *)
Definition flat (l : bytes) : Prop :=
  forall rest acc, match_brace (l ++ rest) 1 false false acc = match_brace rest 1 false false (acc ++ l).

Lemma flat_app l l' : flat l -> flat l' -> flat (l ++ l').
Proof. intros H1 H2 rest acc. by rewrite <- app_assoc, H1, H2, <- app_assoc. Qed.

Lemma flat_plain l : Forall (fun c => plain c = true) l -> flat l.
Proof.
  induction 1 as [|c l Hc _ IH]; intros rest acc; [by rewrite app_nil_r|]. cbn [app match_brace].
  destruct (plain_inv c Hc) as (-> & -> & -> & -> & ->). cbn [orb]. by rewrite IH, <- app_assoc.
Qed.

Lemma flat_string s : flat (jstr s).
Proof.
  intros rest acc. change (jstr s ++ rest) with (quote :: (escape s ++ [quote]) ++ rest). cbn [match_brace].
  rewrite (bool_decide_eq_true_2 (quote = quote)) by done. rewrite <- app_assoc. cbn [app].
  change (acc ++ jstr s) with (acc ++ [quote] ++ escape s ++ [quote]). rewrite app_assoc. generalize (acc ++ [quote]). clear acc.
  induction s as [|c s IH]; intros acc; [reflexivity|]. change (escape (c :: s)) with (esc1 c ++ escape s). unfold esc1.
  destruct (bool_decide_reflect (c = quote)) as [->|Hq]; [|destruct (bool_decide_reflect (c = backslash)) as [->|Hb]]; cbn [orb app].
  - transitivity (match_brace (escape s ++ quote :: rest) 1 true false ((acc ++ [backslash]) ++ [quote])); [done|].
    rewrite IH. by rewrite <- !app_assoc.
  - transitivity (match_brace (escape s ++ quote :: rest) 1 true false ((acc ++ [backslash]) ++ [backslash])); [done|].
    rewrite IH. by rewrite <- !app_assoc.
  - cbn [match_brace]. rewrite (bool_decide_eq_false_2 (c = backslash)), (bool_decide_eq_false_2 (c = quote)) by done.
    rewrite IH. by rewrite <- !app_assoc.
Qed.

Lemma flat_member m : member_ok m -> flat (render_member m).
Proof.
  intros (Hb & Hc1 & Hc2 & Ha & Hv). unfold render_member. repeat apply flat_app; try (by apply flat_plain, spaces_plain).
  - apply flat_string.
  - apply flat_plain. by repeat constructor.
  - destruct (m_val m) as [s|d]; [apply flat_string|]. apply flat_plain, digits_plain, Hv.
Qed.

Lemma flat_obj ms : Forall member_ok ms -> flat (render_obj ms).
Proof.
  unfold render_obj. induction 1 as [|m ms Hm Hms IH]; [intros rest acc; cbn; by rewrite app_nil_r|]. cbn [fmap list_fmap].
  destruct ms as [|m' ms']; [by apply flat_member|]. rewrite commas_cons by done. apply flat_app; [by apply flat_member|].
  change (comma :: commas (render_member <$> m' :: ms')) with ([comma] ++ commas (render_member <$> m' :: ms')).
  apply flat_app; [|exact IH]. apply flat_plain. by repeat constructor.
Qed.

Lemma brace_obj ms rest : Forall member_ok ms -> match_brace (render_obj ms ++ Byte.x7d :: rest) 1 false false [] = Some (render_obj ms, rest).
Proof. intros Hms. by rewrite (flat_obj ms Hms). Qed.

Lemma brace_length s d i e acc inner rest : match_brace s d i e acc = Some (inner, rest) -> (length rest < length s)%nat.
Proof.
  revert d i e acc. induction s as [|c s IH]; intros d i e acc E; [done|]. cbn [match_brace length] in *.
  repeat match type of E with (if ?b then _ else _) = _ => destruct b end; try (apply IH in E; lia). injection E as _ <-. lia.
Qed.

(** *** The array *)

Lemma answer_fuel n m s i e out : (length s <= n)%nat -> (length s <= m)%nat -> answer_loop n s i e out = answer_loop m s i e out.
Proof.
  revert m s i e out. induction n as [|n IH]; intros m s i e out Hn Hm.
  { destruct s; [by destruct m|cbn in Hn; lia]. }
  destruct s as [|c s]; [by destruct m|]. destruct m as [|m]; [cbn in Hm; lia|]. cbn [answer_loop length] in *.
  destruct (match_brace s 1 false false []) as [[inner s'']|] eqn:Eb; [apply brace_length in Eb|];
    repeat match goal with |- (if ?b then _ else _) = _ => destruct b end; try done; apply IH; lia.
Qed.

Definition answers (s : bytes) (out : list bytes) : list bytes := answer_loop (length s) s false false out.

(** An answer with the white space around it. *)
Record Answer := mkAnswer {
  a_before : bytes;
  a_members : list Member;
  a_after : bytes;
}.

Definition render_answer (a : Answer) : bytes := a_before a ++ [Byte.x7b] ++ render_obj (a_members a) ++ [Byte.x7d] ++ a_after a.
Definition answer_ok (a : Answer) : Prop := spaces (a_before a) /\ spaces (a_after a) /\ Forall member_ok (a_members a).

(** The text of a TXT answer. *)
Definition answer_txt (a : Answer) : option bytes :=
  let f := foldl member_fields (mkObjFields (-1) [] false) (a_members a) in
  if (of_type f =? 16) && has_data f then Some (of_data f) else None.

Lemma answers_plain l s out : Forall (fun c => plain c = true) l -> answers (l ++ s) out = answers s out.
Proof.
  induction 1 as [|c l Hc _ IH]; [done|]. unfold answers at 1. cbn [app length answer_loop].
  destruct (plain_inv c Hc) as (-> & -> & _ & _ & ->). exact IH.
Qed.

Lemma answers_one a t out : answer_ok a -> answers (render_answer a ++ t) out = answers t (out ++ option_list (answer_txt a)).
Proof.
  intros (Hb & Ha & Hms). unfold render_answer. rewrite <- !app_assoc, answers_plain by by apply spaces_plain.
  rewrite <- (answers_plain (a_after a) t) by by apply spaces_plain. unfold answers at 1. cbn [app length answer_loop].
  rewrite brace_obj by done. change (bool_decide (Byte.x7b = quote)) with false. change (bool_decide (Byte.x7b = Byte.x5d)) with false.
  rewrite bool_decide_eq_true_2 by done. unfold scan_object_fields. fold (scan (render_obj (a_members a)) 0 false false (mkObjFields (-1) [] false)).
  rewrite scan_obj by done. unfold answer_txt.
  rewrite (answer_fuel _ (length (a_after a ++ t))) by (rewrite ?length_app; cbn [length]; rewrite ?length_app; lia).
  destruct (_ && _); [done|]. cbn. by rewrite app_nil_r.
Qed.

Lemma answers_all l tail out : Forall answer_ok l -> answers (commas (render_answer <$> l) ++ Byte.x5d :: tail) out = out ++ omap answer_txt l.
Proof.
  intros Hl. revert out. induction Hl as [|a l Ha Hl IH]; intros out; [cbn; by rewrite app_nil_r|]. cbn [fmap list_fmap].
  destruct l as [|a' l'].
  - cbn [fmap list_fmap commas]. rewrite answers_one by done. unfold answers. cbn. destruct (answer_txt a); done.
  - rewrite commas_cons by done. rewrite <- app_assoc, answers_one by done. cbn [app].
    change (comma :: commas (render_answer <$> a' :: l') ++ Byte.x5d :: tail) with ([comma] ++ commas (render_answer <$> a' :: l') ++ Byte.x5d :: tail).
    rewrite answers_plain by by repeat constructor. rewrite IH, <- app_assoc. f_equal. cbn [omap list_omap]. by destruct (answer_txt a).
Qed.
(** *** The text of a record *)

(** Neither end is white space. *)
Definition visible (l : bytes) : Prop :=
  l <> [] /\ (forall c, head l = Some c -> isspace c = false) /\ (forall c, last l = Some c -> isspace c = false).

Lemma trim_visible indent l trail : spaces indent -> spaces trail -> visible l -> trim_ws (indent ++ l ++ trail) = l.
Proof.
  intros Hi Ht (Hne & Hh & Hl). destruct l as [|x l]; [done|]. destruct l as [|y l _] using rev_ind.
  - unfold trim_ws. rewrite drop_spaces by done. cbn [app]. rewrite drop_space_word by by apply Hh.
    rewrite reverse_cons. rewrite drop_spaces by (unfold spaces; by apply Forall_reverse). cbn. rewrite Hh by done. done.
  - apply trim_core; [done|done|by apply Hh|]. apply Hl. by rewrite app_comm_cons, last_snoc.
Qed.

Lemma trim_visible_id l : visible l -> trim_ws l = l.
Proof. intros Hl. rewrite <- (app_nil_r l) at 1. apply (trim_visible [] l []); [constructor|constructor|done]. Qed.

Lemma find_first_of_app p l c r : Forall (fun x => p x = false) l -> p c = true -> find_first_of p (l ++ c :: r) = Some (length l).
Proof. intros Hl Hc. induction Hl as [|x l Hx _ IH]; cbn [app find_first_of length]; [by rewrite Hc|]. by rewrite Hx, IH. Qed.

Lemma find_first_of_none p l : Forall (fun x => p x = false) l -> find_first_of p l = None.
Proof. induction 1 as [|x l Hx _ IH]; [done|]. cbn. by rewrite Hx, IH. Qed.

(** What an operator publishes: the key, the address, further parameters. *)
Definition finbit_txt (pk addr more : bytes) : bytes := kTxtMagic ++ kKp ++ to_hex pk ++ [Byte.x20] ++ addr ++ more.

Definition more_ok (more : bytes) : Prop :=
  more = [] \/ (exists c, head more = Some c /\ is_blank c = true) /\ (forall c, last more = Some c -> isspace c = false).

Lemma visible_app l r : visible l -> (r <> [] -> forall c, last r = Some c -> isspace c = false) -> visible (l ++ r).
Proof.
  intros (Hne & Hh & Hl) Hr. split; [by destruct l|]. split; [intros c; destruct l; [done|apply Hh]|].
  intros c Hc. destruct r as [|x r]; [rewrite app_nil_r in Hc; by apply Hl|]. rewrite last_app_cons in Hc. by apply Hr.
Qed.

Section peers.
Context `{!Sha256}.

(** A published record gives its peer, whatever surrounds it and follows the address. *)
Theorem txt_roundtrip (indent trail pk addr more : bytes) :
  spaces indent -> spaces trail -> length pk = 32%nat -> addr <> [] -> no_spaces addr -> more_ok more ->
  parse_finbit_txt (indent ++ finbit_txt pk addr more ++ trail) = Some (mkPeerInfo (node_id_from_pubkey pk) addr pk).
Proof.
  intros Hi Ht Hpk Hne Ha Hm.
  assert (visible addr) as Hva.
  { split; [done|]. split; intros c Hc; apply (proj1 (Forall_forall _ addr) Ha).
    - destruct addr; [done|]. injection Hc as ->. apply list_elem_of_here.
    - apply last_Some in Hc as [l ->]. apply elem_of_app. right. apply list_elem_of_here. }
  assert (visible (addr ++ more)) as Hvm.
  { apply visible_app; [done|]. intros Hne'. by destruct Hm as [->|[_ ?]]. }
  assert (forall l, l <> [] -> (forall c, head l = Some c -> isspace c = false) -> visible (l ++ addr ++ more)) as Hv.
  { intros l Hl Hh. split; [by destruct l|]. split; [intros c; destruct l; [done|apply Hh]|].
    intros c Hc. apply Hvm. destruct (addr ++ more) eqn:E; [by destruct addr|]. by rewrite last_app_cons in Hc. }
  assert (Forall (fun c => is_blank c = false) addr) as Hnb
    by (eapply Forall_impl; [exact Ha|]; intros c; by destruct c).
  assert (match find_first_of is_blank (addr ++ more) with None => addr ++ more | Some e => trim_ws (take e (addr ++ more)) end = addr) as Haddr.
  { destruct Hm as [->|[(c & Hc & Hbl) _]]; [by rewrite app_nil_r, find_first_of_none|]. destruct more as [|c' more]; [done|].
    injection Hc as ->. rewrite find_first_of_app by done. by rewrite take_app_length, trim_visible_id. }
  unfold parse_finbit_txt. rewrite trim_visible; [|done|done|].
  2:{ unfold finbit_txt. replace (kTxtMagic ++ kKp ++ to_hex pk ++ [Byte.x20] ++ addr ++ more) with
        ((kTxtMagic ++ kKp ++ to_hex pk ++ [Byte.x20]) ++ addr ++ more) by (by rewrite <- !app_assoc). by apply Hv; [|intros c [= <-]]. }
  unfold finbit_txt. change (take 4 (kTxtMagic ++ ?x)) with kTxtMagic. rewrite bool_decide_eq_true_2 by done.
  replace (length _ <=? 4)%nat with false by (symmetry; apply Nat.leb_gt; cbn; lia). cbn [orb negb].
  change (drop 4 (kTxtMagic ++ ?x)) with x.
  rewrite trim_visible_id.
  2:{ replace (kKp ++ to_hex pk ++ [Byte.x20] ++ addr ++ more) with ((kKp ++ to_hex pk ++ [Byte.x20]) ++ addr ++ more)
        by (by rewrite <- !app_assoc). by apply Hv; [|intros c [= <-]]. }
  pose proof (length_to_hex pk) as Hlh. rewrite Hpk in Hlh.
  rewrite app_assoc. cbn [app]. rewrite find_first_of_app; [|apply Forall_app; split|done].
  2: by repeat constructor.
  2:{ eapply Forall_impl; [apply no_spaces_hex|]. intros c. by destruct c. }
  rewrite take_app_length. rewrite length_app, Hlh. replace (_ <=? 8)%nat with false by done.
  change (take 8 (kKp ++ ?x)) with kKp. rewrite bool_decide_eq_true_2 by done. cbn [orb negb].
  change (drop 8 (kKp ++ ?x)) with x. unfold hex_decode. rewrite Hlh, hex_roundtrip.
  replace (drop (S (length kKp + 2 * 32)) ((kKp ++ to_hex pk) ++ Byte.x20 :: addr ++ more)) with (addr ++ more).
  2:{ rewrite cons_middle, app_assoc. symmetry. apply drop_app_length'. rewrite !length_app, Hlh. done. }
  rewrite (trim_visible_id (addr ++ more) Hvm), Haddr. by rewrite bool_decide_eq_false_2.
Qed.

(** *** The whole exchange *)

Lemma prefix_by_more needle l more : (length needle <= length l)%nat -> prefix_by byte_eqb needle (l ++ more) = prefix_by byte_eqb needle l.
Proof.
  revert l. induction needle as [|n needle IH]; intros l Hl; [by destruct l|]. destruct l as [|c l]; [cbn in Hl; lia|].
  cbn [app prefix_by]. rewrite IH; [done|]. cbn in Hl. lia.
Qed.

Lemma search_bound l needle i : search byte_eqb l needle = Some i -> (i + length needle <= length l)%nat.
Proof.
  revert i. induction l as [|c l IH]; intros i E.
  - destruct needle; [|done]. by injection E as <-.
  - rewrite search_cons in E. destruct (prefix_by byte_eqb needle (c :: l)) eqn:Ep.
    + injection E as <-. clear IH. revert Ep. generalize (c :: l). induction needle as [|n needle IH]; intros [|d m]; cbn; try done; [lia|].
      intros [_ Hp]%andb_prop. apply IH in Hp. cbn in Hp. lia.
    + destruct (search byte_eqb l needle) as [j|]; [|done]. injection E as <-. specialize (IH j eq_refl). cbn [length]. lia.
Qed.

(** Text that comes later does not move the first match. *)
Lemma search_more l needle i more : search byte_eqb l needle = Some i -> search byte_eqb (l ++ more) needle = Some i.
Proof.
  revert i. induction l as [|c l IH]; intros i E.
  - destruct needle; [|done]. injection E as <-. by destruct more.
  - pose proof (search_bound _ _ _ E) as Hb. cbn [app]. rewrite search_cons in E |- *.
    rewrite (app_comm_cons l more c), prefix_by_more by lia. destruct (prefix_by byte_eqb needle (c :: l)); [done|].
    destruct (search byte_eqb l needle) as [j|] eqn:Ej; [|done]. by rewrite (IH j).
Qed.

(** A body: something that does not mention the key, the key, the array, anything. *)
Definition answer_body (pre mid : bytes) (l : list Answer) (tail : bytes) : bytes :=
  (pre ++ kAnswerKey) ++ mid ++ [Byte.x5b] ++ commas (render_answer <$> l) ++ [Byte.x5d] ++ tail.

Lemma extract_answers pre mid l tail :
  search byte_eqb (pre ++ kAnswerKey) kAnswerKey = Some (length pre) -> Forall (fun c => c <> Byte.x5b) mid -> Forall answer_ok l ->
  extract_txt_data_values (answer_body pre mid l tail) = omap answer_txt l.
Proof.
  intros Hpre Hmid Hl. unfold extract_txt_data_values, find_from, answer_body. rewrite drop_0, (search_more _ _ _ _ Hpre).
  cbn [fmap option_fmap option_map]. rewrite Nat.add_0_l.
  set (arr := commas (render_answer <$> l) ++ [Byte.x5d] ++ tail).
  assert (drop (length pre) ((pre ++ kAnswerKey) ++ mid ++ [Byte.x5b] ++ arr) = (kAnswerKey ++ mid) ++ [Byte.x5b] ++ arr) as ->
    by (rewrite <- !app_assoc; apply drop_app_length).
  rewrite search_first by (apply Forall_app; split; [by repeat constructor|done]).
  change (search byte_eqb ([Byte.x5b] ++ arr) [Byte.x5b]) with (Some 0%nat). cbn [fmap option_fmap option_map].
  replace (drop (S (length pre + (length (kAnswerKey ++ mid) + 0))) ((pre ++ kAnswerKey) ++ mid ++ [Byte.x5b] ++ arr)) with arr.
  - apply (answers_all l tail []). done.
  - rewrite !app_assoc. symmetry. apply drop_app_length'. rewrite !length_app. cbn [length]. lia.
Qed.

(** A response: the status line, other headers, the body. *)
Definition http_response (version reason : bytes) (headers : list bytes) (body : bytes) : bytes :=
  unlines ((version ++ str " 200 " ++ reason) :: headers) ++ crlf ++ body.

Lemma search_space l rest : Forall (fun c => c <> Byte.x20) l -> search byte_eqb (l ++ Byte.x20 :: rest) [Byte.x20] = Some (length l).
Proof. intros Hl. rewrite search_first by done. cbn. rewrite byte_eqb_refl. cbn. f_equal. lia. Qed.

Lemma http_parsed version reason headers body :
  Forall (fun c => c <> Byte.x20) version -> no_cr version -> no_cr reason -> Forall (fun l => no_cr l /\ l <> []) headers ->
  parse_http_response (http_response version reason headers body) = mkHttpResponse 200 body.
Proof.
  intros Hv Hvc Hr Hh. set (st := version ++ str " 200 " ++ reason).
  assert (no_cr st) as Hst by (apply Forall_app; split; [done|]; apply Forall_app; split; [by repeat constructor|done]).
  assert (st <> []) as Hne by (unfold st; by destruct version).
  unfold parse_http_response, http_response. fold st.
  unfold find_from at 1. rewrite drop_0. rewrite unlines_cons, <- !app_assoc. rewrite search_crlf by done.
  cbn [fmap option_fmap option_map]. rewrite Nat.add_0_l, take_app_length.
  assert (find_from st [Byte.x20] 0 = Some (length version)) as ->.
  { unfold find_from. rewrite drop_0. unfold st. change (str " 200 " ++ reason) with (Byte.x20 :: str "200 " ++ reason). by rewrite search_space. }
  assert (find_from st [Byte.x20] (S (length version)) = Some (length version + 4)%nat) as ->.
  { unfold find_from, st. change (version ++ str " 200 " ++ reason) with (version ++ [Byte.x20] ++ str "200 " ++ reason).
    rewrite app_assoc, drop_app_length' by (rewrite length_app; cbn; lia).
    change (str "200 " ++ reason) with (str "200" ++ Byte.x20 :: reason). rewrite search_space by by repeat constructor.
    cbn. f_equal. lia. }
  replace (take (length version + 4 - length version - 1) (drop (S (length version)) st)) with (str "200").
  2:{ unfold st. change (version ++ str " 200 " ++ reason) with (version ++ [Byte.x20] ++ str "200 " ++ reason).
      rewrite app_assoc, drop_app_length' by (rewrite length_app; cbn; lia). by replace (length version + 4 - length version - 1)%nat with 3%nat by lia. }
  change (stoi (str "200")) with (Some 200). unfold find_from. rewrite drop_0.
  pose proof (search_terminator (st :: headers) body ltac:(done) ltac:(by constructor)) as Hterm.
  rewrite unlines_cons, <- !app_assoc in Hterm. rewrite Hterm. cbn [fmap option_fmap option_map]. f_equal. rewrite Nat.add_0_l.
  assert (exists x y u, unlines (st :: headers) = x :: y :: u) as (x & y & u & Eu)
    by (rewrite unlines_cons; destruct st as [|? [|? ?]]; [done|by eexists _, _, _..]).
  assert (st ++ crlf ++ unlines headers ++ crlf ++ body = (unlines (st :: headers) ++ crlf) ++ body) as ->
    by (by rewrite unlines_cons, <- !app_assoc).
  apply drop_app_length'. rewrite length_app, unlines_cons, !length_app. change (length crlf) with 2%nat. lia.
Qed.

Lemma drain_reads_all raw reads : Forall (fun r => r <> []) reads -> (length (raw ++ concat reads) <= 256 * 1024)%nat -> drain_reads raw reads = raw ++ concat reads.
Proof.
  intros Hr. revert raw. induction Hr as [|r reads Hr _ IH]; intros raw Hl; cbn [drain_reads concat] in *; [by rewrite app_nil_r|].
  rewrite bool_decide_eq_false_2 by done. rewrite app_assoc in Hl |- *.
  replace (256 * 1024 <? length (raw ++ r))%nat with false; [by apply IH|].
  symmetry. apply Nat.ltb_ge. rewrite (length_app (raw ++ r)) in Hl. lia.
Qed.

(** C13: every peer a resolver's answer publishes is found.  The answer may come in any pieces,
    with any headers, members in any order and number, names and texts of any content
    (escaped as JSON), and white space anywhere between; the first resolver of the list
    that yields a peer decides. *)
Theorem doh_resolves (exchange : DohEndpoint -> bytes -> option (list bytes)) (ep : DohEndpoint) (eps1 eps2 : list DohEndpoint)
    (query version reason pre mid tail : bytes) (headers reads : list bytes) (l : list Answer) :
  exchange ep (doh_request ep query) = Some reads -> Forall (fun r => r <> []) reads ->
  concat reads = http_response version reason headers (answer_body pre mid l tail) ->
  (length (concat reads) <= 256 * 1024)%nat ->
  Forall (fun c => c <> Byte.x20) version -> no_cr version -> no_cr reason -> Forall (fun l => no_cr l /\ l <> []) headers ->
  search byte_eqb (pre ++ kAnswerKey) kAnswerKey = Some (length pre) -> Forall (fun c => c <> Byte.x5b) mid -> Forall answer_ok l ->
  Forall (fun e => resolve_finbit_bootstrap exchange e query = []) eps1 ->
  let found := omap parse_finbit_txt (omap answer_txt l) in
  resolve_finbit_bootstrap exchange ep query = found /\
  (found <> [] -> first_answer exchange (eps1 ++ ep :: eps2) query = found).
Proof.
  intros Hex Hr Hraw Hlen Hv Hvc Hrc Hh Hpre Hmid Hl He found.
  assert (resolve_finbit_bootstrap exchange ep query = found) as Hres.
  { unfold resolve_finbit_bootstrap. rewrite Hex, drain_reads_all by done. cbn [app]. rewrite Hraw, http_parsed by done.
    cbn [http_status http_body Z.eqb Pos.eqb negb]. unfold parse_dns_json. by rewrite extract_answers. }
  split; [done|]. intros Hne. induction He as [|e eps He _ IH]; cbn [app first_answer].
  - rewrite Hres. by destruct found.
  - by rewrite He.
Qed.
End peers.

(** A record of several character strings keeps the quotes between them. *)
Lemma split_strings_keep_quotes a b :
  strip_quotes (quote :: a ++ [quote; Byte.x20; quote] ++ b ++ [quote]) = a ++ [quote; Byte.x20; quote] ++ b.
Proof.
  unfold strip_quotes. assert (last (quote :: a ++ [quote; Byte.x20; quote] ++ b ++ [quote]) = Some quote) as ->.
  { rewrite !app_assoc, app_comm_cons. apply last_snoc. }
  rewrite !bool_decide_eq_true_2 by done. cbn [length andb].
  replace (2 <=? _)%nat with true by (symmetry; apply Nat.leb_le; rewrite !length_app; cbn; lia). cbn [andb drop].
  rewrite drop_0, !app_assoc. apply take_app_length'. rewrite !length_app. cbn [length]. lia.
Qed.
End Doh.

(** ** Encrypted Client Hello configurations ([src/core/src/net/ech.cpp]) *)

(** [sodium_base642bin], original variant, white space ignored. *)
Class Base64Decode := base642bin : bytes -> option bytes.

Class Base64DecodeLaws `{!Base64, !Base64Decode} := {
  base64_decodes : forall b, base642bin (bin2base64 b) = Some b;
}.

Module Ech.

Definition be16 (b : bytes) (i : nat) : option Z :=
  match b !! i, b !! S i with
  | Some x, Some y => Some (u16 (Z.lor (Z.shiftl (b2z x) 8) (b2z y)))
  | _, _ => None
  end.

(** The walk over the configurations; every turn moves [off] by at least 4. *)
Fixpoint ech_loop (fuel : nat) (b : bytes) (off configs : nat) : bool :=
  match fuel with
  | O => false
  | S fuel' =>
      if negb (off <? length b)%nat then (off =? length b)%nat && (1 <=? configs)%nat
      else if (length b <? off + 4)%nat then false
      else
        match be16 b (off + 2) with
        | None => false
        | Some clen =>
            let off := (off + 4)%nat in
            if (length b <? off + Z.to_nat clen)%nat then false
            else ech_loop fuel' b (off + Z.to_nat clen) (S configs)
        end
  end.

Definition ech_config_list_looks_valid (b : bytes) : bool :=
  if (length b <? 2)%nat then false
  else
    match be16 b 0 with
    | None => false
    | Some inner_len =>
        if inner_len =? 0 then false
        else if negb (length b =? Z.to_nat inner_len + 2)%nat then false
        else ech_loop (S (length b)) b 2 0
    end.

Section ech.
Context `{!Base64, !Base64Decode}.

Definition decode_ech_config_list_b64 (b64 : bytes) : option bytes :=
  if bool_decide (b64 = []) then None
  else match base642bin b64 with
       | None => None
       | Some out => if ech_config_list_looks_valid out then Some out else None
       end.

(** The tokens between white space, in turn. *)
Fixpoint ech_tokens (fuel : nat) (s : bytes) : option bytes :=
  match fuel, s with
  | O, _ | _, [] => None
  | S fuel', _ =>
      let '(tok, r) := take_word (drop_space s) in
      if (4 <? length tok)%nat && bool_decide (take 4 tok = str "ech=") then
        match decode_ech_config_list_b64 (drop 4 tok) with
        | Some b => Some b
        | None => ech_tokens fuel' r
        end
      else ech_tokens fuel' r
  end.

Definition parse_ech_param (txt_body : bytes) : option bytes := ech_tokens (length txt_body) txt_body.
End ech.

(** *** Framing *)

Definition render_config (c : bytes * bytes) : bytes := c.1 ++ put_u16 (length c.2) ++ c.2.
Definition config_ok (c : bytes * bytes) : Prop := length c.1 = 2%nat /\ Z.of_nat (length c.2) < 65536.
Definition render_list (cs : list (bytes * bytes)) : bytes :=
  let inner := concat (render_config <$> cs) in put_u16 (length inner) ++ inner.

Lemma be16_app pre v rest : Z.of_nat v < 65536 -> be16 (pre ++ put_u16 v ++ rest) (length pre) = Some (Z.of_nat v).
Proof.
  intros Hv. unfold be16. rewrite (lookup_app_r pre _ (length pre)), (lookup_app_r pre _ (S (length pre))) by lia.
  rewrite Nat.sub_diag. replace (S (length pre) - length pre)%nat with 1%nat by lia.
  assert (exists x y, put_u16 v = [x; y]) as (x & y & E) by by eexists _, _. rewrite E.
  transitivity (Some (u16 (Z.lor (Z.shiftl (b2z x) 8) (b2z y)))); [done|].
  rewrite u16_value, <- E, put_u16_be, be_value_be_bytes by lia.
  f_equal. apply Z.mod_small. unfold u16_max. lia.
Qed.

Lemma be16_inv b i v : be16 b i = Some v -> (S i < length b)%nat /\ 0 <= v < 65536 /\ take 2 (drop i b) = put_u16 (Z.to_nat v).
Proof.
  unfold be16. destruct (b !! i) as [x|] eqn:E1; [|done]. destruct (b !! S i) as [y|] eqn:E2; [|done]. rewrite u16_value.
  intros [= <-]. pose proof (be_value_range [x; y]) as Hr. cbn [length] in Hr. change (256 ^ Z.of_nat 2) with 65536 in Hr.
  unfold u16, u16_max. rewrite Z.mod_small by lia. split; [by apply lookup_lt_Some in E2|]. split; [lia|].
  rewrite (drop_S _ _ _ E1), (drop_S _ _ _ E2). cbn [take]. rewrite put_u16_be, Z2Nat.id by lia.
  symmetry. apply (be_bytes_be_value [x; y]).
Qed.

Lemma render_config_length c : length (render_config c) = (length c.1 + 2 + length c.2)%nat.
Proof. unfold render_config. rewrite !length_app. change (length (put_u16 (length c.2))) with 2%nat. lia. Qed.

Lemma ech_loop_rendered cs pre k fuel :
  Forall config_ok cs -> (length (concat (render_config <$> cs)) < fuel)%nat ->
  ech_loop fuel (pre ++ concat (render_config <$> cs)) (length pre) k = (1 <=? k + length cs)%nat.
Proof.
  intros Hcs. revert pre k fuel. induction Hcs as [|c cs [Hv Hl] _ IH]; intros pre k fuel Hf; (destruct fuel as [|fuel]; [lia|]);
    cbn [ech_loop fmap list_fmap concat].
  - rewrite app_nil_r, Nat.ltb_irrefl, Nat.eqb_refl, Nat.add_0_r. done.
  - change (render_config <$> c :: cs) with (render_config c :: (render_config <$> cs)) in Hf. cbn [concat] in Hf.
    set (rest := concat (render_config <$> cs)) in *. pose proof (render_config_length c) as Hlc. rewrite Hv in Hlc.
    rewrite length_app, Hlc in Hf. rewrite !length_app, Hlc.
    replace (length pre <? length pre + (2 + 2 + length c.2 + length rest))%nat with true by (symmetry; apply Nat.ltb_lt; lia).
    replace (length pre + (2 + 2 + length c.2 + length rest) <? length pre + 4)%nat with false by (symmetry; apply Nat.ltb_ge; lia).
    cbn [negb]. unfold render_config at 1. rewrite <- !app_assoc. rewrite (app_assoc pre c.1).
    replace (length pre + 2)%nat with (length (pre ++ c.1)) by (rewrite length_app; lia). rewrite be16_app by done. rewrite Nat2Z.id.
    replace (length pre + (2 + 2 + length c.2 + length rest) <? length pre + 4 + length c.2)%nat with false by (symmetry; apply Nat.ltb_ge; lia).
    replace (length pre + 4 + length c.2)%nat with (length (pre ++ render_config c)) by (rewrite length_app; lia).
    rewrite (app_assoc pre (render_config c)), IH by (unfold rest in *; lia). cbn [length]. f_equal. lia.
Qed.

Lemma ech_loop_inv fuel b off k :
  (off <= length b)%nat -> ech_loop fuel b off k = true ->
  exists cs, Forall config_ok cs /\ drop off b = concat (render_config <$> cs) /\ (1 <= k + length cs)%nat.
Proof.
  revert off k. induction fuel as [|fuel IH]; intros off k Hoff E; [done|]. cbn [ech_loop] in E.
  destruct (Nat.ltb_spec off (length b)) as [Hlt|Hge]; cbn [negb] in E.
  - destruct (Nat.ltb_spec (length b) (off + 4)) as [|H4]; [done|]. destruct (be16 b (off + 2)) as [v|] eqn:Ev; [|done].
    apply be16_inv in Ev as (_ & Hv & Ht). destruct (Nat.ltb_spec (length b) (off + 4 + Z.to_nat v)) as [|Hfit]; [done|].
    apply IH in E as (cs & Hcs & Hd & Hn); [|lia]. exists ((take 2 (drop off b), take (Z.to_nat v) (drop (off + 4) b)) :: cs).
    split_and!.
    + constructor; [|done]. split; cbn [fst snd]; rewrite length_take, length_drop; lia.
    + change (render_config <$> ?x :: cs) with (render_config x :: (render_config <$> cs)). cbn [concat]. rewrite <- Hd.
      unfold render_config. cbn [fst snd]. rewrite length_take, length_drop, Nat.min_l, <- Ht by lia.
      rewrite <- (take_drop 2 (drop off b)) at 1. rewrite <- !app_assoc. f_equal. rewrite !drop_drop.
      rewrite <- (take_drop 2 (drop (off + 2) b)) at 1. f_equal. rewrite drop_drop. replace (off + 2 + 2)%nat with (off + 4)%nat by lia.
      rewrite <- (take_drop (Z.to_nat v) (drop (off + 4) b)) at 1. f_equal. by rewrite drop_drop.
    + cbn [length]. lia.
  - apply andb_prop in E as [_ E]. apply Nat.leb_le in E. exists []. split; [constructor|]. split; [by rewrite drop_ge by lia|].
    cbn [length]. lia.
Qed.

(** The check accepts exactly the well-framed lists of at least one configuration. *)
Theorem ech_list_framing (b : bytes) :
  ech_config_list_looks_valid b = true <->
  exists cs, cs <> [] /\ Forall config_ok cs /\ Z.of_nat (length (concat (render_config <$> cs))) < 65536 /\ b = render_list cs.
Proof.
  unfold ech_config_list_looks_valid. split.
  - destruct (Nat.ltb_spec (length b) 2) as [|H2]; [done|]. destruct (be16 b 0) as [n|] eqn:En; [|done].
    apply be16_inv in En as (_ & Hn & Ht). destruct (Z.eqb_spec n 0); [done|].
    destruct (Nat.eqb_spec (length b) (Z.to_nat n + 2)) as [Hl|]; cbn [negb]; [|done].
    intros E. apply ech_loop_inv in E as (cs & Hcs & Hd & Hlen); [|lia]. exists cs. rewrite drop_0 in Ht.
    assert (length (concat (render_config <$> cs)) = Z.to_nat n) as Hc by (rewrite <- Hd, length_drop; lia).
    split; [by destruct cs; [cbn in Hlen; lia|]|]. split; [done|]. split; [lia|].
    unfold render_list. rewrite Hc, <- Ht, <- Hd. by rewrite take_drop.
  - intros (cs & Hne & Hcs & Hlen & ->). unfold render_list. set (inner := concat (render_config <$> cs)) in *.
    assert (0 < length inner)%nat as Hpos.
    { unfold inner. destruct Hcs as [|c cs [Hv _] _]; [done|]. change (render_config <$> c :: cs) with (render_config c :: (render_config <$> cs)).
      cbn [concat]. rewrite length_app, render_config_length. lia. }
    rewrite length_app. change (length (put_u16 (length inner))) with 2%nat.
    destruct (Nat.ltb_spec (2 + length inner) 2); [lia|]. pose proof (be16_app [] (length inner) inner Hlen) as Eb. cbn [app length] in Eb.
    rewrite Eb. destruct (Z.eqb_spec (Z.of_nat (length inner)) 0); [lia|]. rewrite Nat2Z.id.
    destruct (Nat.eqb_spec (2 + length inner) (length inner + 2)); [|lia]. cbn [negb].
    pose proof (ech_loop_rendered cs (put_u16 (length inner)) 0 (S (2 + length inner)) Hcs ltac:(fold inner; lia)) as E.
    fold inner in E. change (length (put_u16 (length inner))) with 2%nat in E. rewrite E. by destruct cs.
Qed.

(** *** The parameter of a record *)

Section param.
Context `{!Base64, !Base64Laws, !Base64Decode, !Base64DecodeLaws, !Sha256}.

(** A word that is not the parameter is passed over. *)
Lemma ech_skip fuel sp w rest :
  spaces sp -> w <> [] -> no_spaces w -> take 4 w <> str "ech=" -> (forall c, head rest = Some c -> isspace c = true) ->
  ech_tokens (S fuel) (sp ++ w ++ rest) = ech_tokens fuel rest.
Proof.
  intros Hsp Hne Hw Hn Hr. destruct w as [|c w]; [done|]. cbn [ech_tokens].
  destruct (sp ++ (c :: w) ++ rest) as [|x l] eqn:E; [by destruct sp|]. rewrite <- E, drop_spaces by done.
  cbn [app]. rewrite drop_space_word by (by apply Forall_inv in Hw). change (c :: w ++ rest) with ((c :: w) ++ rest).
  rewrite take_word_app by done. rewrite (bool_decide_eq_false_2 _ Hn), andb_false_r. done.
Qed.

Lemma ech_found fuel sp b v :
  spaces sp -> b <> [] -> no_spaces b -> decode_ech_config_list_b64 b = Some v ->
  ech_tokens (S fuel) (sp ++ str "ech=" ++ b) = Some v.
Proof.
  intros Hsp Hne Hb Hv. cbn [ech_tokens]. destruct (sp ++ str "ech=" ++ b) as [|x l] eqn:E; [by destruct sp|].
  rewrite <- E, drop_spaces by done.
  assert (drop_space (str "ech=" ++ b) = (str "ech=" ++ b) ++ []) as -> by by rewrite app_nil_r.
  rewrite take_word_app; [|apply Forall_app; split; [by repeat constructor|done]|done].
  change (take 4 (str "ech=" ++ b)) with (str "ech="). change (drop 4 (str "ech=" ++ b)) with b.
  rewrite bool_decide_eq_true_2, Hv by done. destruct b; [done|]. reflexivity.
Qed.

(** A published configuration is found behind the address, and the peer is read as before. *)
Theorem ech_published (pk addr : bytes) (cs : list (bytes * bytes)) :
  length pk = 32%nat -> addr <> [] -> no_spaces addr -> take 4 addr <> str "ech=" ->
  cs <> [] -> Forall config_ok cs -> Z.of_nat (length (concat (render_config <$> cs))) < 65536 ->
  let txt := Doh.finbit_txt pk addr ([Byte.x20] ++ str "ech=" ++ bin2base64 (render_list cs)) in
  parse_ech_param txt = Some (render_list cs) /\
  Doh.parse_finbit_txt txt = Some (mkPeerInfo (node_id_from_pubkey pk) addr pk).
Proof.
  intros Hpk Hne Ha Hech Hcs Hok Hlen txt. set (b64 := bin2base64 (render_list cs)) in *.
  assert (no_spaces b64) as Hb.
  { eapply Forall_impl; [apply base64_chars|]. intros c Hc. cbv beta in Hc. destruct (isspace c) eqn:E; [exfalso|done].
    unfold isspace in E. apply orb_prop in E as [E|[_ E]%andb_prop]; lia. }
  assert (b64 <> []) as Hb0 by (by apply base64_nonempty).
  assert (spaces [Byte.x20]) as Hsp by (by repeat constructor).
  pose proof (no_spaces_hex pk) as Hhex. split.
  - assert (txt = [] ++ str "fb1" ++ [Byte.x20] ++ (Doh.kKp ++ to_hex pk) ++ [Byte.x20] ++ addr ++ [Byte.x20] ++ (str "ech=" ++ b64) ++ []) as E.
    { unfold txt, Doh.finbit_txt. rewrite app_nil_r, <- !app_assoc. done. }
    unfold parse_ech_param. assert (exists f, length txt = S (S (S (S f)))) as [f ->] by (eexists; rewrite E; reflexivity).
    rewrite E, ech_skip; [|constructor|done|by repeat constructor|done|by intros c [= <-]].
    rewrite ech_skip; [|done|done|apply Forall_app; split; [by repeat constructor|done]|done|by intros c [= <-]].
    rewrite ech_skip; [|done..|by intros c [= <-]]. rewrite app_nil_r.
    apply ech_found; [done|done|done|]. unfold decode_ech_config_list_b64. rewrite bool_decide_eq_false_2 by done.
    unfold b64. rewrite base64_decodes. replace (ech_config_list_looks_valid (render_list cs)) with true; [done|].
    symmetry. apply ech_list_framing. by exists cs.
  - pose proof (Doh.txt_roundtrip [] [] pk addr ([Byte.x20] ++ str "ech=" ++ b64)) as Ht. rewrite app_nil_r in Ht. apply Ht; try done; [constructor..|].
    right. split; [by eexists|]. intros c Hc. apply last_Some in Hc as [l' E].
    assert (c ∈ str "ech=" ++ b64) as Hin.
    { destruct l' as [|x l']; [by destruct b64|]. injection E as _ E. change (str "ech=" ++ b64 = l' ++ [c]) in E. rewrite E.
      apply elem_of_app. right. apply list_elem_of_here. }
    apply elem_of_app in Hin as [Hin|Hin]; [|by apply (proj1 (Forall_forall _ _) Hb)].
    assert (Forall (fun c => isspace c = false) (str "ech=")) as He by (by repeat constructor). by apply (proj1 (Forall_forall _ _) He).
Qed.
End param.
End Ech.

(** ** A resolver's answer on concrete data *)

Module DohWitness.
Import Doh.

#[local] Instance doh_sha256 : Sha256 := fun b => be_bytes 32 (be_value b).

Definition w_num (s : string) : JsonVal := JNum (str s).
Definition w_member (k : string) (v : JsonVal) : Member := mkMember (str " ") (str k) ([], str " ") v [].

(** One peer, one text that is not a peer, one record of another type. *)
Definition w_pk : bytes := be_bytes 32 77.
Definition w_record : bytes := finbit_txt w_pk (str "wss://relay.example:443") (str " v=1").
Definition w_answers : list Answer :=
  [mkAnswer [] [w_member "name" (JStr (str "_finbit.example.com")); w_member "type" (w_num "16"); w_member "TTL" (w_num "300");
                w_member "data" (JStr (quote :: w_record ++ [quote]))] (str " ");
   mkAnswer [] [w_member "data" (JStr (str "a}b]")); w_member "type" (w_num "16")] [];
   mkAnswer [] [w_member "type" (w_num "5"); w_member "data" (JStr (str "alias.example"))] []].

Definition w_body : bytes := answer_body (str "{ ") (str ": ") w_answers (str "}").
Definition w_response : bytes := http_response (str "HTTP/1.1") (str "OK") [str "Content-Type: application/dns-json"] w_body.
Definition w_ep : DohEndpoint := mkDohEndpoint (str "dns.google") 443 (str "/resolve").
Definition w_exchange (e : DohEndpoint) (req : bytes) : option (list bytes) :=
  if bool_decide (doh_host e = str "dns.google") then Some [take 40 w_response; drop 40 w_response] else None.

Lemma doh_resolves_witness :
  first_answer w_exchange default_doh_endpoints (str "_finbit.example.com") =
    [mkPeerInfo (node_id_from_pubkey w_pk) (str "wss://relay.example:443") w_pk].
Proof.
  assert (Forall answer_ok w_answers) as Hok.
  { repeat (constructor; try done); cbn; try lia. }
  pose proof (doh_resolves w_exchange w_ep (take 1 default_doh_endpoints) (drop 2 default_doh_endpoints) (str "_finbit.example.com")
    (str "HTTP/1.1") (str "OK") (str "{ ") (str ": ") (str "}") [str "Content-Type: application/dns-json"]
    [take 40 w_response; drop 40 w_response] w_answers) as Hw.
  destruct Hw as [_ Hw].
  - reflexivity.
  - by repeat constructor.
  - vm_compute. reflexivity.
  - apply Nat.leb_le. vm_compute. reflexivity.
  - by repeat constructor.
  - by repeat constructor.
  - by repeat constructor.
  - by repeat constructor.
  - reflexivity.
  - by repeat constructor.
  - exact Hok.
  - constructor; [|constructor]. reflexivity.
  - etransitivity; [apply Hw; vm_compute; discriminate|]. vm_compute. reflexivity.
Defined.
End DohWitness.
