(* ===== verification/SerialBridge.v ===== *)
(** * The serial mesh bridge ([src/core/src/mesh/serial_bridge.cpp])

    Frames with a 16-bit length over a serial line.  What [write], [select] and
    [read] answer is an argument; opening and configuring the port is not
    modelled (the POSIX branch). *)
From S2P Require Import Prelude StreamParser AttachmentFrame.

Record MeshFrame := mkMeshFrame {
  origin : bytes;
  topic : bytes;
  snr_db : Z;
  hop_limit : Z;
  mesh_payload : bytes;
}.

(** ** Sending *)

Inductive WriteResult :=
  | Wrote (n : nat)
  | WriteInterrupted
  | WouldBlock (writable : bool)  (** and what [select] said within a second *)
  | WriteFailed.

(** [None]: the calls answered so far do not complete the loop. *)
Fixpoint write_loop (left line : bytes) (calls : list WriteResult) : option (bool * bytes) :=
  match left, calls with
  | [], _ => Some (true, line)
  | _, [] => None
  | _, Wrote n :: calls' => write_loop (drop n left) (line ++ take n left) calls'
  | _, WriteInterrupted :: calls' => write_loop left line calls'
  | _, WouldBlock true :: calls' => write_loop left line calls'
  | _, WouldBlock false :: _ => Some (false, line)
  | _, WriteFailed :: _ => Some (false, line)
  end.

Definition framed (payload : bytes) : bytes := put_u16 (length payload) ++ payload.

(** [send]: the verdict and what is on the line afterwards. *)
Definition send (is_open : bool) (payload line : bytes) (calls : list WriteResult) : option (bool * bytes) :=
  if negb is_open then Some (false, line)
  else if 65535 <? Z.of_nat (length payload) then Some (false, line)
  else write_loop (framed payload) line calls.

(** ** Receiving *)

(** One turn of the loop in [drain_frames]. *)
Definition serial_step (_ : unit) (buf : bytes) : verdict unit bytes Empty_set :=
  match take_field buf with
  | None => VNeed
  | Some (payload, rest) => VNext (Some payload) tt rest
  end.

Definition mesh_frame (payload : bytes) : MeshFrame := mkMeshFrame (str "serial") (str "primary") 0 0 payload.

(** The frames handed to [on_frame_] and what stays in the buffer. *)
Definition drain_frames (buf : bytes) : list MeshFrame * bytes :=
  let '(payloads, _, _, rest) := drain serial_step tt buf in (mesh_frame <$> payloads, rest).

Inductive ReadEvent :=
  | SelectTimeout
  | SelectInterrupted
  | SelectFailed
  | ReadAgain
  | ReadFailed
  | ReadBytes (chunk : bytes).

Fixpoint read_loop (buf : bytes) (events : list ReadEvent) : list MeshFrame :=
  match events with
  | [] => []
  | SelectFailed :: _ | ReadFailed :: _ => []
  | SelectTimeout :: events' | SelectInterrupted :: events' | ReadAgain :: events' => read_loop buf events'
  | ReadBytes chunk :: events' =>
      if (length chunk =? 0)%nat then read_loop buf events'
      else let '(frames, buf') := drain_frames (buf ++ chunk) in frames ++ read_loop buf' events'
  end.

(** ** The line *)

#[export] Instance serial_stream_step : StreamStep serial_step.
Proof.
  split; unfold serial_step.
  - intros [] b o [] rest. destruct (take_field b) as [[p r]|] eqn:E; [|done]. intros [= _ <-].
    apply take_field_inv in E as [-> _]. rewrite !length_app. cbn. lia.
  - intros [] b o [] rest more. destruct (take_field b) as [[p r]|] eqn:E; [|done]. intros [= <- <-].
    apply take_field_inv in E as [-> Hp]. rewrite <- !app_assoc. by rewrite take_field_put.
  - intros [] b w more. by destruct (take_field b) as [[p r]|].
Qed.

Definition short (p : bytes) : Prop := Z.of_nat (length p) < 65536.

Lemma drain_framed ps rest :
  Forall short ps ->
  drain serial_step tt (concat (framed <$> ps) ++ rest) =
  let '(outs, w, st, r) := drain serial_step tt rest in (ps ++ outs, w, st, r).
Proof.
  induction 1 as [|p ps Hp _ IH]; cbn [fmap list_fmap concat].
  - cbn [app]. by destruct (drain serial_step tt rest) as [[[??]?]?].
  - rewrite drain_unfold by apply _. unfold serial_step at 1, framed at 1. rewrite <- !app_assoc, take_field_put by done.
    rewrite IH. by destruct (drain serial_step tt rest) as [[[??]?]?].
Qed.

Lemma drain_nil : drain serial_step tt [] = ([], None, tt, []).
Proof. done. Qed.

(** What was read so far in one piece. *)
Definition chunks_of (events : list ReadEvent) : bytes :=
  concat ((fun e => match e with ReadBytes c => c | _ => [] end) <$> events).

Definition no_failure (events : list ReadEvent) : Prop :=
  Forall (fun e => e <> SelectFailed /\ e <> ReadFailed) events.

(** A buffer that has been drained gives nothing more. *)
Lemma read_loop_drain events buf :
  no_failure events -> (drain_frames buf).1 = [] ->
  read_loop buf events = (drain_frames (buf ++ chunks_of events)).1.
Proof.
  intros Hev. revert buf. induction Hev as [|e events [Hs Hr] _ IH]; intros buf Hbuf.
  { unfold chunks_of. cbn. by rewrite app_nil_r, Hbuf. }
  unfold chunks_of. cbn [fmap list_fmap concat]. fold (chunks_of events).
  destruct e as [| | | | |c]; try done; cbn [read_loop app]; [by apply IH..|].
  destruct (Nat.eqb_spec (length c) 0) as [E|_]; [apply length_zero_iff_nil in E as ->; by apply IH|].
  rewrite app_assoc. unfold drain_frames. rewrite (drain_app serial_step tt (buf ++ c)).
  destruct (drain serial_step tt (buf ++ c)) as [[[outs w] []] rest] eqn:E. destruct w as [[]|].
  rewrite IH.
  - unfold drain_frames. destruct (drain serial_step tt (rest ++ chunks_of events)) as [[[outs' w'] []] rest'].
    cbn [fst]. by rewrite fmap_app.
  - pose proof (drain_app serial_step tt (buf ++ c) []) as Hnil. rewrite app_nil_r, E in Hnil. unfold drain_frames.
    rewrite app_nil_r in Hnil. destruct (drain serial_step tt rest) as [[[outs' w'] []] rest'].
    injection Hnil as Houts _. cbn [fst]. assert (outs' = []) as ->; [|done].
    apply (f_equal length) in Houts. rewrite length_app in Houts. destruct outs'; [done|cbn in Houts; lia].
Qed.

Lemma write_loop_line left line calls line' :
  write_loop left line calls = Some (true, line') -> line' = line ++ left.
Proof.
  revert left line. induction calls as [|c calls IH]; intros [|b left] line; cbn [write_loop]; try done.
  - intros [= <-]. by rewrite app_nil_r.
  - intros [= <-]. by rewrite app_nil_r.
  - destruct c as [n| |[]|]; try done; intros E%IH; [|done..]. by rewrite E, <- app_assoc, take_drop.
Qed.

(** Sends that report success, one after the other. *)
Fixpoint send_seq (ps : list (bytes * list WriteResult)) (line : bytes) : option bytes :=
  match ps with
  | [] => Some line
  | (p, calls) :: ps' =>
      match send true p line calls with
      | Some (true, line') => send_seq ps' line'
      | _ => None
      end
  end.

Lemma send_seq_line ps line line' :
  send_seq ps line = Some line' -> line' = line ++ concat (framed <$> ps.*1) /\ Forall short ps.*1.
Proof.
  revert line. induction ps as [|[p calls] ps IH]; intros line; cbn [send_seq].
  - intros [= <-]. cbn. by rewrite app_nil_r.
  - unfold send. cbn [negb]. destruct (Z.ltb_spec 65535 (Z.of_nat (length p))); [done|].
    destruct (write_loop (framed p) line calls) as [[[] line1]|] eqn:E; try done.
    intros [-> Hps]%IH. apply write_loop_line in E as ->. rewrite !fmap_cons. cbn [fst concat]. rewrite <- app_assoc.
    split; [done|]. constructor; [unfold short; lia|done].
Qed.

(** What is sent over the line arrives: if every [send] reported success, then
    however writes were split, interrupted or delayed, and however the bytes are
    cut into reads, the other side is called with exactly the payloads in order. *)
Theorem serial_line_roundtrip (ps : list (bytes * list WriteResult)) (line : bytes) (events : list ReadEvent)
    (Hsent : send_seq ps [] = Some line) (Hev : no_failure events) (Hread : chunks_of events = line) :
  read_loop [] events = mesh_frame <$> ps.*1.
Proof.
  apply send_seq_line in Hsent as [-> Hps]. rewrite read_loop_drain by done. rewrite Hread. cbn [app].
  unfold drain_frames. rewrite <- (app_nil_r (concat _)), drain_framed, drain_nil by done. cbn [fst]. by rewrite app_nil_r.
Qed.

Lemma serial_line_roundtrip_witness :
  read_loop [] [ReadBytes [Byte.x00]; SelectTimeout; ReadBytes [Byte.x02; Byte.x68]; ReadBytes [Byte.x69; Byte.x00; Byte.x00]]
  = mesh_frame <$> [str "hi"; []].
Proof.
  apply (serial_line_roundtrip [(str "hi", [Wrote 1; WouldBlock true; WriteInterrupted; Wrote 3]); ([], [Wrote 2])]
           [Byte.x00; Byte.x02; Byte.x68; Byte.x69; Byte.x00; Byte.x00]); [reflexivity| |reflexivity].
  repeat constructor; done.
Defined.

(** A send that gives up in the middle of a frame leaves its head on the line:
    the message that follows is read as the rest of the first one. *)
Example abandoned_send_corrupts_next :
  send true (str "hello") [] [Wrote 3; WouldBlock false] = Some (false, [Byte.x00; Byte.x05; Byte.x68]) /\
  send true (str "next") [Byte.x00; Byte.x05; Byte.x68] [Wrote 6] = Some (true, [Byte.x00; Byte.x05; Byte.x68] ++ framed (str "next")) /\
  read_loop [] [ReadBytes ([Byte.x00; Byte.x05; Byte.x68] ++ framed (str "next"))] =
    [mesh_frame ([Byte.x68; Byte.x00; Byte.x04] ++ str "ne")].
Proof. split_and!; vm_compute; reflexivity. Qed.
