(* ===== verification/LanDiscovery.v ===== *)
(** * Discovery on the local network ([src/core/src/p2p/lan_discovery.cpp])

    The beacon format and the loop that sends beacons and listens.  The clock,
    the stop flag and what [recvfrom] gave are arguments; setting the multicast
    socket up is not modelled. *)
From S2P Require Import Prelude.

Definition kLanMagic : bytes := str "FBLN".
Definition kLanVersion : byte := Byte.x01.
Definition kBeaconLen : nat := 4 + 1 + 32 + 2 + 2.

Record LanBeacon := mkLanBeacon {
  beacon_pubkey : bytes;
  beacon_gossip_port : Z;
  beacon_relay_port : Z;
}.

Record LanPeer := mkLanPeer {
  lan_pubkey : bytes;
  lan_ip : bytes;
  lan_gossip_port : Z;
  lan_relay_port : Z;
}.

Definition encode_lan_beacon (pubkey : bytes) (gossip_port relay_port : Z) : bytes :=
  kLanMagic ++ [kLanVersion] ++ pubkey ++
  [z2b (Z.land (Z.shiftr gossip_port 8) 255); z2b (Z.land gossip_port 255)] ++
  [z2b (Z.land (Z.shiftr relay_port 8) 255); z2b (Z.land relay_port 255)].

(** [d[i]] *)
Definition at_ (d : bytes) (i : nat) : byte := default Byte.x00 (d !! i).

Definition parse_lan_beacon (d : bytes) : option LanBeacon :=
  if (length d <? kBeaconLen)%nat then None
  else if negb (bool_decide (take 4 d = kLanMagic)) then None
  else if negb (bool_decide (at_ d 4 = kLanVersion)) then None
  else Some (mkLanBeacon (take 32 (drop 5 d))
               (u16 (Z.lor (Z.shiftl (b2z (at_ d 37)) 8) (b2z (at_ d 38))))
               (u16 (Z.lor (Z.shiftl (b2z (at_ d 39)) 8) (b2z (at_ d 40))))).

Record LanDiscovery := mkLanDiscovery {
  self_pubkey_ : bytes;
  gossip_port_ : Z;
  relay_port_ : Z;
  last_beacon : Z;
}.

Inductive LanEffect :=
  | SendBeacon (at_ms : Z) (beacon : bytes)
  | PeerHeard (p : LanPeer).

(** What [recvfrom] gave: the datagram and its source address. *)
Definition Datagram := option (bytes * bytes).

(** The receive buffer holds 128 bytes; [recvfrom] drops the rest of a datagram. *)
Definition hear (n : LanDiscovery) (got : Datagram) : list LanEffect :=
  match got with
  | None | Some ([], _) => []
  | Some (d, ip) =>
      match parse_lan_beacon (take 128 d) with
      | None => []
      | Some b =>
          if bool_decide (beacon_pubkey b = self_pubkey_ n) then []
          else [PeerHeard (mkLanPeer (beacon_pubkey b) ip (beacon_gossip_port b) (beacon_relay_port b))]
      end
  end.

(** One turn of the loop in [run] (times in milliseconds). *)
Definition run_turn (n : LanDiscovery) (now : Z) (got : Datagram) : LanDiscovery * list LanEffect :=
  let '(n, sent) :=
    if 3000 <=? now - last_beacon n
    then (mkLanDiscovery (self_pubkey_ n) (gossip_port_ n) (relay_port_ n) now,
          [SendBeacon now (encode_lan_beacon (self_pubkey_ n) (gossip_port_ n) (relay_port_ n))])
    else (n, []) in
  (n, sent ++ hear n got).

Fixpoint run (n : LanDiscovery) (turns : list (Z * Datagram)) : list LanEffect :=
  match turns with
  | [] => []
  | (now, got) :: turns' => let '(n', es) := run_turn n now got in es ++ run n' turns'
  end.

(** ** Correctness *)

Definition is_u16 (p : Z) : Prop := 0 <= p < 65536.

Lemma be16_value p : is_u16 p ->
  u16 (Z.lor (Z.shiftl (b2z (z2b (Z.land (Z.shiftr p 8) 255))) 8) (b2z (z2b (Z.land p 255)))) = p.
Proof.
  intros Hp. unfold is_u16 in Hp. pose proof (be_value_be_bytes 2 p ltac:(lia)) as E. unfold be_value in E. cbn [be_bytes foldl] in E.
  rewrite Z.shiftr_0_r in E. unfold be_step in E at 1. unfold be_step in E. rewrite Z.shiftl_0_l, Z.lor_0_l in E.
  change (8 * Z.of_nat 1) with 8 in E. rewrite E. unfold u16, u16_max. apply Z.mod_small. lia.
Qed.

(** A beacon reads back, alone or with bytes a later version appends. *)
Lemma lan_beacon_roundtrip pk gp rp more :
  length pk = 32%nat -> is_u16 gp -> is_u16 rp ->
  parse_lan_beacon (encode_lan_beacon pk gp rp ++ more) = Some (mkLanBeacon pk gp rp).
Proof.
  intros Hpk Hg Hr. unfold parse_lan_beacon, encode_lan_beacon. rewrite <- !app_assoc, !length_app, Hpk.
  rewrite (proj2 (Nat.ltb_ge _ _)) by (unfold kBeaconLen; cbn; lia).
  rewrite bool_decide_true by done. cbn [negb].
  assert (forall i x, (5 + 32 + i)%nat = x ->
    at_ (kLanMagic ++ [kLanVersion] ++ pk ++
      [z2b (Z.land (Z.shiftr gp 8) 255); z2b (Z.land gp 255)] ++ [z2b (Z.land (Z.shiftr rp 8) 255); z2b (Z.land rp 255)] ++ more) x =
    at_ ([z2b (Z.land (Z.shiftr gp 8) 255); z2b (Z.land gp 255)] ++ [z2b (Z.land (Z.shiftr rp 8) 255); z2b (Z.land rp 255)] ++ more) i) as Hat.
  { intros i x <-. unfold at_. rewrite (app_assoc kLanMagic). rewrite lookup_app_r by (cbn; lia). rewrite lookup_app_r by (rewrite Hpk; cbn; lia).
    do 2 f_equal. rewrite Hpk. cbn. lia. }
  rewrite (Hat 0%nat 37%nat), (Hat 1%nat 38%nat), (Hat 2%nat 39%nat), (Hat 3%nat 40%nat) by done.
  rewrite bool_decide_true by done. cbn [negb]. unfold at_. cbn [app lookup list_lookup from_option Datatypes.id]. rewrite !be16_value by done.
  do 2 f_equal. change (drop 5 _) with (pk ++ [z2b (Z.land (Z.shiftr gp 8) 255); z2b (Z.land gp 255)] ++
    [z2b (Z.land (Z.shiftr rp 8) 255); z2b (Z.land rp 255)] ++ more). by rewrite take_app_length'.
Qed.

Definition is_peer (e : LanEffect) : option LanPeer := match e with PeerHeard p => Some p | _ => None end.
Definition sent_at (e : LanEffect) : option Z := match e with SendBeacon t _ => Some t | _ => None end.

Lemma run_turn_fields n now got :
  let n' := (run_turn n now got).1 in
  self_pubkey_ n' = self_pubkey_ n /\ gossip_port_ n' = gossip_port_ n /\ relay_port_ n' = relay_port_ n.
Proof. unfold run_turn. by destruct (3000 <=? now - last_beacon n). Qed.

Lemma run_turn_peers n now got : omap is_peer (run_turn n now got).2 = omap is_peer (hear n got).
Proof. unfold run_turn. by destruct (3000 <=? now - last_beacon n). Qed.

Lemma hear_self n n' got : self_pubkey_ n = self_pubkey_ n' -> hear n got = hear n' got.
Proof. intros E. unfold hear. by rewrite E. Qed.

(** Nodes on a network find each other: in any run, the callback is called for a
    datagram exactly if it is a beacon of another node, once for each, with that
    node's key and ports and the address the datagram came from. *)
Theorem lan_peers_heard (n : LanDiscovery) (turns : list (Z * Datagram)) :
  omap is_peer (run n turns) = turns ≫= (fun t => omap is_peer (hear n t.2)) /\
  (forall pk gp rp ip more, length pk = 32%nat -> is_u16 gp -> is_u16 rp -> (length more <= 87)%nat ->
     hear n (Some (encode_lan_beacon pk gp rp ++ more, ip)) =
       if bool_decide (pk = self_pubkey_ n) then [] else [PeerHeard (mkLanPeer pk ip gp rp)]).
Proof.
  split.
  - assert (forall n', self_pubkey_ n' = self_pubkey_ n ->
      omap is_peer (run n' turns) = turns ≫= (fun t => omap is_peer (hear n t.2))) as Hgen; [|by apply Hgen].
    induction turns as [|[now got] turns IH]; intros n' En; [done|]. cbn [run mbind list_bind snd].
    pose proof (run_turn_fields n' now got) as (Ef & _ & _). pose proof (run_turn_peers n' now got) as Ep.
    destruct (run_turn n' now got) as [n1 es]. cbn [fst snd] in *. rewrite omap_app, Ep, (hear_self n' n) by done.
    f_equal. apply IH. congruence.
  - intros pk gp rp ip more Hpk Hg Hr Hmore. unfold hear.
    assert (length (encode_lan_beacon pk gp rp) = 41%nat) as Hlen by (unfold encode_lan_beacon; rewrite !length_app, Hpk; done).
    destruct (encode_lan_beacon pk gp rp ++ more) as [|x d] eqn:E; [by apply (f_equal length) in E; rewrite length_app, Hlen in E|].
    rewrite <- E, take_ge by (rewrite length_app, Hlen; lia). rewrite lan_beacon_roundtrip by done. done.
Qed.

(** ** The rate of beacons *)

Definition beacon_at (l : list LanEffect) (i : nat) (t : Z) : Prop := exists b, l !! i = Some (SendBeacon t b).

(** Beacons come at least three seconds apart, the first that long after [since]. *)
Definition spaced (since : Z) (l : list LanEffect) : Prop :=
  (forall i t, beacon_at l i t -> since + 3000 <= t) /\
  (forall i j t1 t2, (i < j)%nat -> beacon_at l i t1 -> beacon_at l j t2 -> t1 + 3000 <= t2).

Lemma spaced_quiet since es rest : Forall (fun e => sent_at e = None) es -> spaced since rest -> spaced since (es ++ rest).
Proof.
  intros Hes [Hf Hs].
  assert (forall i t, beacon_at (es ++ rest) i t -> (length es <= i)%nat /\ beacon_at rest (i - length es) t) as Hlow.
  { intros i t [b Hi]. apply lookup_app_Some in Hi as [Hi|[Hge Hi]]; [|by split; [|exists b]].
    apply list_elem_of_lookup_2 in Hi. rewrite Forall_forall in Hes. by specialize (Hes _ Hi). }
  split.
  - intros i t [_ Hi]%Hlow. by eapply Hf.
  - intros i j t1 t2 Hij [Hi1 Hi2]%Hlow [Hj1 Hj2]%Hlow. eapply Hs; [|exact Hi2|exact Hj2]. lia.
Qed.

Lemma spaced_cons since now b rest : since + 3000 <= now -> spaced now rest -> spaced since (SendBeacon now b :: rest).
Proof.
  intros Hnow [Hf Hs]. split.
  - intros [|i] t [b' Hi]; [injection Hi as <- <-; lia|]. specialize (Hf i t ltac:(by exists b')). lia.
  - intros [|i] [|j] t1 t2 Hij [b1 Hi] [b2 Hj]; [lia| |lia|].
    + injection Hi as <- <-. apply (Hf j). by exists b2.
    + apply (Hs i j); [lia|by exists b1|by exists b2].
Qed.

Lemma hear_quiet n got : Forall (fun e => sent_at e = None) (hear n got).
Proof.
  unfold hear. destruct got as [[[|] ip]|]; [constructor| |constructor].
  destruct (parse_lan_beacon _); [|constructor]. case_bool_decide; repeat constructor.
Qed.

Lemma lan_beacon_spacing n turns : spaced (last_beacon n) (run n turns).
Proof.
  revert n. induction turns as [|[now got] turns IH]; intros n; cbn [run].
  { split; intros *; [intros [? Hi]|intros _ [? Hi]]; by rewrite lookup_nil in Hi. }
  unfold run_turn. destruct (Z.leb_spec 3000 (now - last_beacon n)) as [Hdue|_]; cbn [app].
  - apply spaced_cons; [lia|]. apply spaced_quiet; [apply hear_quiet|apply IH].
  - apply spaced_quiet; [apply hear_quiet|apply IH].
Qed.
