(* ===== verification/Sql.v ===== *)
(** * SQL tables with one sensitive column

    The statements that the client half of [src/core/src/store/sqlite_store.cpp]
    issues, on tables kept as lists of rows in the order of their [rowid].  A row
    is its ordinary columns, primary key first, and the value of the column that
    at-rest encryption protects.  Values carry their storage class: in SQLite a
    TEXT and a BLOB value never compare equal, whatever their bytes. *)
From S2P Require Import Prelude StdMap ServerStore UsernameLog.

Inductive SqlValue :=
  | VNull
  | VInt (z : Z)
  | VText (b : bytes)
  | VBlob (b : bytes).

#[export] Instance SqlValue_eq_dec : EqDecision SqlValue.
Proof. solve_decision. Defined.

Record Row := mkRow {
  cols : list SqlValue;
  cell : SqlValue;
}.

#[export] Instance Row_eq_dec : EqDecision Row.
Proof. solve_decision. Defined.

(** [sqlite3_column_blob] with [sqlite3_column_bytes] (integer columns are never
    read this way). *)
Definition column_blob (v : SqlValue) : bytes :=
  match v with
  | VText b | VBlob b => b
  | VNull | VInt _ => []
  end.

(** [sqlite3_column_text] made into a [std::string]: cut at the first NUL. *)
Definition column_text (v : SqlValue) : bytes := c_str (column_blob v).

Definition column_int64 (v : SqlValue) : Z := match v with VInt z => z | _ => 0 end.

Definition col (r : Row) (i : nat) : SqlValue := default VNull (cols r !! i).
Definition set_cell (v : SqlValue) (r : Row) : Row := mkRow (cols r) v.

(** [a = b] in SQL: never true of NULL. *)
Definition sql_eqb (a b : SqlValue) : bool :=
  match a with VNull => false | _ => bool_decide (a = b) end.

Definition matches (where_ : list (nat * SqlValue)) (r : Row) : bool :=
  forallb (fun w => sql_eqb (col r w.1) w.2) where_.

(** The conflict of two rows on their first [n] columns. *)
Definition same_pk (n : nat) (r r' : Row) : bool := matches (imap pair (take n (cols r))) r'.

Definition has_pk (n : nat) (r : Row) (rows : list Row) : bool := existsb (same_pk n r) rows.

(** [INSERT OR IGNORE] *)
Definition insert_or_ignore (n : nat) (r : Row) (rows : list Row) : list Row :=
  if has_pk n r rows then rows else rows ++ [r].

(** [INSERT OR REPLACE]: the old row goes, the new one gets a new [rowid]. *)
Definition insert_or_replace (n : nat) (r : Row) (rows : list Row) : list Row :=
  filter (fun r' => same_pk n r r' = false) rows ++ [r].

(** [INSERT .. ON CONFLICT(pk) DO UPDATE SET] every other column. *)
Definition upsert (n : nat) (r : Row) (rows : list Row) : list Row :=
  if has_pk n r rows then (fun r' => if same_pk n r r' then r else r') <$> rows else rows ++ [r].

(** [DELETE FROM .. WHERE] *)
Definition delete_where (p : Row -> bool) (rows : list Row) : list Row := filter (fun r => p r = false) rows.

(** [UPDATE .. SET cell = v WHERE] *)
Definition update_where (where_ : list (nat * SqlValue)) (v : SqlValue) (rows : list Row) : list Row :=
  (fun r => if matches where_ r then set_cell v r else r) <$> rows.

Definition select_where (where_ : list (nat * SqlValue)) (rows : list Row) : list Row :=
  filter (fun r => matches where_ r = true) rows.

(** ** The order of results

    In which order the rows of a [SELECT] come, beyond what [ORDER BY] says, is up
    to the query plan, which sees the ordinary columns: a parameter. *)

Inductive Stmt := SelInbox | SelOutbox | SelChanList | SelChanPeers | SelChanInbox | SelNames | SelMlsLog.

Class SqlPlan := row_order : Stmt -> list (list SqlValue) -> list nat.

(** The [ORDER BY] key: a number ascending (negated for [DESC]), or text. *)
Definition order_key (s : Stmt) (c : list SqlValue) : list Z :=
  let int i := column_int64 (default VNull (c !! i)) in
  match s with
  | SelInbox | SelOutbox => [- int 2%nat]
  | SelChanList => b2z <$> column_blob (default VNull (c !! 0%nat))
  | SelChanPeers => []
  | SelChanInbox => [- int 3%nat]
  | SelNames => [- int 1%nat]
  | SelMlsLog => [int 1%nat]
  end.

Class SqlPlanLaws `{!SqlPlan} := {
  row_order_perm : forall s cs, row_order s cs ≡ₚ seq 0 (length cs);
  row_order_sorted : forall s cs,
    StronglySorted (fun a b => key_leb (order_key s a) (order_key s b) = true) (omap (fun i => cs !! i) (row_order s cs));
}.

Definition ordered `{!SqlPlan} (s : Stmt) (rows : list Row) : list Row :=
  omap (fun i => rows !! i) (row_order s (cols <$> rows)).

Lemma omap_seq {A} (l : list A) : omap (fun i => l !! i) (seq 0 (length l)) = l.
Proof.
  assert (Hix : forall x (l : list A) (ix : list nat), omap (fun i => (x :: l) !! i) (S <$> ix) = omap (fun i => l !! i) ix).
  { intros x l' ix. induction ix as [|i ix IH]; [done|]. cbn. by rewrite IH. }
  induction l as [|x l IH]; [done|]. cbn [length seq]. rewrite <- fmap_S_seq. cbn. f_equal.
  etransitivity; [apply Hix|exact IH].
Qed.

(** A query returns each of its rows once, in the order of the clause. *)
Lemma ordered_perm `{!SqlPlan, !SqlPlanLaws} s rs : ordered s rs ≡ₚ rs.
Proof.
  unfold ordered. trans (omap (fun i => rs !! i) (seq 0 (length rs))); [|by rewrite omap_seq].
  apply omap_Permutation. by rewrite row_order_perm, length_fmap.
Qed.

(** ** Rows that agree on the ordinary columns *)

Section related.
Context (R : Row -> Row -> Prop) (HR : forall r r', R r r' -> cols r = cols r').

Lemma related_col r r' i : R r r' -> col r i = col r' i.
Proof using HR. intros Hr%HR. unfold col. by rewrite Hr. Qed.

Lemma related_matches w r r' : R r r' -> matches w r = matches w r'.
Proof using HR.
  intros Hr. unfold matches. induction w as [|[i v] w IH]; [done|]. cbn [forallb fst snd].
  by rewrite (related_col r r'), IH.
Qed.

Lemma related_pk n r r' q q' : R r r' -> R q q' -> same_pk n r q = same_pk n r' q'.
Proof using HR. intros Hr Hq. unfold same_pk. rewrite (HR r r') by done. by apply related_matches. Qed.

Lemma related_has_pk n r r' rows rows' : R r r' -> Forall2 R rows rows' -> has_pk n r rows = has_pk n r' rows'.
Proof using HR.
  intros Hr. unfold has_pk. induction 1 as [|q q' rows rows' Hq _ IH]; [done|]. cbn [existsb].
  by rewrite IH, (related_pk n r r' q q').
Qed.

Lemma related_filter (p p' : Row -> bool) b rows rows' :
  (forall r r', R r r' -> p r = p' r') -> Forall2 R rows rows' ->
  Forall2 R (filter (fun r => p r = b) rows) (filter (fun r => p' r = b) rows').
Proof using.
  intros Hp. induction 1 as [|r r' rows rows' Hr _ IH]; [constructor|]. rewrite !filter_cons, (Hp r r') by done.
  destruct (decide (p' r' = b)); [by constructor|done].
Qed.

Lemma related_ignore n r r' rows rows' :
  R r r' -> Forall2 R rows rows' -> Forall2 R (insert_or_ignore n r rows) (insert_or_ignore n r' rows').
Proof using HR.
  intros Hr Hrows. unfold insert_or_ignore. rewrite (related_has_pk n r r' rows rows') by done.
  destruct (has_pk n r' rows'); [done|]. apply Forall2_app; [done|by constructor].
Qed.

Lemma related_replace n r r' rows rows' :
  R r r' -> Forall2 R rows rows' -> Forall2 R (insert_or_replace n r rows) (insert_or_replace n r' rows').
Proof using HR.
  intros Hr Hrows. unfold insert_or_replace. apply Forall2_app; [|by constructor].
  apply related_filter; [|done]. intros. by apply related_pk.
Qed.

Lemma related_upsert n r r' rows rows' :
  R r r' -> Forall2 R rows rows' -> Forall2 R (upsert n r rows) (upsert n r' rows').
Proof using HR.
  intros Hr Hrows. unfold upsert. rewrite (related_has_pk n r r' rows rows') by done.
  destruct (has_pk n r' rows'); [|apply Forall2_app; [done|by constructor]].
  apply Forall2_fmap. eapply Forall2_impl; [exact Hrows|]. intros q q' Hq. cbn.
  rewrite (related_pk n r r' q q') by done. by destruct (same_pk n r' q').
Qed.

Lemma related_select w rows rows' : Forall2 R rows rows' -> Forall2 R (select_where w rows) (select_where w rows').
Proof using HR. apply related_filter. intros. by apply related_matches. Qed.

Lemma related_cols rows rows' : Forall2 R rows rows' -> cols <$> rows = cols <$> rows'.
Proof using HR. induction 1 as [|r r' rows rows' Hr _ IH]; [done|]. cbn. by rewrite IH, (HR r r'). Qed.

Lemma related_ordered `{!SqlPlan} s rows rows' : Forall2 R rows rows' -> Forall2 R (ordered s rows) (ordered s rows').
Proof using HR.
  intros Hrows. unfold ordered. rewrite (related_cols rows rows') by done.
  induction (row_order s (cols <$> rows')) as [|i ix IH]; [constructor|]. cbn [omap list_omap].
  destruct (rows !! i) as [r|] eqn:Ei.
  - destruct (Forall2_lookup_l _ _ _ _ _ Hrows Ei) as (r' & -> & Hr). by constructor.
  - destruct (rows' !! i) as [r'|] eqn:Ei'; [|done].
    destruct (Forall2_lookup_r _ _ _ _ _ Hrows Ei') as (r & Hr & _). congruence.
Qed.

Lemma related_limit z rows rows' : Forall2 R rows rows' -> Forall2 R (sql_limit z rows) (sql_limit z rows').
Proof using. intros. unfold sql_limit. destruct (z <? 0); [done|]. by apply Forall2_take. Qed.
End related.
