(* ===== verification/ClientStore.v ===== *)
(** * The client's store ([src/core/src/store/sqlite_store.cpp])

    The client half of [SqliteStore]: messages, sessions, channels, names, pins and
    shares, encrypted at rest row by row, with rotation of the table keys, the
    ratchet of the master and the migration of older databases.

    The callers pass spans over vectors and arrays.  An empty vector has a null data
    pointer, and [sqlite3_bind_blob] binds a null pointer as SQL NULL: a column
    declared NOT NULL refuses it, a comparison with it holds of no row, and rows
    whose key is NULL are all distinct.  Apart from such constraints statements are
    taken to succeed (disk errors are outside the model), and the transactions of the
    code to be atomic.  Random bytes and the clock are arguments. *)
From S2P Require Import Prelude StdMap Crypto ServerStore UsernameLog Sql.

Definition kXNonce : nat := 24.
Definition kXTag : nat := 16.
Definition kKeyLen : nat := 32.
Definition kSchemaVersionEncrypted : Z := 3.

(** The tables with a protected column. *)
Inductive Tab := Inbox | Outbox | Sessions | ChanState | ChanPeers | ChanInbox | PeerNames | MlsState | MlsLog.

#[export] Instance Tab_eq_dec : EqDecision Tab.
Proof. solve_decision. Defined.

Definition all_tabs : list Tab := [Inbox; Outbox; Sessions; ChanState; ChanPeers; ChanInbox; PeerNames; MlsState; MlsLog].

Definition table_info (t : Tab) : bytes :=
  match t with
  | Inbox => str "FinBit-DB-Inbox-v1"
  | Outbox => str "FinBit-DB-Outbox-v1"
  | Sessions => str "FinBit-DB-Sessions-v1"
  | ChanState => str "FinBit-DB-ChanState-v1"
  | ChanPeers => str "FinBit-DB-ChanPeers-v1"
  | ChanInbox => str "FinBit-DB-ChanInbox-v1"
  | PeerNames => str "FinBit-DB-PeerName-v1"
  | MlsState => str "FinBit-DB-MlsState-v1"
  | MlsLog => str "FinBit-DB-MlsLog-v1"
  end.

(** Ordinary columns, in order:
    inbox, outbox: envelope_id, peer_pub, ts_ms, expires_at_ms;
    sessions: peer_pub, updated_ms;
    chan_state: name, channel_id, crypto;
    chan_peers: channel_id, peer_pub;
    chan_inbox: id, channel_id, sender_pub, ts_ms;
    peer_name_cache: peer_pub, learned_ms;
    mls_group_state: channel_id, created_at_ms;
    mls_group_log: channel_id, seq, applied_at_ms. *)
Definition pk_len (t : Tab) : nat := match t with ChanPeers | MlsLog => 2 | _ => 1 end.

(** The columns whose bytes are the associated data of a row. *)
Definition aad_cols (t : Tab) : list nat :=
  match t with
  | ChanPeers => [0; 1]%nat
  | ChanInbox => [1]%nat
  | _ => [0]%nat
  end.

Definition mls_log_aad (channel_id : bytes) (seq : Z) : bytes := channel_id ++ be_bytes 8 (u64 seq).

(** As the re-keying loops recompute it from a stored row. *)
Definition row_aad (t : Tab) (r : Row) : bytes :=
  match t with
  | MlsLog => mls_log_aad (column_blob (col r 0)) (column_int64 (col r 1))
  | _ => mjoin ((fun i => column_blob (col r i)) <$> aad_cols t)
  end.

Definition storage_master_aad (gen : Z) : bytes := str "FinBit-DB-StorageMaster-v1" ++ be_bytes 8 gen.
Definition storage_key_aad (name : bytes) (gen : Z) : bytes := name ++ be_bytes 8 gen.

(** An array of [n] bytes filled from [b]. *)
Definition array (n : nat) (b : bytes) : bytes := take n (b ++ replicate n Byte.x00).

Record ShamirHeldShare := mkHeldShare {
  hs_peer_pub : bytes;
  hs_setup_id : Z;
  hs_share : bytes;
  hs_threshold : Z;
  hs_total : Z;
  hs_label : bytes;
  hs_received_at_ms : Z;
}.

(** The tables that are not encrypted; integers as SQLite stores them. *)
Record PlainTables := mkPlain {
  identities : gmap bytes (bytes * bytes);
  peer_keys : gmap bytes bytes;
  carry_ledger : gmap bytes Z;
  peer_verified_rows : gmap bytes (Z * Z);
  peer_pq_rows : gmap bytes (Z * Z);
  shamir_held_shares : gmap (bytes * Z) (bytes * Z * Z * bytes * Z);
}.

Record Db := mkDb {
  user_version : Z;
  tables : Tab -> list Row;
  chan_inbox_next : Z;
  storage_keys : gmap bytes (bytes * Z);
  storage_master_row : option (bytes * Z);
  plain : PlainTables;
}.

Definition empty_db : Db := mkDb 0 (fun _ => []) 1 ∅ None (mkPlain ∅ ∅ ∅ ∅ ∅ ∅).

Record SqliteStore := mkSqliteStore {
  db : Db;
  encrypt_at_rest : bool;
  sub_key : Tab -> bytes;
  master_key : bytes;
  have_master : bool;
  storage_master : bytes;
  storage_master_generation : Z;
  storage_keys_generation : Z;
}.

Inductive StoreError :=
  | BadMasterKeySize
  | MasterKeyRequired
  | MasterUnwrapFailed
  | SeedVerifyFailed
  | LogVerifyFailed (seq : Z)
  | DuplicateOp
  | NotNullFailed.

Definition set_table (t : Tab) (rows : list Row) (f : Tab -> list Row) : Tab -> list Row :=
  fun t' => if decide (t' = t) then rows else f t'.

Definition with_tables (f : Tab -> list Row) (d : Db) : Db :=
  mkDb (user_version d) f (chan_inbox_next d) (storage_keys d) (storage_master_row d) (plain d).
Definition with_plain (p : PlainTables) (d : Db) : Db :=
  mkDb (user_version d) (tables d) (chan_inbox_next d) (storage_keys d) (storage_master_row d) p.
Definition with_db (d : Db) (s : SqliteStore) : SqliteStore :=
  mkSqliteStore d (encrypt_at_rest s) (sub_key s) (master_key s) (have_master s) (storage_master s)
    (storage_master_generation s) (storage_keys_generation s).

Definition rows (s : SqliteStore) (t : Tab) : list Row := tables (db s) t.
Definition on_table (t : Tab) (f : list Row -> list Row) (s : SqliteStore) : SqliteStore :=
  with_db (with_tables (set_table t (f (rows s t)) (tables (db s))) (db s)) s.
Definition on_plain (f : PlainTables -> PlainTables) (s : SqliteStore) : SqliteStore :=
  with_db (with_plain (f (plain (db s))) (db s)) s.

(** ** NULL *)

(** [bind_blob] *)
Definition bind_blob (b : bytes) : SqlValue := if binds_null b then VNull else VBlob b.

(** The ordinary columns that [kSchema] declares NOT NULL and that are bound as blobs
    (a key that is not repeated as NOT NULL may be NULL). *)
Definition not_null_cols (t : Tab) : list nat :=
  match t with
  | Inbox | Outbox | ChanState => [1]%nat
  | ChanPeers => [0; 1]%nat
  | ChanInbox => [1; 2]%nat
  | MlsLog => [0]%nat
  | Sessions | PeerNames | MlsState => []
  end.

(** Of the protected columns only [own_dist] may be NULL. *)
Definition violates (t : Tab) (r : Row) : bool :=
  existsb (fun i => bool_decide (col r i = VNull)) (not_null_cols t) ||
  negb (bool_decide (t = ChanState)) && bool_decide (cell r = VNull).

(** An insertion whose result is not looked at: a violation leaves the table as it
    is, with [OR IGNORE] and without. *)
Definition insert_row (t : Tab) (ins : Row -> list Row -> list Row) (r : Row) (s : SqliteStore) : SqliteStore :=
  if violates t r then s else on_table t (ins r) s.

(** [WHERE key = ?] on the tables kept as maps: a NULL matches nothing. *)
Definition find_blob {A} (k : bytes) (m : gmap bytes A) : option A := if binds_null k then None else m !! k.

(** [static_cast<std::uint64_t>(sqlite3_column_int64(..))] *)
Definition column_u64 (v : SqlValue) : Z := u64 (column_int64 v).

Section client.
Context `{Sodium, !SqlPlan}.

(** ** Wrapping *)

Definition derive_table_key (master : bytes) (info : bytes) : bytes :=
  match hkdf_expand (hkdf_extract [] master) info kKeyLen with
  | Ok v => array kKeyLen v
  | Throw _ => array kKeyLen []
  end.

Definition aead_wrap (key plaintext aad random : bytes) : bytes :=
  let nonce := array kXNonce random in
  nonce ++ xchacha_seal key nonce plaintext aad.

Definition aead_unwrap (key blob aad : bytes) : option bytes :=
  if (length blob <? kXNonce + kXTag)%nat then None
  else xchacha_open key (take kXNonce blob) (drop kXNonce blob) aad.

(** What the write paths store and the read paths recover. *)
Definition stored (s : SqliteStore) (t : Tab) (plaintext aad random : bytes) : SqlValue :=
  bind_blob (if encrypt_at_rest s then aead_wrap (sub_key s t) plaintext aad random else plaintext).

Definition unstored (s : SqliteStore) (t : Tab) (v : SqlValue) (aad : bytes) : option bytes :=
  if encrypt_at_rest s then aead_unwrap (sub_key s t) (column_blob v) aad else Some (column_blob v).

(** ** Identities and peer keys *)

(** [pub] and [sec] are NOT NULL. *)
Definition save_identity (pub sec username : bytes) (s : SqliteStore) : SqliteStore * result StoreError unit :=
  if binds_null pub || binds_null sec then (s, Throw NotNullFailed)
  else (on_plain (fun p => mkPlain (<[c_str username := (pub, sec)]> (identities p)) (peer_keys p) (carry_ledger p)
          (peer_verified_rows p) (peer_pq_rows p) (shamir_held_shares p)) s, Ok tt).
Definition load_identity_pub (username : bytes) (s : SqliteStore) : option bytes :=
  fst <$> identities (plain (db s)) !! c_str username.
Definition load_identity_sec (username : bytes) (s : SqliteStore) : option bytes :=
  snd <$> identities (plain (db s)) !! c_str username.

Definition remember_peer (peer_pub username : bytes) (s : SqliteStore) : SqliteStore :=
  if binds_null peer_pub then s
  else on_plain (fun p => mkPlain (identities p) (<[c_str username := peer_pub]> (peer_keys p)) (carry_ledger p)
         (peer_verified_rows p) (peer_pq_rows p) (shamir_held_shares p)) s.
Definition lookup_peer (username : bytes) (s : SqliteStore) : option bytes :=
  peer_keys (plain (db s)) !! c_str username.

(** ** Sessions and messages *)

(** The step is checked, and [OR REPLACE] does not replace on a NULL: the statement
    is undone. *)
Definition save_session (now : Z) (random peer_pub blob : bytes) (s : SqliteStore) : SqliteStore * result StoreError unit :=
  let r := mkRow [bind_blob peer_pub; VInt now] (stored s Sessions blob peer_pub random) in
  if violates Sessions r then (s, Throw NotNullFailed)
  else (on_table Sessions (insert_or_replace 1 r) s, Ok tt).

Definition load_session (peer_pub : bytes) (s : SqliteStore) : option bytes :=
  match select_where [(0%nat, bind_blob peer_pub)] (rows s Sessions) with
  | r :: _ => unstored s Sessions (cell r) peer_pub
  | [] => None
  end.

(** [append_inbox], [append_outbox] (where [expires_at_ms] takes its default) and
    the overloads with an expiry. *)
Definition append_with_expiry (t : Tab) (random envelope_id peer_pub plaintext : bytes) (timestamp_ms expires_at_ms : Z)
    (s : SqliteStore) : SqliteStore :=
  insert_row t (insert_or_ignore 1)
    (mkRow [bind_blob envelope_id; bind_blob peer_pub; VInt (i64 timestamp_ms); VInt (i64 expires_at_ms)]
       (stored s t plaintext envelope_id random)) s.

Definition append_inbox_with_expiry := append_with_expiry Inbox.
Definition append_outbox_with_expiry := append_with_expiry Outbox.
Definition append_inbox (random envelope_id peer_pub plaintext : bytes) (timestamp_ms : Z) : SqliteStore -> SqliteStore :=
  append_inbox_with_expiry random envelope_id peer_pub plaintext timestamp_ms 0.
Definition append_outbox (random envelope_id peer_pub plaintext : bytes) (timestamp_ms : Z) : SqliteStore -> SqliteStore :=
  append_outbox_with_expiry random envelope_id peer_pub plaintext timestamp_ms 0.

(** [expires_at_ms > 0 AND expires_at_ms <= ?] *)
Definition expired (now_ms : Z) (r : Row) : bool :=
  let e := column_int64 (col r 3) in (0 <? e) && (e <=? i64 now_ms).

Definition prune_expired (now_ms : Z) (s : SqliteStore) : nat * SqliteStore :=
  let count t := length (filter (fun r => expired now_ms r = true) (rows s t)) in
  ((count Inbox + count Outbox)%nat,
   on_table Outbox (delete_where (expired now_ms)) (on_table Inbox (delete_where (expired now_ms)) s)).

Record InboxRow := mkInboxRow {
  ir_envelope_id : bytes;
  ir_peer_pub : bytes;
  ir_plaintext : bytes;
  ir_timestamp_ms : Z;
}.

(** Rows that do not open are skipped. *)
Definition read_message (s : SqliteStore) (t : Tab) (r : Row) : option InboxRow :=
  let envelope_id := column_blob (col r 0) in
  (fun pt => mkInboxRow envelope_id (column_blob (col r 1)) pt (column_u64 (col r 2))) <$> unstored s t (cell r) envelope_id.

Definition recent_inbox (limit : Z) (s : SqliteStore) : list InboxRow :=
  omap (read_message s Inbox) (sql_limit (i64 limit) (ordered SelInbox (rows s Inbox))).
Definition recent_outbox (limit : Z) (s : SqliteStore) : list InboxRow :=
  omap (read_message s Outbox) (sql_limit (i64 limit) (ordered SelOutbox (rows s Outbox))).

(** ** Verification flags, post-quantum pins, shares, carry ledger *)

Definition b2i (b : bool) : Z := if b then 1 else 0.

(** Rows with a NULL key, which no query finds, are left out of these three tables. *)
Definition set_peer_verified (peer_pub : bytes) (verified : bool) (verified_at_ms : Z) (s : SqliteStore) : SqliteStore :=
  if binds_null peer_pub then s
  else on_plain (fun p => mkPlain (identities p) (peer_keys p) (carry_ledger p)
    (<[peer_pub := (b2i verified, i64 verified_at_ms)]> (peer_verified_rows p)) (peer_pq_rows p) (shamir_held_shares p)) s.
Definition peer_verified (peer_pub : bytes) (s : SqliteStore) : bool :=
  match find_blob peer_pub (peer_verified_rows (plain (db s))) with
  | Some (v, _) => negb (v =? 0)
  | None => false
  end.

Definition set_peer_pq_capable (peer_pub : bytes) (capable : bool) (first_seen_ms : Z) (s : SqliteStore) : SqliteStore :=
  if binds_null peer_pub then s
  else on_plain (fun p =>
    let row := match peer_pq_rows p !! peer_pub with
               | None => (b2i capable, i64 first_seen_ms)
               | Some (c, f) => (b2i (negb (c =? 0) || capable), Z.min f (i64 first_seen_ms))
               end in
    mkPlain (identities p) (peer_keys p) (carry_ledger p) (peer_verified_rows p) (<[peer_pub := row]> (peer_pq_rows p))
      (shamir_held_shares p)) s.
Definition peer_pq_capable (peer_pub : bytes) (s : SqliteStore) : bool :=
  match find_blob peer_pub (peer_pq_rows (plain (db s))) with
  | Some (c, _) => negb (c =? 0)
  | None => false
  end.

(** [static_cast<int>] of a 32-bit value. *)
Definition i32 (z : Z) : Z := if z <? 2 ^ 31 then z else z - u32_max.

(** [peer_pub] and [share] are NOT NULL. *)
Definition save_shamir_share (h : ShamirHeldShare) (s : SqliteStore) : SqliteStore :=
  if binds_null (hs_peer_pub h) || binds_null (hs_share h) then s
  else on_plain (fun p => mkPlain (identities p) (peer_keys p) (carry_ledger p) (peer_verified_rows p) (peer_pq_rows p)
    (<[(hs_peer_pub h, i64 (hs_setup_id h)) :=
        (hs_share h, i32 (hs_threshold h), i32 (hs_total h), c_str (hs_label h), i64 (hs_received_at_ms h))]> (shamir_held_shares p))) s.
Definition read_share (peer_pub : bytes) (setup_id : Z) (v : bytes * Z * Z * bytes * Z) : ShamirHeldShare :=
  let '(share, threshold, total, label, received) := v in
  mkHeldShare peer_pub setup_id share (u32 threshold) (u32 total) label (u64 received).
Definition load_shamir_share (peer_pub : bytes) (setup_id : Z) (s : SqliteStore) : option ShamirHeldShare :=
  if binds_null peer_pub then None
  else read_share peer_pub setup_id <$> shamir_held_shares (plain (db s)) !! (peer_pub, i64 setup_id).
(** [ORDER BY received_at_ms DESC]; ties in the order of the keys here. *)
Definition received_le (a b : ShamirHeldShare) : Prop := i64 (hs_received_at_ms b) <= i64 (hs_received_at_ms a).
#[global] Instance received_le_dec : RelDecision received_le.
Proof. intros a b. unfold received_le. apply _. Defined.
Definition list_shamir_shares (s : SqliteStore) : list ShamirHeldShare :=
  merge_sort received_le
    ((fun kv => read_share kv.1.1 (u64 kv.1.2) kv.2) <$> map_elements (shamir_held_shares (plain (db s)))).

(** Sums are taken to stay within 64 bits. *)
Definition record_carry (peer_pub : bytes) (delta_bytes : Z) (s : SqliteStore) : SqliteStore :=
  if binds_null peer_pub then s
  else on_plain (fun p => mkPlain (identities p) (peer_keys p)
    (<[peer_pub := default 0 (carry_ledger p !! peer_pub) + delta_bytes]> (carry_ledger p))
    (peer_verified_rows p) (peer_pq_rows p) (shamir_held_shares p)) s.
Definition carry_balance (peer_pub : bytes) (s : SqliteStore) : Z := default 0 (find_blob peer_pub (carry_ledger (plain (db s)))).

(** ** Channels *)

Inductive ChannelCrypto := kSenderKeys | kMls.
Definition crypto_int (c : ChannelCrypto) : Z := match c with kSenderKeys => 0 | kMls => 1 end.

Definition chan_save (random name channel_id own_dist : bytes) (crypto : ChannelCrypto) (s : SqliteStore) : SqliteStore :=
  let v := if encrypt_at_rest s && negb (bool_decide (own_dist = []))
           then VBlob (aead_wrap (sub_key s ChanState) own_dist name random) else bind_blob own_dist in
  insert_row ChanState (upsert 1) (mkRow [VText (c_str name); bind_blob channel_id; VInt (crypto_int crypto)] v) s.

Record ChannelRow := mkChannelRow {
  cr_name : bytes;
  cr_channel_id : bytes;
  cr_own_dist : bytes;
  cr_crypto : ChannelCrypto;
}.

Definition read_channel (s : SqliteStore) (r : Row) : ChannelRow :=
  let name := column_text (col r 0) in
  let v := column_blob (cell r) in
  let own_dist :=
    if encrypt_at_rest s && negb (bool_decide (v = []))
    then default [] (aead_unwrap (sub_key s ChanState) v name) else v in
  mkChannelRow name (column_blob (col r 1)) own_dist (if column_int64 (col r 2) =? 1 then kMls else kSenderKeys).

Definition chan_list (s : SqliteStore) : list ChannelRow := read_channel s <$> ordered SelChanList (rows s ChanState).

Definition chan_save_peer (random channel_id peer_pub peer_dist : bytes) (s : SqliteStore) : SqliteStore :=
  insert_row ChanPeers (upsert 2) (mkRow [bind_blob channel_id; bind_blob peer_pub]
    (stored s ChanPeers peer_dist (channel_id ++ peer_pub) random)) s.

Definition read_chan_peer (s : SqliteStore) (channel_id : bytes) (r : Row) : option (bytes * bytes) :=
  let peer_pub := column_blob (col r 1) in
  pair peer_pub <$> unstored s ChanPeers (cell r) (channel_id ++ peer_pub).

Definition chan_peers (channel_id : bytes) (s : SqliteStore) : list (bytes * bytes) :=
  omap (read_chan_peer s channel_id)
    (ordered SelChanPeers (select_where [(0%nat, bind_blob channel_id)] (rows s ChanPeers))).

Definition chan_append_inbox (random channel_id sender_pub plaintext : bytes) (timestamp_ms : Z) (s : SqliteStore) : SqliteStore :=
  let id := chan_inbox_next (db s) in
  let r := mkRow [VInt id; bind_blob channel_id; bind_blob sender_pub; VInt (i64 timestamp_ms)]
             (stored s ChanInbox plaintext channel_id random) in
  if violates ChanInbox r then s
  else
    let s := on_table ChanInbox (fun rs => rs ++ [r]) s in
    let d := db s in
    with_db (mkDb (user_version d) (tables d) (id + 1) (storage_keys d) (storage_master_row d) (plain d)) s.

Record ChannelInboxRow := mkChannelInboxRow {
  ci_channel_id : bytes;
  ci_sender_pub : bytes;
  ci_plaintext : bytes;
  ci_timestamp_ms : Z;
}.

Definition read_chan_message (s : SqliteStore) (r : Row) : option ChannelInboxRow :=
  let channel_id := column_blob (col r 1) in
  (fun pt => mkChannelInboxRow channel_id (column_blob (col r 2)) pt (column_u64 (col r 3))) <$>
    unstored s ChanInbox (cell r) channel_id.

Definition chan_recent_inbox (channel_id : bytes) (limit : Z) (s : SqliteStore) : list ChannelInboxRow :=
  omap (read_chan_message s)
    (sql_limit (i64 limit) (ordered SelChanInbox (select_where [(1%nat, bind_blob channel_id)] (rows s ChanInbox)))).

Definition chan_delete (name channel_id : bytes) (s : SqliteStore) : SqliteStore :=
  let del t i v := on_table t (delete_where (matches [(i, v)])) in
  del Sessions 0%nat (bind_blob (str "__chanstate__:" ++ name))
    (del MlsLog 0%nat (bind_blob channel_id)
      (del MlsState 0%nat (bind_blob channel_id)
        (del ChanInbox 1%nat (bind_blob channel_id)
          (del ChanPeers 0%nat (bind_blob channel_id)
            (del ChanState 0%nat (VText (c_str name)) s))))).

(** ** Names of peers *)

Definition cache_peer_name (now : Z) (random peer_pub username : bytes) (s : SqliteStore) : SqliteStore :=
  let v := if encrypt_at_rest s then VBlob (aead_wrap (sub_key s PeerNames) username peer_pub random) else VText (c_str username) in
  insert_row PeerNames (upsert 1) (mkRow [bind_blob peer_pub; VInt now] v) s.

Definition read_name (s : SqliteStore) (r : Row) (peer_pub : bytes) : option bytes :=
  if encrypt_at_rest s then aead_unwrap (sub_key s PeerNames) (column_blob (cell r)) peer_pub
  else Some (column_text (cell r)).

Definition peer_name (peer_pub : bytes) (s : SqliteStore) : option bytes :=
  match select_where [(0%nat, bind_blob peer_pub)] (rows s PeerNames) with
  | r :: _ => read_name s r peer_pub
  | [] => None
  end.

(** (peer_pub, username) *)
Definition all_cached_peers (s : SqliteStore) : list (bytes * bytes) :=
  omap (fun r => let peer_pub := column_blob (col r 0) in pair peer_pub <$> read_name s r peer_pub)
    (ordered SelNames (rows s PeerNames)).

Definition peer_pubkeys_for_username (username : bytes) (s : SqliteStore) : list bytes :=
  fst <$> filter (fun p => p.2 = username) (all_cached_peers s).

(** ** MLS groups *)

Definition mls_group_save (now : Z) (random channel_id seed_blob : bytes) (s : SqliteStore) : SqliteStore :=
  insert_row MlsState (upsert 1) (mkRow [bind_blob channel_id; VInt now] (stored s MlsState seed_blob channel_id random)) s.

Definition mls_group_op_append (now : Z) (random channel_id : bytes) (seq : Z) (op_blob : bytes) (s : SqliteStore) :
    SqliteStore * result StoreError unit :=
  let r := mkRow [bind_blob channel_id; VInt seq; VInt now] (stored s MlsLog op_blob (mls_log_aad channel_id seq) random) in
  if violates MlsLog r then (s, Throw NotNullFailed)
  else if has_pk 2 r (rows s MlsLog) then (s, Throw DuplicateOp)
  else (on_table MlsLog (fun rs => rs ++ [r]) s, Ok tt).

Record MlsGroupSnapshot := mkSnapshot {
  snap_seed : bytes;
  snap_ops : list bytes;
  snap_next_seq : Z;
}.

(** The loop over the log: the operations so far and the largest number. *)
Fixpoint load_ops (s : SqliteStore) (channel_id : bytes) (log : list Row) (ops : list bytes) (max_seq : Z) :
    result StoreError (list bytes * Z) :=
  match log with
  | [] => Ok (ops, max_seq)
  | r :: log' =>
      let seq := column_int64 (col r 1) in
      match unstored s MlsLog (cell r) (mls_log_aad channel_id seq) with
      | None => Throw (LogVerifyFailed seq)
      | Some op => load_ops s channel_id log' (ops ++ [op]) (if max_seq <? seq then seq else max_seq)
      end
  end.

Definition mls_group_load (channel_id : bytes) (s : SqliteStore) : result StoreError (option MlsGroupSnapshot) :=
  match select_where [(0%nat, bind_blob channel_id)] (rows s MlsState) with
  | [] => Ok None
  | r :: _ =>
      match unstored s MlsState (cell r) channel_id with
      | None => Throw SeedVerifyFailed
      | Some seed =>
          let log := ordered SelMlsLog (select_where [(0%nat, bind_blob channel_id)] (rows s MlsLog)) in
          match load_ops s channel_id log [] (-1) with
          | Ok (ops, max_seq) => Ok (Some (mkSnapshot seed ops (max_seq + 1)))
          | Throw e => Throw e
          end
      end
  end.

Definition mls_group_delete (channel_id : bytes) (s : SqliteStore) : SqliteStore :=
  on_table MlsLog (delete_where (matches [(0%nat, bind_blob channel_id)]))
    (on_table MlsState (delete_where (matches [(0%nat, bind_blob channel_id)])) s).
End client.
