(* ===== verification/ClientStoreKeys.v ===== *)
(** * Keys of the client's store ([src/core/src/store/sqlite_store.cpp])

    [open] with its resolution of the storage master and its migration of older
    databases, [rotate_storage_keys] and [ratchet_storage_master]. *)
From S2P Require Import Prelude StdMap Crypto UsernameLog Sql ClientStore.

(** What an operation draws from [randombytes_buf]: fresh keys, a fresh master,
    the nonces of the rewritten rows (by position), of the wrapped table keys and
    of the wrapped master. *)
Record KeyRandom := mkKeyRandom {
  rk_key : Tab -> bytes;
  rk_master : bytes;
  rk_cell : Tab -> nat -> bytes;
  rk_wrap : Tab -> bytes;
  rk_master_nonce : bytes;
}.

(** The slots of [storage_keys]. *)
Definition slot (t : Tab) : option bytes :=
  match t with
  | Inbox => Some (str "inbox")
  | Outbox => Some (str "outbox")
  | Sessions => Some (str "sessions")
  | _ => None
  end.

Section keys.
Context `{Sodium}.

(** ** Re-encryption

    Rows are read and updated by [rowid], their place in the table; a row that the
    loop skips keeps its value. *)

Definition rewrap_cell (t : Tab) (old_k new_k random : bytes) (r : Row) : option SqlValue :=
  (fun pt => VBlob (aead_wrap new_k pt (row_aad t r) random)) <$> aead_unwrap old_k (column_blob (cell r)) (row_aad t r).

(** The [rewrap_table] of a rotation: the pending updates by position. *)
Definition rewrap_table (t : Tab) (old_k new_k : bytes) (rnd : nat -> bytes) (rs : list Row) : list (option SqlValue) :=
  imap (fun i r => rewrap_cell t old_k new_k (rnd i) r) rs.

(** The [rewrap] of a ratchet, and its loop over the log: empty values are skipped. *)
Definition rewrap (t : Tab) (old_k new_k : bytes) (rnd : nat -> bytes) (rs : list Row) : list (option SqlValue) :=
  imap (fun i r => match column_blob (cell r) with
                   | [] => None
                   | _ => rewrap_cell t old_k new_k (rnd i) r
                   end) rs.

(** [UPDATE .. WHERE rowid = ?] for each pending row. *)
Definition update_rowids (pending : list (option SqlValue)) (rs : list Row) : list Row :=
  zip_with (fun p r => match p with Some v => set_cell v r | None => r end) pending rs.

Definition updates (pending : list (option SqlValue)) : nat := length (omap id pending).

Definition persist_wrapped (master : bytes) (new_gen : Z) (name k random : bytes) (ks : gmap bytes (bytes * Z)) :
    gmap bytes (bytes * Z) :=
  <[name := (aead_wrap master k (storage_key_aad name new_gen) random, i64 new_gen)]> ks.

(** ** Rotation *)

Definition rotate_storage_keys (rnd : KeyRandom) (s : SqliteStore) : nat * SqliteStore :=
  if negb (encrypt_at_rest s) || negb (have_master s) then (0%nat, s)
  else
    let new_k t := array kKeyLen (rk_key rnd t) in
    let new_gen := u64 (storage_keys_generation s + 1) in
    let pending t := match slot t with
                     | Some _ => rewrap_table t (sub_key s t) (new_k t) (rk_cell rnd t) (rows s t)
                     | None => []
                     end in
    let tables' t := match slot t with
                     | Some _ => update_rowids (pending t) (rows s t)
                     | None => rows s t
                     end in
    let persist t name := persist_wrapped (storage_master s) new_gen name (new_k t) (rk_wrap rnd t) in
    let ks := persist Sessions (str "sessions") (persist Outbox (str "outbox") (persist Inbox (str "inbox") (storage_keys (db s)))) in
    let d := db s in
    ((updates (pending Inbox) + updates (pending Outbox) + updates (pending Sessions))%nat,
     mkSqliteStore (mkDb (user_version d) tables' (chan_inbox_next d) ks (storage_master_row d) (plain d))
       (encrypt_at_rest s) (fun t => match slot t with Some _ => new_k t | None => sub_key s t end)
       (master_key s) (have_master s) (storage_master s) (storage_master_generation s) new_gen).

(** ** The ratchet of the master *)

Definition ratchet_storage_master (rnd : KeyRandom) (s : SqliteStore) : nat * SqliteStore :=
  if negb (encrypt_at_rest s) then (0%nat, s)
  else
    let new_master := array kKeyLen (rk_master rnd) in
    let new_gen := u64 (storage_master_generation s + 1) in
    let nk t := derive_table_key new_master (table_info t) in
    let pending t := rewrap t (sub_key s t) (nk t) (rk_cell rnd t) (rows s t) in
    let d := db s in
    let wrapped := aead_wrap (master_key s) new_master (storage_master_aad new_gen) (rk_master_nonce rnd) in
    (sum_list ((fun t => updates (pending t)) <$> all_tabs),
     mkSqliteStore (mkDb (user_version d) (fun t => update_rowids (pending t) (rows s t)) (chan_inbox_next d)
         ∅ (Some (wrapped, i64 new_gen)) (plain d))
       (encrypt_at_rest s) nk (master_key s) (have_master s) new_master new_gen 0).

(** ** Opening *)

Definition read_user_version (d : Db) : Z := user_version d.

(** The storage master and its generation: the key given to [open] when no ratchet
    has left a wrapped one. *)
Definition resolve_master (d : Db) (kek : bytes) : result StoreError (bytes * Z) :=
  match storage_master_row d with
  | None => Ok (kek, 0)
  | Some (blob, g) =>
      let gen := u64 g in
      match aead_unwrap kek blob (storage_master_aad gen) with
      | Some m => if (length m =? kKeyLen)%nat then Ok (m, gen) else Throw MasterUnwrapFailed
      | None => Throw MasterUnwrapFailed
      end
  end.

(** A persisted key and its generation. *)
Definition load_wrapped (d : Db) (master name : bytes) : option (bytes * Z) :=
  match storage_keys d !! name with
  | None => None
  | Some (blob, g) =>
      let gen := u64 g in
      match aead_unwrap master blob (storage_key_aad name gen) with
      | Some k => if (length k =? kKeyLen)%nat then Some (k, gen) else None
      | None => None
      end
  end.

Definition load_slot (d : Db) (master : bytes) (t : Tab) : option (bytes * Z) :=
  slot t ≫= load_wrapped d master.

Definition open_sub_key (d : Db) (master : bytes) (t : Tab) : bytes :=
  match load_slot d master t with
  | Some (k, _) => k
  | None => derive_table_key master (table_info t)
  end.

Definition open_generation (d : Db) (master : bytes) : Z :=
  fold_left (fun g t => match load_slot d master t with Some (_, g') => if g <? g' then g' else g | None => g end)
    [Inbox; Outbox; Sessions] 0.

(** ** Migration *)

(** The updates of [wrap_table]: each selected row's keys, bound as blobs (a NULL key is
    bound as NULL again and matches no row), and its wrapped value. *)
Definition wrap_updates (t : Tab) (key : bytes) (rnd : nat -> bytes) (selected : list Row) :
    list (list (nat * SqlValue) * SqlValue) :=
  imap (fun i r =>
    ((fun c => (c, bind_blob (column_blob (col r c)))) <$> aad_cols t,
     VBlob (aead_wrap key (column_blob (cell r)) (mjoin ((fun c => column_blob (col r c)) <$> aad_cols t)) (rnd i)))) selected.

Definition run_updates (us : list (list (nat * SqlValue) * SqlValue)) (rs : list Row) : list Row :=
  fold_left (fun rs u => update_where u.1 u.2 rs) us rs.

(** Only [chan_state] selects [WHERE own_dist IS NOT NULL]. *)
Definition wrap_table (t : Tab) (key : bytes) (rnd : nat -> bytes) (rs : list Row) : list Row :=
  let selected := match t with ChanState => filter (fun r => cell r <> VNull) rs | _ => rs end in
  run_updates (wrap_updates t key rnd selected) rs.

(** The loop written out for [chan_inbox]: by [id], with [channel_id] as data. *)
Definition wrap_chan_inbox (key : bytes) (rnd : nat -> bytes) (rs : list Row) : list Row :=
  run_updates (imap (fun i r =>
    ([(0%nat, VInt (column_int64 (col r 0)))],
     VBlob (aead_wrap key (column_blob (cell r)) (column_blob (col r 1)) (rnd i)))) rs) rs.

Definition migrate (version : Z) (key : Tab -> bytes) (rnd : KeyRandom) (d : Db) : Db :=
  let tables' t :=
    let rs := tables d t in
    match t with
    | Inbox | Outbox => if version <? 2 then wrap_table t (key t) (rk_cell rnd t) rs else rs
    | Sessions | ChanState | ChanPeers | PeerNames => wrap_table t (key t) (rk_cell rnd t) rs
    | ChanInbox => wrap_chan_inbox (key t) (rk_cell rnd t) rs
    | MlsState | MlsLog => rs
    end in
  mkDb kSchemaVersionEncrypted tables' (chan_inbox_next d) (storage_keys d) (storage_master_row d) (plain d).

(** [SqliteStore::open] on a file whose tables have all the columns of [kSchema]
    (missing ones are added with their defaults). *)
Definition open (d : Db) (key : bytes) (rnd : KeyRandom) : result StoreError SqliteStore :=
  let version := read_user_version d in
  let have_key := negb (bool_decide (key = [])) in
  let zero := array kKeyLen [] in
  if have_key && negb (length key =? kKeyLen)%nat then Throw BadMasterKeySize
  else if (version =? kSchemaVersionEncrypted) && negb have_key then Throw MasterKeyRequired
  else if have_key then
    match resolve_master d key with
    | Throw e => Throw e
    | Ok (master, gen) =>
        let sub := open_sub_key d master in
        let d' := if version <? kSchemaVersionEncrypted then migrate version sub rnd d else d in
        Ok (mkSqliteStore d' true sub key true master gen (open_generation d master))
    end
  else Ok (mkSqliteStore d false (fun _ => zero) zero false zero 0 0).
End keys.

(** ** Sequences of calls on the client's store

    The public operations of [SqliteStore] as values, so that statements can range
    over whole histories of a store, restarts included. *)
From S2P Require Import Prelude StdMap Crypto Sql ClientStore.

Inductive Call :=
  | SaveIdentity (pub sec username : bytes)
  | LoadIdentityPub (username : bytes)
  | LoadIdentitySec (username : bytes)
  | RememberPeer (peer_pub username : bytes)
  | LookupPeer (username : bytes)
  | SaveSession (now : Z) (random peer_pub blob : bytes)
  | LoadSession (peer_pub : bytes)
  | AppendInbox (random envelope_id peer_pub plaintext : bytes) (timestamp_ms expires_at_ms : Z)
  | AppendOutbox (random envelope_id peer_pub plaintext : bytes) (timestamp_ms expires_at_ms : Z)
  | PruneExpired (now_ms : Z)
  | RecentInbox (limit : Z)
  | RecentOutbox (limit : Z)
  | SetPeerVerified (peer_pub : bytes) (verified : bool) (at_ms : Z)
  | PeerVerified (peer_pub : bytes)
  | SetPeerPqCapable (peer_pub : bytes) (capable : bool) (first_seen_ms : Z)
  | PeerPqCapable (peer_pub : bytes)
  | SaveShamirShare (h : ShamirHeldShare)
  | LoadShamirShare (peer_pub : bytes) (setup_id : Z)
  | ListShamirShares
  | RecordCarry (peer_pub : bytes) (delta_bytes : Z)
  | CarryBalance (peer_pub : bytes)
  | ChanSave (random name channel_id own_dist : bytes) (crypto : ChannelCrypto)
  | ChanList
  | ChanSavePeer (random channel_id peer_pub peer_dist : bytes)
  | ChanPeersOf (channel_id : bytes)
  | ChanAppendInbox (random channel_id sender_pub plaintext : bytes) (timestamp_ms : Z)
  | ChanRecentInbox (channel_id : bytes) (limit : Z)
  | ChanDelete (name channel_id : bytes)
  | CachePeerName (now : Z) (random peer_pub username : bytes)
  | PeerName (peer_pub : bytes)
  | PeerPubkeysForUsername (username : bytes)
  | AllCachedPeers
  | MlsGroupSave (now : Z) (random channel_id seed_blob : bytes)
  | MlsGroupOpAppend (now : Z) (random channel_id : bytes) (seq : Z) (op_blob : bytes)
  | MlsGroupLoad (channel_id : bytes)
  | MlsGroupDelete (channel_id : bytes)
  | RotateStorageKeys (rnd : KeyRandom)
  | RatchetStorageMaster (rnd : KeyRandom)
  | Reopen (rnd : KeyRandom).

(** What a caller sees. *)
Inductive Answer :=
  | ADone
  | ABlob (b : option bytes)
  | AMessages (l : list InboxRow)
  | ACount (n : nat)
  | ABool (b : bool)
  | AShares (l : list ShamirHeldShare)
  | ANumber (z : Z)
  | AChannels (l : list ChannelRow)
  | APeers (l : list (bytes * bytes))
  | AChannelMessages (l : list ChannelInboxRow)
  | AKeys (l : list bytes)
  | AChecked (r : result StoreError unit)
  | AGroup (r : result StoreError (option MlsGroupSnapshot))
  | AFailed (e : StoreError).

Section calls.
Context `{Sodium, !SqlPlan}.

(** The key that the process gave to [open]. *)
Definition process_key (s : SqliteStore) : bytes := if have_master s then master_key s else [].

(** Rotation and ratchet answer with the number of rows they rewrote, which is not
    compared here. *)
Definition run (c : Call) (s : SqliteStore) : SqliteStore * Answer :=
  match c with
  | SaveIdentity pub sec u => let (s', r) := save_identity pub sec u s in (s', AChecked r)
  | LoadIdentityPub u => (s, ABlob (load_identity_pub u s))
  | LoadIdentitySec u => (s, ABlob (load_identity_sec u s))
  | RememberPeer p u => (remember_peer p u s, ADone)
  | LookupPeer u => (s, ABlob (lookup_peer u s))
  | SaveSession now rnd p b => let (s', r) := save_session now rnd p b s in (s', AChecked r)
  | LoadSession p => (s, ABlob (load_session p s))
  | AppendInbox rnd i p pt ts e => (append_inbox_with_expiry rnd i p pt ts e s, ADone)
  | AppendOutbox rnd i p pt ts e => (append_outbox_with_expiry rnd i p pt ts e s, ADone)
  | PruneExpired now => let (n, s') := prune_expired now s in (s', ACount n)
  | RecentInbox l => (s, AMessages (recent_inbox l s))
  | RecentOutbox l => (s, AMessages (recent_outbox l s))
  | SetPeerVerified p v t => (set_peer_verified p v t s, ADone)
  | PeerVerified p => (s, ABool (peer_verified p s))
  | SetPeerPqCapable p v t => (set_peer_pq_capable p v t s, ADone)
  | PeerPqCapable p => (s, ABool (peer_pq_capable p s))
  | SaveShamirShare h => (save_shamir_share h s, ADone)
  | LoadShamirShare p i => (s, AShares (option_list (load_shamir_share p i s)))
  | ListShamirShares => (s, AShares (list_shamir_shares s))
  | RecordCarry p d => (record_carry p d s, ADone)
  | CarryBalance p => (s, ANumber (carry_balance p s))
  | ChanSave rnd n i d c => (chan_save rnd n i d c s, ADone)
  | ChanList => (s, AChannels (chan_list s))
  | ChanSavePeer rnd i p d => (chan_save_peer rnd i p d s, ADone)
  | ChanPeersOf i => (s, APeers (chan_peers i s))
  | ChanAppendInbox rnd i p pt ts => (chan_append_inbox rnd i p pt ts s, ADone)
  | ChanRecentInbox i l => (s, AChannelMessages (chan_recent_inbox i l s))
  | ChanDelete n i => (chan_delete n i s, ADone)
  | CachePeerName now rnd p u => (cache_peer_name now rnd p u s, ADone)
  | PeerName p => (s, ABlob (peer_name p s))
  | PeerPubkeysForUsername u => (s, AKeys (peer_pubkeys_for_username u s))
  | AllCachedPeers => (s, APeers (all_cached_peers s))
  | MlsGroupSave now rnd i b => (mls_group_save now rnd i b s, ADone)
  | MlsGroupOpAppend now rnd i q b => let (s', r) := mls_group_op_append now rnd i q b s in (s', AChecked r)
  | MlsGroupLoad i => (s, AGroup (mls_group_load i s))
  | MlsGroupDelete i => (mls_group_delete i s, ADone)
  | RotateStorageKeys rnd => ((rotate_storage_keys rnd s).2, ADone)
  | RatchetStorageMaster rnd => ((ratchet_storage_master rnd s).2, ADone)
  | Reopen rnd =>
      match open (db s) (process_key s) rnd with
      | Ok s' => (s', ADone)
      | Throw e => (s, AFailed e)
      end
  end.

Fixpoint run_all (cs : list Call) (s : SqliteStore) : SqliteStore * list Answer :=
  match cs with
  | [] => (s, [])
  | c :: cs =>
      let (s1, a) := run c s in
      let (s2, l) := run_all cs s1 in
      (s2, a :: l)
  end.

(** Text columns are cut at a NUL: names are taken to have none. *)
Definition call_ok (c : Call) : Prop :=
  match c with
  | ChanSave _ name _ _ _ => Byte.x00 ∉ name
  | CachePeerName _ _ _ username => Byte.x00 ∉ username
  | _ => True
  end.

#[export] Instance call_ok_dec (c : Call) : Decision (call_ok c).
Proof. destruct c; cbn; apply _. Defined.

(** The call does not store an empty value in a protected column that is NOT NULL. *)
Definition call_stored (c : Call) : Prop :=
  match c with
  | SaveSession _ _ _ b | AppendInbox _ _ _ b _ _ | AppendOutbox _ _ _ b _ _ | ChanSavePeer _ _ _ b
  | ChanAppendInbox _ _ _ b _ | MlsGroupSave _ _ _ b | MlsGroupOpAppend _ _ _ _ b => b <> []
  | _ => True
  end.

#[export] Instance call_stored_dec (c : Call) : Decision (call_stored c).
Proof. destruct c; cbn; apply _. Defined.
End calls.
