(* ===== verification/ClientStoreSim.v ===== *)
(** * Encrypted and unencrypted stores side by side

    The simulation behind the theorems on the client's store: a store opened with a
    key and one opened without, driven by the same calls, hold the same rows up to
    the sealing of one column. *)
From S2P Require Import Prelude StdMap Crypto ServerStore Directory UsernameLog Sql ClientStore ClientStoreKeys.

Section sim.
Context `{Sodium, !SodiumLaws, !SqlPlan}.

(** ** Sealing *)

Lemma length_array (n : nat) (b : bytes) : length (array n b) = n.
Proof using. unfold array. rewrite length_take, length_app, length_replicate. lia. Qed.

Lemma aead_unwrap_wrap k pt aad n : aead_unwrap k (aead_wrap k pt aad n) aad = Some pt.
Proof.
  unfold aead_unwrap, aead_wrap. rewrite length_app, length_seal, length_array.
  destruct (Nat.ltb_spec (kXNonce + (length pt + 16)) (kXNonce + kXTag)) as [Hlt|_]; [unfold kXTag in Hlt; lia|].
  rewrite take_app_length', drop_app_length' by (by rewrite length_array). apply open_seal.
Qed.

Lemma aead_wrap_nonempty k pt aad n : aead_wrap k pt aad n <> [].
Proof using.
  intros E%(f_equal length). unfold aead_wrap in E. rewrite length_app, length_array in E. cbn in E. lia.
Qed.

(** ** Related rows *)

(** How the unencrypted store keeps the column. *)
Definition plain_cell (t : Tab) (pt : bytes) : SqlValue :=
  match t with PeerNames => VText pt | ChanState => bind_blob pt | _ => VBlob pt end.

Definition text_ok (t : Tab) (r : Row) (pt : bytes) : Prop :=
  match t with
  | ChanState => Byte.x00 ∉ column_blob (col r 0)
  | PeerNames => Byte.x00 ∉ pt
  | _ => True
  end.

(** The cell is sealed under the key of its table with the data of its row; a
    channel without a distribution keeps NULL. *)
Definition sealed (key : Tab -> bytes) (t : Tab) (r : Row) (pt : bytes) : Prop :=
  (exists n, cell r = VBlob (aead_wrap (key t) pt (row_aad t r) n)) \/ (t = ChanState /\ pt = [] /\ cell r = VNull).

Definition row_sim (key : Tab -> bytes) (t : Tab) (r r' : Row) : Prop :=
  cols r = cols r' /\ exists pt, cell r' = plain_cell t pt /\ text_ok t r pt /\ sealed key t r pt.

Lemma row_sim_cols key t r r' : row_sim key t r r' -> cols r = cols r'.
Proof using. by intros []. Qed.

Lemma row_sim_col key t r r' i : row_sim key t r r' -> col r i = col r' i.
Proof using. intros [E _]. unfold col. by rewrite E. Qed.

Lemma column_blob_bind b : column_blob (bind_blob b) = b.
Proof using. by destruct b. Qed.

Lemma bind_nonempty b : b <> [] -> bind_blob b = VBlob b.
Proof using. by destruct b. Qed.

Lemma blob_plain_cell t pt : column_blob (plain_cell t pt) = pt.
Proof using. destruct t; try done. apply column_blob_bind. Qed.

(** Rewriting a column under a new key keeps rows related. *)
Lemma row_sim_rewrap key key' t n r r' :
  row_sim key t r r' ->
  row_sim key' t (default r ((fun v => set_cell v r) <$> rewrap_cell t (key t) (key' t) n r)) r' /\
  (column_blob (cell r) = [] -> row_sim key' t r r').
Proof.
  intros (Ec & pt & Ep & Ht & Hs). unfold rewrap_cell. destruct Hs as [[m Em]|(-> & -> & Em)]; rewrite Em; cbn [column_blob].
  - split; [|by intros []%aead_wrap_nonempty]. rewrite aead_unwrap_wrap. cbn.
    split; [done|]. exists pt. split_and!; [done|done|]. left. by exists n.
  - split; [cbn|intros _]; (split; [done|]); exists []; (split_and!; [done|done|by right]).
Qed.

(** ** Related stores *)

(** Opening the file with the key finds the keys in use. *)
Record keys_on_disk (s : SqliteStore) : Prop := {
  kod_master : resolve_master (db s) (master_key s) = Ok (storage_master s, storage_master_generation s);
  kod_sub : forall t, open_sub_key (db s) (storage_master s) t = sub_key s t;
  kod_generation : open_generation (db s) (storage_master s) = storage_keys_generation s;
}.

Record sim (s p : SqliteStore) : Prop := {
  sim_enc : encrypt_at_rest s = true;
  sim_have : have_master s = true;
  sim_key : length (master_key s) = kKeyLen;
  sim_version : user_version (db s) = kSchemaVersionEncrypted;
  sim_keys : keys_on_disk s;
  sim_plain_enc : encrypt_at_rest p = false;
  sim_plain_have : have_master p = false;
  sim_plain_version : user_version (db p) = 0;
  sim_next : chan_inbox_next (db s) = chan_inbox_next (db p);
  sim_plain : plain (db s) = plain (db p);
  sim_rows : forall t, Forall2 (row_sim (sub_key s) t) (rows s t) (rows p t);
}.

Lemma sim_on_plain f s p : sim s p -> sim (on_plain f s) (on_plain f p).
Proof using. intros [? ? ? ? [] ? ? ? ? Hp ?]. constructor; try done. cbn. by rewrite Hp. Qed.

Lemma sim_on_table t f g s p :
  sim s p ->
  Forall2 (row_sim (sub_key s) t) (f (rows s t)) (g (rows p t)) ->
  sim (on_table t f s) (on_table t g p).
Proof using.
  intros [? ? ? ? [] ? ? ? ? ? Hr] Hf. constructor; try done.
  intros t'. unfold rows, on_table, set_table. cbn. destruct (decide (t' = t)) as [->|]; [done|apply Hr].
Qed.

Lemma sim_delete t w s p :
  sim s p -> sim (on_table t (delete_where (matches w)) s) (on_table t (delete_where (matches w)) p).
Proof using.
  intros Hs. apply sim_on_table; [done|]. apply related_filter; [|apply Hs]. intros r r' Hr.
  eapply related_matches; [|exact Hr]. apply row_sim_cols.
Qed.

(** The part of the relation that reading and writing one table needs. *)
Record sim_on (t : Tab) (s p : SqliteStore) : Prop := {
  so_enc : encrypt_at_rest s = true;
  so_plain : encrypt_at_rest p = false;
  so_rows : Forall2 (row_sim (sub_key s) t) (rows s t) (rows p t);
}.

Lemma sim_sim_on t s p : sim s p -> sim_on t s p.
Proof using. intros []. by constructor. Qed.

(** A row that the keyed store writes, and its counterpart in the clear. *)
Lemma row_sim_stored s p t c pt aad n :
  sim_on t s p -> t <> ChanState -> t <> PeerNames -> row_aad t (mkRow c VNull) = aad ->
  row_sim (sub_key s) t (mkRow c (stored s t pt aad n)) (mkRow c (VBlob pt)).
Proof using.
  intros Hs Ht1 Ht2 Ha. split; [done|]. exists pt. unfold stored. rewrite (so_enc _ _ _ Hs), bind_nonempty by apply aead_wrap_nonempty.
  split_and!; [by destruct t|by destruct t|]. left. exists n. cbn [cell]. rewrite <- Ha. by destruct t.
Qed.

(** The unkeyed store writes that counterpart, unless it is empty. *)
Lemma stored_plain s t pt aad n : encrypt_at_rest s = false -> pt <> [] -> stored s t pt aad n = VBlob pt.
Proof using. intros Hs Hpt. unfold stored. rewrite Hs. by apply bind_nonempty. Qed.

(** Related rows violate the constraints of their table together. *)
Lemma row_sim_violates key t r r' : row_sim key t r r' -> violates t r = violates t r'.
Proof using.
  intros (Ec & pt & Ep & _ & Hs). unfold violates, col. rewrite Ec, Ep. f_equal.
  destruct Hs as [[n ->]|(-> & _)]; [|done]. by destruct t.
Qed.

(** Reading back a related row. *)
Lemma row_sim_unstored s p t r r' :
  sim_on t s p -> t <> ChanState -> row_sim (sub_key s) t r r' ->
  unstored s t (cell r) (row_aad t r) = Some (column_blob (cell r')) /\
  unstored p t (cell r') (row_aad t r) = Some (column_blob (cell r')).
Proof.
  intros Hs Ht (Ec & pt & Ep & _ & Hseal). unfold unstored. rewrite (so_enc _ _ _ Hs), (so_plain _ _ _ Hs). split; [|done].
  destruct Hseal as [[n ->]|(? & _)]; [|done]. rewrite Ep, blob_plain_cell. apply aead_unwrap_wrap.
Qed.

Lemma row_sim_name s p r r' :
  sim_on PeerNames s p -> row_sim (sub_key s) PeerNames r r' ->
  read_name s r (row_aad PeerNames r) = read_name p r' (row_aad PeerNames r).
Proof.
  intros Hs Hr. destruct (row_sim_unstored s p PeerNames r r' Hs ltac:(done) Hr) as [E _].
  unfold unstored in E. unfold read_name. rewrite (so_enc _ _ _ Hs) in *. rewrite (so_plain _ _ _ Hs), E.
  destruct Hr as (_ & pt & -> & Ht & _). unfold column_text. cbn in *. by rewrite Directory.c_str_id.
Qed.

Lemma omap_related {A} (R : Row -> Row -> Prop) (f g : Row -> option A) l l' :
  (forall r r', R r r' -> f r = g r') -> Forall2 R l l' -> omap f l = omap g l'.
Proof using. intros Hf. induction 1 as [|r r' l l' Hr _ IH]; [done|]. cbn. by rewrite (Hf r r'), IH. Qed.

Lemma related_first (R : Row -> Row -> Prop) l l' :
  Forall2 R l l' ->
  match l, l' with [], [] => True | r :: _, r' :: _ => R r r' | _, _ => False end.
Proof using. by intros []. Qed.

Definition first_col_aad (t : Tab) : bool :=
  match t with ChanPeers | ChanInbox | MlsLog => false | _ => true end.

Lemma row_aad_first t r : first_col_aad t = true -> row_aad t r = column_blob (col r 0).
Proof using. destruct t; intros [=]; cbn; apply app_nil_r. Qed.

(** ** Reads agree *)

Section reads.
Context (s p : SqliteStore) (t : Tab) (Hs : sim_on t s p).

Lemma sim_select w : Forall2 (row_sim (sub_key s) t) (select_where w (rows s t)) (select_where w (rows p t)).
Proof using Hs. apply related_select; [apply row_sim_cols|apply Hs]. Qed.

Lemma sim_select_order q w :
  Forall2 (row_sim (sub_key s) t) (ordered q (select_where w (rows s t))) (ordered q (select_where w (rows p t))).
Proof using Hs. apply related_ordered; [apply row_sim_cols|apply sim_select]. Qed.

Lemma sim_order q : Forall2 (row_sim (sub_key s) t) (ordered q (rows s t)) (ordered q (rows p t)).
Proof using Hs. apply related_ordered; [apply row_sim_cols|apply Hs]. Qed.

Lemma sim_messages q l :
  t <> ChanState -> first_col_aad t = true ->
  omap (read_message s t) (sql_limit l (ordered q (rows s t))) = omap (read_message p t) (sql_limit l (ordered q (rows p t))).
Proof.
  intros Ht Ha. eapply omap_related; [|apply related_limit, sim_order]. intros r r' Hr. unfold read_message.
  rewrite <- !(row_sim_col _ _ _ _ _ Hr), <- (row_aad_first t r Ha). by destruct (row_sim_unstored s p t r r' Hs Ht Hr) as [-> ->].
Qed.

(** Rows selected by a key carry that key. *)
Lemma select_key i b r rs : r ∈ select_where [(i, bind_blob b)] rs -> column_blob (col r i) = b.
Proof using.
  unfold select_where, matches. rewrite list_elem_of_filter. intros [E _]. cbn in E. rewrite andb_true_r in E.
  unfold sql_eqb in E. destruct (col r i); [done|apply bool_decide_eq_true in E; rewrite E; apply column_blob_bind..].
Qed.

(** A row looked up by its first column, whose bytes are its data. *)
Lemma sim_lookup b :
  t <> ChanState -> first_col_aad t = true ->
  match select_where [(0%nat, bind_blob b)] (rows s t) with r :: _ => unstored s t (cell r) b | [] => None end =
  match select_where [(0%nat, bind_blob b)] (rows p t) with r :: _ => unstored p t (cell r) b | [] => None end.
Proof.
  intros Ht1 Ha. pose proof (related_first _ _ _ (sim_select [(0%nat, bind_blob b)])) as Hf.
  destruct (select_where _ (rows s t)) as [|r l] eqn:E, (select_where _ (rows p t)) as [|r' l'] eqn:E'; try done.
  assert (Hk : column_blob (col r 0) = b) by (eapply (select_key _ _ _ (rows s t)); rewrite E; left).
  pose proof (row_aad_first t r Ha) as Har. rewrite Hk in Har. cbn in Har.
  destruct (row_sim_unstored s p t r r' Hs Ht1 Hf) as [E1 E2]. rewrite Har in *. by rewrite E1, E2.
Qed.

End reads.

Lemma sim_peer_name s p b : sim_on PeerNames s p -> peer_name b s = peer_name b p.
Proof.
  intros Hs. unfold peer_name. pose proof (related_first _ _ _ (sim_select s p PeerNames Hs [(0%nat, bind_blob b)])) as Hf.
  destruct (select_where _ (rows s PeerNames)) as [|r l] eqn:E, (select_where _ (rows p PeerNames)) as [|r' l'] eqn:E'; try done.
  assert (Hk : column_blob (col r 0) = b) by (eapply (select_key _ _ _ (rows s PeerNames)); rewrite E; left).
  pose proof (row_sim_name s p r r' Hs Hf) as En. cbn in En. rewrite Hk in En. cbn in En. by rewrite app_nil_r in En.
Qed.

Lemma sim_cached_peers s p : sim_on PeerNames s p -> all_cached_peers s = all_cached_peers p.
Proof.
  intros Hs. unfold all_cached_peers. eapply omap_related; [|by apply sim_order]. intros r r' Hr. cbn.
  rewrite <- (row_sim_col _ _ _ _ _ Hr). pose proof (row_sim_name s p r r' Hs Hr) as En. cbn in En.
  rewrite app_nil_r in En. by rewrite En.
Qed.

Lemma sim_channel s p r r' : sim_on ChanState s p -> row_sim (sub_key s) ChanState r r' -> read_channel s r = read_channel p r'.
Proof.
  intros Hs Hr. unfold read_channel. rewrite <- !(row_sim_col _ _ _ _ _ Hr), (so_enc _ _ _ Hs), (so_plain _ _ _ Hs). cbn [andb].
  destruct Hr as (_ & pt & -> & Ht & Hseal). f_equal. cbn in Ht. unfold column_text. rewrite Directory.c_str_id by done.
  destruct Hseal as [[n ->]|(_ & -> & ->)]; [|done]. rewrite row_aad_first by done.
  rewrite blob_plain_cell. cbn [column_blob].
  rewrite bool_decide_false by apply aead_wrap_nonempty. cbn [negb]. by rewrite aead_unwrap_wrap.
Qed.

(** Rows selected by their first column, with that column. *)
Lemma sim_select_keyed s p t c :
  sim_on t s p ->
  Forall2 (fun r r' => row_sim (sub_key s) t r r' /\ column_blob (col r 0) = c)
    (select_where [(0%nat, bind_blob c)] (rows s t)) (select_where [(0%nat, bind_blob c)] (rows p t)).
Proof using.
  intros Hs. pose proof (sim_select s p t Hs [(0%nat, bind_blob c)]) as Hsel.
  apply Forall2_same_length_lookup. split; [by eapply Forall2_length|]. intros i r r' Hi Hi'.
  split; [by eapply Forall2_lookup_lr|]. eapply select_key. by eapply list_elem_of_lookup_2.
Qed.

Lemma sim_chan_peers s p c : sim_on ChanPeers s p -> chan_peers c s = chan_peers c p.
Proof.
  intros Hs. unfold chan_peers. pose proof (sim_select_keyed s p ChanPeers c Hs) as HR.
  eapply omap_related; [|apply related_ordered, HR; intros ? ? [? _]; by eapply row_sim_cols].
  intros r r' [Hr Hk]. unfold read_chan_peer. rewrite <- (row_sim_col _ _ _ _ _ Hr).
  destruct (row_sim_unstored s p ChanPeers r r' Hs ltac:(done) Hr) as [E1 E2]. cbn in E1, E2. rewrite Hk in *.
  cbn in E1, E2. rewrite app_nil_r in *. by rewrite E1, E2.
Qed.

Lemma sim_chan_inbox s p c l : sim_on ChanInbox s p -> chan_recent_inbox c l s = chan_recent_inbox c l p.
Proof.
  intros Hs. unfold chan_recent_inbox. eapply omap_related; [|apply related_limit, sim_select_order, Hs].
  intros r r' Hr. unfold read_chan_message. rewrite <- !(row_sim_col _ _ _ _ _ Hr).
  destruct (row_sim_unstored s p ChanInbox r r' Hs ltac:(done) Hr) as [E1 E2]. cbn in E1, E2.
  rewrite app_nil_r in *. by rewrite E1, E2.
Qed.
End sim.

(** ** Every call keeps an encrypted and an unencrypted store related *)
From S2P Require Import Prelude StdMap Crypto ServerStore Directory UsernameLog Sql ClientStore ClientStoreKeys.

Section steps.
Context `{Sodium, !SodiumLaws, !SqlPlan}.

#[local] Opaque derive_table_key aead_wrap aead_unwrap.

(** ** Groups *)

Lemma sim_load_ops s p c log log' :
  sim_on MlsLog s p -> Forall2 (fun r r' => row_sim (sub_key s) MlsLog r r' /\ column_blob (col r 0) = c) log log' ->
  forall ops m, load_ops s c log ops m = load_ops p c log' ops m.
Proof.
  intros Hs. induction 1 as [|r r' log log' [Hr Hk] _ IH]; intros ops m; [done|]. cbn [load_ops].
  rewrite <- (row_sim_col _ _ _ _ _ Hr).
  destruct (row_sim_unstored s p MlsLog r r' Hs ltac:(done) Hr) as [E1 E2]. unfold row_aad in E1, E2. rewrite Hk in E1, E2.
  cbn [column_blob] in E1, E2. by rewrite E1, E2, IH.
Qed.

Lemma sim_group_load s p c : sim s p -> mls_group_load c s = mls_group_load c p.
Proof.
  intros Hsim. pose proof (sim_sim_on MlsState _ _ Hsim) as Hs. pose proof (sim_sim_on MlsLog _ _ Hsim) as Hl.
  unfold mls_group_load. pose proof (sim_lookup s p MlsState Hs c ltac:(done) eq_refl) as El.
  assert (Ho : forall ops m,
    load_ops s c (ordered SelMlsLog (select_where [(0%nat, bind_blob c)] (rows s MlsLog))) ops m =
    load_ops p c (ordered SelMlsLog (select_where [(0%nat, bind_blob c)] (rows p MlsLog))) ops m).
  { apply sim_load_ops; [done|]. apply related_ordered, sim_select_keyed, Hl. intros ? ? [? _]. by eapply row_sim_cols. }
  rewrite Ho. pose proof (related_first _ _ _ (sim_select s p MlsState Hs [(0%nat, bind_blob c)])) as Hf.
  destruct (select_where _ (rows s MlsState)) as [|r l], (select_where _ (rows p MlsState)) as [|r' l']; try done.
  by rewrite El.
Qed.

(** ** Writes *)

(** A statement that keeps related tables related when it is given related rows. *)
Definition relates (t : Tab) (ins : Row -> list Row -> list Row) : Prop :=
  forall key r r' rs rs', row_sim key t r r' -> Forall2 (row_sim key t) rs rs' -> Forall2 (row_sim key t) (ins r rs) (ins r' rs').

Lemma relates_ignore t n : relates t (insert_or_ignore n).
Proof using. intros key r r' rs rs'. by apply related_ignore, row_sim_cols. Qed.

Lemma relates_replace t n : relates t (insert_or_replace n).
Proof using. intros key r r' rs rs'. by apply related_replace, row_sim_cols. Qed.

Lemma relates_upsert t n : relates t (upsert n).
Proof using. intros key r r' rs rs'. by apply related_upsert, row_sim_cols. Qed.

Lemma relates_insert t : relates t (fun r rs => rs ++ [r]).
Proof using. intros key r r' rs rs' Hr Hrs. apply Forall2_app; [done|by constructor]. Qed.

#[local] Hint Resolve relates_ignore relates_replace relates_upsert relates_insert : core.

Lemma sim_relates t ins s p r r' :
  relates t ins -> sim s p -> row_sim (sub_key s) t r r' -> sim (on_table t (ins r) s) (on_table t (ins r') p).
Proof using. intros Hi Hs Hr. apply sim_on_table; [done|]. apply Hi; [done|apply Hs]. Qed.

Lemma sim_insert_row t ins s p r r' :
  relates t ins -> sim s p -> row_sim (sub_key s) t r r' -> sim (insert_row t ins r s) (insert_row t ins r' p).
Proof using.
  intros Hi Hs Hr. unfold insert_row. rewrite (row_sim_violates _ _ _ _ Hr). destruct (violates t r'); [done|by apply sim_relates].
Qed.

(** A row written by both stores: some unencrypted store stays related, the one that
    was given the same call unless the value is empty. *)
Lemma sim_stored_row t ins c pt aad n s p :
  relates t ins -> t <> ChanState -> t <> PeerNames -> row_aad t (mkRow c VNull) = aad -> sim s p ->
  exists p', sim (insert_row t ins (mkRow c (stored s t pt aad n)) s) p' /\
    (pt <> [] -> p' = insert_row t ins (mkRow c (stored p t pt aad n)) p).
Proof using.
  intros Hi Ht1 Ht2 Ha Hs. exists (insert_row t ins (mkRow c (VBlob pt)) p). split.
  - apply sim_insert_row; [done..|]. apply row_sim_stored with p; [by apply sim_sim_on|done..].
  - intros Hpt. by rewrite stored_plain by (done || apply Hs).
Qed.

Lemma sim_save_session now rnd k b s p :
  sim s p ->
  exists p', sim (save_session now rnd k b s).1 p' /\
    (b <> [] -> p' = (save_session now rnd k b p).1 /\ (save_session now rnd k b s).2 = (save_session now rnd k b p).2).
Proof using.
  intros Hs. unfold save_session. cbv zeta. set (r := mkRow _ (stored s _ _ _ _)). set (r' := mkRow (cols r) (VBlob b)).
  assert (Hr : row_sim (sub_key s) Sessions r r').
  { apply row_sim_stored with p; [by apply sim_sim_on|done|done|]. rewrite row_aad_first by done. apply column_blob_bind. }
  exists (insert_row Sessions (insert_or_replace 1) r' p). unfold insert_row. rewrite (row_sim_violates _ _ _ _ Hr). split.
  - destruct (violates Sessions r'); [done|]. by apply sim_relates.
  - intros Hb. rewrite stored_plain by (done || apply Hs). fold r'. change (mkRow _ (VBlob b)) with r'. by destruct (violates Sessions r').
Qed.

Lemma sim_expired t n s p :
  sim s p ->
  length (filter (fun r => expired n r = true) (rows s t)) = length (filter (fun r => expired n r = true) (rows p t)) /\
  Forall2 (row_sim (sub_key s) t) (delete_where (expired n) (rows s t)) (delete_where (expired n) (rows p t)).
Proof using.
  intros Hs.
  assert (He : forall r r', row_sim (sub_key s) t r r' -> expired n r = expired n r').
  { intros r r' Hr. unfold expired. by rewrite (row_sim_col _ _ _ _ _ Hr). }
  split; [eapply Forall2_length|]; (eapply related_filter; [exact He|apply Hs]).
Qed.

Lemma sim_prune n s p :
  sim s p -> (prune_expired n s).1 = (prune_expired n p).1 /\ sim (prune_expired n s).2 (prune_expired n p).2.
Proof using.
  intros Hs. destruct (sim_expired Inbox n s p Hs) as [E1 F1], (sim_expired Outbox n s p Hs) as [E2 F2].
  split; [cbn [prune_expired fst]; congruence|]. cbn [prune_expired snd]. by apply sim_on_table; [apply sim_on_table|].
Qed.

Lemma sim_chan_save rnd name c d k s p :
  Byte.x00 ∉ name -> sim s p -> sim (chan_save rnd name c d k s) (chan_save rnd name c d k p).
Proof using.
  intros Hn Hs. apply sim_insert_row; [done|done|]. rewrite (sim_enc _ _ Hs), (sim_plain_enc _ _ Hs).
  rewrite Directory.c_str_id by done. cbn [andb]. split; [done|]. exists d. split_and!; [done|done|].
  case_bool_decide as Hd; [right; by subst|left]. exists rnd. by rewrite row_aad_first.
Qed.

Lemma sim_cache_name now rnd k u s p :
  Byte.x00 ∉ u -> sim s p -> sim (cache_peer_name now rnd k u s) (cache_peer_name now rnd k u p).
Proof using.
  intros Hu Hs. apply sim_insert_row; [done|done|]. rewrite (sim_enc _ _ Hs), (sim_plain_enc _ _ Hs).
  rewrite Directory.c_str_id by done. split; [done|]. exists u. split_and!; [done|done|]. left. exists rnd.
  rewrite row_aad_first by done. cbn. by rewrite column_blob_bind.
Qed.

Lemma sim_with_next n s p :
  sim s p ->
  let f q := with_db (mkDb (user_version (db q)) (tables (db q)) n (storage_keys (db q)) (storage_master_row (db q)) (plain (db q))) q in
  sim (f s) (f p).
Proof using. intros [? ? ? ? [] ? ? ? ? ? Hr]. by constructor. Qed.

Lemma sim_chan_append rnd c k pt ts s p :
  sim s p ->
  exists p', sim (chan_append_inbox rnd c k pt ts s) p' /\ (pt <> [] -> p' = chan_append_inbox rnd c k pt ts p).
Proof using.
  intros Hs. unfold chan_append_inbox. rewrite <- (sim_next _ _ Hs). cbv zeta.
  set (r := mkRow _ (stored s _ _ _ _)). set (r' := mkRow (cols r) (VBlob pt)).
  assert (Hr : row_sim (sub_key s) ChanInbox r r').
  { apply row_sim_stored with p; [by apply sim_sim_on|done|done|]. cbn. by rewrite app_nil_r, column_blob_bind. }
  rewrite (row_sim_violates _ _ _ _ Hr).
  pose proof (sim_with_next (chan_inbox_next (db s) + 1) _ _ (sim_relates _ _ _ _ _ _ (relates_insert _) Hs Hr)) as Hn.
  destruct (violates ChanInbox r') eqn:Ev; (eexists; split; [first [exact Hs|exact Hn]|]); intros Hpt;
    rewrite stored_plain by (done || apply Hs); change (mkRow _ (VBlob pt)) with r'; by rewrite Ev.
Qed.

Lemma sim_op_append now rnd c q b s p :
  sim s p ->
  exists p', sim (mls_group_op_append now rnd c q b s).1 p' /\
    (b <> [] -> p' = (mls_group_op_append now rnd c q b p).1 /\
                (mls_group_op_append now rnd c q b s).2 = (mls_group_op_append now rnd c q b p).2).
Proof using.
  intros Hs. unfold mls_group_op_append. cbv zeta. set (r := mkRow _ (stored s _ _ _ _)). set (r' := mkRow (cols r) (VBlob b)).
  assert (Hr : row_sim (sub_key s) MlsLog r r').
  { apply row_sim_stored with p; [by apply sim_sim_on|done|done|]. cbn. by rewrite column_blob_bind. }
  rewrite (row_sim_violates _ _ _ _ Hr).
  rewrite (related_has_pk (row_sim (sub_key s) MlsLog) (row_sim_cols _ _) 2 r r' (rows s MlsLog) (rows p MlsLog))
    by (done || apply Hs).
  pose proof (sim_relates _ _ _ _ _ _ (relates_insert _) Hs Hr) as Hi.
  destruct (violates MlsLog r') eqn:Ev, (has_pk 2 r' (rows p MlsLog)) eqn:Ep; (eexists; split; [first [exact Hs|exact Hi]|]); intros Hb;
    rewrite stored_plain by (done || apply Hs); change (mkRow _ (VBlob b)) with r'; by rewrite Ev, ?Ep.
Qed.

(** ** Re-keying *)

Lemma related_update key key' t (f : nat -> Row -> option SqlValue) rs rs' :
  (forall i r r', row_sim key t r r' -> row_sim key' t (default r ((fun v => set_cell v r) <$> f i r)) r') ->
  Forall2 (row_sim key t) rs rs' ->
  Forall2 (row_sim key' t) (update_rowids (imap f rs) rs) rs'.
Proof using.
  intros Hf Hrs. revert f Hf. induction Hrs as [|r r' rs rs' Hr _ IH]; intros f Hf; [constructor|].
  cbn [imap update_rowids zip_with]. constructor.
  - pose proof (Hf 0%nat _ _ Hr) as H0r. by destruct (f 0%nat r).
  - apply IH. intros i. apply (Hf (S i)).
Qed.

Lemma rewrap_table_related key key' t rnd rs rs' :
  Forall2 (row_sim key t) rs rs' ->
  Forall2 (row_sim key' t) (update_rowids (rewrap_table t (key t) (key' t) rnd rs) rs) rs'.
Proof. apply related_update. intros. by apply row_sim_rewrap. Qed.

Lemma rewrap_related key key' t rnd rs rs' :
  Forall2 (row_sim key t) rs rs' ->
  Forall2 (row_sim key' t) (update_rowids (rewrap t (key t) (key' t) rnd rs) rs) rs'.
Proof.
  apply related_update. intros i r r' Hr. destruct (row_sim_rewrap key key' t (rnd i) r r' Hr) as [Hw He].
  destruct (column_blob (cell r)) eqn:E; [cbn; by apply He|done].
Qed.

Lemma u64_i64 z : u64 (i64 (u64 z)) = u64 z.
Proof using.
  unfold u64, i64. pose proof (Z.mod_pos_bound z u64_max ltac:(done)) as Hz.
  destruct (Z.ltb_spec (z mod u64_max) (2 ^ 63)); [by apply Z.mod_small|].
  replace (z mod u64_max - u64_max) with (z mod u64_max + (-1) * u64_max) by lia.
  rewrite Z.mod_add by done. by apply Z.mod_small.
Qed.

Lemma load_persisted d master gen name k n ks :
  storage_keys d !! name = persist_wrapped master (u64 gen) name k n ks !! name -> length k = kKeyLen ->
  load_wrapped d master name = Some (k, u64 gen).
Proof.
  intros E Hk. unfold load_wrapped. rewrite E. unfold persist_wrapped. rewrite lookup_insert_eq, u64_i64, aead_unwrap_wrap, Hk.
  by rewrite Nat.eqb_refl.
Qed.

Lemma rotate_slots master gen rnd d d0 t name :
  storage_keys d = persist_wrapped master (u64 gen) (str "sessions") (array kKeyLen (rk_key rnd Sessions)) (rk_wrap rnd Sessions)
    (persist_wrapped master (u64 gen) (str "outbox") (array kKeyLen (rk_key rnd Outbox)) (rk_wrap rnd Outbox)
    (persist_wrapped master (u64 gen) (str "inbox") (array kKeyLen (rk_key rnd Inbox)) (rk_wrap rnd Inbox) d0)) ->
  slot t = Some name -> load_wrapped d master name = Some (array kKeyLen (rk_key rnd t), u64 gen).
Proof.
  intros E Ht. destruct t; [..|done|done|done|done|done|done]; apply Some_inj in Ht; subst name;
    (eapply (load_persisted d master gen _ _ (rk_wrap rnd _) d0); [|apply length_array]); rewrite E; unfold persist_wrapped.
  - by rewrite !lookup_insert_ne, !lookup_insert_eq by done.
  - by rewrite lookup_insert_ne, !lookup_insert_eq by done.
  - by rewrite !lookup_insert_eq.
Qed.

Lemma sim_rotate rnd s p : sim s p -> sim (rotate_storage_keys rnd s).2 (rotate_storage_keys rnd p).2.
Proof.
  intros Hs. pose proof Hs as [He Hh ? ? [Hm Hsub ?] Hpe ? ? ? ? Hr]. unfold rotate_storage_keys. rewrite He, Hh, Hpe. cbn [negb orb snd].
  set (d' := mkDb _ _ _ _ _ _). assert (Hslot : forall t name, slot t = Some name ->
      load_wrapped d' (storage_master s) name = Some (array kKeyLen (rk_key rnd t), u64 (storage_keys_generation s + 1))).
  { intros t name. by apply rotate_slots with (d0 := storage_keys (db s)). }
  assert (Hload : forall t, load_slot d' (storage_master s) t =
      match slot t with Some _ => Some (array kKeyLen (rk_key rnd t), u64 (storage_keys_generation s + 1)) | None => None end).
  { intros t. unfold load_slot. destruct (slot t) as [name|] eqn:E; [|done]. by apply Hslot. }
  constructor; try done.
  - constructor; [done| |].
    + intros t. unfold open_sub_key. cbn [storage_master db sub_key]. rewrite Hload.
      specialize (Hsub t). unfold open_sub_key, load_slot in Hsub. destruct (slot t); [reflexivity|exact Hsub].
    + unfold open_generation. cbn [fold_left storage_master db storage_keys_generation]. rewrite !Hload. cbn [slot].
      assert (0 <= u64 (storage_keys_generation s + 1)) by (apply Z.mod_pos_bound; done).
      set (g := u64 _) in *. destruct (0 <? g) eqn:Eg; rewrite ?Z.ltb_irrefl, ?Eg; [done|]. rewrite ?Eg. apply Z.ltb_ge in Eg. lia.
  - intros t. unfold rows at 1. cbn [db tables sub_key d']. destruct (slot t) eqn:Et.
    + pose proof (rewrap_table_related (sub_key s)
        (fun t => match slot t with Some _ => array kKeyLen (rk_key rnd t) | None => sub_key s t end) t (rk_cell rnd t)
        (rows s t) (rows p t) (Hr t)) as Hw. cbv beta in Hw. by rewrite Et in Hw.
    + eapply Forall2_impl; [apply Hr|]. intros r r' (E & pt & Hpt & Htx & Hse). split; [done|]. exists pt.
      unfold sealed. rewrite Et. done.
Qed.

Lemma sim_ratchet rnd s p : sim s p -> sim (ratchet_storage_master rnd s).2 (ratchet_storage_master rnd p).2.
Proof.
  intros Hs. pose proof Hs as [He Hh ? ? [Hm Hsub ?] Hpe ? ? ? ? Hr]. unfold ratchet_storage_master. rewrite He, Hpe. cbn [negb snd].
  constructor; try done.
  - constructor; cbn [master_key db storage_master storage_master_generation sub_key storage_keys_generation].
    + unfold resolve_master. cbn [storage_master_row]. rewrite u64_i64, aead_unwrap_wrap, length_array. by rewrite Nat.eqb_refl.
    + intros t. unfold open_sub_key, load_slot, load_wrapped. cbn [storage_keys]. by destruct t.
    + done.
  - intros t. unfold rows at 1. cbn [db tables sub_key].
    apply (rewrap_related (sub_key s) (fun t => derive_table_key (array kKeyLen (rk_master rnd)) (table_info t))). apply Hr.
Qed.

(** ** Reopening *)

Lemma open_keyed s rnd :
  encrypt_at_rest s = true -> have_master s = true -> length (master_key s) = kKeyLen ->
  user_version (db s) = kSchemaVersionEncrypted -> keys_on_disk s ->
  open (db s) (process_key s) rnd =
    Ok (mkSqliteStore (db s) true (open_sub_key (db s) (storage_master s)) (master_key s) true (storage_master s)
          (storage_master_generation s) (storage_keys_generation s)).
Proof using.
  intros He Hh Hk Hv [Hm Hsub Hg]. unfold open, process_key, read_user_version. rewrite Hh, Hv, Hk.
  rewrite bool_decide_false by (intros E; rewrite E in Hk; done). rewrite Nat.eqb_refl, Z.eqb_refl, Z.ltb_irrefl.
  cbn [negb andb]. by rewrite Hm, Hg.
Qed.

Lemma sim_reopen rnd s p :
  sim s p -> sim (run (Reopen rnd) s).1 (run (Reopen rnd) p).1 /\ (run (Reopen rnd) s).2 = (run (Reopen rnd) p).2.
Proof using.
  intros [He Hh Hk Hv Hkd Hpe Hph Hpv Hn Hpl Hr]. cbn [run]. rewrite open_keyed by done.
  unfold open, process_key, read_user_version. rewrite Hph, Hpv. cbn [bool_decide negb andb].
  rewrite bool_decide_true by done. cbn [negb andb Z.eqb kSchemaVersionEncrypted fst snd]. split; [|done].
  pose proof Hkd as [Hm Hsub Hg]. constructor; try done.
  intros t. specialize (Hr t). unfold rows in *. cbn [db sub_key]. eapply Forall2_impl; [exact Hr|].
  intros r r' (E & pt & Hpt & Htx & Hse). split; [done|]. exists pt. unfold sealed. by rewrite Hsub.
Qed.

(** ** Any call *)

(** Calls that store no value, or whose values both stores keep. *)
Lemma sim_same (c : Call) (s p : SqliteStore) :
  sim (run c s).1 (run c p).1 /\ (run c s).2 = (run c p).2 ->
  exists p', sim (run c s).1 p' /\ (call_stored c -> p' = (run c p).1 /\ (run c s).2 = (run c p).2).
Proof using. intros [Hs Ha]. by exists (run c p).1. Qed.

Lemma sim_plain_call (c : Call) (s p : SqliteStore) :
  sim s p -> match c with
             | SaveIdentity _ _ _ | RememberPeer _ _ | SetPeerVerified _ _ _ | SetPeerPqCapable _ _ _ | SaveShamirShare _ | RecordCarry _ _ => True
             | _ => False
             end ->
  sim (run c s).1 (run c p).1 /\ (run c s).2 = (run c p).2.
Proof using.
  intros Hs Hc. destruct c; try done; cbn [run];
    unfold save_identity, remember_peer, set_peer_verified, set_peer_pq_capable, save_shamir_share, record_carry;
    match goal with |- context [if ?b then _ else _] => destruct b end; (split; [first [exact Hs|by apply sim_on_plain]|done]).
Qed.

(** The keyed store stays related to an unencrypted one, and that is what the same
    call makes of the unencrypted one when it stores no empty value. *)
Lemma sim_run c s p :
  call_ok c -> sim s p ->
  exists p', sim (run c s).1 p' /\ (call_stored c -> p' = (run c p).1 /\ (run c s).2 = (run c p).2).
Proof.
  intros Hc Hs. destruct c; cbn in Hc;
    try (apply sim_same, sim_plain_call; [exact Hs|exact I]);
    try (apply sim_same; cbn [run fst snd]; split; [exact Hs|];
         unfold load_identity_pub, load_identity_sec, lookup_peer, peer_verified, peer_pq_capable, load_shamir_share,
           list_shamir_shares, carry_balance; by rewrite (sim_plain _ _ Hs)).
  - destruct (sim_save_session now random peer_pub blob s p Hs) as (p' & Hp & E). exists p'. cbn [run call_stored].
    destruct (save_session _ _ _ _ s), (save_session _ _ _ _ p). cbn [fst snd] in *. split; [done|].
    intros Hb. by destruct (E Hb) as [-> ->].
  - apply sim_same. split; [done|]. cbn [run snd]. f_equal. by apply (sim_lookup s p Sessions (sim_sim_on _ _ _ Hs)).
  - destruct (sim_stored_row Inbox (insert_or_ignore 1) [bind_blob envelope_id; bind_blob peer_pub; VInt (i64 timestamp_ms); VInt (i64 expires_at_ms)]
      plaintext envelope_id random s p) as (p' & Hp & E); [done..| |done|];
      [by rewrite row_aad_first by done; apply column_blob_bind|]. exists p'. split; [done|]. intros Hb. by rewrite (E Hb).
  - destruct (sim_stored_row Outbox (insert_or_ignore 1) [bind_blob envelope_id; bind_blob peer_pub; VInt (i64 timestamp_ms); VInt (i64 expires_at_ms)]
      plaintext envelope_id random s p) as (p' & Hp & E); [done..| |done|];
      [by rewrite row_aad_first by done; apply column_blob_bind|]. exists p'. split; [done|]. intros Hb. by rewrite (E Hb).
  - apply sim_same. destruct (sim_prune now_ms s p Hs) as [E Hp]. cbn [run]. destruct (prune_expired now_ms s), (prune_expired now_ms p).
    cbn in *. by subst.
  - apply sim_same. split; [done|]. cbn [run snd]. f_equal. by apply sim_messages; [apply sim_sim_on|..].
  - apply sim_same. split; [done|]. cbn [run snd]. f_equal. by apply sim_messages; [apply sim_sim_on|..].
  - apply sim_same. split; [by apply sim_chan_save|done].
  - apply sim_same. split; [done|]. cbn [run snd]. f_equal. unfold chan_list. apply list_eq_Forall2, Forall2_fmap.
    eapply Forall2_impl; [by apply sim_order, sim_sim_on|]. intros. by apply sim_channel; [apply sim_sim_on|].
  - destruct (sim_stored_row ChanPeers (upsert 2) [bind_blob channel_id; bind_blob peer_pub] peer_dist (channel_id ++ peer_pub) random s p)
      as (p' & Hp & E); [done..| |done|]; [cbn; by rewrite app_nil_r, !column_blob_bind|].
    exists p'. split; [done|]. intros Hb. by rewrite (E Hb).
  - apply sim_same. split; [done|]. cbn [run snd]. f_equal. by apply sim_chan_peers, sim_sim_on.
  - destruct (sim_chan_append random channel_id sender_pub plaintext timestamp_ms s p Hs) as (p' & Hp & E). exists p'. split; [done|].
    intros Hb. by rewrite (E Hb).
  - apply sim_same. split; [done|]. cbn [run snd]. f_equal. by apply sim_chan_inbox, sim_sim_on.
  - apply sim_same. split; [|done]. cbn [run fst]. unfold chan_delete. by repeat apply sim_delete.
  - apply sim_same. split; [by apply sim_cache_name|done].
  - apply sim_same. split; [done|]. cbn [run snd]. f_equal. by apply sim_peer_name, sim_sim_on.
  - apply sim_same. split; [done|]. cbn [run snd]. f_equal. unfold peer_pubkeys_for_username. by rewrite (sim_cached_peers s p) by by apply sim_sim_on.
  - apply sim_same. split; [done|]. cbn [run snd]. f_equal. by apply sim_cached_peers, sim_sim_on.
  - destruct (sim_stored_row MlsState (upsert 1) [bind_blob channel_id; VInt now] seed_blob channel_id random s p) as (p' & Hp & E);
      [done..| |done|]; [by rewrite row_aad_first by done; apply column_blob_bind|]. exists p'. split; [done|]. intros Hb. by rewrite (E Hb).
  - destruct (sim_op_append now random channel_id seq op_blob s p Hs) as (p' & Hp & E). exists p'. cbn [run call_stored].
    destruct (mls_group_op_append _ _ _ _ _ s), (mls_group_op_append _ _ _ _ _ p). cbn [fst snd] in *. split; [done|].
    intros Hb. by destruct (E Hb) as [-> ->].
  - apply sim_same. split; [done|]. cbn [run snd]. f_equal. by apply sim_group_load.
  - apply sim_same. split; [|done]. cbn [run fst]. unfold mls_group_delete. by repeat apply sim_delete.
  - apply sim_same. split; [by apply sim_rotate|done].
  - apply sim_same. split; [by apply sim_ratchet|done].
  - by apply sim_same, sim_reopen.
Qed.

Lemma sim_run_all cs : forall s p,
  Forall call_ok cs -> sim s p ->
  exists p', sim (run_all cs s).1 p' /\ (Forall call_stored cs -> p' = (run_all cs p).1 /\ (run_all cs s).2 = (run_all cs p).2).
Proof.
  induction cs as [|c cs IH]; intros s p Hcs Hs; [by exists p|]. inversion_clear Hcs as [|? ? Hc Hcs']. cbn [run_all].
  destruct (sim_run c s p Hc Hs) as (p1 & Hs1 & E1). destruct (run c s) as [s1 a], (run c p) as [p1' a']. cbn [fst snd] in *.
  destruct (IH s1 p1 Hcs' Hs1) as (p2 & Hs2 & E2). exists p2. destruct (run_all cs s1) as [s2 l] eqn:Es. split; [done|].
  intros Hst. inversion_clear Hst as [|? ? Hc1 Hc2]. destruct (E1 Hc1) as [-> ->], (E2 Hc2) as [-> El].
  destruct (run_all cs p1'). cbn [fst snd] in *. by subst.
Qed.

Lemma sim_fresh key rnd :
  length key = kKeyLen ->
  exists s p, open empty_db key rnd = Ok s /\ open empty_db [] rnd = Ok p /\ sim s p /\ master_key s = key.
Proof using.
  intros Hk. unfold open at 1. rewrite Hk. rewrite bool_decide_false by (intros E; rewrite E in Hk; done).
  eexists _, _. split; [reflexivity|]. split; [reflexivity|]. split; [|done].
  constructor; try done. intros t. by destruct t; constructor.
Qed.
End steps.
