(* ===== verification/ClientStoreTyped.v ===== *)
(** * The types of the client's tables

    Whatever is called on a store, in whatever order and with whatever bytes, the
    rows keep the columns and storage classes of [kSchema], NULL only where it may be,
    and no two rows conflict on their primary key. *)
From S2P Require Import Prelude StdMap Crypto ServerStore Directory UsernameLog Sql ClientStore ClientStoreKeys ClientStoreSim.

Inductive SqlType := TInt | TText | TBlob | TBlobOrNull.

(** Text as [sqlite3_bind_text] with length -1 leaves it: without a NUL byte; blobs as
    [bind_blob] leaves them: never empty. *)
Definition has_type (ty : SqlType) (v : SqlValue) : Prop :=
  match ty, v with
  | TInt, VInt _ | TBlobOrNull, VNull => True
  | TBlob, VBlob b | TBlobOrNull, VBlob b => b <> []
  | TText, VText b => Byte.x00 ∉ b
  | _, _ => False
  end.

Definition col_types (t : Tab) : list SqlType :=
  match t with
  | Inbox | Outbox => [TBlobOrNull; TBlob; TInt; TInt]
  | Sessions | PeerNames | MlsState => [TBlobOrNull; TInt]
  | ChanState => [TText; TBlob; TInt]
  | ChanPeers => [TBlob; TBlob]
  | ChanInbox => [TInt; TBlob; TBlob; TInt]
  | MlsLog => [TBlob; TInt; TInt]
  end.

(** The protected column holds a blob; a name is text until it is encrypted, and a
    channel's distribution may be missing. *)
Definition cell_typed (enc : bool) (t : Tab) (v : SqlValue) : Prop :=
  match t with
  | PeerNames => has_type TText v \/ (enc = true /\ has_type TBlob v)
  | ChanState => has_type TBlobOrNull v
  | _ => has_type TBlob v
  end.

Definition row_typed (enc : bool) (t : Tab) (r : Row) : Prop :=
  Forall2 has_type (col_types t) (cols r) /\ cell_typed enc t (cell r).

Definition pk (t : Tab) (r : Row) : list SqlValue := take (pk_len t) (cols r).

(** The keys of a table's rows, in as far as they are keys: NULL equals nothing. *)
Definition pks (t : Tab) (rs : list Row) : list (list SqlValue) := filter (fun k => VNull ∉ k) (pk t <$> rs).

Record table_typed (enc : bool) (t : Tab) (rs : list Row) : Prop := {
  tt_rows : Forall (row_typed enc t) rs;
  tt_pk : NoDup (pks t rs);
}.

Record store_typed (s : SqliteStore) : Prop := {
  st_tables : forall t, table_typed (encrypt_at_rest s) t (rows s t);
  st_next : Forall (fun r => column_int64 (col r 0) < chan_inbox_next (db s)) (rows s ChanInbox);
  st_master : have_master s = encrypt_at_rest s;
  st_key : encrypt_at_rest s = true -> length (master_key s) = kKeyLen;
}.

(** ** Primary keys *)

Lemma sql_eqb_true a b : sql_eqb a b = true <-> a = b /\ a <> VNull.
Proof.
  unfold sql_eqb. destruct a; [split; [done|by intros []]|..]; rewrite bool_decide_eq_true; split; (by intros [] || by intros ->).
Qed.

Lemma matches_imap (f : nat -> nat) vs r :
  forallb (fun w => sql_eqb (col r w.1) w.2) (imap (fun i v => (f i, v)) vs) = true <->
  forall i v, vs !! i = Some v -> col r (f i) = v /\ v <> VNull.
Proof.
  revert f. induction vs as [|v vs IH]; intros f; [done|]. cbn [imap forallb]. rewrite andb_true_iff.
  cbn [fst snd]. rewrite (sql_eqb_true (col r (f 0%nat)) v), (IH (f ∘ S)). split.
  - intros [[E1 E2] Hvs] [|i] w Hw; [injection Hw as <-; by subst|by apply (Hvs i)].
  - intros Hvs. split; [by destruct (Hvs 0%nat v eq_refl) as [-> ?]|]. intros i w. apply (Hvs (S i)).
Qed.

Section pk.
Context (t : Tab) (r r' : Row).
Context (Hr : Forall2 has_type (col_types t) (cols r)) (Hr' : Forall2 has_type (col_types t) (cols r')).

Lemma length_cols_typed : length (cols r) = length (col_types t) /\ length (cols r') = length (col_types t).
Proof. split; symmetry; by eapply Forall2_length. Qed.

Lemma same_pk_iff : same_pk (pk_len t) r r' = true <-> pk t r = pk t r' /\ VNull ∉ pk t r.
Proof.
  destruct length_cols_typed as [Hl Hl']. unfold same_pk, matches. fold (pk t r).
  rewrite (matches_imap id). unfold id. split.
  - intros Hm. split; [|by intros [i Hi]%list_elem_of_lookup; destruct (Hm i VNull Hi)].
    apply list_eq_same_length with (n := length (pk t r)); [|done|].
    { unfold pk. rewrite !length_take. lia. }
    intros i x y Hi Hx Hy. destruct (Hm i x Hx) as [E _]. unfold col in E. unfold pk in Hy.
    apply lookup_take_Some in Hy as [Hy _]. rewrite Hy in E. done.
  - intros [E Hn] i v Hv. split; [|intros ->; apply Hn; by eapply list_elem_of_lookup_2].
    rewrite E in Hv. unfold pk in Hv. apply lookup_take_Some in Hv as [Hv _]. unfold col. by rewrite Hv.
Qed.
End pk.

(** ** Statements keep a table typed *)

Section tables.
Context (enc : bool) (t : Tab).

Lemma has_pk_spec rs r :
  row_typed enc t r -> Forall (row_typed enc t) rs -> has_pk (pk_len t) r rs = false -> VNull ∉ pk t r -> pk t r ∉ (pk t <$> rs).
Proof.
  intros Hr Hrs E Hn Hin. apply list_elem_of_fmap in Hin as (r' & Ep & Hr').
  unfold has_pk in E. rewrite <- not_true_iff_false, existsb_exists in E. apply E. exists r'.
  split; [by apply list_elem_of_In|]. rewrite Forall_forall in Hrs. by apply (same_pk_iff t r r'); [apply Hr|apply Hrs|].
Qed.

Lemma typed_snoc rs r :
  table_typed enc t rs -> row_typed enc t r -> (VNull ∉ pk t r -> pk t r ∉ (pk t <$> rs)) -> table_typed enc t (rs ++ [r]).
Proof.
  intros [Hrs Hpk] Hr Hn. split; [by apply Forall_app; split; [|constructor]|].
  unfold pks in *. rewrite fmap_app, filter_app. apply NoDup_app. split_and!; [done| |].
  - intros k [_ Hk]%list_elem_of_filter. change (pk t <$> [r]) with [pk t r]. rewrite filter_cons, filter_nil. case_decide as Hd; [|set_solver].
    intros ->%list_elem_of_singleton. by apply Hn.
  - change (pk t <$> [r]) with [pk t r]. rewrite filter_cons, filter_nil. case_decide; [apply NoDup_singleton|constructor].
Qed.

Lemma typed_ignore rs r : table_typed enc t rs -> row_typed enc t r -> table_typed enc t (insert_or_ignore (pk_len t) r rs).
Proof.
  intros Hrs Hr. unfold insert_or_ignore. destruct (has_pk _ r rs) eqn:E; [done|].
  apply typed_snoc; [done..|]. by apply has_pk_spec; [|apply Hrs|].
Qed.

Lemma typed_delete (P : Row -> Prop) `{!forall r, Decision (P r)} rs :
  table_typed enc t rs -> table_typed enc t (filter P rs).
Proof.
  intros [Hrs Hpk]. split.
  { rewrite Forall_forall in *. intros r [_ Hr]%list_elem_of_filter. by apply Hrs. }
  unfold pks in *. clear Hrs. induction rs as [|r rs IH]; [done|]. rewrite filter_cons.
  rewrite fmap_cons, filter_cons in Hpk. destruct (decide (P r)); [rewrite fmap_cons, filter_cons|];
    destruct (decide (VNull ∉ pk t r)); try (by apply IH);
    apply NoDup_cons in Hpk as [Hn Hpk]; [|by apply IH]. apply NoDup_cons. split; [|by apply IH].
  intros Hin. apply Hn. apply list_elem_of_filter in Hin as [? Hin]. apply list_elem_of_filter. split; [done|].
  apply list_elem_of_fmap in Hin as (r' & -> & [_ Hin]%list_elem_of_filter). by apply list_elem_of_fmap_2.
Qed.

Lemma typed_replace rs r : table_typed enc t rs -> row_typed enc t r -> table_typed enc t (insert_or_replace (pk_len t) r rs).
Proof.
  intros Hrs Hr. apply typed_snoc; [by apply typed_delete|done|].
  intros Hn Hin. apply list_elem_of_fmap in Hin as (r' & Ep & Hin). apply list_elem_of_filter in Hin as [E Hin].
  apply not_true_iff_false in E. apply E. pose proof (tt_rows _ _ _ Hrs) as Hf. rewrite Forall_forall in Hf.
  by apply (same_pk_iff t r r'); [apply Hr|apply Hf|].
Qed.

(** Changing rows without touching their columns. *)
Lemma typed_same_cols rs rs' :
  table_typed enc t rs -> cols <$> rs' = cols <$> rs -> Forall (fun r => cell_typed enc t (cell r)) rs' ->
  table_typed enc t rs'.
Proof.
  intros [Hrs Hpk] Hc Hcell.
  assert (Epk : pk t <$> rs' = pk t <$> rs).
  { change (pk t) with (take (pk_len t) ∘ cols). by rewrite !list_fmap_compose, Hc. }
  split; [|unfold pks in *; by rewrite Epk]. assert (Hl : length rs' = length rs) by (by rewrite <- (length_fmap cols), Hc, length_fmap).
  apply Forall_lookup. intros i r Hi. split; [|by eapply (Forall_lookup_1 _ _ _ _ Hcell)].
  assert (Ei : (cols <$> rs) !! i = Some (cols r)) by (by rewrite <- Hc, list_lookup_fmap, Hi).
  rewrite list_lookup_fmap in Ei. destruct (rs !! i) as [r0|] eqn:E0; [|done]. cbn in Ei. injection Ei as Ei.
  rewrite <- Ei. by eapply (Forall_lookup_1 _ _ _ _ Hrs).
Qed.

Lemma typed_upsert rs r : table_typed enc t rs -> row_typed enc t r -> table_typed enc t (upsert (pk_len t) r rs).
Proof.
  intros Hrs Hr. unfold upsert. destruct (has_pk _ r rs) eqn:E;
    [|apply typed_snoc; [done..|]; by apply has_pk_spec; [|apply Hrs|]].
  split.
  - apply Forall_fmap. eapply Forall_impl; [apply Hrs|]. intros r' Hr'. cbn. by destruct (same_pk _ r r').
  - unfold pks. rewrite <- list_fmap_compose. replace (_ <$> rs) with (pk t <$> rs); [apply Hrs|].
    apply list_fmap_ext. intros i r' Hi. cbn. destruct (same_pk (pk_len t) r r') eqn:Ek; [|done].
    symmetry. apply (same_pk_iff t r r'); [apply Hr|by apply (Forall_lookup_1 _ _ _ _ (tt_rows _ _ _ Hrs) Hi)|done].
Qed.
End tables.

(** ** Calls keep a store typed *)

Lemma cell_typed_blob enc t b : b <> [] -> enc = true \/ t <> PeerNames -> cell_typed enc t (VBlob b).
Proof. intros Hb. destruct t; cbn; try done. intros [->|?]; [by right|done]. Qed.

(** What [bind_blob] binds, and what a NOT NULL column then holds. *)
Lemma has_type_bind b : has_type TBlobOrNull (bind_blob b).
Proof. by destruct b. Qed.

Lemma not_violated t r :
  violates t r = false ->
  (forall i, i ∈ not_null_cols t -> col r i <> VNull) /\ (t <> ChanState -> cell r <> VNull).
Proof.
  unfold violates. intros [Hc Hv]%orb_false_iff. split.
  - intros i Hi E. apply not_true_iff_false in Hc. apply Hc, existsb_exists. exists i. split; [by apply list_elem_of_In|].
    by apply bool_decide_eq_true.
  - intros Ht. rewrite (bool_decide_false (t = ChanState)) in Hv by done. by apply bool_decide_eq_false in Hv.
Qed.

Lemma has_type_kept b : bind_blob b <> VNull -> has_type TBlob (bind_blob b).
Proof. by destruct b. Qed.

(** The type of what is bound for a column, before the constraint is checked. *)
Definition weaken (ty : SqlType) : SqlType := match ty with TBlob => TBlobOrNull | _ => ty end.

Lemma not_null_blobs t i : col_types t !! i = Some TBlob -> i ∈ not_null_cols t.
Proof. destruct t; do 4 (destruct i as [|i]; [cbn; intros; simplify_eq; set_solver|]); done. Qed.

Lemma kept_cols t r :
  Forall2 has_type (weaken <$> col_types t) (cols r) -> violates t r = false -> Forall2 has_type (col_types t) (cols r).
Proof.
  intros Hw [Hv _]%not_violated. apply Forall2_same_length_lookup. rewrite Forall2_fmap_l in Hw.
  split; [by eapply Forall2_length|]. intros i ty v Hi Hc. pose proof (Forall2_lookup_lr _ _ _ _ _ _ Hw Hi Hc) as Ht.
  destruct ty; try done. apply not_null_blobs, Hv in Hi. unfold col in Hi. rewrite Hc in Hi. by destruct v.
Qed.

Lemma cell_typed_enc enc t v : cell_typed enc t v -> cell_typed true t v.
Proof. destruct t; cbn; try done. intros [?|[_ ?]]; [by left|by right]. Qed.

Lemma table_typed_enc enc t rs : table_typed enc t rs -> table_typed true t rs.
Proof.
  intros [Hr Hp]. split; [|done]. eapply Forall_impl; [exact Hr|]. intros r [? Hc]. split; [done|]. by eapply cell_typed_enc.
Qed.

Lemma update_rowids_cols f rs : cols <$> update_rowids (imap f rs) rs = cols <$> rs.
Proof.
  revert f. induction rs as [|r rs IH]; intros f; [done|]. cbn [imap update_rowids zip_with fmap list_fmap].
  fold (update_rowids (imap (f ∘ S) rs) rs). setoid_rewrite IH. by destruct (f 0%nat r).
Qed.

Lemma update_rowids_cells (P : SqlValue -> Prop) f rs :
  (forall i r v, f i r = Some v -> P v) -> Forall (fun r => P (cell r)) rs ->
  Forall (fun r => P (cell r)) (update_rowids (imap f rs) rs).
Proof.
  intros Hf Hrs. revert f Hf. induction Hrs as [|r rs Hr _ IH]; intros f Hf; [constructor|].
  cbn [imap update_rowids zip_with]. constructor; [|apply (IH (f ∘ S)); intros i; apply (Hf (S i))].
  destruct (f 0%nat r) as [v|] eqn:E; [by apply (Hf _ _ _ E)|done].
Qed.

Lemma run_updates_cols us : forall rs, cols <$> run_updates us rs = cols <$> rs.
Proof.
  induction us as [|[w v] us IH]; intros rs; [done|]. cbn [run_updates fold_left fst snd]. fold (run_updates us (update_where w v rs)).
  rewrite IH. unfold update_where. rewrite <- list_fmap_compose. apply list_fmap_ext. intros i r _. cbn. by destruct (matches w r).
Qed.

Lemma run_updates_cells (P : SqlValue -> Prop) us : forall rs,
  Forall (fun u => P u.2) us -> Forall (fun r => P (cell r)) rs -> Forall (fun r => P (cell r)) (run_updates us rs).
Proof.
  induction us as [|[w v] us IH]; intros rs Hus Hrs; [done|]. inversion_clear Hus as [|? ? Hv Hus']. apply IH; [done|].
  unfold update_where. apply Forall_fmap. eapply Forall_impl; [exact Hrs|]. intros r Hr. unfold compose. cbn [fst snd]. destruct (matches w r); [exact Hv|exact Hr].
Qed.

Lemma ids_same_cols n rs rs' :
  cols <$> rs' = cols <$> rs -> Forall (fun r => column_int64 (col r 0) < n) rs -> Forall (fun r => column_int64 (col r 0) < n) rs'.
Proof.
  intros E Hrs. apply (Forall_fmap cols (fun c => column_int64 (default VNull (c !! 0%nat)) < n)).
  rewrite E. by apply Forall_fmap.
Qed.

Section typed_calls.
Context `{Sodium, !SqlPlan}.

Lemma typed_on_table t f s :
  store_typed s -> table_typed (encrypt_at_rest s) t (f (rows s t)) ->
  (t = ChanInbox -> Forall (fun r => column_int64 (col r 0) < chan_inbox_next (db s)) (f (rows s t))) ->
  store_typed (on_table t f s).
Proof using.
  intros [Ht Hn Hm Hk] Hf Hi. constructor; [| |done|done].
  - intros t'. unfold rows, on_table, set_table. cbn. destruct (decide (t' = t)) as [->|]; [done|apply Ht].
  - unfold rows, on_table, set_table. cbn. destruct (decide (ChanInbox = t)) as [<-|]; [by apply Hi|apply Hn].
Qed.

Lemma typed_on_delete t p s : store_typed s -> store_typed (on_table t (delete_where p) s).
Proof using.
  intros Hs. apply typed_on_table; [done|apply typed_delete, Hs|]. intros ->. unfold delete_where.
  pose proof (st_next _ Hs) as Hn. rewrite Forall_forall in *. intros r [_ Hr]%list_elem_of_filter. by apply Hn.
Qed.

Lemma typed_on_plain f s : store_typed s -> store_typed (on_plain f s).
Proof using. by intros []; constructor. Qed.

Lemma typed_row_stored s t c b a n :
  Forall2 has_type (weaken <$> col_types t) c -> t <> PeerNames -> t <> ChanState ->
  violates t (mkRow c (stored s t b a n)) = false -> row_typed (encrypt_at_rest s) t (mkRow c (stored s t b a n)).
Proof using.
  intros Hc Ht Ht' Hv. split; [by apply kept_cols|]. apply not_violated in Hv as [_ Hv]. specialize (Hv Ht'). cbn [cell] in *.
  unfold stored in *. apply has_type_kept in Hv. by destruct t.
Qed.

Lemma typed_insert_row t ins r s :
  (forall rs, table_typed (encrypt_at_rest s) t rs -> row_typed (encrypt_at_rest s) t r -> table_typed (encrypt_at_rest s) t (ins r rs)) ->
  t <> ChanInbox -> (violates t r = false -> row_typed (encrypt_at_rest s) t r) -> store_typed s -> store_typed (insert_row t ins r s).
Proof using.
  intros Hi Ht Hr Hs. unfold insert_row. destruct (violates t r); [done|]. apply typed_on_table; [done| |done].
  apply Hi; [apply Hs|by apply Hr].
Qed.

Lemma typed_save_session now rnd k b s : store_typed s -> store_typed (save_session now rnd k b s).1.
Proof using.
  intros Hs. unfold save_session. cbv zeta. destruct (violates Sessions _) eqn:Ev; [done|]. apply typed_on_table; [done| |done].
  apply (typed_replace _ Sessions); [apply Hs|]. apply typed_row_stored; try done. repeat constructor. apply has_type_bind.
Qed.

Lemma typed_chan_append rnd c k b ts s : store_typed s -> store_typed (chan_append_inbox rnd c k b ts s).
Proof using.
  intros Hs. pose proof Hs as [Ht Hn Hm Hk]. unfold chan_append_inbox. cbv zeta. set (r := mkRow _ _).
  destruct (violates ChanInbox r) eqn:Ev; [done|]. constructor; [| |done|done].
  - intros t. unfold rows, on_table, set_table. cbn. destruct (decide (t = ChanInbox)) as [->|]; [|apply Ht].
    apply typed_snoc; [apply Ht|apply typed_row_stored; try done; repeat constructor; apply has_type_bind|].
    intros _ Hin. apply list_elem_of_fmap in Hin as (r' & Ep & Hr'). rewrite Forall_forall in Hn. specialize (Hn r' Hr').
    unfold pk in Ep. cbn in Ep. unfold col in Hn. destruct (cols r') as [|v l]; [done|]. injection Ep as <-. cbn in Hn. lia.
  - unfold rows, on_table, set_table. cbn. apply Forall_app. split; [|constructor; [cbn; lia|constructor]].
    eapply Forall_impl; [exact Hn|]. cbn. lia.
Qed.

Lemma typed_op_append now rnd c q b s : store_typed s -> store_typed (mls_group_op_append now rnd c q b s).1.
Proof using.
  intros Hs. unfold mls_group_op_append. cbv zeta. set (r := mkRow _ _). destruct (violates MlsLog r) eqn:Ev; [done|].
  assert (Hr : row_typed (encrypt_at_rest s) MlsLog r) by (apply typed_row_stored; try done; repeat constructor; apply has_type_bind).
  destruct (has_pk 2 r (rows s MlsLog)) eqn:E; [done|]. apply typed_on_table; [done| |done].
  apply typed_snoc; [apply Hs|done|]. by apply (has_pk_spec (encrypt_at_rest s) MlsLog); [|apply Hs|].
Qed.

Lemma rewrap_cell_blob enc t o k n r v : enc = true -> rewrap_cell t o k n r = Some v -> cell_typed enc t v.
Proof using.
  intros He. unfold rewrap_cell. destruct (aead_unwrap o _ _); [|done]. intros [= <-].
  apply cell_typed_blob; [apply aead_wrap_nonempty|by left].
Qed.

Lemma typed_rewrapped s t f :
  store_typed s -> (forall i r v, f i r = Some v -> cell_typed (encrypt_at_rest s) t v) ->
  table_typed (encrypt_at_rest s) t (update_rowids (imap f (rows s t)) (rows s t)).
Proof using.
  intros Hs Hf. eapply typed_same_cols; [apply (st_tables _ Hs t)|apply update_rowids_cols|].
  apply (update_rowids_cells (cell_typed (encrypt_at_rest s) t)); [done|].
  eapply Forall_impl; [apply (tt_rows _ _ _ (st_tables _ Hs t))|]. by intros r [].
Qed.

Lemma typed_rotate rnd s : store_typed s -> store_typed (rotate_storage_keys rnd s).2.
Proof using.
  intros Hs. pose proof Hs as [Ht Hn Hm Hk]. unfold rotate_storage_keys. rewrite Hm.
  destruct (encrypt_at_rest s) eqn:He; [|done]. cbn [negb orb snd].
  constructor; [|exact Hn|done|exact Hk]. intros t. unfold rows. cbn [db tables encrypt_at_rest].
  destruct (slot t); [|by apply Ht]. rewrite <- He. apply (typed_rewrapped s); [done|]. intros i r v. by apply rewrap_cell_blob.
Qed.

Lemma typed_ratchet rnd s : store_typed s -> store_typed (ratchet_storage_master rnd s).2.
Proof using.
  intros Hs. pose proof Hs as [Ht Hn Hm Hk]. unfold ratchet_storage_master.
  destruct (encrypt_at_rest s) eqn:He; [|done]. cbn [negb snd]. constructor; [| |done|exact Hk].
  - intros t. unfold rows. cbn [db tables encrypt_at_rest]. rewrite <- He. apply (typed_rewrapped s); [done|]. intros i r v.
    destruct (column_blob (cell r)); [done|]. by apply rewrap_cell_blob.
  - eapply ids_same_cols; [|exact Hn]. apply update_rowids_cols.
Qed.

Lemma migrate_cols v key rnd d t : cols <$> tables (migrate v key rnd d) t = cols <$> tables d t.
Proof using.
  unfold migrate. cbn [tables]. destruct t; try destruct (v <? 2); unfold wrap_table, wrap_chan_inbox; (done || apply run_updates_cols).
Qed.

Lemma migrate_cells v key rnd d t :
  Forall (fun r => cell_typed true t (cell r)) (tables d t) ->
  Forall (fun r => cell_typed true t (cell r)) (tables (migrate v key rnd d) t).
Proof using.
  intros Hd. unfold migrate. cbn [tables].
  assert (Hu : forall us, Forall (fun u => exists b, b <> [] /\ u.2 = VBlob b) us ->
    Forall (fun r => cell_typed true t (cell r)) (run_updates us (tables d t))).
  { intros us Hus. apply (run_updates_cells (cell_typed true t)); [|done]. eapply Forall_impl; [exact Hus|].
    intros u (b & Hb & ->). apply cell_typed_blob; [done|by left]. }
  assert (Hw : forall f k pt a n (rs : list Row), Forall (fun u => exists b, b <> [] /\ u.2 = VBlob b)
     (imap (fun i r => (f i r, VBlob (aead_wrap k (pt i r) (a i r) (n i))) : list (nat * SqlValue) * SqlValue) rs)).
  { intros f k pt a n rs. apply Forall_lookup. intros i u Hi. rewrite list_lookup_imap in Hi.
    destruct (rs !! i) as [r|]; [|done]. injection Hi as <-. eexists. split; [apply aead_wrap_nonempty|done]. }
  destruct t; try destruct (v <? 2); try done; apply Hu;
    apply (Hw (fun i r => _) _ (fun i r => _) (fun i r => _)).
Qed.

Lemma typed_open d key rnd s :
  (forall t, table_typed (negb (bool_decide (key = []))) t (tables d t)) \/ (forall t, table_typed false t (tables d t)) ->
  Forall (fun r => column_int64 (col r 0) < chan_inbox_next d) (tables d ChanInbox) ->
  open d key rnd = Ok s -> store_typed s.
Proof using.
  intros Hd Hn Ho. unfold open in Ho. destruct (bool_decide (key = [])); cbn [negb andb] in *.
  - rewrite andb_true_r in Ho. destruct (_ =? _) in Ho; [done|]. injection Ho as <-.
    constructor; [|done|done|done]. by destruct Hd.
  - assert (Hd' : forall t, table_typed true t (tables d t)).
    { intros t. destruct Hd as [Hd|Hd]; [done|]. eapply table_typed_enc, Hd. }
    destruct (length key =? kKeyLen)%nat eqn:El; [|done]. cbn [negb] in Ho. rewrite andb_false_r in Ho.
    destruct (resolve_master d key) as [[m g]|]; [|done]. injection Ho as <-.
    constructor; cbn [encrypt_at_rest db master_key]; [| |done|].
    + intros t. unfold rows. cbn [db]. destruct (_ <? kSchemaVersionEncrypted); [|done].
      eapply typed_same_cols; [apply Hd'|apply migrate_cols|]. apply migrate_cells.
      eapply Forall_impl; [apply (tt_rows _ _ _ (Hd' t))|]. by intros r [].
    + unfold rows. cbn [db]. destruct (_ <? kSchemaVersionEncrypted); [|done].
      eapply ids_same_cols; [apply migrate_cols|done].
    + intros _. by apply Nat.eqb_eq in El.
Qed.

Lemma typed_run c s : store_typed s -> store_typed (run c s).1.
Proof using.
  intros Hs. destruct c; cbn [run fst]; try done;
    try (unfold remember_peer, set_peer_verified, set_peer_pq_capable, save_shamir_share, record_carry;
         match goal with |- context [if ?b then _ else _] => destruct b end; [done|by apply typed_on_plain]).
  - unfold save_identity. destruct (_ || _); [done|by apply typed_on_plain].
  - pose proof (typed_save_session now random peer_pub blob s Hs) as Ho. by destruct (save_session _ _ _ _ s).
  - apply typed_insert_row; [intros rs; apply (typed_ignore _ Inbox)|done| |done].
    apply typed_row_stored; [repeat constructor; apply has_type_bind|done|done].
  - apply typed_insert_row; [intros rs; apply (typed_ignore _ Outbox)|done| |done].
    apply typed_row_stored; [repeat constructor; apply has_type_bind|done|done].
  - by do 2 apply typed_on_delete.
  - apply typed_insert_row; [intros rs; apply (typed_upsert _ ChanState)|done| |done]. intros Hv. split.
    + apply kept_cols; [|done]. repeat constructor; [apply Directory.c_str_nul|apply has_type_bind].
    + cbn [cell cell_typed]. destruct (_ && _); [apply aead_wrap_nonempty|apply has_type_bind].
  - apply typed_insert_row; [intros rs; apply (typed_upsert _ ChanPeers)|done| |done].
    apply typed_row_stored; [repeat constructor; apply has_type_bind|done|done].
  - by apply typed_chan_append.
  - unfold chan_delete. by repeat apply typed_on_delete.
  - apply typed_insert_row; [intros rs; apply (typed_upsert _ PeerNames)|done| |done]. intros Hv. split.
    + apply kept_cols; [|done]. repeat constructor. apply has_type_bind.
    + cbn [cell]. destruct (encrypt_at_rest s); [apply cell_typed_blob; [apply aead_wrap_nonempty|by left]|].
      left. apply Directory.c_str_nul.
  - apply typed_insert_row; [intros rs; apply (typed_upsert _ MlsState)|done| |done].
    apply typed_row_stored; [repeat constructor; apply has_type_bind|done|done].
  - pose proof (typed_op_append now random channel_id seq op_blob s Hs) as Ho. by destruct (mls_group_op_append _ _ _ _ _ s).
  - by repeat apply typed_on_delete.
  - by apply typed_rotate.
  - by apply typed_ratchet.
  - destruct (open (db s) (process_key s) rnd) as [s'|] eqn:E; [|done]. cbn [fst].
    eapply typed_open; [|apply (st_next _ Hs)|exact E]. pose proof (st_tables _ Hs) as Ht. pose proof (st_key _ Hs) as Hk.
    unfold process_key, rows in *. rewrite (st_master _ Hs). destruct (encrypt_at_rest s); [|by right].
    left. rewrite bool_decide_false; [done|]. intros Em. rewrite Em in Hk. by specialize (Hk eq_refl).
Qed.
End typed_calls.
