(* ===== verification/ClientStoreTheorems.v ===== *)
(** * Opening an older database with a key *)
From S2P Require Import Prelude StdMap Crypto ServerStore Directory UsernameLog Sql ClientStore ClientStoreKeys ClientStoreSim ClientStoreTyped.

(** ** Updates that each touch one row *)

Lemma matches_cols w r r' : cols r = cols r' -> matches w r = matches w r'.
Proof. intros E. apply (related_matches (fun a b => cols a = cols b)); done. Qed.

Definition row_updates (us : list (list (nat * SqlValue) * SqlValue)) (r : Row) : Row :=
  fold_left (fun r u => if matches u.1 r then set_cell u.2 r else r) us r.

Lemma run_updates_rows us : forall rs, run_updates us rs = row_updates us <$> rs.
Proof.
  induction us as [|u us IH]; intros rs; [by rewrite list_fmap_id|]. cbn [run_updates fold_left].
  fold (run_updates us (update_where u.1 u.2 rs)). rewrite IH. unfold update_where. by rewrite <- list_fmap_compose.
Qed.

Lemma row_updates_none us r : Forall (fun u => matches u.1 r = false) us -> row_updates us r = r.
Proof. induction 1 as [|u us Hu _ IH]; [done|]. cbn. fold (row_updates us). rewrite Hu. exact IH. Qed.

Lemma run_updates_none us rs :
  Forall (fun r => Forall (fun u => matches u.1 r = false) us) rs -> run_updates us rs = rs.
Proof.
  intros Hn. rewrite run_updates_rows. rewrite <- (list_fmap_id rs) at 2. apply list_fmap_ext. intros i r Hi.
  apply row_updates_none. by apply (Forall_lookup_1 _ _ _ _ Hn Hi).
Qed.

Lemma run_updates_each (f : nat -> Row -> list (nat * SqlValue) * SqlValue) rs :
  (forall i j ri rj, rs !! i = Some ri -> rs !! j = Some rj -> matches (f i ri).1 rj = true <-> i = j) ->
  run_updates (imap f rs) rs = imap (fun i r => set_cell (f i r).2 r) rs.
Proof.
  intros Hf. rewrite run_updates_rows. apply list_eq. intros i. rewrite list_lookup_fmap, list_lookup_imap.
  destruct (rs !! i) as [r|] eqn:Hi; [|done]. cbn. f_equal.
  assert (Hu : imap f rs !! i = Some (f i r)) by by rewrite list_lookup_imap, Hi.
  assert (Hother : forall j u, imap f rs !! j = Some u -> j <> i -> matches u.1 r = false).
  { intros j u Hj Hne. rewrite list_lookup_imap in Hj. destruct (rs !! j) as [rj|] eqn:Ej; [|done]. injection Hj as <-.
    apply not_true_iff_false. intros E. by apply (Hf j i rj r Ej Hi) in E. }
  rewrite <- (take_drop_middle _ _ _ Hu). unfold row_updates. rewrite fold_left_app. fold (row_updates (take i (imap f rs)) r).
  rewrite (row_updates_none (take i (imap f rs)) r).
  - cbn [fold_left]. rewrite (proj2 (Hf i i r r Hi Hi) eq_refl).
    apply row_updates_none. apply Forall_lookup. intros k u Hk. rewrite lookup_drop in Hk.
    rewrite (matches_cols u.1 (set_cell (f i r).2 r) r eq_refl). eapply Hother; [exact Hk|lia].
  - apply Forall_lookup. intros k u Hk. apply lookup_take_Some in Hk as [Hk Hlt]. eapply Hother; [exact Hk|lia].
Qed.

(** ** What the migration does to each table *)

Definition migrated (t : Tab) : bool := match t with ChanState | MlsState | MlsLog => false | _ => true end.

Section migrate.
Context `{Sodium, !SodiumLaws, !SqlPlan}.

Lemma pks_all t rs : Forall (fun r => VNull ∉ pk t r) rs -> pks t rs = pk t <$> rs.
Proof using.
  unfold pks. induction 1 as [|r rs Hr _ IH]; [done|]. rewrite fmap_cons, filter_cons, decide_True by done. by rewrite IH.
Qed.

Lemma same_pk_index enc t rs i j ri rj :
  table_typed enc t rs -> Forall (fun r => VNull ∉ pk t r) rs -> rs !! i = Some ri -> rs !! j = Some rj ->
  same_pk (pk_len t) ri rj = true <-> i = j.
Proof using.
  intros [Hrs Hpk] Hnn Hi Hj. pose proof (Forall_lookup_1 _ _ _ _ Hnn Hi) as Hni. cbn in Hni. pose proof (Forall_lookup_1 _ _ _ _ Hrs Hi) as [Ti _]. pose proof (Forall_lookup_1 _ _ _ _ Hrs Hj) as [Tj _].
  rewrite (same_pk_iff t ri rj Ti Tj). split; [|intros ->; by simplify_eq].
  assert (Ef : pks t rs = pk t <$> rs) by (by apply pks_all). rewrite Ef in Hpk.
  intros [E _]. eapply (NoDup_lookup _ _ _ (pk t ri) Hpk); rewrite list_lookup_fmap; [by rewrite Hi|by rewrite Hj, E].
Qed.

(** The keys of a row, bound as blobs, are its primary key where that is made of
    blobs. *)
Lemma bound_keys t r :
  migrated t = true -> t <> ChanInbox -> Forall2 has_type (col_types t) (cols r) ->
  (fun c => (c, bind_blob (column_blob (col r c)))) <$> aad_cols t = imap pair (take (pk_len t) (cols r)).
Proof using.
  intros Hm Ht Hr. unfold col. destruct t; try done; cbn in Hr;
    repeat match goal with
    | Hx : Forall2 _ (_ :: _) _ |- _ => apply Forall2_cons_inv_l in Hx as ([| | |[]] & ? & ? & ? & ->); try done
    end.
Qed.

Lemma wrap_table_spec t key rnd rs :
  migrated t = true -> t <> ChanInbox -> table_typed false t rs -> Forall (fun r => VNull ∉ pk t r) rs ->
  wrap_table t key rnd rs =
    imap (fun i r => set_cell (VBlob (aead_wrap key (column_blob (cell r)) (row_aad t r) (rnd i))) r) rs.
Proof using.
  intros Hm Ht Hrs Hnn. unfold wrap_table, wrap_updates.
  assert (Hsel : match t with ChanState => filter (fun r => cell r <> VNull) rs | _ => rs end = rs) by by destruct t.
  rewrite Hsel, run_updates_each.
  - apply imap_ext. intros i r Hi. cbn [snd]. by destruct t.
  - intros i j ri rj Hi Hj. cbn [fst]. rewrite (bound_keys t ri); [by eapply same_pk_index|done|done|].
    by destruct (Forall_lookup_1 _ _ _ _ (tt_rows _ _ _ Hrs) Hi).
Qed.

Lemma wrap_chan_inbox_spec key rnd rs :
  table_typed false ChanInbox rs -> Forall (fun r => VNull ∉ pk ChanInbox r) rs ->
  wrap_chan_inbox key rnd rs =
    imap (fun i r => set_cell (VBlob (aead_wrap key (column_blob (cell r)) (row_aad ChanInbox r) (rnd i))) r) rs.
Proof using.
  intros Hrs Hnn. unfold wrap_chan_inbox. rewrite run_updates_each.
  - apply imap_ext. intros i r Hi. cbn. by rewrite app_nil_r.
  - intros i j ri rj Hi Hj. cbn [fst]. rewrite <- (same_pk_index false ChanInbox rs i j ri rj Hrs Hnn Hi Hj).
    destruct (Forall_lookup_1 _ _ _ _ (tt_rows _ _ _ Hrs) Hi) as [Ti _]. unfold same_pk, col. cbn in Ti.
    apply Forall2_cons_inv_l in Ti as ([] & ? & Hv & ? & ->); done.
Qed.

Lemma wrapped_related key t rnd rs :
  migrated t = true -> table_typed false t rs ->
  Forall2 (row_sim key t)
    (imap (fun i r => set_cell (VBlob (aead_wrap (key t) (column_blob (cell r)) (row_aad t r) (rnd i))) r) rs) rs.
Proof using.
  intros Hm [Hrs _]. apply Forall2_same_length_lookup. split; [by rewrite length_imap|]. intros i r r' Hi Hi'.
  rewrite list_lookup_imap, Hi' in Hi. injection Hi as <-. pose proof (Forall_lookup_1 _ _ _ _ Hrs Hi') as [_ Hc].
  split; [done|]. exists (column_blob (cell r')). split_and!; [| |left; by exists (rnd i)].
  - destruct t; try done; cbn in Hc; try (by destruct (cell r')). destruct Hc as [Hc|[? _]]; [by destruct (cell r')|done].
  - destruct t; try done; cbn in *. destruct Hc as [Hc|[? _]]; [by destruct (cell r')|done].
Qed.

Lemma migrate_related v key rnd d t :
  v < 2 -> migrated t = true -> table_typed false t (tables d t) -> Forall (fun r => VNull ∉ pk t r) (tables d t) ->
  Forall2 (row_sim key t) (tables (migrate v key rnd d) t) (tables d t).
Proof using.
  intros Hv Hm Ht Hnn. unfold migrate. cbn [tables]. apply Z.ltb_lt in Hv. rewrite Hv.
  destruct t; try done; try (rewrite wrap_chan_inbox_spec by done); try (rewrite wrap_table_spec by done);
    by apply wrapped_related.
Qed.

(** The names of channels are text: bound as blobs they match no row. *)
Lemma migrate_unchanged v key rnd d t :
  migrated t = false -> table_typed false t (tables d t) -> tables (migrate v key rnd d) t = tables d t.
Proof using.
  intros Hm [Ht _]. unfold migrate. cbn [tables]. destruct t; try done. unfold wrap_table. apply run_updates_none.
  eapply Forall_impl; [exact Ht|]. intros r [Hr _]. apply Forall_lookup. intros i u Hi. unfold wrap_updates in Hi.
  rewrite list_lookup_imap in Hi. destruct (_ !! i) as [r'|]; [|done]. injection Hi as <-. cbn.
  apply Forall2_cons_inv_l in Hr as ([] & ? & Hty & ? & E); try done. unfold col. rewrite E. cbn.
  by destruct (column_blob _).
Qed.

(** Opening a plaintext database with a key. *)
Lemma open_plaintext p key rnd :
  encrypt_at_rest p = false -> user_version (db p) = 0 -> storage_master_row (db p) = None -> length key = kKeyLen ->
  exists s, open (db p) key rnd = Ok s /\ encrypt_at_rest s = true /\ user_version (db s) = kSchemaVersionEncrypted /\
    db s = migrate 0 (sub_key s) rnd (db p).
Proof using.
  intros He Hv Hm Hk. unfold open, read_user_version. rewrite Hv, Hk.
  rewrite bool_decide_false by (intros E; rewrite E in Hk; done). unfold resolve_master. rewrite Hm.
  eexists. split; [reflexivity|done].
Qed.
End migrate.

(** ** What the client's store guarantees *)
From S2P Require Import Prelude StdMap Crypto ServerStore Directory UsernameLog Sql ClientStore ClientStoreKeys ClientStoreSim ClientStoreTyped.

Section theorems.
Context `{Sodium, !SodiumLaws, !SqlPlan}.

(** C15: a store opened with a key answers every sequence of calls exactly as one
    opened without: sealing rows, rotating table keys, ratcheting the master and
    reopening the file are invisible to the caller.  The calls pass names without a NUL
    byte and non-empty values for the protected columns that are NOT NULL (keys may be
    empty, and a channel may have no distribution); the numbers of rewritten rows are
    not compared. *)
Theorem store_encryption_transparent (key : bytes) (rnd : KeyRandom) (calls : list Call)
    (Hkey : length key = kKeyLen) (Hcalls : Forall call_ok calls) (Hstored : Forall call_stored calls) :
  exists s p, open empty_db key rnd = Ok s /\ open empty_db [] rnd = Ok p /\
    encrypt_at_rest s = true /\ encrypt_at_rest p = false /\
    (run_all calls s).2 = (run_all calls p).2.
Proof.
  destruct (sim_fresh key rnd Hkey) as (s & p & Es & Ep & Hs & _). exists s, p.
  split_and!; [done|done|apply Hs|apply Hs|]. destruct (sim_run_all calls s p Hcalls Hs) as (p' & _ & E). by apply E.
Qed.

(** The condition on empty values is needed: without a key an empty message is bound as
    NULL and not kept and an empty session is refused, with one both are stored. *)
Lemma violates_empty (s : SqliteStore) t c a random :
  t <> ChanState -> existsb (fun i => bool_decide (col (mkRow c VNull) i = VNull)) (not_null_cols t) = false ->
  violates t (mkRow c (stored s t [] a random)) = negb (encrypt_at_rest s).
Proof using.
  intros Ht Hc. unfold violates. rewrite (bool_decide_false (t = ChanState)) by done. unfold col in *. cbn [cols cell] in *.
  rewrite Hc. unfold stored. destruct (encrypt_at_rest s); [|done]. by rewrite bind_nonempty by apply aead_wrap_nonempty.
Qed.

Lemma empty_message_kept_iff_keyed (s : SqliteStore) random id peer ts e :
  id <> [] -> peer <> [] -> has_pk 1 (mkRow [VBlob id] VNull) (rows s Inbox) = false ->
  length (rows (append_inbox_with_expiry random id peer [] ts e s) Inbox) =
    (length (rows s Inbox) + if encrypt_at_rest s then 1 else 0)%nat.
Proof using.
  intros Hi Hp Hpk. unfold append_inbox_with_expiry, append_with_expiry, insert_row. rewrite !bind_nonempty, violates_empty by done.
  destruct (encrypt_at_rest s); cbn [negb]; [|lia]. unfold on_table, rows at 1, set_table. cbn [with_db db with_tables tables].
  rewrite decide_True by done. unfold insert_or_ignore.
  change (has_pk 1 (mkRow (VBlob id :: _) _)) with (has_pk 1 (mkRow [VBlob id] VNull)). rewrite Hpk. apply length_app.
Qed.

Lemma empty_session_refused (s : SqliteStore) now random peer :
  (save_session now random peer [] s).2 = if encrypt_at_rest s then Ok tt else Throw NotNullFailed.
Proof using. unfold save_session. cbv zeta. rewrite violates_empty by done. by destruct (encrypt_at_rest s). Qed.

(** ** At rest *)

Lemma insert_row_master t ins r s : master_key (insert_row t ins r s) = master_key s.
Proof using. unfold insert_row. by destruct (violates t r). Qed.

Lemma run_master_key c s p : call_ok c -> sim s p -> master_key (run c s).1 = master_key s.
Proof using.
  intros Hc Hs. destruct c; cbn [run fst]; try done; try apply insert_row_master;
    try (unfold save_identity, save_session, remember_peer, set_peer_verified, set_peer_pq_capable, save_shamir_share, record_carry,
           chan_append_inbox, mls_group_op_append; cbv zeta;
         match goal with |- context [if ?b then _ else _] => destruct b end; done).
  - unfold mls_group_op_append. cbv zeta. destruct (violates _ _); [done|]. by destruct (has_pk _ _ _).
  - unfold rotate_storage_keys. by destruct (_ || _).
  - unfold ratchet_storage_master. by destruct (negb _).
  - destruct Hs. by rewrite open_keyed.
Qed.

Lemma run_all_master_key cs : forall s p,
  Forall call_ok cs -> sim s p -> master_key (run_all cs s).1 = master_key s.
Proof.
  induction cs as [|c cs IH]; intros s p Hcs Hs; [done|]. inversion_clear Hcs as [|? ? Hc Hcs']. cbn [run_all].
  pose proof (run_master_key c s p Hc Hs) as Em. destruct (sim_run c s p Hc Hs) as (p1 & Hs1 & _).
  destruct (run c s) as [s1 a]. cbn [fst] in *. rewrite <- Em, <- (IH s1 p1) by done.
  by destruct (run_all cs s1).
Qed.

(** What a history of calls leaves: a related unencrypted store exists, and the key
    given to [open] is still the one that unlocks the file. *)
Lemma reached_sim key rnd calls s0 :
  length key = kKeyLen -> Forall call_ok calls -> open empty_db key rnd = Ok s0 ->
  exists p, sim (run_all calls s0).1 p /\ master_key (run_all calls s0).1 = key.
Proof.
  intros Hkey Hcalls Ho. destruct (sim_fresh key rnd Hkey) as (s & p & Es & _ & Hs & Hm).
  rewrite Ho in Es. injection Es as ->. destruct (sim_run_all calls s p Hcalls Hs) as (p' & Hs' & _). exists p'. split; [done|].
  by rewrite (run_all_master_key calls s p).
Qed.

Lemma sim_sealed s p t r : sim s p -> r ∈ rows s t -> exists pt, sealed (sub_key s) t r pt.
Proof using.
  intros Hs Hr. apply list_elem_of_lookup in Hr as [i Hi].
  destruct (Forall2_lookup_l _ _ _ _ _ (sim_rows _ _ Hs t) Hi) as (r' & _ & _ & pt & _ & _ & Hseal). by exists pt.
Qed.

(** C16: at every moment of a keyed store's life each protected value on disk is
    sealed under the current key of its table with the data of its own row (the only
    other value is the NULL of a channel without a distribution), and opening
    the file again with the same key finds those keys and that data. *)
Theorem store_sealed_at_rest (key : bytes) (rnd rnd' : KeyRandom) (calls : list Call) (s0 : SqliteStore)
    (Hkey : length key = kKeyLen) (Hcalls : Forall call_ok calls) (Hopen : open empty_db key rnd = Ok s0) :
  let s := (run_all calls s0).1 in
  (forall t r, r ∈ rows s t -> exists pt, sealed (sub_key s) t r pt) /\
  exists s', open (db s) key rnd' = Ok s' /\ db s' = db s /\ (forall t, sub_key s' t = sub_key s t) /\
    storage_master s' = storage_master s /\ storage_master_generation s' = storage_master_generation s /\
    storage_keys_generation s' = storage_keys_generation s.
Proof.
  destruct (reached_sim key rnd calls s0 Hkey Hcalls Hopen) as (p & Hs & Hm). cbv zeta.
  set (s := (run_all calls s0).1) in *. split; [intros t r; by eapply sim_sealed|].
  pose proof (open_keyed s rnd' (sim_enc _ _ Hs) (sim_have _ _ Hs) (sim_key _ _ Hs) (sim_version _ _ Hs) (sim_keys _ _ Hs)) as Eo.
  unfold process_key in Eo. rewrite (sim_have _ _ Hs), Hm in Eo. eexists. split; [exact Eo|].
  split_and!; try done. apply (sim_keys _ _ Hs).
Qed.

(** An unlimited read of a keyed store returns every message of the inbox, none
    skipped for want of its key. *)
Lemma recent_inbox_complete `{!SqlPlanLaws} key rnd calls s0 :
  length key = kKeyLen -> Forall call_ok calls -> open empty_db key rnd = Ok s0 ->
  let s := (run_all calls s0).1 in
  ir_envelope_id <$> recent_inbox (2 ^ 64 - 1) s ≡ₚ (fun r => column_blob (col r 0)) <$> rows s Inbox.
Proof.
  intros Hkey Hcalls Hopen. destruct (reached_sim key rnd calls s0 Hkey Hcalls Hopen) as (p & Hs & _). cbv zeta.
  set (s := (run_all calls s0).1) in *. unfold recent_inbox. change (sql_limit (i64 (2 ^ 64 - 1)) ?l) with l.
  rewrite (ordered_perm SelInbox (rows s Inbox)).
  induction (sim_rows _ _ Hs Inbox) as [|r r' rs rs' Hr _ IH]; [done|].
  destruct (row_sim_unstored s p Inbox r r' (sim_sim_on _ _ _ Hs) ltac:(done) Hr) as [E _].
  rewrite row_aad_first in E by done. cbn. unfold read_message at 1. rewrite E. cbn. by constructor.
Qed.

(** ** The ratchet of the master *)

Definition nonempty_cell (r : Row) : bool := match column_blob (cell r) with [] => false | _ => true end.

Lemma updates_rewrap key k' t rnd rs :
  Forall (fun r => exists pt, sealed key t r pt) rs ->
  updates (rewrap t (key t) k' rnd rs) = length (filter (fun r => nonempty_cell r = true) rs).
Proof.
  intros Hrs. revert rnd. induction Hrs as [|r rs [pt Hr] _ IH]; intros rnd; [done|].
  unfold rewrap. cbn [imap]. unfold updates in *. rewrite filter_cons.
  destruct Hr as [[n En]|(_ & _ & En)].
  - assert (Ene : nonempty_cell r = true /\ exists b l, aead_wrap (key t) pt (row_aad t r) n = b :: l).
    { unfold nonempty_cell. rewrite En. cbn [column_blob]. destruct (aead_wrap _ _ _ _) eqn:Ew; [by apply aead_wrap_nonempty in Ew|eauto]. }
    destruct Ene as [Ene (b & l & Ew)]. rewrite decide_True by done. unfold rewrap_cell. rewrite En. cbn [column_blob].
    rewrite aead_unwrap_wrap, Ew. cbn. f_equal. apply (IH (rnd ∘ S)).
  - rewrite decide_False by (unfold nonempty_cell; rewrite En; done). rewrite En. cbn. apply (IH (rnd ∘ S)).
Qed.

(** C26: a ratchet leaves nothing behind: it rewrites every non-empty protected
    value of all nine tables (and reports their number), afterwards each is sealed
    under a key derived from the fresh master alone, the overrides of earlier
    rotations are gone, and the wrapped master on disk is the fresh one. *)
Theorem ratchet_rekeys_everything (key : bytes) (rnd rnd' : KeyRandom) (calls : list Call) (s0 : SqliteStore)
    (Hkey : length key = kKeyLen) (Hcalls : Forall call_ok calls) (Hopen : open empty_db key rnd = Ok s0) :
  let s := (run_all calls s0).1 in
  let '(n, s') := ratchet_storage_master rnd' s in
  let fresh := array kKeyLen (rk_master rnd') in
  n = sum_list ((fun t => length (filter (fun r => nonempty_cell r = true) (rows s t))) <$> all_tabs) /\
  (forall t r, r ∈ rows s' t -> exists pt, sealed (fun t => derive_table_key fresh (table_info t)) t r pt) /\
  storage_keys (db s') = ∅ /\
  resolve_master (db s') key = Ok (fresh, u64 (storage_master_generation s + 1)).
Proof.
  destruct (reached_sim key rnd calls s0 Hkey Hcalls Hopen) as (p & Hs & Hm). cbv zeta.
  set (s := (run_all calls s0).1) in *. pose proof (sim_ratchet rnd' s p Hs) as Hs'.
  destruct (ratchet_storage_master rnd' s) as [n s'] eqn:E. cbn [snd] in Hs'. unfold ratchet_storage_master in E.
  rewrite (sim_enc _ _ Hs) in E. cbn [negb] in E. apply pair_eq in E as [<- E].
  assert (Hsub : sub_key s' = fun t => derive_table_key (array kKeyLen (rk_master rnd')) (table_info t)) by by rewrite <- E.
  split_and!.
  - f_equal. apply list_fmap_ext. intros i t _. apply updates_rewrap. apply Forall_forall.
    intros r Hr. by eapply sim_sealed.
  - intros t r Hr. rewrite <- Hsub. by eapply sim_sealed.
  - by rewrite <- E.
  - pose proof (kod_master _ (sim_keys _ _ Hs')) as Hk. rewrite <- E in Hk |- *.
    cbn [master_key storage_master storage_master_generation] in Hk. rewrite Hm in Hk |- *. exact Hk.
Qed.

(** ** Types *)

Lemma typed_run_all cs : forall s, store_typed s -> store_typed (run_all cs s).1.
Proof using.
  induction cs as [|c cs IH]; intros s Hs; [done|]. cbn [run_all].
  pose proof (typed_run c s Hs) as Hone. destruct (run c s) as [s1 a]. cbn [fst] in Hone. specialize (IH s1 Hone).
  by destruct (run_all cs s1).
Qed.

Lemma typed_fresh key rnd s : open empty_db key rnd = Ok s -> store_typed s.
Proof using. intros Ho. eapply typed_open; [right| |exact Ho]; [intros t; by split; constructor|constructor]. Qed.

(** C36: with or without a key, and whatever calls are made with whatever bytes, the
    rows of every table keep the number and the storage classes of the columns of the
    schema: text without a NUL byte, blobs that are not empty, and NULL only in the
    single-column blob keys and in a channel's distribution.  The protected column is
    otherwise a blob or, for names kept in the clear, text.  No two rows of a table
    share a primary key, rows with a NULL key apart. *)
Theorem store_rows_typed (key : bytes) (rnd : KeyRandom) (calls : list Call) (s0 : SqliteStore)
    (Hopen : open empty_db key rnd = Ok s0) (t : Tab) :
  table_typed (encrypt_at_rest (run_all calls s0).1) t (rows (run_all calls s0).1 t).
Proof. apply st_tables, typed_run_all. by eapply typed_fresh. Qed.

(** ** Migration *)

(** A store opened without a key stays what it is. *)
Record plaintext_store (p : SqliteStore) : Prop := {
  ps_enc : encrypt_at_rest p = false;
  ps_have : have_master p = false;
  ps_version : user_version (db p) = 0;
  ps_master : storage_master_row (db p) = None;
}.

Lemma plaintext_insert_row t ins r p : plaintext_store p -> plaintext_store (insert_row t ins r p).
Proof using. intros [He Hh Hv Hm]. unfold insert_row. by destruct (violates t r). Qed.

Lemma plaintext_run c p : plaintext_store p -> plaintext_store (run c p).1.
Proof using.
  intros Hp. pose proof Hp as [He Hh Hv Hm]. destruct c; cbn [run fst]; try (by apply plaintext_insert_row); try (by constructor);
    try (unfold save_identity, save_session, remember_peer, set_peer_verified, set_peer_pq_capable, save_shamir_share, record_carry,
           chan_append_inbox; cbv zeta;
         match goal with |- context [if ?b then _ else _] => destruct b end; by constructor).
  - unfold mls_group_op_append. cbv zeta. destruct (violates _ _); [done|]. destruct (has_pk _ _ _); by constructor.
  - unfold rotate_storage_keys. rewrite He. by constructor.
  - unfold ratchet_storage_master. rewrite He. by constructor.
  - unfold open, process_key, read_user_version. rewrite Hh, Hv. by constructor.
Qed.

Lemma plaintext_run_all cs : forall p, plaintext_store p -> plaintext_store (run_all cs p).1.
Proof using.
  induction cs as [|c cs IH]; intros p Hp; [done|]. cbn [run_all].
  pose proof (plaintext_run c p Hp) as Hone. destruct (run c p) as [p1 a]. cbn [fst] in Hone. specialize (IH p1 Hone).
  by destruct (run_all cs p1).
Qed.

Lemma migrate_reached (key : bytes) rnd0 rnd calls p0 :
  length key = kKeyLen -> open empty_db [] rnd0 = Ok p0 ->
  let p := (run_all calls p0).1 in
  exists s, open (db p) key rnd = Ok s /\ user_version (db s) = kSchemaVersionEncrypted /\
    (forall t, migrated t = true -> Forall (fun r => VNull ∉ pk t r) (rows p t) -> sim_on t s p) /\
    encrypt_at_rest p = false /\ encrypt_at_rest s = true /\
    (forall t, migrated t = false -> rows s t = rows p t) /\
    plain (db s) = plain (db p).
Proof using.
  intros Hk Ho p. assert (Hp : plaintext_store p).
  { apply plaintext_run_all. injection Ho as <-. by constructor. }
  pose proof (typed_run_all calls p0 (typed_fresh _ _ _ Ho)) as Ht. fold p in Ht.
  destruct Hp as [He Hh Hv Hm]. destruct (open_plaintext p key rnd He Hv Hm Hk) as (s & Es & Hes & Hvs & Hdb).
  exists s. split_and!; [done|done| |done|done| |by rewrite Hdb].
  - intros t Hmt Hnn. constructor; [done|done|]. unfold rows. rewrite Hdb. apply migrate_related; [done..| |done].
    pose proof (st_tables _ Ht t) as Htt. by rewrite He in Htt.
  - intros t Hmt. unfold rows. rewrite Hdb. apply migrate_unchanged; [done|].
    pose proof (st_tables _ Ht t) as Htt. by rewrite He in Htt.
Qed.

(** Giving a key to a database that was kept in the clear encrypts it in place:
    afterwards messages, sessions, the keys of channel members, channel messages and
    names read exactly as before, each sealed on disk, provided no row of these tables
    has a NULL key (the updates find rows by key). *)
Theorem migration_keeps_messages (key : bytes) (rnd0 rnd : KeyRandom) (calls : list Call) (p0 : SqliteStore)
    (Hkey : length key = kKeyLen) (Hopen : open empty_db [] rnd0 = Ok p0)
    (Hkeys : forall t, migrated t = true -> Forall (fun r => VNull ∉ pk t r) (rows (run_all calls p0).1 t)) :
  let p := (run_all calls p0).1 in
  exists s, open (db p) key rnd = Ok s /\ user_version (db s) = kSchemaVersionEncrypted /\
    (forall t r, migrated t = true -> r ∈ rows s t -> exists pt, sealed (sub_key s) t r pt) /\
    (forall l, recent_inbox l s = recent_inbox l p) /\ (forall l, recent_outbox l s = recent_outbox l p) /\
    (forall k, load_session k s = load_session k p) /\ (forall c, chan_peers c s = chan_peers c p) /\
    (forall c l, chan_recent_inbox c l s = chan_recent_inbox c l p) /\
    (forall k, peer_name k s = peer_name k p) /\ all_cached_peers s = all_cached_peers p.
Proof.
  destruct (migrate_reached key rnd0 rnd calls p0 Hkey Hopen) as (s & Es & Hv & Hon' & _). intros p. fold p in Es, Hon', Hkeys.
  assert (Hon : forall t, migrated t = true -> sim_on t s p) by (intros t Ht; by apply Hon', Hkeys).
  exists s. split_and!; [done|done|..].
  - intros t r Ht Hr. apply list_elem_of_lookup in Hr as [i Hi].
    destruct (Forall2_lookup_l _ _ _ _ _ (so_rows _ _ _ (Hon t Ht)) Hi) as (r' & _ & _ & pt & _ & _ & Hseal). by exists pt.
  - intros l. by apply (sim_messages s p Inbox (Hon Inbox eq_refl)).
  - intros l. by apply (sim_messages s p Outbox (Hon Outbox eq_refl)).
  - intros k. by apply (sim_lookup s p Sessions (Hon Sessions eq_refl)).
  - intros c. by apply sim_chan_peers, Hon.
  - intros c l. by apply sim_chan_inbox, Hon.
  - intros k. by apply sim_peer_name, Hon.
  - by apply sim_cached_peers, Hon.
Qed.

Definition forget_dist (c : ChannelRow) : ChannelRow := mkChannelRow (cr_name c) (cr_channel_id c) [] (cr_crypto c).

(** The same migration misses three tables: the channels' distributions and the
    MLS seeds and logs stay on disk in the clear in a database now marked encrypted.
    The store then takes them for sealed values: unless such bytes happen to open
    under the table's key, every channel comes back without its distribution, and
    loading a group whose seed is stored fails. *)
Theorem migration_misses_channels (key : bytes) (rnd0 rnd : KeyRandom) (calls : list Call) (p0 : SqliteStore)
    (Hkey : length key = kKeyLen) (Hopen : open empty_db [] rnd0 = Ok p0) :
  let p := (run_all calls p0).1 in
  exists s, open (db p) key rnd = Ok s /\ user_version (db s) = kSchemaVersionEncrypted /\
    rows s ChanState = rows p ChanState /\ rows s MlsState = rows p MlsState /\ rows s MlsLog = rows p MlsLog /\
    (Forall (fun r => aead_unwrap (sub_key s ChanState) (column_blob (cell r)) (column_text (col r 0)) = None) (rows p ChanState) ->
     chan_list s = forget_dist <$> chan_list p) /\
    (forall c r, select_where [(0%nat, bind_blob c)] (rows p MlsState) = [r] ->
       aead_unwrap (sub_key s MlsState) (column_blob (cell r)) c = None ->
       mls_group_load c s = Throw SeedVerifyFailed).
Proof.
  destruct (migrate_reached key rnd0 rnd calls p0 Hkey Hopen) as (s & Es & Hv & _ & Hpe & Hse & Hun & _).
  intros p. fold p in Es, Hun, Hpe. exists s. split_and!; [done|done|by apply Hun|by apply Hun|by apply Hun| |].
  - intros Hnone. unfold chan_list. rewrite (Hun ChanState) by done. rewrite <- list_fmap_compose.
    apply list_fmap_ext. intros i r Hi. cbn [compose]. unfold forget_dist, read_channel, compose. rewrite Hse, Hpe. cbn [andb].
    cbn [cr_name cr_channel_id cr_crypto]. f_equal. case_bool_decide as Hc; cbn [negb]; [by rewrite Hc|].
    assert (Hr : r ∈ rows p ChanState).
    { apply list_elem_of_lookup_2 in Hi. unfold ordered in Hi. apply list_elem_of_omap in Hi as (j & _ & Hj).
      by eapply list_elem_of_lookup_2. }
    rewrite Forall_forall in Hnone. by rewrite (Hnone r Hr).
  - intros c r Hr Hn. unfold mls_group_load. rewrite (Hun MlsState), Hr by done. unfold unstored. by rewrite Hse, Hn.
Qed.
End theorems.

(** ** The client's store on concrete data *)
From S2P Require Import Prelude StdMap Crypto Toy Sql ClientStore ClientStoreKeys ClientStoreSim ClientStoreTyped.

(** Rows in the order of the table. *)
#[export] Instance toy_plan : SqlPlan := fun _ cs => seq 0 (length cs).

Definition w_key : bytes := replicate 32 (z2b 7).
Definition w_rnd (k : Z) : KeyRandom :=
  mkKeyRandom (fun _ => replicate 32 (z2b k)) (replicate 32 (z2b (k + 1))) (fun _ i => [z2b (Z.of_nat i)]) (fun _ => []) [].

(** Two messages, a session, a channel without a distribution and one with, a name and an
    MLS group; then a rotation, a
    ratchet, a restart and a read of everything. *)
Definition w_writes : list Call := [
  AppendInbox [] (str "e1") (str "bob") (str "hello") 10 0;
  AppendInbox [] (str "e2") (str "bob") (str "soon gone") 20 30;
  ChanSave [] (str "new room") (str "cid2") [] kMls;
  SaveSession 5 [] (str "bob") (str "state");
  ChanSave [] (str "room") (str "cid") (str "dist") kMls;
  ChanSavePeer [] (str "cid") (str "bob") (str "peerdist");
  ChanAppendInbox [] (str "cid") (str "bob") (str "hi all") 11;
  CachePeerName 6 [] (str "bob") (str "Bob");
  MlsGroupSave 6 [] (str "cid") (str "seed");
  MlsGroupOpAppend 7 [] (str "cid") 0 (str "op0")].

Definition w_reads : list Call := [
  RecentInbox 10; LoadSession (str "bob"); ChanList; ChanPeersOf (str "cid"); ChanRecentInbox (str "cid") 10;
  PeerName (str "bob"); MlsGroupLoad (str "cid")].

Definition w_calls : list Call :=
  w_writes ++ [RotateStorageKeys (w_rnd 1); RatchetStorageMaster (w_rnd 2); Reopen (w_rnd 3); PruneExpired 40] ++ w_reads.

Definition w_store (key : bytes) : SqliteStore :=
  match open empty_db key (w_rnd 0) with
  | Ok s => s
  | Throw _ => mkSqliteStore empty_db false (fun _ => []) [] false [] 0 0
  end.

Lemma w_open_keyed : open empty_db w_key (w_rnd 0) = Ok (w_store w_key).
Proof. destruct (sim_fresh w_key (w_rnd 0) eq_refl) as (s & p & E & _). unfold w_store. by rewrite E. Qed.

Lemma w_open_plain : open empty_db [] (w_rnd 0) = Ok (w_store []).
Proof. destruct (sim_fresh w_key (w_rnd 0) eq_refl) as (s & p & _ & E & _). unfold w_store. by rewrite E. Qed.

Lemma w_calls_ok : Forall call_ok w_calls.
Proof. apply (bool_decide_unpack _). vm_compute. exact I. Qed.

Lemma w_calls_stored : Forall call_stored w_calls.
Proof. apply (bool_decide_unpack _). vm_compute. exact I. Qed.

Lemma store_encryption_transparent_witness :
  exists s p, open empty_db w_key (w_rnd 0) = Ok s /\ open empty_db [] (w_rnd 0) = Ok p /\
    encrypt_at_rest s = true /\ encrypt_at_rest p = false /\ (run_all w_calls s).2 = (run_all w_calls p).2.
Proof.
  apply (store_encryption_transparent w_key (w_rnd 0) w_calls); [reflexivity|exact w_calls_ok|exact w_calls_stored].
Defined.

Lemma store_sealed_at_rest_witness :
  let s := (run_all w_calls (w_store w_key)).1 in
  (forall t r, r ∈ rows s t -> exists pt, sealed (sub_key s) t r pt) /\
  exists s', open (db s) w_key (w_rnd 9) = Ok s' /\ db s' = db s /\ (forall t, sub_key s' t = sub_key s t) /\
    storage_master s' = storage_master s /\ storage_master_generation s' = storage_master_generation s /\
    storage_keys_generation s' = storage_keys_generation s.
Proof.
  apply (store_sealed_at_rest w_key (w_rnd 0) (w_rnd 9) w_calls (w_store w_key)); [reflexivity|exact w_calls_ok|exact w_open_keyed].
Defined.

Lemma ratchet_rekeys_everything_witness :
  let s := (run_all w_writes (w_store w_key)).1 in
  let '(n, s') := ratchet_storage_master (w_rnd 4) s in
  n = sum_list ((fun t => length (filter (fun r => nonempty_cell r = true) (rows s t))) <$> all_tabs).
Proof.
  pose proof (ratchet_rekeys_everything w_key (w_rnd 0) (w_rnd 4) w_writes (w_store w_key) eq_refl) as T.
  assert (Forall call_ok w_writes) as Hok by exact (proj1 (proj1 (Forall_app _ _ _) w_calls_ok)).
  specialize (T Hok w_open_keyed). cbv zeta in T |- *.
  destruct (ratchet_storage_master (w_rnd 4) (run_all w_writes (w_store w_key)).1) as [n s']. exact (proj1 T).
Defined.

Lemma store_rows_typed_witness :
  table_typed (encrypt_at_rest (run_all w_calls (w_store w_key)).1) Inbox (rows (run_all w_calls (w_store w_key)).1 Inbox).
Proof. exact (store_rows_typed w_key (w_rnd 0) w_calls (w_store w_key) w_open_keyed Inbox). Defined.

Lemma migration_keeps_messages_witness :
  exists s, open (db (run_all w_writes (w_store [])).1) w_key (w_rnd 5) = Ok s /\
    recent_inbox 10 s = recent_inbox 10 (run_all w_writes (w_store [])).1.
Proof.
  assert (Hkeys : forall t, migrated t = true -> Forall (fun r => VNull ∉ pk t r) (rows (run_all w_writes (w_store [])).1 t)).
  { intros t _. destruct t; apply (bool_decide_unpack _); vm_compute; exact I. }
  destruct (migration_keeps_messages w_key (w_rnd 0) (w_rnd 5) w_writes (w_store []) eq_refl w_open_plain Hkeys)
    as (s & Hs & _ & _ & Hin & _).
  exists s. split; [exact Hs|exact (Hin 10)].
Defined.

(** The channel loses its distribution, the group its seed. *)
Lemma migration_misses_channels_witness :
  exists s, open (db (run_all w_writes (w_store [])).1) w_key (w_rnd 5) = Ok s /\
    chan_list s = [mkChannelRow (str "new room") (str "cid2") [] kMls; mkChannelRow (str "room") (str "cid") [] kMls] /\
    mls_group_load (str "cid") s = Throw SeedVerifyFailed.
Proof.
  destruct (migration_misses_channels w_key (w_rnd 0) (w_rnd 5) w_writes (w_store []) eq_refl w_open_plain)
    as (s & Hs & _ & _ & _ & _ & Hchan & Hmls).
  exists s. split; [exact Hs|]. assert (Hshort : forall k b a, (length b < 40)%nat -> aead_unwrap k b a = None).
  { intros k b a Hb. unfold aead_unwrap. apply Nat.ltb_lt in Hb. unfold kXNonce, kXTag. cbn [Nat.add]. rewrite Hb. reflexivity. }
  split.
  - rewrite Hchan; [vm_compute; reflexivity|]. do 2 (constructor; [apply Hshort; vm_compute; lia|]). constructor.
  - eapply Hmls; [vm_compute; reflexivity|]. apply Hshort. vm_compute. lia.
Defined.

(** A message without an envelope id has a NULL key: its update matches no row, and it
    stays in the clear, unreadable to the store that now expects sealed values. *)
Lemma migration_misses_null_keys :
  let p := (run_all [AppendInbox [] [] (str "bob") (str "hello") 10 0] (w_store [])).1 in
  exists s, open (db p) w_key (w_rnd 5) = Ok s /\ user_version (db s) = kSchemaVersionEncrypted /\
    rows s Inbox = [mkRow [VNull; VBlob (str "bob"); VInt 10; VInt 0] (VBlob (str "hello"))] /\ recent_inbox 10 s = [].
Proof.
  intros p. destruct (open_plaintext p w_key (w_rnd 5) eq_refl eq_refl eq_refl eq_refl) as (s & Es & He & Hv & Hdb).
  exists s. assert (Er : rows s Inbox = [mkRow [VNull; VBlob (str "bob"); VInt 10; VInt 0] (VBlob (str "hello"))])
    by (unfold rows; rewrite Hdb; reflexivity).
  split_and!; [exact Es|exact Hv|exact Er|]. unfold recent_inbox. rewrite Er. unfold read_message, unstored.
  change (sql_limit _ _) with [mkRow [VNull; VBlob (str "bob"); VInt 10; VInt 0] (VBlob (str "hello"))].
  cbn [omap list_omap cell column_blob]. rewrite He. reflexivity.
Qed.
