(* ===== verification/ClientProto.v ===== *)
(** * What clients put into envelopes ([src/core/proto/dm_payload.proto] and the
    packing helpers of [src/client-desktop/src/chat_client.cpp])

    The generated codec is a parameter.  A [string] field of proto3 is accepted by
    the parser only when it is valid UTF-8, which [pb_ok] says of text. *)
From S2P Require Import Prelude Crypto Username SenderKeys Wire Handshake.
Import SenderKeys.

Definition kProtocolVersion : Z := 1.
Definition kAes256Gcm : Z := 1.
Definition kMaxInlineAttachmentBytes : Z := 256 * 1024.

(** ** Payloads *)

Record TrackBinding := mkTrackBinding {
  tb_mid : bytes;
  tb_sender_pubkey : bytes;
}.

Record MediaSignal := mkMediaSignal {
  ms_call_id : bytes;
  ms_kind : Z;
  ms_payload : bytes;
  ms_epoch : Z;
  ms_track_bindings : list TrackBinding;
  ms_pq_ct : bytes;
}.

(** The oneof [body]. *)
Inductive DmBody :=
  | BNotSet
  | BText (text : bytes)
  | BChannelKey (channel_id channel_name : bytes) (distribution : SenderKeysDistribution)
  | BMediaSignal (m : MediaSignal)
  | BMlsInviteRequest (channel_id channel_name : bytes)
  | BMlsKeyPackage (channel_id key_package : bytes)
  | BMlsWelcome (channel_id channel_name welcome : bytes)
  | BMlsCommit (channel_id commit : bytes)
  | BMlsProposal (channel_id proposal : bytes)
  | BAttachment (mime_type filename content : bytes)
  | BRoomKey (room_id : bytes) (epoch : Z) (secret : bytes)
  | BShamirSharePush (share : bytes) (setup_id threshold total : Z) (label : bytes)
  | BShamirShareRequest (setup_id : Z) (reason : bytes).

Record DmPayload := mkDmPayload {
  dm_body : DmBody;
  sealed_sender_pubkey : bytes;
  sealed_sender_sig : bytes;
  ttl_ms : Z;
}.

Definition body_ok (b : DmBody) : Prop :=
  match b with
  | BNotSet | BMlsKeyPackage _ _ | BMlsCommit _ _ | BMlsProposal _ _ => True
  | BText t => utf8_valid t = true
  | BChannelKey _ n d => utf8_valid n = true /\ is_u32 (skd_start_index d)
  | BMediaSignal m =>
      is_u32 (ms_kind m) /\ is_u32 (ms_epoch m) /\ Forall (fun t => utf8_valid (tb_mid t) = true) (ms_track_bindings m)
  | BMlsInviteRequest _ n | BMlsWelcome _ n _ => utf8_valid n = true
  | BAttachment m f _ => utf8_valid m = true /\ utf8_valid f = true
  | BRoomKey _ e _ => is_u32 e
  | BShamirSharePush _ i t n l => is_u64 i /\ is_u32 t /\ is_u32 n /\ utf8_valid l = true
  | BShamirShareRequest i r => is_u64 i /\ utf8_valid r = true
  end.

#[export] Instance dm_fields : ProtoFields DmPayload := fun p => body_ok (dm_body p) /\ is_u64 (ttl_ms p).

(** A default message with its body set. *)
Definition dm_of (b : DmBody) : DmPayload := mkDmPayload b [] [] 0.

Definition envelope_aad_bytes (envelope_id : bytes) (timestamp_ms : Z) : bytes := envelope_id ++ be_bytes 8 timestamp_ms.

Section pack.
Context `{!Sodium, !Ed25519, !EdCurve, !PqCrypto, !ProtoMsg DmPayload, !ProtoMsg SenderKeysDistribution}.

Definition pack_text_payload (text : bytes) : bytes := pb_serialize (dm_of (BText text)).

Definition pack_shamir_push_payload (share : bytes) (setup_id threshold total : Z) (label : bytes) : bytes :=
  pb_serialize (dm_of (BShamirSharePush share setup_id threshold total label)).

Definition pack_shamir_request_payload (setup_id : Z) (reason : bytes) : bytes :=
  pb_serialize (dm_of (BShamirShareRequest setup_id reason)).

Definition pack_attachment_payload (mime filename content : bytes) : bytes :=
  pb_serialize (dm_of (BAttachment mime filename content)).

Definition pack_media_signal_payload (m : MediaSignal) : bytes := pb_serialize (dm_of (BMediaSignal m)).

Definition pack_channel_key_payload (channel_id channel_name distribution_blob : bytes) : bytes :=
  match pb_parse (M := SenderKeysDistribution) distribution_blob with
  | None => []
  | Some d => pb_serialize (dm_of (BChannelKey channel_id channel_name d))
  end.

Definition pack_mls_invite_request_payload (channel_id channel_name : bytes) : bytes :=
  pb_serialize (dm_of (BMlsInviteRequest channel_id channel_name)).
Definition pack_mls_key_package_payload (channel_id kp : bytes) : bytes :=
  pb_serialize (dm_of (BMlsKeyPackage channel_id kp)).
Definition pack_mls_welcome_payload (channel_id channel_name welcome : bytes) : bytes :=
  pb_serialize (dm_of (BMlsWelcome channel_id channel_name welcome)).
Definition pack_mls_commit_payload (channel_id commit : bytes) : bytes :=
  pb_serialize (dm_of (BMlsCommit channel_id commit)).
Definition pack_mls_proposal_payload (channel_id proposal : bytes) : bytes :=
  pb_serialize (dm_of (BMlsProposal channel_id proposal)).

(** Bytes that do not parse are left as they are. *)
Definition seal_dm_payload (dm_bytes : bytes) (i : Identity) (envelope_id : bytes) (timestamp_ms : Z)
    (recipient_pubkey : bytes) : bytes :=
  match pb_parse (M := DmPayload) dm_bytes with
  | None => dm_bytes
  | Some dmp =>
      let seal := make_sealed_sender_fields i envelope_id timestamp_ms recipient_pubkey in
      pb_serialize (mkDmPayload (dm_body dmp) (ssf_pubkey seal) (ssf_sig seal) (ttl_ms dmp))
  end.
End pack.
