(* ===== verification/ChatClient.v ===== *)
(** * The desktop client's worker: state ([src/client-desktop/src/chat_client.cpp])

    The worker thread owns sessions, channels and the send queues; every handler is
    a function on [Client] that returns what it sent and signalled.  An exception
    that nobody catches inside a handler ends the worker's loop: it is the last
    component of a step's result.  The client modelled here has no overlay (no
    PeerNet, DHT node or gossip node; the optional transports of the code), log
    lines are left out, and sending on the connection succeeds. *)
From S2P Require Import Prelude StdMap Crypto Username SenderKeys Ratchet Wire Handshake Identity UsernameLog.
From S2P Require Import SFrame RoomKeys ClientStore ClientProto.

(** The abstract classes [MlsGroup] and [PendingMlsJoin] of
    [fb/crypto/mls_facade.hpp].  A call that throws returns [None]; the group is
    what the call leaves. *)
Class MlsFacade := {
  MlsGroup : Type;
  PendingMlsJoin : Type;
  mls_create : bytes -> bytes -> bytes -> option MlsGroup;
  start_join : bytes -> bytes -> option PendingMlsJoin;
  key_package : PendingMlsJoin -> bytes;
  complete : PendingMlsJoin -> bytes -> option MlsGroup;
  propose_add_member : MlsGroup -> bytes -> option bytes * MlsGroup;
  commit_pending : MlsGroup -> option (bytes * bytes) * MlsGroup;
  handle_proposal : MlsGroup -> bytes -> bool * MlsGroup;
  apply_commit : MlsGroup -> bytes -> bool * MlsGroup;
  application_encrypt : MlsGroup -> bytes -> option bytes * MlsGroup;
  application_decrypt : MlsGroup -> bytes -> option bytes * MlsGroup;
  member_identities : MlsGroup -> list bytes;
  operation_log : MlsGroup -> list bytes;
  serialize_seed : MlsGroup -> bytes;
  from_seed_and_log : bytes -> list bytes -> option MlsGroup;
}.

(** [crypto_generichash] with a key. *)
Class KeyedBlake2b := generichash_keyed : nat -> bytes -> bytes -> bytes.

Definition zero32 : bytes := replicate 32 Byte.x00.

(** [ChatClient::Impl::Session] *)
Record Session := mkSession {
  peer_pub : bytes;
  peer_x : bytes;
  rat : option Ratchet.State;
  initialized_as_alice : bool;
  s_pq_ct : bytes;
  pq_acked : bool;
  seal_outbound : bool;
  peer_pq_pub : bytes;
}.

Definition default_session : Session := mkSession zero32 zero32 None false [] false false [].

Definition with_rat (r : Ratchet.State) (s : Session) : Session :=
  mkSession (peer_pub s) (peer_x s) (Some r) (initialized_as_alice s) (s_pq_ct s) (pq_acked s) (seal_outbound s) (peer_pq_pub s).
Definition with_seal (s : Session) : Session :=
  mkSession (peer_pub s) (peer_x s) (rat s) (initialized_as_alice s) (s_pq_ct s) (pq_acked s) true (peer_pq_pub s).

(** A decrypted message: the KEM ciphertext is no longer needed. *)
Definition with_ack (s : Session) : Session :=
  if pq_acked s then s
  else mkSession (peer_pub s) (peer_x s) (rat s) (initialized_as_alice s) [] true (seal_outbound s) (peer_pq_pub s).

Record PendingSend := mkPendingSend {
  ps_peer : bytes;
  ps_text : bytes;
  pre_packed_payload : bytes;
  persist_blob : bytes;
}.

Definition has_pre_packed (s : PendingSend) : bool := filled (pre_packed_payload s).

Inductive ChanOpKind := kCreate | kCreateLocal | kJoin | kSend | kInvite | kLeave | kRoomJoin | kRoomLeave.

Record PendingChannelOp := mkPendingChannelOp {
  op_kind : ChanOpKind;
  op_channel_name : bytes;
  op_dist_path : bytes;
  op_text : bytes;
  op_peer : bytes;
  op_want_video : bool;
  op_use_mls : bool;
}.

Record PendingMediaSignal := mkPendingMediaSignal {
  pm_peer_pub : bytes;
  pm_signal : MediaSignal;
}.

Section state.
Context `{!MlsFacade}.

Record ChannelState := mkChannelState {
  ch_id : bytes;
  own_dist : bytes;
  ch_session : SenderKeys.GroupSession;
  subscribed : bool;
  ch_crypto : ChannelCrypto;
  ch_mls : option MlsGroup;
  mls_next_seq : Z;
  pending_join : option PendingMlsJoin;
  mls_member_pubs : gset bytes;
}.

Definition default_channel : ChannelState := mkChannelState zero32 [] SenderKeys.new_session false kSenderKeys None 0 None ∅.

Definition ch_with_id (i : bytes) (c : ChannelState) : ChannelState :=
  mkChannelState i (own_dist c) (ch_session c) (subscribed c) (ch_crypto c) (ch_mls c) (mls_next_seq c) (pending_join c) (mls_member_pubs c).
Definition ch_with_dist (d : bytes) (c : ChannelState) : ChannelState :=
  mkChannelState (ch_id c) d (ch_session c) (subscribed c) (ch_crypto c) (ch_mls c) (mls_next_seq c) (pending_join c) (mls_member_pubs c).
Definition ch_with_session (s : SenderKeys.GroupSession) (c : ChannelState) : ChannelState :=
  mkChannelState (ch_id c) (own_dist c) s (subscribed c) (ch_crypto c) (ch_mls c) (mls_next_seq c) (pending_join c) (mls_member_pubs c).
Definition ch_with_sub (c : ChannelState) : ChannelState :=
  mkChannelState (ch_id c) (own_dist c) (ch_session c) true (ch_crypto c) (ch_mls c) (mls_next_seq c) (pending_join c) (mls_member_pubs c).
Definition ch_with_crypto (k : ChannelCrypto) (c : ChannelState) : ChannelState :=
  mkChannelState (ch_id c) (own_dist c) (ch_session c) (subscribed c) k (ch_mls c) (mls_next_seq c) (pending_join c) (mls_member_pubs c).
Definition ch_with_mls (m : option MlsGroup) (c : ChannelState) : ChannelState :=
  mkChannelState (ch_id c) (own_dist c) (ch_session c) (subscribed c) (ch_crypto c) m (mls_next_seq c) (pending_join c) (mls_member_pubs c).
Definition ch_with_seq (n : Z) (c : ChannelState) : ChannelState :=
  mkChannelState (ch_id c) (own_dist c) (ch_session c) (subscribed c) (ch_crypto c) (ch_mls c) n (pending_join c) (mls_member_pubs c).
Definition ch_with_join (j : option PendingMlsJoin) (c : ChannelState) : ChannelState :=
  mkChannelState (ch_id c) (own_dist c) (ch_session c) (subscribed c) (ch_crypto c) (ch_mls c) (mls_next_seq c) j (mls_member_pubs c).
Definition ch_with_members (m : gset bytes) (c : ChannelState) : ChannelState :=
  mkChannelState (ch_id c) (own_dist c) (ch_session c) (subscribed c) (ch_crypto c) (ch_mls c) (mls_next_seq c) (pending_join c) m.

(** The part of [ChatClient::Impl] that the worker touches. *)
Record Client := mkClient {
  identity : Identity;
  x25519 : X25519Pair;
  pq_id_sec : bytes;
  store : option SqliteStore;
  username_log : option (list UserClaim);
  sessions : gmap bytes Session;
  channels : gmap bytes ChannelState;
  chan_id_to_name : gmap bytes bytes;
  queue : list PendingSend;
  chan_queue : list PendingChannelOp;
  media_queue : list PendingMediaSignal;
  pending_fetch_targets : list bytes;
  room_secrets : gmap bytes (Z * bytes);
  room_registries : gmap bytes RoomKeyRegistry;
  active_voice_rooms : gmap bytes bool;
}.

Definition with_store (st : option SqliteStore) (c : Client) : Client :=
  mkClient (identity c) (x25519 c) (pq_id_sec c) st (username_log c) (sessions c) (channels c) (chan_id_to_name c)
    (queue c) (chan_queue c) (media_queue c) (pending_fetch_targets c) (room_secrets c) (room_registries c) (active_voice_rooms c).
Definition with_sessions (m : gmap bytes Session) (c : Client) : Client :=
  mkClient (identity c) (x25519 c) (pq_id_sec c) (store c) (username_log c) m (channels c) (chan_id_to_name c)
    (queue c) (chan_queue c) (media_queue c) (pending_fetch_targets c) (room_secrets c) (room_registries c) (active_voice_rooms c).
Definition with_channels (m : gmap bytes ChannelState) (ids : gmap bytes bytes) (c : Client) : Client :=
  mkClient (identity c) (x25519 c) (pq_id_sec c) (store c) (username_log c) (sessions c) m ids
    (queue c) (chan_queue c) (media_queue c) (pending_fetch_targets c) (room_secrets c) (room_registries c) (active_voice_rooms c).
Definition with_queues (q : list PendingSend) (cq : list PendingChannelOp) (mq : list PendingMediaSignal) (ft : list bytes)
    (c : Client) : Client :=
  mkClient (identity c) (x25519 c) (pq_id_sec c) (store c) (username_log c) (sessions c) (channels c) (chan_id_to_name c)
    q cq mq ft (room_secrets c) (room_registries c) (active_voice_rooms c).
Definition with_rooms (s : gmap bytes (Z * bytes)) (r : gmap bytes RoomKeyRegistry) (a : gmap bytes bool) (c : Client) : Client :=
  mkClient (identity c) (x25519 c) (pq_id_sec c) (store c) (username_log c) (sessions c) (channels c) (chan_id_to_name c)
    (queue c) (chan_queue c) (media_queue c) (pending_fetch_targets c) s r a.

(** [impl_->sessions[name]], [impl_->channels[name]]: the entry or a fresh one,
    which is inserted. *)
Definition session_at (name : bytes) (c : Client) : Session := default default_session (sessions c !! name).
Definition set_session (name : bytes) (s : Session) (c : Client) : Client := with_sessions (<[name := s]> (sessions c)) c.
Definition channel_at (name : bytes) (c : Client) : ChannelState := default default_channel (channels c !! name).
Definition set_channel (name : bytes) (s : ChannelState) (c : Client) : Client :=
  with_channels (<[name := s]> (channels c)) (chan_id_to_name c) c.
Definition set_channel_name (id name : bytes) (c : Client) : Client :=
  with_channels (channels c) (<[id := name]> (chan_id_to_name c)) c.
Definition push_send (s : PendingSend) (c : Client) : Client :=
  with_queues (queue c ++ [s]) (chan_queue c) (media_queue c) (pending_fetch_targets c) c.

(** [if (impl_->store) ..] *)
Definition on_store (f : SqliteStore -> SqliteStore) (c : Client) : Client := with_store (f <$> store c) c.

(** A ratchet with this key. *)
Definition live_for (pub : bytes) (s : Session) : bool :=
  match rat s with Some _ => bool_decide (peer_pub s = pub) | None => false end.

(** The first such session in the order of the names. *)
Definition find_session (pub : bytes) (c : Client) : option bytes :=
  (fun r => r.2.1) <$> list_find (fun p => live_for pub p.2 = true) (map_elements (sessions c)).
End state.

(** ** What a handler does *)

Inductive UiError :=
  | NoSuchUser (name : bytes) (messages invites : nat)
  | ChannelNotJoined (name : bytes)
  | ChannelSendFailed (name : bytes)
  | ChannelCreateFailed (name : bytes)
  | ChannelJoinFailed (name : bytes)
  | MlsRestoreFailed (name : bytes)
  | AttachmentTooLarge (size : Z)
  | EmptyShare
  | UsernameTaken.

Inductive ClientEffect :=
  | SendFrame (f : Frame)
  | MessageReceived (peer_fp username text : bytes)
  | ImageReceived (peer_fp username content mime filename : bytes)
  | ChannelMessageReceived (chan sender_fp text : bytes)
  | ChannelImageReceived (chan sender_fp content mime filename : bytes)
  | ChannelJoined (chan : bytes)
  | ShamirShareReceived (peer_fp pub : bytes) (setup_id threshold total : Z) (label : bytes)
  | ShamirShareRequestReceived (peer_fp pub : bytes) (setup_id : Z) (reason : bytes)
  | MlsInviteRequestReceived (peer_fp channel_id name : bytes)
  | MlsKeyPackageReceived (peer_fp channel_id kp : bytes)
  | MlsWelcomeReceived (peer_fp channel_id name welcome : bytes)
  | MlsCommitReceived (peer_fp channel_id commit : bytes)
  | MediaSignalReceived (peer_pub : bytes) (m : MediaSignal)
  | PeerPubkeyChanged (label old_pub new_pub : bytes)
  | PeerPqDowngrade (label fp : bytes)
  | PeerUsernameResolved (fp name : bytes)
  | WriteFile (path content : bytes)
  | RoomRosterReceived (room_id : bytes) (participants : list RoomMember) (epoch : Z)
  | ErrorOccurred (e : UiError)
  | StopRequested.

(** Exceptions that leave a handler. *)
Inductive ClientError :=
  | FromHandshake (e : HandshakeError)
  | FromRatchet (e : Ratchet.RError)
  | FromStore (e : StoreError).

(** What a handler draws from the clock, the random generator, the file system and
    the environment. *)
Record Fresh := mkFresh {
  f_now : Z;
  f_envid : bytes;
  f_dh : bytes -> bytes;
  f_init : bytes;
  f_kem : bytes;
  f_chain_id : bytes;
  f_chain_key : bytes;
  f_mls : bytes;
  f_nonce : nat -> bytes;
  f_file : bytes -> option bytes;
  f_write_ok : bytes -> bool;
  f_uplink : Z;
}.
