(* ===== verification/ChatClientRecv.v ===== *)
(** * The desktop client's worker: incoming envelopes

    [dispatch_envelope] of [src/client-desktop/src/chat_client.cpp]: the
    sealed-sender pre-pass, channel messages, direct messages and every kind of
    payload. *)
From S2P Require Import Prelude StdMap Crypto Username SenderKeys Ratchet Wire Handshake Identity UsernameLog.
From S2P Require Import SFrame RoomKeys AttachmentFrame Sql ClientStore ClientProto ChatClient.

(** The default of the registry's constructor. *)
Definition kRoomGraceMs : Z := 3000.

Section recv.
Context `{!Sodium, !Ed25519, !EdCurve, !PqCrypto, !Blake2b, !MlsFacade, !SqlPlan}.
Context `{!ProtoMsg Ratchet.RatchetMessage, !ProtoMsg SenderKeys.SenderKeysMessage, !ProtoMsg SenderKeys.SenderKeysDistribution}.
Context `{!ProtoMsg DmPayload}.

Definition Out : Type := Client * list ClientEffect * option ClientError.
Definition done_with (c : Client) (es : list ClientEffect) : Out := (c, es, None).
Definition dropped (c : Client) : Out := (c, [], None).

(** ** Persistence helpers *)

Definition persist_chan_meta (fr : Fresh) (name : bytes) (cs : ChannelState) : Client -> Client :=
  on_store (chan_save (f_nonce fr 0) name (ch_id cs) (own_dist cs) (ch_crypto cs)).
Definition chanstate_key (name : bytes) : bytes := str "__chanstate__:" ++ name.
(** Does not throw: the blob is never empty ([chan_session_saved]). *)
Definition persist_chan_session (fr : Fresh) (name : bytes) (cs : ChannelState) : Client -> Client :=
  on_store (fun st =>
    (save_session (f_now fr) (f_nonce fr 1) (chanstate_key name) (SenderKeys.serialize_state (ch_session cs)) st).1).
Definition persist_chan_peer_dist (fr : Fresh) (cs : ChannelState) (peer dist : bytes) : Client -> Client :=
  on_store (chan_save_peer (f_nonce fr 2) (ch_id cs) peer dist).

(** Returns the channel with its sequence number restarted. *)
Definition persist_mls_seed (fr : Fresh) (cs : ChannelState) (c : Client) : ChannelState * Client :=
  match store c, ch_mls cs with
  | Some _, Some g =>
      (ch_with_seq 0 cs, on_store (mls_group_save (f_now fr) (f_nonce fr 3) (ch_id cs) (serialize_seed g)) c)
  | _, _ => (cs, c)
  end.

(** [None]: the store's exception for a sequence number that exists or an empty operation. *)
Definition persist_mls_last_op (fr : Fresh) (k : nat) (cs : ChannelState) (c : Client) : option (ChannelState * Client) :=
  match store c, ch_mls cs with
  | Some st, Some g =>
      match last (operation_log g) with
      | None => Some (cs, c)
      | Some op =>
          match mls_group_op_append (f_now fr) (f_nonce fr k) (ch_id cs) (mls_next_seq cs) op st with
          | (st', Ok _) => Some (ch_with_seq (mls_next_seq cs + 1) cs, with_store (Some st') c)
          | (_, Throw _) => None
          end
      end
  | _, _ => Some (cs, c)
  end.

(** ** Sealed senders *)

Definition sealed_ok (c : Client) (env : Envelope) (s : Session) (dmp : DmPayload) : bool :=
  (length (sealed_sender_pubkey dmp) =? 32)%nat && (length (sealed_sender_sig dmp) =? 64)%nat &&
  bool_decide (sealed_sender_pubkey dmp = peer_pub s) &&
  verify_sealed_sender (sealed_sender_pubkey dmp) (sealed_sender_sig dmp) (envelope_id env) (timestamp_ms env)
    (id_pub (identity c)).

Definition try_session (c : Client) (env : Envelope) (fr : Fresh) (name : bytes) (s : Session) (r : Ratchet.State) :
    Session * result ClientError (option bytes) :=
  match Ratchet.try_decrypt r (ciphertext env) (env_aad env) (f_dh fr name) with
  | (Throw e, r') => (with_rat r' s, Throw (FromRatchet e))
  | (Ok None, r') => (with_rat r' s, Ok None)
  | (Ok (Some pt), r') =>
      let s := with_rat r' s in
      match pb_parse (M := DmPayload) pt with
      | None => (s, Ok None)
      | Some dmp => if sealed_ok c env s dmp then (with_seal s, Ok (Some pt)) else (s, Ok None)
      end
  end.

(** One pass over the sessions, in the order of their names; the ratchet's header
    must, or must not, match. *)
Fixpoint try_sessions (env : Envelope) (fr : Fresh) (matched : bool) (names : list bytes) (c : Client) :
    Client * result ClientError (option (bytes * bytes)) :=
  match names with
  | [] => (c, Ok None)
  | name :: names =>
      let s := session_at name c in
      match rat s with
      | None => try_sessions env fr matched names c
      | Some r =>
          if Bool.eqb (Ratchet.header_matches_recv_chain r (ciphertext env)) matched then
            let '(s, res) := try_session c env fr name s r in
            let c := set_session name s c in
            match res with
            | Throw e => (c, Throw e)
            | Ok (Some pt) => (c, Ok (Some (peer_pub s, pt)))
            | Ok None => try_sessions env fr matched names c
            end
          else try_sessions env fr matched names c
      end
  end.

Definition session_names (c : Client) : list bytes := (map_elements (sessions c)).*1.

(** The sender and the plaintext. *)
Definition sealed_prepass (env : Envelope) (fr : Fresh) (c : Client) : Client * result ClientError (option (bytes * bytes)) :=
  match try_sessions env fr true (session_names c) c with
  | (c, Ok None) => try_sessions env fr false (session_names c) c
  | r => r
  end.

Definition aad_consistent (env : Envelope) : bool :=
  bool_decide (env_aad env = []) || bool_decide (env_aad env = envelope_aad_bytes (envelope_id env) (timestamp_ms env)).

(** ** Channel messages *)

(** [install_peer_distribution] inside [try .. catch (...)]. *)
Definition lazy_install (sender dist : bytes) (cs : ChannelState) : ChannelState :=
  match SenderKeys.install_peer_distribution (ch_session cs) sender dist with
  | Ok s => ch_with_session s cs
  | Throw _ => cs
  end.

Definition use_mls (cs : ChannelState) : option MlsGroup :=
  match ch_crypto cs with kMls => ch_mls cs | kSenderKeys => None end.

Definition channel_decrypt (env : Envelope) (sender : bytes) (cs : ChannelState) : option bytes * ChannelState :=
  match use_mls cs with
  | Some g => let '(pt, g) := application_decrypt g (ciphertext env) in (pt, ch_with_mls (Some g) cs)
  | None =>
      let '(pt, s) := SenderKeys.decrypt (ch_session cs) sender (ciphertext env) (env_aad env) in
      (pt, ch_with_session s cs)
  end.

Definition channel_event (name sender pt : bytes) : ClientEffect :=
  match parse_attachment_frame pt with
  | Some at_ => ChannelImageReceived name (fingerprint sender) (att_content at_) (AttachmentFrame.mime at_) (AttachmentFrame.filename at_)
  | None => ChannelMessageReceived name (fingerprint sender) pt
  end.

Definition dispatch_channel (env : Envelope) (gid sender : bytes) (fr : Fresh) (c : Client) : Out :=
  if negb (length gid =? 32)%nat then dropped c
  else match chan_id_to_name c !! gid with
  | None => dropped c
  | Some name =>
      let cs := lazy_install sender (own_dist (channel_at name c)) (channel_at name c) in
      let c := set_channel name cs c in
      if negb (aad_consistent env) then dropped c
      else
        let '(pt, cs) := channel_decrypt env sender cs in
        let c := set_channel name cs c in
        match pt with
        | None => dropped c
        | Some pt =>
            let c := persist_chan_session fr name cs c in
            let c := on_store (chan_append_inbox (f_nonce fr 4) (ch_id cs) sender pt (f_now fr)) c in
            done_with c [channel_event name sender pt]
        end
  end.

(** ** Payloads of direct messages *)

Definition room_registry (room_id : bytes) (c : Client) : RoomKeyRegistry :=
  default (new_registry (id_pub (identity c)) kRoomGraceMs) (room_registries c !! room_id).

Definition on_room_key (fr : Fresh) (room_id : bytes) (epoch : Z) (secret : bytes) (c : Client) : Out :=
  if (length secret =? 32)%nat && filled room_id then
    done_with (with_rooms (<[room_id := (epoch, secret)]> (room_secrets c))
      (<[room_id := set_secret (f_now fr) secret epoch (room_registry room_id c)]> (room_registries c))
      (active_voice_rooms c) c) []
  else dropped c.

Definition on_text (fr : Fresh) (env : Envelope) (sender username text : bytes) (ttl : Z) (c : Client) : Out :=
  let row := if 0 <? ttl
             then append_inbox_with_expiry (f_nonce fr 5) (envelope_id env) sender text (f_now fr) (u64 (f_now fr + ttl))
             else append_inbox (f_nonce fr 5) (envelope_id env) sender text (f_now fr) in
  done_with (on_store row c) [MessageReceived (fingerprint sender) username text].

Definition on_attachment (fr : Fresh) (env : Envelope) (sender username mime filename content : bytes) (c : Client) : Out :=
  if kMaxInlineAttachmentBytes <? Z.of_nat (length content) then dropped c
  else done_with (on_store (append_inbox (f_nonce fr 5) (envelope_id env) sender (frame_attachment mime filename content) (f_now fr)) c)
         [ImageReceived (fingerprint sender) username content mime filename].

Definition on_channel_key (fr : Fresh) (sender channel_id name : bytes) (d : SenderKeys.SenderKeysDistribution) (c : Client) : Out :=
  if negb (length channel_id =? 32)%nat then dropped c
  else
    let cs := ch_with_id channel_id (channel_at name c) in
    let c := set_channel_name channel_id name c in
    let dist_blob := pb_serialize d in
    let cs := lazy_install sender dist_blob (ch_with_dist dist_blob cs) in
    let frames := if subscribed cs then [] else [SendFrame (FChanSubscribe channel_id)] in
    let cs := ch_with_sub cs in
    let c := set_channel name cs c in
    let c := persist_chan_meta fr name cs c in
    let c := persist_chan_peer_dist fr cs sender dist_blob c in
    let c := persist_chan_session fr name cs c in
    done_with c (frames ++ [ChannelJoined name]).

Definition on_shamir_push (fr : Fresh) (sender share : bytes) (setup_id threshold total : Z) (label : bytes) (c : Client) : Out :=
  done_with (on_store (save_shamir_share (mkHeldShare sender setup_id share threshold total label (f_now fr))) c)
    [ShamirShareReceived (fingerprint sender) sender setup_id threshold total label].

(** ** MLS handshakes *)

Definition pre_packed (peer payload : bytes) : PendingSend := mkPendingSend peer [] payload [].

Definition id_unset (cs : ChannelState) : bool := bool_decide (take 2 (ch_id cs) = [Byte.x00; Byte.x00]).

(** The other members, as 32-byte keys. *)
Definition other_members (c : Client) (g : MlsGroup) : list bytes :=
  filter (fun i => length i = 32%nat /\ i <> id_pub (identity c)) (member_identities g).

Definition on_mls_invite_request (fr : Fresh) (sname sender channel_id name : bytes) (c : Client) : Out :=
  if negb (length channel_id =? 32)%nat then dropped c
  else
    let ev := [MlsInviteRequestReceived (fingerprint sender) channel_id name] in
    let cs := channel_at name c in
    let '(cs, c) := if id_unset cs then (ch_with_id channel_id cs, set_channel_name channel_id name c) else (cs, c) in
    let cs := ch_with_crypto kMls cs in
    match pending_join cs, start_join (id_pub (identity c)) (f_mls fr) with
    | Some j, _ | None, Some j =>
        let cs := ch_with_join (Some j) cs in
        done_with (push_send (pre_packed sname (pack_mls_key_package_payload channel_id (key_package j))) (set_channel name cs c)) ev
    | None, None => done_with (set_channel name cs c) ev
    end.

(** Queues a payload to the session of a member, if there is one. *)
Definition enqueue_to_pub (payload : bytes) (c : Client) (pub : bytes) : Client :=
  match find_session pub c with
  | Some sess_name => if filled sess_name then push_send (pre_packed sess_name payload) c else c
  | None => c
  end.

(** The body of the [try] block; [None] is an exception, with what had been done. *)
Definition add_member_steps (fr : Fresh) (sname chan_name channel_id kp : bytes) (cs : ChannelState) (g : MlsGroup) (c : Client) :
    Client :=
  let '(proposal, g) := propose_add_member g kp in
  let cs := ch_with_mls (Some g) cs in
  match proposal with
  | None => set_channel chan_name cs c
  | Some proposal =>
      match persist_mls_last_op fr 6 cs c with
      | None => set_channel chan_name cs c
      | Some (cs, c) =>
          let others := other_members c g in
          let c := foldl (enqueue_to_pub (pack_mls_proposal_payload channel_id proposal)) c others in
          let '(add, g) := commit_pending g in
          let cs := ch_with_mls (Some g) cs in
          match add with
          | None => set_channel chan_name cs c
          | Some (welcome, commit) =>
              match persist_mls_last_op fr 7 cs c with
              | None => set_channel chan_name cs c
              | Some (cs, c) =>
                  let c := push_send (pre_packed sname (pack_mls_welcome_payload channel_id chan_name welcome)) c in
                  let c := foldl (enqueue_to_pub (pack_mls_commit_payload channel_id commit)) c others in
                  set_channel chan_name (ch_with_members (list_to_set (other_members c g)) cs) c
              end
          end
      end
  end.

Definition on_mls_key_package (fr : Fresh) (sname sender channel_id kp : bytes) (c : Client) : Out :=
  if negb (length channel_id =? 32)%nat then dropped c
  else
    let ev := [MlsKeyPackageReceived (fingerprint sender) channel_id kp] in
    let chan_name := default [] (chan_id_to_name c !! channel_id) in
    if negb (filled chan_name) then done_with c ev
    else
      let cs := channel_at chan_name c in
      match ch_mls cs with
      | None => done_with (set_channel chan_name cs c) ev
      | Some g => done_with (add_member_steps fr sname chan_name channel_id kp cs g c) ev
      end.

Definition on_mls_welcome (fr : Fresh) (sender channel_id name welcome : bytes) (c : Client) : Out :=
  if negb (length channel_id =? 32)%nat then dropped c
  else
    let ev := [MlsWelcomeReceived (fingerprint sender) channel_id name welcome] in
    let cs := channel_at name c in
    match pending_join cs with
    | None => done_with (set_channel name cs c) ev
    | Some j =>
        match complete j welcome with
        | None => done_with (set_channel name cs c) ev
        | Some g =>
            let cs := ch_with_crypto kMls (ch_with_join None (ch_with_mls (Some g) cs)) in
            let '(cs, c) := persist_mls_seed fr cs c in
            let frames := if subscribed cs then [] else [SendFrame (FChanSubscribe channel_id)] in
            let cs := ch_with_members (mls_member_pubs cs ∪ list_to_set (other_members c g)) (ch_with_sub cs) in
            done_with (set_channel_name channel_id name (set_channel name cs c)) (ev ++ frames ++ [ChannelJoined name])
        end
    end.

(** [apply_commit] and [handle_proposal] share their shape; only a commit refreshes
    the members. *)
Definition mls_apply (fr : Fresh) (channel_id : bytes) (op : MlsGroup -> bool * MlsGroup) (refresh : bool) (c : Client) : Client :=
  let chan_name := default [] (chan_id_to_name c !! channel_id) in
  if negb (filled chan_name) then c
  else
    let cs := channel_at chan_name c in
    match ch_mls cs with
    | None => set_channel chan_name cs c
    | Some g =>
        let '(ok, g) := op g in
        let cs := ch_with_mls (Some g) cs in
        if negb ok then set_channel chan_name cs c
        else match persist_mls_last_op fr 6 cs c with
        | None => set_channel chan_name cs c
        | Some (cs, c) =>
            let cs := if refresh then ch_with_members (list_to_set (other_members c g)) cs else cs in
            set_channel chan_name cs c
        end
    end.

Definition on_mls_commit (fr : Fresh) (sender channel_id commit : bytes) (c : Client) : Out :=
  if negb (length channel_id =? 32)%nat then dropped c
  else done_with (mls_apply fr channel_id (fun g => apply_commit g commit) true c)
         [MlsCommitReceived (fingerprint sender) channel_id commit].

Definition on_mls_proposal (fr : Fresh) (channel_id proposal : bytes) (c : Client) : Out :=
  if negb (length channel_id =? 32)%nat then dropped c
  else done_with (mls_apply fr channel_id (fun g => handle_proposal g proposal) false c) [].

(** Calls live on the Qt main thread: the signal is handed over, with the track
    bindings that name a 32-byte key. *)
Definition on_media_signal (sender : bytes) (m : MediaSignal) (c : Client) : Out :=
  if negb (length (ms_call_id m) =? 16)%nat then dropped c
  else
    let tbs := filter (fun t => length (tb_sender_pubkey t) = 32%nat) (ms_track_bindings m) in
    done_with c [MediaSignalReceived sender (mkMediaSignal (ms_call_id m) (ms_kind m) (ms_payload m) (ms_epoch m) tbs (ms_pq_ct m))].

Definition dispatch_payload (fr : Fresh) (env : Envelope) (sname sender username : bytes) (p : DmPayload) (c : Client) : Out :=
  match dm_body p with
  | BText text => on_text fr env sender username text (ttl_ms p) c
  | BAttachment mime filename content => on_attachment fr env sender username mime filename content c
  | BRoomKey room_id epoch secret => on_room_key fr room_id epoch secret c
  | BChannelKey channel_id name d => on_channel_key fr sender channel_id name d c
  | BShamirSharePush share setup threshold total label => on_shamir_push fr sender share setup threshold total label c
  | BShamirShareRequest setup reason => done_with c [ShamirShareRequestReceived (fingerprint sender) sender setup reason]
  | BMlsInviteRequest channel_id name => on_mls_invite_request fr sname sender channel_id name c
  | BMlsKeyPackage channel_id kp => on_mls_key_package fr sname sender channel_id kp c
  | BMlsWelcome channel_id name welcome => on_mls_welcome fr sender channel_id name welcome c
  | BMlsCommit channel_id commit => on_mls_commit fr sender channel_id commit c
  | BMlsProposal channel_id proposal => on_mls_proposal fr channel_id proposal c
  | BMediaSignal m => on_media_signal sender m c
  | BNotSet => dropped c
  end.

(** ** Direct messages *)

(** The name of the sender's session: an existing one, or a tag of the key. *)
Definition session_name_for (sender : bytes) (c : Client) : bytes :=
  let found := default [] (find_session sender c) in
  if filled found then found else str "peer:" ++ take 8 sender.

(** A session for the first message of a peer. *)
Definition first_contact_session (env : Envelope) (sender : bytes) (c : Client) (s : Session) : option (result ClientError Session) :=
  match pk_to_curve25519 sender with
  | None => None
  | Some px =>
      match derive_hybrid_recv_from_env (x25519 c) px (pq_id_sec c) env with
      | Throw e => Some (Throw (FromHandshake e))
      | Ok shared =>
          let r := Ratchet.init_bob shared (x_priv (x25519 c)) (x_pub (x25519 c)) in
          Some (Ok (mkSession sender px (Some r) (initialized_as_alice s) (s_pq_ct s) (pq_acked s) (seal_outbound s) (peer_pq_pub s)))
      end
  end.

(** After a plaintext was obtained. *)
Definition received (fr : Fresh) (env : Envelope) (sname sender pt : bytes) (c : Client) : Out :=
  let c := set_session sname (with_seal (with_ack (session_at sname c))) c in
  match pb_parse (M := DmPayload) pt with
  | None => dropped c
  | Some payload =>
      let cached := store c ≫= peer_name sender in
      let lookup := match store c, cached with Some _, None => [SendFrame (FUsernameLookup sender)] | _, _ => [] end in
      let '(c, es, e) := dispatch_payload fr env sname sender (default [] cached) payload c in
      (c, lookup ++ es, e)
  end.

(** [sealed_pt]: what the pre-pass decrypted. *)
Definition dispatch_dm (env : Envelope) (sender : bytes) (sealed_pt : option bytes) (fr : Fresh) (c : Client) : Out :=
  let sname := session_name_for sender c in
  let s := session_at sname c in
  let c := set_session sname s c in
  match match rat s with
        | Some r => Some (Ok (s, r))
        | None =>
            match first_contact_session env sender c s with
            | None => None
            | Some (Throw e) => Some (Throw e)
            | Some (Ok s) => match rat s with Some r => Some (Ok (s, r)) | None => None end
            end
        end with
  | None => dropped c
  | Some (Throw e) => (c, [], Some e)
  | Some (Ok (s, r)) =>
      let c := set_session sname s c in
      if negb (aad_consistent env) then dropped c
      else match sealed_pt with
      | Some pt => received fr env sname sender pt c
      | None =>
          let '(pt, r) := Ratchet.decrypt r (ciphertext env) (env_aad env) (f_dh fr sname) in
          let c := set_session sname (with_rat r s) c in
          match pt with
          | Throw e => (c, [], Some (FromRatchet e))
          | Ok None => dropped c
          | Ok (Some pt) => received fr env sname sender pt c
          end
      end
  end.

Definition dispatch_envelope (fr : Fresh) (env : Envelope) (c : Client) : Out :=
  let '(c, who) :=
    match sender_pubkey env with
    | [] =>
        match recipient env with
        | UserPubkey _ =>
            let '(c, r) := sealed_prepass env fr c in
            (c, match r with Throw e => Throw e | Ok o => Ok ((fun p => (p.1, Some p.2)) <$> o) end)
        | _ => (c, Ok None)
        end
    | pk => (c, Ok (if (length pk =? 32)%nat then Some (pk, None) else None))
    end in
  match who with
  | Throw e => (c, [], Some e)
  | Ok None => dropped c
  | Ok (Some (sender, sealed_pt)) =>
      match recipient env with
      | ChannelGroupId gid => dispatch_channel env gid sender fr c
      | _ => dispatch_dm env sender sealed_pt fr c
      end
  end.
End recv.
