(* ===== verification/ChatClientSend.v ===== *)
(** * The desktop client's worker: outgoing messages and server frames

    The queues the user interface fills, the send path, channel operations, the
    consumption of key bundles and the frames of the relay server
    ([src/client-desktop/src/chat_client.cpp]). *)
From S2P Require Import Prelude StdMap Crypto Username SenderKeys Ratchet Wire Handshake Identity UsernameLog.
From S2P Require Import SFrame RoomKeys AttachmentFrame Sql ClientStore ClientProto ChatClient ChatClientRecv.

Section send.
Context `{!Sodium, !Ed25519, !EdCurve, !PqCrypto, !Blake2b, !KeyedBlake2b, !MlsFacade, !SqlPlan, !SqlOrder}.
Context `{!ProtoMsg Ratchet.RatchetMessage, !ProtoMsg SenderKeys.SenderKeysMessage, !ProtoMsg SenderKeys.SenderKeysDistribution}.
Context `{!ProtoMsg DmPayload, !ProtoMsg Envelope}.

(** ** Pins *)

Definition pubkey_changed (new_pub old_pub : bytes) : bool := (length old_pub =? 32)%nat && negb (bool_decide (old_pub = new_pub)).

Definition detect_pubkey_change (username new_pub : bytes) (c : Client) : Client * list ClientEffect :=
  match store c with
  | None => (c, [])
  | Some st =>
      if negb (filled username) then (c, [])
      else match filter (fun o => pubkey_changed new_pub o = true) (peer_pubkeys_for_username username st) with
      | [] => (c, [])
      | old_pub :: _ => (with_store (Some (set_peer_verified old_pub false 0 st)) c, [PeerPubkeyChanged username old_pub new_pub])
      end
  end.

Definition is_pq_capability_downgrade (previously_capable now_advertises_pq : bool) : bool :=
  previously_capable && negb now_advertises_pq.

Definition pq_tofu_admit (now : Z) (pub label : bytes) (now_advertises_pq : bool) (c : Client) : bool * Client * list ClientEffect :=
  match store c with
  | None => (true, c, [])
  | Some st =>
      let prev := peer_pq_capable pub st in
      if is_pq_capability_downgrade prev now_advertises_pq then
        (false, c, [PeerPqDowngrade (if filled label then label else fingerprint pub) (fingerprint pub)])
      else if now_advertises_pq && negb prev then (true, with_store (Some (set_peer_pq_capable pub true now st)) c, [])
      else (true, c, [])
  end.

(** ** Direct messages *)

Definition build_envelope (fr : Fresh) (c : Client) (s : Session) (r : Ratchet.State) (pt : bytes) :
    Session * result ClientError Envelope :=
  let aad := envelope_aad_bytes (f_envid fr) (f_now fr) in
  let sealed := seal_outbound s in
  let pt := if sealed then seal_dm_payload pt (identity c) (f_envid fr) (f_now fr) (peer_pub s) else pt in
  match Ratchet.encrypt r pt aad with
  | (Throw e, r) => (with_rat r s, Throw (FromRatchet e))
  | (Ok ct, r) =>
      (with_rat r s,
       Ok (mkEnvelope (f_envid fr) (f_now fr) (if sealed then [] else id_pub (identity c)) ct aad kAes256Gcm kProtocolVersion
             [] (s_pq_ct s) (UserPubkey (peer_pub s))))
  end.

(** A reply to a fingerprint goes to the session with that fingerprint. *)
Definition looks_like_fingerprint (p : bytes) : bool := (length p =? 11)%nat && bool_decide (p !! 5%nat = Some (z2b 45)).

Definition rebind_fingerprint (c : Client) (peer : bytes) : bytes :=
  if looks_like_fingerprint peer && bool_decide (sessions c !! peer = None) then
    match list_find (fun p => match rat p.2 with Some _ => bool_decide (fingerprint (peer_pub p.2) = peer) | None => false end = true)
            (map_elements (sessions c)) with
    | Some (_, (name, _)) => name
    | None => peer
    end
  else peer.

Definition with_peer (name : bytes) (s : PendingSend) : PendingSend := mkPendingSend name (ps_text s) (pre_packed_payload s) (persist_blob s).

Definition push_front (s : PendingSend) (fetch : list bytes) (c : Client) : Client :=
  with_queues (s :: queue c) (chan_queue c) (media_queue c) (pending_fetch_targets c ++ fetch) c.

(** What the outbox keeps of a message that was sent. *)
Definition record_sent (fr : Fresh) (s : PendingSend) (pub : bytes) (c : Client) : Client * list ClientEffect :=
  match store c with
  | Some _ =>
      if filled (ps_text s) || filled (persist_blob s) then
        let body := if filled (persist_blob s) then persist_blob s else ps_text s in
        let c := on_store (append_outbox (f_nonce fr 5) (f_envid fr) pub body (f_now fr)) c in
        let '(c, es) := detect_pubkey_change (ps_peer s) pub c in
        (on_store (cache_peer_name (f_now fr) (f_nonce fr 6) pub (ps_peer s)) c, es)
      else (c, [])
  | None => (c, [])
  end.

(** No session: rebind to one for the key the username log knows, or ask the server
    for the bundle; the message goes back to the front of the queue. *)
Definition defer_send (s : PendingSend) (c : Client) : Client * list ClientEffect :=
  let known : option bytes := match username_log c with Some l => resolve (ps_peer s) l | None => None end in
  match match known with Some pub => find_session pub c | None => None end with
  | Some name => (push_front (with_peer name s) [] c, [])
  | None => (push_front s [ps_peer s] c, [SendFrame (FKeyFetch (ps_peer s) 0)])
  end.

(** One turn of the loop; the flag says whether it went on to the next message. *)
Definition send_one (fr : Fresh) (s : PendingSend) (c : Client) : Out * bool :=
  let s := with_peer (rebind_fingerprint c (ps_peer s)) s in
  let sess := session_at (ps_peer s) c in
  let c := set_session (ps_peer s) sess c in
  match rat sess with
  | None => let '(c, es) := defer_send s c in (done_with c es, false)
  | Some r =>
      let pt := if has_pre_packed s then pre_packed_payload s else pack_text_payload (ps_text s) in
      let '(sess, res) := build_envelope fr c sess r pt in
      let c := set_session (ps_peer s) sess c in
      match res with
      | Throw e => ((c, [], Some e), false)
      | Ok env =>
          let '(c, es) := record_sent fr s (peer_pub sess) c in
          (done_with c (SendFrame (FEnvelope env) :: es), true)
      end
  end.

Fixpoint send_loop (fr : nat -> Fresh) (to_send : list PendingSend) (c : Client) : Out :=
  match to_send with
  | [] => dropped c
  | s :: rest =>
      let '(c, es, e, go) := send_one (fr (length rest)) s c in
      match e with
      | Some _ => (c, es, e)
      | None =>
          if negb go then (c, es, None)
          else let '(c, es', e) := send_loop fr rest c in (c, es ++ es', e)
      end
  end.

(** The queue is swapped out before the loop. *)
Definition drain_sends (fr : nat -> Fresh) (c : Client) : Out :=
  send_loop fr (queue c) (with_queues [] (chan_queue c) (media_queue c) (pending_fetch_targets c) c).

(** ** Media signals *)

Definition send_media (fr : Fresh) (m : PendingMediaSignal) (c : Client) : Out :=
  match list_find (fun p => peer_pub p.2 = pm_peer_pub m) (map_elements (sessions c)) with
  | None => dropped c
  | Some (_, (name, s)) =>
      match rat s with
      | None => dropped c
      | Some r =>
          let '(s, res) := build_envelope fr c s r (pack_media_signal_payload (pm_signal m)) in
          let c := set_session name s c in
          match res with
          | Throw e => (c, [], Some e)
          | Ok env => done_with c [SendFrame (FEnvelope env)]
          end
      end
  end.

(** Handlers over a list, until one throws. *)
Fixpoint run_each {A} (f : nat -> A -> Client -> Out) (l : list A) (c : Client) : Out :=
  match l with
  | [] => dropped c
  | x :: l =>
      let '(c, es, e) := f (length l) x c in
      match e with
      | Some _ => (c, es, e)
      | None => let '(c, es', e) := run_each f l c in (c, es ++ es', e)
      end
  end.

Definition drain_media (fr : nat -> Fresh) (c : Client) : Out :=
  run_each (fun i => send_media (fr i)) (media_queue c) (with_queues (queue c) (chan_queue c) [] (pending_fetch_targets c) c).

(** ** Key bundles *)

Definition drop_queued (name : bytes) (c : Client) : Client * list ClientEffect :=
  let keep := filter (fun s => ps_peer s <> name) (queue c) in
  let is_invite o := match op_kind o with kInvite => bool_decide (op_peer o = name) | _ => false end in
  let keep_ops := filter (fun o => is_invite o = false) (chan_queue c) in
  (with_queues keep keep_ops (media_queue c) (pending_fetch_targets c) c,
   [ErrorOccurred (NoSuchUser name (length (queue c) - length keep) (length (chan_queue c) - length keep_ops))]).

Definition has_live (pub : bytes) (c : Client) : bool := existsb (fun p => live_for pub p.2) (map_elements (sessions c)).

(** A ratchet from a bundle.  The session's fields are set one after the other, so
    an exception leaves those written before it. *)
Definition session_from_bundle (fr : Fresh) (b : PreKeyBundle) (c : Client) (s : Session) : Session * option ClientError :=
  let px := signed_prekey b in
  let s := mkSession (pk_identity_pubkey b) px (rat s) (initialized_as_alice s) (s_pq_ct s) (pq_acked s) (seal_outbound s) (peer_pq_pub s) in
  match derive_hybrid_send_from_bundle (x25519 c) px b (f_kem fr) with
  | Throw e => (s, Some (FromHandshake e))
  | Ok hybrid =>
      let pq := if filled (pq_pubkey b) then pq_pubkey b else peer_pq_pub s in
      let s := mkSession (peer_pub s) px (rat s) (initialized_as_alice s) (hs_pq_ct hybrid) (pq_acked s) (seal_outbound s) pq in
      match Ratchet.init_alice (hs_shared hybrid) px (f_init fr) with
      | Throw e => (s, Some (FromRatchet e))
      | Ok r => (mkSession (peer_pub s) px (Some r) true (s_pq_ct s) false false pq, None)
      end
  end.

Definition on_key_fetch_resp (fr : Fresh) (resp : KeyBundleFetchResponse) (c : Client) : Out :=
  let fetched_for := default [] (head (pending_fetch_targets c)) in
  let c := with_queues (queue c) (chan_queue c) (media_queue c) (tail (pending_fetch_targets c)) c in
  let b := default empty_bundle (kf_bundle resp) in
  if negb (filled fetched_for) then dropped c
  else if negb (kf_found resp) || negb (length (pk_identity_pubkey b) =? 32)%nat || negb (length (signed_prekey b) =? 32)%nat
  then let '(c, es) := drop_queued fetched_for c in done_with c es
  else
    let '(allowed, c, es) := pq_tofu_admit (f_now fr) (pk_identity_pubkey b) fetched_for (filled (pq_pubkey b)) c in
    if negb allowed then done_with c es
    else if has_live (pk_identity_pubkey b) c then done_with c es
    else
      let '(s, e) := session_from_bundle fr b c (session_at fetched_for c) in
      (set_session fetched_for s c, es, e).

(** ** Other frames *)

Definition on_username_resp (fr : Fresh) (pubkey username : bytes) (found : bool) (c : Client) : Out :=
  if found && (length pubkey =? 32)%nat && filled username then
    let '(c, es) := detect_pubkey_change username pubkey c in
    let c := on_store (cache_peer_name (f_now fr) (f_nonce fr 6) pubkey username) c in
    done_with c (es ++ [PeerUsernameResolved (fingerprint pubkey) username])
  else dropped c.

(** [PeerEnvelope::DM] and [OFFLINE_DELIVERY]; the other kinds feed the overlay. *)
Definition kPeerDm : Z := 3.
Definition kPeerOfflineDelivery : Z := 6.

Definition on_frame (fr : Fresh) (f : Frame) (c : Client) : Out :=
  match f with
  | FControl m => match code m with USERNAME_TAKEN => done_with c [ErrorOccurred UsernameTaken; StopRequested] | _ => dropped c end
  | FPeer pe =>
      if (pe_kind pe =? kPeerDm) || (pe_kind pe =? kPeerOfflineDelivery) then
        match pb_parse (M := Envelope) (pe_payload pe) with
        | Some inner => dispatch_envelope fr inner c
        | None => dropped c
        end
      else dropped c
  | FRoomRoster room participants epoch => done_with c [RoomRosterReceived room participants epoch]
  | FUsernameResp pubkey username found => on_username_resp fr pubkey username found c
  | FKeyFetchResp r => on_key_fetch_resp fr r c
  | FEnvelope e => dispatch_envelope fr e c
  | _ => dropped c
  end.

(** ** Channel operations *)

Definition channel_id_from_name (name : bytes) : bytes := generichash_keyed 32 (str "FinBit-Chan") name.

Definition ensure_id (name : bytes) (c : Client) : ChannelState * Client :=
  let cs := channel_at name c in
  if bool_decide (take 3 (ch_id cs) = replicate 3 Byte.x00) then
    let cs := ch_with_id (channel_id_from_name name) cs in
    (cs, set_channel name cs (set_channel_name (ch_id cs) name c))
  else (cs, set_channel name cs c).

Definition subscribe_now (name : bytes) (cs : ChannelState) : ChannelState * list ClientEffect :=
  if subscribed cs then (cs, []) else (ch_with_sub cs, [SendFrame (FChanSubscribe (ch_id cs)); ChannelJoined name]).

Definition save_channel (fr : Fresh) (name : bytes) (cs : ChannelState) (c : Client) : Client :=
  persist_chan_session fr name cs (persist_chan_meta fr name cs (set_channel name cs c)).

Definition new_chain (fr : Fresh) (cs : ChannelState) : ChannelState :=
  let '(d, s) := SenderKeys.create_own_send_chain (ch_session cs) (f_chain_id fr) (f_chain_key fr) in
  ch_with_dist d (ch_with_session s cs).

Definition op_create (fr : Fresh) (op : PendingChannelOp) (cs : ChannelState) (c : Client) : Out :=
  let name := op_channel_name op in
  let cs := new_chain fr cs in
  if negb (f_write_ok fr (op_dist_path op)) then done_with (set_channel name cs c) [ErrorOccurred (ChannelCreateFailed name)]
  else
    let '(cs, es) := subscribe_now name cs in
    done_with (save_channel fr name cs c) (WriteFile (op_dist_path op) (own_dist cs) :: es).

Definition op_create_local (fr : Fresh) (op : PendingChannelOp) (cs : ChannelState) (c : Client) : Out :=
  let name := op_channel_name op in
  let cs := if filled (own_dist cs) then cs else new_chain fr cs in
  let cs := ch_with_crypto (if op_use_mls op then kMls else kSenderKeys) cs in
  let '(cs, c, es) :=
    if op_use_mls op then
      let cs := if id_unset cs then ch_with_id (channel_id_from_name name) cs else cs in
      match mls_create (id_pub (identity c)) (ch_id cs) (f_mls fr) with
      | Some g => let '(cs, c) := persist_mls_seed fr (ch_with_mls (Some g) cs) c in (cs, c, [])
      | None => (ch_with_crypto kSenderKeys cs, c, [ErrorOccurred (ChannelCreateFailed name)])
      end
    else (cs, c, []) in
  let '(cs, es') := subscribe_now name cs in
  done_with (save_channel fr name cs c) (es ++ es').

Definition op_join (fr : Fresh) (op : PendingChannelOp) (cs : ChannelState) (c : Client) : Out :=
  let name := op_channel_name op in
  match f_file fr (op_dist_path op) with
  | None => done_with c [ErrorOccurred (ChannelJoinFailed name)]
  | Some blob =>
      let '(cs, es) := subscribe_now name (ch_with_dist blob cs) in
      done_with (save_channel fr name cs c) es
  end.

(** The ciphertext and the associated data of the envelope. *)
Definition channel_encrypt (pt aad : bytes) (cs : ChannelState) : option (bytes * bytes) * ChannelState :=
  match use_mls cs with
  | Some g => let '(ct, g) := application_encrypt g pt in ((fun b => (b, [])) <$> ct, ch_with_mls (Some g) cs)
  | None =>
      match SenderKeys.encrypt (ch_session cs) pt aad with
      | Ok (ct, s) => (Some (ct, aad), ch_with_session s cs)
      | Throw _ => (None, cs)
      end
  end.

Definition op_send (fr : Fresh) (op : PendingChannelOp) (cs : ChannelState) (c : Client) : Out :=
  let name := op_channel_name op in
  if negb (filled (own_dist cs)) then done_with c [ErrorOccurred (ChannelNotJoined name)]
  else
    let '(res, cs) := channel_encrypt (op_text op) (envelope_aad_bytes (f_envid fr) (f_now fr)) cs in
    let c := set_channel name cs c in
    match res with
    | None => done_with c [ErrorOccurred (ChannelSendFailed name)]
    | Some (ct, aad) =>
        let env := mkEnvelope (f_envid fr) (f_now fr) (id_pub (identity c)) ct aad kAes256Gcm kProtocolVersion [] []
                     (ChannelGroupId (ch_id cs)) in
        let c := persist_chan_session fr name cs c in
        let c := on_store (chan_append_inbox (f_nonce fr 4) (ch_id cs) (id_pub (identity c)) (op_text op) (f_now fr)) c in
        done_with c [SendFrame (FEnvelope env)]
    end.

Definition op_leave (op : PendingChannelOp) (cs : ChannelState) (c : Client) : Out :=
  let name := op_channel_name op in
  let es := if subscribed cs then [SendFrame (FChanUnsubscribe (ch_id cs))] else [] in
  let c := on_store (chan_delete name (ch_id cs)) c in
  done_with (with_channels (delete name (channels c)) (delete (ch_id cs) (chan_id_to_name c)) c) es.

Definition op_room_join (fr : Fresh) (op : PendingChannelOp) (cs : ChannelState) (c : Client) : Out :=
  let name := op_channel_name op in
  let cs := if id_unset cs then ch_with_id (channel_id_from_name name) cs else cs in
  done_with (with_rooms (room_secrets c) (room_registries c) (<[ch_id cs := op_want_video op]> (active_voice_rooms c)) (set_channel name cs c))
    [SendFrame (FRoomJoin (ch_id cs) (op_want_video op) true (f_uplink fr))].

Definition op_room_leave (op : PendingChannelOp) (cs : ChannelState) (c : Client) : Out :=
  let name := op_channel_name op in
  let cs := if id_unset cs then ch_with_id (channel_id_from_name name) cs else cs in
  done_with (with_rooms (room_secrets c) (room_registries c) (delete (ch_id cs) (active_voice_rooms c)) (set_channel name cs c))
    [SendFrame (FRoomLeave (ch_id cs))].

(** The flag is false when the loop stops: the invitation waits for a bundle. *)
Definition op_invite (fr : Fresh) (op : PendingChannelOp) (cs : ChannelState) (c : Client) : Out * bool :=
  let name := op_channel_name op in
  match ch_crypto cs with
  | kMls =>
      let cs := if id_unset cs then ch_with_id (channel_id_from_name name) cs else cs in
      (done_with (push_send (pre_packed (op_peer op) (pack_mls_invite_request_payload (ch_id cs) name)) (set_channel name cs c)) [], true)
  | kSenderKeys =>
      let cs := if filled (own_dist cs) then cs else new_chain fr cs in
      let '(cs, es) := subscribe_now name cs in
      let c := set_channel name cs c in
      let s := session_at (op_peer op) c in
      let c := set_session (op_peer op) s c in
      match rat s with
      | None =>
          (done_with (with_queues (queue c) (op :: chan_queue c) (media_queue c) (pending_fetch_targets c ++ [op_peer op]) c)
             (es ++ [SendFrame (FKeyFetch (op_peer op) 0)]), false)
      | Some r =>
          let '(s, res) := build_envelope fr c s r (pack_channel_key_payload (ch_id cs) name (own_dist cs)) in
          let c := set_session (op_peer op) s c in
          match res with
          | Throw e => ((c, es, Some e), false)
          | Ok env => (done_with (save_channel fr name cs c) (es ++ [SendFrame (FEnvelope env)]), true)
          end
      end
  end.

Definition chan_op (fr : Fresh) (op : PendingChannelOp) (c : Client) : Out * bool :=
  let '(cs, c) := ensure_id (op_channel_name op) c in
  match op_kind op with
  | kCreate => (op_create fr op cs c, true)
  | kCreateLocal => (op_create_local fr op cs c, true)
  | kJoin => (op_join fr op cs c, true)
  | kSend => (op_send fr op cs c, true)
  | kLeave => (op_leave op cs c, true)
  | kRoomJoin => (op_room_join fr op cs c, true)
  | kRoomLeave => (op_room_leave op cs c, true)
  | kInvite => op_invite fr op cs c
  end.

Fixpoint chan_loop (fr : nat -> Fresh) (ops : list PendingChannelOp) (c : Client) : Out :=
  match ops with
  | [] => dropped c
  | op :: rest =>
      let '(c, es, e, go) := chan_op (fr (length rest)) op c in
      match e with
      | Some _ => (c, es, e)
      | None =>
          if negb go then (c, es, None)
          else let '(c, es', e) := chan_loop fr rest c in (c, es ++ es', e)
      end
  end.

Definition drain_channel_ops (fr : nat -> Fresh) (c : Client) : Out :=
  chan_loop fr (chan_queue c) (with_queues (queue c) [] (media_queue c) (pending_fetch_targets c) c).
End send.
