(* ===== verification/ChatClientApi.v ===== *)
(** * The desktop client: the calls of the user interface, and the start

    The public methods of [ChatClient] put work into the worker's queues; the worker
    restores the channels of the store when it starts. *)
From S2P Require Import Prelude StdMap Crypto Username SenderKeys Ratchet Wire Handshake Identity UsernameLog.
From S2P Require Import SFrame RoomKeys AttachmentFrame Sql ClientStore ClientProto ChatClient ChatClientRecv ChatClientSend.

Section api.
Context `{!Sodium, !Ed25519, !EdCurve, !PqCrypto, !Blake2b, !KeyedBlake2b, !MlsFacade, !SqlPlan, !SqlOrder}.
Context `{!ProtoMsg Ratchet.RatchetMessage, !ProtoMsg SenderKeys.SenderKeysMessage, !ProtoMsg SenderKeys.SenderKeysDistribution}.
Context `{!ProtoMsg DmPayload, !ProtoMsg Envelope}.

(** ** Queueing *)

Definition push_op (op : PendingChannelOp) (c : Client) : Client :=
  with_queues (queue c) (chan_queue c ++ [op]) (media_queue c) (pending_fetch_targets c) c.
Definition simple_op (k : ChanOpKind) (name dist_path text peer : bytes) : PendingChannelOp :=
  mkPendingChannelOp k name dist_path text peer false false.

Definition send_to_peer (peer text : bytes) : Client -> Client := push_send (mkPendingSend peer text [] []).

Definition sendShamirShareTo (peer share : bytes) (setup_id threshold total : Z) (label : bytes) (c : Client) :
    Client * list ClientEffect :=
  if negb (filled share) then (c, [ErrorOccurred EmptyShare])
  else (push_send (pre_packed peer (pack_shamir_push_payload share setup_id threshold total label)) c, []).

Definition requestShamirShareFrom (peer : bytes) (setup_id : Z) (reason : bytes) : Client -> Client :=
  push_send (pre_packed peer (pack_shamir_request_payload setup_id reason)).

Definition too_large (content : bytes) : bool := kMaxInlineAttachmentBytes <? Z.of_nat (length content).

Definition send_image_to_peer (peer mime filename content : bytes) (c : Client) : bool * Client * list ClientEffect :=
  if negb (filled content) then (false, c, [])
  else if too_large content then (false, c, [ErrorOccurred (AttachmentTooLarge (Z.of_nat (length content)))])
  else (true, push_send (mkPendingSend peer [] (pack_attachment_payload mime filename content)
                           (frame_attachment mime filename content)) c, []).

Definition create_channel (name dist_path : bytes) : Client -> Client := push_op (simple_op kCreate name dist_path [] []).
Definition join_channel (name dist_path : bytes) : Client -> Client := push_op (simple_op kJoin name dist_path [] []).
Definition send_to_channel (name text : bytes) : Client -> Client := push_op (simple_op kSend name [] text []).

Definition send_image_to_channel (name mime filename content : bytes) (c : Client) : bool * Client * list ClientEffect :=
  if negb (filled content) then (false, c, [])
  else if too_large content then (false, c, [ErrorOccurred (AttachmentTooLarge (Z.of_nat (length content)))])
  else (true, push_op (simple_op kSend name [] (frame_attachment mime filename content) []) c, []).

Definition create_local_channel (name : bytes) (use_mls : bool) : Client -> Client :=
  push_op (mkPendingChannelOp kCreateLocal name [] [] [] false use_mls).
Definition invite_peer_to_channel (name peer : bytes) : Client -> Client := push_op (simple_op kInvite name [] [] peer).
Definition join_channel_call (name : bytes) (with_video : bool) : Client -> Client :=
  push_op (mkPendingChannelOp kRoomJoin name [] [] [] with_video false).
Definition leave_channel (name : bytes) : Client -> Client := push_op (simple_op kLeave name [] [] []).

Definition send_mls_invite_request (peer channel_id name : bytes) : Client -> Client :=
  push_send (pre_packed peer (pack_mls_invite_request_payload channel_id name)).
Definition invite_peer_to_mls_channel (name peer : bytes) : Client -> Client :=
  send_mls_invite_request peer (channel_id_from_name name) name.
Definition send_mls_key_package (peer channel_id key_package : bytes) : Client -> Client :=
  push_send (pre_packed peer (pack_mls_key_package_payload channel_id key_package)).
Definition send_mls_welcome (peer channel_id name welcome : bytes) : Client -> Client :=
  push_send (pre_packed peer (pack_mls_welcome_payload channel_id name welcome)).
Definition send_mls_commit (peer channel_id commit : bytes) : Client -> Client :=
  push_send (pre_packed peer (pack_mls_commit_payload channel_id commit)).

(** ** Starting *)

(** The master key of the store, from the seed of the vault. *)
Definition store_master_key (seed : bytes) : result HkdfError bytes :=
  hkdf_expand (hkdf_extract [] seed) (str "FinBit-DB-Master-v1") 32.

(** The MLS group of a channel; the store's exceptions are not caught here. *)
Definition restore_mls (name : bytes) (c : Client) (st : SqliteStore) (cs : ChannelState) :
    result ClientError (ChannelState * list ClientEffect) :=
  match ch_crypto cs with
  | kSenderKeys => Ok (cs, [])
  | kMls =>
      match mls_group_load (ch_id cs) st with
      | Throw e => Throw (FromStore e)
      | Ok None => Ok (cs, [])
      | Ok (Some snap) =>
          match from_seed_and_log (snap_seed snap) (snap_ops snap) with
          | None => Ok (cs, [ErrorOccurred (MlsRestoreFailed name)])
          | Some g =>
              Ok (ch_with_members (list_to_set (other_members c g)) (ch_with_seq (snap_next_seq snap) (ch_with_mls (Some g) cs)), [])
          end
      end
  end.

Definition restore_session (name : bytes) (st : SqliteStore) (cs : ChannelState) : ChannelState :=
  let cs := match load_session (chanstate_key name) st with
            | Some blob => match SenderKeys.deserialize_state blob with Some s => ch_with_session s cs | None => cs end
            | None => cs
            end in
  foldl (fun cs (p : bytes * bytes) => lazy_install p.1 p.2 cs) cs (chan_peers (ch_id cs) st).

(** [channels.emplace] keeps an entry that exists. *)
Definition restore_channel (st : SqliteStore) (row : ChannelRow) (c : Client) : Out :=
  if negb (length (cr_channel_id row) =? 32)%nat then dropped c
  else
    let cs := ch_with_crypto (cr_crypto row) (ch_with_dist (cr_own_dist row) (ch_with_id (cr_channel_id row) default_channel)) in
    match restore_mls (cr_name row) c st cs with
    | Throw e => (c, [], Some e)
    | Ok (cs, es) =>
        let cs := ch_with_sub (restore_session (cr_name row) st cs) in
        let c := set_channel_name (ch_id cs) (cr_name row) c in
        let c := match channels c !! cr_name row with Some _ => c | None => set_channel (cr_name row) cs c end in
        done_with c (es ++ [SendFrame (FChanSubscribe (cr_channel_id row)); ChannelJoined (cr_name row)])
    end.

(** What the worker finds when it starts over: the identity, the store and the
    username log; everything else of the previous run is gone, the sessions with it. *)
Definition restart (c : Client) : Client :=
  mkClient (identity c) (x25519 c) (pq_id_sec c) (store c) (username_log c) ∅ ∅ ∅ [] [] [] [] ∅ ∅ ∅.

Definition restore_channels (c : Client) : Out :=
  match store c with
  | None => dropped c
  | Some st => run_each (fun _ => restore_channel st) (chan_list st) c
  end.
End api.
