(* ===== verification/ChatClientProofs.v ===== *)
(** * The desktop client's worker: lemmas on the handlers *)
From S2P Require Import Prelude StdMap Crypto Username SenderKeys Ratchet Wire Handshake HandshakeProofs Identity UsernameLog.
From S2P Require Import SFrame RoomKeys AttachmentFrame Sql ClientStore ClientProto ChatClient ChatClientRecv ChatClientSend.

#[local] Opaque Ratchet.decrypt Ratchet.encrypt Ratchet.try_decrypt Ratchet.header_matches_recv_chain verify_sealed_sender
  append_inbox append_inbox_with_expiry.

Section proofs.
Context `{!Sodium, !Ed25519, !EdCurve, !PqCrypto, !Blake2b, !KeyedBlake2b, !MlsFacade, !SqlPlan, !SqlOrder}.
Context `{!ProtoMsg Ratchet.RatchetMessage, !ProtoMsg SenderKeys.SenderKeysMessage, !ProtoMsg SenderKeys.SenderKeysDistribution}.
Context `{!ProtoMsg DmPayload, !ProtoMsg Envelope}.

(** ** Sessions *)

Lemma set_session_lookup (n : bytes) (s : Session) (c : Client) : sessions (set_session n s c) !! n = Some s.
Proof. apply lookup_insert_eq. Qed.

Lemma set_session_other (n n' : bytes) (s : Session) (c : Client) :
  n <> n' -> sessions (set_session n s c) !! n' = sessions c !! n'.
Proof. intros. by apply lookup_insert_ne. Qed.

Lemma set_session_id (n : bytes) (s : Session) (c : Client) : sessions c !! n = Some s -> set_session n s c = c.
Proof. intros E. unfold set_session. rewrite insert_id by done. by destruct c. Qed.

Lemma set_session_twice (n : bytes) (s s' : Session) (c : Client) :
  set_session n s (set_session n s' c) = set_session n s c.
Proof. unfold set_session, with_sessions. cbn [sessions]. by rewrite insert_insert_eq. Qed.

Lemma session_at_Some (n : bytes) (s : Session) (c : Client) : sessions c !! n = Some s -> session_at n c = s.
Proof. intros E. unfold session_at. by rewrite E. Qed.

Lemma session_at_set (n : bytes) (s : Session) (c : Client) : session_at n (set_session n s c) = s.
Proof. apply session_at_Some, set_session_lookup. Qed.

Lemma with_rat_id (r : Ratchet.State) (s : Session) : rat s = Some r -> with_rat r s = s.
Proof. destruct s. unfold with_rat. cbn. by intros ->. Qed.

(** At most one live session for a key. *)
Definition sole (pub n : bytes) (c : Client) : Prop :=
  forall n' s, sessions c !! n' = Some s -> live_for pub s = true -> n' = n.

Lemma live_for_true (pub : bytes) (s : Session) : live_for pub s = true <-> peer_pub s = pub /\ is_Some (rat s).
Proof.
  unfold live_for. destruct (rat s); [|by split; [|intros [_ [? ?]]]].
  rewrite bool_decide_eq_true. split; [intros ->; eauto|by intros [? _]].
Qed.

Lemma find_session_sole (pub n : bytes) (s : Session) (c : Client) :
  sessions c !! n = Some s -> live_for pub s = true -> sole pub n c -> find_session pub c = Some n.
Proof.
  intros Hs Hl Hu. unfold find_session.
  destruct (list_find _ (map_elements (sessions c))) as [[i [n' s']]|] eqn:E.
  - apply list_find_Some in E as (Hi & Hp & _). cbn [fmap option_fmap option_map fst snd] in *.
    apply list_elem_of_lookup_2, elem_of_map_elements in Hi. f_equal. by eapply Hu.
  - apply list_find_None in E. rewrite Forall_forall in E. exfalso.
    by apply (E (n, s)); [apply elem_of_map_elements|].
Qed.

Lemma find_session_Some (pub n : bytes) (c : Client) :
  find_session pub c = Some n -> exists s, sessions c !! n = Some s /\ live_for pub s = true.
Proof.
  unfold find_session. destruct (list_find _ _) as [[i [n' s']]|] eqn:E; [|done]. intros [= <-].
  apply list_find_Some in E as (Hi & Hp & _). apply list_elem_of_lookup_2, elem_of_map_elements in Hi. eauto.
Qed.

Lemma find_session_none (pub : bytes) (c : Client) :
  (forall n s, sessions c !! n = Some s -> live_for pub s = false) -> find_session pub c = None.
Proof.
  intros Hn. destruct (find_session pub c) as [n|] eqn:E; [|done].
  apply find_session_Some in E as (s & Hs & Hl). by rewrite (Hn _ _ Hs) in Hl.
Qed.

Lemma sole_set (pub n : bytes) (s : Session) (c : Client) : sole pub n c -> sole pub n (set_session n s c).
Proof.
  intros Hu n' s' Hs Hl. destruct (decide (n' = n)) as [->|Hne]; [done|].
  rewrite set_session_other in Hs by done. by eapply Hu.
Qed.

(** ** The sealed-sender pre-pass *)

(** No other session takes the envelope. *)
Definition refuses (env : Envelope) (fr : Fresh) (n : bytes) (c : Client) : Prop :=
  forall n' s r, n' <> n -> sessions c !! n' = Some s -> rat s = Some r ->
    (Ratchet.try_decrypt r (ciphertext env) (env_aad env) (f_dh fr n')).1 = Ok None.

Lemma try_decrypt_refused (r : Ratchet.State) (x aad rnd : bytes) :
  (Ratchet.try_decrypt r x aad rnd).1 = Ok None -> Ratchet.try_decrypt r x aad rnd = (Ok None, r).
Proof.
  intros E. destruct (Ratchet.try_decrypt r x aad rnd) as [res r'] eqn:Et. cbn [fst] in E. subst res. f_equal.
  with_strategy transparent [Ratchet.try_decrypt] unfold Ratchet.try_decrypt in Et.
  by destruct (Ratchet.decrypt r x aad rnd) as [[[pt|]|e] s1]; simplify_eq.
Qed.

Lemma try_sessions_refused (env : Envelope) (fr : Fresh) (matched : bool) (n : bytes) (c : Client) (names : list bytes) :
  refuses env fr n c -> (forall n', n' ∈ names -> is_Some (sessions c !! n')) ->
  (forall s r, n ∈ names -> sessions c !! n = Some s -> rat s = Some r ->
     Ratchet.header_matches_recv_chain r (ciphertext env) = negb matched) ->
  try_sessions env fr matched names c = (c, Ok None).
Proof.
  intros Hr. induction names as [|n' names IH]; intros Hin Hn; [done|].
  cbn [try_sessions]. destruct (Hin n') as [s Hs]; [left|]. rewrite (session_at_Some _ _ _ Hs).
  assert (try_sessions env fr matched names c = (c, Ok None)) as Hrest.
  { apply IH; [intros; apply Hin; by right|]. intros ? ? ?. apply Hn. by right. }
  destruct (rat s) as [r|] eqn:Er; [|done]. destruct (Bool.eqb _ _) eqn:Eb; [|done].
  apply Bool.eqb_prop in Eb. destruct (decide (n' = n)) as [->|Hne].
  { pose proof (Hn s r ltac:(left) Hs Er) as E. rewrite Eb in E. by destruct matched. }
  unfold try_session. rewrite (try_decrypt_refused _ _ _ _ (Hr n' s r Hne Hs Er)).
  rewrite with_rat_id, set_session_id by done. done.
Qed.

Lemma try_sessions_found (env : Envelope) (fr : Fresh) (matched : bool) (n : bytes) (s s' : Session) (r : Ratchet.State)
    (pt : bytes) (c : Client) (names : list bytes) :
  refuses env fr n c -> NoDup names -> (forall n', n' ∈ names -> is_Some (sessions c !! n')) -> n ∈ names ->
  sessions c !! n = Some s -> rat s = Some r ->
  Ratchet.header_matches_recv_chain r (ciphertext env) = matched ->
  try_session c env fr n s r = (s', Ok (Some pt)) ->
  try_sessions env fr matched names c = (set_session n s' c, Ok (Some (peer_pub s', pt))).
Proof.
  intros Hr. induction names as [|n' names IH]; intros Hnd Hall Hin Hs Er Hm Ht; [by apply not_elem_of_nil in Hin|].
  apply NoDup_cons in Hnd as [Hnin Hnd]. cbn [try_sessions].
  destruct (decide (n' = n)) as [->|Hne].
  - rewrite (session_at_Some _ _ _ Hs), Er, Hm, Bool.eqb_reflx, Ht. done.
  - destruct (Hall n') as [s1 Hs1]; [left|]. rewrite (session_at_Some _ _ _ Hs1).
    assert (try_sessions env fr matched names c = (set_session n s' c, Ok (Some (peer_pub s', pt)))) as Hrest.
    { apply IH; try done; [intros; apply Hall; by right|]. apply elem_of_cons in Hin as [->|]; done. }
    destruct (rat s1) as [r1|] eqn:Er1; [|done]. destruct (Bool.eqb _ _); [|done].
    unfold try_session at 1. rewrite (try_decrypt_refused _ _ _ _ (Hr n' s1 r1 Hne Hs1 Er1)).
    rewrite with_rat_id, set_session_id by done. done.
Qed.

Lemma elem_of_session_names (n : bytes) (c : Client) : n ∈ session_names c <-> is_Some (sessions c !! n).
Proof.
  unfold session_names. rewrite list_elem_of_fmap. split.
  - intros ([n' s] & -> & Hin). apply elem_of_map_elements in Hin. eauto.
  - intros [s Hs]. exists (n, s). by rewrite elem_of_map_elements.
Qed.

Lemma sealed_prepass_found (env : Envelope) (fr : Fresh) (n : bytes) (s s' : Session) (r : Ratchet.State) (pt : bytes) (c : Client) :
  refuses env fr n c -> sessions c !! n = Some s -> rat s = Some r -> try_session c env fr n s r = (s', Ok (Some pt)) ->
  sealed_prepass env fr c = (set_session n s' c, Ok (Some (peer_pub s', pt))).
Proof.
  intros Hr Hs Er Ht. assert (NoDup (session_names c)) as Hnd by apply NoDup_map_elements.
  assert (forall n', n' ∈ session_names c -> is_Some (sessions c !! n')) as Hall by (intros; by apply elem_of_session_names).
  assert (n ∈ session_names c) as Hin by (apply elem_of_session_names; eauto).
  unfold sealed_prepass. destruct (Ratchet.header_matches_recv_chain r (ciphertext env)) eqn:Em.
  - by rewrite (try_sessions_found env fr true n s s' r pt c).
  - rewrite (try_sessions_refused env fr true n c); [|done|done|].
    + by rewrite (try_sessions_found env fr false n s s' r pt c).
    + intros s1 r1 _ Hs1 Er1. by simplify_eq.
Qed.

(** ** Payload handlers leave the sessions and the keys alone *)

Record same_core (c c' : Client) : Prop := {
  sc_identity : identity c' = identity c;
  sc_x25519 : x25519 c' = x25519 c;
  sc_pq : pq_id_sec c' = pq_id_sec c;
  sc_sessions : sessions c' = sessions c;
}.

#[local] Hint Constructors same_core : core.

Lemma same_core_refl (c : Client) : same_core c c.
Proof. by split. Qed.

Lemma same_core_trans (c c' c'' : Client) : same_core c c' -> same_core c' c'' -> same_core c c''.
Proof. intros [] []. split; congruence. Qed.

Lemma same_core_enqueue (payload : bytes) (pubs : list bytes) (c : Client) :
  same_core c (foldl (enqueue_to_pub payload) c pubs).
Proof.
  revert c. induction pubs as [|p pubs IH]; intros c; [apply same_core_refl|].
  cbn [foldl]. eapply same_core_trans; [|apply IH]. unfold enqueue_to_pub.
  destruct (find_session p c) as [n|]; [|apply same_core_refl]. destruct (filled n); [by split|apply same_core_refl].
Qed.

Lemma same_core_last_op (fr : Fresh) (k : nat) (cs cs' : ChannelState) (c c' : Client) :
  persist_mls_last_op fr k cs c = Some (cs', c') -> same_core c c'.
Proof.
  unfold persist_mls_last_op. destruct (store c), (ch_mls cs) as [g|]; try (intros [= <- <-]; apply same_core_refl).
  destruct (last (operation_log g)); [|intros [= <- <-]; apply same_core_refl].
  destruct (mls_group_op_append _ _ _ _ _ _) as [st' [?|?]]; [|done]. intros [= <- <-]. by split.
Qed.

Lemma same_core_seed (fr : Fresh) (cs : ChannelState) (c : Client) : same_core c (persist_mls_seed fr cs c).2.
Proof. unfold persist_mls_seed. destruct (store c), (ch_mls cs); by split. Qed.

Lemma same_core_set_channel (name : bytes) (cs : ChannelState) (c c' : Client) :
  same_core c c' -> same_core c (set_channel name cs c').
Proof. by intros []. Qed.

Lemma same_core_add_member (fr : Fresh) (sname chan id kp : bytes) (cs : ChannelState) (g : MlsGroup) (c : Client) :
  same_core c (add_member_steps fr sname chan id kp cs g c).
Proof.
  unfold add_member_steps. destruct (propose_add_member g kp) as [[proposal|] g1]; [|by split].
  destruct (persist_mls_last_op _ _ _ _) as [[cs1 c1]|] eqn:E1; [|by split]. apply same_core_last_op in E1.
  eapply same_core_trans; [exact E1|]. destruct (commit_pending g1) as [[[welcome commit]|] g2].
  - pose proof (same_core_enqueue (pack_mls_proposal_payload id proposal) (other_members c1 g1) c1) as Hq.
    destruct (persist_mls_last_op _ 7 _ _) as [[cs2 c2]|] eqn:E2; [|by apply same_core_set_channel].
    apply same_core_last_op in E2. apply same_core_set_channel.
    eapply same_core_trans; [exact Hq|]. eapply same_core_trans; [exact E2|].
    eapply same_core_trans; [|apply same_core_enqueue]. by split.
  - apply same_core_set_channel, same_core_enqueue.
Qed.

Lemma same_core_mls_apply (fr : Fresh) (id : bytes) (op : MlsGroup -> bool * MlsGroup) (b : bool) (c : Client) :
  same_core c (mls_apply fr id op b c).
Proof.
  unfold mls_apply. destruct (negb _); [apply same_core_refl|]. destruct (ch_mls _) as [g|]; [|by split].
  destruct (op g) as [[] g']; [|by split]. cbn [negb].
  destruct (persist_mls_last_op _ _ _ _) as [[cs1 c1]|] eqn:E1; [|by split]. apply same_core_last_op in E1.
  by apply same_core_set_channel.
Qed.

Lemma dispatch_payload_core (fr : Fresh) (env : Envelope) (sname sender username : bytes) (p : DmPayload) (c : Client) :
  let out := dispatch_payload fr env sname sender username p c in same_core c out.1.1 /\ out.2 = None.
Proof.
  unfold dispatch_payload. destruct (dm_body p); cbn zeta;
    unfold on_text, on_attachment, on_room_key, on_channel_key, on_shamir_push, on_mls_invite_request, on_mls_key_package,
      on_mls_welcome, on_mls_commit, on_mls_proposal, on_media_signal, done_with, dropped;
    repeat match goal with
    | |- context [if ?b then _ else _] => destruct b
    | |- context [match pending_join ?x with _ => _ end] => destruct (pending_join x)
    | |- context [match start_join ?x ?y with _ => _ end] => destruct (start_join x y)
    | |- context [match ch_mls ?x with _ => _ end] => destruct (ch_mls x)
    | |- context [match complete ?x ?y with _ => _ end] => destruct (complete x y)
    end; try (split; [by split|done]); cbn [fst snd]; split; try done.
  - apply same_core_add_member.
  - match goal with |- context [persist_mls_seed fr ?cs c] => pose proof (same_core_seed fr cs c) as [? ? ? ?];
      destruct (persist_mls_seed fr cs c) end. by split.
  - match goal with |- context [persist_mls_seed fr ?cs c] => pose proof (same_core_seed fr cs c) as [? ? ? ?];
      destruct (persist_mls_seed fr cs c) end. by split.
  - apply same_core_mls_apply.
  - apply same_core_mls_apply.
Qed.

Lemma dispatch_payload_body (fr : Fresh) (env : Envelope) (sname sender username : bytes) (p p' : DmPayload) (c : Client) :
  dm_body p' = dm_body p -> ttl_ms p' = ttl_ms p ->
  dispatch_payload fr env sname sender username p' c = dispatch_payload fr env sname sender username p c.
Proof. intros Hb Ht. unfold dispatch_payload. by rewrite Hb, Ht. Qed.

(** ** Key bundles *)

Lemma pq_tofu_admit_core (now : Z) (pub label : bytes) (pq : bool) (c : Client) : same_core c (pq_tofu_admit now pub label pq c).1.2.
Proof.
  unfold pq_tofu_admit. destruct (store c); [|apply same_core_refl]. destruct (is_pq_capability_downgrade _ _); [apply same_core_refl|].
  destruct (_ && _); by split.
Qed.

Lemma has_live_true (pub : bytes) (c : Client) :
  has_live pub c = true -> exists n s, sessions c !! n = Some s /\ live_for pub s = true.
Proof.
  intros ([n s] & Hin & Hl)%existsb_exists. exists n, s. split; [|done].
  by apply elem_of_map_elements, list_elem_of_In.
Qed.

Lemma has_live_intro (pub n : bytes) (s : Session) (c : Client) :
  sessions c !! n = Some s -> live_for pub s = true -> has_live pub c = true.
Proof.
  intros Hs Hl. apply existsb_exists. exists (n, s). split; [|done]. by apply list_elem_of_In, elem_of_map_elements.
Qed.

(** A response that gives a session to a peer without one. *)
Lemma on_key_fetch_resp_session (fr : Fresh) (resp : KeyBundleFetchResponse) (b : PreKeyBundle) (name : bytes)
    (c c' : Client) (es : list ClientEffect) :
  head (pending_fetch_targets c) = Some name -> kf_bundle resp = Some b ->
  (forall n s, sessions c !! n = Some s -> live_for (pk_identity_pubkey b) s = false) ->
  on_key_fetch_resp fr resp c = (c', es, None) -> is_Some (find_session (pk_identity_pubkey b) c') ->
  exists s c1, same_core c c1 /\ session_from_bundle fr b c1 (session_at name c1) = (s, None) /\ c' = set_session name s c1.
Proof.
  intros Hh Hb Hno He [n Hf]. assert (forall c1, same_core c c1 -> find_session (pk_identity_pubkey b) c1 = None) as Hcore.
  { intros c1 [_ _ _ Hs]. apply find_session_none. rewrite Hs. apply Hno. }
  unfold on_key_fetch_resp in He. rewrite Hh, Hb in He. cbn [default from_option id] in He.
  set (c0 := with_queues _ _ _ _ c) in He. assert (same_core c c0) as Hq0 by (by split).
  destruct (negb (filled _)); [injection He as <- _; by rewrite (Hcore _ Hq0) in Hf|].
  destruct (_ || _).
  { unfold drop_queued, done_with in He. injection He as <- _. rewrite Hcore in Hf; [done|]. by split. }
  pose proof (pq_tofu_admit_core (f_now fr) (pk_identity_pubkey b) name (filled (pq_pubkey b)) c0) as Hq1.
  change (default [] (Some name)) with name in He.
  destruct (pq_tofu_admit _ _ _ _ c0) as [[[] c1] es1]; cbn [fst snd negb] in Hq1, He.
  2: { unfold done_with in He. injection He as <- _. by rewrite (Hcore _ (same_core_trans _ _ _ Hq0 Hq1)) in Hf. }
  assert (same_core c c1) as Hc1 by (by eapply same_core_trans).
  destruct (has_live _ c1) eqn:El.
  { unfold done_with in He. injection He as <- _. by rewrite (Hcore _ Hc1) in Hf. }
  destruct (session_from_bundle fr b c1 (session_at name c1)) as [s o] eqn:Es. injection He as <- _ ->.
  by exists s, c1.
Qed.

Lemma session_from_bundle_ok (fr : Fresh) (b : PreKeyBundle) (c : Client) (s s' : Session) :
  session_from_bundle fr b c s = (s', None) ->
  exists hyb r, derive_hybrid_send_from_bundle (x25519 c) (signed_prekey b) b (f_kem fr) = Ok hyb /\
    Ratchet.init_alice (hs_shared hyb) (signed_prekey b) (f_init fr) = Ok r /\
    peer_pub s' = pk_identity_pubkey b /\ rat s' = Some r /\ s_pq_ct s' = hs_pq_ct hyb /\ seal_outbound s' = false.
Proof.
  unfold session_from_bundle. destruct (derive_hybrid_send_from_bundle _ _ _ _) as [hyb|] eqn:Eh; [|done].
  cbn [peer_pub s_pq_ct]. destruct (Ratchet.init_alice _ _ _) as [r|] eqn:Er; [|done]. intros [= <-]. by exists hyb, r.
Qed.
End proofs.
