(* ===== verification/ChatConversation.v ===== *)
(** * Two desktop clients in conversation

    From the fetched key bundle on: clients that send and receive through the
    handlers of [chat_client.cpp], a network that reorders and loses envelopes, and
    whatever else the clients do.  The conversation refines the world of the Double
    Ratchet ([RatchetConversation]); every payload arrives at the other side under
    the sender's identity. *)
From S2P Require Import Prelude StdMap Crypto Username SenderKeys Ratchet RatchetProofs RatchetConversation Wire Handshake HandshakeProofs.
From S2P Require Import Identity UsernameLog SFrame RoomKeys AttachmentFrame Sql ClientStore ClientProto.
From S2P Require Import ChatClient ChatClientRecv ChatClientSend ChatClientProofs.

#[local] Opaque Ratchet.decrypt Ratchet.encrypt Ratchet.try_decrypt Ratchet.header_matches_recv_chain verify_sealed_sender
  append_inbox append_inbox_with_expiry Ratchet.init_bob Ratchet.init_alice append_outbox cache_peer_name set_peer_verified.

Section conversation.
Context `{!Sodium, !SodiumLaws, !Ed25519, !Ed25519Laws, !EdCurve, !EdCurveLaws, !PqCrypto, !PqLaws}.
Context `{!Blake2b, !KeyedBlake2b, !MlsFacade, !SqlPlan, !SqlOrder}.
Context `{!ProtoMsg Ratchet.RatchetMessage, !ProtoLaws Ratchet.RatchetMessage}.
Context `{!ProtoMsg SenderKeys.SenderKeysMessage, !ProtoMsg SenderKeys.SenderKeysDistribution}.
Context `{!ProtoMsg DmPayload, !ProtoLaws DmPayload, !ProtoMsg Envelope}.

(** ** One client *)

(** The client of [me] has exactly one live session with [peer], under [n]. *)
Record linked (me : Identity) (n peer : bytes) (r : Ratchet.State) (s : Session) (c : Client) : Prop := {
  lk_me : identity c = me;
  lk_session : sessions c !! n = Some s;
  lk_peer : peer_pub s = peer;
  lk_rat : rat s = Some r;
  lk_sole : sole peer n c;
  lk_name : filled n = true;
}.

(** The recipient can tell who sent it. *)
Definition attributed (rcpt sender : bytes) (env : Envelope) (p : DmPayload) : Prop :=
  sender_pubkey env = sender \/
  sender_pubkey env = [] /\ sealed_sender_pubkey p = sender /\ length (sealed_sender_sig p) = 64%nat /\
  verify_sealed_sender sender (sealed_sender_sig p) (envelope_id env) (timestamp_ms env) rcpt = true.

(** [pt], the plaintext of the envelope, is the payload [p] of [sender]. *)
Record carries (sender rcpt : bytes) (env : Envelope) (pt : bytes) (p : DmPayload) : Prop := {
  cy_aad : env_aad env = envelope_aad_bytes (envelope_id env) (timestamp_ms env);
  cy_rcpt : recipient env = UserPubkey rcpt;
  cy_payload : exists p', pb_parse pt = Some p' /\ dm_body p' = dm_body p /\ ttl_ms p' = ttl_ms p /\ attributed rcpt sender env p';
}.

(** The name the store knows for a key, and the lookup that is sent when it knows none. *)
Definition username_of (sender : bytes) (c : Client) : bytes := default [] (store c ≫= peer_name sender).
Definition lookup_frames (sender : bytes) (c : Client) : list ClientEffect :=
  match store c, store c ≫= peer_name sender with Some _, None => [SendFrame (FUsernameLookup sender)] | _, _ => [] end.

(** Dispatching [env] advances the session [n] to the ratchet [r'] and hands [p] of
    [peer] to its handler. *)
Definition delivers (n peer : bytes) (r' : Ratchet.State) (fr : Fresh) (env : Envelope) (p : DmPayload) (c : Client) : Prop :=
  exists s', peer_pub s' = peer /\ rat s' = Some r' /\
    dispatch_envelope fr env c =
    (let '(c2, es, e) := dispatch_payload fr env n peer (username_of peer c) p (set_session n s' c) in
     (c2, lookup_frames peer c ++ es, e)).

Lemma received_payload (fr : Fresh) (env : Envelope) (n peer pt : bytes) (p p' : DmPayload) (c : Client) :
  pb_parse pt = Some p' -> dm_body p' = dm_body p -> ttl_ms p' = ttl_ms p ->
  received fr env n peer pt c =
  (let '(c2, es, e) := dispatch_payload fr env n peer (username_of peer c) p
     (set_session n (with_seal (with_ack (session_at n c))) c) in (c2, lookup_frames peer c ++ es, e)).
Proof.
  intros Hp Hb Ht. unfold received. rewrite Hp. cbn zeta.
  by rewrite (dispatch_payload_body fr env n peer _ p p' _ Hb Ht).
Qed.

Lemma peer_pub_acked (s : Session) : peer_pub (with_seal (with_ack s)) = peer_pub s.
Proof. unfold with_ack. by destruct (pq_acked s). Qed.

Lemma rat_acked (s : Session) : rat (with_seal (with_ack s)) = rat s.
Proof. unfold with_ack. by destruct (pq_acked s). Qed.

Lemma aad_consistent_carried (sender rcpt : bytes) (env : Envelope) (pt : bytes) (p : DmPayload) :
  carries sender rcpt env pt p -> aad_consistent env = true.
Proof. intros [Ha _ _]. unfold aad_consistent. rewrite Ha. by rewrite (bool_decide_true (_ = envelope_aad_bytes _ _)), orb_true_r. Qed.

Lemma linked_find (me : Identity) (n peer : bytes) (r : Ratchet.State) (s : Session) (c : Client) :
  linked me n peer r s c -> find_session peer c = Some n.
Proof. intros [? Hs Hp Hr Hu _]. apply (find_session_sole _ _ s); [done| |done]. apply live_for_true. eauto. Qed.

Lemma linked_name_for (me : Identity) (n peer : bytes) (r : Ratchet.State) (s : Session) (c : Client) :
  linked me n peer r s c -> session_name_for peer c = n.
Proof. intros Hl. unfold session_name_for. rewrite (linked_find _ _ _ _ _ _ Hl). cbn. by rewrite (lk_name _ _ _ _ _ _ Hl). Qed.

Lemma linked_set (me : Identity) (n peer : bytes) (r r' : Ratchet.State) (s s' : Session) (c : Client) :
  linked me n peer r s c -> peer_pub s' = peer -> rat s' = Some r' -> linked me n peer r' s' (set_session n s' c).
Proof. intros [] Hp Hr. split; try done; [apply set_session_lookup|by apply sole_set]. Qed.

Lemma linked_core (me : Identity) (n peer : bytes) (r : Ratchet.State) (s : Session) (c c' : Client) :
  linked me n peer r s c -> same_core c c' -> linked me n peer r s c'.
Proof. intros [] []. split; try congruence. intros n' s' Hs. rewrite sc_sessions in Hs. eauto. Qed.

Lemma dispatch_dm_linked (me : Identity) (n peer : bytes) (r : Ratchet.State) (s : Session) (c : Client)
    (env : Envelope) (o : option bytes) (fr : Fresh) :
  linked me n peer r s c -> aad_consistent env = true ->
  dispatch_dm env peer o fr c =
  match o with
  | Some pt => received fr env n peer pt c
  | None =>
      match Ratchet.decrypt r (ciphertext env) (env_aad env) (f_dh fr n) with
      | (Throw e, r') => (set_session n (with_rat r' s) c, [], Some (FromRatchet e))
      | (Ok None, r') => dropped (set_session n (with_rat r' s) c)
      | (Ok (Some pt), r') => received fr env n peer pt (set_session n (with_rat r' s) c)
      end
  end.
Proof.
  intros Hl Ha. unfold dispatch_dm. rewrite (linked_name_for _ _ _ _ _ _ Hl).
  rewrite (session_at_Some _ _ _ (lk_session _ _ _ _ _ _ Hl)), (lk_rat _ _ _ _ _ _ Hl), Ha. cbn [negb].
  rewrite !(set_session_id _ _ _ (lk_session _ _ _ _ _ _ Hl)). destruct o; [done|].
  by destruct (Ratchet.decrypt _ _ _ _) as [[[pt|]|e] r'].
Qed.

Lemma dispatch_envelope_named (env : Envelope) (peer rcpt : bytes) (fr : Fresh) (c : Client) :
  sender_pubkey env = peer -> length peer = 32%nat -> recipient env = UserPubkey rcpt ->
  dispatch_envelope fr env c = dispatch_dm env peer None fr c.
Proof.
  intros Hs Hlen Hr. unfold dispatch_envelope. rewrite Hs, Hr. destruct peer as [|x l]; [done|].
  by rewrite Hlen, Nat.eqb_refl.
Qed.

Lemma receive_linked (me : Identity) (n peer : bytes) (r r' : Ratchet.State) (s : Session) (c : Client)
    (env : Envelope) (pt : bytes) (p : DmPayload) (fr : Fresh) :
  linked me n peer r s c -> carries peer (id_pub me) env pt p -> length peer = 32%nat -> refuses env fr n c ->
  Ratchet.decrypt r (ciphertext env) (env_aad env) (f_dh fr n) = (Ok (Some pt), r') ->
  delivers n peer r' fr env p c.
Proof.
  intros Hl Hc Hlen Hr Hd. pose proof (aad_consistent_carried _ _ _ _ _ Hc) as Ha.
  destruct Hc as [_ Hrcpt (p' & Hp & Hb & Ht & Hatt)].
  unfold delivers. destruct Hatt as [Hs|(Hs & Hk & Hsig & Hv)].
  - exists (with_seal (with_ack (with_rat r' s))).
    rewrite peer_pub_acked, rat_acked. split; [apply Hl|]. split; [done|].
    rewrite (dispatch_envelope_named _ _ _ _ _ Hs Hlen Hrcpt), (dispatch_dm_linked me n peer r s c env None fr Hl Ha), Hd.
    rewrite (received_payload _ _ _ _ _ _ _ _ Hp Hb Ht), session_at_set, set_session_twice. done.
  - exists (with_seal (with_ack (with_seal (with_rat r' s)))).
    rewrite peer_pub_acked, rat_acked. split; [apply Hl|]. split; [done|].
    unfold dispatch_envelope. rewrite Hs, Hrcpt.
    assert (Ratchet.try_decrypt r (ciphertext env) (env_aad env) (f_dh fr n) = (Ok (Some pt), r')) as Htd
      by (with_strategy transparent [Ratchet.try_decrypt] unfold Ratchet.try_decrypt; by rewrite Hd).
    assert (try_session c env fr n s r = (with_seal (with_rat r' s), Ok (Some pt))) as Hts.
    { unfold try_session. rewrite Htd, Hp. unfold sealed_ok. cbn [with_rat peer_pub].
      rewrite Hk, Hlen, Hsig, (lk_peer _ _ _ _ _ _ Hl), (lk_me _ _ _ _ _ _ Hl), Hv.
      by rewrite (bool_decide_true (peer = peer)). }
    rewrite (sealed_prepass_found env fr n s _ r pt c Hr (lk_session _ _ _ _ _ _ Hl) (lk_rat _ _ _ _ _ _ Hl) Hts).
    cbn [option_fmap option_map fmap fst snd with_seal with_rat peer_pub]. rewrite (lk_peer _ _ _ _ _ _ Hl).
    assert (linked me n peer r' (with_seal (with_rat r' s)) (set_session n (with_seal (with_rat r' s)) c)) as Hl'
      by (eapply linked_set; [done|apply Hl|done]).
    rewrite (dispatch_dm_linked _ _ _ _ _ _ env (Some pt) fr Hl' Ha).
    rewrite (received_payload _ _ _ _ _ _ _ _ Hp Hb Ht), session_at_set, set_session_twice. done.
Qed.

(** ** First contact *)

Definition tag_name (sender : bytes) : bytes := str "peer:" ++ take 8 sender.

(** The client of [me] has nothing for [peer] yet. *)
Record unknown (me : Identity) (peer : bytes) (c : Client) : Prop := {
  un_me : identity c = me;
  un_live : forall n s, sessions c !! n = Some s -> live_for peer s = false;
  un_tag : sessions c !! tag_name peer = None;
}.

Lemma unknown_name_for (me : Identity) (peer : bytes) (c : Client) :
  unknown me peer c -> session_name_for peer c = tag_name peer.
Proof. intros [_ Hn _]. unfold session_name_for. by rewrite (find_session_none _ _ Hn). Qed.

Lemma receive_first (me : Identity) (peer px shared : bytes) (r' : Ratchet.State) (c : Client)
    (env : Envelope) (pt : bytes) (p : DmPayload) (fr : Fresh) :
  unknown me peer c -> carries peer (id_pub me) env pt p -> length peer = 32%nat -> sender_pubkey env = peer ->
  pk_to_curve25519 peer = Some px -> derive_hybrid_recv_from_env (x25519 c) px (pq_id_sec c) env = Ok shared ->
  Ratchet.decrypt (Ratchet.init_bob shared (x_priv (x25519 c)) (x_pub (x25519 c))) (ciphertext env) (env_aad env)
    (f_dh fr (tag_name peer)) = (Ok (Some pt), r') ->
  delivers (tag_name peer) peer r' fr env p c.
Proof.
  intros Hu Hc Hlen Hs Hpx Hder Hd. pose proof (aad_consistent_carried _ _ _ _ _ Hc) as Ha.
  destruct Hc as [_ Hrcpt (p' & Hp & Hb & Ht & _)].
  set (s1 := mkSession peer px (Some (Ratchet.init_bob shared (x_priv (x25519 c)) (x_pub (x25519 c)))) false [] false false []).
  exists (with_seal (with_ack (with_rat r' s1))). rewrite peer_pub_acked, rat_acked. split; [done|]. split; [done|].
  rewrite (dispatch_envelope_named _ _ _ _ _ Hs Hlen Hrcpt). unfold dispatch_dm. rewrite (unknown_name_for _ _ _ Hu).
  assert (session_at (tag_name peer) c = default_session) as -> by (unfold session_at; by rewrite (un_tag _ _ _ Hu)).
  cbn [default_session rat].
  unfold first_contact_session. rewrite Hpx. cbn [set_session with_sessions x25519 pq_id_sec]. rewrite Hder.
  cbn [default_session initialized_as_alice s_pq_ct pq_acked seal_outbound peer_pq_pub rat].
  rewrite Ha. cbn [negb]. fold s1. rewrite Hd.
  rewrite (received_payload _ _ _ _ _ _ _ _ Hp Hb Ht), session_at_set, !set_session_twice. done.
Qed.

(** ** Sending *)

(** The bytes a queued message encrypts. *)
Definition payload_bytes (s : PendingSend) : bytes :=
  if has_pre_packed s then pre_packed_payload s else pack_text_payload (ps_text s).

Lemma detect_pubkey_change_core (username pub : bytes) (c : Client) : same_core c (detect_pubkey_change username pub c).1.
Proof.
  unfold detect_pubkey_change. destruct (store c); [|apply same_core_refl]. destruct (negb _); [apply same_core_refl|].
  destruct (filter _ _); by split.
Qed.

Lemma record_sent_core (fr : Fresh) (s : PendingSend) (pub : bytes) (c : Client) : same_core c (record_sent fr s pub c).1.
Proof.
  unfold record_sent. destruct (store c); [|apply same_core_refl]. destruct (_ || _); [|apply same_core_refl].
  match goal with |- context [detect_pubkey_change ?u pub ?d] => pose proof (detect_pubkey_change_core u pub d) as [? ? ? ?];
    destruct (detect_pubkey_change u pub d) as [c1 es] end. by split.
Qed.

Lemma sealed_attributed (me : Identity) (peer eid : bytes) (ts : Z) :
  identity_ok me ->
  verify_sealed_sender (id_pub me) (ssf_sig (make_sealed_sender_fields me eid ts peer)) eid ts peer = true.
Proof.
  intros Hi. with_strategy transparent [verify_sealed_sender] unfold verify_sealed_sender.
  cbn [make_sealed_sender_fields ssf_sig]. unfold id_sign. rewrite Hi. apply verify_sign.
Qed.

(** What [build_envelope] puts on the wire. *)
Lemma build_envelope_carries (fr : Fresh) (me : Identity) (c : Client) (s s' : Session) (r : Ratchet.State)
    (p : DmPayload) (env : Envelope) :
  identity c = me -> identity_ok me -> pb_ok p ->
  build_envelope fr c s r (pb_serialize p) = (s', Ok env) ->
  exists pt r', Ratchet.encrypt r pt (env_aad env) = (Ok (ciphertext env), r') /\ s' = with_rat r' s /\
    carries (id_pub me) (peer_pub s) env pt p /\
    sender_pubkey env = (if seal_outbound s then [] else id_pub me) /\ pq_ct env = s_pq_ct s.
Proof.
  intros Hme Hok Hp Hb. unfold build_envelope in Hb. rewrite Hme in Hb.
  set (aad := envelope_aad_bytes (f_envid fr) (f_now fr)) in *.
  set (pt := if seal_outbound s then _ else _) in Hb.
  destruct (Ratchet.encrypt r pt aad) as [[ct|e] r'] eqn:Ee; [|done]. injection Hb as <- <-.
  exists pt, r'. cbn [env_aad ciphertext sender_pubkey pq_ct]. split_and!; try done. split; [done|done|].
  unfold pt, attributed. cbn [sender_pubkey envelope_id timestamp_ms]. destruct (seal_outbound s).
  - unfold seal_dm_payload. rewrite (pb_parse_serialize p Hp). eexists. split; [by apply pb_parse_serialize|].
    cbn [dm_body ttl_ms sealed_sender_pubkey sealed_sender_sig]. split_and!; [done|done|]. right. split_and!; [done|done| |].
    + apply length_sign.
    + by apply sealed_attributed.
  - exists p. split; [by apply pb_parse_serialize|]. split_and!; [done|done|by left].
Qed.

Lemma send_linked (fr : Fresh) (me : Identity) (n peer : bytes) (r : Ratchet.State) (s : Session) (m : PendingSend)
    (p : DmPayload) (c c' : Client) (env : Envelope) (es : list ClientEffect) :
  linked me n peer r s c -> identity_ok me -> rebind_fingerprint c (ps_peer m) = n ->
  payload_bytes m = pb_serialize p -> pb_ok p ->
  send_one fr m c = (done_with c' (SendFrame (FEnvelope env) :: es), true) ->
  exists pt r', Ratchet.encrypt r pt (env_aad env) = (Ok (ciphertext env), r') /\
    linked me n peer r' (with_rat r' s) c' /\ carries (id_pub me) peer env pt p /\
    sender_pubkey env = (if seal_outbound s then [] else id_pub me) /\ pq_ct env = s_pq_ct s /\
    x25519 c' = x25519 c /\ pq_id_sec c' = pq_id_sec c.
Proof.
  intros Hl Hok Hn Hpay Hp Hs. unfold send_one in Hs. cbn [with_peer ps_peer has_pre_packed pre_packed_payload ps_text] in Hs.
  rewrite Hn, (session_at_Some _ _ _ (lk_session _ _ _ _ _ _ Hl)), (lk_rat _ _ _ _ _ _ Hl) in Hs.
  rewrite (set_session_id _ _ _ (lk_session _ _ _ _ _ _ Hl)) in Hs.
  change (if has_pre_packed _ then _ else _) with (payload_bytes m) in Hs. rewrite Hpay in Hs.
  destruct (build_envelope fr c s r (pb_serialize p)) as [s' [env'|e]] eqn:Eb; [|done].
  destruct (build_envelope_carries _ _ _ _ _ _ _ _ (lk_me _ _ _ _ _ _ Hl) Hok Hp Eb) as (pt & r' & He & -> & Hc & Hsn & Hct).
  destruct (record_sent _ _ _ _) as [c1 es1] eqn:Er. unfold done_with in Hs. injection Hs as <- <- <-.
  rewrite (lk_peer _ _ _ _ _ _ Hl) in Hc. exists pt, r'.
  match type of Er with record_sent ?f ?a ?b ?d = _ => pose proof (record_sent_core f a b d) as Hcore end.
  rewrite Er in Hcore. cbn [fst] in Hcore. split_and!; try done.
  - eapply linked_core; [|exact Hcore]. eapply linked_set; [done|apply Hl|done].
  - apply Hcore.
  - apply Hcore.
Qed.
End conversation.

(** ** Two desktop clients in conversation: the worlds and the refinement *)
From S2P Require Import Prelude StdMap Crypto Username SenderKeys Ratchet RatchetProofs RatchetConversation Wire Handshake HandshakeProofs.
From S2P Require Import Identity UsernameLog SFrame RoomKeys AttachmentFrame Sql ClientStore ClientProto.
From S2P Require Import ChatClient ChatClientRecv ChatClientSend ChatClientProofs.

#[local] Opaque Ratchet.decrypt Ratchet.encrypt Ratchet.init_bob Ratchet.init_alice dispatch_envelope send_one.

(** An envelope on its way, with the payload that was sent. *)
Record Flight := mkFlight {
  fl_bob : bool;
  fl_env : Envelope;
  fl_payload : DmPayload;
}.

Section chat.
Context `{!MlsFacade}.

Record Chat := mkChat {
  chat_alice : Client;
  chat_bob : Client;
  chat_net : list Flight;
  chat_used : list bytes;      (* ratchet keys generated so far *)
  chat_pending : nat;          (* sent and not received, in flight or lost *)
}.
End chat.

Section world.
Context `{!Sodium, !Ed25519, !EdCurve, !PqCrypto, !Blake2b, !KeyedBlake2b, !MlsFacade, !SqlPlan, !SqlOrder}.
Context `{!ProtoMsg Ratchet.RatchetMessage, !ProtoMsg SenderKeys.SenderKeysMessage, !ProtoMsg SenderKeys.SenderKeysDistribution}.
Context `{!ProtoMsg DmPayload, !ProtoMsg Envelope}.

(** The two identities, and the name under which Alice asked for Bob's bundle. *)
Variables (iA iB : Identity) (bob_name : bytes).

Definition me_of (b : bool) : Identity := if b then iB else iA.
Definition peer_of (b : bool) : bytes := id_pub (me_of (negb b)).
(** The session of the conversation in each client. *)
Definition name_of (b : bool) : bytes := if b then tag_name (id_pub iA) else bob_name.

Definition client_of (w : Chat) (b : bool) : Client := if b then chat_bob w else chat_alice w.
Definition with_client (w : Chat) (b : bool) (c : Client) (net : list Flight) (used : list bytes) (pending : nat) : Chat :=
  if b then mkChat (chat_alice w) c net used pending else mkChat c (chat_bob w) net used pending.

Definition chat_fresh (w : Chat) (rnd : bytes) : Prop :=
  Forall (fun p => scalarmult_base rnd <> p /\ is_Some (scalarmult rnd p)) (chat_used w).

(** What else a client may do: everything that leaves the conversation's session
    alone and opens no second session with the peer. *)
Record undisturbed (n peer : bytes) (c c' : Client) : Prop := {
  ud_identity : identity c' = identity c;
  ud_x25519 : x25519 c' = x25519 c;
  ud_pq : pq_id_sec c' = pq_id_sec c;
  ud_session : sessions c' !! n = sessions c !! n;
  ud_sole : sole peer n c';
}.

(** Alice's client has just consumed Bob's bundle; Bob's has never heard of Alice. *)
Inductive chat_start : Chat -> Prop :=
| ChatStart (fr : Fresh) (resp : KeyBundleFetchResponse) (bundle : PreKeyBundle) (cA cA' cB : Client) (es : list ClientEffect)
    (b : X25519Pair) (seed : bytes) (pqB : PqIdentity) :
    identity cA = iA -> derive_x25519 iA = Ok (x25519 cA) ->
    identity cB = iB -> derive_x25519 iB = Ok b -> x25519 cB = b -> derive_pq_identity iB seed = Ok pqB -> pq_id_sec cB = pq_sec pqB ->
    (forall n s, sessions cA !! n = Some s -> live_for (id_pub iB) s = false) ->
    unknown iB (id_pub iA) cB ->
    head (pending_fetch_targets cA) = Some bob_name -> filled bob_name = true ->
    kf_found resp = true -> kf_bundle resp = Some bundle -> pk_identity_pubkey bundle = id_pub iB ->
    signed_prekey bundle = x_pub b -> (pq_pubkey bundle = [] \/ pq_pubkey bundle = pq_pub pqB) ->
    on_frame fr (FKeyFetchResp resp) cA = (cA', es, None) -> is_Some (find_session (id_pub iB) cA') ->
    scalarmult_base (f_init fr) <> x_pub b ->
    chat_start (mkChat cA' cB [] [scalarmult_base (f_init fr); x_pub b] 0).

Inductive chat_step : Chat -> Chat -> Prop :=
| Chat_send (w : Chat) (who : bool) (fr : Fresh) (m : PendingSend) (p : DmPayload) (c' : Client) (env : Envelope) (es : list ClientEffect) :
    send_one fr m (client_of w who) = (done_with c' (SendFrame (FEnvelope env) :: es), true) ->
    rebind_fingerprint (client_of w who) (ps_peer m) = name_of who ->
    payload_bytes m = pb_serialize p -> pb_ok p ->
    (chat_pending w < Ratchet.kMaxSkip)%nat ->
    (forall r, rat (session_at (name_of who) (client_of w who)) = Some r -> Ratchet.ns r + 1 < u32_max) ->
    chat_step w (with_client w who c' (mkFlight (negb who) env p :: chat_net w) (chat_used w) (S (chat_pending w)))
| Chat_deliver (w : Chat) (net1 : list Flight) (f : Flight) (net2 : list Flight) (fr : Fresh) (c' : Client)
    (es : list ClientEffect) (e : option ClientError) :
    chat_net w = net1 ++ f :: net2 -> chat_fresh w (f_dh fr (name_of (fl_bob f))) ->
    refuses (fl_env f) fr (name_of (fl_bob f)) (client_of w (fl_bob f)) ->
    on_frame fr (FEnvelope (fl_env f)) (client_of w (fl_bob f)) = (c', es, e) ->
    chat_step w (with_client w (fl_bob f) c' (net1 ++ net2) (scalarmult_base (f_dh fr (name_of (fl_bob f))) :: chat_used w)
                   (pred (chat_pending w)))
| Chat_drop (w : Chat) (net1 : list Flight) (f : Flight) (net2 : list Flight) :
    chat_net w = net1 ++ f :: net2 ->
    chat_step w (mkChat (chat_alice w) (chat_bob w) (net1 ++ net2) (chat_used w) (chat_pending w))
| Chat_other (w : Chat) (who : bool) (c' : Client) :
    undisturbed (name_of who) (peer_of who) (client_of w who) c' ->
    chat_step w (with_client w who c' (chat_net w) (chat_used w) (chat_pending w)).

Inductive chat_reach : Chat -> Prop :=
| Chat_init (w : Chat) : chat_start w -> chat_reach w
| Chat_next (w w' : Chat) : chat_reach w -> chat_step w w' -> chat_reach w'.

(** ** The refinement relation *)

Definition flight_ok (f : Flight) (p : Packet) : Prop :=
  pk_bob p = fl_bob f /\ pk_wire p = ciphertext (fl_env f) /\ pk_aad p = env_aad (fl_env f) /\
  carries (peer_of (fl_bob f)) (id_pub (me_of (fl_bob f))) (fl_env f) (pk_pt p) (fl_payload f).

Definition linked_as (b : bool) (r : Ratchet.State) (c : Client) : Prop :=
  exists s, linked (me_of b) (name_of b) (peer_of b) r s c.

(** Bob has not received anything: his ratchet is the one he will derive from any
    envelope in flight. *)
Definition opening (w : Chat) (v : World) : Prop :=
  exists s ct px shared,
    linked iA bob_name (id_pub iB) (alice v) s (chat_alice w) /\ s_pq_ct s = ct /\ seal_outbound s = false /\
    unknown iB (id_pub iA) (chat_bob w) /\ pk_to_curve25519 (id_pub iA) = Some px /\
    derive_hybrid_recv (x25519 (chat_bob w)) px (pq_id_sec (chat_bob w)) ct = Ok shared /\
    bob v = Ratchet.init_bob shared (x_priv (x25519 (chat_bob w))) (x_pub (x25519 (chat_bob w))) /\
    Forall (fun f => fl_bob f = true /\ sender_pubkey (fl_env f) = id_pub iA /\ pq_ct (fl_env f) = ct) (chat_net w).

Record chat_rel (w : Chat) (v : World) : Prop := {
  cr_used : used v = chat_used w;
  cr_pending : pending v = chat_pending w;
  cr_net : Forall2 flight_ok (chat_net w) (net v);
  cr_phase : opening w v \/ forall b, linked_as b (state_of v b) (client_of w b);
}.
End world.

Section refinement.
Context `{!Sodium, !SodiumLaws, !Ed25519, !Ed25519Laws, !EdCurve, !EdCurveLaws, !PqCrypto, !PqLaws}.
Context `{!Blake2b, !KeyedBlake2b, !MlsFacade, !SqlPlan, !SqlOrder}.
Context `{!ProtoMsg Ratchet.RatchetMessage, !ProtoLaws Ratchet.RatchetMessage}.
Context `{!ProtoMsg SenderKeys.SenderKeysMessage, !ProtoMsg SenderKeys.SenderKeysDistribution}.
Context `{!ProtoMsg DmPayload, !ProtoLaws DmPayload, !ProtoMsg Envelope}.
Variables (iA iB : Identity) (bob_name : bytes).
Hypotheses (HA : identity_ok iA) (HB : identity_ok iB).

#[local] Abbreviation peer_of := (peer_of iA iB).
#[local] Abbreviation me_of := (me_of iA iB).
#[local] Abbreviation name_of := (name_of iA bob_name).
#[local] Abbreviation chat_rel := (chat_rel iA iB bob_name).

Lemma identity_of (b : bool) : identity_ok (me_of b).
Proof. by destruct b. Qed.

Lemma length_peer (b : bool) : length (peer_of b) = 32%nat.
Proof. unfold ChatConversation.peer_of. rewrite (identity_of (negb b)). apply length_sign_public. Qed.

(** Whoever the packet is for: the handler passes on the payload that was sent. *)
Lemma deliver_flight (w : Chat) (v : World) (net1 net2 : list Flight) (f : Flight) (fr : Fresh) :
  chat_rel w v -> reach v -> chat_net w = net1 ++ f :: net2 ->
  chat_fresh w (f_dh fr (name_of (fl_bob f))) -> refuses (fl_env f) fr (name_of (fl_bob f)) (client_of w (fl_bob f)) ->
  exists pnet1 p pnet2 r', net v = pnet1 ++ p :: pnet2 /\ flight_ok iA iB f p /\
    Forall2 (flight_ok iA iB) (net1 ++ net2) (pnet1 ++ pnet2) /\
    Ratchet.decrypt (state_of v (fl_bob f)) (pk_wire p) (pk_aad p) (f_dh fr (name_of (fl_bob f))) = (Ok (Some (pk_pt p)), r') /\
    delivers (name_of (fl_bob f)) (peer_of (fl_bob f)) r' fr (fl_env f) (fl_payload f) (client_of w (fl_bob f)).
Proof.
  intros Hrel Hv Hnet Hf Href. pose proof (cr_net _ _ _ _ _ Hrel) as Hall. rewrite Hnet in Hall.
  apply Forall2_app_inv_l in Hall as (pnet1 & pnet2' & Hall1 & Hall2 & Hpn).
  apply Forall2_cons_inv_l in Hall2 as (p & pnet2 & Hfp & Hall2 & ->).
  destruct (reach_inv v Hv) as (g & ep & ids & Hw).
  destruct (deliver_packet g ep ids v pnet1 p pnet2 (f_dh fr (name_of (fl_bob f))) Hw Hpn) as (r' & _ & _ & _ & E & _).
  { unfold fresh_in. by rewrite (cr_used _ _ _ _ _ Hrel). }
  pose proof Hfp as (Hb & Hwire & Haad & Hc). rewrite Hb in E.
  exists pnet1, p, pnet2, r'. split_and!; [done|done|by apply Forall2_app|done|].
  rewrite Hwire, Haad in E.
  destruct (cr_phase _ _ _ _ _ Hrel) as [(s & ct & px & shared & HlA & Hct & Hseal & Hun & Hpx & Hder & Hbob & Hall)|Hset].
  - rewrite Hnet in Hall. apply Forall_app in Hall as [_ [(Hfb & Hsn & Hfct) _]%Forall_cons].
    rewrite Hfb in *. cbn [state_of client_of ChatConversation.me_of ChatConversation.peer_of ChatConversation.name_of negb] in *.
    apply (receive_first iB (id_pub iA) px shared r' _ _ (pk_pt p)); try done.
    + apply (length_peer true).
    + unfold derive_hybrid_recv_from_env. by rewrite Hfct.
    + by rewrite <- Hbob.
  - destruct (Hset (fl_bob f)) as [s Hl].
    apply (receive_linked (me_of (fl_bob f)) _ _ (state_of v (fl_bob f)) r' s _ _ (pk_pt p)); try done. apply length_peer.
Qed.

Lemma delivers_linked (me : Identity) (n peer : bytes) (r' : Ratchet.State) (fr : Fresh) (env : Envelope) (p : DmPayload)
    (c c' : Client) (es : list ClientEffect) (e : option ClientError) :
  delivers n peer r' fr env p c -> identity c = me -> sole peer n c -> filled n = true ->
  dispatch_envelope fr env c = (c', es, e) -> exists s', linked me n peer r' s' c'.
Proof.
  intros (s' & Hp & Hr & E) Hme Hu Hn Hd. rewrite E in Hd. exists s'.
  pose proof (dispatch_payload_core fr env n peer (username_of peer c) p (set_session n s' c)) as [Hcore _].
  destruct (dispatch_payload _ _ _ _ _ _ _) as [[c2 es2] e2]. injection Hd as <- _ _. cbn [fst] in Hcore.
  eapply linked_core; [|exact Hcore]. split; try done; [apply set_session_lookup|by apply sole_set].
Qed.

Lemma undisturbed_linked (me : Identity) (n peer : bytes) (r : Ratchet.State) (s : Session) (c c' : Client) :
  undisturbed n peer c c' -> linked me n peer r s c -> linked me n peer r s c'.
Proof. intros [] []. split; try done; congruence. Qed.

Lemma sim_start (w : Chat) : chat_start iA iB bob_name w -> exists v, reach v /\ chat_rel w v.
Proof.
  intros [fr resp bundle cA cA' cB es b seed pqB HcA HxA HcB Hb HxB Hpq HpqB HnoB Hun Hhead Hfilled Hfound Hbun Hid Hspk Hkem
    Hframe [n Hfind] Hne].
  destruct (derive_x25519_Ok _ _ HA HxA) as (_ & Hax & Hap). destruct (derive_x25519_Ok _ _ HB Hb) as (_ & _ & Hbp).
  rewrite <- Hid in HnoB, Hfind. cbn [on_frame] in Hframe.
  destruct (on_key_fetch_resp_session _ _ _ _ _ _ _ Hhead Hbun HnoB Hframe ltac:(eauto)) as (s & c1 & Hc1 & Hs & ->).
  apply session_from_bundle_ok in Hs as (hyb & r & Hsend & Hinit & Hpeer & Hrat & Hct & Hseal).
  rewrite Hspk in Hsend, Hinit. rewrite (sc_x25519 _ _ Hc1) in Hsend.
  pose proof (bundle_agreement _ _ _ _ _ _ _ _ _ HA HB HxA Hb Hpq Hkem Hsend) as Hrecv.
  exists (mkWorld r (Ratchet.init_bob (hs_shared hyb) (x_priv b) (x_pub b)) [] [scalarmult_base (f_init fr); x_pub b] 0).
  split.
  - apply Reach_init. rewrite Hbp in Hinit, Hne |- *. by apply Initial.
  - split; [done|done|constructor|]. left. exists s, (hs_pq_ct hyb), (x_pub (x25519 cA)), (hs_shared hyb).
    cbn [alice bob chat_alice chat_bob chat_net]. subst b. rewrite HpqB. split_and!; try done. split; try done.
    + rewrite <- HcA. apply Hc1.
    + apply set_session_lookup.
    + by rewrite Hpeer.
    + rewrite <- Hid. apply sole_set. intros n' s' Hs' Hl. rewrite (sc_sessions _ _ Hc1) in Hs'. by rewrite (HnoB _ _ Hs') in Hl.
Qed.

(** The party that did not move. *)
Lemma client_of_same (w : Chat) (b : bool) (c : Client) (net : list Flight) (used : list bytes) (k : nat) :
  client_of (with_client w b c net used k) b = c.
Proof. by destruct b. Qed.

Lemma client_of_other (w : Chat) (b b' : bool) (c : Client) (net : list Flight) (used : list bytes) (k : nat) :
  b' <> b -> client_of (with_client w b c net used k) b' = client_of w b'.
Proof. by destruct b, b'. Qed.

Lemma state_of_same (v : World) (b : bool) (r : Ratchet.State) (net : list Packet) (used : list bytes) (k : nat) :
  state_of (RatchetConversation.with_state v b r net used k) b = r.
Proof. by destruct b. Qed.

Lemma state_of_other (v : World) (b b' : bool) (r : Ratchet.State) (net : list Packet) (used : list bytes) (k : nat) :
  b' <> b -> state_of (RatchetConversation.with_state v b r net used k) b' = state_of v b'.
Proof. by destruct b, b'. Qed.

(** Once both are linked, a step of one of them keeps them so. *)
Lemma all_linked (w : Chat) (v : World) (b : bool) (c : Client) (r : Ratchet.State) (net : list Flight) (pnet : list Packet)
    (us us' : list bytes) (k k' : nat) :
  linked_as iA iB bob_name b r c ->
  linked_as iA iB bob_name (negb b) (state_of v (negb b)) (client_of w (negb b)) ->
  forall b', linked_as iA iB bob_name b' (state_of (RatchetConversation.with_state v b r pnet us k) b')
               (client_of (with_client w b c net us' k') b').
Proof. intros Hl Ho b'. by destruct b, b'. Qed.

Lemma sim_deliver (w : Chat) (v : World) (net1 net2 : list Flight) (f : Flight) (fr : Fresh) (c' : Client)
    (es : list ClientEffect) (e : option ClientError) :
  chat_rel w v -> reach v -> chat_net w = net1 ++ f :: net2 ->
  chat_fresh w (f_dh fr (name_of (fl_bob f))) -> refuses (fl_env f) fr (name_of (fl_bob f)) (client_of w (fl_bob f)) ->
  on_frame fr (FEnvelope (fl_env f)) (client_of w (fl_bob f)) = (c', es, e) ->
  exists v', reach v' /\
    chat_rel (with_client w (fl_bob f) c' (net1 ++ net2) (scalarmult_base (f_dh fr (name_of (fl_bob f))) :: chat_used w)
                (pred (chat_pending w))) v'.
Proof.
  intros Hrel Hv Hnet Hf Href Hfr. cbn [on_frame] in Hfr.
  destruct (deliver_flight w v net1 net2 f fr Hrel Hv Hnet Hf Href) as (pnet1 & p & pnet2 & r' & Hpn & Hfp & Hall & E & Hd).
  exists (RatchetConversation.with_state v (fl_bob f) r' (pnet1 ++ pnet2) (scalarmult_base (f_dh fr (name_of (fl_bob f))) :: used v)
    (pred (pending v))).
  pose proof Hfp as (Hb & _). split.
  - eapply Reach_step; [done|]. rewrite <- Hb in *. eapply Step_deliver; [done| |exact E].
    unfold fresh_in. by rewrite (cr_used _ _ _ _ _ Hrel).
  - assert (linked_as iA iB bob_name (fl_bob f) r' c' /\
      linked_as iA iB bob_name (negb (fl_bob f)) (state_of v (negb (fl_bob f))) (client_of w (negb (fl_bob f)))) as [Hl1 Hl2].
    { destruct (cr_phase _ _ _ _ _ Hrel) as [(s & ct & px & shared & HlA & _ & _ & [Hm Hlive Htag] & _ & _ & _ & Hfl)|Hset].
      - rewrite Hnet in Hfl. apply Forall_app in Hfl as [_ [(Hfb & _) _]%Forall_cons]. rewrite Hfb in *. split.
        + eapply delivers_linked; [exact Hd|done| |done|exact Hfr].
          intros n s' Hs' Hl. pose proof (Hlive _ _ Hs') as Hn. change (live_for (id_pub iA) s' = true) in Hl. congruence.
        + by exists s.
      - split; [|apply Hset]. destruct (Hset (fl_bob f)) as [s Hl].
        eapply delivers_linked; [exact Hd|apply Hl|apply Hl|apply Hl|exact Hfr]. }
    split.
    + rewrite <- (cr_used _ _ _ _ _ Hrel). by destruct (fl_bob f).
    + rewrite <- (cr_pending _ _ _ _ _ Hrel). by destruct (fl_bob f).
    + by destruct (fl_bob f).
    + right. by apply all_linked.
Qed.

Lemma sim_send (w : Chat) (v : World) (who : bool) (fr : Fresh) (m : PendingSend) (p : DmPayload) (c' : Client)
    (env : Envelope) (es : list ClientEffect) :
  chat_rel w v -> reach v ->
  send_one fr m (client_of w who) = (done_with c' (SendFrame (FEnvelope env) :: es), true) ->
  rebind_fingerprint (client_of w who) (ps_peer m) = name_of who ->
  payload_bytes m = pb_serialize p -> pb_ok p -> (chat_pending w < Ratchet.kMaxSkip)%nat ->
  (forall r, rat (session_at (name_of who) (client_of w who)) = Some r -> Ratchet.ns r + 1 < u32_max) ->
  exists v', reach v' /\
    chat_rel (with_client w who c' (mkFlight (negb who) env p :: chat_net w) (chat_used w) (S (chat_pending w))) v'.
Proof.
  intros Hrel Hv Hsend Hname Hpay Hp Hpend Hns.
  assert (exists s, linked (me_of who) (name_of who) (peer_of who) (state_of v who) s (client_of w who) /\
    (opening iA iB bob_name w v -> who = false /\ seal_outbound s = false)) as (s & Hl & Hop).
  { destruct (cr_phase _ _ _ _ _ Hrel) as [Ho|Hset].
    - destruct Ho as (s & ct & px & shared & HlA & Hct & Hseal & Hun & _). destruct who.
      + exfalso. with_strategy transparent [send_one] unfold send_one in Hsend. cbn [with_peer ps_peer] in Hsend.
        rewrite Hname in Hsend. unfold session_at in Hsend. cbn [client_of ChatConversation.name_of] in Hsend.
        rewrite (un_tag _ _ _ Hun) in Hsend. cbn [default from_option default_session rat] in Hsend.
        destruct (rat (default default_session None)) eqn:Er; [by cbn in Er|].
        by destruct (defer_send _ _).
      + exists s. split; [done|]. intros _. done.
    - destruct (Hset who) as [s Hl]. exists s. split; [done|]. intros (s1 & ct & px & shared & HlA & Hct & Hseal & Hun & _).
      destruct who.
      + exfalso. destruct Hl as [_ Hs Hpe Hr _ _]. pose proof (un_live _ _ _ Hun _ _ Hs) as Hn.
        assert (live_for (id_pub iA) s = true) by (apply live_for_true; eauto). congruence.
      + split; [done|]. pose proof (lk_session _ _ _ _ _ _ Hl) as E1. pose proof (lk_session _ _ _ _ _ _ HlA) as E2.
        cbn [client_of ChatConversation.name_of] in E1. congruence. }
  destruct (send_linked _ _ _ _ _ _ _ _ _ _ _ _ Hl (identity_of who) Hname Hpay Hp Hsend)
    as (pt & r' & He & Hl' & Hc & Hsn & Hct & Hx & Hpq).
  exists (RatchetConversation.with_state v who r' (mkPacket (negb who) (ciphertext env) (env_aad env) pt :: net v) (used v) (S (pending v))).
  split.
  { eapply Reach_step; [done|]. apply Step_send; [by rewrite (cr_pending _ _ _ _ _ Hrel)| |done].
    apply Hns. rewrite (session_at_Some _ _ _ (lk_session _ _ _ _ _ _ Hl)). apply Hl. }
  assert (flight_ok iA iB (mkFlight (negb who) env p) (mkPacket (negb who) (ciphertext env) (env_aad env) pt)) as Hfl.
  { split_and!; try done. cbn [fl_bob fl_env fl_payload pk_pt]. unfold ChatConversation.peer_of. by rewrite negb_involutive. }
  split.
  - rewrite <- (cr_used _ _ _ _ _ Hrel). by destruct who.
  - rewrite <- (cr_pending _ _ _ _ _ Hrel). by destruct who.
  - pose proof (cr_net _ _ _ _ _ Hrel). destruct who; by constructor.
  - destruct (cr_phase _ _ _ _ _ Hrel) as [Ho|Hset].
    + destruct (Hop Ho) as [-> Hns']. left. destruct Ho as (s1 & ct & px & shared & HlA & Hct1 & Hseal & Hun & Hpx & Hder & Hbob & Hall).
      assert (s1 = s) as -> by (pose proof (lk_session _ _ _ _ _ _ Hl) as E1; pose proof (lk_session _ _ _ _ _ _ HlA) as E2;
        cbn [client_of ChatConversation.name_of] in E1; congruence).
      exists (with_rat r' s), ct, px, shared. cbn [with_client chat_alice chat_bob chat_net RatchetConversation.with_state alice bob].
      split_and!; try done. constructor; [|done]. cbn [fl_bob fl_env negb]. rewrite Hsn, Hct, Hns'. done.
    + right. apply all_linked; [by exists (with_rat r' s)|apply Hset].
Qed.

Lemma sim_drop (w : Chat) (v : World) (net1 net2 : list Flight) (f : Flight) :
  chat_rel w v -> reach v -> chat_net w = net1 ++ f :: net2 ->
  exists v', reach v' /\ chat_rel (mkChat (chat_alice w) (chat_bob w) (net1 ++ net2) (chat_used w) (chat_pending w)) v'.
Proof.
  intros Hrel Hv Hnet. pose proof (cr_net _ _ _ _ _ Hrel) as Hall. rewrite Hnet in Hall.
  apply Forall2_app_inv_l in Hall as (pnet1 & pnet2' & Hall1 & Hall2 & Hpn).
  apply Forall2_cons_inv_l in Hall2 as (p & pnet2 & Hfp & Hall2 & ->).
  exists (mkWorld (alice v) (bob v) (pnet1 ++ pnet2) (used v) (pending v)).
  split; [eapply Reach_step; [done|by eapply Step_drop]|]. destruct Hrel as [Hu Hp _ Hphase].
  split; [done|done|by apply Forall2_app|]. destruct Hphase as [Ho|Hset]; [left|by right].
  destruct Ho as (s & ct & px & shared & ? & ? & ? & ? & ? & ? & ? & Hfl). exists s, ct, px, shared. split_and!; try done.
  cbn [chat_net]. rewrite Hnet, Forall_app, Forall_cons in Hfl. apply Forall_app. tauto.
Qed.

Lemma sim_other (w : Chat) (v : World) (who : bool) (c' : Client) :
  chat_rel w v -> undisturbed (name_of who) (peer_of who) (client_of w who) c' ->
  chat_rel (with_client w who c' (chat_net w) (chat_used w) (chat_pending w)) v.
Proof.
  intros [Hu Hp Hn Hphase] Hud. split; [by destruct who|by destruct who|by destruct who|].
  destruct Hphase as [(s & ct & px & shared & HlA & Hct & Hseal & Hun & Hpx & Hder & Hbob & Hall)|Hset].
  - left. exists s, ct, px, shared. destruct who; cbn [client_of with_client chat_alice chat_bob chat_net] in *; split_and!; try done.
    + destruct Hud as [Hi _ _ Hse Hso], Hun as [Hm Hlv Htag]. cbn [ChatConversation.name_of] in *. split; [congruence| |congruence].
      intros n s' Hs'. destruct (live_for (id_pub iA) s') eqn:El; [|done].
      assert (n = tag_name (id_pub iA)) as -> by (by eapply Hso). congruence.
    + by rewrite (ud_x25519 _ _ _ _ Hud), (ud_pq _ _ _ _ Hud).
    + by rewrite (ud_x25519 _ _ _ _ Hud).
    + by eapply undisturbed_linked.
  - right. intros b. destruct (decide (b = who)) as [->|Hne].
    + rewrite client_of_same. destruct (Hset who) as [s Hl]. exists s. by eapply undisturbed_linked.
    + rewrite client_of_other by done. apply Hset.
Qed.

(** Every world of the two clients is a world of the ratchet. *)
Lemma chat_simulation (w : Chat) : chat_reach iA iB bob_name w -> exists v, reach v /\ chat_rel w v.
Proof.
  induction 1 as [w Hs|w w' _ (v & Hv & Hrel) Hs]; [by apply sim_start|].
  destruct Hs.
  - by eapply sim_send.
  - by eapply sim_deliver.
  - by eapply sim_drop.
  - exists v. split; [done|]. by apply sim_other.
Qed.

(** Every envelope in flight hands its payload to the receiver's handler. *)
Lemma flight_delivered (w : Chat) (f : Flight) (fr : Fresh) :
  chat_reach iA iB bob_name w -> f ∈ chat_net w -> chat_fresh w (f_dh fr (name_of (fl_bob f))) ->
  refuses (fl_env f) fr (name_of (fl_bob f)) (client_of w (fl_bob f)) ->
  exists r', delivers (name_of (fl_bob f)) (peer_of (fl_bob f)) r' fr (fl_env f) (fl_payload f) (client_of w (fl_bob f)).
Proof.
  intros Hr Hin Hf Href. destruct (chat_simulation w Hr) as (v & Hv & Hrel).
  apply list_elem_of_split in Hin as (net1 & net2 & Hnet).
  destruct (deliver_flight w v net1 net2 f fr Hrel Hv Hnet Hf Href) as (_ & _ & _ & r' & _ & _ & _ & _ & Hd). by exists r'.
Qed.
End refinement.
