(* ===== verification/ChatClientFaults.v ===== *)
(** * The desktop client's worker: what its queues and first contacts get wrong *)
From S2P Require Import Prelude StdMap Crypto Username SenderKeys Ratchet Wire Handshake HandshakeProofs Identity UsernameLog.
From S2P Require Import SFrame RoomKeys AttachmentFrame Sql ClientStore ClientProto.
From S2P Require Import ChatClient ChatClientRecv ChatClientSend ChatClientProofs ChatConversation ChatClientApi.

#[local] Opaque Ratchet.decrypt Ratchet.encrypt Ratchet.try_decrypt Ratchet.header_matches_recv_chain verify_sealed_sender
  append_inbox append_inbox_with_expiry append_outbox cache_peer_name set_peer_verified.

Section queues.
Context `{!Sodium, !Ed25519, !EdCurve, !PqCrypto, !Blake2b, !KeyedBlake2b, !MlsFacade, !SqlPlan, !SqlOrder}.
Context `{!ProtoMsg Ratchet.RatchetMessage, !ProtoMsg SenderKeys.SenderKeysMessage, !ProtoMsg SenderKeys.SenderKeysDistribution}.
Context `{!ProtoMsg DmPayload, !ProtoMsg Envelope}.

(** A message that has to wait takes the queue with it.  When the first queued
    message has no session yet, one pass of the send loop leaves exactly that message
    in the queue: every message queued behind it, whoever it is for, is neither
    sent, nor kept, nor stored in the outbox, and no error is reported. *)
Theorem waiting_send_loses_queue (fr : nat -> Fresh) (c : Client) (m : PendingSend) (rest : list PendingSend)
    (Hq : queue c = m :: rest) (Hno : rat (session_at (rebind_fingerprint c (ps_peer m)) c) = None) :
  exists c' m' es, drain_sends fr c = (c', es, None) /\ queue c' = [m'] /\ ps_text m' = ps_text m /\
    pre_packed_payload m' = pre_packed_payload m /\ store c' = store c /\
    (es = [] \/ es = [SendFrame (FKeyFetch (rebind_fingerprint c (ps_peer m)) 0)]).
Proof.
  unfold drain_sends. rewrite Hq. cbn [send_loop]. set (c0 := with_queues _ _ _ _ c).
  unfold send_one. change (rebind_fingerprint c0 (ps_peer m)) with (rebind_fingerprint c (ps_peer m)).
  cbn [with_peer ps_peer]. change (session_at ?n c0) with (session_at n c). rewrite Hno. unfold defer_send.
  destruct (match _ with Some pub => find_session _ _ | None => None end) as [n|]; cbn [done_with negb fst snd];
    do 3 eexists; split_and!; try done; [by left|by right].
Qed.

(** A peer with a session under another name, addressed by a name that has none. *)
Record renamed (m : PendingSend) (b : PreKeyBundle) (c : Client) : Prop := {
  rn_queue : queue c = [m];
  rn_targets : pending_fetch_targets c = [];
  rn_name : rebind_fingerprint c (ps_peer m) = ps_peer m /\ filled (ps_peer m) = true;
  rn_none : rat (session_at (ps_peer m) c) = None;
  rn_log : match username_log c with Some l => resolve (ps_peer m) l = None | None => True end;
  rn_live : has_live (pk_identity_pubkey b) c = true;
  rn_pin : match store c with Some st => peer_pq_capable (pk_identity_pubkey b) st = filled (pq_pubkey b) | None => True end;
}.

Section stuck.
Variables (m : PendingSend) (b : PreKeyBundle) (resp : KeyBundleFetchResponse).
Hypotheses (Hfound : kf_found resp = true) (Hbundle : kf_bundle resp = Some b)
  (Hid : length (pk_identity_pubkey b) = 32%nat) (Hspk : length (signed_prekey b) = 32%nat).

(** The worker tries to send and handles the server's answer, [k] times. *)
Fixpoint rounds (fr : nat -> Fresh) (k : nat) (c : Client) : Client * list ClientEffect :=
  match k with
  | O => (c, [])
  | S k =>
      let '(c, es, _) := drain_sends fr c in
      let '(c, es', _) := on_frame (fr k) (FKeyFetchResp resp) c in
      let '(c, es'') := rounds fr k c in (c, es ++ es' ++ es'')
  end.

Lemma renamed_round (fr : nat -> Fresh) (fr' : Fresh) (c : Client) :
  renamed m b c -> exists c1 c2, drain_sends fr c = (c1, [SendFrame (FKeyFetch (ps_peer m) 0)], None) /\
    on_frame fr' (FKeyFetchResp resp) c1 = (c2, [], None) /\ renamed m b c2.
Proof.
  intros [Hq Ht [Hn Hfill] Hnone Hlog Hlive Hpin]. unfold drain_sends. rewrite Hq. cbn [send_loop].
  set (c0 := with_queues _ _ _ _ c). unfold send_one.
  change (rebind_fingerprint c0 (ps_peer m)) with (rebind_fingerprint c (ps_peer m)). rewrite Hn.
  assert (with_peer (ps_peer m) m = m) as -> by (by destruct m).
  change (session_at ?n c0) with (session_at n c). rewrite Hnone. unfold defer_send.
  change (username_log (set_session _ _ c0)) with (username_log c).
  replace (match username_log c with Some l => resolve (ps_peer m) l | None => None end) with (None : option bytes)
    by (by destruct (username_log c)).
  cbn [done_with negb]. do 2 eexists. split; [done|]. cbn [on_frame]. unfold on_key_fetch_resp.
  cbn [push_front with_queues pending_fetch_targets set_session with_sessions c0]. rewrite Ht. cbn [app head tail].
  rewrite Hbundle, Hfound. change (default [] (Some (ps_peer m))) with (ps_peer m). change (default empty_bundle (Some b)) with b.
  rewrite Hfill, Hid, Hspk. cbn [negb orb Nat.eqb].
  set (c1 := with_queues _ _ _ _ _).
  assert (pq_tofu_admit (f_now fr') (pk_identity_pubkey b) (ps_peer m) (filled (pq_pubkey b)) c1 = (true, c1, [])) as ->.
  { unfold pq_tofu_admit. change (store c1) with (store c). destruct (store c) as [st|]; [|done]. rewrite Hpin.
    unfold is_pq_capability_downgrade. by destruct (filled (pq_pubkey b)). }
  cbn [negb].
  assert (sessions c1 = <[ps_peer m := session_at (ps_peer m) c]> (sessions c)) as Hs1 by done.
  assert (has_live (pk_identity_pubkey b) c1 = true) as Hl1.
  { destruct (has_live_true _ _ Hlive) as (n & s & Hs & Hl). apply (has_live_intro _ n s); [|done]. rewrite Hs1.
    rewrite lookup_insert_ne; [done|]. intros <-. rewrite (session_at_Some _ _ _ Hs) in Hnone.
    apply live_for_true in Hl as [_ [r Hr]]. congruence. }
  assert (rebind_fingerprint c1 (ps_peer m) = ps_peer m) as Hr1.
  { unfold rebind_fingerprint. rewrite Hs1, lookup_insert_eq. by rewrite (bool_decide_false (Some _ = None)), andb_false_r. }
  assert (session_at (ps_peer m) c1 = session_at (ps_peer m) c) as Hse
    by (apply session_at_Some; by rewrite Hs1, lookup_insert_eq).
  rewrite Hl1. split; [done|]. split; try done. exact (eq_trans (f_equal rat Hse) Hnone).
Qed.

(** A reply that is never sent.  Bob has a live session with Alice under the tag
    of her first message; the user replies to her username, under which there is no
    session and which the username log does not know.  Whatever number of times the
    worker fetches her bundle and the server answers with it, the message stays in
    the queue and nothing but key fetches is sent: the handler finds the existing
    session, and neither rebinds the message nor creates a session under the name. *)
Theorem reply_by_name_never_sent (fr : nat -> Fresh) (k : nat) (c : Client) (Hc : renamed m b c) :
  exists c', rounds fr k c = (c', replicate k (SendFrame (FKeyFetch (ps_peer m) 0))) /\ renamed m b c'.
Proof.
  revert c Hc. induction k as [|k IH]; intros c Hc; [by exists c|]. cbn [rounds].
  destruct (renamed_round fr (fr k) c Hc) as (c1 & c2 & -> & -> & Hc2). destruct (IH c2 Hc2) as (c' & -> & Hc').
  by exists c'.
Qed.
End stuck.
End queues.

(** ** First contacts *)

Section first_contact_faults.
Context `{!Sodium, !Ed25519, !EdCurve, !PqCrypto, !Blake2b, !KeyedBlake2b, !MlsFacade, !SqlPlan, !SqlOrder}.
Context `{!ProtoMsg Ratchet.RatchetMessage, !ProtoMsg SenderKeys.SenderKeysMessage, !ProtoMsg SenderKeys.SenderKeysDistribution}.
Context `{!ProtoMsg DmPayload, !ProtoMsg Envelope}.

(** One envelope ends the worker.  Whoever can hand an envelope to a client (a
    registered user, or the relay) names as sender a key that the client has no
    session with and attaches a KEM ciphertext of a length other than 1088: the
    exception leaves the handler, whatever the ciphertext and the associated data. *)
Theorem malformed_first_contact_throws (fr : Fresh) (me : Identity) (c : Client) (env : Envelope) (peer px ss rcpt : bytes)
    (Hun : unknown me peer c) (Hlen : length peer = 32%nat) (Hs : sender_pubkey env = peer) (Hr : recipient env = UserPubkey rcpt)
    (Hpx : pk_to_curve25519 peer = Some px) (Hss : derive_shared_secret (x25519 c) px = Ok ss)
    (Hct : pq_ct env <> []) (Hbad : length (pq_ct env) <> kMlKem768CtBytes) :
  exists c', on_frame fr (FEnvelope env) c = (c', [], Some (FromHandshake RecvPqCtSize)).
Proof.
  cbn [on_frame]. rewrite (dispatch_envelope_named _ _ _ _ _ Hs Hlen Hr). unfold dispatch_dm.
  rewrite (unknown_name_for _ _ _ Hun).
  assert (session_at (tag_name peer) c = default_session) as -> by (unfold session_at; by rewrite (un_tag _ _ _ Hun)).
  cbn [default_session rat]. unfold first_contact_session. rewrite Hpx. cbn [set_session with_sessions x25519 pq_id_sec].
  unfold derive_hybrid_recv_from_env, derive_hybrid_recv. rewrite Hss. cbn [rbind].
  destruct (pq_ct env) as [|x l] eqn:E; [done|]. rewrite <- E in *.
  destruct (Nat.eqb_spec (length (pq_ct env)) kMlKem768CtBytes); [done|]. cbn [negb]. by eexists.
Qed.

(** An envelope that names [peer], carries no KEM ciphertext and does not decrypt. *)
Record junk (peer : bytes) (env : Envelope) : Prop := {
  jk_sender : sender_pubkey env = peer;
  jk_recipient : exists rcpt, recipient env = UserPubkey rcpt;
  jk_pq : pq_ct env = [];
  jk_ct : pb_parse (M := Ratchet.RatchetMessage) (ciphertext env) = None;
  jk_aad : aad_consistent env = true;
}.

(** A forged first contact fixes the session.  An envelope that anyone can make
    (it names a peer unknown to the client, has no KEM ciphertext, and its ciphertext
    is not even a ratchet message) is dropped, but leaves a live session with that
    peer on the classical secret alone.  From then on every envelope that names the
    peer is decrypted with this ratchet: the KEM ciphertext of the peer's genuine
    first message is ignored.  And a reply through the session throws, which ends the
    worker. *)
Theorem forged_first_contact_sticks (fr : Fresh) (me : Identity) (c : Client) (env : Envelope) (peer px ss : bytes)
    (Hun : unknown me peer c) (Hlen : length peer = 32%nat) (Hjunk : junk peer env)
    (Hpx : pk_to_curve25519 peer = Some px) (Hss : derive_shared_secret (x25519 c) px = Ok ss) :
  let r := Ratchet.init_bob ss (x_priv (x25519 c)) (x_pub (x25519 c)) in
  exists s c', on_frame fr (FEnvelope env) c = (c', [], None) /\ linked me (tag_name peer) peer r s c' /\
    (forall fr' env' rcpt, sender_pubkey env' = peer -> recipient env' = UserPubkey rcpt -> aad_consistent env' = true ->
       on_frame fr' (FEnvelope env') c' =
       match Ratchet.decrypt r (ciphertext env') (env_aad env') (f_dh fr' (tag_name peer)) with
       | (Throw e, r') => (set_session (tag_name peer) (with_rat r' s) c', [], Some (FromRatchet e))
       | (Ok None, r') => dropped (set_session (tag_name peer) (with_rat r' s) c')
       | (Ok (Some pt), r') => received fr' env' (tag_name peer) peer pt (set_session (tag_name peer) (with_rat r' s) c')
       end) /\
    (forall fr' m, rebind_fingerprint c' (ps_peer m) = tag_name peer ->
       (send_one fr' m c').1.2 = Some (FromRatchet Ratchet.SendChainEmpty)).
Proof.
  intros r. destruct Hjunk as [Hs [rcpt Hr] Hpq Hct Haad].
  set (s := mkSession peer px (Some r) false [] false false []).
  exists s, (set_session (tag_name peer) s c). cbn [on_frame].
  assert (linked me (tag_name peer) peer r s (set_session (tag_name peer) s c)) as Hl.
  { split; try done; [apply Hun|apply set_session_lookup|]. apply sole_set. intros n s' Hs' Hl.
    by rewrite (un_live _ _ _ Hun _ _ Hs') in Hl. }
  split_and!; [|done| |].
  - rewrite (dispatch_envelope_named _ _ _ _ _ Hs Hlen Hr). unfold dispatch_dm. rewrite (unknown_name_for _ _ _ Hun).
    assert (session_at (tag_name peer) c = default_session) as -> by (unfold session_at; by rewrite (un_tag _ _ _ Hun)).
    cbn [default_session rat]. unfold first_contact_session. rewrite Hpx. cbn [set_session with_sessions x25519 pq_id_sec].
    unfold derive_hybrid_recv_from_env, derive_hybrid_recv. rewrite Hss, Hpq. cbn [rbind].
    cbn [default_session initialized_as_alice s_pq_ct pq_acked seal_outbound peer_pq_pub rat]. rewrite Haad. cbn [negb].
    with_strategy transparent [Ratchet.decrypt] unfold Ratchet.decrypt. rewrite Hct. rewrite with_rat_id by done.
    by rewrite !set_session_twice.
  - intros fr' env' rcpt' Hs' Hr' Ha'. rewrite (dispatch_envelope_named _ _ _ _ _ Hs' Hlen Hr').
    apply (dispatch_dm_linked _ _ _ _ _ _ env' None fr' Hl Ha').
  - intros fr' m Hm. unfold send_one. cbn [with_peer ps_peer]. rewrite Hm, session_at_set. cbn [s rat].
    unfold build_envelope. with_strategy transparent [Ratchet.encrypt] unfold Ratchet.encrypt. done.
Qed.
End first_contact_faults.

(** ** Restarts *)

Section restarts.
Context `{!Sodium, !Ed25519, !EdCurve, !PqCrypto, !Blake2b, !KeyedBlake2b, !MlsFacade, !SqlPlan, !SqlOrder}.
Context `{!ProtoMsg Ratchet.RatchetMessage, !ProtoMsg SenderKeys.SenderKeysMessage, !ProtoMsg SenderKeys.SenderKeysDistribution}.
Context `{!ProtoMsg DmPayload, !ProtoMsg Envelope}.

Lemma restore_channel_sessions (st : SqliteStore) (row : ChannelRow) (c : Client) :
  sessions (restore_channel st row c).1.1 = sessions c.
Proof.
  unfold restore_channel. destruct (negb _); [done|]. destruct (restore_mls _ _ _ _) as [[cs es]|e]; [|done].
  cbn [fst done_with]. by destruct (channels _ !! _).
Qed.

Lemma restore_channels_sessions (c : Client) : sessions (restore_channels c).1.1 = sessions c.
Proof.
  unfold restore_channels. destruct (store c) as [st|]; [|done]. generalize (chan_list st). intros rows.
  revert c. induction rows as [|row rows IH]; intros c; [done|]. cbn [run_each].
  pose proof (restore_channel_sessions st row c) as Hs. destruct (restore_channel st row c) as [[c1 es] [e|]]; [done|].
  cbn [fst] in Hs. rewrite <- Hs, <- (IH c1). by destruct (run_each _ rows c1) as [[? ?] ?].
Qed.

(** Without sessions every sealed envelope is dropped. *)
Lemma sealed_without_sessions (fr : Fresh) (env : Envelope) (c : Client) :
  sender_pubkey env = [] -> sessions c = ∅ -> on_frame fr (FEnvelope env) c = (c, [], None).
Proof.
  intros Hs Hn. cbn [on_frame]. unfold dispatch_envelope. rewrite Hs. destruct (recipient env); try done.
  assert (session_names c = []) as Hnames by (unfold session_names, map_elements; by rewrite Hn, map_to_list_empty).
  unfold sealed_prepass. rewrite Hnames. cbn [try_sessions]. by rewrite Hnames.
Qed.

(** A restart ends the conversation.  Alice's client has heard from Bob, so it
    seals.  Bob's client is restarted: it restores its channels from the store, but
    ratchet sessions are never stored.  Whatever Alice's client sends to Bob next
    does not name its sender, and Bob's client drops it without a trace; Alice's
    session stays as it is, so this holds of every later message too. *)
Theorem restart_silences_conversation (fr fr' : Fresh) (me : Identity) (n peer : bytes) (r : Ratchet.State) (s : Session)
    (m : PendingSend) (c c' cB : Client) (env : Envelope) (es : list ClientEffect)
    (Hl : linked me n peer r s c) (Hseal : seal_outbound s = true) (Hn : rebind_fingerprint c (ps_peer m) = n)
    (Hsend : send_one fr m c = (done_with c' (SendFrame (FEnvelope env) :: es), true)) :
  let b := (restore_channels (restart cB)).1.1 in
  on_frame fr' (FEnvelope env) b = (b, [], None) /\
  exists r' s', linked me n peer r' s' c' /\ seal_outbound s' = true.
Proof.
  intros b. unfold send_one in Hsend. cbn [with_peer ps_peer has_pre_packed pre_packed_payload ps_text] in Hsend.
  rewrite Hn, (session_at_Some _ _ _ (lk_session _ _ _ _ _ _ Hl)), (lk_rat _ _ _ _ _ _ Hl) in Hsend.
  rewrite (set_session_id _ _ _ (lk_session _ _ _ _ _ _ Hl)) in Hsend. unfold build_envelope in Hsend. rewrite Hseal in Hsend.
  destruct (Ratchet.encrypt r _ _) as [[ct|e] r']; [|done].
  match type of Hsend with context [record_sent ?f ?a ?p ?d] => pose proof (record_sent_core f a p d) as Hcore;
    destruct (record_sent f a p d) as [c1 es1] end.
  unfold done_with in Hsend. injection Hsend as <- <- _. cbn [fst] in Hcore. split.
  - apply sealed_without_sessions; [done|]. unfold b. rewrite restore_channels_sessions. done.
  - exists r', (with_rat r' s). split; [|done]. eapply linked_core; [|exact Hcore]. eapply linked_set; [done|apply Hl|done].
Qed.
End restarts.
