(* ===== verification/ChatClientTheorems.v ===== *)
(** * The desktop client's worker: theorems on direct messages and key bundles *)
From S2P Require Import Prelude StdMap Crypto Username SenderKeys Ratchet RatchetProofs RatchetConversation Wire Handshake HandshakeProofs.
From S2P Require Import Identity UsernameLog SFrame RoomKeys AttachmentFrame Sql ServerStore ClientStore ClientProto.
From S2P Require Import ChatClient ChatClientRecv ChatClientSend ChatClientProofs ChatConversation.

#[local] Opaque Ratchet.decrypt Ratchet.encrypt Ratchet.try_decrypt Ratchet.header_matches_recv_chain verify_sealed_sender
  append_inbox append_inbox_with_expiry append_outbox cache_peer_name set_peer_verified Ratchet.init_bob.

Section delivery.
Context `{!Sodium, !SodiumLaws, !Ed25519, !Ed25519Laws, !EdCurve, !EdCurveLaws, !PqCrypto, !PqLaws}.
Context `{!Blake2b, !KeyedBlake2b, !MlsFacade, !SqlPlan, !SqlOrder}.
Context `{!ProtoMsg Ratchet.RatchetMessage, !ProtoLaws Ratchet.RatchetMessage}.
Context `{!ProtoMsg SenderKeys.SenderKeysMessage, !ProtoMsg SenderKeys.SenderKeysDistribution}.
Context `{!ProtoMsg DmPayload, !ProtoLaws DmPayload, !ProtoMsg Envelope}.

(** The row a text message leaves in the receiver's store. *)
Definition inbox_row (fr : Fresh) (env : Envelope) (sender text : bytes) (ttl : Z) : SqliteStore -> SqliteStore :=
  if 0 <? ttl then append_inbox_with_expiry (f_nonce fr 5) (envelope_id env) sender text (f_now fr) (u64 (f_now fr + ttl))
  else append_inbox (f_nonce fr 5) (envelope_id env) sender text (f_now fr).

(** C2: Two desktop clients converse.  Alice's client consumes Bob's key bundle
    (with or without his KEM key); from then on both send through the send loop and
    receive through the frame handler, while the network reorders and loses
    envelopes and the clients do anything else that leaves this session alone; at
    most 1000 messages are outstanding, ratchet keys are fresh, and no other session
    of the receiver takes the envelope.  Every such world is a world of the Double
    Ratchet conversation, and every text in flight, whether it is the first contact,
    names its sender or is sealed, reaches the user interface of the receiver as the
    text that was sent, under the fingerprint of the sender's identity, and is
    appended to the receiver's inbox; the handler throws nothing. *)
Theorem chat_text_delivered (iA iB : Identity) (bob_name : bytes) (w : Chat) (f : Flight) (fr : Fresh) (text : bytes)
    (HA : identity_ok iA) (HB : identity_ok iB)
    (Hw : chat_reach iA iB bob_name w) (Hf : f ∈ chat_net w) (Htext : dm_body (fl_payload f) = BText text)
    (Hfresh : chat_fresh w (f_dh fr (name_of iA bob_name (fl_bob f))))
    (Hothers : refuses (fl_env f) fr (name_of iA bob_name (fl_bob f)) (client_of w (fl_bob f))) :
  let c := client_of w (fl_bob f) in
  let sender := id_pub (if fl_bob f then iA else iB) in
  (exists v, reach v /\ chat_rel iA iB bob_name w v) /\
  exists c',
    on_frame fr (FEnvelope (fl_env f)) c =
      (c', lookup_frames sender c ++ [MessageReceived (fingerprint sender) (username_of sender c) text], None) /\
    store c' = inbox_row fr (fl_env f) sender text (ttl_ms (fl_payload f)) <$> store c.
Proof.
  intros c sender. split; [by apply chat_simulation|].
  destruct (flight_delivered iA iB bob_name HA HB w f fr Hw Hf Hfresh Hothers) as (r' & s' & _ & _ & E).
  replace (peer_of iA iB (fl_bob f)) with sender in E by (unfold sender; by destruct (fl_bob f)).
  unfold dispatch_payload in E. rewrite Htext in E. cbn [on_frame]. fold c in E. rewrite E. by eexists.
Qed.
End delivery.

Section pins.
Context `{!Sodium, !Ed25519, !EdCurve, !PqCrypto, !Blake2b, !KeyedBlake2b, !MlsFacade, !SqlPlan, !SqlOrder}.
Context `{!ProtoMsg Ratchet.RatchetMessage, !ProtoMsg SenderKeys.SenderKeysMessage, !ProtoMsg SenderKeys.SenderKeysDistribution}.
Context `{!ProtoMsg DmPayload, !ProtoMsg Envelope}.

Lemma pq_capable_set (pub : bytes) (now : Z) (st : SqliteStore) :
  pub <> [] -> peer_pq_capable pub (set_peer_pq_capable pub true now st) = true.
Proof.
  intros Hp. unfold peer_pq_capable, set_peer_pq_capable, find_blob, binds_null. rewrite bool_decide_false by done.
  unfold on_plain. cbn -[lookup insert]. rewrite lookup_insert_eq.
  destruct (peer_pq_rows _ !! pub) as [[z fs]|]; [|done]. by rewrite orb_true_r.
Qed.

Lemma pinned_admit (now : Z) (pub label : bytes) (c c' : Client) (es : list ClientEffect) (st : SqliteStore) :
  pub <> [] -> store c = Some st -> pq_tofu_admit now pub label true c = (true, c', es) ->
  exists st', store c' = Some st' /\ peer_pq_capable pub st' = true.
Proof.
  intros Hp Hst. unfold pq_tofu_admit. rewrite Hst. unfold is_pq_capability_downgrade. cbn [negb].
  rewrite andb_false_r. cbn [andb]. destruct (peer_pq_capable pub st) eqn:Ep; cbn [negb]; intros [= <- <-].
  - by exists st.
  - eexists. split; [done|by apply pq_capable_set].
Qed.

(** Frames other than the bundle's arrive in between: the store keeps its pins. *)
Definition pinned (pub : bytes) (c : Client) : Prop :=
  match store c with Some st => peer_pq_capable pub st = true | None => False end.

(** C4: The post-quantum pin.  A client with a store that accepts a bundle with a
    KEM key for an identity pins it.  As long as the pin is in the store, a later
    bundle for that identity without a KEM key changes no session and sends nothing:
    the only effect is the warning to the user. *)
Theorem pq_pin_enforced (fr : Fresh) (resp : KeyBundleFetchResponse) (b : PreKeyBundle) (name : bytes)
    (c c1 : Client) (es : list ClientEffect) (e : option ClientError)
    (Hstore : is_Some (store c)) (Hhead : head (pending_fetch_targets c) = Some name) (Hname : filled name = true)
    (Hresp : kf_found resp = true /\ kf_bundle resp = Some b)
    (Hb : length (pk_identity_pubkey b) = 32%nat /\ length (signed_prekey b) = 32%nat /\ filled (pq_pubkey b) = true)
    (Hfirst : on_frame fr (FKeyFetchResp resp) c = (c1, es, e)) :
  pinned (pk_identity_pubkey b) c1 /\
  forall fr' resp' b' name' c2,
    pinned (pk_identity_pubkey b) c2 -> head (pending_fetch_targets c2) = Some name' -> filled name' = true ->
    kf_found resp' = true -> kf_bundle resp' = Some b' -> pk_identity_pubkey b' = pk_identity_pubkey b ->
    length (signed_prekey b') = 32%nat -> pq_pubkey b' = [] ->
    exists c3, on_frame fr' (FKeyFetchResp resp') c2 =
        (c3, [PeerPqDowngrade name' (fingerprint (pk_identity_pubkey b))], None) /\
      sessions c3 = sessions c2 /\ queue c3 = queue c2.
Proof.
  destruct Hstore as [st Hst], Hresp as [Hfo Hbu], Hb as (Hl1 & Hl2 & Hpq). split.
  - cbn [on_frame] in Hfirst. unfold on_key_fetch_resp in Hfirst. rewrite Hhead, Hbu, Hfo in Hfirst.
    change (default [] (Some name)) with name in Hfirst. change (default empty_bundle (Some b)) with b in Hfirst.
    rewrite Hname, Hl1, Hl2, Hpq in Hfirst. cbn [negb orb Nat.eqb] in Hfirst.
    match type of Hfirst with context [pq_tofu_admit ?n ?p ?l true ?d] =>
      destruct (pq_tofu_admit n p l true d) as [[[] d1] es1] eqn:Ea end.
    + apply (pinned_admit _ _ _ _ _ _ st) in Ea as (st' & Hs' & Hc'); [|intros E; by rewrite E in Hl1|done]. cbn [negb] in Hfirst.
      destruct (has_live _ d1); [injection Hfirst as <- _ _|destruct (session_from_bundle _ _ _ _); injection Hfirst as <- _ _];
        unfold pinned; cbn [set_session with_sessions store]; by rewrite Hs'.
    + unfold pq_tofu_admit, is_pq_capability_downgrade in Ea. cbn [with_queues store negb] in Ea. rewrite Hst, andb_false_r in Ea.
      by destruct (true && _).
  - intros fr' resp' b' name' c2 Hpin Hhead' Hname' Hfo' Hbu' Hid Hl2' Hpq'. unfold pinned in Hpin.
    destruct (store c2) as [st2|] eqn:Hst2; [|done].
    cbn [on_frame]. unfold on_key_fetch_resp. rewrite Hhead', Hbu', Hfo'.
    change (default [] (Some name')) with name'. change (default empty_bundle (Some b')) with b'.
    rewrite Hname', Hid, Hl1, Hl2', Hpq'. cbn [negb orb Nat.eqb filled].
    unfold pq_tofu_admit. cbn [with_queues store]. rewrite Hst2, Hpin. cbn [is_pq_capability_downgrade negb andb]. rewrite Hname'.
    by eexists.
Qed.
End pins.

(** ** The desktop client's worker: whom a sealed message is attributed to *)
From S2P Require Import Prelude StdMap Crypto Username SenderKeys Ratchet Wire Handshake HandshakeProofs Identity UsernameLog.
From S2P Require Import SFrame RoomKeys AttachmentFrame Sql ServerStore ClientStore ClientProto.
From S2P Require Import ChatClient ChatClientRecv ChatClientSend ChatClientProofs.

#[local] Opaque Ratchet.decrypt Ratchet.encrypt Ratchet.try_decrypt Ratchet.header_matches_recv_chain verify_sealed_sender
  append_inbox append_inbox_with_expiry.

Section sealed.
Context `{!Sodium, !Ed25519, !EdCurve, !PqCrypto, !Blake2b, !KeyedBlake2b, !MlsFacade, !SqlPlan, !SqlOrder}.
Context `{!ProtoMsg Ratchet.RatchetMessage, !ProtoMsg SenderKeys.SenderKeysMessage, !ProtoMsg SenderKeys.SenderKeysDistribution}.
Context `{!ProtoMsg DmPayload, !ProtoMsg Envelope}.
Variables (env : Envelope) (fr : Fresh).

#[local] Abbreviation attempt n r := (Ratchet.try_decrypt r (ciphertext env) (env_aad env) (f_dh fr n)).

(** The session after an attempt that gave no attributable message. *)
Definition attempted (n : bytes) (s0 s : Session) : Prop :=
  peer_pub s = peer_pub s0 /\ exists r0, rat s0 = Some r0 /\ (rat s = Some r0 \/ rat s = Some (attempt n r0).2).

(** [s] decrypts the envelope to the payload [dmp], whose seal its peer made for [me]. *)
Definition takes (me : Identity) (n : bytes) (s : Session) (pt : bytes) (dmp : DmPayload) : Prop :=
  exists r, rat s = Some r /\ (attempt n r).1 = Ok (Some pt) /\ pb_parse pt = Some dmp /\
    sealed_sender_pubkey dmp = peer_pub s /\
    verify_sealed_sender (peer_pub s) (sealed_sender_sig dmp) (envelope_id env) (timestamp_ms env) (id_pub me) = true.

Lemma try_session_takes (c : Client) (n : bytes) (s s' : Session) (r : Ratchet.State) (pt : bytes) :
  rat s = Some r -> try_session c env fr n s r = (s', Ok (Some pt)) ->
  peer_pub s' = peer_pub s /\ exists dmp, takes (identity c) n s pt dmp.
Proof.
  intros Hr. unfold try_session. destruct (attempt n r) as [[[p|]|e] r'] eqn:E; [|done|done].
  destruct (pb_parse p) as [dmp|] eqn:Ep; [|done]. destruct (sealed_ok c env (with_rat r' s) dmp) eqn:Eo; [|done].
  intros [= <- <-]. split; [done|]. exists dmp, r. rewrite E. cbn [fst].
  unfold sealed_ok in Eo. cbn [with_rat peer_pub] in Eo. rewrite !andb_true_iff, bool_decide_eq_true in Eo.
  destruct Eo as [[_ <-] ?]. done.
Qed.

Lemma try_session_attempted (c : Client) (n : bytes) (s s' : Session) (r : Ratchet.State) :
  rat s = Some r -> try_session c env fr n s r = (s', Ok None) -> attempted n s s'.
Proof.
  intros Hr. unfold try_session. destruct (attempt n r) as [[[p|]|e] r'] eqn:E; [| |done].
  - destruct (pb_parse p) as [dmp|]; [destruct (sealed_ok _ _ _ _); [done|]|]; intros [= <-];
      (split; [done|]); exists r; (split; [done|]); right; by rewrite E.
  - intros [= <-]. split; [done|]. exists r. split; [done|]. right. by rewrite E.
Qed.

(** One pass: what is known of every session when the pass begins holds of the one
    that takes the envelope. *)
Lemma try_sessions_takes (P : bytes -> Session -> Prop) (matched : bool) (names : list bytes) (c c' : Client) (sender pt : bytes) :
  NoDup names -> (forall n, n ∈ names -> exists s, sessions c !! n = Some s /\ P n s) ->
  try_sessions env fr matched names c = (c', Ok (Some (sender, pt))) ->
  identity c' = identity c /\ exists n s dmp, P n s /\ sender = peer_pub s /\ takes (identity c) n s pt dmp.
Proof.
  revert c. induction names as [|n names IH]; intros c Hnd Hin; [done|]. apply NoDup_cons in Hnd as [Hnin Hnd].
  destruct (Hin n) as (s & Hs & HP); [left|]. cbn [try_sessions]. rewrite (session_at_Some _ _ _ Hs).
  assert (forall n', n' ∈ names -> exists s, sessions c !! n' = Some s /\ P n' s) as Hrest by (intros; apply Hin; by right).
  destruct (rat s) as [r|] eqn:Er; [|by apply IH]. destruct (Bool.eqb _ _); [|by apply IH].
  destruct (try_session c env fr n s r) as [s' [[p|]|e]] eqn:Et; [| |done].
  - intros [= <- <- <-]. destruct (try_session_takes _ _ _ _ _ _ Er Et) as (Hp & dmp & Ht). split; [done|]. by exists n, s, dmp.
  - intros Htry. apply (IH (set_session n s' c)) in Htry; [done|done|]. intros n' Hn'. rewrite set_session_other; [by apply Hrest|].
    by intros <-.
Qed.

Lemma try_sessions_untouched (matched : bool) (names : list bytes) (c c' : Client) (n : bytes)
    (res : result ClientError (option (bytes * bytes))) :
  n ∉ names -> try_sessions env fr matched names c = (c', res) -> sessions c' !! n = sessions c !! n.
Proof.
  revert c. induction names as [|n' names IH]; intros c Hnin; cbn [try_sessions]; [by intros [= <-]|].
  apply not_elem_of_cons in Hnin as [Hne Hnin]. destruct (rat (session_at n' c)) as [r|]; [|by apply IH].
  destruct (Bool.eqb _ _); [|by apply IH]. destruct (try_session _ _ _ _ _ _) as [s' [[p|]|e]].
  - intros [= <- _]. by apply set_session_other.
  - intros Ht. rewrite (IH _ Hnin Ht). by apply set_session_other.
  - intros [= <- _]. by apply set_session_other.
Qed.

(** What a pass without result leaves. *)
Lemma try_sessions_attempted (matched : bool) (names : list bytes) (c c' : Client) :
  NoDup names -> (forall n, n ∈ names -> is_Some (sessions c !! n)) ->
  try_sessions env fr matched names c = (c', Ok None) ->
  identity c' = identity c /\
  forall n s', sessions c' !! n = Some s' -> exists s, sessions c !! n = Some s /\ (s' = s \/ attempted n s s').
Proof.
  revert c. induction names as [|n names IH]; intros c Hnd Hin; cbn [try_sessions].
  { intros [= <-]. split; [done|]. intros n s' Hs. exists s'. auto. }
  apply NoDup_cons in Hnd as [Hnin Hnd]. destruct (Hin n) as [s Hs]; [left|]. rewrite (session_at_Some _ _ _ Hs).
  assert (forall n', n' ∈ names -> is_Some (sessions c !! n')) as Hrest by (intros; apply Hin; by right).
  destruct (rat s) as [r|] eqn:Er; [|by apply IH]. destruct (Bool.eqb _ _); [|by apply IH].
  destruct (try_session c env fr n s r) as [s' [[p|]|e]] eqn:Et; [done| |done].
  pose proof (try_session_attempted _ _ _ _ _ Er Et) as Ha. intros Htry.
  assert (sessions (set_session n s' c) !! n = Some s') as Hset by apply set_session_lookup.
  destruct (IH (set_session n s' c) Hnd) as [Hid Hall]; [|done|].
  { intros n' Hn'. rewrite set_session_other; [by apply Hrest|]. by intros <-. }
  split; [done|]. intros n' s1 Hs1. destruct (decide (n' = n)) as [->|Hne].
  - exists s. split; [done|]. right. assert (s1 = s') as ->; [|done].
    rewrite (try_sessions_untouched _ _ _ _ _ _ Hnin Htry) in Hs1. congruence.
  - destruct (Hall _ _ Hs1) as (s2 & Hs2 & Ho). rewrite set_session_other in Hs2 by done. by exists s2.
Qed.

Lemma session_names_in (c : Client) (n : bytes) : n ∈ session_names c -> is_Some (sessions c !! n).
Proof. apply elem_of_session_names. Qed.

(** The pre-pass attributes an envelope to a session of the client that takes it, in
    the state it had or after one earlier attempt on the same envelope. *)
Lemma sealed_prepass_takes (c c' : Client) (sender pt : bytes) :
  sealed_prepass env fr c = (c', Ok (Some (sender, pt))) ->
  exists n s0 s dmp, sessions c !! n = Some s0 /\ (s = s0 \/ attempted n s0 s) /\ sender = peer_pub s0 /\
    takes (identity c) n s pt dmp.
Proof.
  unfold sealed_prepass. pose proof (NoDup_map_elements (sessions c)) as Hnd.
  assert (forall c1 n, n ∈ session_names c1 -> exists s, sessions c1 !! n = Some s /\ sessions c1 !! n = Some s) as Hpre
    by (intros c1 n [s Hs]%session_names_in; eauto).
  destruct (try_sessions env fr true (session_names c) c) as [c1 [[[sd p]|]|e]] eqn:E1; [| |done].
  - intros [= <- <- <-]. destruct (try_sessions_takes (fun n s => sessions c !! n = Some s) true (session_names c) c c1 sd p Hnd (Hpre c) E1)
      as (_ & n & s & dmp & Hs & Hp & Ht). exists n, s, s, dmp. auto.
  - intros E2. destruct (try_sessions_attempted _ _ _ _ Hnd (session_names_in c) E1) as [Hid Hall].
    destruct (try_sessions_takes (fun n s => sessions c1 !! n = Some s) false (session_names c1) c1 c' sender pt
      (NoDup_map_elements (sessions c1)) (Hpre c1) E2) as (_ & n & s & dmp & Hs & Hp & Ht).
    rewrite Hid in Ht. destruct (Hall _ _ Hs) as (s0 & Hs0 & Ho). exists n, s0, s, dmp. split_and!; try done.
    destruct Ho as [->|[Hpp _]]; congruence.
Qed.

(** Only a text payload is shown as a text. *)
Lemma dispatch_payload_text (f : Fresh) (e : Envelope) (sname sender username fp user text : bytes) (p : DmPayload) (c : Client) :
  MessageReceived fp user text ∈ (dispatch_payload f e sname sender username p c).1.2 ->
  dm_body p = BText text /\ fp = fingerprint sender.
Proof.
  unfold dispatch_payload. destruct (dm_body p); cbn zeta;
    unfold on_text, on_attachment, on_room_key, on_channel_key, on_shamir_push, on_mls_invite_request, on_mls_key_package,
      on_mls_welcome, on_mls_commit, on_mls_proposal, on_media_signal, done_with, dropped;
    repeat match goal with
    | |- context [if ?b then _ else _] => destruct b
    | |- context [match pending_join ?x with _ => _ end] => destruct (pending_join x)
    | |- context [match start_join ?x ?y with _ => _ end] => destruct (start_join x y)
    | |- context [match ch_mls ?x with _ => _ end] => destruct (ch_mls x)
    | |- context [match complete ?x ?y with _ => _ end] => destruct (complete x y)
    | |- context [persist_mls_seed ?a ?b ?d] => destruct (persist_mls_seed a b d)
    end; cbn [fst snd app]; rewrite ?elem_of_cons, ?elem_of_nil; naive_solver.
Qed.

Lemma received_text (f : Fresh) (e : Envelope) (sname sender pt fp user text : bytes) (c : Client) :
  MessageReceived fp user text ∈ (received f e sname sender pt c).1.2 ->
  exists p, pb_parse pt = Some p /\ dm_body p = BText text /\ fp = fingerprint sender.
Proof.
  unfold received. destruct (pb_parse pt) as [p|]; [|by intros ?%not_elem_of_nil].
  match goal with |- context [dispatch_payload ?f ?e ?a ?b ?u p ?d] => pose proof (dispatch_payload_text f e a b u fp user text p d) as Hd;
    destruct (dispatch_payload f e a b u p d) as [[c2 es] er] end.
  cbn [fst snd] in *. rewrite elem_of_app. intros [Hl|Hin].
  - exfalso. repeat case_match; by repeat (apply elem_of_cons in Hl as [Hl|Hl]; [done|]); apply not_elem_of_nil in Hl.
  - exists p. naive_solver.
Qed.

Lemma dispatch_dm_sealed_text (sender pt fp user text : bytes) (c : Client) :
  MessageReceived fp user text ∈ (dispatch_dm env sender (Some pt) fr c).1.2 ->
  exists p, pb_parse pt = Some p /\ dm_body p = BText text /\ fp = fingerprint sender.
Proof.
  unfold dispatch_dm. destruct (match rat _ with Some r => _ | None => _ end) as [[[s r]|e]|]; [|by intros ?%not_elem_of_nil..].
  destruct (negb _); [by intros ?%not_elem_of_nil|]. apply received_text.
Qed.

(** C3: Whom a sealed message is attributed to.  When an envelope without a sender
    makes the client show a text, then one of the client's sessions decrypted it (as
    it was, or after one earlier attempt on the same envelope), the text is the
    decrypted payload's, the fingerprint shown is that of the session's peer, and the
    payload carries that peer's signature over this envelope's id and time stamp and
    over this client's identity key. *)
Theorem sealed_text_attributed (c c' : Client) (es : list ClientEffect) (e : option ClientError) (fp user text : bytes)
    (Hsealed : sender_pubkey env = []) (Hframe : on_frame fr (FEnvelope env) c = (c', es, e))
    (Hshown : MessageReceived fp user text ∈ es) :
  exists n s0 s pt dmp, sessions c !! n = Some s0 /\ (s = s0 \/ attempted n s0 s) /\ takes (identity c) n s pt dmp /\
    dm_body dmp = BText text /\ fp = fingerprint (peer_pub s0).
Proof.
  cbn [on_frame] in Hframe. unfold dispatch_envelope in Hframe. rewrite Hsealed in Hframe.
  destruct (recipient env); try (injection Hframe as _ <- _; by apply not_elem_of_nil in Hshown).
  destruct (sealed_prepass env fr c) as [c1 [[[sender pt]|]|err]] eqn:Ep; cbn [option_fmap option_map fmap fst snd] in Hframe.
  2,3: injection Hframe as _ <- _; by apply not_elem_of_nil in Hshown.
  destruct (sealed_prepass_takes _ _ _ _ Ep) as (n & s0 & s & dmp & Hs0 & Ho & Hp & Ht).
  pose proof (dispatch_dm_sealed_text sender pt fp user text c1) as Hd. rewrite Hframe in Hd. cbn [fst snd] in Hd.
  destruct (Hd Hshown) as (p & Hpt & Hb & Hfp). exists n, s0, s, pt, dmp. split_and!; try done; [|congruence].
  destruct Ht as (r & _ & _ & Hdmp & _). congruence.
Qed.
End sealed.

(** ** The desktop client's worker: theorems on channels *)
From S2P Require Import Prelude StdMap Crypto Username SenderKeys SenderKeysProofs Ratchet Wire Handshake HandshakeProofs Identity UsernameLog.
From S2P Require Import SFrame RoomKeys AttachmentFrame Sql ServerStore ClientStore ClientStoreSim ClientProto.
From S2P Require Import ChatClient ChatClientRecv ChatClientSend ChatClientProofs ChatConversation.
Import SenderKeys.

(** What [persist_chan_session] saves is accepted by any store. *)
Lemma chan_session_saved `{!Sodium} (now : Z) (random key : bytes) (g : GroupSession) (st : SqliteStore) :
  (save_session now random key (SenderKeys.serialize_state g) st).2 = Ok tt.
Proof.
  unfold save_session, violates. cbn [not_null_cols existsb cell orb].
  rewrite (bool_decide_false (Sessions = ChanState)), (bool_decide_false (stored _ _ _ _ _ = VNull)); [done| |done].
  unfold stored. rewrite bind_nonempty; [done|]. destruct (encrypt_at_rest st); [apply aead_wrap_nonempty|done].
Qed.

#[local] Opaque chan_append_inbox save_session SenderKeys.serialize_state.

Section channels.
Context `{!Sodium, !SodiumLaws, !Ed25519, !EdCurve, !PqCrypto, !Blake2b, !KeyedBlake2b, !MlsFacade, !SqlPlan, !SqlOrder}.
Context `{!ProtoMsg Ratchet.RatchetMessage, !ProtoMsg SenderKeys.SenderKeysMessage, !ProtoLaws SenderKeys.SenderKeysMessage}.
Context `{!ProtoMsg SenderKeys.SenderKeysDistribution, !ProtoLaws SenderKeys.SenderKeysDistribution}.
Context `{!ProtoMsg DmPayload, !ProtoMsg Envelope}.

(** A client in a SenderKeys channel whose distribution starts the chain [cid], [ck]. *)
Record member (gid name cid ck : bytes) (c : Client) : Prop := {
  mb_name : chan_id_to_name c !! gid = Some name;
  mb_crypto : use_mls (channel_at name c) = None;
  mb_dist : own_dist (channel_at name c) = pb_serialize (SenderKeys.mkSenderKeysDistribution cid ck 0);
}.

Lemma lazy_install_fresh (sender cid ck : bytes) (cs : ChannelState) :
  length cid = 16%nat -> length ck = 32%nat -> own_dist cs = pb_serialize (SenderKeys.mkSenderKeysDistribution cid ck 0) ->
  lazy_install sender (own_dist cs) cs =
  ch_with_session (SenderKeys.set_peer (ch_session cs) sender (SenderKeys.mkPerPeerChain cid ck 0 ∅)) cs.
Proof.
  intros Hc Hk Hd. unfold lazy_install. rewrite Hd.
  pose proof (install_created SenderKeys.new_session (ch_session cs) cid ck sender Hc Hk) as E.
  cbn [SenderKeys.create_own_send_chain fst] in E. by rewrite E.
Qed.

(** What a member makes of a message of the chain, in whatever state. *)
Lemma dispatch_channel_fresh (fr : Fresh) (env : Envelope) (gid name cid ck sender : bytes) (c : Client) (msg : SenderKeys.SenderKeysMessage) :
  member gid name cid ck c -> length gid = 32%nat -> length cid = 16%nat -> length ck = 32%nat ->
  aad_consistent env = true -> pb_parse (ciphertext env) = Some msg -> length (SenderKeys.skm_chain_id msg) = 16%nat ->
  exists c', member gid name cid ck c' /\
    dispatch_channel env gid sender fr c =
    match (SenderKeys.decrypt_chain (SenderKeys.mkPerPeerChain cid ck 0 ∅) msg (env_aad env)).1 with
    | None => (c', [], None)
    | Some pt => (c', [channel_event name sender pt], None)
    end.
Proof.
  intros [Hn Hm Hd] Hg Hc Hk Ha Hp Hl. unfold dispatch_channel. rewrite Hg, Nat.eqb_refl, Hn. cbn [negb].
  rewrite (lazy_install_fresh _ _ _ _ Hc Hk Hd), Ha. cbn [negb].
  set (cs := channel_at name c) in *. unfold channel_decrypt.
  change (use_mls (ch_with_session _ cs)) with (use_mls cs). rewrite Hm.
  cbn [ch_session ch_with_session].
  rewrite (decrypt_eq _ sender (SenderKeys.mkPerPeerChain cid ck 0 ∅) _ _ msg);
    [|unfold SenderKeys.set_peer; cbn [SenderKeys.peers]; apply lookup_insert_eq|done|done].
  cbn zeta. destruct (SenderKeys.decrypt_chain _ _ _) as [pt chain]. cbn [fst snd].
  assert (forall cs' c', chan_id_to_name c' = chan_id_to_name c -> channels c' !! name = Some cs' -> use_mls cs' = None ->
    own_dist cs' = own_dist cs -> member gid name cid ck c') as Hmem.
  { intros cs' c' E1 E2 E3 E4. assert (channel_at name c' = cs') as Hat by (unfold channel_at; by rewrite E2).
    split; rewrite ?Hat; congruence. }
  destruct pt as [pt|]; (eexists; split; [|done]); (eapply Hmem; [done|apply lookup_insert_eq|done|done]).
Qed.

(** The creator after [j] messages. *)
Record owner (gid name cid ck : bytes) (j : nat) (c : Client) : Prop := {
  ow_at : exists cs, channels c !! name = Some cs /\ ch_id cs = gid /\ filled (own_dist cs) = true /\ use_mls cs = None /\
    have_own_chain (ch_session cs) = true /\ own_chain_id (ch_session cs) = cid /\
    own_chain_key (ch_session cs) = ck_at ck j /\ own_next_index (ch_session cs) = Z.of_nat j;
  ow_id : take 3 gid <> replicate 3 Byte.x00;
}.

Lemma owner_sends (fr : Fresh) (op : PendingChannelOp) (gid cid ck : bytes) (j : nat) (c : Client) :
  owner gid (op_channel_name op) cid ck j c -> op_kind op = kSend -> Z.of_nat j + 1 < u32_max ->
  exists c', chan_op fr op c =
      (done_with c' [SendFrame (FEnvelope (mkEnvelope (f_envid fr) (f_now fr) (id_pub (identity c))
         (pb_serialize (genuine cid ck 0 j (op_text op) (envelope_aad_bytes (f_envid fr) (f_now fr))))
         (envelope_aad_bytes (f_envid fr) (f_now fr)) kAes256Gcm kProtocolVersion [] [] (ChannelGroupId gid)))], true) /\
    owner gid (op_channel_name op) cid ck (S j) c'.
Proof.
  intros [(cs & Hcs & Hid & Hd & Hm & Hh & Hci & Hck & Hn) Hz] Hk Hj. unfold chan_op, ensure_id.
  assert (channel_at (op_channel_name op) c = cs) as -> by (unfold channel_at; by rewrite Hcs).
  rewrite Hid, bool_decide_false by done. rewrite Hk. unfold op_send. rewrite Hd. cbn [negb].
  unfold channel_encrypt. rewrite Hm. unfold encrypt. rewrite Hh, Hci, Hck, Hn. cbn [negb].
  change (identity (set_channel _ _ _)) with (identity c). cbn [ch_with_session ch_id]. rewrite Hid. eexists. split.
  - unfold genuine. rewrite Z.add_0_l. done.
  - split; [|done]. eexists. split; [apply lookup_insert_eq|]. cbn [ch_id own_dist ch_session ch_with_session own_chain_id own_chain_key
      own_next_index have_own_chain]. split_and!; try done. unfold u32. rewrite Z.mod_small by lia. lia.
Qed.

(** From the start of its chain a receiver reaches the first 1001 messages. *)
Lemma fresh_chain_reads (cid ck pt outer : bytes) (j : nat) :
  (decrypt_chain (mkPerPeerChain cid ck 0 ∅) (genuine cid ck 0 j pt outer) outer).1 = if (j <=? 1000)%nat then Some pt else None.
Proof.
  destruct (Nat.leb_spec j 1000) as [Hle|Hgt].
  - pose proof (decrypt_chain_step cid ck 0 ∅ 0 (mkPerPeerChain cid ck 0 ∅) j (genuine cid ck 0 j pt outer) outer
      ltac:(lia) ltac:(unfold u32_max; lia) ltac:(lia) Hle (chain_inv_init cid ck 0) (conj eq_refl eq_refl)) as Hstep.
    rewrite decide_False in Hstep by set_solver. destruct Hstep as [-> _]. by rewrite genuine_opens.
  - unfold decrypt_chain. cbn [genuine skm_chain_id skm_index chain_id skipped next_index].
    rewrite (bool_decide_true (cid = cid)), lookup_empty by done. cbn [negb]. unfold advance_chain_to. cbn [next_index].
    destruct (Z.ltb_spec (0 + Z.of_nat j) 0); [lia|].
    destruct (Z.ltb_spec (Z.of_nat kMaxSkip) (0 + Z.of_nat j - 0)); [done|unfold kMaxSkip in *; lia].
Qed.

Lemma on_frame_channel (fr : Fresh) (env : Envelope) (gid : bytes) (c : Client) :
  length (sender_pubkey env) = 32%nat -> recipient env = ChannelGroupId gid ->
  on_frame fr (FEnvelope env) c = dispatch_channel env gid (sender_pubkey env) fr c.
Proof.
  intros Hs Hr. cbn [on_frame]. unfold dispatch_envelope. rewrite Hr. destruct (sender_pubkey env) as [|x l]; [done|].
  by rewrite Hs, Nat.eqb_refl.
Qed.

(** C25: What the members of a channel read.  A member whose distribution is the
    creator's, in whatever state, shows the creator's [j]-th message exactly when
    [j] is at most 1000, under the creator's identity: in any order, and again every
    time the envelope arrives again.  From message 1001 on the channel is silent for
    every member: each arrival restarts the chain from the stored distribution. *)
Theorem channel_reads_first_1001 (fr fr' : Fresh) (op : PendingChannelOp) (gid name cid ck : bytes) (j : nat) (cO cR : Client)
    (HO : owner gid (op_channel_name op) cid ck j cO) (Hop : op_kind op = kSend) (Hj : Z.of_nat j + 1 < u32_max)
    (HR : member gid name cid ck cR)
    (Hlen : length gid = 32%nat /\ length cid = 16%nat /\ length ck = 32%nat /\ length (id_pub (identity cO)) = 32%nat) :
  exists env cO' cR',
    chan_op fr op cO = (done_with cO' [SendFrame (FEnvelope env)], true) /\ owner gid (op_channel_name op) cid ck (S j) cO' /\
    member gid name cid ck cR' /\
    on_frame fr' (FEnvelope env) cR =
      (cR', if (j <=? 1000)%nat then [channel_event name (id_pub (identity cO)) (op_text op)] else [], None).
Proof.
  destruct Hlen as (Hg & Hc & Hk & Hs). destruct (owner_sends fr op gid cid ck j cO HO Hop Hj) as (cO' & E & HO').
  set (env := mkEnvelope _ _ _ _ _ _ _ _ _ _) in E.
  assert (pb_parse (ciphertext env) = Some (genuine cid ck 0 j (op_text op) (env_aad env))) as Hp.
  { apply pb_parse_serialize. unfold pb_ok, skm_fields, genuine, is_u32. cbn [skm_index]. lia. }
  assert (aad_consistent env = true) as Ha.
  { unfold aad_consistent. cbn [env env_aad envelope_id timestamp_ms].
    by rewrite (bool_decide_true (_ = envelope_aad_bytes _ _)), orb_true_r. }
  destruct (dispatch_channel_fresh fr' env gid name cid ck (id_pub (identity cO)) cR _ HR Hg Hc Hk Ha Hp Hc) as (cR' & HR' & Ed).
  exists env, cO', cR'. split_and!; [done|done|done|]. rewrite (on_frame_channel fr' env gid cR Hs eq_refl).
  change (sender_pubkey env) with (id_pub (identity cO)). rewrite Ed, fresh_chain_reads. by destruct (j <=? 1000)%nat.
Qed.

(** The relay's substitution of the sender. *)
Definition with_sender (x : bytes) (env : Envelope) : Envelope :=
  mkEnvelope (envelope_id env) (timestamp_ms env) x (ciphertext env) (env_aad env) (aead_alg env) (protocol_version env)
    (signature env) (pq_ct env) (recipient env).

(** A message was shown: it is a message of the chain. *)
Lemma delivered_parses (fr : Fresh) (env : Envelope) (gid name cid ck sender : bytes) (c c' : Client) (ev : ClientEffect) (e : option ClientError) :
  member gid name cid ck c -> length cid = 16%nat -> length ck = 32%nat ->
  dispatch_channel env gid sender fr c = (c', [ev], e) ->
  length gid = 32%nat /\ aad_consistent env = true /\
  exists msg, pb_parse (ciphertext env) = Some msg /\ length (skm_chain_id msg) = 16%nat.
Proof.
  intros [Hn Hm Hd] Hc Hk. unfold dispatch_channel. destruct (Nat.eqb_spec (length gid) 32); [|done]. cbn [negb]. rewrite Hn.
  destruct (aad_consistent env); [|done]. cbn [negb]. rewrite (lazy_install_fresh _ _ _ _ Hc Hk Hd). unfold channel_decrypt.
  change (use_mls (ch_with_session _ (channel_at name c))) with (use_mls (channel_at name c)). rewrite Hm. unfold decrypt.
  destruct (pb_parse (ciphertext env)) as [msg|]; [|done].
  destruct (Nat.eqb_spec (length (skm_chain_id msg)) 16); [|done]. eauto.
Qed.

(** The sender of a channel message is not authenticated.  When a SenderKeys
    channel shows a message, whoever relays its envelope can send it again with any
    other 32-byte key as the sender, and the client shows the same content as a
    message of that identity: the chain of the channel is installed for whatever key
    the envelope names, and nothing in the envelope binds the sender. *)
Theorem channel_sender_unauthenticated (fr : Fresh) (env : Envelope) (gid name cid ck : bytes) (c c' : Client) (ev : ClientEffect)
    (Hc : member gid name cid ck c) (Hlen : length cid = 16%nat /\ length ck = 32%nat)
    (Hsender : length (sender_pubkey env) = 32%nat) (Hrcpt : recipient env = ChannelGroupId gid)
    (Hshown : on_frame fr (FEnvelope env) c = (c', [ev], None)) :
  exists pt, ev = channel_event name (sender_pubkey env) pt /\
    forall fr' other, length other = 32%nat ->
      exists c'', on_frame fr' (FEnvelope (with_sender other env)) c' = (c'', [channel_event name other pt], None).
Proof.
  destruct Hlen as [Hl1 Hl2]. rewrite (on_frame_channel fr env gid c Hsender Hrcpt) in Hshown.
  destruct (delivered_parses _ _ _ _ _ _ _ _ _ _ _ Hc Hl1 Hl2 Hshown) as (Hg & Ha & msg & Hp & Hm).
  destruct (dispatch_channel_fresh fr env gid name cid ck (sender_pubkey env) c msg Hc Hg Hl1 Hl2 Ha Hp Hm) as (c1 & Hc1 & E).
  rewrite E in Hshown. destruct (decrypt_chain _ msg (env_aad env)) as [[pt|] chain] eqn:Ed; cbn [fst] in Hshown; [|done].
  injection Hshown as -> <-. exists pt. split; [done|]. intros fr' other Ho.
  rewrite (on_frame_channel fr' (with_sender other env) gid c' Ho Hrcpt).
  destruct (dispatch_channel_fresh fr' (with_sender other env) gid name cid ck other c' msg Hc1 Hg Hl1 Hl2 Ha Hp Hm) as (c2 & _ & E2).
  exists c2. cbn [with_sender sender_pubkey]. rewrite E2. cbn [with_sender env_aad]. by rewrite Ed.
Qed.
End channels.
