(* ===== verification/ChatClientWitness.v ===== *)
(** * The desktop client on concrete data

    An evaluable codec for [DmPayload], two clients, and the theorems about the worker
    applied to them. *)
From S2P Require Import Prelude StdMap Crypto Username ToySign SenderKeys SenderKeysProofs Ratchet RatchetProofs RatchetConversation Toy Wire.
From S2P Require Import Handshake HandshakeProofs Identity UsernameLog SFrame RoomKeys AttachmentFrame Sql ClientStore ClientStoreTheorems.
From S2P Require Import ClientProto ChatClient ChatClientRecv ChatClientSend ChatClientProofs ChatConversation.
From S2P Require Import ChatClientTheorems ChatClientFaults ChatClientApi.
From S2P Require Import DhtWitness UsernameGossip.

(** ** Instances *)

#[export] Instance TrackBinding_eq_dec : EqDecision TrackBinding.
Proof. solve_decision. Defined.
#[export] Instance MediaSignal_eq_dec : EqDecision MediaSignal.
Proof. solve_decision. Defined.
#[export] Instance Distribution_eq_dec : EqDecision SenderKeys.SenderKeysDistribution.
Proof. solve_decision. Defined.
#[export] Instance DmBody_eq_dec : EqDecision DmBody.
Proof. solve_decision. Defined.
#[export] Instance DmPayload_eq_dec : EqDecision DmPayload.
Proof. solve_decision. Defined.

#[export] Instance TrackBinding_countable : Countable TrackBinding.
Proof. refine (inj_countable' (fun t => (tb_mid t, tb_sender_pubkey t)) (fun '(a, b) => mkTrackBinding a b) _). by intros []. Defined.
#[export] Instance MediaSignal_countable : Countable MediaSignal.
Proof.
  refine (inj_countable' (fun m => (ms_call_id m, ms_kind m, ms_payload m, ms_epoch m, ms_track_bindings m, ms_pq_ct m))
    (fun '(a, b, c, d, e, f) => mkMediaSignal a b c d e f) _). by intros [].
Defined.
#[export] Instance Distribution_countable : Countable SenderKeys.SenderKeysDistribution.
Proof.
  refine (inj_countable' (fun d => (SenderKeys.skd_chain_id d, SenderKeys.skd_chain_seed d, SenderKeys.skd_start_index d))
    (fun '(a, b, c) => SenderKeys.mkSenderKeysDistribution a b c) _). by intros [].
Defined.

#[export] Instance DmBody_countable : Countable DmBody.
Proof.
  refine (inj_countable'
    (fun b => match b with
     | BNotSet => inl (inl (inl tt))
     | BText t => inl (inl (inr t))
     | BChannelKey i n d => inl (inr (inl (i, n, d)))
     | BMediaSignal m => inl (inr (inr (inl m)))
     | BMlsInviteRequest i n => inl (inr (inr (inr (i, n))))
     | BMlsKeyPackage i k => inr (inl (inl (inl (i, k))))
     | BMlsWelcome i n w => inr (inl (inl (inr (i, n, w))))
     | BMlsCommit i c => inr (inl (inr (inl (i, c))))
     | BMlsProposal i p => inr (inl (inr (inr (i, p))))
     | BAttachment m f c => inr (inr (inl (inl (m, f, c))))
     | BRoomKey r e s => inr (inr (inl (inr (r, e, s))))
     | BShamirSharePush s i t n l => inr (inr (inr (inl (s, i, t, n, l))))
     | BShamirShareRequest i r => inr (inr (inr (inr (i, r))))
     end)
    (fun x => match x with
     | inl (inl (inl _)) => BNotSet
     | inl (inl (inr t)) => BText t
     | inl (inr (inl (i, n, d))) => BChannelKey i n d
     | inl (inr (inr (inl m))) => BMediaSignal m
     | inl (inr (inr (inr (i, n)))) => BMlsInviteRequest i n
     | inr (inl (inl (inl (i, k)))) => BMlsKeyPackage i k
     | inr (inl (inl (inr (i, n, w)))) => BMlsWelcome i n w
     | inr (inl (inr (inl (i, c)))) => BMlsCommit i c
     | inr (inl (inr (inr (i, p)))) => BMlsProposal i p
     | inr (inr (inl (inl (m, f, c)))) => BAttachment m f c
     | inr (inr (inl (inr (r, e, s)))) => BRoomKey r e s
     | inr (inr (inr (inl (s, i, t, n, l)))) => BShamirSharePush s i t n l
     | inr (inr (inr (inr (i, r)))) => BShamirShareRequest i r
     end) _). by intros [].
Defined.

#[export] Instance DmPayload_countable : Countable DmPayload.
Proof.
  refine (inj_countable' (fun p => (dm_body p, sealed_sender_pubkey p, sealed_sender_sig p, ClientProto.ttl_ms p))
    (fun '(a, b, c, d) => mkDmPayload a b c d) _). by intros [].
Defined.

#[export] Instance dm_fields_dec (p : DmPayload) : Decision (pb_ok p).
Proof.
  unfold pb_ok, dm_fields. destruct (dm_body p); cbn [body_ok]; unfold is_u32, is_u64; apply _.
Defined.

#[export] Instance toy_dm : ProtoMsg DmPayload := {|
  pb_serialize m := toy_pos_bytes (encode m);
  pb_parse b := m ← decode (Z.to_pos (be_value b)); if decide (pb_ok m) then Some m else None;
|}.
#[export] Instance toy_dm_laws : ProtoLaws DmPayload.
Proof.
  split.
  - intros m Hm. cbn [pb_parse pb_serialize toy_dm]. rewrite toy_pos_value. cbn [Z.to_pos].
    rewrite decode_encode. cbn. by rewrite decide_True.
  - intros b m. cbn [pb_parse toy_dm]. intros (m' & _ & E)%bind_Some. by case_decide; simplify_eq.
Qed.

#[local] Instance toy_env : ProtoMsg Envelope := {| pb_serialize _ := []; pb_parse _ := None |}.
#[local] Instance toy_blake : Blake2b := fun n b => take n (reverse b ++ replicate n Byte.x00).
#[local] Instance toy_keyed_blake : KeyedBlake2b := fun n k b => take n (k ++ b ++ replicate n Byte.x00).
#[local] Instance toy_mls : MlsFacade := {|
  MlsGroup := unit; PendingMlsJoin := unit;
  mls_create _ _ _ := None; start_join _ _ := None; key_package _ := []; complete _ _ := None;
  propose_add_member g _ := (None, g); commit_pending g := (None, g); handle_proposal g _ := (false, g);
  apply_commit g _ := (false, g); application_encrypt g _ := (None, g); application_decrypt g _ := (None, g);
  member_identities _ := []; operation_log _ := []; serialize_seed _ := []; from_seed_and_log _ _ := None;
|}.

(** ** Clients *)

Definition w_plain : SqliteStore := mkSqliteStore empty_db false (fun _ => []) [] false [] 0 0.

Definition w_client (n : Z) (targets : list bytes) : Client :=
  mkClient (w_identity n) (w_x n) (pq_sec (w_pq n)) (Some w_plain) None ∅ ∅ ∅ [] [] [] targets ∅ ∅ ∅.

Definition w_fresh (k : Z) : Fresh :=
  mkFresh (1000 + k) (be_bytes 16 k) (fun _ => be_bytes 32 (500 + k)) (be_bytes 32 21) (be_bytes 32 77) (be_bytes 16 k) (be_bytes 32 k)
    [] (fun _ => []) (fun _ => None) (fun _ => true) 0.

Definition w_fresh_all (i : nat) : Fresh := w_fresh (Z.of_nat i).

Definition w_resp (b : PreKeyBundle) : KeyBundleFetchResponse := mkKeyBundleFetchResponse true (Some b) 0.

(** Alice is 5, Bob is 11: she fetched his bundle as "bob". *)
Definition w_start (c : Client) : Client := (on_frame (w_fresh 0) (FKeyFetchResp (w_resp (w_bundle 11))) c).1.1.

Definition no_envelope : Envelope := mkEnvelope [] 0 [] [] [] 0 0 [] [] RecipientNotSet.
Definition sent_env (o : Out * bool) : Envelope :=
  match o.1.1.2 with SendFrame (FEnvelope e) :: _ => e | _ => no_envelope end.
Definition w_msg (peer text : bytes) : PendingSend := mkPendingSend peer text [] [].
Definition w_tag : bytes := tag_name (id_pub (w_identity 5)).

Definition w_cA0 : Client := Eval vm_compute in w_start (w_client 5 [str "bob"]).
Definition w_out1 := send_one (w_fresh 1) (w_msg (str "bob") (str "hello")) w_cA0.
Definition w_env1 : Envelope := Eval vm_compute in sent_env w_out1.
Definition w_cA1 : Client := Eval vm_compute in w_out1.1.1.1.
Definition w_cB1 : Client := Eval vm_compute in (on_frame (w_fresh 2) (FEnvelope w_env1) (w_client 11 [])).1.1.
Definition w_out3 := send_one (w_fresh 3) (w_msg w_tag (str "hi")) w_cB1.
Definition w_env3 : Envelope := Eval vm_compute in sent_env w_out3.
Definition w_cB3 : Client := Eval vm_compute in w_out3.1.1.1.

(** Maps with one entry. *)
Lemma only_key {V} (m : gmap bytes V) (n n' : bytes) (v : V) : (map_to_list m).*1 = [n] -> m !! n' = Some v -> n' = n.
Proof.
  intros E Hv. apply list_elem_of_singleton. rewrite <- E. apply list_elem_of_fmap. exists (n', v).
  by rewrite elem_of_map_to_list.
Qed.

Lemma only_refuses (env : Envelope) (fr : Fresh) (n : bytes) (c : Client) :
  (map_to_list (sessions c)).*1 = [n] -> refuses env fr n c.
Proof. intros E n' s r Hne Hs. by apply (only_key _ _ _ _ E) in Hs. Qed.

Lemma none_refuses (env : Envelope) (fr : Fresh) (n : bytes) (c : Client) : sessions c = ∅ -> refuses env fr n c.
Proof. intros E n' s r _ Hs. by rewrite E, lookup_empty in Hs. Qed.

#[local] Abbreviation w_iA := (w_identity 5).
#[local] Abbreviation w_iB := (w_identity 11).
Definition w_used0 : list bytes := [scalarmult_base (be_bytes 32 21); x_pub (w_x 11)].
Definition w_chat0 : Chat := mkChat w_cA0 (w_client 11 []) [] w_used0 0.
Definition w_hello : DmPayload := dm_of (BText (str "hello")).
Definition w_hi : DmPayload := dm_of (BText (str "hi")).
Definition w_flight1 : Flight := mkFlight true w_env1 w_hello.
Definition w_flight3 : Flight := mkFlight false w_env3 w_hi.
Definition w_used2 : list bytes := scalarmult_base (be_bytes 32 502) :: w_used0.
Definition w_chat1 : Chat := mkChat w_cA1 (w_client 11 []) [w_flight1] w_used0 1.
Definition w_chat2 : Chat := mkChat w_cA1 w_cB1 [] w_used2 0.
Definition w_chat3 : Chat := mkChat w_cA1 w_cB3 [w_flight3] w_used2 1.

Lemma w_unknown : unknown w_iB (id_pub w_iA) (w_client 11 []).
Proof. split; [done| |done]. intros n s Hs. cbn [w_client sessions] in Hs. by rewrite lookup_empty in Hs. Qed.

Lemma w_start_ok : chat_start w_iA w_iB (str "bob") w_chat0.
Proof.
  apply (ChatStart w_iA w_iB (str "bob") (w_fresh 0) (w_resp (w_bundle 11)) (w_bundle 11) (w_client 5 [str "bob"]) w_cA0 (w_client 11 [])
    [] (w_x 11) (be_bytes 32 11) (w_pq 11)); try reflexivity; try (vm_compute; reflexivity).
  - intros n s Hs. cbn [w_client sessions] in Hs. by rewrite lookup_empty in Hs.
  - exact w_unknown.
  - by right.
  - apply (bool_decide_unpack _). vm_compute. exact I.
  - by_computing.
Qed.

Lemma w_step1 : chat_step w_iA w_iB (str "bob") w_chat0 w_chat1.
Proof.
  apply (Chat_send w_iA w_iB (str "bob") w_chat0 false (w_fresh 1) (w_msg (str "bob") (str "hello")) w_hello w_cA1 w_env1 []).
  - vm_compute. reflexivity.
  - vm_compute. reflexivity.
  - reflexivity.
  - by_computing.
  - vm_compute. lia.
  - intros r Hr. vm_compute in Hr. injection Hr as <-. vm_compute. reflexivity.
Qed.

Lemma w_step2 : chat_step w_iA w_iB (str "bob") w_chat1 w_chat2.
Proof.
  apply (Chat_deliver w_iA w_iB (str "bob") w_chat1 [] w_flight1 [] (w_fresh 2) w_cB1
    [SendFrame (FUsernameLookup (id_pub w_iA)); MessageReceived (fingerprint (id_pub w_iA)) [] (str "hello")] None).
  - reflexivity.
  - apply Forall_cons_2; [|apply Forall_singleton]; split; by_computing.
  - by apply none_refuses.
  - vm_compute. reflexivity.
Qed.

Lemma w_step3 : chat_step w_iA w_iB (str "bob") w_chat2 w_chat3.
Proof.
  apply (Chat_send w_iA w_iB (str "bob") w_chat2 true (w_fresh 3) (w_msg w_tag (str "hi")) w_hi w_cB3 w_env3 []).
  - vm_compute. reflexivity.
  - vm_compute. reflexivity.
  - reflexivity.
  - by_computing.
  - vm_compute. lia.
  - intros r Hr. vm_compute in Hr. injection Hr as <-. vm_compute. reflexivity.
Qed.

Lemma w_reach : chat_reach w_iA w_iB (str "bob") w_chat3.
Proof.
  eapply Chat_next; [|exact w_step3]. eapply Chat_next; [|exact w_step2]. eapply Chat_next; [|exact w_step1].
  apply Chat_init, w_start_ok.
Qed.

(** Bob's sealed reply reaches Alice. *)
Lemma chat_text_delivered_witness :
  sender_pubkey w_env3 = [] /\
  exists c', on_frame (w_fresh 4) (FEnvelope w_env3) w_cA1 =
    (c', [MessageReceived (fingerprint (id_pub w_iB)) (str "bob") (str "hi")], None).
Proof.
  split; [reflexivity|].
  destruct (chat_text_delivered w_iA w_iB (str "bob") w_chat3 w_flight3 (w_fresh 4) (str "hi")) as (_ & c' & E & _).
  - reflexivity.
  - reflexivity.
  - exact w_reach.
  - left.
  - reflexivity.
  - do 2 (apply Forall_cons_2; [split; by_computing|]). apply Forall_singleton. split; by_computing.
  - apply only_refuses. vm_compute. reflexivity.
  - exists c'. exact E.
Defined.

(** The same envelope, from Alice's point of view. *)
Lemma sealed_text_attributed_witness :
  exists n s0 s pt dmp, sessions w_cA1 !! n = Some s0 /\ (s = s0 \/ attempted w_env3 (w_fresh 4) n s0 s) /\
    takes w_env3 (w_fresh 4) w_iA n s pt dmp /\ dm_body dmp = BText (str "hi") /\ fingerprint (id_pub w_iB) = fingerprint (peer_pub s0).
Proof.
  apply (sealed_text_attributed w_env3 (w_fresh 4) w_cA1 (on_frame (w_fresh 4) (FEnvelope w_env3) w_cA1).1.1
    [MessageReceived (fingerprint (id_pub w_iB)) (str "bob") (str "hi")] None (fingerprint (id_pub w_iB)) (str "bob") (str "hi")).
  - reflexivity.
  - vm_compute. reflexivity.
  - left.
Defined.

(** A bundle for 11 with a KEM key, then one stripped of it. *)
Definition w_stripped : PreKeyBundle := mkPreKeyBundle (id_pub w_iB) (x_pub (w_x 11)) [] [] 0 0 [] [] [] [] [] [].
Definition w_pinned : Client := with_queues [] [] [] [str "bob"] w_cA0.

Lemma pq_pin_enforced_witness :
  exists c3, on_frame (w_fresh 9) (FKeyFetchResp (w_resp w_stripped)) w_pinned =
    (c3, [PeerPqDowngrade (str "bob") (fingerprint (id_pub w_iB))], None) /\
    sessions c3 = sessions w_pinned /\ queue c3 = queue w_pinned.
Proof.
  destruct (pq_pin_enforced (w_fresh 0) (w_resp (w_bundle 11)) (w_bundle 11) (str "bob") (w_client 5 [str "bob"]) w_cA0 [] None)
    as [_ T].
  - eexists. reflexivity.
  - reflexivity.
  - reflexivity.
  - split; reflexivity.
  - split; [|split]; vm_compute; reflexivity.
  - vm_compute. reflexivity.
  - apply (T (w_fresh 9) (w_resp w_stripped) w_stripped (str "bob") w_pinned); reflexivity.
Defined.

(** ** Faults *)

Definition w_two : Client := with_queues [w_msg (str "carol") (str "one"); w_msg (str "bob") (str "two")] [] [] [] w_cA0.

(** Bob's session is live; the message for him is lost with Carol's key fetch. *)
Lemma waiting_send_loses_queue_witness :
  exists c' m' es, drain_sends w_fresh_all w_two = (c', es, None) /\ queue c' = [m'] /\ ps_text m' = str "one" /\
    pre_packed_payload m' = [] /\ store c' = store w_two /\
    (es = [] \/ es = [SendFrame (FKeyFetch (str "carol") 0)]).
Proof.
  apply (waiting_send_loses_queue w_fresh_all w_two (w_msg (str "carol") (str "one")) [w_msg (str "bob") (str "two")]).
  - reflexivity.
  - vm_compute. reflexivity.
Defined.

(** Bob answers to "alice". *)
Definition w_answer : PendingSend := w_msg (str "alice") (str "hi").
Definition w_alice_bundle : PreKeyBundle := mkPreKeyBundle (id_pub w_iA) (x_pub (w_x 5)) [] [] 0 0 [] [] [] [] [] [].
Definition w_renamed : Client := with_queues [w_answer] [] [] [] w_cB1.

Lemma w_renamed_ok : renamed w_answer w_alice_bundle w_renamed.
Proof. split; try reflexivity; try exact I; try (vm_compute; reflexivity). split; vm_compute; reflexivity. Qed.

Lemma reply_by_name_never_sent_witness :
  exists c', rounds (w_resp w_alice_bundle) w_fresh_all 7 w_renamed = (c', replicate 7 (SendFrame (FKeyFetch (str "alice") 0))) /\
    renamed w_answer w_alice_bundle c'.
Proof.
  apply (reply_by_name_never_sent w_answer w_alice_bundle (w_resp w_alice_bundle)).
  - reflexivity.
  - reflexivity.
  - vm_compute. reflexivity.
  - vm_compute. reflexivity.
  - exact w_renamed_ok.
Defined.

Definition w_short : Envelope :=
  mkEnvelope [] 0 (id_pub w_iA) [] [] 0 0 [] [Byte.x01] (UserPubkey (id_pub w_iB)).

Lemma malformed_first_contact_throws_witness :
  exists c', on_frame (w_fresh 5) (FEnvelope w_short) (w_client 11 []) = (c', [], Some (FromHandshake RecvPqCtSize)).
Proof.
  apply (malformed_first_contact_throws (w_fresh 5) w_iB (w_client 11 []) w_short (id_pub w_iA) (x_pub (w_x 5))
    (get [] (derive_shared_secret (w_x 11) (x_pub (w_x 5)))) (id_pub w_iB)).
  - exact w_unknown.
  - reflexivity.
  - reflexivity.
  - reflexivity.
  - vm_compute. reflexivity.
  - vm_compute. reflexivity.
  - discriminate.
  - vm_compute. discriminate.
Defined.

Definition w_junk : Envelope := mkEnvelope [] 0 (id_pub w_iA) [] [] 0 0 [] [] (UserPubkey (id_pub w_iB)).

(** Alice's genuine first message, after the forgery: not delivered. *)
Lemma forged_first_contact_sticks_witness :
  exists c', on_frame (w_fresh 5) (FEnvelope w_junk) (w_client 11 []) = (c', [], None) /\
    exists c'', on_frame (w_fresh 2) (FEnvelope w_env1) c' = (c'', [], None).
Proof.
  destruct (forged_first_contact_sticks (w_fresh 5) w_iB (w_client 11 []) w_junk (id_pub w_iA) (x_pub (w_x 5))
    (get [] (derive_shared_secret (w_x 11) (x_pub (w_x 5))))) as (s & c' & E & Hl & Hnext & _).
  - exact w_unknown.
  - reflexivity.
  - split; [reflexivity|eexists; reflexivity|reflexivity|vm_compute; reflexivity|reflexivity].
  - vm_compute. reflexivity.
  - vm_compute. reflexivity.
  - exists c'. split; [exact E|].
    rewrite (Hnext (w_fresh 2) w_env1 (id_pub w_iB)); [|reflexivity|reflexivity|vm_compute; reflexivity].
    match goal with |- context [Ratchet.decrypt ?r ?a ?b ?d] =>
      assert ((Ratchet.decrypt r a b d).1 = Ok None) as Hd by (vm_compute; reflexivity); destruct (Ratchet.decrypt r a b d) as [res r'] end.
    cbn [fst] in Hd. subst res. eexists. reflexivity.
Defined.

(** Alice after Bob's reply, and Bob after a restart. *)
Definition w_cA4 : Client := Eval vm_compute in (on_frame (w_fresh 4) (FEnvelope w_env3) w_cA1).1.1.
Definition w_out5 := send_one (w_fresh 5) (w_msg (str "bob") (str "there?")) w_cA4.
Definition w_cA5 : Client := Eval vm_compute in w_out5.1.1.1.
Definition w_env5 : Envelope := Eval vm_compute in sent_env w_out5.
Definition w_sA4 : Session := Eval vm_compute in session_at (str "bob") w_cA4.

Lemma restart_silences_conversation_witness :
  let b := (restore_channels (restart w_cB3)).1.1 in on_frame (w_fresh 6) (FEnvelope w_env5) b = (b, [], None).
Proof.
  apply (restart_silences_conversation (w_fresh 5) (w_fresh 6) w_iA (str "bob") (id_pub w_iB) (default Ratchet.default_state (rat w_sA4)) w_sA4
    (w_msg (str "bob") (str "there?")) w_cA4 w_cA5 w_cB3 w_env5 []).
  - split; try (vm_compute; reflexivity). intros n' s Hs _. apply (only_key (sessions w_cA4) (str "bob") n' s); [vm_compute; reflexivity|exact Hs].
  - reflexivity.
  - vm_compute. reflexivity.
  - vm_compute. reflexivity.
Defined.

(** ** Channels *)

Definition w_room_op (k : ChanOpKind) (text : bytes) : PendingChannelOp := mkPendingChannelOp k (str "room") [] text [] false false.
Definition w_gid : bytes := channel_id_from_name (str "room").
Definition w_dist : SenderKeys.SenderKeysDistribution := SenderKeys.mkSenderKeysDistribution (be_bytes 16 6) (be_bytes 32 6) 0.

(** The creator, and a member who got the channel's key. *)
Definition w_owner : Client := Eval vm_compute in (chan_op (w_fresh 6) (w_room_op kCreateLocal []) (w_client 5 [])).1.1.1.
Definition w_member : Client := Eval vm_compute in (on_channel_key (w_fresh 7) (id_pub w_iA) w_gid (str "room") w_dist (w_client 11 [])).1.1.

Lemma w_owner_ok : owner w_gid (str "room") (be_bytes 16 6) (be_bytes 32 6) 0 w_owner.
Proof.
  split; [|by_computing]. eexists. split; [vm_compute; reflexivity|]. split_and!; vm_compute; reflexivity.
Qed.

Lemma w_member_ok : member w_gid (str "room") (be_bytes 16 6) (be_bytes 32 6) w_member.
Proof. split; vm_compute; reflexivity. Qed.

Lemma channel_reads_first_1001_witness :
  exists env cO' cR',
    chan_op (w_fresh 8) (w_room_op kSend (str "hi all")) w_owner = (done_with cO' [SendFrame (FEnvelope env)], true) /\
    owner w_gid (str "room") (be_bytes 16 6) (be_bytes 32 6) 1 cO' /\
    member w_gid (str "room") (be_bytes 16 6) (be_bytes 32 6) cR' /\
    on_frame (w_fresh 9) (FEnvelope env) w_member = (cR', [ChannelMessageReceived (str "room") (fingerprint (id_pub w_iA)) (str "hi all")], None).
Proof.
  apply (channel_reads_first_1001 (w_fresh 8) (w_fresh 9) (w_room_op kSend (str "hi all")) w_gid (str "room") (be_bytes 16 6) (be_bytes 32 6) 0
    w_owner w_member).
  - exact w_owner_ok.
  - reflexivity.
  - reflexivity.
  - exact w_member_ok.
  - split_and!; vm_compute; reflexivity.
Defined.

Definition w_chan_env : Envelope := Eval vm_compute in sent_env (chan_op (w_fresh 8) (w_room_op kSend (str "hi all")) w_owner).

(** The relay makes 11 the author of the message. *)
Lemma channel_sender_unauthenticated_witness :
  exists pt, ChannelMessageReceived (str "room") (fingerprint (id_pub w_iA)) (str "hi all") = channel_event (str "room") (id_pub w_iA) pt /\
    exists c'', on_frame (w_fresh 10) (FEnvelope (with_sender (id_pub w_iB) w_chan_env))
        (on_frame (w_fresh 9) (FEnvelope w_chan_env) w_member).1.1 =
      (c'', [channel_event (str "room") (id_pub w_iB) pt], None).
Proof.
  destruct (channel_sender_unauthenticated (w_fresh 9) w_chan_env w_gid (str "room") (be_bytes 16 6) (be_bytes 32 6) w_member
    (on_frame (w_fresh 9) (FEnvelope w_chan_env) w_member).1.1
    (ChannelMessageReceived (str "room") (fingerprint (id_pub w_iA)) (str "hi all"))) as (pt & E & T).
  - exact w_member_ok.
  - split; reflexivity.
  - reflexivity.
  - reflexivity.
  - vm_compute. reflexivity.
  - exists pt. split; [exact E|]. apply (T (w_fresh 10) (id_pub w_iB)). reflexivity.
Defined.
