(* ===== verification/Mls.v ===== *)
(** * MLS groups ([src/core/src/crypto/mls_facade.cpp])

    [MlsGroup] keeps a group of the mlspp library on disk as a seed (the keys and
    the inputs of the first state) and a log of the operations that changed it; a
    group is restored by building the first state again and running every
    operation of the log.  mlspp is not part of the sources: its types and calls
    are the class [Mlspp].  Random bytes and the clock are arguments. *)
From S2P Require Import Prelude.

(** ** mlspp *)

(** [tls::marshal] and [tls::get], which throws on malformed bytes. *)
Class TlsSyntax (T : Type) := {
  tls_marshal : T -> bytes;
  tls_get : bytes -> option T;
}.

(** A call on [State] that may change it returns the state it leaves; [None] is an
    exception.  The encapsulations of a commit and the reuse guard of a message
    are random: the first argument of [commit] and [protect]. *)
Class Mlspp := {
  State : Type;
  SignaturePrivateKey : Type;
  HPKEPrivateKey : Type;
  KeyPackage : Type;
  LeafNode : Type;
  Welcome : Type;
  MLSMessage : Type;
  Proposal : Type;
  KeyPackage_tls :: TlsSyntax KeyPackage;
  LeafNode_tls :: TlsSyntax LeafNode;
  Welcome_tls :: TlsSyntax Welcome;
  MLSMessage_tls :: TlsSyntax MLSMessage;
  sig_generate : bytes -> SignaturePrivateKey;
  sig_data : SignaturePrivateKey -> bytes;
  sig_parse : bytes -> option SignaturePrivateKey;
  hpke_generate : bytes -> HPKEPrivateKey;
  hpke_data : HPKEPrivateKey -> bytes;
  hpke_parse : bytes -> option HPKEPrivateKey;
  (** [LeafNode(suite, leaf_pub, sig_pub, Credential::basic(identity), default
      capabilities, default lifetime, {}, sig_priv)] at a time. *)
  new_leaf_node : HPKEPrivateKey -> SignaturePrivateKey -> bytes -> Z -> LeafNode;
  new_key_package : HPKEPrivateKey -> LeafNode -> SignaturePrivateKey -> KeyPackage;
  (** The two constructors of [State]: an empty group with its epoch-0 secret, and
      a group joined from a Welcome that holds the tree. *)
  empty_group : bytes -> HPKEPrivateKey -> SignaturePrivateKey -> LeafNode -> bytes -> option State;
  join_group : HPKEPrivateKey -> HPKEPrivateKey -> SignaturePrivateKey -> KeyPackage -> Welcome -> option State;
  add_proposal : State -> KeyPackage -> option Proposal;
  remove_proposal : State -> Z -> option Proposal;
  (** [state.commit(leaf_secret, {extra_proposals, inline_tree}, {encrypt = false})] *)
  commit : bytes -> State -> bytes -> list Proposal -> bool -> State * option (MLSMessage * Welcome * State);
  (** [state.add(kp, {encrypt = false})] *)
  add : State -> KeyPackage -> State * option MLSMessage;
  (** The new state of a commit, nothing for a proposal. *)
  handle : State -> MLSMessage -> State * option (option State);
  protect : bytes -> State -> bytes -> State * option MLSMessage;
  unprotect : State -> MLSMessage -> State * option bytes;
  group_id : State -> bytes;
  state_epoch : State -> Z;
  (** The identity of each leaf, [None] where the credential is not basic. *)
  roster : State -> list (option bytes);
  do_export : State -> bytes -> bytes -> nat -> bytes;
}.

(** The exceptions of this file and those of mlspp. *)
Inductive MlsError :=
| TruncatedBlob
| SeedVersion (version : Z)
| UnknownRole (role : Z)
| SuiteMismatch
| CreatorSeedIncomplete
| JoinerSeedIncomplete
| MissingMagic
| NoNewState
| UnknownOpKind (kind : Z)
| ReplayFailed (i : nat) (e : MlsError)
| FromMlspp.

(** ** Bytes: little-endian fields *)

Definition put_u8 (v : Z) : bytes := [z2b v].
Definition put_u16 (v : Z) : bytes := [z2b (Z.land v 255); z2b (Z.land (Z.shiftr v 8) 255)].
Definition put_u32 (v : Z) : bytes :=
  [ z2b (Z.land v 255); z2b (Z.land (Z.shiftr v 8) 255);
    z2b (Z.land (Z.shiftr v 16) 255); z2b (Z.land (Z.shiftr v 24) 255) ].

(** [static_cast<std::uint32_t>(v.size())], then the bytes. *)
Definition put_sized (v : bytes) : bytes := put_u32 (u32 (Z.of_nat (length v))) ++ v.
Definition put_sized16 (v : bytes) : bytes := put_u16 (u16 (Z.of_nat (length v))) ++ v.

(** The class [Reader]: its state is the unread suffix. *)
Definition Reader (A : Type) : Type := bytes -> result MlsError (A * bytes).

Definition reader_bind {A B} (m : Reader A) (k : A -> Reader B) : Reader B := fun v =>
  match m v with
  | Ok (a, v') => k a v'
  | Throw e => Throw e
  end.
Definition reader_ret {A} (a : A) : Reader A := fun v => Ok (a, v).
Definition reader_throw {A} (e : MlsError) : Reader A := fun _ => Throw e.

Notation "'read' x := m 'in' k" := (reader_bind m (fun x => k))
  (at level 10, x name, m at level 100, k at level 200) : finbit_scope.

Definition r_u8 : Reader Z := fun v =>
  match v with
  | b :: v' => Ok (b2z b, v')
  | [] => Throw TruncatedBlob
  end.
Definition r_u16 : Reader Z := fun v =>
  match v with
  | b0 :: b1 :: v' => Ok (Z.lor (b2z b0) (Z.shiftl (b2z b1) 8), v')
  | _ => Throw TruncatedBlob
  end.
Definition r_u32 : Reader Z := fun v =>
  match v with
  | b0 :: b1 :: b2 :: b3 :: v' =>
      Ok (Z.lor (Z.lor (Z.lor (b2z b0) (Z.shiftl (b2z b1) 8)) (Z.shiftl (b2z b2) 16)) (Z.shiftl (b2z b3) 24), v')
  | _ => Throw TruncatedBlob
  end.
Definition r_take (n : Z) : Reader bytes := fun v =>
  if Z.of_nat (length v) <? n then Throw TruncatedBlob
  else Ok (take (Z.to_nat n) v, drop (Z.to_nat n) v).

(** A length and that many bytes. *)
Definition r_sized : Reader bytes := read n := r_u32 in r_take n.
Definition r_sized16 : Reader bytes := read n := r_u16 in r_take n.

(** A call of mlspp on what was read. *)
Definition r_lift {A} (o : option A) : Reader A := fun v =>
  match o with
  | Some a => Ok (a, v)
  | None => Throw FromMlspp
  end.

(** ** The operation log *)

Definition kOpAddMember : Z := 1.
Definition kOpRemoveMember : Z := 2.
Definition kOpProposeAdd : Z := 3.
Definition kOpHandleProposal : Z := 4.
Definition kOpCommitPending : Z := 5.
Definition kOpApplyCommit : Z := 6.

Definition op_record (kind : Z) (p : bytes) : bytes := put_u8 kind ++ put_sized p.

Definition encode_op_addmember (kp leaf_secret : bytes) : bytes :=
  op_record kOpAddMember (put_sized kp ++ put_sized leaf_secret).
Definition encode_op_removemember (leaf_idx : Z) (leaf_secret : bytes) : bytes :=
  op_record kOpRemoveMember (put_u32 leaf_idx ++ put_sized leaf_secret).
Definition encode_op_proposeadd (kp : bytes) : bytes := op_record kOpProposeAdd (put_sized kp).
Definition encode_op_wire (kind : Z) (wire : bytes) : bytes := op_record kind (put_sized wire).
Definition encode_op_commitpending (leaf_secret : bytes) : bytes := op_record kOpCommitPending (put_sized leaf_secret).

(** ** Seeds *)

Definition kSuiteId : Z := 1.
Definition kSeedVersion : Z := 1.
Definition kRoleCreator : Z := 0.
Definition kRoleJoiner : Z := 1.

Definition encode_creator_seed (group_id identity sig_priv_data leaf_priv_data init_secret leaf_node_marshaled : bytes) : bytes :=
  put_u8 kSeedVersion ++ put_u8 kRoleCreator ++ put_u8 kSuiteId ++ put_u8 0 ++
  put_sized16 group_id ++ put_sized16 identity ++
  put_sized sig_priv_data ++ put_sized leaf_priv_data ++
  put_u32 0 ++ put_u32 0 ++ put_u32 0 ++
  put_sized init_secret ++ put_sized leaf_node_marshaled.

Definition encode_joiner_seed
    (group_id identity sig_priv_data leaf_priv_data init_priv_data key_package_marshaled welcome_marshaled : bytes) : bytes :=
  put_u8 kSeedVersion ++ put_u8 kRoleJoiner ++ put_u8 kSuiteId ++ put_u8 0 ++
  put_sized16 group_id ++ put_sized16 identity ++
  put_sized sig_priv_data ++ put_sized leaf_priv_data ++
  put_sized init_priv_data ++ put_sized key_package_marshaled ++ put_sized welcome_marshaled ++
  put_u32 0 ++ put_u32 0.

Section mls.
Context `{!Mlspp}.

Record DecodedSeed := mkDecodedSeed {
  d_role : Z;
  d_group_id : bytes;
  d_identity : bytes;
  d_sig_priv : SignaturePrivateKey;
  d_leaf_priv : HPKEPrivateKey;
  d_init_priv : option HPKEPrivateKey;
  d_key_package : option KeyPackage;
  d_welcome : option Welcome;
  d_creator_init_secret : bytes;
  d_creator_leaf_node : option LeafNode;
}.

(** [if (len > 0) { take; parse }] *)
Definition r_optional {A} (parse : bytes -> option A) : Reader (option A) :=
  read n := r_u32 in
  if 0 <? n then read v := r_take n in read a := r_lift (parse v) in reader_ret (Some a)
  else reader_ret None.

Definition r_parsed {A} (parse : bytes -> option A) : Reader A := read v := r_sized in r_lift (parse v).

Definition decode_seed (blob : bytes) : result MlsError DecodedSeed :=
  match (
    read version := r_u8 in
    if negb (version =? kSeedVersion) then reader_throw (SeedVersion version) else
    read role_raw := r_u8 in
    if negb (role_raw =? kRoleCreator) && negb (role_raw =? kRoleJoiner) then reader_throw (UnknownRole role_raw) else
    read suite_raw := r_u8 in
    if negb (suite_raw =? kSuiteId) then reader_throw SuiteMismatch else
    read reserved := r_u8 in
    read gid := r_sized16 in
    read identity := r_sized16 in
    read sig_priv := r_parsed sig_parse in
    read leaf_priv := r_parsed hpke_parse in
    read init_priv := r_optional hpke_parse in
    read kp := r_optional tls_get in
    read wel := r_optional tls_get in
    read init_secret := r_optional Some in
    read creator_leaf_node := r_optional tls_get in
    reader_ret (mkDecodedSeed role_raw gid identity sig_priv leaf_priv init_priv kp wel
                  (default [] init_secret) creator_leaf_node)) blob
  with
  | Ok (d, _) => Ok d
  | Throw e => Throw e
  end.

(** ** Groups *)

Record MlsGroupImpl := mkMlsGroupImpl {
  state_ : State;
  sig_priv_ : SignaturePrivateKey;
  leaf_priv_ : HPKEPrivateKey;
  seed_blob_ : bytes;
  op_log_ : list bytes;
}.

Definition with_state (s : State) (g : MlsGroupImpl) : MlsGroupImpl :=
  mkMlsGroupImpl s (sig_priv_ g) (leaf_priv_ g) (seed_blob_ g) (op_log_ g).
Definition push_op (op : bytes) (g : MlsGroupImpl) : MlsGroupImpl :=
  mkMlsGroupImpl (state_ g) (sig_priv_ g) (leaf_priv_ g) (seed_blob_ g) (op_log_ g ++ [op]).

Record AddResult := mkAddResult { ar_welcome : bytes; ar_commit : bytes }.

(** The private [do_] methods: what they leave in [state_], and their value. *)
Definition Action (A : Type) : Type := State -> State * result MlsError A.

Definition do_add_member (rnd kp_bytes leaf_secret : bytes) : Action AddResult := fun s =>
  match tls_get kp_bytes with
  | None => (s, Throw FromMlspp)
  | Some kp =>
      match add_proposal s kp with
      | None => (s, Throw FromMlspp)
      | Some p =>
          match commit rnd s leaf_secret [p] true with
          | (s', None) => (s', Throw FromMlspp)
          | (_, Some (commit_msg, welcome_msg, new_state)) =>
              (new_state, Ok (mkAddResult (tls_marshal welcome_msg) (tls_marshal commit_msg)))
          end
      end
  end.

Definition do_remove_member (rnd : bytes) (leaf_index : Z) (leaf_secret : bytes) : Action bytes := fun s =>
  match remove_proposal s leaf_index with
  | None => (s, Throw FromMlspp)
  | Some p =>
      match commit rnd s leaf_secret [p] false with
      | (s', None) => (s', Throw FromMlspp)
      | (_, Some (commit_msg, _, new_state)) => (new_state, Ok (tls_marshal commit_msg))
      end
  end.

Definition do_propose_add_member (kp_bytes : bytes) : Action bytes := fun s =>
  match tls_get kp_bytes with
  | None => (s, Throw FromMlspp)
  | Some kp =>
      match add s kp with
      | (s1, None) => (s1, Throw FromMlspp)
      | (s1, Some msg) =>
          match handle s1 msg with
          | (s2, None) => (s2, Throw FromMlspp)
          | (s2, Some _) => (s2, Ok (tls_marshal msg))
          end
      end
  end.

Definition do_handle_proposal (wire : bytes) : Action unit := fun s =>
  match tls_get wire with
  | None => (s, Throw FromMlspp)
  | Some msg =>
      match handle s msg with
      | (s', None) => (s', Throw FromMlspp)
      | (s', Some _) => (s', Ok tt)
      end
  end.

Definition do_commit_pending (rnd leaf_secret : bytes) : Action AddResult := fun s =>
  match commit rnd s leaf_secret [] true with
  | (s', None) => (s', Throw FromMlspp)
  | (_, Some (commit_msg, welcome_msg, new_state)) =>
      (new_state, Ok (mkAddResult (tls_marshal welcome_msg) (tls_marshal commit_msg)))
  end.

Definition do_apply_commit (wire : bytes) : Action unit := fun s =>
  match tls_get wire with
  | None => (s, Throw FromMlspp)
  | Some msg =>
      match handle s msg with
      | (s', None) => (s', Throw FromMlspp)
      | (s', Some None) => (s', Throw NoNewState)
      | (_, Some (Some next)) => (next, Ok tt)
      end
  end.

(** The public mutators: the [do_] method, then the record in the log.  A
    mutator that throws leaves what the [do_] method left and logs nothing. *)
Definition logged {A} (op : bytes) (act : Action A) (g : MlsGroupImpl) : MlsGroupImpl * result MlsError A :=
  match act (state_ g) with
  | (s, Ok a) => (push_op op (with_state s g), Ok a)
  | (s, Throw e) => (with_state s g, Throw e)
  end.

(** [leaf_secret] is what [random_leaf_secret] draws. *)
Definition add_member (rnd leaf_secret key_package : bytes) : MlsGroupImpl -> MlsGroupImpl * result MlsError AddResult :=
  logged (encode_op_addmember key_package leaf_secret) (do_add_member rnd key_package leaf_secret).
Definition remove_member (rnd leaf_secret : bytes) (leaf_index : Z) : MlsGroupImpl -> MlsGroupImpl * result MlsError bytes :=
  logged (encode_op_removemember leaf_index leaf_secret) (do_remove_member rnd leaf_index leaf_secret).
Definition propose_add_member (key_package : bytes) : MlsGroupImpl -> MlsGroupImpl * result MlsError bytes :=
  logged (encode_op_proposeadd key_package) (do_propose_add_member key_package).
Definition handle_proposal (proposal : bytes) : MlsGroupImpl -> MlsGroupImpl * result MlsError unit :=
  logged (encode_op_wire kOpHandleProposal proposal) (do_handle_proposal proposal).
Definition commit_pending (rnd leaf_secret : bytes) : MlsGroupImpl -> MlsGroupImpl * result MlsError AddResult :=
  logged (encode_op_commitpending leaf_secret) (do_commit_pending rnd leaf_secret).
Definition apply_commit (wire : bytes) : MlsGroupImpl -> MlsGroupImpl * result MlsError unit :=
  logged (encode_op_wire kOpApplyCommit wire) (do_apply_commit wire).

Definition application_encrypt (rnd plaintext : bytes) (g : MlsGroupImpl) : MlsGroupImpl * result MlsError bytes :=
  match protect rnd (state_ g) plaintext with
  | (s, Some msg) => (with_state s g, Ok (tls_marshal msg))
  | (s, None) => (with_state s g, Throw FromMlspp)
  end.

(** Every exception is [nullopt]. *)
Definition application_decrypt (mls_msg : bytes) (g : MlsGroupImpl) : MlsGroupImpl * option bytes :=
  match tls_get mls_msg with
  | None => (g, None)
  | Some msg =>
      match unprotect (state_ g) msg with
      | (s, Some pt) => (with_state s g, Some pt)
      | (s, None) => (with_state s g, None)
      end
  end.

Definition serialize_seed (g : MlsGroupImpl) : bytes := seed_blob_ g.
Definition operation_log (g : MlsGroupImpl) : list bytes := op_log_ g.

Definition mgb1 : bytes := str "MGB1".

Definition serialize (g : MlsGroupImpl) : bytes :=
  mgb1 ++ put_sized (seed_blob_ g) ++ put_u32 (u32 (Z.of_nat (length (op_log_ g)))) ++ mjoin (put_sized <$> op_log_ g).

Definition member_count (g : MlsGroupImpl) : nat := length (roster (state_ g)).
Definition member_identities (g : MlsGroupImpl) : list bytes := default [] <$> roster (state_ g).
Definition epoch (g : MlsGroupImpl) : Z := state_epoch (state_ g).
Definition export_room_secret (g : MlsGroupImpl) : bytes :=
  take 32 (do_export (state_ g) (str "FinBit-room-sframe-v1") (group_id (state_ g)) 32).

(** ** Replaying *)

Definition discard {A} (act : Action A) : Action unit := fun s =>
  match act s with
  | (s', Ok _) => (s', Ok tt)
  | (s', Throw e) => (s', Throw e)
  end.

(** The switch on the kind: reads the payload and gives the call to make. *)
Definition op_action (rnd : bytes) (kind : Z) : Reader (Action unit) :=
  if kind =? kOpAddMember then
    read kp := r_sized in read ls := r_sized in reader_ret (discard (do_add_member rnd kp ls))
  else if kind =? kOpRemoveMember then
    read idx := r_u32 in read ls := r_sized in reader_ret (discard (do_remove_member rnd idx ls))
  else if kind =? kOpProposeAdd then
    read kp := r_sized in reader_ret (discard (do_propose_add_member kp))
  else if kind =? kOpHandleProposal then
    read w := r_sized in reader_ret (do_handle_proposal w)
  else if kind =? kOpCommitPending then
    read ls := r_sized in reader_ret (discard (do_commit_pending rnd ls))
  else if kind =? kOpApplyCommit then
    read w := r_sized in reader_ret (do_apply_commit w)
  else reader_throw (UnknownOpKind kind).

Definition replay_op (rnd op_bytes : bytes) (g : MlsGroupImpl) : MlsGroupImpl * result MlsError unit :=
  match (read kind := r_u8 in read payload := r_sized in reader_ret (kind, payload)) op_bytes with
  | Throw e => (g, Throw e)
  | Ok ((kind, payload), _) =>
      match op_action rnd kind payload with
      | Throw e => (g, Throw e)
      | Ok (act, _) => logged op_bytes act g
      end
  end.

(** The loop over the log; [rnds i] are the random bytes of the [i]-th replay. *)
Fixpoint replay_ops (rnds : nat -> bytes) (i : nat) (ops : list bytes) (g : MlsGroupImpl) : result MlsError MlsGroupImpl :=
  match ops with
  | [] => Ok g
  | op :: ops' =>
      match replay_op (rnds i) op g with
      | (g', Ok _) => replay_ops rnds (S i) ops' g'
      | (_, Throw e) => Throw (ReplayFailed i e)
      end
  end.

Definition initial_state (d : DecodedSeed) : result MlsError State :=
  if d_role d =? kRoleCreator then
    match d_creator_init_secret d, d_creator_leaf_node d with
    | [], _ | _, None => Throw CreatorSeedIncomplete
    | secret, Some ln =>
        match empty_group (d_group_id d) (d_leaf_priv d) (d_sig_priv d) ln secret with
        | Some s => Ok s
        | None => Throw FromMlspp
        end
    end
  else
    match d_init_priv d, d_key_package d, d_welcome d with
    | Some ip, Some kp, Some w =>
        match join_group ip (d_leaf_priv d) (d_sig_priv d) kp w with
        | Some s => Ok s
        | None => Throw FromMlspp
        end
    | _, _, _ => Throw JoinerSeedIncomplete
    end.

Definition from_seed_and_log (rnds : nat -> bytes) (seed : bytes) (ops : list bytes) : result MlsError MlsGroupImpl :=
  let? decoded := decode_seed seed in
  let? state := initial_state decoded in
  replay_ops rnds 0 ops (mkMlsGroupImpl state (d_sig_priv decoded) (d_leaf_priv decoded) seed []).

(** [for (i = 0; i < op_count; ++i)]: every turn reads at least four bytes, so the
    length of what is left bounds the turns that can succeed. *)
Fixpoint read_ops (fuel : nat) (n : Z) : Reader (list bytes) :=
  if n <=? 0 then reader_ret []
  else match fuel with
  | O => reader_throw TruncatedBlob
  | S fuel' => read op := r_sized in read ops := read_ops fuel' (n - 1) in reader_ret (op :: ops)
  end.

Definition from_blob (rnds : nat -> bytes) (blob : bytes) : result MlsError MlsGroupImpl :=
  if (Z.of_nat (length blob) <? 8) || negb (bool_decide (take 4 blob = mgb1)) then Throw MissingMagic
  else
    match (read seed := r_sized in
           read op_count := r_u32 in
           read ops := read_ops (length blob) op_count in
           reader_ret (seed, ops)) (drop 4 blob) with
    | Ok ((seed, ops), _) => from_seed_and_log rnds seed ops
    | Throw e => Throw e
    end.

(** ** Creating and joining *)

(** [create]: the random bytes of the two keys and of the first secret. *)
Definition create (rnd_sig rnd_leaf init_secret : bytes) (now : Z) (creator_identity gid : bytes) : result MlsError MlsGroupImpl :=
  let sig_priv := sig_generate rnd_sig in
  let leaf_priv := hpke_generate rnd_leaf in
  let leaf_node := new_leaf_node leaf_priv sig_priv creator_identity now in
  match empty_group gid leaf_priv sig_priv leaf_node init_secret with
  | None => Throw FromMlspp
  | Some state =>
      let seed := encode_creator_seed gid creator_identity (sig_data sig_priv) (hpke_data leaf_priv) init_secret (tls_marshal leaf_node) in
      Ok (mkMlsGroupImpl state sig_priv leaf_priv seed [])
  end.

Record JoinerKeys := mkJoinerKeys {
  init_priv : HPKEPrivateKey;
  leaf_priv : HPKEPrivateKey;
  sig_priv : SignaturePrivateKey;
  key_package_ : KeyPackage;
}.

Definition build_joiner_keys (rnd_init rnd_leaf : bytes) (now : Z) (sig : SignaturePrivateKey) (identity : bytes) : JoinerKeys :=
  let init := hpke_generate rnd_init in
  let leaf := hpke_generate rnd_leaf in
  let leaf_node := new_leaf_node leaf sig identity now in
  mkJoinerKeys init leaf sig (new_key_package init leaf_node sig).

Record PendingMlsJoinImpl := mkPendingMlsJoinImpl { keys_ : JoinerKeys; identity_ : bytes }.

Definition start_join (rnd_sig rnd_init rnd_leaf : bytes) (now : Z) (joiner_identity : bytes) : PendingMlsJoinImpl :=
  mkPendingMlsJoinImpl (build_joiner_keys rnd_init rnd_leaf now (sig_generate rnd_sig) joiner_identity) joiner_identity.

Definition key_package (j : PendingMlsJoinImpl) : bytes := tls_marshal (key_package_ (keys_ j)).

Definition complete (j : PendingMlsJoinImpl) (welcome_bytes : bytes) : result MlsError MlsGroupImpl :=
  match tls_get welcome_bytes with
  | None => Throw FromMlspp
  | Some welcome =>
      let k := keys_ j in
      match join_group (init_priv k) (leaf_priv k) (sig_priv k) (key_package_ k) welcome with
      | None => Throw FromMlspp
      | Some state =>
          let seed := encode_joiner_seed (group_id state) (identity_ j) (sig_data (sig_priv k)) (hpke_data (leaf_priv k))
                        (hpke_data (init_priv k)) (tls_marshal (key_package_ k)) welcome_bytes in
          Ok (mkMlsGroupImpl state (sig_priv k) (leaf_priv k) seed [])
      end
  end.
End mls.
