(* ===== verification/MlsTheorems.v ===== *)
(** * MLS groups: blobs, and restoring a group from its seed and log *)
From S2P Require Import Prelude Mls.

(** ** What a reader does on the bytes that were written *)

Definition reads {A} (m : Reader A) (w : bytes) (a : A) : Prop := forall v, m (w ++ v) = Ok (a, v).

Lemma reads_bind {A B} (m : Reader A) (k : A -> Reader B) (w1 w2 : bytes) (a : A) (b : B) :
  reads m w1 a -> reads (k a) w2 b -> reads (reader_bind m k) (w1 ++ w2) b.
Proof. intros Hm Hk v. unfold reader_bind. rewrite <- app_assoc, Hm. apply Hk. Qed.

Lemma reads_ret {A} (a : A) : reads (reader_ret a) [] a.
Proof. done. Qed.

Lemma reads_u8 (v : Z) : 0 <= v < 256 -> reads r_u8 (put_u8 v) v.
Proof. intros Hv w. cbn. by rewrite b2z_z2b_small. Qed.

Lemma reads_u16 (v : Z) : 0 <= v < 65536 -> reads r_u16 (put_u16 v) v.
Proof.
  intros Hv w. cbn [put_u16 app r_u16]. rewrite !land_255, !b2z_z2b, !Z.mod_mod by lia.
  rewrite Z.lor_comm, lor_shiftl_add, Z.shiftr_div_pow2 by (try apply Z.mod_pos_bound; lia).
  rewrite (Z.mod_small (v / 2 ^ 8)) by (change (2 ^ 8) with 256; split; [apply Z.div_pos|apply Z.div_lt_upper_bound]; lia).
  change (2 ^ 8) with 256. do 2 f_equal. rewrite (Z.div_mod v 256) at 3; lia.
Qed.

Lemma lor4_rev (a b c d : Z) : Z.lor (Z.lor (Z.lor a b) c) d = Z.lor (Z.lor (Z.lor d c) b) a.
Proof. by rewrite (Z.lor_comm _ d), (Z.lor_comm _ c), (Z.lor_comm a b), !Z.lor_assoc. Qed.

Lemma reads_u32 (v : Z) : is_u32 v -> reads r_u32 (put_u32 v) v.
Proof.
  intros Hv w. unfold put_u32. cbn [app r_u32]. rewrite lor4_rev. do 2 f_equal. by apply rd_u32_put.
Qed.

Lemma reads_take (b : bytes) : reads (r_take (Z.of_nat (length b))) b b.
Proof.
  intros v. unfold r_take. rewrite length_app, (proj2 (Z.ltb_ge _ _)) by lia.
  by rewrite Nat2Z.id, take_app_length, drop_app_length.
Qed.

Lemma is_u32_length (b : bytes) : Z.of_nat (length b) < u32_max -> is_u32 (Z.of_nat (length b)).
Proof. unfold is_u32. lia. Qed.

Lemma reads_sized (b : bytes) : Z.of_nat (length b) < u32_max -> reads r_sized (put_sized b) b.
Proof.
  intros Hb%is_u32_length. unfold put_sized. rewrite u32_small by done.
  eapply reads_bind; [by apply reads_u32|apply reads_take].
Qed.

Lemma reads_sized16 (b : bytes) : Z.of_nat (length b) < u16_max -> reads r_sized16 (put_sized16 b) b.
Proof.
  intros Hb. unfold put_sized16, u16. unfold u16_max in *. rewrite Z.mod_small by lia.
  eapply reads_bind; [apply reads_u16; lia|apply reads_take].
Qed.

Lemma reads_lift {A} (o : option A) (a : A) : o = Some a -> reads (r_lift o) [] a.
Proof. by intros -> v. Qed.

Lemma reads_parsed {A} (parse : bytes -> option A) (b : bytes) (a : A) :
  Z.of_nat (length b) < u32_max -> parse b = Some a -> reads (r_parsed parse) (put_sized b) a.
Proof.
  intros Hb Ha. rewrite <- (app_nil_r (put_sized b)). eapply reads_bind; [by apply reads_sized|by apply reads_lift].
Qed.

Lemma reads_optional {A} (parse : bytes -> option A) (b : bytes) (a : A) :
  b <> [] -> Z.of_nat (length b) < u32_max -> parse b = Some a -> reads (r_optional parse) (put_sized b) (Some a).
Proof.
  intros Hne Hb%is_u32_length Ha. unfold put_sized. rewrite u32_small by done.
  eapply reads_bind; [by apply reads_u32|]. destruct b as [|x b]; [done|].
  rewrite (proj2 (Z.ltb_lt _ _)) by (cbn [length]; lia). rewrite <- (app_nil_r (x :: b)) at 2.
  eapply reads_bind; [apply reads_take|]. apply (reads_bind _ _ [] []  a); [by apply reads_lift|done].
Qed.

Lemma reads_absent {A} (parse : bytes -> option A) : reads (r_optional parse) (put_u32 0) None.
Proof. rewrite <- (app_nil_r (put_u32 0)). eapply reads_bind; [by apply reads_u32|done]. Qed.

Lemma length_put_sized (b : bytes) : length (put_sized b) = (4 + length b)%nat.
Proof. done. Qed.
Lemma length_put_u32 (v : Z) : length (put_u32 v) = 4%nat.
Proof. done. Qed.

Create HintDb mls.
#[export] Hint Resolve reads_u8 reads_u16 reads_u32 reads_sized reads_sized16 reads_parsed reads_optional reads_absent reads_ret : mls.

(** Apply [reads_bind] along a sequence of fields. *)
Ltac reads_fields := repeat (eapply reads_bind; [solve [eauto with mls lia]|cbn [negb andb Z.eqb]]).

Lemma reads_op_record (kind : Z) (p : bytes) :
  0 <= kind < 256 -> Z.of_nat (length p) < u32_max ->
  reads (read k := r_u8 in read payload := r_sized in reader_ret (k, payload)) (op_record kind p) (kind, p).
Proof. intros. unfold op_record. rewrite <- (app_nil_r (put_sized p)). reads_fields. apply reads_ret. Qed.

(** ** What the code relies on of mlspp *)

Class TlsLaws (T : Type) `{TlsSyntax T} := {
  tls_get_marshal : forall x : T, tls_get (tls_marshal x) = Some x;
  tls_get_nil : tls_get (T := T) [] = None;
}.

(** [same_epoch] relates two states of a group that differ at most in the ratchets
    of application messages.  A commit that carries an update path (RFC 9420,
    12.4: whenever it holds more than additions) contains fresh encapsulations;
    without a path its new state is determined by the old one.  Messages that
    were made with [encrypt = false] are public. *)
Class MlsppLaws `{Mlspp} := {
  KeyPackage_laws :: TlsLaws KeyPackage;
  LeafNode_laws :: TlsLaws LeafNode;
  Welcome_laws :: TlsLaws Welcome;
  MLSMessage_laws :: TlsLaws MLSMessage;
  sig_parse_data : forall k, sig_parse (sig_data k) = Some k;
  hpke_parse_data : forall k, hpke_parse (hpke_data k) = Some k;
  length_sig_data : forall k, (length (sig_data k) <= 64)%nat;
  length_hpke_data : forall k, length (hpke_data k) = 32%nat;
  same_epoch : relation State;
  same_epoch_equivalence :: Equivalence same_epoch;
  needs_path : State -> list Proposal -> bool;
  is_public : MLSMessage -> bool;
  state_epoch_proper :: Proper (same_epoch ==> eq) state_epoch;
  group_id_proper :: Proper (same_epoch ==> eq) group_id;
  roster_proper :: Proper (same_epoch ==> eq) roster;
  do_export_proper :: Proper (same_epoch ==> eq ==> eq ==> eq ==> eq) do_export;
  add_proposal_proper :: Proper (same_epoch ==> eq ==> eq) add_proposal;
  remove_proposal_proper :: Proper (same_epoch ==> eq ==> eq) remove_proposal;
  protect_epoch : forall rnd s pt, same_epoch s (protect rnd s pt).1;
  unprotect_epoch : forall s m, same_epoch s (unprotect s m).1;
  commit_epoch : forall rnd rnd' s s' ls ps tree s1 c w t,
    same_epoch s s' -> needs_path s ps = false -> commit rnd s ls ps tree = (s1, Some (c, w, t)) ->
    exists s1' c' w' t', commit rnd' s' ls ps tree = (s1', Some (c', w', t')) /\ same_epoch t t';
  add_public : forall s kp s1 m, add s kp = (s1, Some m) -> is_public m = true;
  add_epoch : forall s s' kp s1 m,
    same_epoch s s' -> add s kp = (s1, Some m) -> exists s1', add s' kp = (s1', Some m) /\ same_epoch s1 s1';
  handle_epoch : forall s s' m s1 o,
    same_epoch s s' -> is_public m = true -> handle s m = (s1, Some o) ->
    exists s1' o', handle s' m = (s1', Some o') /\ same_epoch s1 s1' /\ option_Forall2 same_epoch o o';
}.

Lemma marshal_not_nil `{TlsLaws T} (x : T) : tls_marshal x <> [].
Proof. intros E. pose proof (tls_get_marshal x) as Hg. by rewrite E, tls_get_nil in Hg. Qed.
#[export] Hint Resolve tls_get_marshal marshal_not_nil : mls.

(** ** Runs of a group *)

Definition small (b : bytes) : Prop := Z.of_nat (length b) < u32_max - 16.

Inductive Call :=
| CAdd (rnd leaf_secret kp : bytes)
| CRemove (rnd leaf_secret : bytes) (leaf_index : Z)
| CPropose (kp : bytes)
| CHandle (wire : bytes)
| CCommit (rnd leaf_secret : bytes)
| CApply (wire : bytes)
| CEncrypt (rnd plaintext : bytes)
| CDecrypt (msg : bytes).

Section runs.
Context `{!Mlspp, !MlsppLaws}.

Definition forget {A} (x : MlsGroupImpl * result MlsError A) : MlsGroupImpl * result MlsError unit :=
  (x.1, match x.2 with Ok _ => Ok tt | Throw e => Throw e end).

Definition call (c : Call) (g : MlsGroupImpl) : MlsGroupImpl * result MlsError unit :=
  match c with
  | CAdd rnd ls kp => forget (add_member rnd ls kp g)
  | CRemove rnd ls i => forget (remove_member rnd ls i g)
  | CPropose kp => forget (propose_add_member kp g)
  | CHandle w => handle_proposal w g
  | CCommit rnd ls => forget (commit_pending rnd ls g)
  | CApply w => apply_commit w g
  | CEncrypt rnd pt => forget (application_encrypt rnd pt g)
  | CDecrypt m => ((application_decrypt m g).1, Ok tt)
  end.

(** The calls that change the group: the record they log, and the action that a
    replay with other random bytes takes. *)
Definition call_op (rnd' : bytes) (c : Call) : option (Z * bytes * Action unit) :=
  match c with
  | CAdd _ ls kp => Some (kOpAddMember, put_sized kp ++ put_sized ls, discard (do_add_member rnd' kp ls))
  | CRemove _ ls i => Some (kOpRemoveMember, put_u32 i ++ put_sized ls, discard (do_remove_member rnd' i ls))
  | CPropose kp => Some (kOpProposeAdd, put_sized kp, discard (do_propose_add_member kp))
  | CHandle w => Some (kOpHandleProposal, put_sized w, do_handle_proposal w)
  | CCommit _ ls => Some (kOpCommitPending, put_sized ls, discard (do_commit_pending rnd' ls))
  | CApply w => Some (kOpApplyCommit, put_sized w, do_apply_commit w)
  | CEncrypt _ _ | CDecrypt _ => None
  end.

Definition call_rnd (c : Call) : bytes :=
  match c with CAdd r _ _ | CRemove r _ _ | CCommit r _ | CEncrypt r _ => r | _ => [] end.

(** What the inputs of a call are: sizes below 4 GiB, and leaf indices at their width. *)
Definition sized_call (c : Call) : Prop :=
  match c with
  | CAdd _ ls kp => Z.of_nat (length kp + length ls) < u32_max - 16
  | CRemove _ ls i => small ls /\ is_u32 i
  | CPropose b | CHandle b | CCommit _ b | CApply b => small b
  | _ => True
  end.

(** Commits without a path, and wires that are public. *)
Definition replayable (s : State) (c : Call) : Prop :=
  match c with
  | CAdd _ _ kp => forall k p, tls_get kp = Some k -> add_proposal s k = Some p -> needs_path s [p] = false
  | CRemove _ _ i => forall p, remove_proposal s i = Some p -> needs_path s [p] = false
  | CCommit _ _ => needs_path s [] = false
  | CHandle w | CApply w => forall m, tls_get w = Some m -> is_public m = true
  | _ => True
  end.

Record same_group (g g' : MlsGroupImpl) : Prop := {
  sg_state : same_epoch (state_ g) (state_ g');
  sg_sig : sig_priv_ g = sig_priv_ g';
  sg_leaf : leaf_priv_ g = leaf_priv_ g';
  sg_seed : seed_blob_ g = seed_blob_ g';
  sg_log : op_log_ g = op_log_ g';
}.

#[export] Instance same_group_equivalence : Equivalence same_group.
Proof.
  split.
  - intros g. by split.
  - intros g g' []. by split.
  - intros g1 g2 g3 [] []. split; [by etrans|congruence..].
Qed.

(** A group in use: created or joined, then any sequence of calls; a call that
    throws changes nothing that a commit depends on. *)
Inductive in_use : MlsGroupImpl -> Prop :=
| use_create rnd_sig rnd_leaf init_secret now identity gid g :
    length init_secret = 32%nat -> length identity = 32%nat -> length gid = 32%nat ->
    small (tls_marshal (new_leaf_node (hpke_generate rnd_leaf) (sig_generate rnd_sig) identity now)) ->
    create rnd_sig rnd_leaf init_secret now identity gid = Ok g -> in_use g
| use_complete rnd_sig rnd_init rnd_leaf now identity welcome g :
    length identity = 32%nat -> small (key_package (start_join rnd_sig rnd_init rnd_leaf now identity)) -> small welcome ->
    complete (start_join rnd_sig rnd_init rnd_leaf now identity) welcome = Ok g ->
    Z.of_nat (length (group_id (state_ g))) < u16_max -> in_use g
| use_call g c g' :
    in_use g -> sized_call c -> replayable (state_ g) c -> call c g = (g', Ok tt) -> in_use g'
| use_throw g c g' e :
    in_use g -> call c g = (g', Throw e) -> same_epoch (state_ g) (state_ g') -> in_use g'.

(** ** Two groups in the same epoch do the same *)

Definition follows {A} (act act' : Action A) (s s' : State) : Prop :=
  forall t a, act s = (t, Ok a) -> exists t' a', act' s' = (t', Ok a') /\ same_epoch t t'.

Lemma follows_discard {A} (act act' : Action A) (s s' : State) :
  follows act act' s s' -> follows (discard act) (discard act') s s'.
Proof.
  intros Hf t []. unfold discard. destruct (act s) as [u [a|e]] eqn:E; [|done]. intros [= <-].
  destruct (Hf _ _ E) as (t' & a' & -> & Ht). eauto.
Qed.

Lemma follows_commit {A} (rnd rnd' ls : bytes) (ps : list Proposal) (tree : bool) (out : MLSMessage -> Welcome -> A) (s s' : State) :
  same_epoch s s' -> needs_path s ps = false ->
  let act (r : bytes) : Action A := fun u =>
    match commit r u ls ps tree with
    | (v, None) => (v, Throw FromMlspp)
    | (_, Some (c, w, t)) => (t, Ok (out c w))
    end in
  follows (act rnd) (act rnd') s s'.
Proof.
  intros Hs Hn act t a. unfold act. destruct (commit rnd s ls ps tree) as [v [[[c w] u]|]] eqn:E; [|done].
  intros [= <- _]. destruct (commit_epoch rnd rnd' _ _ _ _ _ _ _ _ _ Hs Hn E) as (? & c' & w' & t' & -> & Ht). eauto.
Qed.

Lemma follows_add_member (rnd rnd' kp ls : bytes) (s s' : State) :
  same_epoch s s' -> (forall k p, tls_get kp = Some k -> add_proposal s k = Some p -> needs_path s [p] = false) ->
  follows (do_add_member rnd kp ls) (do_add_member rnd' kp ls) s s'.
Proof.
  intros Hs Hn t a. unfold do_add_member. destruct (tls_get kp) as [k|] eqn:Ek; [|done].
  rewrite <- (add_proposal_proper _ _ Hs k k eq_refl). destruct (add_proposal s k) as [p|] eqn:Ep; [|done]. apply follows_commit; eauto.
Qed.

Lemma follows_remove_member (rnd rnd' : bytes) (i : Z) (ls : bytes) (s s' : State) :
  same_epoch s s' -> (forall p, remove_proposal s i = Some p -> needs_path s [p] = false) ->
  follows (do_remove_member rnd i ls) (do_remove_member rnd' i ls) s s'.
Proof.
  intros Hs Hn t a. unfold do_remove_member. rewrite <- (remove_proposal_proper _ _ Hs i i eq_refl).
  destruct (remove_proposal s i) as [p|] eqn:Ep; [|done]. apply (follows_commit _ _ _ _ _ (fun c _ => _)); eauto.
Qed.

Lemma follows_handle_proposal (w : bytes) (s s' : State) :
  same_epoch s s' -> (forall m, tls_get w = Some m -> is_public m = true) ->
  follows (do_handle_proposal w) (do_handle_proposal w) s s'.
Proof.
  intros Hs Hp t a. unfold do_handle_proposal. destruct (tls_get w) as [m|]; [|done].
  destruct (handle s m) as [u [o|]] eqn:E; [|done]. intros [= <- _].
  destruct (handle_epoch _ _ _ _ _ Hs (Hp _ eq_refl) E) as (t' & o' & -> & Ht & _). eauto.
Qed.

Lemma follows_apply_commit (w : bytes) (s s' : State) :
  same_epoch s s' -> (forall m, tls_get w = Some m -> is_public m = true) ->
  follows (do_apply_commit w) (do_apply_commit w) s s'.
Proof.
  intros Hs Hp t a. unfold do_apply_commit. destruct (tls_get w) as [m|]; [|done].
  destruct (handle s m) as [u [[n|]|]] eqn:E; [|done..]. intros [= <- _].
  destruct (handle_epoch _ _ _ _ _ Hs (Hp _ eq_refl) E) as (t' & o' & -> & _ & Ho). inversion Ho; subst. eauto.
Qed.

Lemma follows_propose_add_member (kp : bytes) (s s' : State) :
  same_epoch s s' -> follows (do_propose_add_member kp) (do_propose_add_member kp) s s'.
Proof.
  intros Hs t a. unfold do_propose_add_member. destruct (tls_get kp) as [k|]; [|done].
  destruct (add s k) as [s1 [m|]] eqn:Ea; [|done]. destruct (handle s1 m) as [s2 [o|]] eqn:E; [|done]. intros [= <- _].
  destruct (add_epoch _ _ _ _ _ Hs Ea) as (s1' & -> & Hs1).
  destruct (handle_epoch _ _ _ _ _ Hs1 (add_public _ _ _ _ Ea) E) as (t' & o' & -> & Ht & _). eauto.
Qed.

Lemma follows_call (c : Call) (rnd' : bytes) (kind : Z) (p : bytes) (act act' : Action unit) (s s' : State) :
  same_epoch s s' -> replayable s c ->
  call_op (call_rnd c) c = Some (kind, p, act) -> call_op rnd' c = Some (kind, p, act') -> follows act act' s s'.
Proof.
  intros Hs Hr. destruct c; cbn [call_op call_rnd replayable] in *; intros [= <- <- <-]; try intros [= <-]; try done.
  - by apply follows_discard, follows_add_member.
  - by apply follows_discard, follows_remove_member.
  - by apply follows_discard, follows_propose_add_member.
  - by apply follows_handle_proposal.
  - apply follows_discard, (follows_commit _ _ _ _ _ (fun c w => _)); done.
  - by apply follows_apply_commit.
Qed.

(** ** Replaying one operation *)

Lemma forget_logged {A} (op : bytes) (act : Action A) (g : MlsGroupImpl) :
  forget (logged op act g) = logged op (discard act) g.
Proof. unfold forget, logged, discard. by destruct (act (state_ g)) as [s [a|e]]. Qed.

(** A call that changes the group is its action and its record. *)
Lemma call_logged (c : Call) (kind : Z) (p : bytes) (act : Action unit) (g : MlsGroupImpl) :
  call_op (call_rnd c) c = Some (kind, p, act) -> call c g = logged (op_record kind p) act g.
Proof. destruct c; cbn [call_op]; intros [= <- <- <-]; cbn [call]; try apply forget_logged; done. Qed.

#[local] Opaque put_sized put_u32.

Lemma reads_op_action (rnd' : bytes) (c : Call) (kind : Z) (p : bytes) (act : Action unit) :
  sized_call c -> call_op rnd' c = Some (kind, p, act) ->
  0 <= kind < 256 /\ Z.of_nat (length p) < u32_max /\ reads (op_action rnd' kind) p act.
Proof.
  destruct c; cbn [sized_call call_op]; unfold small, u32_max; intros Hz [= <- <- <-]; destruct_and?;
    (split; [done|]); (split; [rewrite ?length_app, ?length_put_sized, ?length_put_u32; lia|]);
    cbn [op_action]; unfold op_action; cbn [Z.eqb Pos.eqb kOpAddMember kOpRemoveMember kOpProposeAdd kOpHandleProposal kOpCommitPending kOpApplyCommit];
    match goal with |- reads _ ?w _ => rewrite <- (app_nil_r w), <- ?app_assoc end;
    repeat (eapply reads_bind; [first [apply reads_u32; done | apply reads_sized; unfold u32_max; lia]|]); apply reads_ret.
Qed.

Lemma replay_op_record (rnd' : bytes) (c : Call) (kind : Z) (p : bytes) (act : Action unit) (g : MlsGroupImpl) :
  sized_call c -> call_op rnd' c = Some (kind, p, act) -> replay_op rnd' (op_record kind p) g = logged (op_record kind p) act g.
Proof.
  intros Hz Ho. destruct (reads_op_action _ _ _ _ _ Hz Ho) as (Hk & Hp & Hr).
  unfold replay_op. pose proof (reads_op_record kind p Hk Hp []) as E. rewrite app_nil_r in E. rewrite E.
  specialize (Hr []). rewrite app_nil_r in Hr. by rewrite Hr.
Qed.

Lemma call_op_rnd (rnd rnd' : bytes) (c : Call) (kind : Z) (p : bytes) (act : Action unit) :
  call_op rnd c = Some (kind, p, act) -> exists act', call_op rnd' c = Some (kind, p, act').
Proof. destruct c; cbn [call_op]; intros [= <- <- <-]; eauto. Qed.

(** What a call that succeeded logged, run with other random bytes on a group in the same epoch. *)
Lemma replay_call (c : Call) (g g' g0 : MlsGroupImpl) (rnd' : bytes) (op : Z * bytes * Action unit) :
  call_op (call_rnd c) c = Some op -> sized_call c -> replayable (state_ g) c -> call c g = (g', Ok tt) -> same_group g g0 ->
  exists record g0', op_log_ g' = op_log_ g ++ [record] /\ seed_blob_ g' = seed_blob_ g /\
    replay_op rnd' record g0 = (g0', Ok tt) /\ same_group g' g0'.
Proof.
  destruct op as [[kind p] act]. intros Ho Hz Hr Hc [Hs Hsig Hleaf Hseed Hlog].
  destruct (call_op_rnd _ rnd' _ _ _ _ Ho) as [act' Ho'].
  rewrite (call_logged _ _ _ _ _ Ho) in Hc. exists (op_record kind p).
  rewrite (replay_op_record _ _ _ _ _ _ Hz Ho'). unfold logged in *.
  destruct (act (state_ g)) as [t [[]|e]] eqn:E; simplify_eq/=.
  destruct (follows_call _ _ _ _ _ _ _ _ Hs Hr Ho Ho' _ _ E) as (t' & [] & -> & Ht).
  eexists. repeat split; cbn; by rewrite ?Hlog.
Qed.

Lemma replay_ops_snoc (rnds : nat -> bytes) (i : nat) (ops : list bytes) (op : bytes) (g g1 g2 : MlsGroupImpl) :
  replay_ops rnds i ops g = Ok g1 -> replay_op (rnds (i + length ops)%nat) op g1 = (g2, Ok tt) ->
  replay_ops rnds i (ops ++ [op]) g = Ok g2.
Proof.
  revert i g. induction ops as [|o ops IH]; intros i g; cbn [replay_ops app length].
  - rewrite Nat.add_0_r. by intros [= <-] ->.
  - destruct (replay_op (rnds i) o g) as [g' [[]|e]]; [|done]. intros E1 E2. apply IH; [done|].
    by rewrite Nat.add_succ_comm.
Qed.

Lemma replay_ops_throws (rnds : nat -> bytes) (i : nat) (ops : list bytes) (op : bytes) (g g1 g2 : MlsGroupImpl) (e : MlsError) :
  replay_ops rnds i ops g = Ok g1 -> replay_op (rnds (i + length ops)%nat) op g1 = (g2, Throw e) ->
  replay_ops rnds i (ops ++ [op]) g = Throw (ReplayFailed (i + length ops) e).
Proof.
  revert i g. induction ops as [|o ops IH]; intros i g; cbn [replay_ops app length].
  - rewrite Nat.add_0_r. by intros [= <-] ->.
  - destruct (replay_op (rnds i) o g) as [g' [[]|e']]; [|done]. rewrite Nat.add_succ_r. apply IH.
Qed.

(** ** Restoring *)

Definition restorable (g : MlsGroupImpl) : Prop :=
  forall rnds, exists g', from_seed_and_log rnds (seed_blob_ g) (op_log_ g) = Ok g' /\ same_group g g'.

Lemma from_seed_snoc (rnds : nat -> bytes) (seed : bytes) (ops : list bytes) (op : bytes) (g g' : MlsGroupImpl) :
  from_seed_and_log rnds seed ops = Ok g -> replay_op (rnds (length ops)) op g = (g', Ok tt) ->
  from_seed_and_log rnds seed (ops ++ [op]) = Ok g'.
Proof.
  unfold from_seed_and_log. destruct (decode_seed seed) as [d|]; cbn [rbind]; [|done].
  destruct (initial_state d) as [s|]; cbn [rbind]; [|done]. apply replay_ops_snoc.
Qed.

Lemma from_seed_throws (rnds : nat -> bytes) (seed : bytes) (ops : list bytes) (op : bytes) (g g' : MlsGroupImpl) (e : MlsError) :
  from_seed_and_log rnds seed ops = Ok g -> replay_op (rnds (length ops)) op g = (g', Throw e) ->
  from_seed_and_log rnds seed (ops ++ [op]) = Throw (ReplayFailed (length ops) e).
Proof.
  unfold from_seed_and_log. destruct (decode_seed seed) as [d|]; cbn [rbind]; [|done].
  destruct (initial_state d) as [s|]; cbn [rbind]; [|done]. apply replay_ops_throws.
Qed.

(** A call that is not logged leaves the log and the epoch. *)
Lemma unlogged_call (c : Call) (g : MlsGroupImpl) :
  call_op (call_rnd c) c = None -> same_group g (call c g).1.
Proof.
  destruct c; cbn [call_op]; try done; intros _; cbn [call].
  - unfold application_encrypt. pose proof (protect_epoch rnd (state_ g) plaintext) as Hp.
    destruct (protect rnd (state_ g) plaintext) as [s [m|]]; by split.
  - unfold application_decrypt. destruct (tls_get msg) as [m|]; [|done].
    pose proof (unprotect_epoch (state_ g) m) as Hp. destruct (unprotect (state_ g) m) as [s [pt|]]; by split.
Qed.

Lemma throwing_call (c : Call) (g g' : MlsGroupImpl) (e : MlsError) :
  call c g = (g', Throw e) -> same_epoch (state_ g) (state_ g') -> same_group g g'.
Proof.
  intros Hc Hs. destruct (call_op (call_rnd c) c) as [[[kind p] act]|] eqn:Ho.
  - rewrite (call_logged _ _ _ _ _ Ho) in Hc. unfold logged in Hc.
    destruct (act (state_ g)) as [t [[]|e']]; simplify_eq. by split.
  - pose proof (unlogged_call c g Ho) as Hg. by rewrite Hc in Hg.
Qed.

Lemma restorable_same (g g' : MlsGroupImpl) : same_group g g' -> restorable g -> restorable g'.
Proof.
  intros Hg Hr rnds. destruct (Hr rnds) as (r & E & Hgr). exists r.
  rewrite <- (sg_seed _ _ Hg), <- (sg_log _ _ Hg). split; [done|]. by rewrite <- Hg.
Qed.

Lemma restorable_call (c : Call) (g g' : MlsGroupImpl) :
  restorable g -> sized_call c -> replayable (state_ g) c -> call c g = (g', Ok tt) -> restorable g'.
Proof.
  intros Hr Hz Hrep Hc. destruct (call_op (call_rnd c) c) as [op|] eqn:Ho.
  - intros rnds. destruct (Hr rnds) as (r & E & Hgr).
    destruct (replay_call _ _ _ _ (rnds (length (op_log_ g))) _ Ho Hz Hrep Hc Hgr) as (rec & r' & -> & -> & Er & Hg').
    exists r'. split; [by apply from_seed_snoc with r|done].
  - apply (restorable_same g); [|done]. pose proof (unlogged_call c g Ho) as Hg. by rewrite Hc in Hg.
Qed.

(** ** The seeds *)

(** One field of a seed after the other. *)
Ltac seed_fields :=
  repeat (eapply reads_bind; [first
    [ apply reads_u8; done | apply reads_sized16; done
    | apply reads_parsed; [unfold u32_max in *; lia|first [apply sig_parse_data | apply hpke_parse_data]]
    | apply reads_absent
    | apply reads_optional; [first [done | apply marshal_not_nil]|unfold u32_max in *; lia
        |first [apply hpke_parse_data | apply tls_get_marshal | eassumption | reflexivity]] ]
    |cbn [negb andb Z.eqb Pos.eqb kSeedVersion kRoleCreator kRoleJoiner kSuiteId]]);
  apply reads_ret.

Lemma decode_creator_seed (gid identity secret : bytes) (sig : SignaturePrivateKey) (leaf : HPKEPrivateKey) (ln : LeafNode) :
  Z.of_nat (length gid) < u16_max -> Z.of_nat (length identity) < u16_max ->
  secret <> [] -> small secret -> small (tls_marshal ln) ->
  decode_seed (encode_creator_seed gid identity (sig_data sig) (hpke_data leaf) secret (tls_marshal ln)) =
    Ok (mkDecodedSeed kRoleCreator gid identity sig leaf None None None secret (Some ln)).
Proof.
  unfold small. intros Hgid Hid Hne Hsec Hln. unfold decode_seed.
  pose proof (length_sig_data sig). pose proof (length_hpke_data leaf).
  match goal with |- match ?m ?w with _ => _ end = Ok ?d => assert (reads m w d) as Hr end.
  { unfold encode_creator_seed. rewrite <- (app_nil_r (put_sized (tls_marshal ln))).
    seed_fields. }
  specialize (Hr []). rewrite app_nil_r in Hr. by rewrite Hr.
Qed.

Lemma decode_joiner_seed (gid identity wb : bytes) (sig : SignaturePrivateKey) (leaf init : HPKEPrivateKey) (kp : KeyPackage) (w : Welcome) :
  Z.of_nat (length gid) < u16_max -> Z.of_nat (length identity) < u16_max ->
  small (tls_marshal kp) -> small wb -> tls_get wb = Some w ->
  decode_seed (encode_joiner_seed gid identity (sig_data sig) (hpke_data leaf) (hpke_data init) (tls_marshal kp) wb) =
    Ok (mkDecodedSeed kRoleJoiner gid identity sig leaf (Some init) (Some kp) (Some w) [] None).
Proof.
  unfold small. intros Hgid Hid Hkp Hwb Hw. unfold decode_seed.
  pose proof (length_sig_data sig). pose proof (length_hpke_data leaf). pose proof (length_hpke_data init) as Hinit.
  assert (hpke_data init <> []) as Hne by (intros E; by rewrite E in Hinit).
  assert (wb <> []) as Hwne by (intros ->; by rewrite tls_get_nil in Hw).
  match goal with |- match ?m ?w with _ => _ end = Ok ?d => assert (reads m w d) as Hr end.
  { unfold encode_joiner_seed. rewrite <- (app_nil_r (put_u32 0)) at 2.
    seed_fields. }
  specialize (Hr []). rewrite app_nil_r in Hr. by rewrite Hr.
Qed.

Lemma create_restorable (rnd_sig rnd_leaf init_secret : bytes) (now : Z) (identity gid : bytes) (g : MlsGroupImpl) :
  length init_secret = 32%nat -> length identity = 32%nat -> length gid = 32%nat ->
  small (tls_marshal (new_leaf_node (hpke_generate rnd_leaf) (sig_generate rnd_sig) identity now)) ->
  create rnd_sig rnd_leaf init_secret now identity gid = Ok g -> restorable g.
Proof.
  intros Hsec Hid Hgid Hln. unfold create.
  destruct (empty_group _ _ _ _ _) as [s|] eqn:E; [|done]. intros [= <-] rnds. cbn [seed_blob_ op_log_].
  unfold from_seed_and_log. rewrite decode_creator_seed; [|unfold small, u16_max, u32_max; try lia..|done].
  2: { intros ->. done. }
  cbn [rbind]. unfold initial_state. cbn [d_role d_creator_init_secret d_creator_leaf_node d_group_id d_leaf_priv d_sig_priv].
  destruct init_secret as [|x l]; [done|]. cbn [Z.eqb kRoleCreator]. rewrite E. cbn [rbind replay_ops]. by eexists.
Qed.

Lemma complete_restorable (j : PendingMlsJoinImpl) (welcome : bytes) (g : MlsGroupImpl) :
  length (identity_ j) = 32%nat -> small (key_package j) -> small welcome ->
  complete j welcome = Ok g -> Z.of_nat (length (group_id (state_ g))) < u16_max -> restorable g.
Proof.
  intros Hid Hkp Hwb. unfold complete. destruct (tls_get welcome) as [w|] eqn:Ew; [|done].
  destruct (join_group _ _ _ _ _) as [s|] eqn:E; [|done]. intros [= <-] Hgid rnds. cbn [seed_blob_ op_log_ state_] in *.
  unfold from_seed_and_log. rewrite (decode_joiner_seed _ _ _ _ _ _ _ w); [|unfold u16_max in *; try lia; done..].
  cbn [rbind]. unfold initial_state. cbn [d_role d_init_priv d_key_package d_welcome d_leaf_priv d_sig_priv].
  cbn [Z.eqb kRoleCreator kRoleJoiner]. rewrite E. cbn [rbind replay_ops]. by eexists.
Qed.

Lemma in_use_restorable (g : MlsGroupImpl) : in_use g -> restorable g.
Proof.
  induction 1 as [| |g c g' _ IH Hz Hr Hc|g c g' e _ IH Hc Hs].
  - eapply create_restorable; [| | | |eassumption]; assumption.
  - eapply complete_restorable; [| | |eassumption|]; assumption.
  - by apply (restorable_call c g).
  - apply (restorable_same g); [by eapply throwing_call|done].
Qed.

(** ** The bundled blob *)

Lemma ops_cons (op : bytes) (ops : list bytes) :
  mjoin (put_sized <$> op :: ops) = put_sized op ++ mjoin (put_sized <$> ops).
Proof. done. Qed.

Lemma reads_ops (fuel : nat) (ops : list bytes) :
  (length ops <= fuel)%nat -> Forall (fun op => Z.of_nat (length op) < u32_max) ops ->
  reads (read_ops fuel (Z.of_nat (length ops))) (mjoin (put_sized <$> ops)) ops.
Proof.
  revert fuel. induction ops as [|op ops IH]; intros fuel Hf Hops; [by destruct fuel|].
  destruct fuel as [|fuel]; [cbn in Hf; lia|]. apply Forall_cons in Hops as [Hop Hops].
  cbn [read_ops length]. rewrite (proj2 (Z.leb_gt _ _)) by lia.
  replace (Z.of_nat (S (length ops)) - 1) with (Z.of_nat (length ops)) by lia.
  rewrite ops_cons.
  eapply reads_bind; [by apply reads_sized|].
  rewrite <- (app_nil_r (mjoin (put_sized <$> ops))).
  eapply reads_bind; [apply IH; [cbn in Hf; lia|done]|apply reads_ret].
Qed.

Lemma length_ops (ops : list bytes) : (length ops <= length (mjoin (put_sized <$> ops)))%nat.
Proof.
  induction ops as [|op ops IH]; [done|].
  rewrite ops_cons, length_app, length_put_sized. cbn [length]. lia.
Qed.

Lemma length_op_le (ops : list bytes) (op : bytes) : op ∈ ops -> (length op <= length (mjoin (put_sized <$> ops)))%nat.
Proof.
  induction 1 as [op ops|op op' ops _ IH];
    rewrite ops_cons, length_app, length_put_sized; lia.
Qed.

Lemma blob_sizes (g : MlsGroupImpl) :
  Z.of_nat (length (serialize g)) < u32_max ->
  Z.of_nat (length (seed_blob_ g)) < u32_max /\ Z.of_nat (length (op_log_ g)) < u32_max /\
  Forall (fun op => Z.of_nat (length op) < u32_max) (op_log_ g).
Proof.
  unfold serialize. rewrite !length_app, length_put_sized. pose proof (length_ops (op_log_ g)). intros Hl.
  repeat split; [lia..|]. apply Forall_forall. intros op Hop. pose proof (length_op_le (op_log_ g) op Hop). lia.
Qed.

Lemma from_blob_serialize (rnds : nat -> bytes) (g : MlsGroupImpl) :
  Z.of_nat (length (seed_blob_ g)) < u32_max -> Z.of_nat (length (op_log_ g)) < u32_max ->
  Forall (fun op => Z.of_nat (length op) < u32_max) (op_log_ g) ->
  from_blob rnds (serialize g) = from_seed_and_log rnds (seed_blob_ g) (op_log_ g).
Proof.
  intros Hseed Hn Hops. unfold from_blob.
  assert (length mgb1 = 4%nat) as Hm by done.
  assert (8 <= length (serialize g))%nat as Hlen.
  { unfold serialize. rewrite !length_app, length_put_sized, length_put_u32. lia. }
  assert (length (op_log_ g) <= length (serialize g))%nat as Hfuel.
  { unfold serialize. rewrite !length_app. pose proof (length_ops (op_log_ g)). lia. }
  rewrite (proj2 (Z.ltb_ge _ _)) by lia.
  assert (take 4 (serialize g) = mgb1 /\ drop 4 (serialize g) =
    put_sized (seed_blob_ g) ++ put_u32 (u32 (Z.of_nat (length (op_log_ g)))) ++ mjoin (put_sized <$> op_log_ g)) as [-> ->].
  { unfold serialize. by rewrite <- Hm, take_app_length, drop_app_length. }
  rewrite bool_decide_true by done. cbn [orb negb].
  match goal with |- match ?m ?w with _ => _ end = _ => assert (reads m w (seed_blob_ g, op_log_ g)) as Hr end.
  { rewrite u32_small by (unfold is_u32; lia).
    eapply reads_bind; [by apply reads_sized|]. eapply reads_bind; [apply reads_u32; unfold is_u32; lia|].
    rewrite <- (app_nil_r (mjoin _)). eapply reads_bind; [by apply reads_ops|apply reads_ret]. }
  specialize (Hr []). rewrite app_nil_r in Hr. by rewrite Hr.
Qed.
End runs.

(** ** MLS groups: what a restart keeps and what it loses *)
From S2P Require Import Prelude Mls.

(** ** Ratchets of application messages (RFC 9420, 9.1 and 9.2)

    A message is encrypted with the key of a slot: an epoch, the leaf of its
    sender and a generation.  Sending takes the next generation, an epoch starts
    at generation 0, and a receiver deletes the key of a slot when it has used it. *)
Class MlsMessageLaws `{!Mlspp, !MlsppLaws} := {
  leaf_index : State -> Z;
  own_generation : State -> Z;
  slot : MLSMessage -> option (Z * Z * Z);
  spent : State -> Z * Z * Z -> Prop;
  leaf_index_proper :: Proper (same_epoch ==> eq) leaf_index;
  empty_generation : forall gid leaf sig ln secret s, empty_group gid leaf sig ln secret = Some s -> own_generation s = 0;
  join_generation : forall init leaf sig kp w s, join_group init leaf sig kp w = Some s -> own_generation s = 0;
  commit_generation : forall rnd s ls ps tree s1 c w t, commit rnd s ls ps tree = (s1, Some (c, w, t)) -> own_generation t = 0;
  next_generation : forall s m s1 t, handle s m = (s1, Some (Some t)) -> own_generation t = 0;
  add_generation : forall s kp, own_generation (add s kp).1 = own_generation s;
  handle_generation : forall s m, own_generation (handle s m).1 = own_generation s;
  protect_slot : forall rnd s pt s' m, protect rnd s pt = (s', Some m) ->
    slot m = Some (state_epoch s, leaf_index s, own_generation s) /\ own_generation s' = own_generation s + 1;
  unprotect_spent : forall s m s' pt k, unprotect s m = (s', Some pt) -> slot m = Some k -> spent s' k;
  spent_kept : forall s m k, spent s k -> spent (unprotect s m).1 k;
  spent_rejected : forall s m k, spent s k -> slot m = Some k -> (unprotect s m).2 = None;
}.

(** ** Update paths (RFC 9420, 7.6 and 8.2)

    The path of a commit holds a fresh encapsulation for the other members, and
    the transcript of an epoch covers the commit that made it. *)
Class MlsPathLaws `{!Mlspp, !MlsppLaws} := {
  has_recipients : State -> list Proposal -> bool;
  path_fresh : forall rnd rnd' s s' ls ps tree s1 c w t s1' c' w' t',
    needs_path s ps = true -> has_recipients s ps = true -> same_epoch s s' -> rnd <> rnd' ->
    commit rnd s ls ps tree = (s1, Some (c, w, t)) -> commit rnd' s' ls ps tree = (s1', Some (c', w', t')) -> c <> c';
  transcript_binds : forall rnd rnd' s s' ls ps tree s1 c w t s1' c' w' t',
    commit rnd s ls ps tree = (s1, Some (c, w, t)) -> commit rnd' s' ls ps tree = (s1', Some (c', w', t')) ->
    same_epoch t t' -> c = c';
}.

Section restore.
Context `{!Mlspp, !MlsppLaws}.

Definition changes_group (c : Call) : bool :=
  match c with CEncrypt _ _ | CDecrypt _ => false | _ => true end.

(** Two groups in the same epoch stay together. *)
Lemma same_group_call (c : Call) (g g' h : MlsGroupImpl) :
  changes_group c = true -> replayable (state_ g) c -> same_group g g' -> call c g = (h, Ok tt) ->
  exists h', call c g' = (h', Ok tt) /\ same_group h h'.
Proof.
  intros Hch Hr [Hs ????]. destruct (call_op (call_rnd c) c) as [[[kind p] act]|] eqn:Ho; [|by destruct c].
  rewrite !(call_logged _ _ _ _ _ Ho). unfold logged. destruct (act (state_ g)) as [t [[]|e]] eqn:E; [|done]. intros [= <-].
  destruct (follows_call _ _ _ _ _ _ _ _ Hs Hr Ho Ho _ _ E) as (t' & [] & -> & Ht).
  eexists. split; [done|]. split; cbn; [done..|congruence].
Qed.

Lemma same_group_views (g g' : MlsGroupImpl) :
  same_group g g' ->
  epoch g' = epoch g /\ member_count g' = member_count g /\ member_identities g' = member_identities g /\
  export_room_secret g' = export_room_secret g.
Proof.
  intros [Hs ????]. unfold epoch, member_count, member_identities, export_room_secret.
  rewrite (group_id_proper _ _ Hs), (roster_proper _ _ Hs), (state_epoch_proper _ _ Hs).
  by rewrite (do_export_proper _ _ Hs _ _ eq_refl _ _ eq_refl _ _ eq_refl).
Qed.

(** C17: A group that was created or joined and then used (members proposed, added
    and committed, commits and proposals of others handled, messages sent and
    received, calls that failed), restored from its seed and operation log with any
    random bytes, is the group again: same epoch, members, room secret, seed and
    log; the bundled blob restores the same.  A further call that changes the group and
    succeeds on the original also succeeds on the restored one and leaves the two the
    same group again.  The calls are those a replay can repeat: commits without an
    update path, and public wires.  Nothing is said of calls that fail, of the bytes a
    call returns, or of sending and receiving messages, where the two differ
    ([restored_messages_rejected]). *)
Theorem mls_group_restored (g : MlsGroupImpl) (rnds : nat -> bytes) :
  in_use g ->
  exists g', from_seed_and_log rnds (serialize_seed g) (operation_log g) = Ok g' /\
    serialize_seed g' = serialize_seed g /\ operation_log g' = operation_log g /\
    epoch g' = epoch g /\ member_identities g' = member_identities g /\ export_room_secret g' = export_room_secret g /\
    (Z.of_nat (length (serialize g)) < u32_max -> from_blob rnds (serialize g) = Ok g') /\
    (forall c h, changes_group c = true -> replayable (state_ g) c -> call c g = (h, Ok tt) ->
       exists h', call c g' = (h', Ok tt) /\ same_group h h').
Proof.
  intros Hg. destruct (in_use_restorable g Hg rnds) as (g' & E & Hs). exists g'.
  pose proof (same_group_views g g' Hs) as (? & _ & ? & ?). pose proof Hs as [_ _ _ Hseed Hlog].
  repeat split_and; [done..| |intros; by eapply same_group_call].
  intros Hlen. destruct (blob_sizes g Hlen) as (? & ? & ?). by rewrite from_blob_serialize.
Qed.
End restore.

(** ** Sending and receiving sequences of messages *)

Section messages.
Context `{!Mlspp, !MlsppLaws, !MlsMessageLaws}.

(** The messages of a sender, each with its random bytes; [None] when one throws. *)
Fixpoint sends (l : list (bytes * bytes)) (g : MlsGroupImpl) : option (list bytes * MlsGroupImpl) :=
  match l with
  | [] => Some ([], g)
  | (rnd, pt) :: l' =>
      match application_encrypt rnd pt g with
      | (g1, Ok m) => '(ms, g') ← sends l' g1; Some (m :: ms, g')
      | (_, Throw _) => None
      end
  end.

Fixpoint receives (ms : list bytes) (g : MlsGroupImpl) : list (option bytes) * MlsGroupImpl :=
  match ms with
  | [] => ([], g)
  | m :: ms' => let '(g1, o) := application_decrypt m g in let '(os, g') := receives ms' g1 in (o :: os, g')
  end.

Definition message_slot (s : State) (i : nat) : Z * Z * Z := (state_epoch s, leaf_index s, own_generation s + Z.of_nat i).

Definition in_slot (b : bytes) (k : Z * Z * Z) : Prop := exists m, tls_get b = Some m /\ slot m = Some k.

Lemma encrypt_slot (rnd pt b : bytes) (g g' : MlsGroupImpl) :
  application_encrypt rnd pt g = (g', Ok b) ->
  in_slot b (message_slot (state_ g) 0) /\ same_epoch (state_ g) (state_ g') /\
  own_generation (state_ g') = own_generation (state_ g) + 1.
Proof.
  unfold application_encrypt. pose proof (protect_epoch rnd (state_ g) pt) as He.
  destruct (protect rnd (state_ g) pt) as [s [m|]] eqn:E; [|done]. intros [= <- <-].
  destruct (protect_slot _ _ _ _ _ E) as [Hm Hg]. split; [|done].
  exists m. split; [apply tls_get_marshal|]. unfold message_slot. by rewrite Z.add_0_r.
Qed.

Lemma message_slot_next (s s' : State) (i : nat) :
  same_epoch s s' -> own_generation s' = own_generation s + 1 -> message_slot s' i = message_slot s (S i).
Proof.
  intros Hs Hg. unfold message_slot. rewrite (state_epoch_proper _ _ Hs), (leaf_index_proper _ _ Hs), Hg.
  f_equal. lia.
Qed.

Lemma sends_slots (l : list (bytes * bytes)) (ms : list bytes) (g g' : MlsGroupImpl) :
  sends l g = Some (ms, g') ->
  length ms = length l /\ same_epoch (state_ g) (state_ g') /\
  forall i b, ms !! i = Some b -> in_slot b (message_slot (state_ g) i).
Proof.
  revert ms g. induction l as [|[rnd pt] l IH]; intros ms g; cbn [sends].
  - by intros [= <- <-].
  - destruct (application_encrypt rnd pt g) as [g1 [b|]] eqn:E; [|done].
    destruct (encrypt_slot _ _ _ _ _ E) as (Hb & He & Hgen).
    intros ([ms' g2] & Hs & [= <- <-])%bind_Some. destruct (IH _ _ Hs) as (Hlen & He' & Hsl).
    split; [cbn; by f_equal|]. split; [by etrans|].
    intros [|i] b'; cbn; [by intros [= <-]|]. rewrite <- (message_slot_next _ _ i He Hgen). apply Hsl.
Qed.

(** Sending is part of the use of a group. *)
Lemma sends_in_use (l : list (bytes * bytes)) (ms : list bytes) (g g' : MlsGroupImpl) :
  sends l g = Some (ms, g') -> in_use g -> in_use g'.
Proof.
  revert ms g. induction l as [|[rnd pt] l IH]; intros ms g; cbn [sends]; [by intros [= <- <-]|].
  destruct (application_encrypt rnd pt g) as [g1 [b|]] eqn:E; [|done].
  intros ([ms' g2] & Hs & [= <- <-])%bind_Some Hg. apply (IH _ _ Hs).
  apply (use_call g (CEncrypt rnd pt)); [done..|]. cbn [call]. by rewrite E.
Qed.

(** ** Slots that a receiver has used *)

Lemma decrypt_keeps_spent (b : bytes) (g : MlsGroupImpl) (k : Z * Z * Z) :
  spent (state_ g) k -> spent (state_ (application_decrypt b g).1) k.
Proof.
  unfold application_decrypt. destruct (tls_get b) as [m|]; [|done]. intros Hk.
  pose proof (spent_kept _ m _ Hk) as Hk'. by destruct (unprotect (state_ g) m) as [s [pt|]].
Qed.

Lemma decrypt_spends (b : bytes) (g g' : MlsGroupImpl) (pt : bytes) (k : Z * Z * Z) :
  in_slot b k -> application_decrypt b g = (g', Some pt) -> spent (state_ g') k.
Proof.
  intros (m & Hm & Hk). unfold application_decrypt. rewrite Hm.
  destruct (unprotect (state_ g) m) as [s [p|]] eqn:E; [|done]. intros [= <- <-]. by apply (unprotect_spent _ _ _ _ _ E).
Qed.

Lemma decrypt_spent (b : bytes) (g : MlsGroupImpl) (k : Z * Z * Z) :
  in_slot b k -> spent (state_ g) k -> (application_decrypt b g).2 = None.
Proof.
  intros (m & Hm & Hk) Hs. unfold application_decrypt. rewrite Hm. pose proof (spent_rejected _ _ _ Hs Hk) as Hr.
  destruct (unprotect (state_ g) m) as [s [p|]]; done.
Qed.

Lemma receives_keep_spent (ms : list bytes) (g : MlsGroupImpl) (k : Z * Z * Z) :
  spent (state_ g) k -> spent (state_ (receives ms g).2) k.
Proof.
  revert g. induction ms as [|b ms IH]; intros g Hk; cbn [receives]; [done|].
  pose proof (decrypt_keeps_spent b g k Hk) as Hk'. destruct (application_decrypt b g) as [g1 o]. cbn in Hk'.
  specialize (IH g1 Hk'). by destruct (receives ms g1).
Qed.

Lemma receives_spend (ms : list bytes) (os : list (option bytes)) (g g' : MlsGroupImpl) (i : nat) (b : bytes) (k : Z * Z * Z) :
  receives ms g = (os, g') -> Forall is_Some os -> ms !! i = Some b -> in_slot b k -> spent (state_ g') k.
Proof.
  revert os g i. induction ms as [|b0 ms IH]; intros os g i; cbn [receives]; [done|].
  destruct (application_decrypt b0 g) as [g1 o] eqn:E. destruct (receives ms g1) as [os1 g2] eqn:Er.
  intros [= <- <-] [[pt ->] Hos]%Forall_cons. destruct i as [|i]; cbn; [|by eauto].
  intros [= <-] Hk. pose proof (receives_keep_spent ms g1 k (decrypt_spends _ _ _ _ _ Hk E)) as Hs. by rewrite Er in Hs.
Qed.

Lemma receives_spent (ms : list bytes) (g : MlsGroupImpl) :
  (forall b, b ∈ ms -> exists k, in_slot b k /\ spent (state_ g) k) -> (receives ms g).1 = replicate (length ms) None.
Proof.
  revert g. induction ms as [|b ms IH]; intros g Hms; cbn [receives length replicate]; [done|].
  destruct (Hms b) as (k & Hb & Hk); [by left|]. pose proof (decrypt_spent _ _ _ Hb Hk) as Ho.
  assert (forall b', b' ∈ ms -> exists k, in_slot b' k /\ spent (state_ (application_decrypt b g).1) k) as Hms'.
  { intros b' Hb'. destruct (Hms b') as (k' & ? & ?); [by right|]. exists k'. split; [done|by apply decrypt_keeps_spent]. }
  destruct (application_decrypt b g) as [g1 o]. cbn in *. subst o. specialize (IH g1 Hms').
  destruct (receives ms g1). by cbn in *; subst.
Qed.

(** ** A restored group starts its epoch again *)

Definition starts_epoch {A} (act : Action A) : Prop :=
  forall s t a, own_generation s = 0 -> act s = (t, Ok a) -> own_generation t = 0.

Lemma starts_discard {A} (act : Action A) : starts_epoch act -> starts_epoch (discard act).
Proof.
  intros Ha s t [] Hs. unfold discard. destruct (act s) as [u [a|e]] eqn:E; [|done]. intros [= <-]. by eapply Ha.
Qed.

Lemma starts_add_member (rnd kp ls : bytes) : starts_epoch (do_add_member rnd kp ls).
Proof.
  intros s t a Hs. unfold do_add_member. destruct (tls_get kp); [|done]. destruct (add_proposal s _); [|done].
  destruct (commit _ _ _ _ _) as [s1 [[[c w] u]|]] eqn:E; [|done]. intros [= <- _]. by apply (commit_generation _ _ _ _ _ _ _ _ _ E).
Qed.

Lemma starts_remove_member (rnd : bytes) (i : Z) (ls : bytes) : starts_epoch (do_remove_member rnd i ls).
Proof.
  intros s t a Hs. unfold do_remove_member. destruct (remove_proposal s i); [|done].
  destruct (commit _ _ _ _ _) as [s1 [[[c w] u]|]] eqn:E; [|done]. intros [= <- _]. by apply (commit_generation _ _ _ _ _ _ _ _ _ E).
Qed.

Lemma starts_commit_pending (rnd ls : bytes) : starts_epoch (do_commit_pending rnd ls).
Proof.
  intros s t a Hs. unfold do_commit_pending.
  destruct (commit _ _ _ _ _) as [s1 [[[c w] u]|]] eqn:E; [|done]. intros [= <- _]. by apply (commit_generation _ _ _ _ _ _ _ _ _ E).
Qed.

Lemma starts_propose_add_member (kp : bytes) : starts_epoch (do_propose_add_member kp).
Proof.
  intros s t a Hs. unfold do_propose_add_member. destruct (tls_get kp) as [k|]; [|done].
  pose proof (add_generation s k) as Ha. destruct (add s k) as [s1 [m|]]; [|done].
  pose proof (handle_generation s1 m) as Hh. destruct (handle s1 m) as [s2 [o|]]; [|done]. intros [= <- _]. cbn in *. congruence.
Qed.

Lemma starts_handle_proposal (w : bytes) : starts_epoch (do_handle_proposal w).
Proof.
  intros s t a Hs. unfold do_handle_proposal. destruct (tls_get w) as [m|]; [|done].
  pose proof (handle_generation s m) as Hh. destruct (handle s m) as [s2 [o|]]; [|done]. intros [= <- _]. cbn in *. congruence.
Qed.

Lemma starts_apply_commit (w : bytes) : starts_epoch (do_apply_commit w).
Proof.
  intros s t a Hs. unfold do_apply_commit. destruct (tls_get w) as [m|]; [|done].
  destruct (handle s m) as [s2 [[n|]|]] eqn:E; [|done..]. intros [= <- _]. by apply (next_generation _ _ _ _ E).
Qed.

Hint Resolve starts_discard starts_add_member starts_remove_member starts_commit_pending starts_propose_add_member
  starts_handle_proposal starts_apply_commit : mls.

Lemma starts_op_action (rnd : bytes) (kind : Z) (v v' : bytes) (act : Action unit) :
  op_action rnd kind v = Ok (act, v') -> starts_epoch act.
Proof.
  unfold op_action, reader_bind, reader_ret, reader_throw. intros E.
  repeat case_match; simplify_eq; auto with mls.
Qed.

Lemma starts_replay_op (rnd op : bytes) (g g' : MlsGroupImpl) :
  replay_op rnd op g = (g', Ok tt) -> own_generation (state_ g) = 0 -> own_generation (state_ g') = 0.
Proof.
  unfold replay_op. destruct (reader_bind _ _ op) as [[[kind payload] v]|]; [|done].
  destruct (op_action rnd kind payload) as [[act v']|] eqn:E; [|done]. apply starts_op_action in E.
  unfold logged. destruct (act (state_ g)) as [t [[]|e]] eqn:Ea; [|done]. intros [= <-] Hg. by eapply E.
Qed.

Lemma starts_replay_ops (rnds : nat -> bytes) (ops : list bytes) (i : nat) (g g' : MlsGroupImpl) :
  replay_ops rnds i ops g = Ok g' -> own_generation (state_ g) = 0 -> own_generation (state_ g') = 0.
Proof.
  revert i g. induction ops as [|op ops IH]; intros i g; cbn [replay_ops]; [by intros [= <-]|].
  destruct (replay_op (rnds i) op g) as [g1 [[]|e]] eqn:E; [|done]. intros Hr Hg. eapply IH; [done|]. by eapply starts_replay_op.
Qed.

(** Whatever the group had sent, its restored copy is at generation 0. *)
Lemma restored_generation (rnds : nat -> bytes) (seed : bytes) (ops : list bytes) (g : MlsGroupImpl) :
  from_seed_and_log rnds seed ops = Ok g -> own_generation (state_ g) = 0.
Proof.
  unfold from_seed_and_log. destruct (decode_seed seed) as [d|]; cbn [rbind]; [|done].
  destruct (initial_state d) as [s|] eqn:E; cbn [rbind]; [|done]. intros Hr. eapply starts_replay_ops; [done|]. cbn.
  unfold initial_state in E. repeat case_match; simplify_eq; eauto using empty_generation, join_generation.
Qed.

(** A member that restarts falls silent.  A group sends messages in an epoch
    and another member reads them; after the sender is restored from its seed and
    log, its next messages take the generations that were used before, and the
    reader rejects as many of them as it had read. *)
Theorem restored_messages_rejected (rnds : nat -> bytes) (l l' : list (bytes * bytes)) (ms ms' : list bytes)
    (os : list (option bytes)) (g g1 g2 g3 b b1 : MlsGroupImpl) :
  in_use g -> own_generation (state_ g) = 0 ->
  sends l g = Some (ms, g1) -> receives ms b = (os, b1) -> Forall is_Some os ->
  from_seed_and_log rnds (serialize_seed g1) (operation_log g1) = Ok g2 ->
  sends l' g2 = Some (ms', g3) -> (length l' <= length l)%nat ->
  (receives ms' b1).1 = replicate (length l') None.
Proof.
  intros Hg Hgen Hs Hr Hos Hrest Hs' Hlen. destruct (sends_slots _ _ _ _ Hs) as (Hl & He & Hsl).
  destruct (sends_slots _ _ _ _ Hs') as (Hl' & _ & Hsl'). pose proof (restored_generation _ _ _ _ Hrest) as Hgen2.
  destruct (in_use_restorable g1 (sends_in_use _ _ _ _ Hs Hg) rnds) as (r & Er & [Her _ _ _ _]).
  unfold serialize_seed, operation_log in Hrest. rewrite Hrest in Er. simplify_eq. assert (same_epoch (state_ g) (state_ r)) as Hgr by (by etrans).
  rewrite <- Hl'. apply receives_spent. intros m' [i Hi]%list_elem_of_lookup. exists (message_slot (state_ r) i).
  split; [by apply Hsl'|]. pose proof (lookup_lt_Some _ _ _ Hi) as Hlt.
  destruct (lookup_lt_is_Some_2 ms i) as [m Hm]; [lia|]. apply (receives_spend _ _ _ _ _ _ _ Hr Hos Hm).
  replace (message_slot (state_ r) i) with (message_slot (state_ g) i); [by apply Hsl|].
  unfold message_slot. by rewrite Hgen, Hgen2, (state_epoch_proper _ _ Hgr), (leaf_index_proper _ _ Hgr).
Qed.
End messages.

(** ** What a replay cannot repeat *)

Section divergence.
Context `{!Mlspp, !MlsppLaws, !MlsPathLaws}.

(** A removal commits with an update path.  Its encapsulations are not in the log:
    the restored member re-executes the removal with other ones and is in an epoch
    of its own, while its log says it is in the epoch of the group. *)
Lemma removal_not_restored (rnds : nat -> bytes) (rnd ls wire : bytes) (i : Z) (p : Proposal) (g g1 g2 : MlsGroupImpl) :
  in_use g -> small ls -> is_u32 i -> remove_proposal (state_ g) i = Some p ->
  needs_path (state_ g) [p] = true -> has_recipients (state_ g) [p] = true -> rnd <> rnds (length (operation_log g)) ->
  remove_member rnd ls i g = (g1, Ok wire) ->
  from_seed_and_log rnds (serialize_seed g1) (operation_log g1) = Ok g2 ->
  operation_log g2 = operation_log g1 /\ ~ same_epoch (state_ g1) (state_ g2).
Proof.
  intros Hg Hls Hi Hp Hpath Hrec Hrnd Hrem Hrest. set (rnd' := rnds (length (operation_log g))) in *.
  destruct (in_use_restorable g Hg rnds) as (r & Er & Hgr). pose proof Hgr as [Hs _ _ Hseed Hlog].
  pose proof (replay_op_record rnd' (CRemove rnd ls i) _ _ _ r (conj Hls Hi) eq_refl) as Hop.
  unfold remove_member, logged, do_remove_member in Hrem. rewrite Hp in Hrem.
  destruct (commit rnd (state_ g) ls [p] false) as [s1 [[[c w] t]|]] eqn:Ec; [|done]. injection Hrem as <- _.
  unfold serialize_seed, operation_log in *. cbn [seed_blob_ op_log_ push_op with_state state_] in *.
  unfold logged, discard, do_remove_member in Hop.
  rewrite <- (remove_proposal_proper _ _ Hs i i eq_refl), Hp in Hop.
  destruct (commit rnd' (state_ r) ls [p] false) as [s1' [[[c' w'] t']|]] eqn:Ec'.
  - pose proof (eq_trans (eq_sym Hrest) (from_seed_snoc _ _ _ _ _ _ Er Hop)) as E. injection E as ->. split; [cbn; by rewrite Hlog|].
    intros Ht. apply (path_fresh _ _ _ _ _ _ _ _ _ _ _ _ _ _ _ Hpath Hrec Hs Hrnd Ec Ec').
    by apply (transcript_binds _ _ _ _ _ _ _ _ _ _ _ _ _ _ _ Ec Ec').
  - by pose proof (eq_trans (eq_sym Hrest) (from_seed_throws _ _ _ _ _ _ _ Er Hop)).
Qed.

(** A proposal that arrives as a commit makes [apply_commit] throw, but mlspp has
    cached it: it is not in the log, and the restored group is without it. *)
Lemma proposal_as_commit_unlogged (rnds : nat -> bytes) (wire : bytes) (m : MLSMessage) (s' : State) (g g1 : MlsGroupImpl) :
  in_use g -> tls_get wire = Some m -> handle (state_ g) m = (s', Some None) -> g1 = (apply_commit wire g).1 ->
  (apply_commit wire g).2 = Throw NoNewState /\ state_ g1 = s' /\
  exists g2, from_seed_and_log rnds (serialize_seed g1) (operation_log g1) = Ok g2 /\ same_epoch (state_ g) (state_ g2).
Proof.
  intros Hg Hm Hh ->. destruct (in_use_restorable g Hg rnds) as (r & Er & [Hs _ _ _ _]).
  unfold apply_commit, logged, do_apply_commit. rewrite Hm, Hh. cbn. eauto.
Qed.
End divergence.
