(* ===== verification/MlsWitness.v ===== *)
(** * MLS groups: an instance of mlspp on which the witnesses evaluate

    A group without cryptography: a state holds its members, the cached proposals,
    the commits so far and the slots that were used.  A commit holds its
    proposals, and random bytes when it needs a path. *)
From S2P Require Import Prelude DhtWitness Mls MlsTheorems.

#[local] Instance toy_tls (T : Type) `{Countable T} : TlsSyntax T := {|
  tls_marshal x := Byte.x01 :: toy_pos_bytes (encode x);
  tls_get b := match b with Byte.x01 :: b' => decode (Z.to_pos (be_value b')) | _ => None end;
|}.

#[local] Instance toy_tls_laws (T : Type) `{Countable T} : TlsLaws T.
Proof. split; [|done]. intros x. cbn [tls_get tls_marshal toy_tls]. rewrite toy_pos_value. cbn [Z.to_pos]. apply decode_encode. Qed.

(** Identities and group ids as numbers, to keep the messages short. *)
Abbreviation TKeyPackage := (byte * Z)%type.
Abbreviation TProposal := (TKeyPackage + Z)%type.
Abbreviation TMessage := ((Z * list TProposal * bytes) + TProposal + (Z * Z * Z * bytes))%type.
Abbreviation TWelcome := (Z * Z * list Z * list TMessage)%type.

Record ToyState := mkToyState {
  t_gid : Z;
  t_epoch : Z;
  t_members : list Z;
  t_leaf : Z;
  t_pending : list TProposal;
  t_commits : list TMessage;
  t_generation : Z;
  t_spent : list (Z * Z * Z);
}.

Definition t_core (s : ToyState) := (t_gid s, t_epoch s, t_members s, t_leaf s, t_pending s, t_commits s).

Definition t_apply (p : TProposal) (members : list Z) : list Z :=
  match p with
  | inl kp => members ++ [kp.2]
  | inr i => take (Z.to_nat i) members ++ drop (S (Z.to_nat i)) members
  end.

Definition t_path (s : ToyState) (ps : list TProposal) : bool :=
  match t_pending s ++ ps with
  | [] => true
  | l => existsb (fun p => match p with inl _ => false | inr _ => true end) l
  end.

Definition t_next (props : list TProposal) (c : TMessage) (s : ToyState) : ToyState :=
  mkToyState (t_gid s) (t_epoch s + 1) (foldl (flip t_apply) (t_members s) props) (t_leaf s) [] (c :: t_commits s) 0 (t_spent s).

Definition t_commit (rnd : bytes) (s : ToyState) (ps : list TProposal) : TMessage * TWelcome * ToyState :=
  let props := t_pending s ++ ps in
  let c := inl (inl (t_epoch s, props, if t_path s ps then rnd else [])) in
  let t := t_next props c s in
  (c, (t_gid t, t_epoch t, t_members t, t_commits t), t).

Definition t_handle (s : ToyState) (m : TMessage) : ToyState * option (option ToyState) :=
  match m with
  | inl (inl (e, props, _)) => (s, if e =? t_epoch s then Some (Some (t_next props m s)) else None)
  | inl (inr p) => (mkToyState (t_gid s) (t_epoch s) (t_members s) (t_leaf s) (t_pending s ++ [p]) (t_commits s) (t_generation s) (t_spent s), Some None)
  | inr _ => (s, None)
  end.

Definition t_with (gen : Z) (sp : list (Z * Z * Z)) (s : ToyState) : ToyState :=
  mkToyState (t_gid s) (t_epoch s) (t_members s) (t_leaf s) (t_pending s) (t_commits s) gen sp.

Definition t_unprotect (s : ToyState) (m : TMessage) : ToyState * option bytes :=
  match m with
  | inr (k, pt) =>
      if (k.1.1 =? t_epoch s) && negb (bool_decide (k ∈ t_spent s)) then (t_with (t_generation s) (k :: t_spent s) s, Some pt)
      else (s, None)
  | _ => (s, None)
  end.

Definition t_key (rnd : bytes) : byte := default Byte.x00 (head rnd).
Definition t_data (k : byte) : bytes := replicate 31 Byte.x00 ++ [k].

#[local] Instance toy_mlspp : Mlspp := {|
  State := ToyState; SignaturePrivateKey := byte; HPKEPrivateKey := byte; KeyPackage := TKeyPackage; LeafNode := Z;
  Welcome := TWelcome; MLSMessage := TMessage; Proposal := TProposal;
  sig_generate := t_key; sig_data := t_data; sig_parse b := last b;
  hpke_generate := t_key; hpke_data := t_data; hpke_parse b := last b;
  new_leaf_node _ _ identity _ := be_value identity;
  new_key_package init ln _ := (init, ln);
  empty_group gid _ _ ln _ := Some (mkToyState (be_value gid) 0 [ln] 0 [] [] 0 []);
  join_group init _ _ kp w := let '(gid, e, ms, cs) := w in
    if bool_decide (init = kp.1) then Some (mkToyState gid e ms (Z.of_nat (length ms) - 1) [] cs 0 []) else None;
  add_proposal _ kp := Some (inl kp);
  remove_proposal s i := if (0 <=? i) && (i <? Z.of_nat (length (t_members s))) then Some (inr i) else None;
  commit rnd s _ ps _ := (s, Some (t_commit rnd s ps));
  add s kp := (s, Some (inl (inr (inl kp))));
  handle := t_handle;
  protect _ s pt := (t_with (t_generation s + 1) (t_spent s) s, Some (inr (t_epoch s, t_leaf s, t_generation s, pt)));
  unprotect := t_unprotect;
  group_id s := be_bytes 32 (t_gid s); state_epoch := t_epoch; roster s := (fun n => Some (be_bytes 32 n)) <$> t_members s;
  do_export s label ctx n := take n (label ++ ctx ++ z2b (t_epoch s) :: replicate n Byte.x00);
|}.

Definition t_public (m : TMessage) : bool := match m with inl _ => true | inr _ => false end.

Lemma last_data (k : byte) : last (t_data k) = Some k.
Proof. apply last_snoc. Qed.

Lemma t_unprotect_core (s : ToyState) (m : TMessage) : t_core s = t_core (t_unprotect s m).1.
Proof. destruct m as [m|[k pt]]; cbn; [done|]. by destruct (_ && _). Qed.

(** States with one core commit alike when there is no path. *)
Lemma t_commit_core (rnd rnd' : bytes) (s s' : ToyState) (ps : list TProposal) :
  t_core s = t_core s' -> t_path s ps = false -> t_core (t_commit rnd s ps).2 = t_core (t_commit rnd' s' ps).2.
Proof.
  destruct s, s'; cbn. unfold t_core, t_path; cbn. intros [= -> -> -> -> -> ->] ->. done.
Qed.

#[local] Instance toy_mlspp_laws : MlsppLaws.
Proof.
  refine {| same_epoch s s' := t_core s = t_core s'; needs_path := t_path; is_public := t_public |}; cbn.
  - apply last_data.
  - apply last_data.
  - intros; lia.
  - done.
  - split; [done|by intros ?|intros ???; congruence].
  - unfold t_core. intros s s' [= ]. done.
  - unfold t_core. intros s s' [= ]. congruence.
  - unfold t_core. intros s s' [= ]. congruence.
  - unfold t_core. intros s s' [= ] ?? -> ?? -> ?? ->. congruence.
  - unfold t_core. intros s s' [= _ _ Hm _ _ _] ?? ->. by rewrite Hm.
  - done.
  - intros. apply t_unprotect_core.
  - intros rnd rnd' s s' ls ps tree s1 c w t Hs Hp Ec. assert (t_commit rnd s ps = (c, w, t)) as Hc by congruence. destruct (t_commit rnd' s' ps) as [[c' w'] t'] eqn:E'.
    exists s', c', w', t'. split; [done|]. pose proof (t_commit_core rnd rnd' s s' ps Hs Hp) as Hcore. by rewrite Hc, E' in Hcore.
  - by intros ???? [= _ <-].
  - intros s s' kp s1 m Hs [= <- <-]. by exists s'.
  - intros s s' m s1 o. unfold t_core. destruct s, s'; cbn. intros [= -> -> -> -> -> ->].
    destruct m as [[[[e props] r]|p]|[k pt]]; cbn; [|..|done].
    + intros _. destruct (e =? _); [|done]. intros [= <- <-]. eexists _, _. split; [done|]. split; [done|]. by constructor.
    + intros _ [= <- <-]. eexists _, _. split; [done|]. split; [done|]. constructor.
Defined.

#[local] Instance toy_message_laws : MlsMessageLaws.
Proof.
  refine {| leaf_index := t_leaf; own_generation := t_generation;
            slot m := match m with inr (k, _) => Some k | _ => None end; spent s k := k ∈ t_spent s |}; cbn.
  - unfold t_core. intros s s' [= ]. done.
  - by intros ?????? [= <-].
  - intros init leaf sig kp [[[gid e] ms] cs] s. case_bool_decide; [|done]. by intros [= <-].
  - by intros ????????? [= <- <- <- <-].
  - intros s [[[[e props] r]|p]|[k pt]] s1 t; cbn; [|done..]. destruct (e =? _); [|done]. by intros [= <- <-].
  - done.
  - by intros s [[[[e props] r]|p]|[k pt]].
  - by intros rnd s pt s' m [= <- <-].
  - intros s [m|[k pt]] s' pt' k'; cbn; [done|]. destruct (_ && _); [|done]. intros [= <- <-] [= <-]. cbn. by left.
  - intros s [m|[k pt]] k' Hk; cbn; [done|]. destruct (_ && _); [|done]. cbn. by right.
  - intros s [m|[k pt]] k' Hk; cbn; [done|]. intros [= <-]. rewrite bool_decide_true by done. by rewrite andb_false_r.
Defined.

#[local] Instance toy_path_laws : MlsPathLaws.
Proof.
  refine {| has_recipients _ _ := true |}; cbn.
  - intros rnd rnd' s s' ls ps tree s1 c w t s1' c' w' t' Hp _ Hs Hr. unfold t_commit. cbv zeta.
    assert (t_path s' ps = true) as Hp' by (revert Hp; unfold t_core, t_path in *; by injection Hs as _ _ _ _ -> _).
    rewrite Hp, Hp'. intros [= _ <- _ _] [= _ <- _ _]. congruence.
  - intros rnd rnd' s s' ls ps tree s1 c w t s1' c' w' t'. unfold t_commit. cbv zeta.
    intros [= _ <- _ <-] [= _ <- _ <-]. unfold t_core. cbn. congruence.
Defined.

(** ** A group of three

    Alice creates the group and adds Bob, who joins; she proposes and commits Carol. *)

Definition w_id32 (n : Z) : bytes := be_bytes 32 n.
Definition w_bob : PendingMlsJoinImpl := start_join [Byte.x11] [Byte.x12] [Byte.x13] 5 (w_id32 2).
Definition w_carol : PendingMlsJoinImpl := start_join [Byte.x21] [Byte.x22] [Byte.x23] 5 (w_id32 3).

Definition w_none : MlsGroupImpl := mkMlsGroupImpl (mkToyState 0 0 [] 0 [] [] 0 []) Byte.x00 Byte.x00 [] [].
Definition w_ok (r : result MlsError MlsGroupImpl) : MlsGroupImpl := match r with Ok g => g | Throw _ => w_none end.
Definition w_wire (r : result MlsError AddResult) : AddResult := match r with Ok a => a | Throw _ => mkAddResult [] [] end.

Definition w_alice0 : MlsGroupImpl := w_ok (create [Byte.x01] [Byte.x02] (w_id32 9) 5 (w_id32 1) (w_id32 77)).
Definition w_add : Call := CAdd [Byte.xaa] (w_id32 10) (key_package w_bob).
Definition w_alice1 : MlsGroupImpl := (call w_add w_alice0).1.
Definition w_welcome : bytes := ar_welcome (w_wire (add_member [Byte.xaa] (w_id32 10) (key_package w_bob) w_alice0).2).
Definition w_bob1 : MlsGroupImpl := w_ok (complete w_bob w_welcome).
Definition w_propose : Call := CPropose (key_package w_carol).
Definition w_alice2 : MlsGroupImpl := (call w_propose w_alice1).1.
Definition w_commit : Call := CCommit [Byte.xbb] (w_id32 11).
Definition w_alice3 : MlsGroupImpl := (call w_commit w_alice2).1.

(** An equation between computed values, checked by the virtual machine. *)
Ltac by_vm :=
  match goal with
  | |- ?a = _ => vm_cast_no_check (eq_refl a)
  | |- _ < _ => vm_cast_no_check (eq_refl Lt)
  end.
Ltac by_small := unfold small, u32_max; vm_compute; reflexivity.

Lemma w_alice1_in_use : in_use w_alice1.
Proof.
  apply (use_call w_alice0 w_add).
  - apply (use_create [Byte.x01] [Byte.x02] (w_id32 9) 5 (w_id32 1) (w_id32 77)); [done..|by_small|by_vm].
  - by_small.
  - intros k p _ [= <-]. reflexivity.
  - by_vm.
Qed.

Lemma w_alice3_in_use : in_use w_alice3.
Proof.
  apply (use_call w_alice2 w_commit); [|by_small|reflexivity|by_vm].
  apply (use_throw w_alice2 (CHandle []) _ FromMlspp); [|by_vm|reflexivity].
  apply (use_call w_alice1 w_propose); [apply w_alice1_in_use|by_small|done|by_vm].
Qed.

Definition w_rnds (i : nat) : bytes := be_bytes 4 (Z.of_nat i).

Lemma mls_group_restored_witness :
  member_identities w_alice3 = [w_id32 1; w_id32 2; w_id32 3] /\ length (operation_log w_alice3) = 3%nat /\
  Z.of_nat (length (serialize w_alice3)) < u32_max /\
  exists g', from_seed_and_log w_rnds (serialize_seed w_alice3) (operation_log w_alice3) = Ok g' /\
    epoch g' = 2 /\ member_identities g' = [w_id32 1; w_id32 2; w_id32 3] /\ from_blob w_rnds (serialize w_alice3) = Ok g'.
Proof.
  split; [by_vm|]. split; [reflexivity|]. assert (Z.of_nat (length (serialize w_alice3)) < u32_max) as Hs by by_vm.
  split; [exact Hs|]. destruct (mls_group_restored w_alice3 w_rnds w_alice3_in_use) as (g' & E & _ & _ & He & Hm & _ & Hb & _).
  exists g'. split; [exact E|]. rewrite He, Hm, (Hb Hs). split; [by_vm|]. split; [by_vm|reflexivity].
Defined.

(** ** Alice sends two messages, restarts and sends two more *)

Definition w_first : list (bytes * bytes) := [([Byte.x01], str "one"); ([Byte.x02], str "two")].
Definition w_again : list (bytes * bytes) := [([Byte.x03], str "three"); ([Byte.x04], str "four")].

Definition w_sent (l : list (bytes * bytes)) (g : MlsGroupImpl) : list bytes * MlsGroupImpl := default ([], w_none) (sends l g).
Definition w_out1 := w_sent w_first w_alice1.
Definition w_in1 := receives w_out1.1 w_bob1.
Definition w_back : MlsGroupImpl := w_ok (from_seed_and_log w_rnds (serialize_seed w_out1.2) (operation_log w_out1.2)).
Definition w_out2 := w_sent w_again w_back.

Lemma restored_messages_rejected_witness :
  w_in1.1 = [Some (str "one"); Some (str "two")] /\ (receives w_out2.1 w_in1.2).1 = [None; None].
Proof.
  split; [by_vm|].
  apply (restored_messages_rejected w_rnds w_first w_again w_out1.1 w_out2.1 w_in1.1 w_alice1 w_out1.2 w_back w_out2.2 w_bob1 w_in1.2).
  - exact w_alice1_in_use.
  - reflexivity.
  - by_vm.
  - by_vm.
  - vm_compute. repeat constructor; eexists; reflexivity.
  - by_vm.
  - by_vm.
  - vm_compute. lia.
Defined.

(** ** Alice removes Bob from the group of three and restarts *)

Definition w_removal := remove_member [Byte.xcc] (w_id32 12) 1 w_alice3.
Definition w_back3 : MlsGroupImpl := w_ok (from_seed_and_log w_rnds (serialize_seed w_removal.1) (operation_log w_removal.1)).

Definition w_remove_bob : Proposal := inr 1.

Example removal_not_restored_runs :
  member_identities w_back3 = [w_id32 1; w_id32 3] /\ ~ same_epoch (state_ w_removal.1) (state_ w_back3).
Proof.
  split; [by_vm|].
  apply (removal_not_restored w_rnds [Byte.xcc] (w_id32 12) (match w_removal.2 with Ok w => w | _ => [] end) 1 w_remove_bob w_alice3 w_removal.1 w_back3);
    [exact w_alice3_in_use|by_small|done|reflexivity..|vm_compute; discriminate|by_vm|by_vm].
Qed.
