(* ===== verification/PeerNet.v ===== *)
(** * Direct connections between peers ([src/core/src/p2p/peer_net.cpp])

    The pool of outgoing connections with one worker thread each, the accepted
    connections, the two framings (length-prefixed, or WebSocket) and the loop
    that writes what is queued and delivers what arrives.  OpenSSL and the sockets
    are the environment: what a call of the channel returns is part of an event.
    A step is what a thread does between two points where others can interfere. *)
From S2P Require Import Prelude StdMap Kademlia FrameCodec WebSocket.

Module PeerNet.
Import Kademlia.

(** ** Addresses *)

(** [s.find(c)] and [s.rfind(c)]: what is before and after. *)
Fixpoint cut_first (c : byte) (s : bytes) : option (bytes * bytes) :=
  match s with
  | [] => None
  | x :: s' => if bool_decide (x = c) then Some ([], s')
               else match cut_first c s' with Some (a, b) => Some (x :: a, b) | None => None end
  end.

Fixpoint cut_last (c : byte) (s : bytes) : option (bytes * bytes) :=
  match s with
  | [] => None
  | x :: s' =>
      match cut_last c s' with
      | Some (a, b) => Some (x :: a, b)
      | None => if bool_decide (x = c) then Some ([], s') else None
      end
  end.

(** The number [strtol] reads: white space, a sign, and digits up to the first other byte. *)
Fixpoint atoi_digits (acc : Z) (s : bytes) : Z :=
  match s with
  | c :: s' => if (48 <=? b2z c) && (b2z c <=? 57) then atoi_digits (acc * 10 + (b2z c - 48)) s' else acc
  | [] => acc
  end.
Definition atoi_value (s : bytes) : Z :=
  match WebSocket.drop_space s with
  | c :: s' => if bool_decide (c = Byte.x2d) then - atoi_digits 0 s'
               else if bool_decide (c = Byte.x2b) then atoi_digits 0 s' else atoi_digits 0 (c :: s')
  | [] => 0
  end.

(** [std::atoi], as the C library has it: [strtol] stops at the ends of a 64-bit [long],
    and the conversion to [int] keeps the low 32 bits. *)
Definition strtol (s : bytes) : Z := Z.max (- 2 ^ 63) (Z.min (2 ^ 63 - 1) (atoi_value s)).
Definition to_int (z : Z) : Z := (z + 2 ^ 31) mod 2 ^ 32 - 2 ^ 31.
Definition atoi (s : bytes) : Z := to_int (strtol s).

Definition kPrefix : bytes := str "wss://".

Definition strip_brackets (host : bytes) : bytes :=
  match host with
  | c :: h => if bool_decide (c = Byte.x5b) && bool_decide (last host = Some Byte.x5d) then take (length host - 2) h else host
  | [] => []
  end.

Definition parse_wss_addr (addr : bytes) : option (bytes * Z) :=
  if (length addr <=? length kPrefix)%nat || negb (bool_decide (take (length kPrefix) addr = kPrefix)) then None
  else
    let rest := drop (length kPrefix) addr in
    let rest := match cut_first Byte.x23 rest with Some (a, _) => a | None => rest end in
    match cut_last Byte.x3a rest with
    | None => None
    | Some (host, port_str) =>
        let p := atoi port_str in
        if (p <=? 0) || (65535 <? p) then None else Some (strip_brackets host, p)
    end.

Record PinnedAddr := mkPinnedAddr { addr_without_fragment : bytes; pin_fragment_hex : bytes }.

Definition parse_pinned_addr (addr : bytes) : PinnedAddr :=
  match cut_first Byte.x23 addr with
  | None => mkPinnedAddr addr []
  | Some (a, f) => mkPinnedAddr a f
  end.

(** ** Options *)

Inductive TlsFingerprint := kDefault | kChrome | kFirefox.

Record PeerDialerOptions := mkPeerDialerOptions {
  ca_file : bytes;
  insecure_skip_verify : bool;
  client_cert_pem : bytes;
  client_key_pem : bytes;
  wss : bool;
  front_sni : bytes;
  ws_host_header : bytes;
  tls_fingerprint : TlsFingerprint;
}.

(** The options of [TlsClient] that a dial sets. *)
Record TlsClientOptions := mkTlsClientOptions {
  t_ca_file : bytes;
  t_insecure_skip_verify : bool;
  t_sni_hostname : bytes;
  t_fingerprint : TlsFingerprint;
  t_client_cert_pem : bytes;
  t_client_key_pem : bytes;
  expected_peer_pubkey : option bytes;
}.

Definition or_else (a b : bytes) : bytes := match a with [] => b | _ => a end.

Definition dial_options (host : bytes) (o : PeerDialerOptions) (peer : PeerInfo) : TlsClientOptions :=
  mkTlsClientOptions (ca_file o) (insecure_skip_verify o) (or_else (front_sni o) host) (tls_fingerprint o)
    (client_cert_pem o) (client_key_pem o) (if (length (pubkey peer) =? 32)%nat then Some (pubkey peer) else None).

(** [TlsClient::connect] after the handshake: the Ed25519 key of the certificate
    that the peer presented, if there is one, against the pin. *)
Definition pin_ok (o : TlsClientOptions) (presented : option bytes) : bool :=
  match expected_peer_pubkey o with
  | None => true
  | Some want => match presented with Some got => bool_decide (got = want) | None => false end
  end.

(** Whether the certificate chain is verified. *)
Definition verifies_chain (o : TlsClientOptions) : bool :=
  negb (t_insecure_skip_verify o) && match expected_peer_pubkey o with Some _ => false | None => true end.

(** ** Framing *)

Inductive WsRole := kNone | kDialer | kAcceptor.

Definition frame_out (role : WsRole) (mask p : bytes) : bytes :=
  match role with
  | kDialer => WebSocket.build_client_binary_frame mask p
  | kAcceptor => WebSocket.build_server_binary_frame p
  | kNone => encode_frame p
  end.

(** The two decoders of [run_loop]; the role selects one. *)
Record Deframer := mkDeframer { df_role : WsRole; df_dec : FrameDecoder; df_wsp : WebSocket.FrameParser }.

Definition new_deframer (role : WsRole) : Deframer :=
  mkDeframer role new_decoder (WebSocket.new_parser (match role with kAcceptor => true | _ => false end)).

Definition df_feed (d : Deframer) (b : bytes) : Deframer :=
  match df_role d with
  | kNone => mkDeframer kNone (feed (df_dec d) b) (df_wsp d)
  | r => mkDeframer r (df_dec d) (WebSocket.feed (df_wsp d) b)
  end.

(** [deliver_ready]: pops while a frame is ready; every other status ends it. *)
Definition deliver_ready (d : Deframer) : list bytes * Deframer :=
  match df_role d with
  | kNone => let '(fs, _, dec) := pop_all (df_dec d) in (fs, mkDeframer kNone dec (df_wsp d))
  | r => let '(fs, _, p) := WebSocket.pop_all (df_wsp d) in (fs, mkDeframer r (df_dec d) p)
  end.

(** [if (n > 0) { feed; deliver_ready }] *)
Definition df_read (d : Deframer) (b : bytes) : list bytes * Deframer :=
  match b with [] => ([], d) | _ => deliver_ready (df_feed d b) end.

(** ** The upgrade on both sides

    A read returns bytes, or nothing when it timed out or the peer has closed.
    The deadline of a loop is the end of the list of its reads. *)

Section upgrade.
Context `{!WebSocket.Base64}.

Definition default_upgrade : WebSocket.WsUpgradeOptions := WebSocket.mkWsUpgradeOptions [] [] true.

Fixpoint client_upgrade_loop (hp : WebSocket.ClientHandshakeParser) (reads : list bytes) : option (bytes * list bytes) :=
  match reads with
  | [] => None
  | [] :: reads' => client_upgrade_loop hp reads'
  | b :: reads' =>
      match WebSocket.ch_feed hp b with
      | (WebSocket.HsAccepted, hp) => Some (WebSocket.ch_trailing hp, reads')
      | (WebSocket.HsRejected, _) => None
      | (WebSocket.HsNeedMore, hp) => client_upgrade_loop hp reads'
      end
  end.

(** The request, and the bytes after the response; [None] when it throws.  The
    reads that were not needed are left to the loop. *)
Definition ws_client_upgrade (host_header : bytes) (port : Z) (key_raw : bytes) (reads : list bytes)
    : bytes * option (bytes * list bytes) :=
  let '(request, sec_key) := WebSocket.build_client_upgrade_request host_header port (str "/") default_upgrade key_raw in
  (request, client_upgrade_loop (WebSocket.new_client_handshake sec_key) reads).

Record WsDetect := mkWsDetect { wd_role : WsRole; prebuffer : bytes }.

Definition looks_http (first : bytes) : bool := bool_decide (take 4 first = str "GET ").

Fixpoint accept_loop (st : WebSocket.HsStatus) (hp : WebSocket.HandshakeParser) (reads : list bytes)
    : option (WebSocket.HandshakeParser * list bytes) :=
  match st with
  | WebSocket.HsAccepted => Some (hp, reads)
  | WebSocket.HsRejected => None
  | WebSocket.HsNeedMore =>
      match reads with
      | [] | [] :: _ => None
      | b :: reads' => let '(st, hp) := WebSocket.hs_feed hp b in accept_loop st hp reads'
      end
  end.

(** What is sent (the 101 response), and the verdict with the reads left. *)
Definition ws_detect_and_accept (reads : list bytes) : bytes * option (WsDetect * list bytes) :=
  match reads with
  | [] => ([], Some (mkWsDetect kNone [], []))
  | [] :: reads' => ([], Some (mkWsDetect kNone [], reads'))
  | first :: reads' =>
      if negb (looks_http first) then ([], Some (mkWsDetect kNone first, reads'))
      else
        let '(st, hp) := WebSocket.hs_feed WebSocket.new_handshake first in
        match accept_loop st hp reads' with
        | None => ([], None)
        | Some (hp, reads') =>
            (WebSocket.build_101_response (WebSocket.compute_accept (WebSocket.client_key_ hp)),
             Some (mkWsDetect kAcceptor (WebSocket.hs_trailing hp), reads'))
        end
  end.
End upgrade.

(** ** Workers *)

(** Where the thread of a connection is. *)
Inductive Phase :=
| Dialing (host : bytes) (port : Z) (opts : PeerDialerOptions) (peer : PeerInfo)
| Accepting (from : PeerInfo)
| Running (label : PeerInfo) (df : Deframer)
| Ended.

Record Worker := mkWorker { w_stop : bool; writes : list bytes; w_phase : Phase }.

Definition enqueue (b : bytes) (w : Worker) : Worker := mkWorker (w_stop w) (writes w ++ [b]) (w_phase w).
Definition set_phase (p : Phase) (w : Worker) : Worker := mkWorker (w_stop w) (writes w) p.
Definition stop_worker (w : Worker) : Worker := mkWorker true (writes w) Ended.

(** One turn of [run_loop]: the random masks, the write that throws (after how
    many others, with how many bytes out), and what the read returns ([None] when
    it throws). *)
Record Turn := mkTurn {
  tn_masks : nat -> bytes;
  tn_fails : option (nat * nat);
  tn_read : option bytes;
}.

(** [while (auto pending = w.dequeue_for(0))]: what goes out, what stays queued,
    and whether a send threw. *)
Fixpoint drain_writes (role : WsRole) (masks : nat -> bytes) (fails : option (nat * nat)) (i : nat) (ws : list bytes)
    : list bytes * list bytes * bool :=
  match ws with
  | [] => ([], [], false)
  | p :: ws' =>
      let framed := frame_out role (masks i) p in
      match fails with
      | Some (O, sent) => ([take sent framed], ws', true)
      | _ =>
          let '(out, kept, threw) := drain_writes role masks (match fails with Some (S k, n) => Some (k, n) | f => f end) (S i) ws' in
          (framed :: out, kept, threw)
      end
  end.

(** What a turn sends and delivers. *)
Definition run_turn (t : Turn) (global_stop : bool) (w : Worker) : Worker * list bytes * list bytes :=
  match w_phase w with
  | Running label df =>
      if w_stop w || global_stop then (set_phase Ended w, [], [])
      else
        let '(out, kept, threw) := drain_writes (df_role df) (tn_masks t) (tn_fails t) 0 (writes w) in
        if threw then (mkWorker (w_stop w) kept Ended, out, [])
        else match tn_read t with
        | None => (mkWorker (w_stop w) kept Ended, out, [])
        | Some b => let '(fs, df) := df_read df b in (mkWorker (w_stop w) kept (Running label df), out, fs)
        end
  | _ => (w, [], [])
  end.

(** The start of [run_loop] with the bytes that were read before. *)
Definition begin_loop (label : PeerInfo) (role : WsRole) (pre : bytes) (w : Worker) : Worker * list bytes :=
  let '(fs, df) := df_read (new_deframer role) pre in (set_phase (Running label df) w, fs).

(** ** The object *)

Record PeerNet := mkPeerNet {
  dialer_opts : PeerDialerOptions;
  on_msg : bool;
  out_conns : gmap bytes Worker;
  in_conns : list Worker;
  global_stop : bool;
}.

Definition no_dialer : PeerDialerOptions := mkPeerDialerOptions [] false [] [] false [] [] kDefault.
Definition new_net : PeerNet := mkPeerNet no_dialer false ∅ [] false.

Definition with_out (m : gmap bytes Worker) (n : PeerNet) : PeerNet := mkPeerNet (dialer_opts n) (on_msg n) m (in_conns n) (global_stop n).
Definition with_in (l : list Worker) (n : PeerNet) : PeerNet := mkPeerNet (dialer_opts n) (on_msg n) (out_conns n) l (global_stop n).

Definition set_dialer (o : PeerDialerOptions) (n : PeerNet) : PeerNet := mkPeerNet o (on_msg n) (out_conns n) (in_conns n) (global_stop n).
Definition set_on_message (n : PeerNet) : PeerNet := mkPeerNet (dialer_opts n) true (out_conns n) (in_conns n) (global_stop n).

(** A connection of the pool, by its key, or an accepted one, by its place. *)
Inductive ConnId := OutConn (a : bytes) | InConn (i : nat).

#[export] Instance ConnId_eq_dec : EqDecision ConnId.
Proof. solve_decision. Defined.

Inductive Effect :=
| Returned (ok : bool)
| Sent (c : ConnId) (b : bytes)
| Delivered (c : ConnId) (from : PeerInfo) (b : bytes).

(** The callback is called only when one is set. *)
Definition delivered (n : PeerNet) (c : ConnId) (from : PeerInfo) (fs : list bytes) : list Effect :=
  if on_msg n then Delivered c from <$> fs else [].

Definition send (peer : PeerInfo) (b : bytes) (n : PeerNet) : PeerNet * list Effect :=
  match parse_wss_addr (addr peer) with
  | None => (n, [Returned false])
  | Some (host, port) =>
      let w := match out_conns n !! addr peer with
               | Some w => w
               | None => mkWorker false [] (Dialing host port (dialer_opts n) peer)
               end in
      (with_out (<[addr peer := enqueue b w]> (out_conns n)) n, [Returned true])
  end.

Definition outbound_count (n : PeerNet) : nat := base.size (out_conns n).
Definition inbound_count (n : PeerNet) : nat := length (in_conns n).

Section events.
Context `{!WebSocket.Base64, !Sha256}.

(** [tls.connect] as far as OpenSSL: [None] when it throws there, else the key of
    the certificate.  Then the upgrade. *)
Record Dial := mkDial {
  dl_handshake : option (option bytes);
  dl_key_raw : bytes;
  dl_request_sent : bool;
  dl_reads : list bytes;
}.

Definition dial (d : Dial) (host : bytes) (port : Z) (o : PeerDialerOptions) (peer : PeerInfo) (w : Worker)
    : Worker * list bytes * list bytes :=
  match dl_handshake d with
  | None => (stop_worker w, [], [])
  | Some presented =>
      if negb (pin_ok (dial_options host o peer) presented) then (stop_worker w, [], [])
      else if wss o then
        let '(request, up) := ws_client_upgrade (or_else (ws_host_header o) host) port (dl_key_raw d) (dl_reads d) in
        if negb (dl_request_sent d) then (stop_worker w, [], [])
        else match up with
        | None => (stop_worker w, [request], [])
        | Some (pre, _) => let '(w, fs) := begin_loop peer kDialer pre w in (w, [request], fs)
        end
      else let '(w, fs) := begin_loop peer kNone [] w in (w, [], fs)
  end.

(** The peer of an accepted connection, from the key of its certificate. *)
Definition attested (cert : option bytes) : PeerInfo :=
  match cert with
  | Some pub => mkPeerInfo (node_id_from_pubkey pub) [] pub
  | None => mkPeerInfo (replicate kNodeIdBytes Byte.x00) [] []
  end.

Inductive Event :=
| ESend (peer : PeerInfo) (b : bytes)
| EDial (a : bytes) (d : Dial)
| EAccept (cert : option bytes)
| EDetect (i : nat) (reads : list bytes) (response_sent : bool)
| ETurn (c : ConnId) (t : Turn)
| ESetDialer (o : PeerDialerOptions)
| ESetOnMessage
| EShutdown.

Definition out_step (a : bytes) (f : Worker -> Worker * list bytes * list bytes) (label : PeerInfo) (w : Worker) (n : PeerNet)
    : PeerNet * list Effect :=
  let '(w', out, fs) := f w in
  (with_out (<[a := w']> (out_conns n)) n, (Sent (OutConn a) <$> out) ++ delivered n (OutConn a) label fs).

Definition in_step (i : nat) (f : Worker -> Worker * list bytes * list bytes) (label : PeerInfo) (w : Worker) (n : PeerNet)
    : PeerNet * list Effect :=
  let '(w', out, fs) := f w in
  (with_in (<[i := w']> (in_conns n)) n, (Sent (InConn i) <$> out) ++ delivered n (InConn i) label fs).

Definition accept_conn (reads : list bytes) (response_sent : bool) (from : PeerInfo) (w : Worker) : Worker * list bytes * list bytes :=
  let '(response, v) := ws_detect_and_accept reads in
  match v with
  | None => (stop_worker w, [], [])
  | Some (det, _) =>
      if (match wd_role det with kAcceptor => negb response_sent | _ => false end) then (stop_worker w, [], [])
      else
        let '(w, fs) := begin_loop from (wd_role det) (prebuffer det) w in
        (w, match wd_role det with kAcceptor => [response] | _ => [] end, fs)
  end.

Definition label_of (w : Worker) : PeerInfo :=
  match w_phase w with Running l _ => l | Dialing _ _ _ p => p | Accepting p => p | Ended => mkPeerInfo [] [] [] end.

Definition step (e : Event) (n : PeerNet) : PeerNet * list Effect :=
  match e with
  | ESend peer b => send peer b n
  | EDial a d =>
      match out_conns n !! a with
      | Some w =>
          match w_phase w with
          | Dialing host port o peer => out_step a (dial d host port o peer) peer w n
          | _ => (n, [])
          end
      | None => (n, [])
      end
  | EAccept cert => (with_in (in_conns n ++ [mkWorker false [] (Accepting (attested cert))]) n, [])
  | EDetect i reads ok =>
      match in_conns n !! i with
      | Some w =>
          match w_phase w with
          | Accepting from => in_step i (accept_conn reads ok from) from w n
          | _ => (n, [])
          end
      | None => (n, [])
      end
  | ETurn (OutConn a) t =>
      match out_conns n !! a with
      | Some w => out_step a (run_turn t (global_stop n)) (label_of w) w n
      | None => (n, [])
      end
  | ETurn (InConn i) t =>
      match in_conns n !! i with
      | Some w => in_step i (run_turn t (global_stop n)) (label_of w) w n
      | None => (n, [])
      end
  | ESetDialer o => (set_dialer o n, [])
  | ESetOnMessage => (set_on_message n, [])
  | EShutdown => (mkPeerNet (dialer_opts n) (on_msg n) ∅ [] true, [])
  end.

Fixpoint run (es : list Event) (n : PeerNet) : PeerNet * list Effect :=
  match es with
  | [] => (n, [])
  | e :: es' => let '(n1, o1) := step e n in let '(n2, o2) := run es' n1 in (n2, o1 ++ o2)
  end.
End events.
End PeerNet.
