(* ===== verification/PeerNetTheorems.v ===== *)
(** * Direct connections between peers: what a link delivers *)
From S2P Require Import Prelude StdMap Kademlia FrameCodec WebSocket WebSocketProofs PeerNet.
Import PeerNet.
Import Kademlia.

(** ** Frames through a deframer *)

Fixpoint df_session (d : Deframer) (chunks : list bytes) : list bytes * Deframer :=
  match chunks with
  | [] => ([], d)
  | c :: chunks' =>
      let '(fs, d1) := df_read d c in let '(fs', d2) := df_session d1 chunks' in (fs ++ fs', d2)
  end.

(** The reads that returned something. *)
Definition filled_reads (chunks : list bytes) : list bytes := filter (fun c => c <> []) chunks.

Lemma mjoin_filled (chunks : list bytes) : mjoin (filled_reads chunks) = mjoin chunks.
Proof.
  induction chunks as [|c chunks IH]; [done|]. unfold filled_reads in *. rewrite filter_cons.
  case_decide as Hc; [|by subst c].
  change (c ++ mjoin (filter (fun c => c <> []) chunks) = c ++ mjoin chunks). by rewrite IH.
Qed.

Lemma df_session_raw (chunks fs : list bytes) (dec : FrameDecoder) (p : WebSocket.FrameParser) :
  read_session dec (filled_reads chunks) = (fs, false) -> (df_session (mkDeframer kNone dec p) chunks).1 = fs.
Proof.
  revert dec fs. induction chunks as [|c chunks IH]; intros dec fs; [by intros [= <-]|].
  unfold filled_reads in *. rewrite filter_cons. cbn [df_session]. case_decide as Hc.
  - cbn [read_session]. destruct c as [|x c]; [done|]. cbn [df_read df_feed df_role df_dec df_wsp deliver_ready].
    unfold deliver_ready. cbn [df_role df_dec df_wsp].
    destruct (pop_all (feed dec (x :: c))) as [[fs1 st] dec1]. destruct st; [|..|done];
      (destruct (read_session dec1 _) as [fs2 e] eqn:E; intros [= <- ->]; specialize (IH dec1 fs2 E);
       destruct (df_session (mkDeframer kNone dec1 p) chunks); cbn in *; by rewrite IH).
  - subst c. cbn [df_read]. intros E. specialize (IH dec fs E).
    by destruct (df_session (mkDeframer kNone dec p) chunks).
Qed.

Lemma df_session_ws (r : WsRole) (chunks fs : list bytes) (dec : FrameDecoder) (p : WebSocket.FrameParser) :
  r <> kNone -> WebSocket.read_session p (filled_reads chunks) = (fs, WebSocket.kNeedMore) ->
  (df_session (mkDeframer r dec p) chunks).1 = fs.
Proof.
  intros Hr. revert p fs. induction chunks as [|c chunks IH]; intros p fs; [by intros [= <-]|].
  unfold filled_reads in *. rewrite filter_cons. cbn [df_session]. case_decide as Hc.
  - cbn [WebSocket.read_session]. destruct c as [|x c]; [done|]. cbn [df_read].
    assert (deliver_ready (df_feed (mkDeframer r dec p) (x :: c)) =
      let '(fs, _, p') := WebSocket.pop_all (WebSocket.feed p (x :: c)) in (fs, mkDeframer r dec p')) as ->
      by (destruct r; done).
    destruct (WebSocket.pop_all (WebSocket.feed p (x :: c))) as [[fs1 st] p1].
    destruct st; [| |done..];
      (destruct (WebSocket.read_session p1 _) as [fs2 e] eqn:E; intros [= <- ->]; specialize (IH p1 fs2 E);
       destruct (df_session (mkDeframer r dec p1) chunks); cbn in *; by rewrite IH).
  - subst c. cbn [df_read]. intros E. specialize (IH p fs E).
    by destruct (df_session (mkDeframer r dec p) chunks).
Qed.

(** Payloads both framings carry. *)
Definition payload_ok (p : bytes) : Prop := Z.of_nat (length p) <= kMaxFrameBytes.

(** What a worker of a role puts on the wire for messages with their masks. *)
Definition framed (role : WsRole) (l : list (bytes * bytes)) : bytes := mjoin ((fun '(m, p) => frame_out role m p) <$> l).

Lemma framed_app (role : WsRole) (l l' : list (bytes * bytes)) : framed role (l ++ l') = framed role l ++ framed role l'.
Proof. unfold framed. by rewrite fmap_app, join_app. Qed.

(** The other end of a link. *)
Definition facing (role : WsRole) : WsRole := match role with kNone => kNone | kDialer => kAcceptor | kAcceptor => kDialer end.

(** A map over messages with masks, written in two ways. *)
Ltac by_messages := rewrite <- ?list_fmap_compose; first [apply list_fmap_ext | f_equal; apply list_fmap_ext]; by intros ? [m p].

(** Frames of one end come out at the other, whatever the reads. *)
Lemma deframed (role : WsRole) (l : list (bytes * bytes)) (chunks : list bytes) :
  Forall (fun '(m, p) => length m = 4%nat /\ payload_ok p) l -> mjoin chunks = framed role l ->
  (df_session (new_deframer (facing role)) chunks).1 = l.*2.
Proof.
  intros Hl Hc. rewrite <- mjoin_filled in Hc. unfold framed in Hc. destruct role; cbn [facing].
  - apply df_session_raw, frame_stream_roundtrip.
    + apply Forall_fmap. eapply Forall_impl; [exact Hl|]. by intros [m p] [_ Hp].
    + rewrite Hc. by_messages.
  - apply df_session_ws; [done|]. cbn.
    rewrite (ws_stream_roundtrip true ((fun '(m, p) => Masked m p) <$> l)).
    + f_equal. by_messages.
    + apply Forall_fmap. eapply Forall_impl; [exact Hl|]. intros [m p] [Hm Hp]. by split.
    + rewrite Hc. by_messages.
  - apply df_session_ws; [done|]. cbn.
    rewrite (ws_stream_roundtrip false ((fun '(m, p) => Unmasked p) <$> l)).
    + f_equal. by_messages.
    + apply Forall_fmap. eapply Forall_impl; [exact Hl|]. intros [m p] [Hm Hp]. by split.
    + rewrite Hc. by_messages.
Qed.

(** ** The sending end *)

Definition sent_on (c : ConnId) (effs : list Effect) : bytes :=
  mjoin (omap (fun e => match e with Sent c' b => if decide (c' = c) then Some b else None | _ => None end) effs).

Definition got_on (c : ConnId) (effs : list Effect) : list (PeerInfo * bytes) :=
  omap (fun e => match e with Delivered c' from b => if decide (c' = c) then Some (from, b) else None | _ => None end) effs.

Lemma sent_on_app (c : ConnId) (l l' : list Effect) : sent_on c (l ++ l') = sent_on c l ++ sent_on c l'.
Proof. unfold sent_on. by rewrite omap_app, join_app. Qed.

Lemma got_on_app (c : ConnId) (l l' : list Effect) : got_on c (l ++ l') = got_on c l ++ got_on c l'.
Proof. apply omap_app. Qed.

Lemma sent_on_returned (c : ConnId) (ok : bool) (l : list Effect) : sent_on c (Returned ok :: l) = sent_on c l.
Proof. done. Qed.

Lemma sent_on_sent (c c' : ConnId) (out : list bytes) : sent_on c (Sent c' <$> out) = if decide (c' = c) then mjoin out else [].
Proof.
  unfold sent_on. induction out as [|b out IH]; [by case_decide|]. rewrite fmap_cons. cbn [omap list_omap].
  case_decide; [|done]. change (b ++ mjoin (omap (fun e => match e with Sent c' b => if decide (c' = c) then Some b else None | _ => None end) (Sent c' <$> out)) = b ++ mjoin out). by rewrite IH.
Qed.

Lemma sent_on_delivered (c c' : ConnId) (n : PeerNet) (from : PeerInfo) (fs : list bytes) : sent_on c (delivered n c' from fs) = [].
Proof. unfold sent_on, delivered. destruct (on_msg n); [|done]. by induction fs. Qed.

Lemma got_on_sent (c c' : ConnId) (out : list bytes) : got_on c (Sent c' <$> out) = [].
Proof. unfold got_on. by induction out. Qed.

Lemma got_on_delivered (c c' : ConnId) (n : PeerNet) (from : PeerInfo) (fs : list bytes) :
  on_msg n = true -> got_on c (delivered n c' from fs) = if decide (c' = c) then pair from <$> fs else [].
Proof.
  intros Hn. unfold got_on, delivered. rewrite Hn.
  induction fs as [|b fs IH]; [by case_decide|]. rewrite !fmap_cons. cbn [omap list_omap].
  case_decide; [|done]. by f_equal.
Qed.

Section link.
Context `{!WebSocket.Base64, !Base64Laws, !Sha256}.

(** The messages that [send] was given for an address. *)
Definition payload (a : bytes) (e : Event) : list bytes :=
  match e with ESend peer b => if decide (addr peer = a) then [b] else [] | _ => [] end.
Definition payloads (a : bytes) (es : list Event) : list bytes := es ≫= payload a.

(** Hosts whose upgrade request has no line break and no second key header. *)
Definition plain_host (h : bytes) (port : Z) : Prop :=
  plain_line (host_line h port) /\ plain_line (origin_line h port default_upgrade).

Definition opts_ok (a : bytes) (o : PeerDialerOptions) : Prop :=
  forall host port, parse_wss_addr a = Some (host, port) -> wss o = true -> plain_host (or_else (ws_host_header o) host) port.

(** Masks are four bytes; dialer options are fit; nobody shuts the net down. *)
Definition event_ok (a : bytes) (e : Event) : Prop :=
  match e with
  | ETurn (OutConn a') t => a' = a -> forall i, length (tn_masks t i) = 4%nat
  | EDial _ d => dl_key_raw d <> []
  | ESetDialer o => opts_ok a o
  | EShutdown => False
  | _ => True
  end.

(** The bytes before the first frame. *)
Inductive opening : WsRole -> bytes -> Prop :=
| open_raw : opening kNone []
| open_ws h port key_raw :
    plain_host h port -> key_raw <> [] ->
    opening kDialer (WebSocket.build_client_upgrade_request h port (str "/") default_upgrade key_raw).1.

(** The connection of [a] after it was given [ps] and has sent [sent]. *)
Inductive sending (a : bytes) (ps : list bytes) (sent : bytes) : Worker -> Prop :=
| sending_dial stop host port o peer :
    sent = [] -> parse_wss_addr a = Some (host, port) -> opts_ok a o ->
    sending a ps sent (mkWorker stop ps (Dialing host port o peer))
| sending_run stop ws label df l hello :
    ps = l.*2 ++ ws -> sent = hello ++ framed (df_role df) l -> Forall (fun x => length x.1 = 4%nat) l ->
    opening (df_role df) hello -> sending a ps sent (mkWorker stop ws (Running label df))
| sending_end stop ws : sending a ps sent (mkWorker stop ws Ended).

Definition sender (a : bytes) (n : PeerNet) (ps : list bytes) (sent : bytes) : Prop :=
  opts_ok a (dialer_opts n) /\
  match out_conns n !! a with
  | None => ps = [] /\ sent = []
  | Some w => sending a ps sent w
  end.

Lemma drain_writes_ok (role : WsRole) (masks : nat -> bytes) (fails : option (nat * nat)) (i : nat) (ws out kept : list bytes) :
  drain_writes role masks fails i ws = (out, kept, false) ->
  (forall k, length (masks k) = 4%nat) ->
  exists l, kept = [] /\ l.*2 = ws /\ mjoin out = framed role l /\ Forall (fun x => length x.1 = 4%nat) l.
Proof.
  intros E Hm. revert fails i out E. induction ws as [|p ws IH]; intros fails i out; cbn [drain_writes].
  - intros [= <- <-]. by exists [].
  - assert (forall f, drain_writes role masks f (S i) ws = (tail out, kept, false) -> out = frame_out role (masks i) p :: tail out ->
      exists l, kept = [] /\ l.*2 = p :: ws /\ mjoin out = framed role l /\ Forall (fun x => length x.1 = 4%nat) l) as Hrec.
    { intros f Ef Eout. rewrite Eout. destruct (IH _ _ _ Ef) as (l & -> & <- & Hj & Hl). exists ((masks i, p) :: l).
      split; [done|]. split; [done|]. split; [|constructor; [apply Hm|done]].
      change (frame_out role (masks i) p ++ mjoin (tail out) = frame_out role (masks i) p ++ framed role l). by rewrite Hj. }
    destruct fails as [[[|k] s]|]; [done|..];
      destruct (drain_writes role masks _ (S i) ws) as [[out' kept'] threw] eqn:E; intros [= <- <- ->]; exact (Hrec _ E eq_refl).
Qed.

Lemma df_read_role (df df' : Deframer) (b : bytes) (fs : list bytes) : df_read df b = (fs, df') -> df_role df' = df_role df.
Proof.
  destruct b; [by intros [= _ <-]|]. cbn [df_read]. unfold deliver_ready, df_feed.
  destruct (df_role df) eqn:E; cbn [df_role df_dec df_wsp];
    [destruct (pop_all _) as [[??]?]|destruct (WebSocket.pop_all _) as [[??]?]..]; by intros [= _ <-].
Qed.

Lemma sending_turn (a : bytes) (ps : list bytes) (sent : bytes) (t : Turn) (g : bool) (w w' : Worker) (out fs : list bytes) :
  sending a ps sent w -> (forall i, length (tn_masks t i) = 4%nat) -> run_turn t g w = (w', out, fs) ->
  sending a ps (sent ++ mjoin out) w'.
Proof.
  intros Hw Hm. unfold run_turn. destruct Hw as [stop host port o peer| stop ws label df l hello Hps Hsent Hl Hop|]; cbn [w_phase].
  - intros [= <- <- <-]. cbn. rewrite app_nil_r. by constructor.
  - cbn [w_stop writes]. destruct (stop || g); [intros [= <- <- <-]; constructor|].
    destruct (drain_writes _ _ _ _ _) as [[out' kept] [|]] eqn:E; [intros [= <- <- <-]; constructor|].
    destruct (tn_read t) as [b|]; [|intros [= <- <- <-]; constructor].
    destruct (df_read df b) as [fs' df'] eqn:Er. intros [= <- <- <-].
    destruct (drain_writes_ok _ _ _ _ _ _ _ E Hm) as (l' & -> & <- & Hj & Hl'). apply df_read_role in Er.
    eapply (sending_run _ _ _ _ _ _ _ (l ++ l') hello); rewrite ?Er; [|..|done].
    + by rewrite Hps, app_nil_r, fmap_app.
    + by rewrite Hsent, Hj, framed_app, app_assoc.
    + by apply Forall_app.
  - intros [= <- <- <-]. constructor.
Qed.

Lemma sending_dialled (a : bytes) (ps : list bytes) (d : Dial) (host : bytes) (port : Z) (o : PeerDialerOptions) (peer : PeerInfo)
    (stop : bool) (w' : Worker) (out fs : list bytes) :
  parse_wss_addr a = Some (host, port) -> opts_ok a o -> dl_key_raw d <> [] ->
  dial d host port o peer (mkWorker stop ps (Dialing host port o peer)) = (w', out, fs) ->
  sending a ps (mjoin out) w'.
Proof.
  intros Hp Ho Hk. unfold dial. destruct (dl_handshake d) as [presented|]; [|intros [= <- <- <-]; constructor].
  destruct (negb (pin_ok _ _)); [intros [= <- <- <-]; constructor|]. destruct (wss o) eqn:Hw.
  - unfold ws_client_upgrade.
    pose proof (open_ws _ _ (dl_key_raw d) (Ho _ _ Hp Hw) Hk) as Hop.
    destruct (WebSocket.build_client_upgrade_request _ _ _ _ _) as [req key]. cbn [fst] in Hop.
    destruct (negb (dl_request_sent d)); [intros [= <- <- <-]; constructor|].
    destruct (client_upgrade_loop _ _) as [[pre rest]|]; [|intros [= <- <- <-]; constructor].
    unfold begin_loop. destruct (df_read (new_deframer kDialer) pre) as [fs' df] eqn:Er. apply df_read_role in Er. cbn in Er.
    intros [= <- <- <-]. apply (sending_run _ _ _ _ _ _ _ [] req); rewrite ?Er; [done|reflexivity|constructor|done].
  - unfold begin_loop. cbn [df_read]. intros [= <- <- <-]. eapply (sending_run _ _ _ _ _ _ _ [] []); [done..|constructor].
Qed.

Lemma sending_enqueue (a : bytes) (ps : list bytes) (sent b : bytes) (w : Worker) :
  sending a ps sent w -> sending a (ps ++ [b]) sent (enqueue b w).
Proof.
  intros [stop host port o peer| stop ws label df l hello Hps Hsent Hl Hop|]; unfold enqueue; cbn [w_stop writes w_phase].
  - by constructor.
  - apply (sending_run _ _ _ _ _ _ _ l hello); [|done..]. by rewrite Hps, <- app_assoc.
  - constructor.
Qed.

Lemma sent_on_step (a a' : bytes) (n : PeerNet) (label : PeerInfo) (out fs : list bytes) :
  sent_on (OutConn a) ((Sent (OutConn a') <$> out) ++ delivered n (OutConn a') label fs) = if decide (a' = a) then mjoin out else [].
Proof.
  rewrite sent_on_app, sent_on_sent, sent_on_delivered, app_nil_r.
  destruct (decide (a' = a)) as [->|Hne]; [by rewrite decide_True|]. rewrite decide_False by congruence. done.
Qed.

Lemma sent_on_in (a : bytes) (i : nat) (n : PeerNet) (label : PeerInfo) (out fs : list bytes) :
  sent_on (OutConn a) ((Sent (InConn i) <$> out) ++ delivered n (InConn i) label fs) = [].
Proof. by rewrite sent_on_app, sent_on_sent, sent_on_delivered, decide_False. Qed.

(** A step on the worker of some address. *)
Lemma sender_out_step (a a' : bytes) (f : Worker -> Worker * list bytes * list bytes) (label : PeerInfo) (w : Worker) (n : PeerNet)
    (ps : list bytes) (sent : bytes) :
  sender a n ps sent -> out_conns n !! a' = Some w ->
  (a' = a -> sending a ps sent w -> forall w' out fs, f w = (w', out, fs) -> sending a ps (sent ++ mjoin out) w') ->
  sender a (out_step a' f label w n).1 ps (sent ++ sent_on (OutConn a) (out_step a' f label w n).2).
Proof.
  intros [Ho Hs] Hw Hf. unfold out_step. destruct (f w) as [[w' out] fs] eqn:E. cbn [fst snd].
  rewrite sent_on_step. split; [done|]. cbn [out_conns with_out].
  destruct (decide (a' = a)) as [->|Hne].
  - rewrite lookup_insert_eq. rewrite Hw in Hs. eapply Hf; done.
  - rewrite lookup_insert_ne, app_nil_r by done. done.
Qed.

Lemma sender_in_step (a : bytes) (i : nat) (f : Worker -> Worker * list bytes * list bytes) (label : PeerInfo) (w : Worker) (n : PeerNet)
    (ps : list bytes) (sent : bytes) :
  sender a n ps sent -> sender a (in_step i f label w n).1 ps (sent ++ sent_on (OutConn a) (in_step i f label w n).2).
Proof.
  intros Hs. unfold in_step. destruct (f w) as [[w' out] fs]. cbn [fst snd]. by rewrite sent_on_in, app_nil_r.
Qed.

Lemma sender_step (a : bytes) (e : Event) (n : PeerNet) (ps : list bytes) (sent : bytes) :
  sender a n ps sent -> is_Some (parse_wss_addr a) -> event_ok a e ->
  sender a (step e n).1 (ps ++ payload a e) (sent ++ sent_on (OutConn a) (step e n).2).
Proof.
  intros Hs [[host port] Hp] He. destruct e as [peer b|a' d|cert|i reads ok|[a'|i] t|o| |]; cbn [step payload event_ok] in *;
    try rewrite (app_nil_r ps).
  - unfold send. destruct Hs as [Ho Hs]. destruct (decide (addr peer = a)) as [<-|Hne].
    + rewrite Hp. cbn [fst snd]. split; [done|]. cbn [out_conns with_out]. rewrite lookup_insert_eq. cbn. rewrite app_nil_r.
      apply sending_enqueue. destruct (out_conns n !! addr peer); [done|]. destruct Hs as [-> ->]. by constructor.
    + rewrite (app_nil_r ps). destruct (parse_wss_addr (addr peer)) as [[h p]|]; cbn [fst snd]; (split; [done|]); cbn; rewrite app_nil_r.
      * by rewrite lookup_insert_ne.
      * done.
  - destruct (out_conns n !! a') as [w|] eqn:Hw; [|by cbn; rewrite app_nil_r].
    destruct (w_phase w) as [h p o peer| | |] eqn:Hph; try (by cbn; rewrite app_nil_r).
    apply sender_out_step; [done..|]. intros -> Hsw w' out fs E.
    destruct Hsw as [stop h' p' o' peer' -> Hp' Ho'| |]; cbn in Hph; simplify_eq. by eapply sending_dialled.
  - cbn. by rewrite app_nil_r.
  - destruct (in_conns n !! i) as [w|]; [|by cbn; rewrite app_nil_r].
    destruct (w_phase w); try (by cbn; rewrite app_nil_r). by apply sender_in_step.
  - destruct (out_conns n !! a') as [w|] eqn:Hw; [|by cbn; rewrite app_nil_r].
    apply sender_out_step; [done..|]. intros -> Hsw w' out fs E. eapply sending_turn; [done|by apply He|done].
  - destruct (in_conns n !! i) as [w|]; [|by cbn; rewrite app_nil_r]. by apply sender_in_step.
  - cbn. rewrite app_nil_r. destruct Hs. by split.
  - cbn. rewrite app_nil_r. by destruct Hs.
  - done.
Qed.

Lemma sender_run (a : bytes) (es : list Event) (n : PeerNet) (ps : list bytes) (sent : bytes) :
  sender a n ps sent -> is_Some (parse_wss_addr a) -> Forall (event_ok a) es ->
  sender a (run es n).1 (ps ++ payloads a es) (sent ++ sent_on (OutConn a) (run es n).2).
Proof.
  intros Hs Hp Hes. revert n ps sent Hs. induction Hes as [|e es He Hes IH]; intros n ps sent Hs; cbn [run].
  - cbn. by rewrite !app_nil_r.
  - pose proof (sender_step a e n ps sent Hs Hp He) as Hs1. destruct (step e n) as [n1 o1]. cbn [fst snd] in Hs1.
    specialize (IH _ _ _ Hs1). destruct (run es n1) as [n2 o2]. cbn [fst snd] in *.
    change (payloads a (e :: es)) with (payload a e ++ payloads a es). by rewrite sent_on_app, !app_assoc.
Qed.

(** ** Finding the end of the request in what has arrived so far *)

Lemma prefix_by_app (eqb : byte -> byte -> bool) (needle hay more : bytes) :
  (length needle <= length hay)%nat -> WebSocket.prefix_by eqb needle (hay ++ more) = WebSocket.prefix_by eqb needle hay.
Proof.
  revert hay. induction needle as [|c needle IH]; intros [|x hay] Hl; cbn in Hl |- *; try done; [lia|].
  by rewrite IH by lia.
Qed.

Lemma prefix_by_length (eqb : byte -> byte -> bool) (needle hay : bytes) :
  WebSocket.prefix_by eqb needle hay = true -> (length needle <= length hay)%nat.
Proof.
  revert hay. induction needle as [|c needle IH]; intros [|x hay]; cbn; try done; [lia..|].
  intros [_ Hp]%andb_prop. apply IH in Hp. lia.
Qed.

Lemma search_length (eqb : byte -> byte -> bool) (hay needle : bytes) (i : nat) :
  WebSocket.search eqb hay needle = Some i -> (i + length needle <= length hay)%nat.
Proof.
  revert i. induction hay as [|x hay IH]; intros i.
  - cbn. destruct (WebSocket.prefix_by eqb needle []) eqn:E; [|done]. intros [= <-]. by apply prefix_by_length in E.
  - rewrite search_cons. destruct (WebSocket.prefix_by eqb needle (x :: hay)) eqn:E.
    + intros [= <-]. by apply prefix_by_length in E.
    + intros (j & Hj & ->)%fmap_Some. specialize (IH j Hj). cbn. lia.
Qed.

Lemma search_app (eqb : byte -> byte -> bool) (hay more needle : bytes) (i : nat) :
  WebSocket.search eqb hay needle = Some i -> WebSocket.search eqb (hay ++ more) needle = Some i.
Proof.
  revert i. induction hay as [|x hay IH]; intros i Hs; pose proof (search_length _ _ _ _ Hs) as Hl.
  - cbn in Hl. destruct needle; [|cbn in Hl; lia]. cbn in Hs |- *. simplify_eq. by destruct more.
  - rewrite search_cons in Hs. cbn [app]. rewrite search_cons.
    change (x :: hay ++ more) with ((x :: hay) ++ more). rewrite prefix_by_app by lia.
    destruct (WebSocket.prefix_by eqb needle (x :: hay)); [done|].
    apply fmap_Some in Hs as (j & Hj & ->). by rewrite (IH j).
Qed.

Lemma hs_feed_buf (hp hp' : WebSocket.HandshakeParser) (c : bytes) (st : WebSocket.HsStatus) :
  WebSocket.hs_feed hp c = (st, hp') -> WebSocket.hs_buf hp' = WebSocket.hs_buf hp ++ c /\
  (st = WebSocket.HsAccepted -> exists it,
     WebSocket.search WebSocket.byte_eqb (WebSocket.hs_buf hp ++ c) WebSocket.terminator = Some it /\ WebSocket.headers_end_ hp' = (it + 4)%nat).
Proof.
  unfold WebSocket.hs_feed. destruct (WebSocket.search _ _ _) as [it|]; repeat case_match; intros [= <- <-]; (split; [done|]); eauto; done.
Qed.

(** The parser keeps everything it was fed, and cuts after the first empty line. *)
Lemma accept_loop_buf (reads : list bytes) (st : WebSocket.HsStatus) (hp0 hp hp' : WebSocket.HandshakeParser) (c : bytes) :
  WebSocket.hs_feed hp0 c = (st, hp) -> accept_loop st hp reads = Some (hp', []) ->
  exists it, let b := WebSocket.hs_buf hp0 ++ c ++ mjoin reads in
    WebSocket.hs_buf hp' = b /\ WebSocket.headers_end_ hp' = (it + 4)%nat /\
    WebSocket.search WebSocket.byte_eqb b WebSocket.terminator = Some it.
Proof.
  revert st hp0 hp c. induction reads as [|b reads IH]; intros st hp0 hp c Hf; destruct (hs_feed_buf _ _ _ _ Hf) as [Hb Ha];
    destruct st; cbn [accept_loop]; try done.
  - intros [= <-]. destruct (Ha eq_refl) as (it & Hs & He). exists it. cbn. by rewrite app_nil_r.
  - destruct b as [|x b]; [done|]. destruct (WebSocket.hs_feed hp (x :: b)) as [st hp1] eqn:E. intros Hl.
    destruct (IH _ _ _ _ E Hl) as (it & Hb' & He & Hs). exists it. rewrite Hb, <- app_assoc in Hb', Hs. done.
Qed.

(** ** The receiving end *)

Lemma detect_raw (reads : list bytes) (l : list (bytes * bytes)) (rest : bytes) (det : WsDetect) :
  Forall (fun x => payload_ok x.2) l -> mjoin reads ++ rest = framed kNone l -> (ws_detect_and_accept reads).2 = Some (det, []) ->
  wd_role det = kNone /\ prebuffer det = mjoin reads.
Proof.
  intros Hl Hr. unfold ws_detect_and_accept.
  destruct reads as [|[|x first] reads]; [by intros [= <-]|by intros [= <- ->]|].
  assert (x = Byte.x00) as ->.
  { destruct l as [|[m p] l]; [done|]. apply Forall_cons in Hl as [Hp _]. cbn [snd] in Hp. injection Hr as -> _.
    unfold payload_ok, kMaxFrameBytes in Hp. apply b2z_inj. rewrite b2z_z2b, land_255.
    rewrite u32_small by (unfold is_u32, u32_max; lia). rewrite Z.shiftr_div_pow2, Z.div_small by lia. done. }
  unfold looks_http. rewrite bool_decide_false by done. cbn [negb snd]. intros [= <- ->]. split; [done|].
  cbn [prebuffer]. change ((Byte.x00 :: first) = (Byte.x00 :: first) ++ []). by rewrite app_nil_r.
Qed.

Lemma detect_ws (reads : list bytes) (req rest more : bytes) (it : nat) (det : WsDetect) :
  (forall b, WebSocket.search WebSocket.byte_eqb (req ++ b) WebSocket.terminator = Some it) -> (it + 4)%nat = length req ->
  (4 <= length (default [] (head reads)))%nat -> take 4 req = str "GET " ->
  mjoin reads ++ rest = req ++ more -> (ws_detect_and_accept reads).2 = Some (det, []) ->
  wd_role det = kAcceptor /\ prebuffer det ++ rest = more.
Proof.
  intros Hs Hit H4 Hget Hr. unfold ws_detect_and_accept.
  destruct reads as [|[|x first] reads]; [cbn in H4; lia..|]. set (c := x :: first) in *. cbn [head default] in H4.
  assert (take 4 c = str "GET ") as Hg.
  { rewrite <- Hget. change (mjoin (c :: reads)) with (c ++ mjoin reads) in Hr. rewrite <- app_assoc in Hr.
    apply (f_equal (take 4)) in Hr. rewrite !take_app_le in Hr by (cbn in H4 |- *; lia). done. }
  unfold looks_http. rewrite bool_decide_true by done. cbn [negb].
  destruct (WebSocket.hs_feed WebSocket.new_handshake c) as [st hp] eqn:Ef. destruct (accept_loop st hp reads) as [[hp' left]|] eqn:El; [|done].
  cbn [snd]. intros [= <- ->]. split; [done|]. destruct (accept_loop_buf _ _ _ _ _ _ Ef El) as (it' & Hb & He & Hsr).
  cbn [WebSocket.new_handshake WebSocket.hs_buf app] in *. change (c ++ mjoin reads) with (mjoin (c :: reads)) in *.
  pose proof (search_length _ _ _ _ Hsr) as Hlen. change (length WebSocket.terminator) with 4%nat in Hlen.
  apply (search_app _ _ rest) in Hsr. rewrite Hr, Hs in Hsr. injection Hsr as <-. cbn [prebuffer]. unfold WebSocket.hs_trailing.
  rewrite He, Hb, Hit. apply (f_equal (drop (length req))) in Hr. rewrite drop_app_length in Hr.
  rewrite drop_app_le in Hr by lia. done.
Qed.

Lemma request_end (h : bytes) (port : Z) (key_raw : bytes) (req : bytes) :
  plain_host h port -> req = (WebSocket.build_client_upgrade_request h port (str "/") default_upgrade key_raw).1 ->
  exists it, (it + 4)%nat = length req /\ take 4 req = str "GET " /\
    forall b, WebSocket.search WebSocket.byte_eqb (req ++ b) WebSocket.terminator = Some it.
Proof.
  intros [Hh Ho] ->. rewrite request_unlines. cbn [fst].
  set (ls := request_lines h port (str "/") default_upgrade (WebSocket.to_base64 key_raw)).
  assert (exists tail, unlines ls = str "GET " ++ tail) as [tl Htl].
  { unfold ls, request_lines, upgrade_pre. cbn [app]. rewrite unlines_cons. unfold get_line. rewrite <- !app_assoc. eauto. }
  exists (length (unlines ls) - 2)%nat. split; [rewrite length_app, Htl, length_app; cbn; lia|].
  split; [rewrite Htl; done|].
  intros b. rewrite <- app_assoc. apply search_terminator; [done|].
  apply request_block; [by_computing|done|by_computing|done|apply base64_chars].
Qed.

(** Events that leave an accepted connection alone, and those after its detection. *)
Definition quiet (i : nat) (e : Event) : Prop :=
  match e with
  | EDetect j _ _ | ETurn (InConn j) _ => j <> i
  | EShutdown => False
  | _ => True
  end.
Definition turning (i : nat) (e : Event) : Prop :=
  match e with
  | ETurn (InConn j) t => j = i -> is_Some (tn_read t)
  | EShutdown => False
  | _ => True
  end.

(** What the connection read. *)
Definition turn_read (i : nat) (e : Event) : list bytes :=
  match e with
  | ETurn (InConn j) t => if decide (j = i) then option_list (tn_read t) else []
  | _ => []
  end.
Definition turn_reads (i : nat) (es : list Event) : list bytes := es ≫= turn_read i.

Definition in_state (i : nat) (n : PeerNet) (w : Worker) : Prop :=
  on_msg n = true /\ global_stop n = false /\ in_conns n !! i = Some w.

Lemma got_on_in_step (i j : nat) (f : Worker -> Worker * list bytes * list bytes) (label : PeerInfo) (w0 w w' : Worker) (n : PeerNet)
    (out fs : list bytes) :
  in_state i n w0 -> in_conns n !! j = Some w -> f w = (w', out, fs) ->
  in_state i (in_step j f label w n).1 (if decide (j = i) then w' else w0) /\
  got_on (InConn i) (in_step j f label w n).2 = if decide (j = i) then pair label <$> fs else [].
Proof.
  intros (Hm & Hg & Hi) Hj Hf. unfold in_step. rewrite Hf. cbn [fst snd].
  rewrite got_on_app, got_on_sent, got_on_delivered, app_nil_l by done. pose proof (lookup_lt_Some _ _ _ Hj).
  destruct (decide (j = i)) as [->|Hne].
  - rewrite decide_True by done. split; [|done]. split; [done|]. split; [done|]. by apply list_lookup_insert_eq.
  - rewrite decide_False by congruence. split; [|done]. split; [done|]. split; [done|]. cbn. by rewrite list_lookup_insert_ne.
Qed.

Lemma got_on_out_step (i : nat) (a : bytes) (f : Worker -> Worker * list bytes * list bytes) (label : PeerInfo) (w0 w : Worker) (n : PeerNet) :
  in_state i n w0 -> in_state i (out_step a f label w n).1 w0 /\ got_on (InConn i) (out_step a f label w n).2 = [].
Proof.
  intros (Hm & Hg & Hi). unfold out_step. destruct (f w) as [[w' out] fs]. cbn [fst snd].
  by rewrite got_on_app, got_on_sent, got_on_delivered, decide_False by done.
Qed.

Lemma quiet_step (i : nat) (e : Event) (n : PeerNet) (w : Worker) :
  quiet i e -> in_state i n w -> in_state i (step e n).1 w /\ got_on (InConn i) (step e n).2 = [].
Proof.
  intros He Hi. pose proof Hi as (Hm & Hg & Hl).
  destruct e as [peer b|a' d|cert|j reads ok|[a'|j] t|o| |]; cbn [step quiet] in *; try done.
  - unfold send. by destruct (parse_wss_addr (addr peer)) as [[??]|].
  - destruct (out_conns n !! a') as [w'|]; [|done]. destruct (w_phase w'); try done. by apply got_on_out_step.
  - split; [|done]. split; [done|]. split; [done|]. cbn. by apply lookup_app_l_Some.
  - destruct (in_conns n !! j) as [w'|] eqn:Hj; [|done]. destruct (w_phase w'); try done.
    destruct (accept_conn reads ok from w') as [[w1 out] fs] eqn:E.
    destruct (got_on_in_step i j _ from w w' w1 n out fs Hi Hj E) as [Hs1 Hg1]. rewrite decide_False in Hs1 by done; rewrite decide_False in Hg1 by done. done.
  - destruct (out_conns n !! a') as [w'|]; [|done]. by apply got_on_out_step.
  - destruct (in_conns n !! j) as [w'|] eqn:Hj; [|done].
    destruct (run_turn t (global_stop n) w') as [[w1 out] fs] eqn:E.
    destruct (got_on_in_step i j _ (label_of w') w w' w1 n out fs Hi Hj E) as [Hs1 Hg1]. rewrite decide_False in Hs1 by done; rewrite decide_False in Hg1 by done. done.
Qed.

Lemma quiet_run (i : nat) (es : list Event) (n : PeerNet) (w : Worker) :
  Forall (quiet i) es -> in_state i n w -> in_state i (run es n).1 w /\ got_on (InConn i) (run es n).2 = [].
Proof.
  intros Hes. revert n. induction Hes as [|e es He _ IH]; intros n Hi; cbn [run]; [done|].
  destruct (quiet_step i e n w He Hi) as [Hi1 Hg1]. destruct (step e n) as [n1 o1]. cbn [fst snd] in *.
  destruct (IH _ Hi1) as [Hi2 Hg2]. destruct (run es n1) as [n2 o2]. cbn [fst snd] in *. by rewrite got_on_app, Hg1, Hg2.
Qed.

(** A connection that runs reads what its turns read; nothing is queued on it. *)
Lemma turning_step (i : nat) (e : Event) (n : PeerNet) (label : PeerInfo) (df : Deframer) :
  turning i e -> in_state i n (mkWorker false [] (Running label df)) ->
  let r := df_session df (turn_read i e) in
  in_state i (step e n).1 (mkWorker false [] (Running label r.2)) /\ got_on (InConn i) (step e n).2 = pair label <$> r.1.
Proof.
  intros He Hi. pose proof Hi as (Hm & Hg & Hl).
  assert (quiet i e -> turn_read i e = []) as Hread.
  { destruct e as [| | | |[|j] t| | |]; try done. cbn. intros. by rewrite decide_False. }
  assert (quiet i e -> let r := df_session df (turn_read i e) in
    in_state i (step e n).1 (mkWorker false [] (Running label r.2)) /\ got_on (InConn i) (step e n).2 = pair label <$> r.1) as Hq.
  { intros Hqu. rewrite Hread by done. by apply quiet_step. }
  destruct e as [peer b|a' d|cert|j reads ok|[a'|j] t|o| |]; try (by apply Hq).
  - destruct (decide (j = i)) as [->|Hne]; [|by apply Hq]. cbn [step]. by rewrite Hl.
  - destruct (decide (j = i)) as [->|Hne]; [|by apply Hq]. clear Hq Hread. destruct (He eq_refl) as [b Hb].
    cbn [step turn_read]. rewrite Hl, decide_True, Hb by done. change (option_list (Some b)) with [b].
    destruct (df_read df b) as [fs df'] eqn:Er.
    assert (df_session df [b] = (fs, df')) as -> by (cbn [df_session]; rewrite Er; by rewrite app_nil_r).
    assert (run_turn t (global_stop n) (mkWorker false [] (Running label df)) = (mkWorker false [] (Running label df'), [], fs)) as E.
    { unfold run_turn. cbn. by rewrite Hg, Hb, Er. }
    destruct (got_on_in_step i i _ label _ _ _ n [] fs Hi Hl E) as [Hs1 Hg1]. rewrite decide_True in Hs1 by done; rewrite decide_True in Hg1 by done.
    done.
Qed.

Lemma df_session_app (c1 c2 : list bytes) (d : Deframer) :
  df_session d (c1 ++ c2) = let '(f1, d1) := df_session d c1 in let '(f2, d2) := df_session d1 c2 in (f1 ++ f2, d2).
Proof.
  revert d. induction c1 as [|c c1 IH]; intros d; cbn [app df_session].
  - by destruct (df_session d c2).
  - destruct (df_read d c) as [f d1]. rewrite IH. destruct (df_session d1 c1) as [f1 d2]. destruct (df_session d2 c2) as [f2 d3].
    by rewrite app_assoc.
Qed.

Lemma turning_run (i : nat) (es : list Event) (n : PeerNet) (label : PeerInfo) (df : Deframer) :
  Forall (turning i) es -> in_state i n (mkWorker false [] (Running label df)) ->
  got_on (InConn i) (run es n).2 = pair label <$> (df_session df (turn_reads i es)).1.
Proof.
  intros Hes. revert n df. induction Hes as [|e es He _ IH]; intros n df Hi; cbn [run]; [done|].
  destruct (turning_step i e n label df He Hi) as [Hi1 Hg1]. destruct (step e n) as [n1 o1]. cbn [fst snd] in *.
  specialize (IH _ _ Hi1). destruct (run es n1) as [n2 o2]. cbn [fst snd] in *.
  change (turn_reads i (e :: es)) with (turn_read i e ++ turn_reads i es). rewrite got_on_app, Hg1, IH, df_session_app.
  destruct (df_session df (turn_read i e)) as [f1 d1]. cbn [fst snd]. destruct (df_session d1 _) as [f2 d2]. cbn [fst snd]. by rewrite fmap_app.
Qed.

(** An accepted connection whose detection found a role and some bytes delivers what
    the deframer of that role finds in them and in the reads that follow. *)
Lemma accepted_delivers (i : nat) (es1 es2 : list Event) (n : PeerNet) (from : PeerInfo) (reads : list bytes) (det : WsDetect) :
  in_state i n (mkWorker false [] (Accepting from)) -> Forall (quiet i) es1 -> Forall (turning i) es2 ->
  (ws_detect_and_accept reads).2 = Some (det, []) ->
  got_on (InConn i) (run (es1 ++ EDetect i reads true :: es2) n).2 =
  pair from <$> (df_session (new_deframer (wd_role det)) (prebuffer det :: turn_reads i es2)).1.
Proof.
  intros Hi Hq1 Hq2 Hd. revert n Hi. induction Hq1 as [|e es1 He _ IH]; intros n Hi.
  - cbn [app run step]. pose proof Hi as (Hm & Hg & Hl). rewrite Hl. cbn [w_phase].
    destruct (df_read (new_deframer (wd_role det)) (prebuffer det)) as [fs df] eqn:Er.
    assert (exists out, accept_conn reads true from (mkWorker false [] (Accepting from)) = (mkWorker false [] (Running from df), out, fs)) as [out E].
    { unfold accept_conn. destruct (ws_detect_and_accept reads) as [resp v]. cbn in Hd. subst v.
      unfold begin_loop. rewrite Er. destruct (wd_role det); cbn; eauto. }
    destruct (got_on_in_step i i _ from _ _ _ n out fs Hi Hl E) as [Hs1 Hg1]. rewrite decide_True in Hs1 by done; rewrite decide_True in Hg1 by done.
    destruct (in_step i _ from _ n) as [n1 o1]. cbn [fst snd] in *. pose proof (turning_run i es2 n1 from df Hq2 Hs1) as Ht.
    destruct (run es2 n1) as [n2 o2]. cbn [fst snd df_session] in *. rewrite got_on_app, Hg1, Ht, Er.
    destruct (df_session df _) as [f2 d2]. cbn [fst snd]. by rewrite fmap_app.
  - cbn [app run]. destruct (quiet_step i e n _ He Hi) as [Hi1 Hg1]. destruct (step e n) as [n1 o1]. cbn [fst snd] in *.
    specialize (IH _ Hi1). destruct (run _ n1) as [n2 o2]. cbn [fst snd] in *. by rewrite got_on_app, Hg1, IH.
Qed.

(** C10: A link between two peers.  One net is given messages for an address, dials it
    and runs the connection, raw or as a WebSocket; the other accepts and detects
    which of the two it is.  If the bytes the acceptor has read, in whatever pieces,
    are the bytes that were sent, and the first piece of a WebSocket link has at least
    4 bytes (a shorter one is taken for a raw link, [short_read_taken_raw]), then it delivers to its callback, under the peer
    that TLS attested, exactly the messages that have left the dialer's queue, in
    order; the rest is still queued.  Other connections and events may interleave. *)
Theorem peer_link_delivers (a : bytes) (es fs1 fs2 : list Event) (n m : PeerNet) (i : nat) (from label : PeerInfo)
    (reads : list bytes) (det : WsDetect) (w : Worker) (df : Deframer) :
  is_Some (parse_wss_addr a) -> opts_ok a (dialer_opts n) -> out_conns n !! a = None ->
  Forall (event_ok a) es -> Forall payload_ok (payloads a es) ->
  out_conns (run es n).1 !! a = Some w -> w_phase w = Running label df ->
  on_msg m = true -> global_stop m = false -> in_conns m !! i = Some (mkWorker false [] (Accepting from)) ->
  Forall (quiet i) fs1 -> Forall (turning i) fs2 ->
  (ws_detect_and_accept reads).2 = Some (det, []) -> (df_role df = kDialer -> 4 <= length (default [] (head reads)))%nat ->
  mjoin (reads ++ turn_reads i fs2) = sent_on (OutConn a) (run es n).2 ->
  exists qs, payloads a es = qs ++ writes w /\
    got_on (InConn i) (run (fs1 ++ EDetect i reads true :: fs2) m).2 = pair from <$> qs.
Proof.
  intros Hp Ho Hn Hes Hpay Hw Hph Hm Hg Hi Hf1 Hf2 Hd H4 Hbytes.
  assert (sender a n [] []) as Hs by (split; [done|]; by rewrite Hn).
  apply (sender_run a es) in Hs as [_ Hs]; [|done..]. rewrite Hw, !app_nil_l in Hs.
  destruct Hs as [|stop ws label' df' l hello Hps Hsent Hl Hop|]; cbn in Hph; simplify_eq. exists l.*2. split; [done|].
  rewrite (accepted_delivers i fs1 fs2 m from reads det) by (done || by split).
  rewrite Hps in Hpay. apply Forall_app in Hpay as [Hpay _]. apply (proj1 (Forall_fmap _ _ _)) in Hpay.
  assert (Forall (fun '(m, p) => length m = 4%nat /\ payload_ok p) l) as Hall.
  { apply Forall_forall. intros [mk p] Hx. rewrite Forall_forall in Hl, Hpay. split; [apply (Hl _ Hx)|apply (Hpay _ Hx)]. }
  rewrite join_app in Hbytes. f_equal.
  assert (wd_role det = facing (df_role df) /\ prebuffer det ++ mjoin (turn_reads i fs2) = framed (df_role df) l) as [-> Hpre].
  { rewrite Hsent in Hbytes. destruct Hop as [|h port key_raw Hh Hk].
    - destruct (detect_raw _ _ _ _ Hpay Hbytes Hd) as [-> ->]. done.
    - destruct (request_end h port key_raw _ Hh eq_refl) as (it & Hit & Hget & Hsr).
      by destruct (detect_ws _ _ _ _ it det Hsr Hit (H4 eq_refl) Hget Hbytes Hd) as [-> ->]. }
  by apply deframed.
Qed.
End link.

(** ** Where the parsing falls short *)

Section short.
Context `{!WebSocket.Base64, !Sha256}.

(** An upgrade request whose first read has fewer than 4 bytes is taken for a raw link,
    whatever follows. *)
Lemma short_read_taken_raw (first : bytes) (reads : list bytes) :
  (0 < length first < 4)%nat -> ws_detect_and_accept (first :: reads) = ([], Some (mkWsDetect kNone first, reads)).
Proof.
  intros Hl. unfold ws_detect_and_accept. destruct first as [|a first]; [cbn [length] in Hl; lia|].
  unfold looks_http. rewrite bool_decide_eq_false_2; [done|]. intros E. apply (f_equal length) in E.
  rewrite length_take in E. change (length (str "GET ")) with 4%nat in E. lia.
Qed.

(** A port past the range of [int] wraps to another one. *)
Lemma port_wraps : parse_wss_addr (str "wss://peer.example:4294967739") = Some (str "peer.example", 443).
Proof. vm_compute. reflexivity. Qed.
End short.

(** ** Connections that are lost *)

Section lost.
Context `{!WebSocket.Base64, !Sha256}.

(** The dial fails, or the connection breaks while it is read. *)
Definition loses (a : bytes) (e : Event) (w : Worker) : Prop :=
  match e, w_phase w with
  | EDial a' d, Dialing _ _ _ _ => a' = a /\ dl_handshake d = None
  | ETurn (OutConn a') t, Running _ _ => a' = a /\ tn_read t = None
  | _, _ => False
  end.

Definition swallowed (a : bytes) (n : PeerNet) (queue : list bytes) : Prop :=
  exists stop, out_conns n !! a = Some (mkWorker stop queue Ended).

Lemma swallowed_step (a : bytes) (e : Event) (n : PeerNet) (queue : list bytes) :
  swallowed a n queue -> e <> EShutdown -> is_Some (parse_wss_addr a) ->
  swallowed a (step e n).1 (queue ++ payload a e) /\ sent_on (OutConn a) (step e n).2 = [].
Proof.
  intros [stop Hw] He [[host port] Hp].
  assert (forall a' f label w', out_conns n !! a' = Some w' -> a' <> a ->
    swallowed a (out_step a' f label w' n).1 queue /\ sent_on (OutConn a) (out_step a' f label w' n).2 = []) as Hout.
  { intros a' f label w' _ Hne. unfold out_step. destruct (f w') as [[w1 out] fs]. cbn [fst snd].
    rewrite sent_on_step, decide_False by done. split; [|done]. exists stop. cbn. by rewrite lookup_insert_ne. }
  assert (forall i f label w', swallowed a (in_step i f label w' n).1 queue /\ sent_on (OutConn a) (in_step i f label w' n).2 = []) as Hin.
  { intros i f label w'. unfold in_step. destruct (f w') as [[w1 out] fs]. cbn [fst snd]. rewrite sent_on_in. split; [|done]. by exists stop. }
  destruct e as [peer b|a' d|cert|j reads ok|[a'|j] t|o| |]; cbn [step payload]; rewrite ?(app_nil_r queue); try done;
    try (split; [by exists stop|done]).
  - unfold send. destruct (decide (addr peer = a)) as [<-|Hne].
    + rewrite Hp, Hw. cbn [fst snd]. split; [|done]. exists stop. cbn. by rewrite lookup_insert_eq.
    + rewrite (app_nil_r queue). destruct (parse_wss_addr (addr peer)) as [[??]|]; (split; [|done]); exists stop; [|done].
      cbn. by rewrite lookup_insert_ne.
  - destruct (out_conns n !! a') as [w'|] eqn:Hw'; [|split; [by exists stop|done]]. destruct (decide (a' = a)) as [->|Hne].
    + rewrite Hw in Hw'. simplify_eq. cbn. split; [by exists stop|done].
    + destruct (w_phase w'); try (split; [by exists stop|done]). by apply Hout.
  - destruct (in_conns n !! j) as [w'|]; [|split; [by exists stop|done]]. destruct (w_phase w'); try (split; [by exists stop|done]). apply Hin.
  - destruct (out_conns n !! a') as [w'|] eqn:Hw'; [|split; [by exists stop|done]]. destruct (decide (a' = a)) as [->|Hne]; [|by apply Hout].
    rewrite Hw in Hw'. simplify_eq. unfold out_step, run_turn. cbn [w_phase fst snd]. split; [|by rewrite sent_on_step, decide_True].
    exists stop. cbn. by rewrite lookup_insert_eq.
  - destruct (in_conns n !! j) as [w'|]; [|split; [by exists stop|done]]. apply Hin.
Qed.

Lemma swallowed_run (a : bytes) (es : list Event) (n : PeerNet) (queue : list bytes) :
  swallowed a n queue -> EShutdown ∉ es -> is_Some (parse_wss_addr a) ->
  swallowed a (run es n).1 (queue ++ payloads a es) /\ sent_on (OutConn a) (run es n).2 = [].
Proof.
  intros Hs Hes Hp. revert n queue Hs. induction es as [|e es IH]; intros n queue Hs; cbn [run].
  - cbn. by rewrite app_nil_r.
  - apply not_elem_of_cons in Hes as [He Hes]. destruct (swallowed_step a e n queue Hs ltac:(by intros ->) Hp) as [Hs1 Ho1].
    destruct (step e n) as [n1 o1]. cbn [fst snd] in *. destruct (IH Hes _ _ Hs1) as [Hs2 Ho2].
    destruct (run es n1) as [n2 o2]. cbn [fst snd] in *. change (payloads a (e :: es)) with (payload a e ++ payloads a es).
    by rewrite app_assoc, sent_on_app, Ho1, Ho2.
Qed.

(** A peer that could not be reached once, or whose connection broke once, is
    never dialled again: whatever happens until the net is shut down, no byte goes
    out for its address, [send] keeps answering that the message was taken, and
    every message stays in the queue of the dead connection. *)
Theorem lost_peer_swallows (a : bytes) (e : Event) (es : list Event) (n : PeerNet) (w : Worker) :
  is_Some (parse_wss_addr a) -> out_conns n !! a = Some w -> loses a e w -> EShutdown ∉ es ->
  let n1 := (step e n).1 in let n2 := (run es n1).1 in
  sent_on (OutConn a) (run es n1).2 = [] /\
  (exists w1 w2, out_conns n1 !! a = Some w1 /\ out_conns n2 !! a = Some w2 /\ w_phase w2 = Ended /\
     writes w2 = writes w1 ++ payloads a es) /\
  (forall peer b, addr peer = a -> (send peer b n2).2 = [Returned true]).
Proof.
  intros Hp Hw Hl Hes n1 n2.
  assert (exists queue, swallowed a n1 queue) as [queue Hs1].
  { unfold n1, loses in *. destruct e as [|a' d| | |[a'|] t| | |]; try done; destruct (w_phase w) eqn:Hph; try done; destruct Hl as [-> Hl].
    - cbn [step]. rewrite Hw, Hph. unfold out_step, dial. rewrite Hl. exists (writes w), true. cbn. by rewrite lookup_insert_eq.
    - cbn [step]. rewrite Hw. unfold out_step, run_turn. rewrite Hph. destruct (w_stop w || global_stop n).
      + eexists _, _. cbn. by rewrite lookup_insert_eq.
      + destruct (drain_writes _ _ _ _ _) as [[out kept] [|]]; [|rewrite Hl]; eexists _, _; cbn; by rewrite lookup_insert_eq. }
  destruct (swallowed_run a es n1 queue Hs1 Hes Hp) as [[stop2 Hs2] Ho]. destruct Hs1 as [stop1 Hs1]. split; [done|]. split.
  - by eexists _, _.
  - intros peer b Ha. unfold send. rewrite Ha. by destruct Hp as [[host port] ->].
Qed.

(** The pool is keyed by the address alone: a message for a peer with another key at
    an address in use goes out on the connection that was pinned to the first. *)
Lemma pool_ignores_pin (peer label : PeerInfo) (b : bytes) (df : Deframer) (n : PeerNet) (t : Turn) :
  is_Some (parse_wss_addr (addr peer)) -> global_stop n = false -> tn_fails t = None ->
  out_conns n !! addr peer = Some (mkWorker false [] (Running label df)) ->
  sent_on (OutConn (addr peer)) (run [ESend peer b; ETurn (OutConn (addr peer)) t] n).2 = frame_out (df_role df) (tn_masks t 0%nat) b.
Proof.
  intros [[host port] Hp] Hg Ht Hw. cbn [run step]. unfold send. rewrite Hp, Hw. cbn [fst snd out_conns with_out].
  rewrite lookup_insert_eq. unfold out_step, run_turn. cbn [enqueue w_phase w_stop writes app global_stop with_out]. rewrite Hg, Ht. cbn [orb drain_writes].
  destruct (tn_read t) as [r|]; [destruct (df_read df r) as [fs df']|]; cbn [fst snd run];
    rewrite sent_on_returned, !sent_on_app, sent_on_sent, sent_on_delivered, decide_True by done; cbn; by rewrite !app_nil_r.
Qed.

(** After one malformed frame a connection stays open and delivers nothing more. *)
Lemma malformed_frame_mutes (b : bytes) (chunks : list bytes) (d d' : FrameDecoder) (p : WebSocket.FrameParser) (fs : list bytes) :
  pop_all (feed d b) = (fs, kError, d') -> (df_session (mkDeframer kNone d' p) chunks).1 = [].
Proof.
  intros E. assert (error_ d' = true) as He.
  { revert E. generalize (feed d b). intros d0. unfold pop_all. generalize (S (length (buf_ d0))). intros k. revert d0 fs.
    induction k as [|k IH]; intros d0 fs; cbn [pop_loop]; [done|]. pose proof (try_pop_sound d0) as Hs.
    destruct (try_pop d0) as [[|out|] d1]; [done| |by intros [= <- <-]; destruct Hs].
    destruct (pop_loop k d1) as [[fs1 st] d2] eqn:E1. intros [= <- -> ->]. by eapply IH. }
  induction chunks as [|c chunks IH]; [done|]. cbn [df_session].
  assert (df_read (mkDeframer kNone d' p) c = ([], mkDeframer kNone d' p)) as ->.
  { destruct c; [done|]. cbn [df_read]. unfold deliver_ready, df_feed. cbn [df_role df_dec df_wsp]. unfold feed. rewrite He.
    unfold pop_all. cbn [pop_loop]. unfold try_pop. by rewrite He. }
  by destruct (df_session (mkDeframer kNone d' p) chunks).
Qed.
End lost.

(** ** A link on concrete bytes

    The dialer speaks WebSocket; two messages go out and a third stays queued. *)

#[local] Instance w_sha : Sha256 := fun b => take 32 (b ++ replicate 32 Byte.x00).

Definition w_addr : bytes := str "wss://peer.example:4433".
Definition w_opts : PeerDialerOptions := mkPeerDialerOptions [] false [] [] true [] [] kChrome.
Definition w_peer : PeerInfo := mkPeerInfo [] w_addr (be_bytes 32 7).
Definition w_net : PeerNet := set_dialer w_opts new_net.

Definition w_key_raw : bytes := str "0123456789abcdef".
Definition w_upgrade : bytes * bytes := WebSocket.build_client_upgrade_request (str "peer.example") 4433 (str "/") default_upgrade w_key_raw.
Definition w_dial : Dial := mkDial (Some (Some (be_bytes 32 7))) w_key_raw true [WebSocket.build_101_response (WebSocket.compute_accept w_upgrade.2)].
Definition w_turn (read : option bytes) : Turn := mkTurn (fun i => be_bytes 4 (Z.of_nat i + 99)) None read.
Definition w_sends : list Event :=
  [ESend w_peer (str "first"); EDial w_addr w_dial; ESend w_peer (str "second"); ETurn (OutConn w_addr) (w_turn (Some [])); ESend w_peer (str "third")].

Definition w_stream : bytes := sent_on (OutConn w_addr) (run w_sends w_net).2.
Definition w_from : PeerInfo := attested (Some (be_bytes 32 9)).
Definition w_acceptor : PeerNet := mkPeerNet no_dialer true ∅ [mkWorker false [] (Accepting w_from)] false.
Definition w_cut : nat := (length w_upgrade.1 + 5)%nat.
Definition w_detect : list bytes := [take 50 w_stream; drop 50 (take w_cut w_stream)].
Definition w_rest : list Event := [ETurn (InConn 0) (w_turn (Some [])); ETurn (InConn 0) (w_turn (Some (drop w_cut w_stream)))].

Definition worker_at (a : bytes) (n : PeerNet) : Worker := default (mkWorker false [] Ended) (out_conns n !! a).
Definition w_worker : Worker := worker_at w_addr (run w_sends w_net).1.
Definition running_df (w : Worker) : Deframer := match w_phase w with Running _ df => df | _ => new_deframer kNone end.

(** Checked by the virtual machine. *)
Ltac by_vm_refl := match goal with |- ?a = _ => vm_cast_no_check (eq_refl a) end.

Lemma peer_link_delivers_witness :
  exists qs, [str "first"; str "second"; str "third"] = qs ++ [str "third"] /\
    got_on (InConn 0) (run (EAccept None :: EDetect 0 w_detect true :: w_rest) w_acceptor).2 = pair w_from <$> qs.
Proof.
  apply (peer_link_delivers w_addr w_sends [EAccept None] w_rest w_net w_acceptor 0 w_from w_peer w_detect
           (default (mkWsDetect kNone []) (fst <$> (ws_detect_and_accept w_detect).2)) w_worker (running_df w_worker)).
  - by exists (str "peer.example", 4433).
  - intros host port E. vm_compute in E. injection E as <- <-. intros _. split; by_computing.
  - reflexivity.
  - repeat constructor; done.
  - repeat constructor; vm_compute; discriminate.
  - by_vm_refl.
  - by_vm_refl.
  - reflexivity.
  - reflexivity.
  - reflexivity.
  - repeat constructor.
  - repeat constructor; eexists; reflexivity.
  - by_vm_refl.
  - intros _. vm_compute. lia.
  - by_vm_refl.
Defined.

Definition w_lost : PeerNet := (run [ESend w_peer (str "first")] w_net).1.
Definition w_failed : Event := EDial w_addr (mkDial None [] false []).
Definition w_retries : list Event := [ESend w_peer (str "again"); EDial w_addr w_dial; ETurn (OutConn w_addr) (w_turn (Some []))].

Lemma lost_peer_swallows_witness :
  sent_on (OutConn w_addr) (run w_retries (step w_failed w_lost).1).2 = [] /\
  (exists w1 w2, out_conns (step w_failed w_lost).1 !! w_addr = Some w1 /\
     out_conns (run w_retries (step w_failed w_lost).1).1 !! w_addr = Some w2 /\ w_phase w2 = Ended /\ writes w2 = writes w1 ++ [str "again"]) /\
  (forall peer b, addr peer = w_addr -> (send peer b (run w_retries (step w_failed w_lost).1).1).2 = [Returned true]).
Proof.
  apply (lost_peer_swallows w_addr w_failed w_retries w_lost (worker_at w_addr w_lost)).
  - by exists (str "peer.example", 4433).
  - by_vm_refl.
  - vm_compute. done.
  - intros Hin. repeat (apply elem_of_cons in Hin as [?|Hin]; [done|]). by apply elem_of_nil in Hin.
Defined.
