(* ===== verification/Bip39.v ===== *)
(** * Recovery phrases ([src/client-desktop/src/bip39.cpp])

    The 24-word form of the 32-byte identity seed: 256 bits of seed and 8 bits of
    its digest, in groups of eleven bits that select words.  Qt's text functions are
    not part of the sources: they are the class [Qt], with their documented
    behaviour on ASCII text in [QtLaws].  The file shows that a phrase is read back,
    and that no other sequence of words is read as the same seed. *)
From S2P Require Import Prelude StdMap Kademlia.
Import Kademlia.Kademlia.

(** ** Text of the interface *)

(** A [QString] is a sequence of UTF-16 code units. *)
Abbreviation qstring := (list Z).

Definition qtext (s : string) : qstring := b2z <$> str s.

#[export] Instance byte_inhabited : Inhabited byte := populate Byte.x00.

(** What the client uses of Qt. *)
Class Qt := {
  (** [QString::normalized(NormalizationForm_C / _KD)] *)
  normalized_C : qstring -> qstring;
  normalized_KD : qstring -> qstring;
  toLower : qstring -> qstring;
  trimmed : qstring -> qstring;
  simplified : qstring -> qstring;
  (** [split(QRegularExpression("\\s+"), Qt::SkipEmptyParts)] *)
  split_spaces : qstring -> list qstring;
  (** [split(QRegularExpression("[\\r\\n]+"), Qt::SkipEmptyParts)] *)
  split_lines : qstring -> list qstring;
  (** [contains] and [remove] of [QRegularExpression("\\s")] *)
  contains_space : qstring -> bool;
  remove_spaces : qstring -> qstring;
  (** [contains(QRegularExpression("[^0-9A-Fa-f]"))] *)
  contains_non_hex : qstring -> bool;
  toUtf8 : qstring -> bytes;
  fromUtf8 : bytes -> qstring;
  (** [QByteArray::fromHex] *)
  fromHex : bytes -> bytes;
  (** [QChar::digitValue] *)
  digitValue : Z -> Z;
  (** [QDir::filePath] of the application's data directory *)
  filePath : qstring -> qstring;
}.

(** Characters of words and codes: ASCII, printable and not a space. *)
Definition graph_char (c : Z) : Prop := 33 <= c <= 126.
Definition ascii_char (c : Z) : Prop := 0 <= c < 128.
Definition space_char : Z := 32.
Definition newline_char : Z := 10.

Definition lower_char (c : Z) : Z := if (65 <=? c) && (c <=? 90) then c + 32 else c.

Definition hex_char (c : Z) : bool :=
  ((48 <=? c) && (c <=? 57)) || ((65 <=? c) && (c <=? 70)) || ((97 <=? c) && (c <=? 102)).

(** [QStringList::join] *)
Fixpoint join (sep : Z) (ws : list qstring) : qstring :=
  match ws with
  | [] => []
  | [w] => w
  | w :: ws' => w ++ sep :: join sep ws'
  end.

Definition is_word (w : qstring) : Prop := w <> [] /\ Forall graph_char w.

(** The two lower-case hexadecimal digits of a byte. *)
Definition hex_chars : qstring := qtext "0123456789abcdef".
Definition hex_char_at (i : Z) : Z := default 0 (hex_chars !! Z.to_nat i).
Definition hex_pair (b : byte) : qstring :=
  [hex_char_at (Z.land (Z.shiftr (b2z b) 4) 15); hex_char_at (Z.land (b2z b) 15)].

(** Documented behaviour on ASCII text. *)
Class QtLaws `{!Qt} := {
  normalized_KD_ascii : forall s, Forall ascii_char s -> normalized_KD s = s;
  toLower_ascii : forall s, Forall ascii_char s -> toLower s = lower_char <$> s;
  trimmed_words : forall ws, Forall is_word ws -> trimmed (join space_char ws) = join space_char ws;
  trimmed_line : forall s, is_word s -> trimmed (s ++ [newline_char]) = s;
  simplified_word : forall s, Forall graph_char s -> simplified s = s;
  simplified_line : forall s, is_word s -> simplified (s ++ [newline_char]) = s;
  split_spaces_join : forall ws, Forall is_word ws -> split_spaces (join space_char ws) = ws;
  split_lines_join : forall ws, Forall is_word ws -> split_lines (join newline_char ws) = ws;
  contains_space_word : forall s, Forall graph_char s -> contains_space s = false;
  contains_space_sep : forall s t c, c = space_char \/ c = newline_char -> contains_space (s ++ c :: t) = true;
  remove_spaces_word : forall s, Forall graph_char s -> remove_spaces s = s;
  contains_non_hex_spec : forall s, contains_non_hex s = negb (forallb hex_char s);
  toUtf8_ascii : forall s, Forall ascii_char s -> toUtf8 s = z2b <$> s;
  fromUtf8_ascii : forall b, Forall ascii_char (b2z <$> b) -> fromUtf8 b = b2z <$> b;
  fromHex_pairs : forall b : bytes, fromHex (z2b <$> (b ≫= hex_pair)) = b;
  digitValue_ascii : forall c, ascii_char c ->
    digitValue c = if (48 <=? c) && (c <=? 57) then c - 48 else -1;
}.

Module Bip39.

(** ** The word list

    [kBip39En] of [bip39_wordlist.cpp]. *)

Definition kBip39En_text : string :=
"abandon ability able about above absent absorb abstract absurd abuse access accident account accuse
achieve acid acoustic acquire across act action actor actress actual adapt add addict address adjust
admit adult advance advice aerobic affair afford afraid again age agent agree ahead aim air airport
aisle alarm album alcohol alert alien all alley allow almost alone alpha already also alter always
amateur amazing among amount amused analyst anchor ancient anger angle angry animal ankle announce
annual another answer antenna antique anxiety any apart apology appear apple approve april arch
arctic area arena argue arm armed armor army around arrange arrest arrive arrow art artefact artist
artwork ask aspect assault asset assist assume asthma athlete atom attack attend attitude attract
auction audit august aunt author auto autumn average avocado avoid awake aware away awesome awful
awkward axis baby bachelor bacon badge bag balance balcony ball bamboo banana banner bar barely
bargain barrel base basic basket battle beach bean beauty because become beef before begin behave
behind believe below belt bench benefit best betray better between beyond bicycle bid bike bind
biology bird birth bitter black blade blame blanket blast bleak bless blind blood blossom blouse
blue blur blush board boat body boil bomb bone bonus book boost border boring borrow boss bottom
bounce box boy bracket brain brand brass brave bread breeze brick bridge brief bright bring brisk
broccoli broken bronze broom brother brown brush bubble buddy budget buffalo build bulb bulk bullet
bundle bunker burden burger burst bus business busy butter buyer buzz cabbage cabin cable cactus
cage cake call calm camera camp can canal cancel candy cannon canoe canvas canyon capable capital
captain car carbon card cargo carpet carry cart case cash casino castle casual cat catalog catch
category cattle caught cause caution cave ceiling celery cement census century cereal certain chair
chalk champion change chaos chapter charge chase chat cheap check cheese chef cherry chest chicken
chief child chimney choice choose chronic chuckle chunk churn cigar cinnamon circle citizen city
civil claim clap clarify claw clay clean clerk clever click client cliff climb clinic clip clock
clog close cloth cloud clown club clump cluster clutch coach coast coconut code coffee coil coin
collect color column combine come comfort comic common company concert conduct confirm congress
connect consider control convince cook cool copper copy coral core corn correct cost cotton couch
country couple course cousin cover coyote crack cradle craft cram crane crash crater crawl crazy
cream credit creek crew cricket crime crisp critic crop cross crouch crowd crucial cruel cruise
crumble crunch crush cry crystal cube culture cup cupboard curious current curtain curve cushion
custom cute cycle dad damage damp dance danger daring dash daughter dawn day deal debate debris
decade december decide decline decorate decrease deer defense define defy degree delay deliver
demand demise denial dentist deny depart depend deposit depth deputy derive describe desert design
desk despair destroy detail detect develop device devote diagram dial diamond diary dice diesel diet
differ digital dignity dilemma dinner dinosaur direct dirt disagree discover disease dish dismiss
disorder display distance divert divide divorce dizzy doctor document dog doll dolphin domain donate
donkey donor door dose double dove draft dragon drama drastic draw dream dress drift drill drink
drip drive drop drum dry duck dumb dune during dust dutch duty dwarf dynamic eager eagle early earn
earth easily east easy echo ecology economy edge edit educate effort egg eight either elbow elder
electric elegant element elephant elevator elite else embark embody embrace emerge emotion employ
empower empty enable enact end endless endorse enemy energy enforce engage engine enhance enjoy
enlist enough enrich enroll ensure enter entire entry envelope episode equal equip era erase erode
erosion error erupt escape essay essence estate eternal ethics evidence evil evoke evolve exact
example excess exchange excite exclude excuse execute exercise exhaust exhibit exile exist exit
exotic expand expect expire explain expose express extend extra eye eyebrow fabric face faculty fade
faint faith fall false fame family famous fan fancy fantasy farm fashion fat fatal father fatigue
fault favorite feature february federal fee feed feel female fence festival fetch fever few fiber
fiction field figure file film filter final find fine finger finish fire firm first fiscal fish fit
fitness fix flag flame flash flat flavor flee flight flip float flock floor flower fluid flush fly
foam focus fog foil fold follow food foot force forest forget fork fortune forum forward fossil
foster found fox fragile frame frequent fresh friend fringe frog front frost frown frozen fruit fuel
fun funny furnace fury future gadget gain galaxy gallery game gap garage garbage garden garlic
garment gas gasp gate gather gauge gaze general genius genre gentle genuine gesture ghost giant gift
giggle ginger giraffe girl give glad glance glare glass glide glimpse globe gloom glory glove glow
glue goat goddess gold good goose gorilla gospel gossip govern gown grab grace grain grant grape
grass gravity great green grid grief grit grocery group grow grunt guard guess guide guilt guitar
gun gym habit hair half hammer hamster hand happy harbor hard harsh harvest hat have hawk hazard
head health heart heavy hedgehog height hello helmet help hen hero hidden high hill hint hip hire
history hobby hockey hold hole holiday hollow home honey hood hope horn horror horse hospital host
hotel hour hover hub huge human humble humor hundred hungry hunt hurdle hurry hurt husband hybrid
ice icon idea identify idle ignore ill illegal illness image imitate immense immune impact impose
improve impulse inch include income increase index indicate indoor industry infant inflict inform
inhale inherit initial inject injury inmate inner innocent input inquiry insane insect inside
inspire install intact interest into invest invite involve iron island isolate issue item ivory
jacket jaguar jar jazz jealous jeans jelly jewel job join joke journey joy judge juice jump jungle
junior junk just kangaroo keen keep ketchup key kick kid kidney kind kingdom kiss kit kitchen kite
kitten kiwi knee knife knock know lab label labor ladder lady lake lamp language laptop large later
latin laugh laundry lava law lawn lawsuit layer lazy leader leaf learn leave lecture left leg legal
legend leisure lemon lend length lens leopard lesson letter level liar liberty library license life
lift light like limb limit link lion liquid list little live lizard load loan lobster local lock
logic lonely long loop lottery loud lounge love loyal lucky luggage lumber lunar lunch luxury lyrics
machine mad magic magnet maid mail main major make mammal man manage mandate mango mansion manual
maple marble march margin marine market marriage mask mass master match material math matrix matter
maximum maze meadow mean measure meat mechanic medal media melody melt member memory mention menu
mercy merge merit merry mesh message metal method middle midnight milk million mimic mind minimum
minor minute miracle mirror misery miss mistake mix mixed mixture mobile model modify mom moment
monitor monkey monster month moon moral more morning mosquito mother motion motor mountain mouse
move movie much muffin mule multiply muscle museum mushroom music must mutual myself mystery myth
naive name napkin narrow nasty nation nature near neck need negative neglect neither nephew nerve
nest net network neutral never news next nice night noble noise nominee noodle normal north nose
notable note nothing notice novel now nuclear number nurse nut oak obey object oblige obscure
observe obtain obvious occur ocean october odor off offer office often oil okay old olive olympic
omit once one onion online only open opera opinion oppose option orange orbit orchard order ordinary
organ orient original orphan ostrich other outdoor outer output outside oval oven over own owner
oxygen oyster ozone pact paddle page pair palace palm panda panel panic panther paper parade parent
park parrot party pass patch path patient patrol pattern pause pave payment peace peanut pear
peasant pelican pen penalty pencil people pepper perfect permit person pet phone photo phrase
physical piano picnic picture piece pig pigeon pill pilot pink pioneer pipe pistol pitch pizza place
planet plastic plate play please pledge pluck plug plunge poem poet point polar pole police pond
pony pool popular portion position possible post potato pottery poverty powder power practice praise
predict prefer prepare present pretty prevent price pride primary print priority prison private
prize problem process produce profit program project promote proof property prosper protect proud
provide public pudding pull pulp pulse pumpkin punch pupil puppy purchase purity purpose purse push
put puzzle pyramid quality quantum quarter question quick quit quiz quote rabbit raccoon race rack
radar radio rail rain raise rally ramp ranch random range rapid rare rate rather raven raw razor
ready real reason rebel rebuild recall receive recipe record recycle reduce reflect reform refuse
region regret regular reject relax release relief rely remain remember remind remove render renew
rent reopen repair repeat replace report require rescue resemble resist resource response result
retire retreat return reunion reveal review reward rhythm rib ribbon rice rich ride ridge rifle
right rigid ring riot ripple risk ritual rival river road roast robot robust rocket romance roof
rookie room rose rotate rough round route royal rubber rude rug rule run runway rural sad saddle
sadness safe sail salad salmon salon salt salute same sample sand satisfy satoshi sauce sausage save
say scale scan scare scatter scene scheme school science scissors scorpion scout scrap screen script
scrub sea search season seat second secret section security seed seek segment select sell seminar
senior sense sentence series service session settle setup seven shadow shaft shallow share shed
shell sheriff shield shift shine ship shiver shock shoe shoot shop short shoulder shove shrimp shrug
shuffle shy sibling sick side siege sight sign silent silk silly silver similar simple since sing
siren sister situate six size skate sketch ski skill skin skirt skull slab slam sleep slender slice
slide slight slim slogan slot slow slush small smart smile smoke smooth snack snake snap sniff snow
soap soccer social sock soda soft solar soldier solid solution solve someone song soon sorry sort
soul sound soup source south space spare spatial spawn speak special speed spell spend sphere spice
spider spike spin spirit split spoil sponsor spoon sport spot spray spread spring spy square squeeze
squirrel stable stadium staff stage stairs stamp stand start state stay steak steel stem step stereo
stick still sting stock stomach stone stool story stove strategy street strike strong struggle
student stuff stumble style subject submit subway success such sudden suffer sugar suggest suit
summer sun sunny sunset super supply supreme sure surface surge surprise surround survey suspect
sustain swallow swamp swap swarm swear sweet swift swim swing switch sword symbol symptom syrup
system table tackle tag tail talent talk tank tape target task taste tattoo taxi teach team tell ten
tenant tennis tent term test text thank that theme then theory there they thing this thought three
thrive throw thumb thunder ticket tide tiger tilt timber time tiny tip tired tissue title toast
tobacco today toddler toe together toilet token tomato tomorrow tone tongue tonight tool tooth top
topic topple torch tornado tortoise toss total tourist toward tower town toy track trade traffic
tragic train transfer trap trash travel tray treat tree trend trial tribe trick trigger trim trip
trophy trouble truck true truly trumpet trust truth try tube tuition tumble tuna tunnel turkey turn
turtle twelve twenty twice twin twist two type typical ugly umbrella unable unaware uncle uncover
under undo unfair unfold unhappy uniform unique unit universe unknown unlock until unusual unveil
update upgrade uphold upon upper upset urban urge usage use used useful useless usual utility vacant
vacuum vague valid valley valve van vanish vapor various vast vault vehicle velvet vendor venture
venue verb verify version very vessel veteran viable vibrant vicious victory video view village
vintage violin virtual virus visa visit visual vital vivid vocal voice void volcano volume vote
voyage wage wagon wait walk wall walnut want warfare warm warrior wash wasp waste water wave way
wealth weapon wear weasel weather web wedding weekend weird welcome west wet whale what wheat wheel
when where whip whisper wide width wife wild will win window wine wing wink winner winter wire
wisdom wise wish witness wolf woman wonder wood wool word work world worry worth wrap wreck wrestle
wrist write wrong yard year yellow you young youth zebra zero zone zoo".

Definition separator (c : byte) : bool := bool_decide (c = Byte.x20 \/ c = Byte.x0a).

(** Words between separators. *)
Fixpoint words_of (w s : bytes) : list bytes :=
  match s with
  | [] => if bool_decide (w = []) then [] else [w]
  | c :: s' =>
      if separator c then (if bool_decide (w = []) then (fun l => l) else cons w) (words_of [] s')
      else words_of (w ++ [c]) s'
  end.

Definition kBip39En : list bytes := words_of [] (str kBip39En_text).

(** ** [bip39.cpp] *)

Section bip39.
Context `{!Qt, !Sha256}.

(** [m.insert(QString::fromUtf8(kBip39En[i]), i)] for the 2048 words. *)
Definition word_index : gmap qstring Z :=
  foldl (fun m i => <[fromUtf8 (kBip39En !!! i) := Z.of_nat i]> m) ∅ (seq 0 2048).

(** Bit [bit] of the 33 bytes: [(ent[bit >> 3] >> (7 - (bit & 7))) & 1]. *)
Definition ent_bit (ent : bytes) (bit : Z) : Z :=
  Z.land (Z.shiftr (b2z (ent !!! Z.to_nat (Z.shiftr bit 3))) (7 - Z.land bit 7)) 1.

(** The inner loop: eleven bits from [i * 11]. *)
Definition word_value (ent : bytes) (i : nat) : Z :=
  foldl (fun v b => u16 (Z.lor (Z.shiftl v 1) (ent_bit ent (Z.of_nat i * 11 + Z.of_nat b)))) 0 (seq 0 11).

(** The seed followed by the first byte of its digest. *)
Definition entropy (seed : bytes) : bytes := seed ++ [sha256 seed !!! 0%nat].

Definition seed_to_phrase (seed : bytes) : qstring :=
  let ent := entropy seed in
  join space_char ((fun i => fromUtf8 (kBip39En !!! Z.to_nat (word_value ent i))) <$> seq 0 24).

(** [ent[byte] | (((v >> b) & 1) << off)] at the position [bitpos], which moves on. *)
Definition put_word_bit (v : Z) (st : bytes * Z) (b : Z) : bytes * Z :=
  let '(ent, bitpos) := st in
  let pos := Z.to_nat (Z.shiftr bitpos 3) in
  let off := 7 - Z.land bitpos 7 in
  (<[pos := z2b (Z.lor (b2z (ent !!! pos)) (Z.shiftl (Z.land (Z.shiftr v b) 1) off))]> ent, bitpos + 1).

Definition put_word (st : bytes * Z) (v : Z) : bytes * Z :=
  foldl (put_word_bit v) st [10; 9; 8; 7; 6; 5; 4; 3; 2; 1; 0].

(** The loop over the words, which returns at an unknown one. *)
Fixpoint read_words (idx : gmap qstring Z) (tokens : list qstring) (st : bytes * Z) : option bytes :=
  match tokens with
  | [] => Some st.1
  | w :: tokens' =>
      match idx !! w with
      | None => None
      | Some v => read_words idx tokens' (put_word st v)
      end
  end.

Definition phrase_tokens (phrase : qstring) : list qstring :=
  split_spaces (trimmed (toLower (normalized_KD phrase))).

Definition phrase_to_seed (phrase : qstring) : option bytes :=
  let tokens := phrase_tokens phrase in
  if negb (length tokens =? 24)%nat then None
  else
    match read_words word_index tokens (replicate 33 Byte.x00, 0) with
    | None => None
    | Some ent =>
        let seed := take 32 ent in
        if bool_decide (sha256 seed !!! 0%nat = ent !!! 32%nat) then Some seed else None
    end.

End bip39.

(** ** Bits *)

(** Bit [n] of a sequence of bytes, most significant first. *)
Definition bit_at (ent : bytes) (n : nat) : bool :=
  Z.testbit (b2z (ent !!! (n `div` 8)%nat)) (7 - Z.of_nat (n `mod` 8)).

Definition bits_list (ent : bytes) : list bool := bit_at ent <$> seq 0 264.

(** The eleven bits of a word's index. *)
Definition word_bits (v : Z) : list bool := Z.testbit v <$> [10; 9; 8; 7; 6; 5; 4; 3; 2; 1; 0].

Lemma land_1 (z : Z) : Z.land z 1 = Z.b2z (Z.testbit z 0).
Proof. change 1 with (Z.ones 1). rewrite Z.land_ones by lia. by rewrite <- Z.bit0_mod. Qed.

Lemma position_split (n : nat) :
  Z.to_nat (Z.shiftr (Z.of_nat n) 3) = (n `div` 8)%nat /\ Z.land (Z.of_nat n) 7 = Z.of_nat (n `mod` 8).
Proof.
  split.
  - rewrite Z.shiftr_div_pow2 by lia. change (2 ^ 3) with (Z.of_nat 8). by rewrite <- Nat2Z.inj_div, Nat2Z.id.
  - change 7 with (Z.ones 3). rewrite Z.land_ones by lia. change (2 ^ 3) with (Z.of_nat 8).
    by rewrite <- Nat2Z.inj_mod.
Qed.

Lemma ent_bit_at (ent : bytes) (n : nat) : ent_bit ent (Z.of_nat n) = Z.b2z (bit_at ent n).
Proof.
  unfold ent_bit, bit_at. destruct (position_split n) as [-> ->].
  rewrite land_1, Z.shiftr_spec by lia. by rewrite Z.add_0_l.
Qed.

(** [v = (v << 1) | bit] *)
Definition push_bit (v : Z) (x : bool) : Z := u16 (Z.lor (Z.shiftl v 1) (Z.b2z x)).

Lemma push_bit_eq v x k : 0 <= v < 2 ^ k -> 0 <= k <= 15 -> push_bit v x = 2 * v + Z.b2z x.
Proof.
  intros Hv Hk. unfold push_bit. rewrite (lor_shiftl_add _ _ 1) by (destruct x; simpl; lia).
  assert (2 ^ k <= 2 ^ 15) by (apply Z.pow_le_mono_r; lia). unfold_words.
  rewrite Z.mod_small by (destruct x; simpl; lia). lia.
Qed.

Lemma push_bits_spec l v k :
  0 <= v < 2 ^ k -> 0 <= k -> k + Z.of_nat (length l) <= 16 ->
  0 <= foldl push_bit v l < 2 ^ (k + Z.of_nat (length l)) /\
  forall j, Z.testbit (foldl push_bit v l) (Z.of_nat j) =
    if decide (j < length l)%nat then l !!! (length l - 1 - j)%nat
    else Z.testbit v (Z.of_nat (j - length l)).
Proof.
  revert v k. induction l as [|x l IH]; intros v k Hv Hk Hlen; cbn [foldl length] in *.
  { rewrite Z.add_0_r. split; [done|]. intros j. rewrite decide_False by lia. by rewrite Nat.sub_0_r. }
  rewrite (push_bit_eq v x k) by lia.
  destruct (IH (2 * v + Z.b2z x) (k + 1)) as [Hr Hbits].
  { rewrite Z.pow_add_r by lia. destruct x; simpl Z.b2z; lia. } { lia. } { lia. }
  split. { replace (k + Z.of_nat (S (length l))) with (k + 1 + Z.of_nat (length l)) by lia. done. }
  intros j. rewrite Hbits. destruct (decide (j < length l)%nat).
  - rewrite decide_True by lia. by replace (S (length l) - 1 - j)%nat with (S (length l - 1 - j)) by lia.
  - destruct (decide (j = length l)) as [->|].
    + rewrite decide_True by lia. replace (S (length l) - 1 - length l)%nat with 0%nat by lia.
      rewrite Nat.sub_diag. cbn [lookup_total list_lookup_total]. apply Z.testbit_0_r.
    + rewrite decide_False by lia. replace (j - length l)%nat with (S (j - S (length l))) by lia.
      rewrite Nat2Z.inj_succ. apply Z.testbit_succ_r. lia.
Qed.

Lemma word_value_push ent i :
  word_value ent i = foldl push_bit 0 ((fun b => bit_at ent (i * 11 + b)) <$> seq 0 11).
Proof.
  unfold word_value. generalize (seq 0 11). intros l. generalize 0.
  induction l as [|b l IH]; intros v; [done|]. cbn [foldl fmap list_fmap]. rewrite IH. f_equal.
  unfold push_bit. by rewrite <- ent_bit_at, Nat2Z.inj_add, Nat2Z.inj_mul.
Qed.

Lemma word_value_spec ent i :
  0 <= word_value ent i < 2048 /\
  word_bits (word_value ent i) = (fun b => bit_at ent (i * 11 + b)) <$> seq 0 11.
Proof.
  rewrite word_value_push. set (l := _ <$> seq 0 11).
  destruct (push_bits_spec l 0 0) as [Hr Hb]; [simpl; lia|lia|done|]. split; [done|].
  unfold word_bits. change [10; 9; 8; 7; 6; 5; 4; 3; 2; 1; 0] with (Z.of_nat <$> [10; 9; 8; 7; 6; 5; 4; 3; 2; 1; 0]%nat).
  rewrite <- list_fmap_compose. cbn [fmap list_fmap compose]. rewrite !Hb. done.
Qed.

Lemma length_word_bits v : length (word_bits v) = 11%nat.
Proof. done. Qed.

Lemma word_bits_inj v w : 0 <= v < 2048 -> 0 <= w < 2048 -> word_bits v = word_bits w -> v = w.
Proof.
  intros Hv Hw E. apply Z.bits_inj'. intros n Hn. destruct (Z.lt_ge_cases n 11) as [Hlt|Hge].
  - apply (proj1 (@map_ext_in_iff _ _ (Z.testbit v) (Z.testbit w) [10; 9; 8; 7; 6; 5; 4; 3; 2; 1; 0]) E). rewrite <- list_elem_of_In.
    assert (n ∈ Z.of_nat <$> seq 0 11) as Hin by (apply list_elem_of_fmap; exists (Z.to_nat n); rewrite elem_of_seq; lia).
    revert Hin. cbn. set_solver.
  - assert (forall z, 0 <= z < 2048 -> Z.testbit z n = false) as Hhigh.
    { intros z Hz. rewrite <- (Z.mod_small z (2 ^ 11)) by lia. by apply Z.mod_pow2_bits_high. }
    by rewrite !Hhigh.
Qed.

(** The words of a sequence of bytes have its bits. *)
Lemma word_values_bits ent : ((word_value ent <$> seq 0 24) ≫= word_bits) = bits_list ent.
Proof.
  unfold bits_list.
  assert (seq 0 264 = seq 0 24 ≫= (fun i => (fun b => i * 11 + b)%nat <$> seq 0 11)) as -> by done.
  generalize (seq 0 24). intros l. induction l as [|i l IH]; [done|].
  cbn [fmap list_fmap mbind list_bind]. rewrite fmap_app. f_equal; [|exact IH].
  destruct (word_value_spec ent i) as [_ ->]. by rewrite <- list_fmap_compose.
Qed.

Lemma bits_list_inj e1 e2 :
  length e1 = 33%nat -> length e2 = 33%nat -> bits_list e1 = bits_list e2 -> e1 = e2.
Proof.
  intros L1 L2 Hb.
  assert (forall n, (n < 264)%nat -> bit_at e1 n = bit_at e2 n) as Hbit.
  { intros n Hn. assert (bits_list e1 !! n = bits_list e2 !! n) as E by by rewrite Hb.
    unfold bits_list in E. rewrite !list_lookup_fmap, !lookup_seq_lt in E by lia. by injection E. }
  apply list_eq_same_length with 33%nat; [done|congruence|]. intros i x y Hi Hx Hy.
  apply b2z_inj, Z.bits_inj'. intros k Hk. destruct (decide (k < 8)).
  - specialize (Hbit (8 * i + (7 - Z.to_nat k))%nat ltac:(lia)). unfold bit_at in Hbit.
    replace ((8 * i + (7 - Z.to_nat k)) `div` 8)%nat with i in Hbit by (apply Nat.div_unique with (7 - Z.to_nat k)%nat; lia).
    replace ((8 * i + (7 - Z.to_nat k)) `mod` 8)%nat with (7 - Z.to_nat k)%nat in Hbit
      by (apply Nat.mod_unique with i; lia).
    rewrite (list_lookup_total_correct _ _ _ Hx), (list_lookup_total_correct _ _ _ Hy) in Hbit.
    by replace (7 - Z.of_nat (7 - Z.to_nat k)) with k in Hbit by lia.
  - assert (forall b, Z.testbit (b2z b) k = false) as Hz; [|by rewrite !Hz].
    intros b. rewrite <- (Z.mod_small (b2z b) (2 ^ 8)) by apply b2z_range. apply Z.mod_pow2_bits_high. lia.
Qed.

(** ** Writing bits *)

Definition put_bit (st : bytes * Z) (x : bool) : bytes * Z :=
  let '(ent, bitpos) := st in
  let pos := Z.to_nat (Z.shiftr bitpos 3) in
  (<[pos := z2b (Z.lor (b2z (ent !!! pos)) (Z.shiftl (Z.b2z x) (7 - Z.land bitpos 7)))]> ent, bitpos + 1).

Lemma put_word_bits v st : put_word st v = foldl put_bit st (word_bits v).
Proof.
  assert (forall b st', 0 <= b -> put_word_bit v st' b = put_bit st' (Z.testbit v b)) as Hb.
  { intros b [ent pos] Hle. unfold put_word_bit, put_bit. by rewrite land_1, Z.shiftr_spec by lia. }
  unfold put_word, word_bits. cbn [foldl fmap list_fmap]. by rewrite !Hb by lia.
Qed.

(** Bits not yet written are zero. *)
Definition clear_from (n : nat) (ent : bytes) : Prop :=
  length ent = 33%nat /\ forall m, (n <= m < 264)%nat -> bit_at ent m = false.

Lemma put_bit_spec ent n x :
  clear_from n ent -> (n < 264)%nat ->
  exists ent', put_bit (ent, Z.of_nat n) x = (ent', Z.of_nat (S n)) /\ clear_from (S n) ent' /\
    bit_at ent' n = x /\ forall m, (m < n)%nat -> bit_at ent' m = bit_at ent m.
Proof.
  intros [Hlen Hclear] Hn. unfold put_bit. destruct (position_split n) as [-> ->].
  assert (n `div` 8 < 33)%nat as Hpos by (apply Nat.Div0.div_lt_upper_bound; lia).
  assert (n `mod` 8 < 8)%nat as Hmod by (apply Nat.mod_upper_bound; lia).
  set (r := (n `mod` 8)%nat) in *. set (q := (n `div` 8)%nat) in *.
  set (z := Z.lor _ _). set (ent' := <[q := z2b z]> ent).
  assert (forall k, 0 <= k < 8 -> Z.testbit (b2z (z2b z)) k =
    (Z.testbit (b2z (ent !!! q)) k || (bool_decide (k = 7 - Z.of_nat r) && x))) as Hz.
  { intros k Hk. rewrite b2z_z2b. change 256 with (2 ^ 8). rewrite Z.mod_pow2_bits_low by lia.
    unfold z. rewrite Z.lor_spec. f_equal. rewrite Z.shiftl_spec by lia.
    case_bool_decide as E; [subst k; rewrite Z.sub_diag; by destruct x|].
    destruct x; [|by rewrite Z.bits_0]. change (Z.b2z true) with (2 ^ 0). apply Z.pow2_bits_false. lia. }
  assert (forall m, (m < 264)%nat -> bit_at ent' m = bit_at ent m || (bool_decide (m = n) && x)) as Hbit.
  { intros m Hm. unfold bit_at, ent'.
    pose proof (Nat.div_mod_eq m 8). pose proof (Nat.div_mod_eq n 8). pose proof (Nat.mod_upper_bound m 8 ltac:(lia)).
    destruct (decide (m `div` 8 = q)%nat) as [E|E].
    - rewrite E, list_lookup_total_insert_eq by lia. rewrite Hz by lia. f_equal. f_equal.
      apply bool_decide_ext. unfold r, q in *. lia.
    - rewrite list_lookup_total_insert_ne by done.
      rewrite (bool_decide_eq_false_2 (m = n)) by (intros ->; done). cbn [andb]. by rewrite orb_false_r. }
  exists ent'. split; [f_equal; lia|]. repeat split.
  - unfold ent'. by rewrite length_insert.
  - intros m Hm. rewrite Hbit by lia. rewrite Hclear by lia. by rewrite bool_decide_eq_false_2 by lia.
  - rewrite Hbit by lia. rewrite Hclear by lia. by rewrite bool_decide_eq_true_2.
  - intros m Hm. rewrite Hbit by lia. rewrite bool_decide_eq_false_2 by lia. apply orb_false_r.
Qed.

Lemma put_bits_spec l ent n :
  clear_from n ent -> (n + length l <= 264)%nat ->
  exists ent', foldl put_bit (ent, Z.of_nat n) l = (ent', Z.of_nat (n + length l)) /\
    clear_from (n + length l) ent' /\
    (forall m, (m < n)%nat -> bit_at ent' m = bit_at ent m) /\
    forall m x, l !! m = Some x -> bit_at ent' (n + m) = x.
Proof.
  revert ent n. induction l as [|x l IH]; intros ent n Hc Hlen; cbn [foldl length] in *.
  { exists ent. rewrite Nat.add_0_r. done. }
  destruct (put_bit_spec ent n x Hc ltac:(lia)) as (e1 & -> & Hc1 & Hx & Hold).
  destruct (IH e1 (S n) Hc1 ltac:(lia)) as (e2 & -> & Hc2 & Hold2 & Hnew).
  exists e2. rewrite <- Nat.add_succ_comm. split; [done|]. split; [done|]. split.
  - intros m Hm. rewrite Hold2 by lia. by apply Hold.
  - intros [|m] y Hy; cbn in Hy.
    + injection Hy as <-. rewrite Nat.add_0_r, Hold2 by lia. done.
    + rewrite <- Nat.add_succ_comm. by apply Hnew.
Qed.

(** Bytes written bit by bit have the bits written. *)
Definition pack_bits (l : list bool) : bytes := (foldl put_bit (replicate 33 Byte.x00, 0) l).1.

Lemma clear_zeros : clear_from 0 (replicate 33 Byte.x00).
Proof.
  split; [done|]. intros m Hm. unfold bit_at.
  rewrite lookup_total_replicate_2 by (apply Nat.Div0.div_lt_upper_bound; lia). apply Z.testbit_0_l.
Qed.

Lemma pack_bits_spec l :
  length l = 264%nat -> length (pack_bits l) = 33%nat /\ bits_list (pack_bits l) = l.
Proof.
  intros Hl. unfold pack_bits.
  destruct (put_bits_spec l _ 0 clear_zeros ltac:(lia)) as (ent & E & [Hlen _] & _ & Hbits).
  change (Z.of_nat 0) with 0 in E. rewrite E. split; [done|]. unfold bits_list.
  apply list_eq_same_length with 264%nat; [done|by rewrite length_fmap, length_seq|].
  intros i x y Hi Hx Hy. rewrite list_lookup_fmap, lookup_seq_lt in Hx by lia. injection Hx as <-.
  apply (Hbits i y). done.
Qed.

(** ** Words *)

Lemma length_kBip39En : length kBip39En = 2048%nat.
Proof. vm_compute. reflexivity. Qed.

Lemma NoDup_kBip39En : NoDup kBip39En.
Proof. by_computing. Qed.

(** Every word is made of lower-case letters. *)
Lemma kBip39En_letters : Forall (fun w => w <> [] /\ Forall (fun c => 97 <= b2z c <= 122) w) kBip39En.
Proof. by_computing. Qed.

Lemma kBip39En_lookup i : (i < 2048)%nat -> exists w, kBip39En !! i = Some w.
Proof. intros Hi. apply lookup_lt_is_Some. rewrite length_kBip39En. exact Hi. Qed.

#[local] Opaque kBip39En.

Definition qword (i : nat) : qstring := b2z <$> (kBip39En !!! i).

Lemma qword_letters i : (i < 2048)%nat -> qword i <> [] /\ Forall (fun c => 97 <= c <= 122) (qword i).
Proof.
  intros Hi. destruct (kBip39En_lookup i Hi) as [w Hw].
  unfold qword. rewrite (list_lookup_total_correct _ _ _ Hw).
  destruct (Forall_lookup_1 _ _ _ _ kBip39En_letters Hw) as [Hne Hl].
  split; [by intros ->%fmap_nil_inv|]. by rewrite Forall_fmap.
Qed.

Lemma qword_inj i j : (i < 2048)%nat -> (j < 2048)%nat -> qword i = qword j -> i = j.
Proof.
  intros Hi Hj. destruct (kBip39En_lookup i Hi) as [a Ha]. destruct (kBip39En_lookup j Hj) as [b Hb].
  unfold qword. rewrite (list_lookup_total_correct _ _ _ Ha), (list_lookup_total_correct _ _ _ Hb). intros E.
  assert (a = b) as <- by (apply (list_fmap_eq_inj b2z); [intros ??; apply b2z_inj|exact E]).
  exact (NoDup_lookup _ _ _ _ NoDup_kBip39En Ha Hb).
Qed.

Section laws.
Context `{!Qt, !QtLaws, !Sha256}.

Lemma fromUtf8_word i : (i < 2048)%nat -> fromUtf8 (kBip39En !!! i) = qword i.
Proof.
  intros Hi. apply fromUtf8_ascii. destruct (qword_letters i Hi) as [_ Hl].
  eapply Forall_impl; [exact Hl|]. intros c Hc. cbv beta in Hc. unfold ascii_char. lia.
Qed.

Lemma word_index_upto n w v :
  (n <= 2048)%nat ->
  foldl (fun m i => <[fromUtf8 (kBip39En !!! i) := Z.of_nat i]> m) (∅ : gmap qstring Z) (seq 0 n) !! w = Some v <->
  exists i, (i < n)%nat /\ w = qword i /\ v = Z.of_nat i.
Proof.
  induction n as [|n IH]; intros Hn.
  { cbn [seq foldl]. rewrite lookup_empty. split; [done|]. intros (i & ? & _). lia. }
  rewrite seq_S, foldl_snoc, Nat.add_0_l, fromUtf8_word by lia.
  destruct (decide (w = qword n)) as [->|Hne].
  - rewrite lookup_insert_eq. split; [intros [= <-]; exists n; split; [lia|done]|].
    intros (i & Hi & E & ->). apply qword_inj in E; [by subst|lia..].
  - rewrite lookup_insert_ne by done. rewrite IH by lia. split; intros (i & Hi & E & ->); exists i.
    + split; [lia|done].
    + split; [|done]. destruct (decide (i = n)) as [->|]; [done|lia].
Qed.

Lemma word_index_lookup w v :
  word_index !! w = Some v <-> exists i, (i < 2048)%nat /\ w = qword i /\ v = Z.of_nat i.
Proof. by apply word_index_upto. Qed.

(** The words of a seed. *)
Definition seed_words (seed : bytes) : list qstring :=
  (fun i => qword (Z.to_nat (word_value (entropy seed) i))) <$> seq 0 24.

Lemma seed_words_words seed : Forall is_word (seed_words seed).
Proof.
  apply Forall_fmap, Forall_forall. intros i _. destruct (word_value_spec (entropy seed) i) as [Hr _].
  destruct (qword_letters (Z.to_nat (word_value (entropy seed) i))) as [Hne Hl]; [lia|].
  split; [done|]. eapply Forall_impl; [exact Hl|]. intros c Hc. cbv beta in Hc. unfold graph_char. lia.
Qed.

Lemma seed_to_phrase_join seed : seed_to_phrase seed = join space_char (seed_words seed).
Proof.
  unfold seed_to_phrase, seed_words. f_equal. apply list_fmap_ext. intros _ i _.
  apply fromUtf8_word. destruct (word_value_spec (entropy seed) i). lia.
Qed.

Lemma Forall_join (P : Z -> Prop) sep ws : P sep -> Forall (Forall P) ws -> Forall P (join sep ws).
Proof.
  intros Hs Hws. induction Hws as [|w ws Hw Hws IH]; [constructor|].
  destruct ws; cbn [join]; [done|]. apply Forall_app. split; [done|]. by constructor.
Qed.

(** The phrase of a seed has the seed's words. *)
Lemma phrase_tokens_seed seed : phrase_tokens (seed_to_phrase seed) = seed_words seed.
Proof.
  unfold phrase_tokens. rewrite seed_to_phrase_join. pose proof (seed_words_words seed) as Hw.
  assert (Forall (fun c => ascii_char c /\ lower_char c = c) (join space_char (seed_words seed))) as Hl.
  { apply Forall_join; [done|]. apply Forall_fmap, Forall_forall. intros i _.
    destruct (word_value_spec (entropy seed) i) as [Hr _].
    destruct (qword_letters (Z.to_nat (word_value (entropy seed) i))) as [_ Hq]; [lia|].
    eapply Forall_impl; [exact Hq|]. intros c Hc. cbv beta in Hc. unfold ascii_char, lower_char.
    split; [lia|]. destruct (Z.leb_spec 65 c), (Z.leb_spec c 90); cbn; lia. }
  assert (Forall ascii_char (join space_char (seed_words seed))) as Ha
    by (eapply Forall_impl; [exact Hl|]; by intros c [? _]).
  rewrite normalized_KD_ascii, toLower_ascii by done.
  replace (lower_char <$> _) with (join space_char (seed_words seed)).
  - rewrite trimmed_words, split_spaces_join by done. done.
  - symmetry. rewrite <- (list_fmap_id (join space_char (seed_words seed))) at 2.
    apply list_fmap_ext. intros ? c Hc. by apply (Forall_lookup_1 _ _ _ _ Hl Hc).
Qed.

Lemma read_words_spec idx tokens st :
  read_words idx tokens st =
    (fun vs => (foldl put_bit st (vs ≫= word_bits)).1) <$> mapM (fun w => idx !! w) tokens.
Proof.
  revert st. induction tokens as [|w tokens IH]; intros st; [done|]. cbn [read_words mapM].
  destruct (idx !! w) as [v|]; [|done]. rewrite IH, put_word_bits.
  cbn [mbind option_bind]. destruct (mapM _ tokens) as [vs|]; [|done].
  cbn [fmap option_fmap option_map mbind option_bind mret option_ret]. by f_equal.
Qed.

Lemma read_words_pack idx tokens :
  read_words idx tokens (replicate 33 Byte.x00, 0) =
    (fun vs => pack_bits (vs ≫= word_bits)) <$> mapM (fun w => idx !! w) tokens.
Proof. apply read_words_spec. Qed.

(** Tokens are in the list when they are the words of some indices. *)
Lemma mapM_word_index tokens vs :
  mapM (fun w => word_index !! w) tokens = Some vs <->
  Forall (fun v => 0 <= v < 2048) vs /\ tokens = (fun v => qword (Z.to_nat v)) <$> vs.
Proof.
  rewrite mapM_Some. split.
  - induction 1 as [|w v tokens vs Hw _ [IHr ->]]; [done|].
    apply word_index_lookup in Hw as (i & Hi & -> & ->). split; [constructor; [lia|done]|].
    cbn [fmap list_fmap]. by rewrite Nat2Z.id.
  - intros [Hr ->]. induction Hr as [|v vs Hv Hr IH]; constructor; [|done].
    apply word_index_lookup. exists (Z.to_nat v). split; [lia|]. split; [done|lia].
Qed.

Lemma length_bind_words vs : length (vs ≫= word_bits) = (11 * length vs)%nat.
Proof.
  induction vs as [|v vs IH]; [done|].
  change ((v :: vs) ≫= word_bits) with (word_bits v ++ (vs ≫= word_bits)).
  rewrite length_app, IH, length_word_bits. cbn [length]. lia.
Qed.

Lemma bind_words_inj vs ws :
  length vs = length ws -> Forall (fun v => 0 <= v < 2048) vs -> Forall (fun v => 0 <= v < 2048) ws ->
  (vs ≫= word_bits) = (ws ≫= word_bits) -> vs = ws.
Proof.
  intros Hlen Hv. revert ws Hlen. induction Hv as [|v vs Hv Hvs IH]; intros [|w ws] Hlen Hw E; try done.
  apply Forall_cons in Hw as [Hw Hws]. cbn [mbind list_bind] in E.
  apply app_inj_1 in E as [E1 E2]; [|done]. f_equal; [by apply word_bits_inj|].
  apply IH; [by injection Hlen|done..].
Qed.

Lemma word_values_range ent : Forall (fun v => 0 <= v < 2048) (word_value ent <$> seq 0 24).
Proof. apply Forall_fmap, Forall_forall. intros i _. apply word_value_spec. Qed.

(** Reading words and writing words are inverse to each other. *)
Lemma pack_words ent vs :
  length ent = 33%nat -> length vs = 24%nat -> Forall (fun v => 0 <= v < 2048) vs ->
  pack_bits (vs ≫= word_bits) = ent <-> vs = word_value ent <$> seq 0 24.
Proof.
  intros He Hl Hv.
  destruct (pack_bits_spec (vs ≫= word_bits)) as [Hlen Hbits]; [rewrite length_bind_words; lia|].
  split.
  - intros <-. apply bind_words_inj; [by rewrite length_fmap, length_seq|done|apply word_values_range|].
    by rewrite word_values_bits, Hbits.
  - intros E. apply bits_list_inj; [done..|]. by rewrite Hbits, E, word_values_bits.
Qed.

Lemma pack_seed_words ent :
  length ent = 33%nat -> pack_bits ((word_value ent <$> seq 0 24) ≫= word_bits) = ent.
Proof.
  intros Hl. apply pack_words; [done|by rewrite length_fmap, length_seq|apply word_values_range|done].
Qed.

Lemma entropy_split ent seed :
  length ent = 33%nat ->
  take 32 ent = seed /\ sha256 seed !!! 0%nat = ent !!! 32%nat <-> length seed = 32%nat /\ ent = entropy seed.
Proof.
  intros Hlen. unfold entropy. split.
  - intros [<- E]. split; [by rewrite length_take, Hlen|].
    rewrite E. assert (drop 32 ent = [ent !!! 32%nat]) as <-; [|by rewrite take_drop].
    destruct (lookup_lt_is_Some_2 ent 32 ltac:(lia)) as [x Hx].
    rewrite (drop_S _ x) by done. rewrite drop_ge by lia. by rewrite (list_lookup_total_correct _ _ _ Hx).
  - intros [Hs ->]. rewrite take_app_length' by done. split; [done|].
    rewrite lookup_total_app_r by lia. by rewrite Hs.
Qed.

(** Exactly the phrases with a seed's words give the seed. *)
Lemma phrase_to_seed_words phrase seed :
  phrase_to_seed phrase = Some seed <-> length seed = 32%nat /\ phrase_tokens phrase = seed_words seed.
Proof.
  unfold phrase_to_seed. set (tokens := phrase_tokens phrase). rewrite read_words_pack. split.
  - destruct (Nat.eqb_spec (length tokens) 24) as [Hl|]; [|done]. cbn [negb].
    destruct (mapM _ tokens) as [vs|] eqn:Em; [|done]. cbn [fmap option_fmap option_map].
    case_bool_decide as Hc; [|done]. intros [= Hs].
    apply mapM_word_index in Em as [Hr Et].
    assert (length vs = 24%nat) as Hlv by (rewrite <- Hl, Et, length_fmap; done).
    destruct (pack_bits_spec (vs ≫= word_bits)) as [Hlen _]; [rewrite length_bind_words; lia|].
    rewrite Hs in Hc. destruct (proj1 (entropy_split _ seed Hlen) (conj Hs Hc)) as [Hls He].
    split; [done|]. apply pack_words in He; [|unfold entropy; rewrite length_app, Hls; done|done..].
    by rewrite Et, He, <- list_fmap_compose.
  - intros [Hls Et]. rewrite Et. unfold seed_words. rewrite length_fmap, length_seq. cbn [negb Nat.eqb].
    assert (length (entropy seed) = 33%nat) as Hle by (unfold entropy; rewrite length_app, Hls; done).
    assert (mapM (fun w => word_index !! w) ((fun i => qword (Z.to_nat (word_value (entropy seed) i))) <$> seq 0 24)
      = Some (word_value (entropy seed) <$> seq 0 24)) as ->.
    { apply mapM_word_index. split; [apply word_values_range|by rewrite <- list_fmap_compose]. }
    cbn [fmap option_fmap option_map]. rewrite pack_seed_words by done.
    destruct (proj2 (entropy_split _ seed Hle) (conj Hls eq_refl)) as [-> E]. by rewrite bool_decide_eq_true_2.
Qed.

(** C18: recovery phrases are read back, and nothing else is.  The phrase of a 32-byte
    seed gives the seed; and whatever text is entered, it gives the seed exactly when
    its words, after normalising, are those of the seed's own phrase: no two phrases
    with different words restore the same identity. *)
Theorem recovery_phrase_canonical (seed : bytes) :
  (length seed = 32%nat -> phrase_to_seed (seed_to_phrase seed) = Some seed) /\
  forall phrase, phrase_to_seed phrase = Some seed <->
    length seed = 32%nat /\ phrase_tokens phrase = phrase_tokens (seed_to_phrase seed).
Proof.
  rewrite phrase_tokens_seed. split; [|intros phrase; apply phrase_to_seed_words].
  intros Hl. apply phrase_to_seed_words. by rewrite phrase_tokens_seed.
Qed.

End laws.

(** ** Qt on ASCII text *)

Definition ascii_space (c : Z) : bool := bool_decide (c ∈ [32; 9; 10; 11; 12; 13]).

(** Pieces between characters of a kind, without empty ones. *)
Fixpoint pieces (p : Z -> bool) (w s : qstring) : list qstring :=
  match s with
  | [] => if bool_decide (w = []) then [] else [w]
  | c :: s' =>
      if p c then (if bool_decide (w = []) then pieces p [] s' else w :: pieces p [] s')
      else pieces p (w ++ [c]) s'
  end.

Fixpoint drop_spaces (s : qstring) : qstring :=
  match s with
  | c :: s' => if ascii_space c then drop_spaces s' else s
  | [] => []
  end.

Definition hex_value (c : Z) : Z :=
  if (48 <=? c) && (c <=? 57) then c - 48
  else if (97 <=? c) && (c <=? 102) then c - 87 else c - 55.

Fixpoint hex_pairs (s : bytes) : bytes :=
  match s with
  | a :: b :: s' => z2b (hex_value (b2z a) * 16 + hex_value (b2z b)) :: hex_pairs s'
  | _ => []
  end.

#[export] Instance ascii_qt : Qt := {|
  normalized_C s := s;
  normalized_KD s := s;
  toLower s := lower_char <$> s;
  trimmed s := reverse (drop_spaces (reverse (drop_spaces s)));
  simplified s := join space_char (pieces ascii_space [] s);
  split_spaces := pieces ascii_space [];
  split_lines := pieces (fun c => bool_decide (c = 10 \/ c = 13)) [];
  contains_space := existsb ascii_space;
  remove_spaces := filter (fun c => ascii_space c = false);
  contains_non_hex s := negb (forallb hex_char s);
  toUtf8 s := z2b <$> s;
  fromUtf8 b := b2z <$> b;
  fromHex := hex_pairs;
  digitValue c := if (48 <=? c) && (c <=? 57) then c - 48 else -1;
  filePath name := qtext "vaults/" ++ name;
|}.

Lemma graph_not_space c : graph_char c -> ascii_space c = false.
Proof.
  unfold graph_char, ascii_space. intros Hc. apply bool_decide_eq_false_2.
  rewrite !elem_of_cons, elem_of_nil. lia.
Qed.

Lemma pieces_word p w v s :
  Forall (fun c => p c = false) v -> pieces p w (v ++ s) = pieces p (w ++ v) s.
Proof.
  revert w. induction v as [|c v IH]; intros w Hv; [by rewrite app_nil_r|].
  apply Forall_cons in Hv as [Hc Hv]. cbn [app pieces]. rewrite Hc, IH by done. by rewrite <- app_assoc.
Qed.

Lemma pieces_join p sep ws :
  p sep = true -> Forall (fun w => w <> [] /\ Forall (fun c => p c = false) w) ws ->
  pieces p [] (join sep ws) = ws.
Proof.
  intros Hsep. induction 1 as [|w ws [Hne Hw] Hws IH]; [done|]. destruct ws as [|w' ws].
  - cbn [join]. rewrite <- (app_nil_r w) at 1. rewrite pieces_word by done. cbn [app pieces].
    by rewrite bool_decide_eq_false_2.
  - change (join sep (w :: w' :: ws)) with (w ++ sep :: join sep (w' :: ws)).
    rewrite pieces_word by done. cbn [app pieces]. rewrite Hsep, bool_decide_eq_false_2 by done.
    f_equal. exact IH.
Qed.

Lemma words_not_space ws :
  Forall is_word ws -> Forall (fun w => w <> [] /\ Forall (fun c => ascii_space c = false) w) ws.
Proof.
  intros Hws. eapply Forall_impl; [exact Hws|]. intros w [Hne Hw]. split; [done|].
  eapply Forall_impl; [exact Hw|]. apply graph_not_space.
Qed.

Lemma drop_spaces_id s : (forall c s', s = c :: s' -> graph_char c) -> drop_spaces s = s.
Proof.
  destruct s as [|c s]; [done|]. intros Hc. cbn [drop_spaces]. by rewrite (graph_not_space c) by by eapply Hc.
Qed.

Lemma join_head ws c s : Forall is_word ws -> join space_char ws = c :: s -> graph_char c.
Proof.
  intros Hws. destruct Hws as [|w ws [Hne Hw] _]; [done|]. destruct Hw as [|x w Hx Hw]; [done|].
  destruct ws; cbn [join app]; by intros [= <- <-].
Qed.

Lemma join_last ws s c : Forall is_word ws -> join space_char ws = s ++ [c] -> graph_char c.
Proof.
  intros Hws. revert s. induction Hws as [|w ws [Hne Hw] Hws IH]; intros s; [by destruct s|].
  destruct ws as [|w' ws].
  - cbn [join]. intros ->. apply Forall_app in Hw as [_ Hw]. exact (Forall_inv Hw).
  - change (join space_char (w :: w' :: ws)) with (w ++ space_char :: join space_char (w' :: ws)).
    destruct (exists_last (l := join space_char (w' :: ws))) as (s' & c' & E).
    { intros E. pose proof (Forall_inv Hws) as [Hne' _].
      destruct ws; cbn [join] in E; [done|]. by apply app_eq_nil in E as [-> _]. }
    rewrite E. change (w ++ space_char :: s' ++ [c']) with (w ++ (space_char :: s') ++ [c']). rewrite app_assoc.
    intros [_ [= <-]]%app_inj_tail. by apply (IH s').
Qed.

Lemma hex_value_at : Forall (fun i => hex_value (b2z (z2b (hex_char_at i))) = i) (seqZ 0 16).
Proof. by_computing. Qed.

Lemma hex_pairs_pair b s : hex_pairs ((z2b <$> hex_pair b) ++ s) = b :: hex_pairs s.
Proof.
  unfold hex_pair. cbn [fmap list_fmap app hex_pairs]. f_equal.
  assert (forall i, 0 <= i < 16 -> hex_value (b2z (z2b (hex_char_at i))) = i) as Hv.
  { intros i Hi. apply (proj1 (Forall_forall _ _) hex_value_at). apply elem_of_seqZ. lia. }
  pose proof (b2z_range b) as Hb. change 15 with (Z.ones 4). rewrite !Z.land_ones by lia.
  rewrite !Hv by (apply Z.mod_pos_bound; lia). rewrite Z.shiftr_div_pow2 by lia. change (2 ^ 4) with 16.
  rewrite (Z.mod_small (b2z b / 16)) by (split; [apply Z.div_pos; lia|apply Z.div_lt_upper_bound; lia]).
  replace (b2z b / 16 * 16 + b2z b mod 16) with (b2z b) by (pose proof (Z.div_mod (b2z b) 16); lia).
  apply z2b_b2z.
Qed.

#[export] Instance ascii_qt_laws : QtLaws.
Proof.
  split; cbn [normalized_KD toLower trimmed simplified split_spaces split_lines contains_space
    remove_spaces contains_non_hex toUtf8 fromUtf8 fromHex digitValue ascii_qt]; try done.
  - intros ws Hws. rewrite (drop_spaces_id (join _ ws)) by (intros; by eapply join_head).
    rewrite drop_spaces_id; [apply reverse_involutive|]. intros c s E.
    apply (f_equal reverse) in E. rewrite reverse_involutive, reverse_cons in E. by eapply join_last.
  - intros s [Hne Hs]. assert (drop_spaces (s ++ [newline_char]) = s ++ [newline_char]) as ->.
    { apply drop_spaces_id. intros c s' E. destruct Hs as [|x s Hx _]; [done|]. by injection E as ->. }
    rewrite reverse_snoc. cbn [drop_spaces]. change (ascii_space newline_char) with true. cbv iota.
    rewrite drop_spaces_id; [apply reverse_involutive|]. intros c s' E.
    apply (f_equal reverse) in E. rewrite reverse_involutive, reverse_cons in E. subst s.
    apply Forall_app in Hs as [_ Hs]. exact (Forall_inv Hs).
  - intros s Hs. destruct (decide (s = [])) as [->|Hne]; [done|].
    change s with (join space_char [s]) at 1. rewrite pieces_join; [done|done|].
    apply words_not_space. by repeat constructor.
  - intros s Hs. rewrite pieces_word.
    + cbn [app pieces]. change (ascii_space newline_char) with true. cbv iota.
      by rewrite bool_decide_eq_false_2 by by destruct Hs.
    + destruct Hs as [_ Hs]. eapply Forall_impl; [exact Hs|]. apply graph_not_space.
  - intros ws Hws. by apply pieces_join, words_not_space.
  - intros ws Hws. apply pieces_join; [done|]. eapply Forall_impl; [exact Hws|]. intros w [Hne Hw].
    split; [done|]. eapply Forall_impl; [exact Hw|]. intros c Hc. unfold graph_char in Hc.
    apply bool_decide_eq_false_2. lia.
  - intros s Hs. induction Hs as [|c s Hc _ IH]; [done|]. cbn [existsb]. by rewrite graph_not_space.
  - intros s t c Hc. rewrite existsb_app. cbn [existsb]. destruct Hc as [->| ->]; by rewrite orb_true_r.
  - intros s Hs. induction Hs as [|c s Hc _ IH]; [done|]. rewrite filter_cons_True by by apply graph_not_space.
    by f_equal.
  - intros b. induction b as [|x b IH]; [done|].
    change ((x :: b) ≫= hex_pair) with (hex_pair x ++ (b ≫= hex_pair)).
    rewrite fmap_app, hex_pairs_pair. by f_equal.
Qed.

Module Witness.
#[local] Instance sum_sha256 : Sha256 := fun b => [z2b (foldr (fun x s => b2z x + s) 0 b)].

(** The phrase of the all-zero seed, whose digest begins with 0x66. *)
Example zero_phrase :
  @seed_to_phrase ascii_qt (fun _ => [Byte.x66]) (replicate 32 Byte.x00) =
    join space_char (replicate 23 (qtext "abandon") ++ [qtext "art"]).
Proof. vm_compute. reflexivity. Qed.

Lemma recovery_phrase_canonical_witness :
  exists phrase, phrase_to_seed phrase = Some (be_bytes 32 81985529216486895).
Proof.
  exists (seed_to_phrase (be_bytes 32 81985529216486895)).
  exact (proj1 (recovery_phrase_canonical (be_bytes 32 81985529216486895)) eq_refl).
Defined.
End Witness.

End Bip39.
