(* ===== verification/Vault.v ===== *)
(** * The identity vault and signing in

    [src/client-desktop/src/identity_vault.cpp]: a seed sealed under a passphrase
    (Argon2id, XChaCha20-Poly1305), files with one, two or more such blobs, and the
    recovery code; the handlers of [login_dialog.cpp] that create, open and restore a
    vault, and those of [shamir_setup_wizard.cpp] that hand out shares of the seed.
    Random bytes, the answers to questions and the outcome of file operations are
    arguments.  The results: a seed comes back from each kind of backup, a file of
    several personas opens to the right one, and the work done while unlocking does
    not depend on the passphrase. *)
From S2P Require Import Prelude StdMap Kademlia Crypto Shamir Toy Bip39.

(** [crypto_pwhash(..., crypto_pwhash_ALG_ARGON2ID13)] of 32 bytes: password, salt,
    opslimit, memlimit; [None] when it returns an error. *)
Class Argon2 := pwhash : bytes -> bytes -> Z -> Z -> option bytes.

Definition crypto_pwhash_SALTBYTES : nat := 16.
Definition crypto_pwhash_OPSLIMIT_MODERATE : Z := 3.
Definition crypto_pwhash_MEMLIMIT_MODERATE : Z := 268435456.
Definition xchacha_NPUBBYTES : nat := 24.

Module Vault.
Import Bip39.Bip39.

Definition kVaultV1Bytes : nat := 104.
Definition kVaultBlobBytes : nat := 105.
Definition kVaultVersion : byte := Byte.x02.
Definition kSeedBytes : nat := 32.
Definition kVaultDualBytes : nat := 2 * kVaultBlobBytes.

Definition kMinOpslimit : Z := 2.
Definition kMinMemlimit : Z := 64 * 1024 * 1024.
Definition kMaxMemlimit : Z := 1024 * 1024 * 1024.

(** [for (i = 7; i >= 0; --i) { p[i] = v & 0xff; v >>= 8; }] *)
Fixpoint put_be_loop (n : nat) (v : Z) (acc : bytes) : bytes :=
  match n with
  | O => acc
  | S n' => put_be_loop n' (Z.shiftr v 8) (z2b (Z.land v 255) :: acc)
  end.
Definition put_u64_be (v : Z) : bytes := put_be_loop 8 v [].

(** [for (i = 0; i < 8; ++i) v = (v << 8) | p[i]] *)
Definition get_u64_be (p : bytes) : Z := foldl (fun v b => u64 (Z.lor (Z.shiftl v 8) (b2z b))) 0 p.

Inductive VaultError :=
| EmptyPassphrase
| DerivationFailed
| UnexpectedBlobSize
| LengthsDiffer
| WrongBlobSize
| CannotOpenTemp
| ShortWrite
| RenameFailed.

(** What [randombytes_buf] wrote for one blob. *)
Record SealRandom := mkRandom {
  rnd_salt : bytes;
  rnd_nonce : bytes;
}.

(** The disk: files by path. *)
Abbreviation Files := (gmap qstring bytes).

Section vault.
Context `{!Qt, !Sodium, !Argon2}.

Definition pp_bytes (s : qstring) : bytes := toUtf8 (normalized_C s).

(** ** One blob *)

(** Everything before the nonce, which is also the associated data. *)
Definition vault_header (salt : bytes) (opslimit memlimit : Z) : bytes :=
  kVaultVersion :: salt ++ put_u64_be opslimit ++ put_u64_be memlimit.

Definition seal_seed (r : SealRandom) (passphrase : qstring) (seed : bytes) (opslimit memlimit : Z)
    : result VaultError bytes :=
  if bool_decide (passphrase = []) then Throw EmptyPassphrase
  else
    let opslimit := if opslimit =? 0 then crypto_pwhash_OPSLIMIT_MODERATE else opslimit in
    let memlimit := if memlimit =? 0 then crypto_pwhash_MEMLIMIT_MODERATE else memlimit in
    match pwhash (pp_bytes passphrase) (rnd_salt r) opslimit memlimit with
    | None => Throw DerivationFailed
    | Some kdf_out =>
        let aad := vault_header (rnd_salt r) opslimit memlimit in
        Ok (aad ++ rnd_nonce r ++ xchacha_seal kdf_out (rnd_nonce r) seed aad)
    end.

(** The fields of a blob from offset [off], the one of the salt. *)
Definition blob_salt (off : nat) (blob : bytes) : bytes := take 16 (drop off blob).
Definition blob_ops (off : nat) (blob : bytes) : Z := get_u64_be (take 8 (drop (off + 16) blob)).
Definition blob_mem (off : nat) (blob : bytes) : Z := get_u64_be (take 8 (drop (off + 24) blob)).
Definition blob_nonce (off : nat) (blob : bytes) : bytes := take 24 (drop (off + 32) blob).
Definition blob_ct (off : nat) (blob : bytes) : bytes := drop (off + 56) blob.

(** The largest [std::size_t] of a 64-bit build. *)
Definition size_max : Z := u64_max - 1.

Definition params_refused (ops mem : Z) : bool :=
  (size_max <? mem) || (kMaxMemlimit <? mem) || (mem <? kMinMemlimit) || (ops <? kMinOpslimit).

(** The result, and the limits of each derivation that ran. *)
Definition open_seed (passphrase : qstring) (blob : bytes) : option bytes * list (Z * Z) :=
  let v2 := (length blob =? kVaultBlobBytes)%nat && bool_decide (blob !!! 0%nat = kVaultVersion) in
  let v1 := (length blob =? kVaultV1Bytes)%nat in
  if negb v1 && negb v2 then (None, [])
  else
    let off := if v2 then 1%nat else 0%nat in
    let ops := blob_ops off blob in
    let mem := blob_mem off blob in
    if params_refused ops mem then (None, [])
    else
      let aad := if v2 then take (off + 32) blob else [] in
      (match pwhash (pp_bytes passphrase) (blob_salt off blob) ops mem with
       | None => None
       | Some kdf_out => xchacha_open kdf_out (blob_nonce off blob) (blob_ct off blob) aad
       end, [(ops, mem)]).

(** ** Two blobs: the real one and the decoy *)

Definition seal_seed_dual (r1 r2 : SealRandom) (real_passphrase : qstring) (real_seed : bytes)
    (decoy_passphrase : qstring) (decoy_seed : bytes) (opslimit memlimit : Z) : result VaultError bytes :=
  let? real_blob := seal_seed r1 real_passphrase real_seed opslimit memlimit in
  let? decoy_blob := seal_seed r2 decoy_passphrase decoy_seed opslimit memlimit in
  if negb (length real_blob =? kVaultBlobBytes)%nat || negb (length decoy_blob =? kVaultBlobBytes)%nat
  then Throw UnexpectedBlobSize
  else Ok (real_blob ++ decoy_blob).

Definition open_seed_dual (passphrase : qstring) (blob : bytes) : option bytes * list (Z * Z) :=
  if (length blob =? kVaultBlobBytes)%nat || (length blob =? kVaultV1Bytes)%nat then open_seed passphrase blob
  else if negb (length blob =? kVaultDualBytes)%nat then (None, [])
  else
    let '(a, wa) := open_seed passphrase (take kVaultBlobBytes blob) in
    let '(b, wb) := open_seed passphrase (drop kVaultBlobBytes blob) in
    (match a with Some _ => a | None => b end, wa ++ wb).

(** ** Any number of blobs *)

(** The loop over passphrases and seeds, with the blob written so far; [rs i] is what
    slot [i] draws. *)
Fixpoint seal_slots (rs : nat -> SealRandom) (i : nat) (passphrases : list qstring) (seeds : list bytes)
    (opslimit memlimit : Z) (out : bytes) : result VaultError bytes :=
  match passphrases, seeds with
  | pp :: pps', seed :: seeds' =>
      let? slot := seal_seed (rs i) pp seed opslimit memlimit in
      if negb (length slot =? kVaultBlobBytes)%nat then Throw UnexpectedBlobSize
      else seal_slots rs (S i) pps' seeds' opslimit memlimit (out ++ slot)
  | _, _ => Ok out
  end.

Definition seal_seeds_multi (rs : nat -> SealRandom) (passphrases : list qstring) (seeds : list bytes)
    (opslimit memlimit : Z) : result VaultError bytes :=
  if bool_decide (passphrases = []) || negb (length passphrases =? length seeds)%nat then Throw LengthsDiffer
  else seal_slots rs 0 passphrases seeds opslimit memlimit [].

Definition slot_at (blob : bytes) (i : nat) : bytes := take kVaultBlobBytes (drop (i * kVaultBlobBytes) blob).

(** One turn of the loop: the first match is kept, every slot is tried. *)
Definition try_slot (passphrase : qstring) (blob : bytes) (st : option bytes * list (Z * Z)) (i : nat)
    : option bytes * list (Z * Z) :=
  let '(matched, work) := st in
  let '(s, w) := open_seed passphrase (slot_at blob i) in
  (match s, matched with Some _, None => s | _, _ => matched end, work ++ w).

Definition open_seed_multi (passphrase : qstring) (blob : bytes) : option bytes * list (Z * Z) :=
  if (length blob =? kVaultBlobBytes)%nat || (length blob =? kVaultV1Bytes)%nat then open_seed passphrase blob
  else if (length blob <? kVaultBlobBytes)%nat || negb (length blob mod kVaultBlobBytes =? 0)%nat then (None, [])
  else foldl (try_slot passphrase blob) (None, []) (seq 0 (length blob / kVaultBlobBytes)).

(** ** Files *)

(** [clean.remove('/').remove('\\').remove('\0')] *)
Definition clean_name (username : qstring) : qstring :=
  let clean := filter (fun c => c <> 47 /\ c <> 92 /\ c <> 0) username in
  if bool_decide (clean = []) then qtext "default" else clean.

Definition vault_path_for (username : qstring) : qstring :=
  filePath (clean_name username ++ qtext ".vault").

(** [readable]: whether [open] succeeds. *)
Definition load_vault_file (readable : bool) (path : qstring) (fs : Files) : option bytes :=
  match fs !! path with
  | None => None
  | Some contents =>
      if negb readable then None
      else if negb (length contents =? kVaultBlobBytes)%nat && negb (length contents =? kVaultV1Bytes)%nat then None
      else Some contents
  end.

(** What the system does: whether the temporary file opens, how much is written and
    whether it can be renamed. *)
Record SaveIo := mkSaveIo {
  io_opens : bool;
  io_written : nat;
  io_renames : bool;
}.

Definition tmp_path (path : qstring) : qstring := path ++ qtext ".tmp".

(** The result, and the states of the disk after each system call. *)
Definition save_vault_file (io : SaveIo) (path : qstring) (blob : bytes) (fs : Files)
    : result VaultError unit * list Files :=
  if negb (length blob =? kVaultBlobBytes)%nat && negb (length blob =? kVaultV1Bytes)%nat
  then (Throw WrongBlobSize, [])
  else if negb (io_opens io) then (Throw CannotOpenTemp, [])
  else
    let opened := <[tmp_path path := []]> fs in
    let written := <[tmp_path path := take (io_written io) blob]> fs in
    if negb (io_written io =? length blob)%nat then (Throw ShortWrite, [opened; written])
    else if negb (io_renames io) then (Throw RenameFailed, [opened; written; delete (tmp_path path) written])
    else (Ok tt, [opened; written; <[path := blob]> (delete (tmp_path path) written)]).

(** The disk when the call returns. *)
Definition disk_after (states : list Files) (fs : Files) : Files := default fs (last states).

Definition remove_vault_file (path : qstring) (fs : Files) : Files := delete path fs.

(** ** The recovery code *)

Definition seed_to_recovery_hex (seed : bytes) : qstring := seed ≫= hex_pair.

(** One digit: [QChar::digitValue], or a letter from [a] to [f]. *)
Definition code_digit (c : Z) : option Z :=
  let d := digitValue c in
  if d <? 0 then (if (97 <=? c) && (c <=? 102) then Some (10 + (c - 97)) else None) else Some d.

Fixpoint code_bytes (clean : qstring) : option bytes :=
  match clean with
  | a :: b :: clean' =>
      match code_digit a with
      | None => None
      | Some hi =>
          match code_digit b with
          | None => None
          | Some lo => cons (z2b (Z.lor (Z.shiftl hi 4) lo)) <$> code_bytes clean'
          end
      end
  | _ => Some []
  end.

Definition recovery_hex_to_seed (hex : qstring) : option bytes :=
  let clean := toLower (filter (fun c => c <> 32) (simplified hex)) in
  if negb (length clean =? 64)%nat then None else code_bytes clean.

(** ** Signing in ([login_dialog.cpp])

    The derivation runs in the background while the button is disabled; a handler and
    the continuation that finishes it are one definition. *)

Inductive LoginError :=
| UsernameRequired
| PassphraseRequired
| PassphrasesDiffer
| VaultExists
| CreateFailed (e : VaultError)
| NoIdentitySelected
| VaultNotReadable
| WrongPassphrase
| BadPhrase
| BadCode
| BadHexShare
| BadShare (e : ShamirError)
| TooFewShares
| WrongSecretSize
| RecombineFailed (e : ShamirError)
| Declined
| RestoreFailed (e : VaultError).

(** [accept()] with [username_] and [seed_], or the message shown. *)
Inductive LoginOutcome :=
| Accepted (username : qstring) (seed : bytes)
| Refused (e : LoginError).

(** What the environment supplies to a handler that writes a vault. *)
Record SealEnv := mkSealEnv {
  env_random : SealRandom;
  env_io : SaveIo;
}.

(** Sealing under the default limits and saving: what the continuations do. *)
Definition seal_and_save (env : SealEnv) (failed : VaultError -> LoginError) (user pass : qstring)
    (seed : bytes) (fs : Files) : LoginOutcome * Files :=
  match seal_seed (env_random env) pass seed 0 0 with
  | Throw e => (Refused (failed e), fs)
  | Ok blob =>
      let '(r, states) := save_vault_file (env_io env) (vault_path_for user) blob fs in
      (match r with Throw e => Refused (failed e) | Ok _ => Accepted user seed end, disk_after states fs)
  end.

(** [seed] is the one of the generated identity. *)
Definition onCreateAccept (env : SealEnv) (seed : bytes) (user_text p1 p2 : qstring) (fs : Files)
    : LoginOutcome * Files :=
  let user := trimmed user_text in
  if bool_decide (user = []) then (Refused UsernameRequired, fs)
  else if bool_decide (p1 = []) then (Refused PassphraseRequired, fs)
  else if negb (bool_decide (p1 = p2)) then (Refused PassphrasesDiffer, fs)
  else if bool_decide (is_Some (fs !! vault_path_for user)) then (Refused VaultExists, fs)
  else seal_and_save env CreateFailed user p1 seed fs.

Definition onSignInAccept (readable : bool) (user pass : qstring) (fs : Files) : LoginOutcome :=
  if bool_decide (user = []) then Refused NoIdentitySelected
  else
    match load_vault_file readable (vault_path_for user) fs with
    | None => Refused VaultNotReadable
    | Some blob =>
        match (open_seed pass blob).1 with
        | None => Refused WrongPassphrase
        | Some seed => Accepted user seed
        end
    end.

(** The question before an existing vault is replaced. *)
Definition overwrite_declined (overwrite : bool) (user : qstring) (fs : Files) : bool :=
  bool_decide (is_Some (fs !! vault_path_for user)) && negb overwrite.

Context `{!Sha256}.

Definition onRecoverAccept (env : SealEnv) (overwrite : bool) (user_text text pass : qstring) (fs : Files)
    : LoginOutcome * Files :=
  let user := trimmed user_text in
  if bool_decide (user = []) then (Refused UsernameRequired, fs)
  else if bool_decide (pass = []) then (Refused PassphraseRequired, fs)
  else
    match (if contains_space text
           then match phrase_to_seed text with Some seed => inr seed | None => inl BadPhrase end
           else match recovery_hex_to_seed text with Some seed => inr seed | None => inl BadCode end) with
    | inl e => (Refused e, fs)
    | inr seed =>
        if overwrite_declined overwrite user fs then (Refused Declined, fs)
        else seal_and_save env RestoreFailed user pass seed fs
    end.

(** The loop over the lines. *)
Fixpoint read_shares (lines : list qstring) (shares : list Share) : LoginError + list Share :=
  match lines with
  | [] => inr shares
  | raw :: lines' =>
      let line := trimmed raw in
      if bool_decide (line = []) then read_shares lines' shares
      else
        let compact := remove_spaces line in
        if negb (length compact mod 2 =? 0)%nat || contains_non_hex compact then inl BadHexShare
        else
          match decode_share (fromHex (toUtf8 compact)) with
          | Throw e => inl (BadShare e)
          | Ok s => read_shares lines' (shares ++ [s])
          end
  end.

(** [confirm] and [overwrite] are the answers to the two questions; the first shows
    the fingerprint of the recovered identity. *)
Definition onShamirAccept (env : SealEnv) (confirm overwrite : bool) (user_text text pass : qstring)
    (fs : Files) : LoginOutcome * Files :=
  let user := trimmed user_text in
  if bool_decide (user = []) then (Refused UsernameRequired, fs)
  else if bool_decide (pass = []) then (Refused PassphraseRequired, fs)
  else
    match read_shares (split_lines text) [] with
    | inl e => (Refused e, fs)
    | inr shares =>
        if (length shares <? 2)%nat then (Refused TooFewShares, fs)
        else
          match combine shares with
          | Throw e => (Refused (RecombineFailed e), fs)
          | Ok recovered =>
              if negb (length recovered =? kSeedBytes)%nat then (Refused WrongSecretSize, fs)
              else if negb confirm then (Refused Declined, fs)
              else if overwrite_declined overwrite user fs then (Refused Declined, fs)
              else seal_and_save env RestoreFailed user pass recovered fs
          end
    end.

(** ** Handing out shares ([shamir_setup_wizard.cpp]) *)

Inductive WizardError :=
| EnterPassphrase
| NoVaultFile
| UnlockRefused
| NotUnlocked
| BadThreshold
| SplitFailed (e : ShamirError)
| ShareIndexOutOfRange
| EncodeFailed (e : ShamirError).

Definition onUnlockClicked (readable : bool) (username passphrase : qstring) (fs : Files)
    : result WizardError bytes :=
  if bool_decide (passphrase = []) then Throw EnterPassphrase
  else
    match load_vault_file readable (vault_path_for username) fs with
    | None => Throw NoVaultFile
    | Some blob =>
        match (open_seed_multi passphrase blob).1 with
        | None => Throw UnlockRefused
        | Some seed => Ok seed
        end
    end.

(** The loop over the picked contacts: [shares[i]] is not checked. *)
Fixpoint share_messages (shares : list Share) (picked : list qstring) (i : nat)
    : result WizardError (list (qstring * bytes)) :=
  match picked with
  | [] => Ok []
  | contact :: picked' =>
      match shares !! i with
      | None => Throw ShareIndexOutOfRange
      | Some s =>
          match encode_share s with
          | Throw e => Throw (EncodeFailed e)
          | Ok wire => let? rest := share_messages shares picked' (S i) in Ok ((contact, wire) :: rest)
          end
      end
  end.

(** The shares sent, each with its contact; the counts are cast to bytes. *)
Definition onDistributeClicked (rnd : nat -> nat -> bytes) (seed : option bytes) (picked : list qstring)
    (threshold : Z) : result WizardError (list (qstring * bytes)) :=
  match seed with
  | None => Throw NotUnlocked
  | Some seed =>
      let total := Z.of_nat (length picked) in
      if (total <? threshold) || (threshold <? 1) then Throw BadThreshold
      else
        match split rnd seed (z2b threshold) (z2b total) with
        | Throw e => Throw (SplitFailed e)
        | Ok shares => share_messages shares picked 0
        end
  end.

(** How a trustee's client shows a share ([heldShamirShares]). *)
Definition shareHex (share : bytes) : qstring := share ≫= hex_pair.

End vault.

(** ** Fields *)

Lemma be_bytes_snoc n v : be_bytes (S n) v = be_bytes n (Z.shiftr v 8) ++ [z2b (Z.land v 255)].
Proof.
  induction n as [|n IH]; [by cbn [be_bytes]; rewrite Z.shiftr_0_r|].
  change (be_bytes (S (S n)) v) with (z2b (Z.land (Z.shiftr v (8 * Z.of_nat (S n))) 255) :: be_bytes (S n) v).
  rewrite IH. cbn [be_bytes app]. rewrite Z.shiftr_shiftr by lia. do 4 f_equal. lia.
Qed.

Lemma put_be_loop_eq n v acc : put_be_loop n v acc = be_bytes n v ++ acc.
Proof.
  revert v acc. induction n as [|n IH]; intros v acc; [done|].
  cbn [put_be_loop]. by rewrite IH, be_bytes_snoc, <- app_assoc.
Qed.

Lemma put_u64_be_eq v : put_u64_be v = be_bytes 8 v.
Proof. unfold put_u64_be. by rewrite put_be_loop_eq, app_nil_r. Qed.

Lemma length_put_u64_be v : length (put_u64_be v) = 8%nat.
Proof. rewrite put_u64_be_eq. apply length_be_bytes. Qed.

Lemma get_be_loop_eq l acc k :
  0 <= acc < 256 ^ k -> 0 <= k -> k + Z.of_nat (length l) <= 8 ->
  foldl (fun v b => u64 (Z.lor (Z.shiftl v 8) (b2z b))) acc l = foldl be_step acc l.
Proof.
  revert acc k. induction l as [|b l IH]; intros acc k Hacc Hk Hlen; [done|]. cbn [foldl length] in *.
  change (Z.lor (Z.shiftl acc 8) (b2z b)) with (be_step acc b).
  pose proof (be_step_add acc b ltac:(lia)) as E. pose proof (b2z_range b) as Hb.
  assert (be_step acc b < 256 ^ (k + 1)) as Hs by (rewrite E, Z.pow_add_r by lia; lia).
  assert (256 ^ (k + 1) <= 256 ^ 8) as Hp by (apply Z.pow_le_mono_r; lia).
  rewrite u64_small by (unfold_words; lia). apply (IH _ (k + 1)); lia.
Qed.

Lemma get_put_u64_be v : is_u64 v -> get_u64_be (put_u64_be v) = v.
Proof.
  intros Hv. rewrite put_u64_be_eq. unfold get_u64_be.
  rewrite (get_be_loop_eq _ 0 0) by (rewrite ?length_be_bytes; lia).
  change (foldl be_step 0 (be_bytes 8 v)) with (be_value (be_bytes 8 v)).
  apply be_value_be_bytes. exact Hv.
Qed.

Lemma take_drop_field {A} (a b c : list A) n k :
  length a = n -> length b = k -> take k (drop n (a ++ b ++ c)) = b.
Proof. intros <- <-. by rewrite drop_app_length, take_app_length. Qed.

Section proofs.
Context `{!Qt, !Sodium, !SodiumLaws, !Argon2}.

(** What is drawn has the sizes asked for. *)
Definition random_ok (r : SealRandom) : Prop :=
  length (rnd_salt r) = crypto_pwhash_SALTBYTES /\ length (rnd_nonce r) = xchacha_NPUBBYTES.

(** The limits after the defaults. *)
Definition effective_ops (opslimit : Z) : Z := if opslimit =? 0 then crypto_pwhash_OPSLIMIT_MODERATE else opslimit.
Definition effective_mem (memlimit : Z) : Z := if memlimit =? 0 then crypto_pwhash_MEMLIMIT_MODERATE else memlimit.

(** Limits that [open_seed] accepts. *)
Definition limits_ok (opslimit memlimit : Z) : Prop :=
  kMinOpslimit <= effective_ops opslimit < u64_max /\ kMinMemlimit <= effective_mem memlimit <= kMaxMemlimit.

Lemma params_accepted ops mem :
  kMinOpslimit <= ops -> kMinMemlimit <= mem <= kMaxMemlimit -> params_refused ops mem = false.
Proof.
  unfold params_refused, kMinOpslimit, kMinMemlimit, kMaxMemlimit, size_max, u64_max. intros Ho Hm.
  by rewrite (proj2 (Z.ltb_ge _ mem)), (proj2 (Z.ltb_ge _ mem)), (proj2 (Z.ltb_ge mem _)), (proj2 (Z.ltb_ge ops _)) by lia.
Qed.

(** Opening a blob with the header and fields that [seal_seed] writes. *)
Lemma open_seed_fields pp salt ops mem nonce ct :
  length salt = 16%nat -> length nonce = 24%nat -> length ct = 48%nat -> is_u64 ops -> is_u64 mem ->
  kMinOpslimit <= ops -> kMinMemlimit <= mem <= kMaxMemlimit ->
  open_seed pp (vault_header salt ops mem ++ nonce ++ ct) =
    (match pwhash (pp_bytes pp) salt ops mem with
     | None => None
     | Some key => xchacha_open key nonce ct (vault_header salt ops mem)
     end, [(ops, mem)]).
Proof.
  intros Hs Hn Hc Ho Hm Hbo Hbm. set (blob := vault_header salt ops mem ++ nonce ++ ct).
  pose proof (length_put_u64_be ops) as Lo. pose proof (length_put_u64_be mem) as Lm.
  assert (blob = [kVaultVersion] ++ salt ++ put_u64_be ops ++ put_u64_be mem ++ nonce ++ ct) as Eb.
  { unfold blob, vault_header. cbn [app]. by rewrite <- !app_assoc. }
  assert (length blob = 105%nat) as Hl by (rewrite Eb, !length_app; cbn [length]; lia).
  assert (blob_salt 1 blob = salt) as E1 by (rewrite Eb; by apply (take_drop_field [kVaultVersion])).
  assert (blob_ops 1 blob = ops) as E2.
  { unfold blob_ops. rewrite Eb, (app_assoc [_] salt).
    rewrite (take_drop_field ([kVaultVersion] ++ salt)) by (rewrite ?length_app; cbn [length]; lia).
    by apply get_put_u64_be. }
  assert (blob_mem 1 blob = mem) as E3.
  { unfold blob_mem. rewrite Eb, (app_assoc [_] salt), (app_assoc (_ ++ salt)).
    rewrite (take_drop_field (([kVaultVersion] ++ salt) ++ put_u64_be ops)) by (rewrite ?length_app; cbn [length]; lia).
    by apply get_put_u64_be. }
  assert (length (vault_header salt ops mem) = 33%nat) as Lh
    by (unfold vault_header; cbn [length]; rewrite !length_app; lia).
  assert (blob_nonce 1 blob = nonce) as E4 by by apply (take_drop_field (vault_header salt ops mem)).
  assert (blob_ct 1 blob = ct) as E5.
  { unfold blob_ct, blob. rewrite app_assoc. apply drop_app_length'. rewrite length_app. lia. }
  assert (take 33 blob = vault_header salt ops mem) as E6 by by apply take_app_length'.
  assert (blob !!! 0%nat = kVaultVersion) as E0 by by rewrite Eb.
  unfold open_seed. rewrite Hl, E0, bool_decide_eq_true_2 by done. cbn [Nat.eqb kVaultBlobBytes kVaultV1Bytes negb andb].
  rewrite E2, E3, params_accepted by done. change (1 + 32)%nat with 33%nat. by rewrite E1, E4, E5, E6.
Qed.

(** What a call of [seal_seed] that succeeds returns. *)
Lemma seal_seed_ok r pp seed opslimit memlimit blob :
  seal_seed r pp seed opslimit memlimit = Ok blob ->
  pp <> [] /\ exists key,
    pwhash (pp_bytes pp) (rnd_salt r) (effective_ops opslimit) (effective_mem memlimit) = Some key /\
    let aad := vault_header (rnd_salt r) (effective_ops opslimit) (effective_mem memlimit) in
    blob = aad ++ rnd_nonce r ++ xchacha_seal key (rnd_nonce r) seed aad.
Proof.
  unfold seal_seed. case_bool_decide as Hp; [done|]. fold (effective_ops opslimit) (effective_mem memlimit).
  destruct (pwhash _ _ _ _) as [key|] eqn:E; [|done]. intros [= <-]. eauto.
Qed.

Lemma limits_words opslimit memlimit :
  limits_ok opslimit memlimit -> is_u64 (effective_ops opslimit) /\ is_u64 (effective_mem memlimit).
Proof.
  unfold limits_ok, kMinOpslimit, kMinMemlimit, kMaxMemlimit, is_u64, u64_max. lia.
Qed.

(** A sealed seed is opened with its passphrase; with any other, the same derivation runs. *)
Lemma open_sealed r pp seed opslimit memlimit blob :
  seal_seed r pp seed opslimit memlimit = Ok blob -> random_ok r -> length seed = kSeedBytes ->
  limits_ok opslimit memlimit ->
  length blob = kVaultBlobBytes /\
  (open_seed pp blob).1 = Some seed /\
  forall pp', (open_seed pp' blob).2 = [(effective_ops opslimit, effective_mem memlimit)].
Proof.
  intros (Hp & key & Ek & ->)%seal_seed_ok [Hs Hn] Hl Hlim. cbv zeta.
  destruct (limits_words _ _ Hlim) as [Ho Hm]. destruct Hlim as [Hbo Hbm].
  unfold crypto_pwhash_SALTBYTES, xchacha_NPUBBYTES, kSeedBytes in *.
  assert (forall a, length (xchacha_seal key (rnd_nonce r) seed a) = 48%nat) as Hct
    by (intros a; rewrite length_seal; lia).
  split.
  { rewrite !length_app, Hct, Hn. unfold vault_header. cbn [length]. rewrite !length_app, !length_put_u64_be, Hs. done. }
  split; [|intros pp']; rewrite open_seed_fields by (done || lia); [|done].
  cbn [fst]. rewrite Ek. apply open_seal.
Qed.

(** ** Several slots *)

(** The derivations that run are those the file asks for. *)
Lemma open_seed_work pp pp' blob : (open_seed pp blob).2 = (open_seed pp' blob).2.
Proof. unfold open_seed. by repeat case_match. Qed.

(** What the first slots that open return, and all the work. *)
Definition slot_seed (pp : qstring) (blob : bytes) (i : nat) : option bytes := (open_seed pp (slot_at blob i)).1.
Definition slot_work (pp : qstring) (blob : bytes) (i : nat) : list (Z * Z) := (open_seed pp (slot_at blob i)).2.

Lemma try_slots_spec pp blob l m w :
  foldl (try_slot pp blob) (m, w) l =
    (match m with Some _ => m | None => head (omap (slot_seed pp blob) l) end, w ++ (l ≫= slot_work pp blob)).
Proof.
  revert m w. induction l as [|i l IH]; intros m w; cbn [foldl].
  { rewrite app_nil_r. by destruct m. }
  change ((i :: l) ≫= slot_work pp blob) with (slot_work pp blob i ++ (l ≫= slot_work pp blob)).
  change (omap (slot_seed pp blob) (i :: l)) with
    (match slot_seed pp blob i with Some y => y :: omap (slot_seed pp blob) l | None => omap (slot_seed pp blob) l end).
  unfold try_slot at 2. unfold slot_seed at 1, slot_work at 1.
  destruct (open_seed pp (slot_at blob i)) as [s ws] eqn:E. rewrite IH. cbn [fst snd].
  rewrite <- app_assoc. f_equal. by destruct s, m.
Qed.

(** A file of whole slots is searched slot by slot, also when there is only one. *)
Lemma open_seed_multi_slots pp blob n :
  length blob = (n * kVaultBlobBytes)%nat -> (0 < n)%nat ->
  open_seed_multi pp blob =
    (head (omap (slot_seed pp blob) (seq 0 n)), seq 0 n ≫= slot_work pp blob).
Proof.
  intros Hl Hn. unfold open_seed_multi. rewrite Hl. unfold kVaultBlobBytes, kVaultV1Bytes in *.
  destruct (Nat.eqb_spec (n * 105) 104) as [|_]; [lia|].
  destruct (Nat.eqb_spec (n * 105) 105) as [E|_]; cbn [orb].
  - assert (n = 1%nat) as -> by lia. cbn [seq omap list_omap mbind list_bind].
    assert (slot_at blob 0 = blob) as Es by (unfold slot_at; cbn [Nat.mul drop]; apply take_ge; unfold kVaultBlobBytes; lia).
    unfold slot_seed, slot_work. rewrite Es, app_nil_r. by destruct (open_seed pp blob) as [[|] ?].
  - rewrite (proj2 (Nat.ltb_ge _ 105)) by lia. rewrite Nat.Div0.mod_mul, Nat.div_mul by lia. cbn [orb negb Nat.eqb].
    by rewrite try_slots_spec.
Qed.

Lemma open_seed_multi_work pp pp' blob : (open_seed_multi pp blob).2 = (open_seed_multi pp' blob).2.
Proof.
  unfold open_seed_multi. case_match; [apply open_seed_work|]. case_match; [done|].
  rewrite !try_slots_spec. cbn [snd]. f_equal. generalize (seq 0 (length blob / kVaultBlobBytes)).
  intros l. induction l as [|i l IH]; [done|]. cbn [mbind list_bind]. f_equal; [apply open_seed_work|exact IH].
Qed.

Lemma open_seed_dual_work pp pp' blob : (open_seed_dual pp blob).2 = (open_seed_dual pp' blob).2.
Proof.
  unfold open_seed_dual. case_match; [apply open_seed_work|]. case_match; [done|].
  pose proof (open_seed_work pp pp' (take kVaultBlobBytes blob)) as E1.
  pose proof (open_seed_work pp pp' (drop kVaultBlobBytes blob)) as E2.
  destruct (open_seed pp (take _ _)), (open_seed pp (drop _ _)), (open_seed pp' (take _ _)), (open_seed pp' (drop _ _)).
  cbn [snd] in *. by subst.
Qed.

Lemma seal_slots_ok rs i pps seeds opslimit memlimit out blob :
  seal_slots rs i pps seeds opslimit memlimit out = Ok blob -> length pps = length seeds ->
  exists slots, blob = out ++ mjoin slots /\ length slots = length pps /\
    forall j slot, slots !! j = Some slot -> length slot = kVaultBlobBytes /\
      exists pp seed, pps !! j = Some pp /\ seeds !! j = Some seed /\
        seal_seed (rs (i + j)%nat) pp seed opslimit memlimit = Ok slot.
Proof.
  revert i seeds out. induction pps as [|pp pps IH]; intros i [|seed seeds] out Hs Hl; try done; cbn [seal_slots] in Hs.
  { injection Hs as <-. exists []. rewrite app_nil_r. done. }
  destruct (seal_seed (rs i) pp seed opslimit memlimit) as [slot|e] eqn:E; cbn [rbind] in Hs; [|done].
  destruct (Nat.eqb_spec (length slot) kVaultBlobBytes) as [Hlen|]; cbn [negb] in Hs; [|done].
  apply IH in Hs as (slots & -> & Hls & Hslots); [|by injection Hl].
  exists (slot :: slots). split; [by rewrite <- app_assoc|]. split; [by cbn [length]; rewrite Hls|].
  intros [|j] sl Hj; cbn [lookup list_lookup] in Hj.
  - injection Hj as <-. split; [done|]. exists pp, seed. rewrite Nat.add_0_r. done.
  - destruct (Hslots j sl Hj) as (? & p' & s' & ? & ? & Hsl). split; [done|]. exists p', s'.
    by rewrite <- Nat.add_succ_comm.
Qed.

Lemma slot_at_join (slots : list bytes) i slot :
  (forall j sl, slots !! j = Some sl -> length sl = kVaultBlobBytes) -> slots !! i = Some slot ->
  slot_at (mjoin slots) i = slot.
Proof.
  revert i. induction slots as [|s slots IH]; intros i Hlen Hi; [done|].
  change (mjoin (s :: slots)) with (s ++ mjoin slots).
  pose proof (Hlen 0%nat s eq_refl) as Hs. destruct i as [|i]; cbn [lookup list_lookup] in Hi.
  - injection Hi as ->. unfold slot_at. cbn [Nat.mul drop]. by apply take_app_length'.
  - unfold slot_at. cbn [Nat.mul]. rewrite <- Hs at 2. rewrite <- drop_drop, drop_app_length.
    apply IH; [|done]. intros j sl Hj. by apply (Hlen (S j)).
Qed.

Lemma length_join_slots (slots : list bytes) :
  (forall j sl, slots !! j = Some sl -> length sl = kVaultBlobBytes) ->
  length (mjoin slots) = (length slots * kVaultBlobBytes)%nat.
Proof.
  induction slots as [|s slots IH]; intros Hlen; [done|].
  change (mjoin (s :: slots)) with (s ++ mjoin slots). rewrite length_app, IH.
  - rewrite (Hlen 0%nat s eq_refl). cbn [length]. lia.
  - intros j sl Hj. by apply (Hlen (S j)).
Qed.

(** The slots of a sealed file and what is known of each. *)
Lemma multi_slots rs pps seeds opslimit memlimit blob :
  seal_seeds_multi rs pps seeds opslimit memlimit = Ok blob ->
  pps <> [] /\ length pps = length seeds /\ length blob = (length pps * kVaultBlobBytes)%nat /\
  forall i pp seed, pps !! i = Some pp -> seeds !! i = Some seed ->
    seal_seed (rs i) pp seed opslimit memlimit = Ok (slot_at blob i).
Proof.
  unfold seal_seeds_multi. case_bool_decide as Hne; cbn [orb]; [done|].
  destruct (Nat.eqb_spec (length pps) (length seeds)) as [Hl|]; cbn [negb]; [|done].
  intros (slots & -> & Hls & Hslots)%seal_slots_ok; [|done]. cbn [app].
  assert (forall j sl, slots !! j = Some sl -> length sl = kVaultBlobBytes) as Hlen by (intros; by eapply Hslots).
  split; [done|]. split; [done|]. split; [rewrite length_join_slots by done; by rewrite Hls|].
  intros i pp seed Hp Hs.
  destruct (lookup_lt_is_Some_2 slots i) as [slot Hi]; [rewrite Hls; by eapply lookup_lt_Some|].
  rewrite (slot_at_join slots i slot) by done.
  destruct (Hslots i slot Hi) as (_ & pp' & seed' & Hp' & Hs' & E). cbn [Nat.add] in E. congruence.
Qed.

Lemma head_omap_first {A} (f : nat -> option A) n i x :
  (i < n)%nat -> f i = Some x -> (forall j, (j < i)%nat -> f j = None) -> head (omap f (seq 0 n)) = Some x.
Proof.
  intros Hi Hx Hnone. replace n with (i + S (n - i - 1))%nat by lia. rewrite seq_app, omap_app.
  replace (omap f (seq 0 i)) with (@nil A).
  - cbn [app seq Nat.add]. cbn [omap list_omap]. by rewrite Hx.
  - symmetry. apply elem_of_nil_inv. intros y (j & Hj & Hy)%list_elem_of_omap.
    apply elem_of_seq in Hj. rewrite Hnone in Hy by lia. done.
Qed.

(** C9: unlocking a file of several personas.  Whatever the bytes of the file, and
    also for the file with a decoy, the derivations that run are the same for every
    passphrase, so that the time of an unlock does not tell which persona it was.
    And in a file sealed for some personas, with limits the client accepts, a
    persona's passphrase opens its seed unless an earlier slot answers to it, with
    one derivation per slot. *)
Theorem persona_vault_unlock :
  (forall pp pp' blob, (open_seed_multi pp blob).2 = (open_seed_multi pp' blob).2 /\
    (open_seed_dual pp blob).2 = (open_seed_dual pp' blob).2) /\
  forall rs pps (seeds : list bytes) opslimit memlimit blob,
    seal_seeds_multi rs pps seeds opslimit memlimit = Ok blob ->
    (forall i, random_ok (rs i)) -> Forall (fun seed : bytes => length seed = kSeedBytes) seeds ->
    limits_ok opslimit memlimit ->
    forall i pp seed, pps !! i = Some pp -> seeds !! i = Some seed ->
      (forall j, (j < i)%nat -> (open_seed pp (slot_at blob j)).1 = None) ->
      open_seed_multi pp blob =
        (Some seed, replicate (length pps) (effective_ops opslimit, effective_mem memlimit)).
Proof.
  split; [intros; split; [apply open_seed_multi_work|apply open_seed_dual_work]|].
  intros rs pps seeds opslimit memlimit blob Hseal Hr Hseeds Hlim i pp seed Hp Hs Hearlier.
  destruct (multi_slots _ _ _ _ _ _ Hseal) as (Hne & Hl & Hlen & Hslot).
  assert (0 < length pps)%nat as Hpos by (destruct pps; [done|cbn [length]; lia]).
  rewrite (open_seed_multi_slots pp blob (length pps)) by done. f_equal.
  - apply (head_omap_first _ _ i); [by eapply lookup_lt_Some| |exact Hearlier].
    apply (open_sealed (rs i) pp seed opslimit memlimit); auto. by apply (Forall_lookup_1 _ _ _ _ Hseeds Hs).
  - assert (forall j, (j < length pps)%nat ->
      slot_work pp blob j = [(effective_ops opslimit, effective_mem memlimit)]) as Hw.
    { intros j Hj. destruct (lookup_lt_is_Some_2 pps j Hj) as [p' Hp'].
      destruct (lookup_lt_is_Some_2 seeds j) as [s' Hs']; [by rewrite <- Hl|].
      apply (open_sealed (rs j) p' s' opslimit memlimit); auto. by apply (Forall_lookup_1 _ _ _ _ Hseeds Hs'). }
    clear -Hw. induction (length pps) as [|n IH]; [done|].
    rewrite seq_S, bind_app, IH by (intros; apply Hw; lia). cbn [mbind list_bind Nat.add].
    rewrite Hw by lia. rewrite replicate_S_end. by rewrite app_nil_r.
Qed.

(** ** Files *)

Lemma tmp_path_ne path : tmp_path path <> path.
Proof.
  intros E. apply (f_equal length) in E. unfold tmp_path in E. rewrite length_app in E.
  change (length (qtext ".tmp")) with 4%nat in E. lia.
Qed.

(** Whatever fails, and wherever the program stops, the vault is the old or the new one. *)
Theorem save_vault_atomic io path blob fs st :
  st ∈ (save_vault_file io path blob fs).2 -> st !! path = fs !! path \/ st !! path = Some blob.
Proof.
  unfold save_vault_file. pose proof (tmp_path_ne path) as Hne.
  assert (forall c, (<[tmp_path path := c]> fs : Files) !! path = fs !! path) as Hw
    by (intros c; by apply lookup_insert_ne).
  repeat case_match; cbn [snd]; rewrite ?elem_of_cons, ?elem_of_nil; intros Hst; destruct_or?; subst; try done;
    rewrite ?lookup_insert_eq, ?lookup_delete_ne, ?Hw by done; auto.
Qed.

(** The environment does its part: sizes as asked, every file operation succeeds. *)
Definition env_ok (env : SealEnv) : Prop :=
  random_ok (env_random env) /\ env_io env = mkSaveIo true kVaultBlobBytes true.

Lemma save_vault_ok path blob fs :
  length blob = kVaultBlobBytes ->
  exists states, save_vault_file (mkSaveIo true kVaultBlobBytes true) path blob fs = (Ok tt, states) /\
    disk_after states fs !! path = Some blob.
Proof.
  intros Hl. unfold save_vault_file. rewrite Hl. cbn [io_opens io_written io_renames].
  rewrite Nat.eqb_refl. cbn [negb andb]. eexists. split; [done|]. unfold disk_after. cbn [last default].
  apply lookup_insert_eq.
Qed.

(** Sealing and saving gives a vault that the same passphrase opens. *)
Lemma seal_and_save_ok env failed user pass key seed fs :
  env_ok env -> user <> [] -> pass <> [] -> length seed = kSeedBytes ->
  pwhash (pp_bytes pass) (rnd_salt (env_random env)) crypto_pwhash_OPSLIMIT_MODERATE
    crypto_pwhash_MEMLIMIT_MODERATE = Some key ->
  exists fs', seal_and_save env failed user pass seed fs = (Accepted user seed, fs') /\
    onSignInAccept true user pass fs' = Accepted user seed /\ onUnlockClicked true user pass fs' = Ok seed.
Proof.
  intros [Hr Hio] Hu Hp Hl Hk. unfold seal_and_save.
  destruct (seal_seed (env_random env) pass seed 0 0) as [blob|e] eqn:E.
  2:{ unfold seal_seed in E. rewrite bool_decide_eq_false_2 in E by done. cbn [Z.eqb] in E. by rewrite Hk in E. }
  destruct (open_sealed _ _ _ _ _ _ E Hr Hl) as (Hlen & Hopen & _).
  { unfold limits_ok, effective_ops, effective_mem, kMinOpslimit, kMinMemlimit, kMaxMemlimit,
      crypto_pwhash_OPSLIMIT_MODERATE, crypto_pwhash_MEMLIMIT_MODERATE, u64_max. cbn [Z.eqb]. lia. }
  destruct (save_vault_ok (vault_path_for user) blob fs Hlen) as (states & Es & Hd). rewrite Hio, Es.
  exists (disk_after states fs). split; [done|].
  assert (load_vault_file true (vault_path_for user) (disk_after states fs) = Some blob) as Hload.
  { unfold load_vault_file. by rewrite Hd, Hlen. }
  unfold onSignInAccept, onUnlockClicked, open_seed_multi. rewrite Hload, Hlen, !bool_decide_eq_false_2 by done.
  cbn [Nat.eqb kVaultBlobBytes kVaultV1Bytes orb]. by rewrite Hopen.
Qed.

End proofs.

(** ** Codes *)

Section codes.
Context `{!Qt, !QtLaws}.

Lemma hex_at_facts : Forall (fun i => (48 <= hex_char_at i <= 57 /\ hex_char_at i = 48 + i) \/
  (97 <= hex_char_at i <= 102 /\ hex_char_at i = 87 + i)) (seqZ 0 16).
Proof. by_computing. Qed.

Lemma hex_at_cases i : 0 <= i < 16 ->
  (48 <= hex_char_at i <= 57 /\ hex_char_at i = 48 + i) \/ (97 <= hex_char_at i <= 102 /\ hex_char_at i = 87 + i).
Proof. intros Hi. apply (proj1 (Forall_forall _ _) hex_at_facts). apply elem_of_seqZ. lia. Qed.

Lemma hex_pair_digits b :
  exists hi lo, hex_pair b = [hex_char_at hi; hex_char_at lo] /\ 0 <= hi < 16 /\ 0 <= lo < 16 /\
    z2b (Z.lor (Z.shiftl hi 4) lo) = b.
Proof.
  exists (Z.land (Z.shiftr (b2z b) 4) 15), (Z.land (b2z b) 15). split; [done|].
  change 15 with (Z.ones 4). rewrite !Z.land_ones by lia.
  pose proof (Z.mod_pos_bound (Z.shiftr (b2z b) 4) (2 ^ 4) ltac:(lia)) as H1.
  pose proof (Z.mod_pos_bound (b2z b) (2 ^ 4) ltac:(lia)) as H2.
  split; [done|]. split; [done|]. rewrite lor_shiftl_add by lia.
  pose proof (b2z_range b). rewrite Z.shiftr_div_pow2 by lia.
  rewrite (Z.mod_small (b2z b / 2 ^ 4)) by (split; [apply Z.div_pos; lia|apply Z.div_lt_upper_bound; lia]).
  rewrite Z.mul_comm, <- Z.div_mod by lia. apply z2b_b2z.
Qed.

(** Every character of hexadecimal text is a lower-case digit. *)
Lemma hex_text_chars (l : bytes) : Forall (fun c => (48 <= c <= 57) \/ (97 <= c <= 102)) (l ≫= hex_pair).
Proof.
  induction l as [|b l IH]; [constructor|].
  change ((b :: l) ≫= hex_pair) with (hex_pair b ++ (l ≫= hex_pair)). apply Forall_app. split; [|done].
  destruct (hex_pair_digits b) as (hi & lo & -> & Hh & Hl & _).
  pose proof (hex_at_cases hi Hh). pose proof (hex_at_cases lo Hl).
  by repeat (apply Forall_cons; split; [lia|]).
Qed.

Lemma length_hex_text (l : bytes) : length (l ≫= hex_pair) = (2 * length l)%nat.
Proof.
  induction l as [|b l IH]; [done|].
  change ((b :: l) ≫= hex_pair) with (hex_pair b ++ (l ≫= hex_pair)). rewrite length_app, IH. cbn [length hex_pair]. lia.
Qed.

Lemma hex_text_graph (l : bytes) : Forall graph_char (l ≫= hex_pair).
Proof. eapply Forall_impl; [apply hex_text_chars|]. unfold graph_char. intros c Hc. cbv beta in Hc. lia. Qed.

Lemma hex_text_ascii (l : bytes) : Forall ascii_char (l ≫= hex_pair).
Proof. eapply Forall_impl; [apply hex_text_chars|]. unfold ascii_char. intros c Hc. cbv beta in Hc. lia. Qed.

Lemma map_id_Forall (f : Z -> Z) (l : qstring) : Forall (fun c => f c = c) l -> f <$> l = l.
Proof. induction 1 as [|c l Hc _ IH]; [done|]. cbn [fmap list_fmap]. by rewrite Hc, IH. Qed.

Lemma filter_id_Forall (P : Z -> Prop) `{forall c, Decision (P c)} (l : qstring) : Forall P l -> filter P l = l.
Proof. induction 1 as [|c l Hc _ IH]; [done|]. rewrite filter_cons_True by done. by rewrite IH. Qed.

(** Spaces, line ends and capitals apart, a code is its digits. *)
Lemma clean_hex_text (l : bytes) :
  toLower (filter (fun c => c <> 32) (simplified (l ≫= hex_pair))) = l ≫= hex_pair.
Proof.
  rewrite simplified_word by apply hex_text_graph.
  rewrite filter_id_Forall by (eapply Forall_impl; [apply hex_text_chars|]; intros c Hc; cbv beta in Hc; lia).
  rewrite toLower_ascii by apply hex_text_ascii. apply map_id_Forall.
  eapply Forall_impl; [apply hex_text_chars|]. intros c Hc. cbv beta in Hc. unfold lower_char.
  destruct (Z.leb_spec 65 c), (Z.leb_spec c 90); cbn; lia.
Qed.

Lemma code_digit_hex i : 0 <= i < 16 -> code_digit (hex_char_at i) = Some i.
Proof.
  intros Hi. unfold code_digit. pose proof (hex_at_cases i Hi) as Hc.
  rewrite digitValue_ascii by (unfold ascii_char; lia).
  destruct (Z.leb_spec 48 (hex_char_at i)), (Z.leb_spec (hex_char_at i) 57); cbn [andb]; try lia.
  - destruct (Z.ltb_spec (hex_char_at i - 48) 0); [lia|]. f_equal. lia.
  - change (-1 <? 0) with true. cbv iota.
    destruct (Z.leb_spec 97 (hex_char_at i)), (Z.leb_spec (hex_char_at i) 102); cbn [andb]; try lia. f_equal. lia.
Qed.

Lemma code_bytes_hex (l : bytes) : code_bytes (l ≫= hex_pair) = Some l.
Proof.
  induction l as [|b l IH]; [done|].
  change ((b :: l) ≫= hex_pair) with (hex_pair b ++ (l ≫= hex_pair)).
  destruct (hex_pair_digits b) as (hi & lo & -> & Hh & Hl & E). cbn [app code_bytes].
  rewrite !code_digit_hex, IH by done. cbn [fmap option_fmap option_map]. by rewrite E.
Qed.

Lemma recovery_code_roundtrip seed :
  length seed = kSeedBytes -> recovery_hex_to_seed (seed_to_recovery_hex seed) = Some seed.
Proof.
  intros Hl. unfold recovery_hex_to_seed, seed_to_recovery_hex.
  rewrite clean_hex_text, length_hex_text, Hl. cbn [negb Nat.eqb Nat.mul kSeedBytes Nat.add]. apply code_bytes_hex.
Qed.

(** ** Shares *)

Definition wire_of (s : Share) : bytes := share_x s :: share_y s.

Lemma encode_share_ok s w : encode_share s = Ok w -> w = wire_of s /\ share_y s <> [].
Proof.
  unfold encode_share. destruct (b2z (share_x s) =? 0); [done|]. case_bool_decide; [done|]. by intros [= <-].
Qed.

(** A line with a share's digits is read as the share. *)
Lemma read_shares_lines sel shares :
  Forall (fun s => encode_share s = Ok (wire_of s)) sel ->
  read_shares (shareHex <$> (wire_of <$> sel)) shares = inr (shares ++ sel).
Proof.
  intros Hsel. revert shares. induction Hsel as [|s sel Hs _ IH]; intros shares; [by rewrite app_nil_r|].
  cbn [fmap list_fmap read_shares]. set (line := shareHex (wire_of s)).
  assert (Forall graph_char line) as Hg by apply hex_text_graph.
  assert (line <> []) as Hne by done.
  assert (trimmed line = line) as ->.
  { apply (trimmed_words [line]). apply Forall_cons. split; [by split|constructor]. }
  rewrite bool_decide_eq_false_2, remove_spaces_word by done.
  assert (length line mod 2 = 0)%nat as ->.
  { unfold line, shareHex. rewrite length_hex_text, Nat.mul_comm. apply Nat.Div0.mod_mul. }
  rewrite contains_non_hex_spec. replace (forallb hex_char line) with true.
  - cbn [negb orb Nat.eqb]. rewrite toUtf8_ascii by apply hex_text_ascii.
    unfold line, shareHex. rewrite fromHex_pairs.
    destruct (share_codec_roundtrip s (wire_of s)) as [[Hdec _] _]. rewrite Hdec by done.
    rewrite IH. by rewrite <- app_assoc.
  - symmetry. apply forallb_forall. intros c Hc. apply list_elem_of_In in Hc.
    pose proof (proj1 (Forall_forall _ _) (hex_text_chars (wire_of s)) c Hc) as Hr. cbv beta in Hr.
    unfold hex_char. destruct (Z.leb_spec 48 c), (Z.leb_spec c 57), (Z.leb_spec 97 c), (Z.leb_spec c 102); cbn; try done; try lia;
    apply orb_true_r.
Qed.

(** Every message carries one of the shares; there are enough of them. *)
Lemma share_messages_ok shares picked i msgs :
  share_messages shares picked i = Ok msgs ->
  (i + length picked <= Nat.max i (length shares))%nat /\
  forall w, w ∈ snd <$> msgs -> exists s, s ∈ shares /\ encode_share s = Ok w.
Proof.
  revert i msgs. induction picked as [|c picked IH]; intros i msgs; cbn [share_messages].
  { intros [= <-]. split; [cbn [length]; lia|]. intros w Hw. by apply elem_of_nil in Hw. }
  destruct (shares !! i) as [s|] eqn:Ei; [|done]. destruct (encode_share s) as [wire|] eqn:Es; [|done].
  destruct (share_messages shares picked (S i)) as [rest|] eqn:Er; cbn [rbind]; [|done]. intros [= <-].
  destruct (IH _ _ Er) as [Hlen Hin]. pose proof (lookup_lt_Some _ _ _ Ei). split; [cbn [length]; lia|].
  intros w. cbn [fmap list_fmap snd]. rewrite elem_of_cons. intros [->|Hw]; [|by apply Hin].
  exists s. split; [|done]. by apply list_elem_of_lookup_2 in Ei.
Qed.

(** The wire forms of some shares are those shares. *)
Lemma wires_shares (shares : list Share) (sel : list bytes) :
  (forall w, w ∈ sel -> exists s, s ∈ shares /\ encode_share s = Ok w) ->
  exists sel', sel = wire_of <$> sel' /\
    Forall (fun s => s ∈ shares /\ encode_share s = Ok (wire_of s)) sel'.
Proof.
  induction sel as [|w sel IH]; intros Hsel; [by exists []|].
  destruct IH as (sel' & -> & Hsel'); [intros w' Hw'; apply Hsel; by right|].
  destruct (Hsel w) as (s & Hs & Es); [by left|].
  destruct (encode_share_ok _ _ Es) as [Ew _]. subst w.
  exists (s :: sel'). split; [done|]. by constructor.
Qed.

(** Shares of one split have their positions as abscissas. *)
Lemma split_abscissa rnd secret threshold total shares s1 s2 :
  split rnd secret threshold total = Ok shares -> s1 ∈ shares -> s2 ∈ shares ->
  share_x s1 = share_x s2 -> s1 = s2.
Proof.
  unfold split. repeat case_match; try done. intros [= <-].
  intros (i & -> & [_ Hi]%elem_of_seq)%list_elem_of_fmap (j & -> & [_ Hj]%elem_of_seq)%list_elem_of_fmap.
  cbn [share_x]. intros E. apply (f_equal b2z) in E. pose proof (b2z_range total).
  rewrite !b2z_z2b_small in E by lia. by replace j with i by lia.
Qed.

(** Any threshold of distinct shares that were handed out gives the seed back. *)
Lemma distributed_shares_combine rnd seed picked threshold msgs sel :
  (forall b n, length (rnd b n) = n) ->
  onDistributeClicked rnd (Some seed) picked threshold = Ok msgs ->
  NoDup sel -> (forall w, w ∈ sel -> w ∈ snd <$> msgs) -> threshold <= Z.of_nat (length sel) ->
  exists shares, sel = wire_of <$> shares /\
    Forall (fun s => encode_share s = Ok (wire_of s)) shares /\ combine shares = Ok seed.
Proof.
  intros Hrnd Hd Hnd Hsub Hlen. unfold onDistributeClicked in Hd.
  destruct (Z.ltb_spec (Z.of_nat (length picked)) threshold); [done|].
  destruct (Z.ltb_spec threshold 1); [done|]. cbn [orb] in Hd.
  destruct (split rnd seed _ _) as [shares|] eqn:Es; [|done].
  destruct (share_messages_ok _ _ _ _ Hd) as [Hcount Hmsgs].
  destruct (split_shares _ _ _ _ _ Es) as (_ & _ & Hls & _).
  assert (b2z (z2b threshold) <= threshold) as Hth by (rewrite b2z_z2b; apply Z.mod_le; lia).
  destruct (wires_shares shares sel) as (sel' & -> & Hsel); [auto|].
  exists sel'. split; [done|]. apply Forall_and in Hsel as [Hin Henc]. split; [done|].
  rewrite Forall_forall in Hin.
  apply (enough_shares_reconstruct rnd seed _ _ shares sel' Hrnd Es Hin).
  - apply NoDup_fmap_1 in Hnd. apply NoDup_fmap_2_strong; [|done].
    intros s1 s2 Hs1 Hs2. by apply (split_abscissa _ _ _ _ _ _ _ Es); apply Hin.
  - rewrite length_fmap in Hlen. lia.
Qed.

End codes.

(** ** Restoring *)

Section restoring.
Context `{!Qt, !QtLaws, !Sodium, !SodiumLaws, !Argon2, !Sha256}.

(** What the user enters: a phrase or code, or shares. *)
Inductive RestoreInput :=
| EnterText (text : qstring)
| EnterShares (text : qstring).

(** The handler, with every question answered by yes. *)
Definition restore (env : SealEnv) (input : RestoreInput) (user_text pass : qstring) (fs : Files)
    : LoginOutcome * Files :=
  match input with
  | EnterText text => onRecoverAccept env true user_text text pass fs
  | EnterShares text => onShamirAccept env true true user_text text pass fs
  end.

(** The backups of a seed: its phrase, its code, and enough of the shares that the
    wizard handed out, one per line. *)
Inductive BackupOf (seed : bytes) : RestoreInput -> Prop :=
| BackupPhrase : BackupOf seed (EnterText (seed_to_phrase seed))
| BackupCode : BackupOf seed (EnterText (seed_to_recovery_hex seed))
| BackupShares rnd picked threshold msgs sel :
    (forall b n, length (rnd b n) = n) ->
    onDistributeClicked rnd (Some seed) picked threshold = Ok msgs ->
    NoDup sel -> (forall w, w ∈ sel -> w ∈ snd <$> msgs) ->
    threshold <= Z.of_nat (length sel) -> (2 <= length sel)%nat ->
    BackupOf seed (EnterShares (join newline_char (shareHex <$> sel))).

Lemma phrase_contains_space seed : contains_space (seed_to_phrase seed) = true.
Proof.
  rewrite seed_to_phrase_join.
  assert (length (seed_words seed) = 24%nat) as Hl by (unfold seed_words; by rewrite length_fmap, length_seq).
  destruct (seed_words seed) as [|a [|b l]]; [done..|]. apply contains_space_sep. by left.
Qed.

(** Whatever the backup, the handler ends by sealing the seed. *)
Lemma restore_seals env input user_text pass seed fs :
  BackupOf seed input -> length seed = kSeedBytes -> trimmed user_text <> [] -> pass <> [] ->
  restore env input user_text pass fs = seal_and_save env RestoreFailed (trimmed user_text) pass seed fs.
Proof.
  intros Hb Hl Hu Hp.
  assert (forall u, overwrite_declined true u fs = false) as Hov by (intros; apply andb_false_r).
  destruct Hb as [| |rnd picked threshold msgs sel Hrnd Hd Hnd Hsub Hth Htwo];
    unfold restore, onRecoverAccept, onShamirAccept; rewrite !bool_decide_eq_false_2 by done.
  - rewrite phrase_contains_space.
    rewrite (proj2 (phrase_to_seed_words _ seed) (conj Hl (phrase_tokens_seed seed))). by rewrite Hov.
  - unfold seed_to_recovery_hex at 1. rewrite contains_space_word by apply hex_text_graph.
    rewrite recovery_code_roundtrip by done. by rewrite Hov.
  - destruct (distributed_shares_combine _ _ _ _ _ _ Hrnd Hd Hnd Hsub Hth) as (shares & -> & Henc & Hc).
    rewrite split_lines_join.
    + rewrite read_shares_lines by done. cbn [app]. rewrite length_fmap in Htwo.
      rewrite (proj2 (Nat.ltb_ge _ 2)) by lia. by rewrite Hc, Hl, Hov.
    + apply Forall_fmap, Forall_forall. intros w Hw. apply list_elem_of_fmap in Hw as (s & -> & _).
      split; [done|]. apply hex_text_graph.
Qed.

(** C8: an identity comes back from its backups.  On any disk, entering the seed's
    phrase, its code, or at least two and at least the threshold of the distinct
    shares that the wizard handed out, in any order, with a user name and a
    passphrase, signs in with the seed and writes a vault; from then on the
    passphrase signs in with the same seed, and unlocks it in the wizard. *)
Theorem backup_restores_identity (env : SealEnv) (input : RestoreInput) (user_text pass : qstring)
    (key seed : bytes) (fs : Files) :
  BackupOf seed input -> length seed = kSeedBytes -> trimmed user_text <> [] -> pass <> [] -> env_ok env ->
  pwhash (pp_bytes pass) (rnd_salt (env_random env)) crypto_pwhash_OPSLIMIT_MODERATE
    crypto_pwhash_MEMLIMIT_MODERATE = Some key ->
  let user := trimmed user_text in
  exists fs', restore env input user_text pass fs = (Accepted user seed, fs') /\
    onSignInAccept true user pass fs' = Accepted user seed /\ onUnlockClicked true user pass fs' = Ok seed.
Proof.
  intros Hb Hl Hu Hp He Hk user. rewrite (restore_seals env input user_text pass seed fs) by done.
  by eapply seal_and_save_ok.
Qed.

(** ** Where the handlers fall short *)

(** A file of two or more personas can be neither saved nor loaded. *)
Theorem several_slots_not_stored (rs : nat -> SealRandom) (pps : list qstring) (seeds : list bytes)
    (opslimit memlimit : Z) (blob : bytes) (io : SaveIo) (path : qstring) (readable : bool) (fs fs' : Files) :
  seal_seeds_multi rs pps seeds opslimit memlimit = Ok blob -> (2 <= length pps)%nat ->
  save_vault_file io path blob fs = (Throw WrongBlobSize, []) /\
  (fs' !! path = Some blob -> load_vault_file readable path fs' = None).
Proof.
  intros (_ & _ & Hlen & _)%multi_slots Hn.
  assert (length blob <> 105%nat /\ length blob <> 104%nat) as [L5 L4].
  { rewrite Hlen. unfold kVaultBlobBytes. lia. }
  unfold save_vault_file, load_vault_file, kVaultBlobBytes, kVaultV1Bytes.
  split; [|intros ->; destruct readable; [|done]; cbn [negb]];
    by rewrite (proj2 (Nat.eqb_neq _ 105) L5), (proj2 (Nat.eqb_neq _ 104) L4).
Qed.

(** A recovery code pasted with its line end is refused as a phrase, although
    [recovery_hex_to_seed] would take it. *)
Theorem code_with_newline_refused (env : SealEnv) (overwrite : bool) (user_text pass : qstring) (seed : bytes) (fs : Files) :
  length seed = kSeedBytes -> trimmed user_text <> [] -> pass <> [] ->
  let text := seed_to_recovery_hex seed ++ [newline_char] in
  recovery_hex_to_seed text = Some seed /\
  onRecoverAccept env overwrite user_text text pass fs = (Refused BadPhrase, fs).
Proof.
  intros Hl Hu Hp text. unfold text, seed_to_recovery_hex in *. set (code := seed ≫= hex_pair) in *.
  assert (is_word code) as Hw.
  { split; [|apply hex_text_graph]. intros E. apply (f_equal length) in E. unfold code in E.
    rewrite length_hex_text, Hl in E. done. }
  split.
  - pose proof (recovery_code_roundtrip seed Hl) as Hr. unfold recovery_hex_to_seed, seed_to_recovery_hex in *.
    fold code in Hr. rewrite simplified_word in Hr by apply Hw. by rewrite simplified_line.
  - unfold onRecoverAccept. rewrite !bool_decide_eq_false_2 by done.
    rewrite contains_space_sep by by right.
    assert (phrase_tokens (code ++ [newline_char]) = [code]) as Et.
    { unfold phrase_tokens.
      assert (Forall (fun c => ascii_char c /\ lower_char c = c) (code ++ [newline_char])) as Ha.
      { apply Forall_app. split; [|by repeat constructor].
        eapply Forall_impl; [apply hex_text_chars|]. intros c Hc. cbv beta in Hc. unfold ascii_char, lower_char.
        split; [lia|]. destruct (Z.leb_spec 65 c), (Z.leb_spec c 90); cbn; lia. }
      apply Forall_and in Ha as [Ha Hlow].
      rewrite normalized_KD_ascii, toLower_ascii, map_id_Forall, trimmed_line by done.
      apply (split_spaces_join [code]). by apply Forall_cons. }
    unfold phrase_to_seed. by rewrite Et.
Qed.

(** One share is never enough, also when the wizard made the threshold one. *)
Theorem single_share_refused (env : SealEnv) (confirm overwrite : bool) (user_text pass : qstring) (s : Share) (fs : Files) :
  encode_share s = Ok (wire_of s) -> trimmed user_text <> [] -> pass <> [] ->
  onShamirAccept env confirm overwrite user_text (shareHex (wire_of s)) pass fs = (Refused TooFewShares, fs).
Proof.
  intros Hs Hu Hp. unfold onShamirAccept. rewrite !bool_decide_eq_false_2 by done.
  change (shareHex (wire_of s)) with (join newline_char (shareHex <$> (wire_of <$> [s]))).
  rewrite split_lines_join.
  - by rewrite read_shares_lines by by apply Forall_cons.
  - apply Forall_cons. split; [|constructor]. split; [done|apply hex_text_graph].
Qed.

(** With 257 contacts and a threshold of one the cast leaves a single share, and the
    loop reads beyond it. *)
Theorem many_contacts_out_of_range rnd seed picked :
  seed <> [] -> length picked = 257%nat ->
  onDistributeClicked rnd (Some seed) picked 1 = Throw ShareIndexOutOfRange.
Proof.
  intros Hne Hl. unfold onDistributeClicked. rewrite Hl. change (Z.of_nat 257) with 257.
  cbn [Z.ltb Z.compare Pos.compare Pos.compare_cont orb]. unfold split. rewrite bool_decide_eq_false_2 by done.
  change (b2z (z2b 1)) with 1. change (b2z (z2b 257)) with 1. cbn [Z.eqb Z.ltb Z.compare Pos.compare Pos.compare_cont orb].
  destruct picked as [|c0 [|c1 picked]]; [done..|]. change (Z.to_nat 1) with 1%nat.
  cbn [seq fmap list_fmap share_messages lookup list_lookup]. unfold encode_share. cbn [share_x share_y].
  change (b2z (z2b (Z.of_nat 0 + 1))) with 1. cbn [Z.eqb orb].
  rewrite bool_decide_eq_false_2; [done|]. intros E. apply (f_equal length) in E. rewrite length_imap in E.
  by destruct seed.
Qed.

End restoring.

(** ** Witnesses *)

Module Witness.

#[local] Instance toy_argon2 : Argon2 := fun pw salt ops mem => Some (toy_hmac pw (salt ++ put_u64_be ops ++ put_u64_be mem)).
#[local] Instance toy_sha : Sha256 := fun b => [z2b (foldr (fun x s => b2z x + s) 0 b)].

Definition w_random (i : nat) : SealRandom := mkRandom (replicate 16 (z2b (Z.of_nat i))) (replicate 24 Byte.x07).
Definition w_env : SealEnv := mkSealEnv (w_random 3) (mkSaveIo true kVaultBlobBytes true).
Definition w_pps : list qstring := [qtext "work"; qtext "home"; qtext "play"].
Definition w_seeds : list bytes := [replicate 32 Byte.x11; replicate 32 Byte.x22; replicate 32 Byte.x33].

Lemma w_random_ok i : random_ok (w_random i).
Proof. split; apply length_replicate. Qed.

(** The second of three personas. *)
Lemma persona_vault_unlock_witness :
  exists blob, seal_seeds_multi w_random w_pps w_seeds 0 0 = Ok blob /\
    open_seed_multi (qtext "home") blob =
      (Some (replicate 32 Byte.x22), replicate 3 (3, 268435456)).
Proof.
  destruct (seal_seeds_multi w_random w_pps w_seeds 0 0) as [blob|] eqn:E; [|vm_compute in E; discriminate].
  exists blob. split; [reflexivity|].
  refine (proj2 persona_vault_unlock w_random w_pps w_seeds 0 0 blob E w_random_ok _ _ 1%nat (qtext "home")
    (replicate 32 Byte.x22) eq_refl eq_refl _).
  - repeat constructor.
  - unfold limits_ok. vm_compute. repeat split; discriminate.
  - intros j Hj. assert (j = 0%nat) as -> by lia. vm_compute in E. injection E as <-. vm_compute. reflexivity.
Defined.

(** Two of three shares of a seed, in another order. *)
Definition w_rnd (b n : nat) : bytes := replicate n (z2b (7 * Z.of_nat b + 5)).

Lemma backup_restores_identity_witness :
  exists fs', restore w_env (EnterText (seed_to_phrase (replicate 32 Byte.x22))) (qtext "alice") (qtext "secret") ∅ =
      (Accepted (qtext "alice") (replicate 32 Byte.x22), fs') /\
    exists text fs'', restore w_env (EnterShares text) (qtext "alice") (qtext "other") fs' =
      (Accepted (qtext "alice") (replicate 32 Byte.x22), fs'') /\
      onSignInAccept true (qtext "alice") (qtext "other") fs'' =
        Accepted (qtext "alice") (replicate 32 Byte.x22).
Proof.
  assert (env_ok w_env) as He by (split; [apply w_random_ok|reflexivity]).
  assert (trimmed (qtext "alice") <> []) as Hu by (vm_compute; discriminate).
  assert (qtext "secret" <> [] /\ qtext "other" <> []) as [Hp1 Hp2] by (split; vm_compute; discriminate).
  destruct (backup_restores_identity w_env (EnterText (seed_to_phrase (replicate 32 Byte.x22))) (qtext "alice")
    (qtext "secret") _ (replicate 32 Byte.x22) ∅ (BackupPhrase _) eq_refl Hu Hp1
    He eq_refl) as (fs' & E & _).
  exists fs'. split; [exact E|].
  destruct (onDistributeClicked w_rnd (Some (replicate 32 Byte.x22)) [qtext "a"; qtext "b"; qtext "c"] 2)
    as [[|[c1 w1] [|[c2 w2] [|[c3 w3] [|]]]]|] eqn:Ed; try (vm_compute in Ed; discriminate Ed).
  assert (BackupOf (replicate 32 Byte.x22) (EnterShares (join newline_char (shareHex <$> [w3; w1])))) as Hb.
  { apply (BackupShares _ w_rnd [qtext "a"; qtext "b"; qtext "c"] 2 _ [w3; w1]) with (2 := Ed).
    - intros; apply length_replicate.
    - vm_compute in Ed. injection Ed as <- <- <- <- <- <-. by_computing.
    - intros w. cbn [fmap list_fmap snd]. rewrite !elem_of_cons. tauto.
    - reflexivity.
    - reflexivity. }
  destruct (backup_restores_identity w_env _ (qtext "alice") (qtext "other") _ (replicate 32 Byte.x22) fs' Hb
    eq_refl Hu Hp2 He eq_refl) as (fs'' & E' & Hin & _).
  exists (join newline_char (shareHex <$> [w3; w1])), fs''. split; [exact E'|exact Hin].
Defined.

End Witness.
End Vault.
