(* ===== verification/WebClient.v ===== *)
(** * The web client's bindings ([src/client-web/wasm-shim/finbit_wasm.cpp])

    What the WebAssembly module offers to the page: AEAD calls with checked sizes,
    sealing and opening of the seed, and the class [WebClient] with an identity, a
    ratchet per peer and a group session per channel.  A [Uint8Array] is [bytes],
    [null] is [None], a C++ exception is a [Throw].  The results: vaults move between
    the web and the desktop client, and two web clients that agree on a secret
    deliver each other's messages, whatever else they do in between. *)
From S2P Require Import Prelude StdMap Kademlia Crypto Username Wire SFrame Identity Ratchet RatchetProofs RatchetConversation RatchetTheorems SenderKeys Handshake HandshakeProofs Toy ToySign Bip39 Vault.

(** [crypto_sign_seed_keypair]: the public and the secret key. *)
Class SeedKeys := seed_keypair : bytes -> bytes * bytes.

(** The secret key begins with the seed and belongs to the public key. *)
Class SeedKeysLaws `{!Ed25519, !SeedKeys} := {
  seed_keypair_seed : forall seed, length seed = 32%nat -> take 32 (seed_keypair seed).2 = seed;
  seed_keypair_public : forall seed, (seed_keypair seed).1 = sign_public (seed_keypair seed).2;
}.

Module WebClient.
Import Vault.Vault.

Inductive WebError :=
| AeadSizes
| AeadFailed (e : AeadError)
| SeedSize
| PassphraseEmpty
| Argon2Failed
| CurveFailed
| PeerSize
| LowOrder
| ExpandFailed
| ArgumentSize
| NoSession
| RatchetFailed (e : Ratchet.RError)
| GroupFailed (e : SenderKeys.SKError).

(** ** AEAD *)

Section aead.
Context `{!Sodium, !AesGcm}.

Definition web_aead_encrypt (key nonce pt aad : bytes) : result WebError bytes :=
  if negb (length key =? 32)%nat || negb (length nonce =? 12)%nat then Throw AeadSizes
  else match aead_encrypt key nonce pt aad with Ok ct => Ok ct | Throw e => Throw (AeadFailed e) end.

Definition web_aead_decrypt (key nonce ct aad : bytes) : result WebError (option bytes) :=
  if negb (length key =? 32)%nat || negb (length nonce =? 12)%nat then Throw AeadSizes
  else match aead_decrypt key nonce ct aad with Ok pt => Ok pt | Throw e => Throw (AeadFailed e) end.

Definition web_xchacha20_encrypt (key nonce pt aad : bytes) : result WebError bytes :=
  if negb (length key =? 32)%nat || negb (length nonce =? 24)%nat then Throw AeadSizes
  else Ok (xchacha20_encrypt key nonce pt aad).

Definition web_xchacha20_decrypt (key nonce ct aad : bytes) : result WebError (option bytes) :=
  if negb (length key =? 32)%nat || negb (length nonce =? 24)%nat then Throw AeadSizes
  else Ok (xchacha20_decrypt key nonce ct aad).
End aead.

(** ** The vault of the web client *)

Section web_vault.
Context `{!Sodium, !Argon2}.

Definition kV1Bytes : nat := 16 + 8 + 8 + 24 + 32 + 16.
Definition kV2Bytes : nat := 1 + kV1Bytes.

(** [static_cast<std::size_t>] of a 32-bit build. *)
Definition wasm_size (z : Z) : Z := u32 z.

Definition seal_seed_with_params (r : SealRandom) (passphrase seed : bytes) (opslimit memlimit : Z)
    : result WebError bytes :=
  if negb (length seed =? 32)%nat then Throw SeedSize
  else if bool_decide (passphrase = []) then Throw PassphraseEmpty
  else
    match pwhash passphrase (rnd_salt r) opslimit (wasm_size memlimit) with
    | None => Throw Argon2Failed
    | Some kdf_out =>
        let aad := kVaultVersion :: rnd_salt r ++ put_u64_be opslimit ++ put_u64_be memlimit in
        Ok (aad ++ rnd_nonce r ++ xchacha_seal kdf_out (rnd_nonce r) seed aad)
    end.

Definition web_seal_seed (r : SealRandom) (passphrase seed : bytes) : result WebError bytes :=
  seal_seed_with_params r passphrase seed crypto_pwhash_OPSLIMIT_MODERATE crypto_pwhash_MEMLIMIT_MODERATE.

Definition web_params_refused (ops mem : Z) : bool :=
  (u32_max - 1 <? mem) || (kMaxMemlimit <? mem) || (mem <? kMinMemlimit) || (ops <? kMinOpslimit).

Definition web_open_seed (passphrase blob : bytes) : result WebError (option bytes) :=
  let v2 := (length blob =? kV2Bytes)%nat && bool_decide (blob !!! 0%nat = kVaultVersion) in
  let v1 := (length blob =? kV1Bytes)%nat in
  if negb v1 && negb v2 then Ok None
  else
    let off := if v2 then 1%nat else 0%nat in
    let ops := blob_ops off blob in
    let mem := blob_mem off blob in
    if web_params_refused ops mem then Ok None
    else
      match pwhash passphrase (blob_salt off blob) ops (wasm_size mem) with
      | None => Throw Argon2Failed
      | Some kdf_out =>
          let aad := if v2 then take (off + 32) blob else [] in
          Ok (xchacha_open kdf_out (blob_nonce off blob) (blob_ct off blob) aad)
      end.
End web_vault.

(** ** The class [WebClient] *)

Record Web := mkWeb {
  w_identity : Handshake.Identity;
  w_x25519 : X25519Pair;
  w_sessions : gmap bytes Ratchet.State;
  w_channels : gmap bytes SenderKeys.GroupSession;
}.

Definition set_sessions (w : Web) (s : gmap bytes Ratchet.State) : Web :=
  mkWeb (w_identity w) (w_x25519 w) s (w_channels w).
Definition set_channels (w : Web) (c : gmap bytes SenderKeys.GroupSession) : Web :=
  mkWeb (w_identity w) (w_x25519 w) (w_sessions w) c.

Section web.
Context `{!Sodium, !Ed25519, !EdCurve, !SeedKeys, !Blake2b}.
Context `{!ProtoMsg Ratchet.RatchetMessage, !ProtoMsg SenderKeys.SenderKeysMessage, !ProtoMsg SenderKeys.SenderKeysDistribution}.

(** [derive_x25519()]: [sk_to_curve(...) != 0 || pk_to_curve(...) != 0] throws. *)
Definition web_derive_x25519 (i : Handshake.Identity) : result WebError X25519Pair :=
  match sk_to_curve25519 (id_sec i) with
  | None => Throw CurveFailed
  | Some priv =>
      match pk_to_curve25519 (id_pub i) with
      | None => Throw CurveFailed
      | Some pub => Ok (mkX25519Pair pub priv)
      end
  end.

Definition identity_from_seed (seed : bytes) : Handshake.Identity :=
  mkIdentity (seed_keypair seed).1 (seed_keypair seed).2.

Definition web_of_seed (seed : bytes) : result WebError Web :=
  let? x := web_derive_x25519 (identity_from_seed seed) in
  Ok (mkWeb (identity_from_seed seed) x ∅ ∅).

(** The constructor: [crypto_sign_keypair] draws the seed. *)
Definition new_web_client (rnd : bytes) : result WebError Web := web_of_seed rnd.

Definition from_seed (seed : bytes) : result WebError Web :=
  if negb (length seed =? 32)%nat then Throw SeedSize else web_of_seed seed.

Definition identity_pubkey (w : Web) : bytes := id_pub (w_identity w).
Definition web_fingerprint (w : Web) : bytes := fingerprint (id_pub (w_identity w)).
Definition x25519_pub (w : Web) : bytes := x_pub (w_x25519 w).
Definition identity_seed (w : Web) : bytes := take 32 (id_sec (w_identity w)).
Definition web_sign (w : Web) (msg : bytes) : bytes := sign_detached (id_sec (w_identity w)) msg.

Definition web_derive_shared_secret (w : Web) (peer : bytes) : result WebError bytes :=
  if negb (length peer =? 32)%nat then Throw PeerSize
  else
    match scalarmult (x_priv (w_x25519 w)) peer with
    | None => Throw LowOrder
    | Some dh =>
        match hkdf_expand (hkdf_extract [] dh) (str "FinBit-X3DH-v0") 32 with
        | Throw _ => Throw ExpandFailed
        | Ok out => Ok out
        end
    end.

Definition ed25519_pub_to_x25519 (e : bytes) : result WebError bytes :=
  if negb (length e =? 32)%nat then Throw PeerSize
  else match pk_to_curve25519 e with None => Throw CurveFailed | Some x => Ok x end.

(** The old session is erased before the new one is made; [rnd] is what
    [init_alice] draws. *)
Definition ratchet_init_alice (w : Web) (peer_pubkey shared_secret peer_dh_pub rnd : bytes)
    : result WebError unit * Web :=
  if negb (length shared_secret =? 32)%nat || negb (length peer_dh_pub =? 32)%nat then (Throw ArgumentSize, w)
  else
    let erased := delete peer_pubkey (w_sessions w) in
    match Ratchet.init_alice shared_secret peer_dh_pub rnd with
    | Throw e => (Throw (RatchetFailed e), set_sessions w erased)
    | Ok s => (Ok tt, set_sessions w (<[peer_pubkey := s]> erased))
    end.

Definition ratchet_init_bob (w : Web) (peer_pubkey shared_secret : bytes) : result WebError unit * Web :=
  if negb (length shared_secret =? 32)%nat then (Throw ArgumentSize, w)
  else
    let s := Ratchet.init_bob shared_secret (x_priv (w_x25519 w)) (x_pub (w_x25519 w)) in
    (Ok tt, set_sessions w (<[peer_pubkey := s]> (delete peer_pubkey (w_sessions w)))).

Definition has_session (w : Web) (peer_pubkey : bytes) : bool := bool_decide (is_Some (w_sessions w !! peer_pubkey)).

Definition ratchet_encrypt (w : Web) (peer_pubkey plaintext : bytes) : result WebError bytes * Web :=
  match w_sessions w !! peer_pubkey with
  | None => (Throw NoSession, w)
  | Some s =>
      let '(r, s') := Ratchet.encrypt s plaintext [] in
      (match r with Ok ct => Ok ct | Throw e => Throw (RatchetFailed e) end,
       set_sessions w (<[peer_pubkey := s']> (w_sessions w)))
  end.

(** The module is a 32-bit build. *)
Definition ratchet_decrypt (w : Web) (peer_pubkey ct rnd : bytes) : result WebError (option bytes) * Web :=
  match w_sessions w !! peer_pubkey with
  | None => (Ok None, w)
  | Some s =>
      let '(r, s') := Ratchet.decrypt (SZ := Ratchet.wasm_size_t) s ct [] rnd in
      (match r with Ok pt => Ok pt | Throw e => Throw (RatchetFailed e) end,
       set_sessions w (<[peer_pubkey := s']> (w_sessions w)))
  end.

(** [channel_session]: the session of a channel, made when there is none. *)
Definition channel_session (w : Web) (cid : bytes) : SenderKeys.GroupSession := default SenderKeys.new_session (w_channels w !! cid).
Definition put_channel (w : Web) (cid : bytes) (s : SenderKeys.GroupSession) : Web :=
  set_channels w (<[cid := s]> (w_channels w)).

Definition create_channel_chain (w : Web) (cid rnd_id rnd_key : bytes) : bytes * Web :=
  let '(dist, s) := SenderKeys.create_own_send_chain (channel_session w cid) rnd_id rnd_key in (dist, put_channel w cid s).

Definition install_channel_peer_dist (w : Web) (cid peer_pub dist : bytes) : result WebError unit * Web :=
  let s := channel_session w cid in
  match SenderKeys.install_peer_distribution s peer_pub dist with
  | Throw e => (Throw (GroupFailed e), put_channel w cid s)
  | Ok s' => (Ok tt, put_channel w cid s')
  end.

Definition web_channel_encrypt (w : Web) (cid plaintext : bytes) : result WebError bytes * Web :=
  let s := channel_session w cid in
  match SenderKeys.encrypt s plaintext [] with
  | Throw e => (Throw (GroupFailed e), put_channel w cid s)
  | Ok (ct, s') => (Ok ct, put_channel w cid s')
  end.

Definition web_channel_decrypt (w : Web) (cid sender_pub msg : bytes) : option bytes * Web :=
  match w_channels w !! cid with
  | None => (None, w)
  | Some s =>
      let '(pt, s') := SenderKeys.decrypt s sender_pub msg [] in (pt, put_channel w cid s')
  end.
End web.

(** ** Vaults of both clients *)

Section portable.
Context `{!Qt, !Sodium, !Argon2}.

Lemma params_refused_web ops mem : web_params_refused ops mem = params_refused ops mem.
Proof.
  unfold web_params_refused, params_refused, size_max, kMaxMemlimit, u32_max, u64_max.
  repeat match goal with |- context [?a <? ?b] => destruct (Z.ltb_spec a b) end; cbn; try done; lia.
Qed.

Lemma wasm_size_small mem ops : params_refused ops mem = false -> wasm_size mem = mem.
Proof.
  unfold params_refused, kMaxMemlimit, kMinMemlimit, wasm_size. intros E.
  apply u32_small. unfold is_u32, u32_max.
  destruct (Z.ltb_spec (1024 * 1024 * 1024) mem), (Z.ltb_spec mem (64 * 1024 * 1024));
    rewrite ?orb_true_r in E; cbn [orb] in E; rewrite ?orb_true_r in E; try done; lia.
Qed.

(** C19: an exported vault moves between the clients.  With the same random bytes both
    clients seal a seed to the same blob; and the web client, given the normalised
    passphrase in UTF-8, opens any blob to what the desktop client opens it to, except
    that a derivation that fails is an exception there and a refusal here. *)
Theorem vault_portable (pp : qstring) :
  (forall r seed blob, pp <> [] -> pp_bytes pp <> [] -> length seed = 32%nat ->
    seal_seed r pp seed 0 0 = Ok blob <-> web_seal_seed r (pp_bytes pp) seed = Ok blob) /\
  forall blob,
    web_open_seed (pp_bytes pp) blob = Ok (open_seed pp blob).1 \/
    web_open_seed (pp_bytes pp) blob = Throw Argon2Failed /\ (open_seed pp blob).1 = None.
Proof.
  split.
  - intros r seed blob Hp Hb Hl. unfold seal_seed, web_seal_seed, seal_seed_with_params.
    rewrite Hl, !bool_decide_eq_false_2 by done. cbn [Nat.eqb negb Z.eqb].
    change (wasm_size crypto_pwhash_MEMLIMIT_MODERATE) with crypto_pwhash_MEMLIMIT_MODERATE.
    destruct (pwhash _ _ _ _); [|done]. unfold vault_header. split; intros E; injection E as <-; reflexivity.
  - intros blob. unfold web_open_seed, open_seed.
    change kV2Bytes with kVaultBlobBytes. change kV1Bytes with kVaultV1Bytes.
    destruct (negb _ && negb _); [by left|]. rewrite params_refused_web.
    destruct (params_refused _ _) eqn:Ep; [by left|]. rewrite (wasm_size_small _ _ Ep).
    destruct (pwhash _ _ _ _); [by left|by right].
Qed.
End portable.

(** ** Identities *)

Section identities.
Context `{!Sodium, !SodiumLaws, !Ed25519, !EdCurve, !EdCurveLaws, !SeedKeys, !SeedKeysLaws}.

(** Clients as the constructors make them. *)
Definition web_ok (w : Web) : Prop := identity_ok (w_identity w) /\ derive_x25519 (w_identity w) = Ok (w_x25519 w).

Lemma from_seed_ok seed w : from_seed seed = Ok w -> web_ok w /\ identity_seed w = seed.
Proof.
  unfold from_seed. destruct (Nat.eqb_spec (length seed) 32) as [Hl|]; cbn [negb]; [|done].
  unfold web_of_seed, web_derive_x25519.
  destruct (sk_to_curve25519 _) as [priv|] eqn:Es; [|done]. destruct (pk_to_curve25519 _) as [pub|] eqn:Ep; [|done].
  cbn [rbind]. intros [= <-]. split; [split|].
  - apply seed_keypair_public.
  - unfold derive_x25519. cbn [w_identity w_x25519]. by rewrite Es, Ep.
  - by apply seed_keypair_seed.
Qed.

(** A seed that was saved gives the client back. *)
Lemma web_seed_roundtrip seed w : from_seed seed = Ok w -> from_seed (identity_seed w) = Ok w.
Proof. intros E. destruct (from_seed_ok seed w E) as [_ ->]. exact E. Qed.

(** The secret of the page is the one of [hybrid.cpp]. *)
Lemma web_secret_classical w peer ss :
  web_derive_shared_secret w peer = Ok ss -> derive_shared_secret (w_x25519 w) peer = Ok ss.
Proof.
  unfold web_derive_shared_secret, derive_shared_secret. case_match; [done|].
  destruct (scalarmult _ _) as [dh|]; [|done]. cbn [or_throw rbind]. unfold hkdf.
  destruct (hkdf_expand_ok (hkdf_extract [] dh) (str "FinBit-X3DH-v0") 32) as (okm & -> & Hl); [lia|].
  intros [= <-]. f_equal. apply take_ge. lia.
Qed.

(** Each side finds the other's key from its identity, and they agree. *)
Lemma web_secret_agree a b ss ss' :
  web_ok a -> web_ok b ->
  web_derive_shared_secret a (x25519_pub b) = Ok ss -> web_derive_shared_secret b (x25519_pub a) = Ok ss' ->
  ss = ss'.
Proof.
  intros [Ha Hxa] [Hb Hxb] Hs Hs'. apply web_secret_classical in Hs, Hs'.
  destruct (derive_x25519_Ok _ _ Ha Hxa) as (_ & _ & Pa). destruct (derive_x25519_Ok _ _ Hb Hxb) as (_ & _ & Pb).
  unfold x25519_pub in *. rewrite (shared_secret_comm _ _ Pa Pb) in Hs. congruence.
Qed.
End identities.

(** ** The ratchet in a 32-bit build

    The skip bound [nr + kMaxSkip] wraps once 2^32 - 1000 messages of one chain were
    received.  Below that the module decrypts as the desktop program does. *)

Section narrow.
Context `{!Sodium, !ProtoMsg Ratchet.RatchetMessage}.
Import Ratchet.Ratchet.

Lemma size_add_wasm n : 0 <= n -> n + 1000 < u32_max -> size_add (SZ := wasm_size_t) n (Z.of_nat kMaxSkip) = n + Z.of_nat kMaxSkip.
Proof.
  intros ? Hn. change (size_add (SZ := wasm_size_t) n (Z.of_nat kMaxSkip)) with ((n + 1000) mod 2 ^ 32).
  change (Z.of_nat kMaxSkip) with 1000. apply Z.mod_small. unfold u32_max in Hn. lia.
Qed.

Lemma skip_narrow s until : 0 <= nr s -> nr s + 1000 < u32_max ->
  skip_message_keys (SZ := wasm_size_t) s until = skip_message_keys s until.
Proof.
  intros H1 H2. unfold skip_message_keys. rewrite size_add_wasm by done.
  by rewrite size_add_desktop by (unfold is_u32; lia).
Qed.

Lemma dh_ratchet_counters s h rnd :
  let s' := (dh_ratchet s h rnd).2 in ns s' = 0 /\ nr s' = 0 /\ pn s' = ns s.
Proof. unfold dh_ratchet. by repeat case_match. Qed.

Lemma decrypt_narrow s w aad rnd : 0 <= nr s -> nr s + 1000 < u32_max ->
  decrypt (SZ := wasm_size_t) s w aad rnd = decrypt s w aad rnd.
Proof.
  assert (forall t m, 0 <= nr t -> nr t + 1000 < u32_max ->
    decrypt_current (SZ := wasm_size_t) t m aad = decrypt_current t m aad) as Hcur.
  { intros t m ? ?. unfold decrypt_current. by rewrite skip_narrow. }
  intros H1 H2. unfold decrypt. destruct (pb_parse w) as [m|]; [|done]. case_match; [done|]. unfold decrypt_msg.
  rewrite skip_narrow, Hcur by done. case_match; [done|]. case_match; [|done].
  destruct (skip_message_keys s (msg_pn m)) as [[?|?] s1]; [|done].
  pose proof (dh_ratchet_counters s1 (header_dh_pub m) rnd) as (_ & Hz & _).
  destruct (dh_ratchet s1 (header_dh_pub m) rnd) as [[?|?] s2]; [|done]. cbn [snd] in Hz.
  apply Hcur; rewrite Hz; [done|reflexivity].
Qed.

(** At the bound the module refuses what is next in order. *)
Lemma skip_wraps s until : have_ckr s = true -> nr s + 1000 = u32_max -> 0 < until ->
  skip_message_keys (SZ := wasm_size_t) s until = (Throw SkipExceedsMax, s).
Proof.
  intros Hc Hn Hu. unfold skip_message_keys, size_add, size_bits, wasm_size_t. rewrite Hc. cbn [negb].
  change (Z.of_nat kMaxSkip) with 1000. rewrite Hn. change (u32_max mod 2 ^ 32) with 0.
  destruct (Z.ltb_spec 0 until); [done|lia].
Qed.

(** What [decrypt] does to the counters of the sending side. *)
Lemma skip_loop_sent n s : ns (skip_loop n s) = ns s /\ pn (skip_loop n s) = pn s.
Proof. revert s. induction n as [|n IH]; intros s; [done|]. cbn [skip_loop]. by destruct (IH (skip_step s)) as [-> ->]. Qed.

Lemma skip_sent s until : ns (skip_message_keys s until).2 = ns s /\ pn (skip_message_keys s until).2 = pn s.
Proof. unfold skip_message_keys. case_match; [done|]. case_match; [done|]. apply skip_loop_sent. Qed.

Lemma decrypt_current_sent s m aad : ns (decrypt_current s m aad).2 = ns s /\ pn (decrypt_current s m aad).2 = pn s.
Proof.
  unfold decrypt_current. pose proof (skip_sent s (msg_n m)) as Hs.
  by destruct (skip_message_keys s (msg_n m)) as [[?|?] s1].
Qed.

Lemma decrypt_sent s w aad rnd :
  let s' := (decrypt s w aad rnd).2 in ns s' = ns s /\ pn s' = pn s \/ ns s' = 0 /\ pn s' = ns s.
Proof.
  unfold decrypt. destruct (pb_parse w) as [m|]; [|by left]. case_match; [by left|]. unfold decrypt_msg.
  case_match; [case_match; by left|]. case_match; [|left; apply decrypt_current_sent].
  pose proof (skip_sent s (msg_pn m)) as Hs. destruct (skip_message_keys s (msg_pn m)) as [[?|?] s1]; [|by left].
  pose proof (dh_ratchet_counters s1 (header_dh_pub m) rnd) as (E1 & _ & E2). cbn [snd] in Hs. destruct Hs as [Hs _].
  destruct (dh_ratchet s1 (header_dh_pub m) rnd) as [[?|?] s2]; cbn [snd] in *; right.
  - destruct (decrypt_current_sent s2 m aad) as [-> ->]. by rewrite E1, E2.
  - by rewrite E1, E2.
Qed.

(** Neither the present nor the previous sending chain is longer than [kChainRoom]:
    the peer's skip bound stays below 2^32. *)
Definition kChainRoom : Z := u32_max - 1001.
Definition sent_within (s : State) : Prop := 0 <= ns s <= kChainRoom /\ 0 <= pn s <= kChainRoom.

Lemma decrypt_sent_within s w aad rnd : sent_within s -> sent_within (decrypt s w aad rnd).2.
Proof.
  intros [Hn Hp]. unfold sent_within.
  destruct (decrypt_sent s w aad rnd) as [[-> ->]|[-> ->]]; [done|]. unfold kChainRoom, u32_max in *. lia.
Qed.
End narrow.

(** ** Two web clients *)

(** The calls of the page that change a client. *)
Inductive WebCall :=
| CallInitAlice (peer ss dh rnd : bytes)
| CallInitBob (peer ss : bytes)
| CallEncrypt (peer pt : bytes)
| CallDecrypt (peer ct rnd : bytes)
| CallCreateChain (cid rnd_id rnd_key : bytes)
| CallInstall (cid peer dist : bytes)
| CallChannelEncrypt (cid pt : bytes)
| CallChannelDecrypt (cid sender msg : bytes).

(** The peer whose ratchet a call uses. *)
Definition call_peer (c : WebCall) : option bytes :=
  match c with
  | CallInitAlice peer _ _ _ | CallInitBob peer _ | CallEncrypt peer _ | CallDecrypt peer _ _ => Some peer
  | _ => None
  end.

Section conversation.
Context `{!Sodium, !Ed25519, !EdCurve, !SeedKeys}.
Context `{!ProtoMsg Ratchet.RatchetMessage, !ProtoMsg SenderKeys.SenderKeysMessage,
  !ProtoMsg SenderKeys.SenderKeysDistribution}.

Definition run_call (c : WebCall) (w : Web) : Web :=
  match c with
  | CallInitAlice peer ss dh rnd => (ratchet_init_alice w peer ss dh rnd).2
  | CallInitBob peer ss => (ratchet_init_bob w peer ss).2
  | CallEncrypt peer pt => (ratchet_encrypt w peer pt).2
  | CallDecrypt peer ct rnd => (ratchet_decrypt w peer ct rnd).2
  | CallCreateChain cid rnd_id rnd_key => (create_channel_chain w cid rnd_id rnd_key).2
  | CallInstall cid peer dist => (install_channel_peer_dist w cid peer dist).2
  | CallChannelEncrypt cid pt => (web_channel_encrypt w cid pt).2
  | CallChannelDecrypt cid sender msg => (web_channel_decrypt w cid sender msg).2
  end.

(** Two clients and what is between them. *)
Record WebNet := mkWebNet {
  wn_alice : Web;
  wn_bob : Web;
  wn_net : list Packet;
  wn_used : list bytes;
  wn_pending : nat;
}.

Definition web_of (n : WebNet) (is_bob : bool) : Web := if is_bob then wn_bob n else wn_alice n.
Definition with_web (n : WebNet) (is_bob : bool) (w : Web) (net : list Packet) (used : list bytes) (pending : nat) : WebNet :=
  if is_bob then mkWebNet (wn_alice n) w net used pending else mkWebNet w (wn_bob n) net used pending.

(** The key under which a client keeps the other. *)
Variables pubA pubB : bytes.
Definition peer_key (is_bob : bool) : bytes := if is_bob then pubA else pubB.

Definition web_fresh (n : WebNet) (rnd : bytes) : Prop :=
  Forall (fun p => scalarmult_base rnd <> p /\ is_Some (scalarmult rnd p)) (wn_used n).

(** What the page does at first contact: each side derives the secret from the other's
    curve key, one opens and the other answers. *)
Inductive web_start : WebNet -> Prop :=
| WebStart a b a' b' ssA ssB rnd :
    web_ok a -> web_ok b -> identity_pubkey a = pubA -> identity_pubkey b = pubB ->
    web_derive_shared_secret a (x25519_pub b) = Ok ssA ->
    web_derive_shared_secret b (x25519_pub a) = Ok ssB ->
    ratchet_init_alice a pubB ssA (x25519_pub b) rnd = (Ok tt, a') ->
    ratchet_init_bob b pubA ssB = (Ok tt, b') ->
    scalarmult_base rnd <> x25519_pub b ->
    web_start (mkWebNet a' b' [] [scalarmult_base rnd; x25519_pub b] 0).

Inductive web_step : WebNet -> WebNet -> Prop :=
| Web_send n who pt ct w' :
    ratchet_encrypt (web_of n who) (peer_key who) pt = (Ok ct, w') ->
    (wn_pending n < Ratchet.kMaxSkip)%nat ->
    (forall s, w_sessions (web_of n who) !! peer_key who = Some s -> Ratchet.ns s + 1 <= kChainRoom) ->
    web_step n (with_web n who w' (mkPacket (negb who) ct [] pt :: wn_net n) (wn_used n) (S (wn_pending n)))
| Web_deliver n net1 p net2 rnd r w' :
    wn_net n = net1 ++ p :: net2 -> web_fresh n rnd ->
    ratchet_decrypt (web_of n (pk_bob p)) (peer_key (pk_bob p)) (pk_wire p) rnd = (r, w') ->
    web_step n (with_web n (pk_bob p) w' (net1 ++ net2) (scalarmult_base rnd :: wn_used n) (pred (wn_pending n)))
| Web_drop n net1 p net2 :
    wn_net n = net1 ++ p :: net2 ->
    web_step n (mkWebNet (wn_alice n) (wn_bob n) (net1 ++ net2) (wn_used n) (wn_pending n))
| Web_other n who c :
    call_peer c <> Some (peer_key who) ->
    web_step n (with_web n who (run_call c (web_of n who)) (wn_net n) (wn_used n) (wn_pending n)).

Inductive web_reach : WebNet -> Prop :=
| WebReach_start n : web_start n -> web_reach n
| WebReach_step n n' : web_reach n -> web_step n n' -> web_reach n'.

(** *** The refinement relation *)

Record web_rel (n : WebNet) (v : World) : Prop := {
  wr_used : used v = wn_used n;
  wr_pending : pending v = wn_pending n;
  wr_net : net v = wn_net n;
  wr_aad : Forall (fun p => pk_aad p = []) (wn_net n);
  wr_states : forall b, w_sessions (web_of n b) !! peer_key b = Some (state_of v b);
  wr_room : forall b, sent_within (state_of v b);
}.

(** Calls about other peers and about channels leave a session alone. *)
Lemma run_call_other c w k : call_peer c <> Some k -> w_sessions (run_call c w) !! k = w_sessions w !! k.
Proof.
  intros Hk. destruct c; cbn [call_peer run_call] in *.
  - unfold ratchet_init_alice. repeat case_match; cbn [snd w_sessions set_sessions]; try done;
      rewrite ?lookup_insert_ne, lookup_delete_ne by congruence; done.
  - unfold ratchet_init_bob. case_match; [done|]. cbn [snd w_sessions set_sessions].
    by rewrite lookup_insert_ne, lookup_delete_ne by congruence.
  - unfold ratchet_encrypt. repeat case_match; cbn [snd w_sessions set_sessions]; try done;
      by rewrite lookup_insert_ne by congruence.
  - unfold ratchet_decrypt. repeat case_match; cbn [snd w_sessions set_sessions]; try done;
      by rewrite lookup_insert_ne by congruence.
  - done.
  - unfold install_channel_peer_dist. by repeat case_match.
  - unfold web_channel_encrypt. by repeat case_match.
  - unfold web_channel_decrypt. by repeat case_match.
Qed.

Lemma web_of_with n b w nt u k : web_of (with_web n b w nt u k) b = w.
Proof. by destruct b. Qed.
Lemma web_of_with_other n b b' w nt u k : b <> b' -> web_of (with_web n b w nt u k) b' = web_of n b'.
Proof. by destruct b, b'. Qed.
Lemma state_of_with v b s nt u k : state_of (with_state v b s nt u k) b = s.
Proof. by destruct b. Qed.
Lemma state_of_with_other v b b' s nt u k : b <> b' -> state_of (with_state v b s nt u k) b' = state_of v b'.
Proof. by destruct b, b'. Qed.

(** One party moves to [s'], its session too; the other is as before. *)
Lemma web_rel_move n v b w' s' nt u k :
  web_rel n v -> w_sessions w' !! peer_key b = Some s' -> sent_within s' -> Forall (fun p => pk_aad p = []) nt ->
  web_rel (with_web n b w' nt u k) (with_state v b s' nt u k).
Proof.
  intros Hr Hs Hw Ha. split; [by destruct b..| | |].
  - by destruct b.
  - intros b'. destruct (decide (b = b')) as [<-|Hne].
    + by rewrite web_of_with, state_of_with.
    + rewrite web_of_with_other, state_of_with_other by done. apply Hr.
  - intros b'. destruct (decide (b = b')) as [<-|Hne].
    + by rewrite state_of_with.
    + rewrite state_of_with_other by done. apply Hr.
Qed.
End conversation.

Section refinement.
Context `{!Sodium, !SodiumLaws, !Ed25519, !EdCurve, !EdCurveLaws, !SeedKeys}.
Context `{!ProtoMsg Ratchet.RatchetMessage, !ProtoLaws Ratchet.RatchetMessage}.
Context `{!ProtoMsg SenderKeys.SenderKeysMessage, !ProtoMsg SenderKeys.SenderKeysDistribution}.
Variables pubA pubB : bytes.

(** Every session of a run is below the 32-bit bound. *)
Lemma web_decrypt_narrow n v b w aad rnd : reach v -> web_rel pubA pubB n v ->
  Ratchet.decrypt (SZ := Ratchet.wasm_size_t) (state_of v b) w aad rnd = Ratchet.decrypt (state_of v b) w aad rnd.
Proof.
  intros Hv Hr. pose proof (received_sent v b Hv) as Hn. pose proof (wr_room _ _ _ _ Hr (negb b)) as [Hrn Hrp].
  apply decrypt_narrow; unfold kChainRoom in *; lia.
Qed.

Lemma web_sim_start n : web_start pubA pubB n -> exists v, reach v /\ web_rel pubA pubB n v.
Proof.
  intros [a b a' b' ssA ssB rnd Ha Hb HpA HpB HsA HsB Hia Hib Hne].
  pose proof (web_secret_agree _ _ _ _ Ha Hb HsA HsB) as <-. destruct Hb as [Hb Hxb].
  destruct (derive_x25519_Ok _ _ Hb Hxb) as (_ & _ & Px). unfold x25519_pub in *.
  unfold ratchet_init_alice in Hia. case_match; [done|].
  destruct (Ratchet.init_alice ssA (x_pub (w_x25519 b)) rnd) as [s|] eqn:Ei; [|done]. injection Hia as <-.
  unfold ratchet_init_bob in Hib. case_match; [done|]. injection Hib as <-.
  exists (mkWorld s (Ratchet.init_bob ssA (x_priv (w_x25519 b)) (x_pub (w_x25519 b))) []
    [scalarmult_base rnd; x_pub (w_x25519 b)] 0). split.
  - apply Reach_init. rewrite Px in *. by apply Initial.
  - split; [done..|constructor| |].
    + intros [|]; cbn [web_of wn_alice wn_bob peer_key state_of alice bob w_sessions set_sessions];
        apply lookup_insert_eq.
    + intros [|]; [done|]. unfold Ratchet.init_alice in Ei. repeat case_match; simplify_eq.
      destruct (Ratchet.x25519_dh _ _); [|done]. cbn [rbind] in Ei.
      destruct (Ratchet.kdf_rk _ _) as [[??]|]; [|done]. cbn [rbind] in Ei. by injection Ei as <-.
Qed.

Lemma web_sim_step n n' v :
  reach v -> web_rel pubA pubB n v -> web_step pubA pubB n n' -> exists v', reach v' /\ web_rel pubA pubB n' v'.
Proof.
  intros Hv Hr Hs. destruct Hs as [n who pt ct w' Henc Hpend Hns|n net1 p net2 rnd r w' Hnet Hf Hdec|n net1 p net2 Hnet|n who c Hc].
  - pose proof (wr_states _ _ _ _ Hr who) as Hst. unfold ratchet_encrypt in Henc. rewrite Hst in Henc.
    destruct (Ratchet.encrypt (state_of v who) pt []) as [[x|e] s'] eqn:E; [|done]. injection Henc as -> <-.
    exists (with_state v who s' (mkPacket (negb who) ct [] pt :: net v) (used v) (S (pending v))).
    pose proof (Hns _ Hst) as Hroom.
    split; [eapply Reach_step, Step_send; [done|by rewrite (wr_pending _ _ _ _ Hr)|unfold kChainRoom in *; lia|done]|].
    rewrite (wr_net _ _ _ _ Hr), (wr_used _ _ _ _ Hr), (wr_pending _ _ _ _ Hr).
    apply web_rel_move; [done|apply lookup_insert_eq| |constructor; [done|apply Hr]].
    pose proof (wr_room _ _ _ _ Hr who) as [Hn0 Hp0]. revert E. unfold Ratchet.encrypt. case_match; [done|].
    cbn [Ratchet.kdf_ck]. intros [= _ <-]. split; cbn [Ratchet.ns Ratchet.pn]; [|done].
    rewrite u32_small by (unfold is_u32, kChainRoom in *; lia). lia.
  - pose proof (wr_states _ _ _ _ Hr (pk_bob p)) as Hst. unfold ratchet_decrypt in Hdec. rewrite Hst, (web_decrypt_narrow n v _ _ _ _ Hv Hr) in Hdec.
    pose proof (wr_aad _ _ _ _ Hr) as Ha. rewrite Hnet in Ha.
    assert (pk_aad p = []) as Hpa by (apply Forall_app in Ha as [_ Ha]; exact (Forall_inv Ha)).
    destruct (Ratchet.decrypt (state_of v (pk_bob p)) (pk_wire p) [] rnd) as [res s'] eqn:E. injection Hdec as <- <-.
    exists (with_state v (pk_bob p) s' (net1 ++ net2) (scalarmult_base rnd :: used v) (pred (pending v))). split.
    + eapply Reach_step, Step_deliver; [done|by rewrite (wr_net _ _ _ _ Hr)| |by rewrite Hpa].
      unfold fresh_in. by rewrite (wr_used _ _ _ _ Hr).
    + rewrite (wr_used _ _ _ _ Hr), (wr_pending _ _ _ _ Hr).
      apply web_rel_move; [done|apply lookup_insert_eq| |].
      { pose proof (decrypt_sent_within _ (pk_wire p) [] rnd (wr_room _ _ _ _ Hr (pk_bob p))) as Hw. by rewrite E in Hw. }
      apply Forall_app in Ha as [Ha1 Ha2]. apply Forall_app. split; [done|]. by inversion Ha2.
  - exists (mkWorld (alice v) (bob v) (net1 ++ net2) (used v) (pending v)). split.
    + eapply Reach_step, Step_drop; [done|by rewrite (wr_net _ _ _ _ Hr)].
    + destruct Hr as [Hu Hp Hn Ha Hst Hro]. rewrite Hnet in Ha. apply Forall_app in Ha as [Ha1 Ha2].
      split; try done. apply Forall_app. split; [done|]. by inversion Ha2.
  - exists v. split; [done|]. destruct Hr as [Hu Hp Hn Ha Hst Hro]. split; try (by destruct who).
    intros b. destruct (decide (who = b)) as [<-|Hne].
    + rewrite web_of_with, run_call_other by done. apply Hst.
    + rewrite web_of_with_other by done. apply Hst.
Qed.

Lemma web_simulation n : web_reach pubA pubB n -> exists v, reach v /\ web_rel pubA pubB n v.
Proof.
  induction 1 as [n Hs|n n' _ (v & Hv & Hr) Hstep]; [by apply web_sim_start|by eapply web_sim_step].
Qed.

(** C6: messages between web clients arrive.  Two pages derive a secret from each
    other's keys, one opens a session and the other answers; afterwards they send,
    receive in any order, lose messages, and call anything else for other peers and
    for channels, with at most 1000 messages outstanding and at most 2^32 - 1001
    messages sent in one chain (past that the 32-bit skip bound of the module wraps,
    [skip_wraps]).  The run is a run of the two ratchets, and every message in flight
    is decrypted by its receiver to what was sent. *)
Theorem web_messages_delivered (n : WebNet) (p : Packet) (rnd : bytes) :
  web_reach pubA pubB n -> p ∈ wn_net n -> web_fresh n rnd ->
  (exists v, reach v /\ web_rel pubA pubB n v) /\
  (ratchet_decrypt (web_of n (pk_bob p)) (peer_key pubA pubB (pk_bob p)) (pk_wire p) rnd).1 = Ok (Some (pk_pt p)).
Proof.
  intros Hn Hp Hf. destruct (web_simulation n Hn) as (v & Hv & Hr). split; [eauto|].
  unfold ratchet_decrypt. rewrite (wr_states _ _ _ _ Hr), (web_decrypt_narrow n v _ _ _ _ Hv Hr).
  pose proof (proj1 (Forall_forall _ _) (wr_aad _ _ _ _ Hr) p Hp) as Ha.
  destruct (packet_decrypts v p rnd Hv) as [s' E].
  - by rewrite (wr_net _ _ _ _ Hr).
  - unfold fresh_in. by rewrite (wr_used _ _ _ _ Hr).
  - rewrite Ha in E. by rewrite E.
Qed.

(** A session is erased before its successor is known to exist. *)
Theorem failed_init_erases_session (w : Web) (peer ss dh rnd : bytes) :
  length ss = 32%nat -> length dh = 32%nat -> scalarmult rnd dh = None ->
  (ratchet_init_alice w peer ss dh rnd).1 = Throw (RatchetFailed Ratchet.LowOrderOutput) /\
  has_session (ratchet_init_alice w peer ss dh rnd).2 peer = false.
Proof.
  intros Hs Hd Hl. unfold ratchet_init_alice, Ratchet.init_alice, Ratchet.x25519_keypair, Ratchet.x25519_dh.
  rewrite Hs, Hd, Hl. cbn [Nat.eqb negb orb rbind fst snd]. split; [done|].
  unfold has_session. cbn [w_sessions set_sessions]. apply bool_decide_eq_false_2. rewrite lookup_delete_eq.
  by intros [? ?].
Qed.

(** The page decrypts without a rollback: a message delivered twice makes the next
    one unreadable. *)
Theorem web_replay_destroys_next (w : Web) (peer : bytes) (s : Ratchet.State) (m : Ratchet.RatchetMessage)
    (rnd rnd' pt : bytes) :
  w_sessions w !! peer = Some s ->
  length (Ratchet.dhr_pub s) = 32%nat -> Ratchet.have_dhr s = true -> Ratchet.have_ckr s = true ->
  0 <= Ratchet.nr s -> Ratchet.nr s + 1001 < u32_max -> pb_ok m -> replayed s m ->
  Ratchet.skipped s !! (Ratchet.dhr_pub s, Ratchet.nr s) = None ->
  xchacha20_decrypt (Ratchet.kdf_ck (Ratchet.kdf_ck (Ratchet.ckr s)).2).1 zero_nonce
    (Ratchet.ciphertext (next_message s pt [])) (Ratchet.compose_aad (Ratchet.dhr_pub s) 0 (Ratchet.nr s) []) = None ->
  let g := pb_serialize (next_message s pt []) in
  (ratchet_decrypt w peer g rnd').1 = Ok (Some pt) /\
  (ratchet_decrypt (ratchet_decrypt w peer (pb_serialize m) rnd).2 peer g rnd').1 = Ok None.
Proof.
  intros Hs Hdh Hd Hc Hnr Hnr' Hm Hrep Hnext Hwrong g.
  destruct (replay_destroys_next_message s m [] rnd rnd' pt [] Hdh Hd Hc Hnr ltac:(lia) Hm Hrep Hnext Hwrong) as [E1 E2].
  assert ((Ratchet.decrypt s (pb_serialize m) [] rnd).2 = after_replay s) as Hafter.
  { unfold Ratchet.decrypt. rewrite pb_parse_serialize by done. rewrite (proj1 Hrep), Hdh.
    cbn [Nat.eqb Ratchet.k32 negb]. apply decrypt_replayed; [done..|unfold is_u32; lia|done]. }
  assert (Ratchet.nr (Ratchet.decrypt s (pb_serialize m) [] rnd).2 = Ratchet.nr s + 1) as Hnr2.
  { rewrite Hafter. apply u32_small. unfold is_u32. lia. }
  fold g in E1, E2. unfold ratchet_decrypt. rewrite Hs, !(decrypt_narrow s) by lia.
  destruct (Ratchet.decrypt s g [] rnd') as [r1 s1]. cbn [fst] in E1. rewrite E1. split; [done|].
  destruct (Ratchet.decrypt s (pb_serialize m) [] rnd) as [r2 s2]. cbn [fst snd w_sessions set_sessions] in *.
  rewrite lookup_insert_eq, decrypt_narrow by lia. destruct (Ratchet.decrypt s2 g [] rnd') as [r3 s3]. cbn [fst] in *. by rewrite E2.
Qed.
End refinement.

(** ** Witnesses *)

Module Witness.
Import Bip39.Bip39.

#[local] Instance toy_seed_keys : SeedKeys := fun seed => (sign_public (seed ++ seed), seed ++ seed).
#[local] Instance toy_seed_keys_laws : SeedKeysLaws.
Proof. split; [|done]. intros seed Hl. cbn. by apply take_app_length'. Qed.

Definition page (n : Z) : Web :=
  match from_seed (be_bytes 32 n) with Ok w => w | Throw _ => mkWeb (mkIdentity [] []) (mkX25519Pair [] []) ∅ ∅ end.
Definition secret (a b : Web) : bytes := match web_derive_shared_secret a (x25519_pub b) with Ok s => s | Throw _ => [] end.

Definition pubA : bytes := identity_pubkey (page 5).
Definition pubB : bytes := identity_pubkey (page 11).
Definition net0 : WebNet :=
  mkWebNet (ratchet_init_alice (page 5) pubB (secret (page 5) (page 11)) (x25519_pub (page 11)) (be_bytes 32 21)).2
    (ratchet_init_bob (page 11) pubA (secret (page 11) (page 5))).2 []
    [scalarmult_base (be_bytes 32 21); x25519_pub (page 11)] 0.

Lemma net0_reach : web_reach pubA pubB net0.
Proof.
  apply WebReach_start. eapply (WebStart pubA pubB (page 5) (page 11) _ _ (secret (page 5) (page 11)) (secret (page 11) (page 5))
    (be_bytes 32 21)).
  - split; vm_compute; reflexivity.
  - split; vm_compute; reflexivity.
  - reflexivity.
  - reflexivity.
  - vm_compute. reflexivity.
  - vm_compute. reflexivity.
  - apply injective_projections; [vm_compute|]; reflexivity.
  - apply injective_projections; [vm_compute|]; reflexivity.
  - by_computing.
Qed.

(** Alice sends two messages, with a channel made in between. *)
Definition send_from (n : WebNet) (pt : bytes) : WebNet :=
  with_web n false (ratchet_encrypt (wn_alice n) pubB pt).2
    (mkPacket true (match (ratchet_encrypt (wn_alice n) pubB pt).1 with Ok c => c | Throw _ => [] end) [] pt :: wn_net n)
    (wn_used n) (S (wn_pending n)).
Definition net1 : WebNet := send_from net0 (str "one").
Definition net2 : WebNet :=
  with_web net1 false (run_call (CallCreateChain (str "room") (be_bytes 16 1) (be_bytes 32 2)) (wn_alice net1))
    (wn_net net1) (wn_used net1) (wn_pending net1).
Definition net3 : WebNet := send_from net2 (str "two").

Lemma send_from_step n pt :
  (ratchet_encrypt (wn_alice n) pubB pt).1 = Ok (pk_wire (default (mkPacket true [] [] []) (head (wn_net (send_from n pt))))) ->
  (wn_pending n < Ratchet.kMaxSkip)%nat ->
  (forall s, w_sessions (wn_alice n) !! pubB = Some s -> Ratchet.ns s + 1 <= kChainRoom) ->
  web_step pubA pubB n (send_from n pt).
Proof.
  intros E Hp Hns. unfold send_from. rewrite E.
  apply (Web_send pubA pubB n false); [by apply injective_projections|done|done].
Qed.

Lemma net3_reach : web_reach pubA pubB net3.
Proof.
  assert (web_reach pubA pubB net1) as R1.
  { eapply WebReach_step; [exact net0_reach|]. apply send_from_step; [vm_compute; reflexivity|vm_compute; lia|].
    intros s Hs. vm_compute in Hs. injection Hs as <-. by vm_compute. }
  assert (web_reach pubA pubB net2) as R2.
  { eapply WebReach_step; [exact R1|]. by apply (Web_other pubA pubB net1 false). }
  eapply WebReach_step; [exact R2|]. apply send_from_step; [vm_compute; reflexivity|vm_compute; lia|].
  intros s Hs. vm_compute in Hs. injection Hs as <-. by vm_compute.
Qed.

Definition second : Packet := default (mkPacket true [] [] []) (head (wn_net net3)).

(** The second message arrives before the first. *)
Lemma web_messages_delivered_witness :
  (ratchet_decrypt (wn_bob net3) pubA (pk_wire second) (be_bytes 32 31)).1 = Ok (Some (str "two")).
Proof.
  refine (proj2 (web_messages_delivered pubA pubB net3 second (be_bytes 32 31) net3_reach _ _)).
  - left.
  - unfold web_fresh. by_computing.
Defined.

(** Both clients seal and open alike. *)
#[local] Instance toy_argon2_web : Argon2 := fun pw salt ops mem => Some (toy_hmac pw (salt ++ put_u64_be ops ++ put_u64_be mem)).

Lemma vault_portable_witness :
  exists blob, web_seal_seed (mkRandom (be_bytes 16 1) (be_bytes 24 2)) (pp_bytes (qtext "secret")) (be_bytes 32 9) = Ok blob /\
    web_open_seed (pp_bytes (qtext "secret")) blob = Ok (Some (be_bytes 32 9)).
Proof.
  destruct (seal_seed (mkRandom (be_bytes 16 1) (be_bytes 24 2)) (qtext "secret") (be_bytes 32 9) 0 0) as [blob|] eqn:E;
    [|vm_compute in E; discriminate].
  exists blob. split.
  - apply (proj1 (vault_portable (qtext "secret"))); [vm_compute; discriminate..|reflexivity|exact E].
  - destruct (proj2 (vault_portable (qtext "secret")) blob) as [-> |[_ En]].
    + vm_compute in E. injection E as <-. vm_compute. reflexivity.
    + exfalso. vm_compute in E. injection E as <-. vm_compute in En. discriminate En.
Defined.

End Witness.
End WebClient.
