(* ===== verification/Cli.v ===== *)
(** * The command-line client ([src/tools/fb-cli/main.cpp])

    The modes of [fb-cli] as programs that exchange frames with the relay: what each
    sends, prints and returns, given what [blocking_recv_frame] returned in turn.  An
    exception that leaves [main] ends the process.  Files, the clock and random bytes
    are arguments.  The results: what one client sends, a listening client prints;
    a call offer is answered over the same ratchet; and where the program falls short. *)
From S2P Require Import Prelude StdMap Crypto Username Shamir SenderKeys SenderKeysProofs Ratchet RatchetProofs RatchetConversation.
From S2P Require Import Wire Handshake HandshakeProofs Topics WebSocket ClientProto ChatClient ChatClientSend FrameCodec.
From S2P Require Import Toy ToySign ChatClientWitness.

Module Cli.

#[local] Existing Instances Ratchet.rm_fields SenderKeys.skm_fields SenderKeys.skd_fields.

(** ** Programs *)

(** What a wait for a frame gives: nothing in time, bytes that do not parse, a frame. *)
Inductive Recv :=
| Nothing
| Unparsable
| Got (f : Frame).

Inductive CliEvent :=
| Sent (f : Frame)
| Line (s : bytes)
| WroteFile (path content : bytes).

(** [return n], or an exception nobody catches. *)
Inductive Exit :=
| Return (n : Z)
| Crash.

Definition Cli (A : Type) : Type := list Recv -> (Exit + A) * list CliEvent * list Recv.

Definition cret {A} (a : A) : Cli A := fun i => (inr a, [], i).
Definition cbind {A B} (m : Cli A) (k : A -> Cli B) : Cli B := fun i =>
  match m i with
  | (inl e, ev, i') => (inl e, ev, i')
  | (inr a, ev, i') => let '(r, ev', i'') := k a i' in (r, ev ++ ev', i'')
  end.
Definition exit_with {A} (n : Z) : Cli A := fun i => (inl (Return n), [], i).
Definition crash {A} : Cli A := fun i => (inl Crash, [], i).
Definition emit (e : CliEvent) : Cli unit := fun i => (inr tt, [e], i).
Definition send (f : Frame) : Cli unit := emit (Sent f).
Definition say (s : bytes) : Cli unit := emit (Line s).

(** The next result of [blocking_recv_frame], parsed. *)
Definition recv : Cli Recv := fun i =>
  match i with [] => (inr Nothing, [], []) | r :: i' => (inr r, [], i') end.

(** An exception inside a mode is not caught. *)
Definition or_crash {E A} (r : result E A) : Cli A := match r with Ok a => cret a | Throw _ => crash end.

#[local] Notation "'do!' x := m 'in' k" := (cbind m (fun x => k)) (at level 10, x pattern, m at level 100, k at level 200).

(** ** Receiving bytes ([blocking_recv_frame] without WebSocket)

    [reads] are the results of [read_some] until the deadline; an empty one is 0. *)
Fixpoint recv_pieces (dec : FrameDecoder) (reads : list bytes) : option bytes * FrameDecoder * list bytes :=
  match reads with
  | [] => (None, dec, [])
  | chunk :: reads' =>
      if bool_decide (chunk = []) then (None, dec, reads')
      else
        match FrameCodec.try_pop (FrameCodec.feed dec chunk) with
        | (kFrameReady out, dec') => (Some out, dec', reads')
        | (_, dec') => recv_pieces dec' reads'
        end
  end.

Definition blocking_recv_frame (dec : FrameDecoder) (reads : list bytes) : option bytes * FrameDecoder * list bytes :=
  match FrameCodec.try_pop dec with
  | (kFrameReady out, dec') => (Some out, dec', reads)
  | (_, dec') => recv_pieces dec' reads
  end.

(** ** Text *)

(** [unhex]: spaces are skipped; anything else that is not a pair of digits gives nothing. *)
Definition nibble (c : byte) : option Z :=
  let z := b2z c in
  if (48 <=? z) && (z <=? 57) then Some (z - 48)
  else if (97 <=? z) && (z <=? 102) then Some (z - 97 + 10)
  else if (65 <=? z) && (z <=? 70) then Some (z - 65 + 10)
  else None.

Fixpoint unhex_pairs (clean : bytes) : option bytes :=
  match clean with
  | a :: b :: clean' =>
      match nibble a, nibble b with
      | Some hi, Some lo => cons (z2b (Z.lor (Z.shiftl hi 4) lo)) <$> unhex_pairs clean'
      | _, _ => None
      end
  | _ => Some []
  end.

Definition unhex (s : bytes) : bytes :=
  let clean := filter (fun c => WebSocket.isspace c = false) s in
  if negb (length clean mod 2 =? 0)%nat then [] else default [] (unhex_pairs clean).

(** [hex_to_bytes]: no spaces allowed. *)
Definition cli_hex_to_bytes (hex : bytes) : option bytes :=
  if negb (length hex mod 2 =? 0)%nat then None else unhex_pairs hex.

(** [parse_u8] *)
Definition parse_u8 (v : bytes) : option Z :=
  if bool_decide (v = []) || (3 <? length v)%nat then None
  else if negb (forallb (fun c => (48 <=? b2z c) && (b2z c <=? 57)) v) then None
  else
    let val := foldl (fun a c => a * 10 + (b2z c - 48)) 0 v in
    if (val <? 1) || (255 <? val) then None else Some val.

(** [fname.substr(fname.find_last_of("/\\") + 1)] *)
Fixpoint basename_loop (path acc : bytes) : bytes :=
  match path with
  | [] => acc
  | c :: path' => if (b2z c =? 47) || (b2z c =? 92) then basename_loop path' [] else basename_loop path' (acc ++ [c])
  end.
Definition basename (path : bytes) : bytes := basename_loop path [].

(** ** Shares on standard input and output *)

Fixpoint print_shares (l : list Share) : Cli unit :=
  match l with
  | [] => cret tt
  | s :: l' =>
      match encode_share s with
      | Throw _ => exit_with 2
      | Ok wire => do! _ := say (to_hex wire) in print_shares l'
      end
  end.

Definition shamir_split_mode (rnd : nat -> nat -> bytes) (line : option bytes) (m n : Z) : Cli unit :=
  match line with
  | None => exit_with 2
  | Some line =>
      let secret := unhex line in
      if bool_decide (secret = []) then exit_with 2
      else
        match split rnd secret (z2b m) (z2b n) with
        | Throw _ => exit_with 2
        | Ok shares => print_shares shares
        end
  end.

Fixpoint read_share_lines (lines : list bytes) (shares : list Share) : option (list Share) :=
  match lines with
  | [] => Some shares
  | line :: lines' =>
      let b := unhex line in
      if bool_decide (line = []) || bool_decide (b = []) then read_share_lines lines' shares
      else match decode_share b with
      | Throw _ => None
      | Ok s => read_share_lines lines' (shares ++ [s])
      end
  end.

Definition shamir_combine_mode (lines : list bytes) : Cli unit :=
  match read_share_lines lines [] with
  | None => exit_with 2
  | Some [] => exit_with 2
  | Some shares =>
      match combine shares with
      | Throw _ => exit_with 2
      | Ok secret => say (to_hex secret)
      end
  end.
(** ** Identity *)

(** The derived keys; the post-quantum ones only when OpenSSL provides them. *)
Record Me := mkMe {
  me_id : Identity;
  me_x : X25519Pair;
  me_pq : option (PqIdentity * PqSigIdentity);
}.

(** What [randombytes_buf] and the clock give one message. *)
Record Stamp := mkStamp {
  st_envid : bytes;
  st_now : Z;
}.

(** What a first contact draws: the encapsulation and the first ratchet key. *)
Record Contact := mkContact {
  rnd_kem : bytes;
  rnd_init : bytes;
}.

Section cli.
Context `{!Sodium, !Ed25519, !EdCurve, !PqCrypto, !KeyedBlake2b}.
Context `{!ProtoMsg Ratchet.RatchetMessage, !ProtoMsg SenderKeys.SenderKeysMessage}.
Context `{!ProtoMsg SenderKeys.SenderKeysDistribution, !ProtoMsg DmPayload}.

(** From the seed: every failing derivation ends the process. *)
Definition setup (i : Identity) (seed : bytes) (pq_ok : bool) : Cli Me :=
  do! x := or_crash (derive_x25519 i) in
  if pq_ok then
    do! pq := or_crash (derive_pq_identity i seed) in
    do! pqs := or_crash (derive_pq_sig_identity i seed) in
    cret (mkMe i x (Some (pq, pqs)))
  else cret (mkMe i x None).

Definition me_pub (me : Me) : bytes := id_pub (me_id me).

(** [pq_id.sec], zero when there is none. *)
Definition me_pq_sec (me : Me) : bytes :=
  match me_pq me with Some (pq, _) => pq_sec pq | None => replicate 2400 Byte.x00 end.

(** ** Connecting *)

(** The bundle of step 2; [published_at_ms] is set last. *)
Definition upload_bundle (me : Me) (now : Z) : PreKeyBundle :=
  let b := match me_pq me with
           | Some (pq, pqs) =>
               add_pq_sig_fields_to_bundle
                 (mkPreKeyBundle (me_pub me) (x_pub (me_x me)) [] [] 0 0 (pq_pub pq) (pq_binding_sig pq) [] [] [] []) pqs
           | None => mkPreKeyBundle (me_pub me) (x_pub (me_x me)) [] [] 0 0 [] [] [] [] [] []
           end in
  mkPreKeyBundle (pk_identity_pubkey b) (signed_prekey b) (signed_prekey_sig b) (one_time_prekey b)
    (one_time_prekey_id b) now (pq_pubkey b) (pq_pubkey_sig b) (pq_sig_pubkey b) (pq_sig_pubkey_sig b)
    (signed_prekey_sig_pq b) (pq_pubkey_sig_pq b).

(** Steps 1 and 2 of [main]. *)
Definition connect (me : Me) (user : bytes) (now : Z) : Cli unit :=
  do! _ := send (FHello (mkClientHello (me_pub me) user kProtocolVersion)) in
  do! r := recv in
  match r with
  | Nothing => exit_with 3
  | Got (FServerHello h) =>
      if negb (sh_accepted h) then exit_with 4
      else if negb (length (server_random h) =? 32)%nat then exit_with 4
      else
        do! _ := send (FHelloAck (id_sign (me_id me) (server_random h))) in
        send (FKeyUpload (upload_bundle me now))
  | _ => exit_with 4
  end.

(** The answer to a [KeyBundleFetchRequest], with its checks. *)
Definition fetch_bundle (peer : bytes) : Cli PreKeyBundle :=
  do! _ := send (FKeyFetch peer 0) in
  do! r := recv in
  match r with
  | Nothing => exit_with 5
  | Got (FKeyFetchResp resp) =>
      if negb (kf_found resp) then exit_with 6
      else
        let b := default empty_bundle (kf_bundle resp) in
        if negb (length (signed_prekey b) =? 32)%nat || negb (length (pk_identity_pubkey b) =? 32)%nat
        then exit_with 7 else cret b
  | _ => exit_with 6
  end.

(** The secret and the ratchet of the initiator. *)
Definition open_session (me : Me) (c : Contact) (b : PreKeyBundle) : Cli (HybridSendResult * Ratchet.State) :=
  do! hyb := or_crash (derive_hybrid_send_from_bundle (me_x me) (signed_prekey b) b (rnd_kem c)) in
  do! rat := or_crash (Ratchet.init_alice (hs_shared hyb) (signed_prekey b) (rnd_init c)) in
  cret (hyb, rat).

(** Encrypting one payload and sending it to a user. *)
Definition dm_envelope (me : Me) (to : bytes) (s : Stamp) (inner pq : bytes) : Envelope :=
  mkEnvelope (st_envid s) (st_now s) (me_pub me) inner (envelope_aad_bytes (st_envid s) (st_now s))
    kAes256Gcm kProtocolVersion [] pq (UserPubkey to).

Definition send_dm (me : Me) (to : bytes) (s : Stamp) (pq : bytes) (rat : Ratchet.State) (pt : bytes) : Cli Ratchet.State :=
  let '(r, rat') := Ratchet.encrypt rat pt (envelope_aad_bytes (st_envid s) (st_now s)) in
  do! inner := or_crash r in
  do! _ := send (FEnvelope (dm_envelope me to s inner pq)) in
  cret rat'.

(** Fetch, derive, send: what [--send] and its variants have in common. *)
Definition first_dm (me : Me) (peer : bytes) (c : Contact) (s : Stamp) (pt : bytes) : Cli (PreKeyBundle * Ratchet.State) :=
  do! b := fetch_bundle peer in
  do! hr := open_session me c b in
  do! rat := send_dm me (pk_identity_pubkey b) s (hs_pq_ct hr.1) hr.2 pt in
  cret (b, rat).

(** ** Sending modes *)

Definition text_payload (text : bytes) (ttl : Z) : bytes := pb_serialize (mkDmPayload (BText text) [] [] ttl).

Definition send_mode (me : Me) (peer text : bytes) (ttl : Z) (c : Contact) (s : Stamp) : Cli unit :=
  do! _ := first_dm me peer c s (text_payload text ttl) in cret tt.

(** [file]: what [read_file] returns; [None] is its exception. *)
Definition send_image_mode (me : Me) (peer path : bytes) (file : option bytes) (c : Contact) (s : Stamp) : Cli unit :=
  match file with
  | None => crash
  | Some content =>
      if bool_decide (content = []) then exit_with 2
      else if kMaxInlineAttachmentBytes <? Z.of_nat (length content) then exit_with 2
      else
        let fname := basename path in
        do! _ := first_dm me peer c s (pack_attachment_payload (str "application/octet-stream") fname content) in
        say (str "IMG-SENT: " ++ fname ++ str " " ++ WebSocket.to_string (Z.of_nat (length content)) ++ str "B")
  end.

Definition send_roomkey_mode (me : Me) (peer : bytes) (epoch : Z) (secret : bytes) (c : Contact) (s : Stamp) : Cli unit :=
  do! _ := first_dm me peer c s (pb_serialize (dm_of (BRoomKey (replicate 32 Byte.x00) (u32 epoch) secret))) in
  say (str "ROOMKEY-SENT: epoch=" ++ WebSocket.to_string epoch ++ str " secret=" ++ to_hex secret).

Definition signal_payload (call_id : bytes) (kind : Z) (sdp : bytes) : bytes :=
  pack_media_signal_payload (mkMediaSignal call_id kind sdp 0 [] []).

(** The wait for the answer: [rnds i] is what a ratchet step on frame [i] draws. *)
Fixpoint await_answer (rnds : nat -> bytes) (i : nat) (rat : Ratchet.State) (inbox : list Recv)
    : (Exit + unit) * list CliEvent * list Recv :=
  match inbox with
  | [] => (inl (Return 8), [], [])
  | r :: inbox' =>
      match r with
      | Got (FEnvelope env) =>
          match Ratchet.decrypt rat (ciphertext env) (env_aad env) (rnds i) with
          | (Throw _, _) => (inl Crash, [], inbox')
          | (Ok None, rat') => await_answer rnds (S i) rat' inbox'
          | (Ok (Some pt), rat') =>
              match pb_parse (M := DmPayload) pt with
              | Some (mkDmPayload (BMediaSignal m) _ _ _) =>
                  if ms_kind m =? 2
                  then (inr tt, [Line (str "CALL-ANSWER: " ++ ms_payload m)], inbox')
                  else await_answer rnds (S i) rat' inbox'
              | _ => await_answer rnds (S i) rat' inbox'
              end
          end
      | _ => await_answer rnds (S i) rat inbox'
      end
  end.

(** The user name of a key, from the relay. *)
Definition lookup_username (peer_pub : bytes) : Cli bytes :=
  do! _ := send (FUsernameLookup peer_pub) in
  do! r := recv in
  match r with
  | Nothing => exit_with 5
  | Got (FUsernameResp _ username found) => if negb found then exit_with 6 else cret username
  | _ => exit_with 6
  end.

Definition call_offer_mode (me : Me) (peer_hex text call_id : bytes) (c : Contact) (s : Stamp) (rnds : nat -> bytes) : Cli unit :=
  match cli_hex_to_bytes peer_hex with
  | Some peer_pub =>
      if negb (length peer_pub =? 32)%nat then exit_with 2
      else
        do! username := lookup_username peer_pub in
        do! br := first_dm me username c s (signal_payload call_id 1 text) in
        do! _ := say (str "CALL-OFFER-SENT: " ++ text) in
        await_answer rnds 0 br.2
  | None => exit_with 2
  end.

Definition overlay_send_mode (peer text : bytes) (kind : Z) : Cli unit :=
  do! _ := send (FKeyFetch peer 0) in
  do! r := recv in
  match r with
  | Nothing => exit_with 5
  | Got (FKeyFetchResp resp) =>
      if negb (kf_found resp) then exit_with 6
      else
        let pub := pk_identity_pubkey (default empty_bundle (kf_bundle resp)) in
        if negb (length pub =? 32)%nat then exit_with 7
        else
          do! _ := send (FPeer (mkPeerEnvelope kind pub text [])) in
          say (str "OVERLAY-SENT to " ++ peer ++ str " bytes=" ++ WebSocket.to_string (Z.of_nat (length text)))
  | _ => exit_with 6
  end.

Fixpoint overlay_recv_loop (inbox : list Recv) : (Exit + unit) * list CliEvent * list Recv :=
  match inbox with
  | [] => (inl (Return 8), [], [])
  | Got (FPeer pe) :: inbox' =>
      (inr tt, [Line (str "OVERLAY-RECV kind=" ++ WebSocket.to_string (pe_kind pe) ++ str " from_pub_len=" ++
        WebSocket.to_string (Z.of_nat (length (pe_sender_pubkey pe))) ++ str " payload=" ++ pe_payload pe)], inbox')
  | _ :: inbox' => overlay_recv_loop inbox'
  end.

(** ** Channels *)

Definition channel_envelope (me : Me) (chan_id : bytes) (s : Stamp) (msg : bytes) : Envelope :=
  mkEnvelope (st_envid s) (st_now s) (me_pub me) msg (envelope_aad_bytes (st_envid s) (st_now s))
    kAes256Gcm kProtocolVersion [] [] (ChannelGroupId chan_id).

(** Encrypting under the own chain and sending to the channel. *)
Definition send_channel (me : Me) (chan_id : bytes) (s : Stamp) (g : SenderKeys.GroupSession) (text : bytes) : Cli unit :=
  do! r := or_crash (SenderKeys.encrypt g text (envelope_aad_bytes (st_envid s) (st_now s))) in
  send (FEnvelope (channel_envelope me chan_id s r.1)).

Definition channel_create_mode (me : Me) (name dist_file text rnd_id rnd_key : bytes) (s : Stamp) : Cli unit :=
  let chan_id := channel_id_from_name name in
  do! _ := send (FChanSubscribe chan_id) in
  let '(dist, g) := SenderKeys.create_own_send_chain SenderKeys.new_session rnd_id rnd_key in
  do! _ := emit (WroteFile dist_file dist) in
  send_channel me chan_id s g text.

Definition channel_invite_mode (me : Me) (peer name text rnd_id rnd_key : bytes) (c : Contact) (s s2 : Stamp) : Cli unit :=
  let chan_id := channel_id_from_name name in
  do! b := fetch_bundle peer in
  do! hr := open_session me c b in
  let '(own_dist, g) := SenderKeys.create_own_send_chain SenderKeys.new_session rnd_id rnd_key in
  do! _ := send (FChanSubscribe chan_id) in
  do! _ := send_dm me (pk_identity_pubkey b) s (hs_pq_ct hr.1) hr.2 (pack_channel_key_payload chan_id name own_dist) in
  send_channel me chan_id s2 g text.

(** [Envelope.aad], when present, must be the one of the id and the time. *)
Definition cli_aad_consistent (env : Envelope) : bool :=
  bool_decide (env_aad env = []) || bool_decide (env_aad env = envelope_aad_bytes (envelope_id env) (timestamp_ms env)).

(** [--channel-listen]: the distribution is installed for whoever sends first. *)
Fixpoint channel_listen_loop (dist : bytes) (installed : bool) (g : SenderKeys.GroupSession) (inbox : list Recv)
    : (Exit + unit) * list CliEvent :=
  match inbox with
  | [] => (inr tt, [])
  | Got (FEnvelope env) :: inbox' =>
      match recipient env with
      | ChannelGroupId _ =>
          if negb (length (sender_pubkey env) =? 32)%nat then channel_listen_loop dist installed g inbox'
          else
            match (if installed then Ok g else SenderKeys.install_peer_distribution g (sender_pubkey env) dist) with
            | Throw _ => (inl Crash, [])
            | Ok g =>
                if negb (cli_aad_consistent env) then channel_listen_loop dist true g inbox'
                else
                  let '(pt, g') := SenderKeys.decrypt g (sender_pubkey env) (ciphertext env) (env_aad env) in
                  let '(r, ev) := channel_listen_loop dist true g' inbox' in
                  (r, match pt with Some t => Line (str "CHAN-MSG: " ++ t) :: ev | None => ev end)
            end
      | _ => channel_listen_loop dist installed g inbox'
      end
  | _ :: inbox' => channel_listen_loop dist installed g inbox'
  end.

(** [dist]: what the polling of the file gave. *)
Definition channel_listen_mode (name dist : bytes) : Cli unit := fun inbox =>
  let sub := Sent (FChanSubscribe (channel_id_from_name name)) in
  if bool_decide (dist = []) then (inl (Return 8), [sub], inbox)
  else let '(r, ev) := channel_listen_loop dist false SenderKeys.new_session inbox in (r, sub :: ev, []).

(** ** Without a server: messages of a gossip topic *)

Definition p2p_payload (me : Me) (msg : bytes) : bytes := me_pub me ++ msg.

(** The callback of [--p2p-listen]: the state, and what is received. *)
Definition p2p_on_message (dist : bytes) (st : bool * SenderKeys.GroupSession) (payload : bytes)
    : (bool * SenderKeys.GroupSession) * option bytes :=
  let '(installed, g) := st in
  if (length payload <? 32)%nat then (st, None)
  else
    let sender := take 32 payload in
    match (if installed then Ok g else SenderKeys.install_peer_distribution g sender dist) with
    | Throw _ => (st, None)
    | Ok g => let '(pt, g') := SenderKeys.decrypt g sender (drop 32 payload) [] in ((true, g'), pt)
    end.

(** ** Listening *)

Record Listener := mkListener {
  l_rat : option Ratchet.State;
  l_group : SenderKeys.GroupSession;
  l_known : gmap bytes bytes;
}.

Definition new_listener : Listener := mkListener None SenderKeys.new_session ∅.

(** What handling one frame may draw. *)
Record ListenRnd := mkListenRnd {
  lr_ratchet : bytes;
  lr_stamp : Stamp;
}.

(** The ratchet of the first sender, made from its envelope; [None] skips the envelope. *)
Definition listen_session (me : Me) (l : Listener) (env : Envelope) : Exit + option Ratchet.State :=
  match l_rat l with
  | Some r => inr (Some r)
  | None =>
      if negb (length (sender_pubkey env) =? 32)%nat then inr None
      else
        match pk_to_curve25519 (sender_pubkey env) with
        | None => inr None
        | Some peer_x =>
            match derive_hybrid_recv_from_env (me_x me) peer_x (me_pq_sec me) env with
            | Throw _ => inl Crash
            | Ok shared => inr (Some (Ratchet.init_bob shared (x_priv (me_x me)) (x_pub (me_x me))))
            end
        end
  end.

(** What is done with a payload; [image_out] is the file for attachments, and whether
    it can be written. *)
Definition handle_payload (me : Me) (image_out : bytes) (writable : bool) (rnd : ListenRnd) (env : Envelope)
    (rat : Ratchet.State) (l : Listener) (p : DmPayload) : (Exit + Listener) * list CliEvent :=
  let l := mkListener (Some rat) (l_group l) (l_known l) in
  match dm_body p with
  | BText text => (inr l, [Sent (FUsernameLookup (sender_pubkey env)); Line (str "MSG: " ++ text)])
  | BAttachment mime fname content =>
      let out := if bool_decide (image_out = []) then [] else [WroteFile image_out content] in
      if negb (bool_decide (image_out = [])) && negb writable then (inl Crash, [])
      else (inr l, out ++ [Line (str "IMG-RECEIVED: " ++ fname ++ str " " ++
             WebSocket.to_string (Z.of_nat (length content)) ++ str "B mime=" ++ mime)])
  | BRoomKey _ epoch secret =>
      (inr l, [Line (str "ROOMKEY: epoch=" ++ WebSocket.to_string epoch ++ str " secret=" ++ to_hex secret)])
  | BChannelKey cid name dist =>
      if negb (length cid =? 32)%nat then (inr l, [])
      else
        match SenderKeys.install_peer_distribution (l_group l) (sender_pubkey env) (pb_serialize dist) with
        | Throw _ => (inr l, [])
        | Ok g => (inr (mkListener (Some rat) g (<[cid := name]> (l_known l))),
                   [Sent (FChanSubscribe cid); Line (str "INVITE: #" ++ name)])
        end
  | BMediaSignal m =>
      if ms_kind m =? 1 then
        let offer := Line (str "CALL-OFFER: " ++ ms_payload m) in
        if (length (sender_pubkey env) =? 32)%nat then
          let s := lr_stamp rnd in
          let '(r, rat') := Ratchet.encrypt rat (signal_payload (ms_call_id m) 2 (str "v=0 answer for " ++ ms_payload m))
                              (envelope_aad_bytes (st_envid s) (st_now s)) in
          match r with
          | Throw _ => (inl Crash, [offer])
          | Ok inner => (inr (mkListener (Some rat') (l_group l) (l_known l)),
                         [offer; Sent (FEnvelope (dm_envelope me (sender_pubkey env) s inner [])); Line (str "CALL-ANSWER-SENT")])
          end
        else (inr l, [offer])
      else if ms_kind m =? 2 then (inr l, [Line (str "CALL-ANSWER: " ++ ms_payload m)])
      else (inr l, [])
  | _ => (inr l, [])
  end.

(** One turn of the loop. *)
Definition listen_frame (me : Me) (image_out : bytes) (writable : bool) (rnd : ListenRnd) (l : Listener) (r : Recv)
    : (Exit + Listener) * list CliEvent :=
  match r with
  | Got (FUsernameResp _ username found) => (inr l, if found : bool then [Line (str "USER: " ++ username)] else [])
  | Got (FEnvelope env) =>
      match recipient env with
      | ChannelGroupId _ =>
          if negb (length (sender_pubkey env) =? 32)%nat then (inr l, [])
          else if negb (cli_aad_consistent env) then (inr l, [])
          else
            let '(pt, g) := SenderKeys.decrypt (l_group l) (sender_pubkey env) (ciphertext env) (env_aad env) in
            (inr (mkListener (l_rat l) g (l_known l)),
             match pt with Some t => [Line (str "CHAN-MSG: " ++ t)] | None => [] end)
      | _ =>
          match listen_session me l env with
          | inl e => (inl e, [])
          | inr None => (inr l, [])
          | inr (Some rat) =>
              let l := mkListener (Some rat) (l_group l) (l_known l) in
              if negb (cli_aad_consistent env) then (inr l, [])
              else
                match Ratchet.decrypt rat (ciphertext env) (env_aad env) (lr_ratchet rnd) with
                | (Throw _, _) => (inl Crash, [])
                | (Ok None, rat') => (inr (mkListener (Some rat') (l_group l) (l_known l)), [])
                | (Ok (Some pt), rat') =>
                    match pb_parse (M := DmPayload) pt with
                    | None => (inr (mkListener (Some rat') (l_group l) (l_known l)), [])
                    | Some p => handle_payload me image_out writable rnd env rat' l p
                    end
                end
          end
      end
  | _ => (inr l, [])
  end.

Fixpoint listen_loop (me : Me) (image_out : bytes) (writable : bool) (rnds : nat -> ListenRnd) (i : nat) (l : Listener)
    (inbox : list Recv) : (Exit + Listener) * list CliEvent :=
  match inbox with
  | [] => (inr l, [])
  | r :: inbox' =>
      match listen_frame me image_out writable (rnds i) l r with
      | (inl e, ev) => (inl e, ev)
      | (inr l', ev) => let '(res, ev') := listen_loop me image_out writable rnds (S i) l' inbox' in (res, ev ++ ev')
      end
  end.

(** [--listen], and [--call-listen], which prints the key first. *)
Definition listen_mode (me : Me) (call_listen : bool) (image_out : bytes) (writable : bool) (rnds : nat -> ListenRnd)
    : Cli Listener := fun inbox =>
  let '(r, ev) := listen_loop me image_out writable rnds 0 new_listener inbox in
  (r, (if call_listen then [Line (str "MY-PUBKEY: " ++ to_hex (me_pub me))] else []) ++ ev, []).

End cli.

(** ** Text of keys and shares *)

Lemma nibble_digits (x : byte) :
  exists h l, to_hex [x] = [h; l] /\ WebSocket.isspace h = false /\ WebSocket.isspace l = false /\
    match nibble h, nibble l with Some hi, Some lo => z2b (Z.lor (Z.shiftl hi 4) lo) = x | _, _ => False end.
Proof. destruct x; (eexists _, _; split; [reflexivity|]; split; [reflexivity|]; split; reflexivity). Qed.

Lemma unhex_pairs_to_hex b :
  unhex_pairs (to_hex b) = Some b /\ filter (fun c => WebSocket.isspace c = false) (to_hex b) = to_hex b.
Proof.
  induction b as [|x b (IH & IHs)]; [done|]. destruct (nibble_digits x) as (h & l & E & Hh & Hl & Hx).
  assert (to_hex (x :: b) = h :: l :: to_hex b) as ->.
  { change (to_hex (x :: b)) with (to_hex [x] ++ to_hex b). by rewrite E. }
  cbn [unhex_pairs]. destruct (nibble h) as [hi|]; [|done]. destruct (nibble l) as [lo|]; [|done].
  rewrite IH, Hx, !filter_cons_True, IHs by done. done.
Qed.

Lemma even_double n : negb ((2 * n) mod 2 =? 0)%nat = false.
Proof. by rewrite Nat.mul_comm, Nat.Div0.mod_mul. Qed.

Lemma cli_hex_roundtrip b : cli_hex_to_bytes (to_hex b) = Some b.
Proof. unfold cli_hex_to_bytes. by rewrite length_to_hex, even_double, (proj1 (unhex_pairs_to_hex b)). Qed.

Lemma unhex_to_hex b : unhex (to_hex b) = b.
Proof. unfold unhex. destruct (unhex_pairs_to_hex b) as (E & ->). by rewrite length_to_hex, even_double, E. Qed.

(** ** Shares on the command line *)

Definition share_line (sh : Share) : bytes := to_hex (share_x sh :: share_y sh).
Definition share_ok (sh : Share) : Prop := share_x sh <> Byte.x00 /\ share_y sh <> [].

Lemma share_encodes sh : share_ok sh -> encode_share sh = Ok (share_x sh :: share_y sh).
Proof.
  intros [Hx Hy]. unfold encode_share. rewrite bool_decide_eq_false_2 by done.
  destruct (Z.eqb_spec (b2z (share_x sh)) 0) as [E|]; [by apply b2z_eq_0 in E|done].
Qed.

Lemma split_share_ok rnd secret t n shares : split rnd secret t n = Ok shares -> Forall share_ok shares.
Proof.
  intros (Hne & _ & _ & Hall)%split_shares. eapply Forall_impl; [exact Hall|]. intros sh (Hx & Hl & _).
  split; [done|]. intros E. rewrite E in Hl. by destruct secret.
Qed.

Lemma print_shares_lines l inbox : Forall share_ok l -> print_shares l inbox = (inr tt, Line ∘ share_line <$> l, inbox).
Proof.
  induction 1 as [|sh l Hsh Hall IH]; [done|]. cbn [print_shares]. rewrite (share_encodes sh Hsh).
  unfold cbind, say, emit. by rewrite IH.
Qed.

Lemma read_share_lines_ok l acc : Forall share_ok l -> read_share_lines (share_line <$> l) acc = Some (acc ++ l).
Proof.
  intros Hall. revert acc. induction Hall as [|sh l Hsh Hall IH]; intros acc; [by rewrite app_nil_r|].
  change (share_line <$> sh :: l) with (share_line sh :: (share_line <$> l)). cbn [read_share_lines].
  assert (unhex (share_line sh) = share_x sh :: share_y sh) as -> by apply unhex_to_hex. unfold share_line at 1.
  rewrite (bool_decide_eq_false_2 (to_hex _ = [])) by (intros E; apply (f_equal length) in E; by rewrite length_to_hex in E).
  rewrite (bool_decide_eq_false_2 (_ :: _ = [])) by done. cbn [orb].
  rewrite (proj1 (proj1 (share_codec_roundtrip sh _)) (share_encodes sh Hsh)), IH, <- app_assoc. done.
Qed.

(** Any [m] of the lines [--shamir-split m n] prints, in any order, make
    [--shamir-combine] print the secret. *)
Theorem shamir_lines_combine (rnd : nat -> nat -> bytes) (secret : bytes) (m n : Z) (inbox : list Recv) (sel : list Share) shares :
  (forall b n, length (rnd b n) = n) -> 0 < m < 256 -> split rnd secret (z2b m) (z2b n) = Ok shares ->
  (forall s, s ∈ sel -> s ∈ shares) -> NoDup (share_x <$> sel) -> m <= Z.of_nat (length sel) ->
  shamir_split_mode rnd (Some (to_hex secret)) m n inbox = (inr tt, Line ∘ share_line <$> shares, inbox) /\
  shamir_combine_mode (share_line <$> sel) inbox = (inr tt, [Line (to_hex secret)], inbox).
Proof.
  intros Hrnd Hm Hsplit Hsub Hnd Hlen. pose proof (split_share_ok _ _ _ _ _ Hsplit) as Hall.
  assert (secret <> []) as Hne by (by apply split_shares in Hsplit as [? _]). split.
  - unfold shamir_split_mode. rewrite unhex_to_hex, bool_decide_eq_false_2, Hsplit by done. by apply print_shares_lines.
  - unfold shamir_combine_mode. rewrite read_share_lines_ok
      by (rewrite Forall_forall in Hall |- *; intros s Hs; by apply Hall, Hsub).
    cbn [app]. rewrite (enough_shares_reconstruct rnd secret (z2b m) (z2b n) shares sel Hrnd Hsplit Hsub Hnd)
      by (rewrite b2z_z2b_small; lia).
    destruct sel; [cbn [length] in Hlen; lia|done].
Qed.

(** ** Frames in pieces *)

(** Whatever pieces the bytes arrive in, the next frame is returned, and the rest kept. *)
Theorem recv_frame_in_pieces (p rest buf : bytes) (msg : string) (reads : list bytes) :
  FrameCodec.frame_ok p -> Forall (fun r => r <> []) reads -> buf ++ concat reads = FrameCodec.encode_frame p ++ rest ->
  exists dec' reads',
    blocking_recv_frame (mkFrameDecoder buf false msg) reads = (Some p, dec', reads') /\
    error_ dec' = false /\ buf_ dec' ++ concat reads' = rest.
Proof.
  intros Hp. 
  assert (forall buf reads, buf ++ concat reads = FrameCodec.encode_frame p ++ rest ->
    (exists dec', FrameCodec.try_pop (mkFrameDecoder buf false msg) = (kFrameReady p, dec') /\
       error_ dec' = false /\ buf_ dec' ++ concat reads = rest) \/
    FrameCodec.try_pop (mkFrameDecoder buf false msg) = (kNeedMore, mkFrameDecoder buf false msg)) as Hpop.
  { clear buf reads. intros buf reads E. pose proof (FrameCodec.try_pop_encoded p rest msg Hp) as Hfull. rewrite <- E in Hfull.
    destruct (FrameCodec.try_pop (mkFrameDecoder buf false msg)) as [[|out|] d'] eqn:Et.
    - right. by apply FrameCodec.try_pop_need_more in Et as [-> _].
    - left. exists d'. pose proof (FrameCodec.try_pop_app_ready _ _ _ _ (concat reads) Et) as Hr. rewrite Hfull in Hr.
      injection Hr as -> ->. by apply FrameCodec.try_pop_ready_inv in Et as (_ & ? & _).
    - destruct (FrameCodec.try_pop_app_error _ _ _ (concat reads) Et) as [d'' Hr]. by rewrite Hfull in Hr. }
  assert (forall reads buf, Forall (fun r => r <> []) reads -> buf ++ concat reads = FrameCodec.encode_frame p ++ rest ->
    FrameCodec.try_pop (mkFrameDecoder buf false msg) = (kNeedMore, mkFrameDecoder buf false msg) ->
    exists dec' reads', recv_pieces (mkFrameDecoder buf false msg) reads = (Some p, dec', reads') /\
      error_ dec' = false /\ buf_ dec' ++ concat reads' = rest) as Hloop.
  { clear buf reads. induction reads as [|r reads IH]; intros buf Hr E Hn.
    - cbn [concat] in E. rewrite app_nil_r in E. rewrite E, FrameCodec.try_pop_encoded in Hn by done. done.
    - apply Forall_cons in Hr as [Hr Hrs]. cbn [concat] in E. rewrite app_assoc in E. cbn [recv_pieces].
      rewrite bool_decide_eq_false_2 by done. unfold FrameCodec.feed. cbn [buf_ error_ error_msg_].
      destruct (Hpop (buf ++ r) reads E) as [(dec' & -> & ? & ?)|Hn']; [by eauto|]. rewrite Hn'. by apply IH. }
  intros Hr E. unfold blocking_recv_frame. destruct (Hpop buf reads E) as [(dec' & -> & ? & ?)|Hn]; [by eauto|].
  rewrite Hn. by apply Hloop.
Qed.

(** ** First contact between two clients *)

Section contact.
Context `{!Sodium, !SodiumLaws, !Ed25519, !Ed25519Laws, !EdCurve, !EdCurveLaws, !PqCrypto, !PqLaws, !KeyedBlake2b}.
Context `{!ProtoMsg Ratchet.RatchetMessage, !ProtoLaws Ratchet.RatchetMessage}.
Context `{!ProtoMsg SenderKeys.SenderKeysMessage, !ProtoLaws SenderKeys.SenderKeysMessage}.
Context `{!ProtoMsg SenderKeys.SenderKeysDistribution, !ProtoLaws SenderKeys.SenderKeysDistribution}.
Context `{!ProtoMsg DmPayload, !ProtoLaws DmPayload}.

(** Keys as [main] derives them. *)
Definition me_ok (me : Me) : Prop :=
  identity_ok (me_id me) /\ exists seed pq_ok, setup (me_id me) seed pq_ok [] = (inr me, [], []).

(** No low-order results; the encapsulation succeeds; the first ratchet key is new. *)
Record meets (a b : Me) (c : Contact) : Prop := {
  mt_secret : is_Some (scalarmult (x_priv (me_x a)) (x_pub (me_x b)));
  mt_first : is_Some (scalarmult (rnd_init c) (x_pub (me_x b)));
  mt_kem : forall pq pqs, me_pq b = Some (pq, pqs) -> is_Some (kem_encap (pq_pub pq) (rnd_kem c));
  mt_fresh : scalarmult_base (rnd_init c) <> x_pub (me_x b);
}.

(** The public keys of a session that has begun. *)
Definition contact_keys (b : Me) (c : Contact) : list bytes := [scalarmult_base (rnd_init c); x_pub (me_x b)].

(** Randomness for a ratchet step: a new key, no low-order results. *)
Definition new_key (keys : list bytes) (rnd : bytes) : Prop :=
  Forall (fun p => scalarmult_base rnd <> p /\ is_Some (scalarmult rnd p)) keys.

Lemma me_ok_inv me :
  me_ok me ->
  derive_x25519 (me_id me) = Ok (me_x me) /\
  match me_pq me with
  | Some (pq, pqs) => exists seed, derive_pq_identity (me_id me) seed = Ok pq /\ derive_pq_sig_identity (me_id me) seed = Ok pqs
  | None => True
  end.
Proof.
  intros (_ & seed & pq_ok & E). unfold setup, or_crash, cbind, cret, crash in E.
  destruct (derive_x25519 (me_id me)) as [x|] eqn:Ex; [|done].
  destruct pq_ok; [|by injection E as <-].
  destruct (derive_pq_identity (me_id me) seed) as [pq|] eqn:Ep; [|done].
  destruct (derive_pq_sig_identity (me_id me) seed) as [pqs|] eqn:Es; [|done].
  injection E as E. rewrite <- E in *. cbn [me_id me_x me_pq] in *. eauto.
Qed.

Lemma me_lengths me : me_ok me -> length (me_pub me) = 32%nat /\ length (x_pub (me_x me)) = 32%nat.
Proof.
  intros Hm. destruct (me_ok_inv me Hm) as [Hx _]. destruct Hm as [Hi _].
  destruct (derive_x25519_Ok _ _ Hi Hx) as (_ & _ & ->). unfold me_pub. rewrite Hi.
  by rewrite length_sign_public, length_scalarmult_base.
Qed.

(** The KEM key of a bundle, when there is one. *)
Definition me_pq_pub (me : Me) : bytes := match me_pq me with Some (pq, _) => pq_pub pq | None => [] end.

(** The uploaded bundle is accepted. *)
Lemma upload_accepted mine b now rnd :
  me_ok b ->
  derive_hybrid_send_from_bundle mine (x_pub (me_x b)) (upload_bundle b now) rnd =
  derive_hybrid_send mine (x_pub (me_x b)) (me_pq_pub b) rnd.
Proof.
  intros Hb. destruct (me_ok_inv b Hb) as [_ Hpq]. destruct (me_lengths b Hb) as [_ Hl]. destruct Hb as [Hi _].
  unfold me_pq_pub, upload_bundle. destruct (me_pq b) as [[pq pqs]|]; [|done]. destruct Hpq as (seed & Hp & Hs).
  rewrite <- (own_bundle_accepted (me_id b) (me_x b) pq pqs seed seed mine rnd Hi Hl Hp Hs). reflexivity.
Qed.

(** Both sides get the same secret, and the two ratchets form the start of a conversation. *)
Lemma session_opens a b c now :
  me_ok a -> me_ok b -> meets a b c ->
  exists hyb sA,
    (forall inbox, open_session a c (upload_bundle b now) inbox = (inr (hyb, sA), [], inbox)) /\
    derive_hybrid_recv (me_x b) (x_pub (me_x a)) (me_pq_sec b) (hs_pq_ct hyb) = Ok (hs_shared hyb) /\
    Ratchet.have_cks sA = true /\ Ratchet.ns sA = 0 /\
    reach (mkWorld sA (Ratchet.init_bob (hs_shared hyb) (x_priv (me_x b)) (x_pub (me_x b))) [] (contact_keys b c) 0).
Proof.
  intros Ha Hb [[dh Hdh] [dh' Hdh'] Hkem Hfresh].
  assert (signed_prekey (upload_bundle b now) = x_pub (me_x b)) as Hspk
    by (unfold upload_bundle; by destruct (me_pq b) as [[? ?]|]).
  assert (exists hyb, derive_hybrid_send (me_x a) (x_pub (me_x b)) (me_pq_pub b) (rnd_kem c) = Ok hyb) as [hyb Hh].
  { unfold derive_hybrid_send, derive_shared_secret. rewrite Hdh. cbn [or_throw rbind].
    destruct (hkdf_Ok [] dh (str "FinBit-X3DH-v0") 32) as [ss ->]; [lia|]. cbn [rbind].
    destruct (me_ok_inv b Hb) as [_ Hpq]. unfold me_pq_pub. destruct (me_pq b) as [[pq pqs]|]; [|by eauto].
    destruct Hpq as (seed & Hp & _). destruct (Hkem _ _ eq_refl) as [[ct s] Hc]. revert Hc.
    unfold derive_pq_identity in Hp. destruct (derive_pq_seed_from_identity_seed seed) as [s1|]; [|done].
    cbn [rbind] in Hp. injection Hp as <-. cbn [pq_pub]. pose proof (length_kem_pub s1) as Hl. intros Hc.
    destruct (kem_keygen s1).1 as [|x l] eqn:Ek; [done|]. rewrite Hl, Nat.eqb_refl, Hc. cbn [negb or_throw rbind].
    unfold combine_x25519_mlkem768.
    match goal with |- context [hkdf ?x ?y ?z 32] => destruct (hkdf_Ok x y z 32) as [k ->]; [lia|] end.
    cbn [rbind]. eauto. }
  destruct (me_ok_inv a Ha) as [Hax _]. destruct (me_ok_inv b Hb) as [Hbx Hpq].
  pose proof (proj1 Ha) as Hia. pose proof (proj1 Hb) as Hib.
  destruct (derive_x25519_Ok _ _ Hia Hax) as (_ & _ & Pa). destruct (derive_x25519_Ok _ _ Hib Hbx) as (_ & _ & Pb).
  assert (derive_hybrid_recv (me_x b) (x_pub (me_x a)) (me_pq_sec b) (hs_pq_ct hyb) = Ok (hs_shared hyb)) as Hrecv.
  { unfold me_pq_sec, me_pq_pub in *. destruct (me_pq b) as [[pq pqs]|].
    - destruct Hpq as (seed & Hp & _). unfold derive_pq_identity in Hp.
      destruct (derive_pq_seed_from_identity_seed seed) as [s1|]; [|done]. cbn [rbind] in Hp. injection Hp as <-.
      exact (hybrid_agreement _ _ s1 _ _ _ Pa Pb (or_intror eq_refl) Hh).
    - unfold derive_hybrid_send, derive_hybrid_recv in *. rewrite (shared_secret_comm _ _ Pa Pb) in Hh.
      destruct (derive_shared_secret (me_x b) (x_pub (me_x a))) as [ss|]; [|done]. cbn [rbind] in *.
      by injection Hh as <-. }
  assert (exists sA, Ratchet.init_alice (hs_shared hyb) (x_pub (me_x b)) (rnd_init c) = Ok sA /\
    Ratchet.have_cks sA = true /\ Ratchet.ns sA = 0) as (sA & Hi & Hcks & Hns).
  { unfold Ratchet.init_alice, Ratchet.x25519_keypair, Ratchet.x25519_dh. rewrite Hdh'. cbn [rbind].
    destruct (kdf_rk_ok (hs_shared hyb) dh') as (k1 & k2 & ->). cbn [rbind]. eauto. }
  exists hyb, sA. split; [|split; [done|split; [done|split; [done|]]]].
  - intros inbox. unfold open_session, cbind, or_crash. rewrite Hspk, (upload_accepted _ b now (rnd_kem c) Hb), Hh.
    unfold cret. by rewrite Hi.
  - apply Reach_init. unfold contact_keys. rewrite Pb in *. by apply Initial.
Qed.

(** *** Delivery of the first message *)

Lemma skip_loop_send n s : Ratchet.have_cks (Ratchet.skip_loop n s) = Ratchet.have_cks s /\ Ratchet.ns (Ratchet.skip_loop n s) = Ratchet.ns s.
Proof. revert s. induction n as [|n IH]; intros s; [done|]. cbn [Ratchet.skip_loop]. by destruct (IH (Ratchet.skip_step s)) as [-> ->]. Qed.

Lemma decrypt_current_send s m aad :
  Ratchet.have_cks (Ratchet.decrypt_current s m aad).2 = Ratchet.have_cks s /\
  Ratchet.ns (Ratchet.decrypt_current s m aad).2 = Ratchet.ns s.
Proof.
  unfold Ratchet.decrypt_current, Ratchet.skip_message_keys. destruct (Ratchet.have_ckr s); cbn [negb]; [|done].
  destruct (_ <? _); [done|]. apply skip_loop_send.
Qed.

(** Whoever has decrypted a first message can send. *)
Lemma bob_can_answer k priv pub w aad rnd pt s' :
  Ratchet.decrypt (Ratchet.init_bob k priv pub) w aad rnd = (Ok (Some pt), s') ->
  Ratchet.have_cks s' = true /\ Ratchet.ns s' = 0.
Proof.
  unfold Ratchet.decrypt. destruct (pb_parse w) as [m|]; [|done]. case_match; [done|]. unfold Ratchet.decrypt_msg.
  cbn [Ratchet.init_bob Ratchet.skipped Ratchet.have_dhr negb orb]. rewrite lookup_empty.
  change (Ratchet.skip_message_keys (Ratchet.init_bob k priv pub) (Ratchet.msg_pn m)) with (@Ok Ratchet.RError unit tt, Ratchet.init_bob k priv pub).
  cbv beta iota. match goal with |- context [Ratchet.dh_ratchet ?a ?b ?c] => destruct (Ratchet.dh_ratchet a b c) as [[[]|] s] eqn:Ed end; [|done].
  intros E. destruct (decrypt_current_send s m aad) as [Hc Hn]. rewrite E in Hc, Hn. cbn [snd] in Hc, Hn. rewrite Hc, Hn.
  clear -Ed. unfold Ratchet.dh_ratchet in Ed. repeat case_match; simplify_eq; done.
Qed.

(** The relay's answer to a request for the bundle of [b]. *)
Definition served (b : Me) (now request_id : Z) : Recv :=
  Got (FKeyFetchResp (mkKeyBundleFetchResponse true (Some (upload_bundle b now)) request_id)).

Lemma fetch_served b now rid peer inbox :
  me_ok b ->
  fetch_bundle peer (served b now rid :: inbox) = (inr (upload_bundle b now), [Sent (FKeyFetch peer 0)], inbox) /\
  pk_identity_pubkey (upload_bundle b now) = me_pub b.
Proof.
  intros Hb. destruct (me_lengths b Hb) as [Hl1 Hl2].
  assert (pk_identity_pubkey (upload_bundle b now) = me_pub b /\ signed_prekey (upload_bundle b now) = x_pub (me_x b)) as [E1 E2]
    by (unfold upload_bundle; by destruct (me_pq b) as [[? ?]|]).
  split; [|done]. unfold fetch_bundle, cbind, send, emit, recv, served. cbn [kf_found kf_bundle negb from_option id].
  by rewrite E1, E2, Hl1, Hl2.
Qed.

(** The sender's ratchet accepts one message more. *)
Lemma encrypt_ready s pt aad : Ratchet.have_cks s = true -> exists w s', Ratchet.encrypt s pt aad = (Ok w, s').
Proof. intros Hc. unfold Ratchet.encrypt. rewrite Hc. cbn [negb]. destruct (Ratchet.kdf_ck _). eauto. Qed.

(** One message from one side to the other, both before and after it a conversation. *)
Lemma message_passes who sF sT w used pt aad wire sF' rnd :
  reach w -> net w = [] -> pending w = 0%nat -> used = RatchetConversation.used w ->
  state_of w who = sF -> state_of w (negb who) = sT -> Ratchet.ns sF = 0 ->
  Ratchet.encrypt sF pt aad = (Ok wire, sF') -> new_key used rnd ->
  exists sT' w',
    Ratchet.decrypt sT wire aad rnd = (Ok (Some pt), sT') /\ reach w' /\ net w' = [] /\ pending w' = 0%nat /\
    RatchetConversation.used w' = scalarmult_base rnd :: used /\ state_of w' who = sF' /\ state_of w' (negb who) = sT'.
Proof.
  intros Hr Hn Hp -> <- <- Hns He Hk.
  set (p := mkPacket (negb who) wire aad pt). set (w1 := with_state w who sF' [p] (RatchetConversation.used w) 1).
  assert (reach w1) as Hr1.
  { eapply Reach_step; [exact Hr|]. unfold w1. rewrite <- Hn at 1.
    replace 1%nat with (S (pending w)) by lia. replace [p] with (p :: net w) by (by rewrite Hn).
    apply Step_send; [rewrite Hp; unfold Ratchet.kMaxSkip; lia|rewrite Hns; unfold_words; lia|exact He]. }
  assert (fresh_in w1 rnd) as Hf by (unfold w1, fresh_in; by destruct who).
  assert (p ∈ net w1) as Hin by (unfold w1; destruct who; apply list_elem_of_here).
  destruct (packet_decrypts w1 p rnd Hr1 Hin Hf) as [sT' E]. cbn [p pk_bob pk_wire pk_aad pk_pt] in E.
  assert (state_of w1 (negb who) = state_of w (negb who)) as Hst by (unfold w1; by destruct who). rewrite Hst in E.
  exists sT', (with_state w1 (negb who) sT' [] (scalarmult_base rnd :: RatchetConversation.used w) 0). split; [exact E|]. split.
  - eapply Reach_step; [exact Hr1|]. rewrite <- Hst in E.
    pose proof (Step_deliver w1 [] p [] rnd _ _ ltac:(unfold w1; by destruct who) Hf E) as Hs.
    unfold w1 in *. by destruct who.
  - unfold w1. by destruct who.
Qed.

(** A session has begun: both ratchets are where a conversation leaves them with nothing
    in flight. *)
Definition in_session (sA sB : Ratchet.State) (keys : list bytes) : Prop :=
  exists w, reach w /\ net w = [] /\ pending w = 0%nat /\ RatchetConversation.used w = keys /\
            alice w = sA /\ bob w = sB.

Lemma aad_consistent_dm me to s inner pq : cli_aad_consistent (dm_envelope me to s inner pq) = true.
Proof.
  unfold cli_aad_consistent, dm_envelope. cbn [env_aad envelope_id timestamp_ms].
  apply orb_true_iff. right. by apply bool_decide_eq_true_2.
Qed.

(** What the first envelope carries reaches [handle_payload] of a client that listens. *)
Lemma dm_received a b c s p hyb sA to out wr rnd :
  me_ok a -> me_ok b -> pb_ok p -> new_key (contact_keys b c) (lr_ratchet rnd) ->
  derive_hybrid_recv (me_x b) (x_pub (me_x a)) (me_pq_sec b) (hs_pq_ct hyb) = Ok (hs_shared hyb) ->
  Ratchet.have_cks sA = true -> Ratchet.ns sA = 0 ->
  reach (mkWorld sA (Ratchet.init_bob (hs_shared hyb) (x_priv (me_x b)) (x_pub (me_x b))) [] (contact_keys b c) 0) ->
  exists env sA' sB,
    (forall inbox, send_dm a to s (hs_pq_ct hyb) sA (pb_serialize p) inbox = (inr sA', [Sent (FEnvelope env)], inbox)) /\
    sender_pubkey env = me_pub a /\
    listen_frame b out wr rnd new_listener (Got (FEnvelope env)) = handle_payload b out wr rnd env sB new_listener p /\
    in_session sA' sB (scalarmult_base (lr_ratchet rnd) :: contact_keys b c) /\
    Ratchet.have_cks sB = true /\ Ratchet.ns sB = 0.
Proof.
  intros Ha Hb Hp Hk Hrecv Hc Hn Hr.
  destruct (encrypt_ready sA (pb_serialize p) (envelope_aad_bytes (st_envid s) (st_now s)) Hc) as (wire & sA' & He).
  destruct (message_passes false sA _ _ _ _ _ _ _ (lr_ratchet rnd) Hr eq_refl eq_refl eq_refl eq_refl eq_refl Hn He Hk)
    as (sB & w' & Hd & Hr' & Hn' & Hp' & Hu' & Hs1 & Hs2). cbn [negb state_of bob alice] in *.
  destruct (bob_can_answer _ _ _ _ _ _ _ _ Hd) as [Hcb Hnb].
  exists (dm_envelope a to s wire (hs_pq_ct hyb)), sA', sB.
  split; [intros inbox; unfold send_dm; rewrite He; reflexivity|]. split; [done|]. split; [|split; [|done]].
  - destruct (me_ok_inv a Ha) as [Hax _]. destruct (derive_x25519_Ok _ _ (proj1 Ha) Hax) as (_ & Hpk & _).
    unfold listen_frame, listen_session. rewrite aad_consistent_dm.
    cbn [recipient dm_envelope l_rat new_listener sender_pubkey negb ciphertext env_aad].
    rewrite (proj1 (me_lengths a Ha)). unfold me_pub. rewrite Hpk. cbn [Nat.eqb negb].
    unfold derive_hybrid_recv_from_env. cbn [pq_ct dm_envelope]. rewrite Hrecv. cbn [l_group l_known].
    rewrite Hd, pb_parse_serialize by done. reflexivity.
  - by exists w'.
Qed.

(** The same for [--send] and its variants. *)
Lemma first_dm_received a b c s now rid peer p out wr rnd :
  me_ok a -> me_ok b -> meets a b c -> pb_ok p -> new_key (contact_keys b c) (lr_ratchet rnd) ->
  exists env sA sB,
    (forall inbox, first_dm a peer c s (pb_serialize p) (served b now rid :: inbox) =
      (inr (upload_bundle b now, sA), [Sent (FKeyFetch peer 0); Sent (FEnvelope env)], inbox)) /\
    sender_pubkey env = me_pub a /\
    listen_frame b out wr rnd new_listener (Got (FEnvelope env)) = handle_payload b out wr rnd env sB new_listener p /\
    in_session sA sB (scalarmult_base (lr_ratchet rnd) :: contact_keys b c) /\
    Ratchet.have_cks sB = true /\ Ratchet.ns sB = 0.
Proof.
  intros Ha Hb Hm Hp Hk. destruct (session_opens a b c now Ha Hb Hm) as (hyb & sA0 & Ho & Hrecv & Hc & Hn & Hr).
  destruct (dm_received a b c s p hyb sA0 (me_pub b) out wr rnd Ha Hb Hp Hk Hrecv Hc Hn Hr)
    as (env & sA & sB & Hsend & Hrest).
  exists env, sA, sB. split; [|exact Hrest]. intros inbox.
  destruct (fetch_served b now rid peer inbox Hb) as [Hf Hid]. unfold first_dm, cbind at 1. rewrite Hf. unfold cbind at 1. rewrite Ho.
  cbn [fst snd]. unfold cbind. rewrite Hid, Hsend. reflexivity.
Qed.

(** The first message of a chain, to a session that has just installed it. *)
Lemma channel_first rnd_id rnd_key peer g text aad :
  length rnd_id = 16%nat -> length rnd_key = 32%nat ->
  exists msg gA gB,
    SenderKeys.encrypt (SenderKeys.create_own_send_chain g rnd_id rnd_key).2 text aad = Ok (msg, gA) /\
    SenderKeys.decrypt (SenderKeys.set_peer SenderKeys.new_session peer (SenderKeys.mkPerPeerChain rnd_id rnd_key 0 ∅))
      peer msg aad = (Some text, gB).
Proof.
  intros Hid Hkey. set (g1 := (SenderKeys.create_own_send_chain g rnd_id rnd_key).2).
  destruct (encrypt_all_spec g1 [(text, aad)]) as (ws & g' & Hws & Hget); [done|done|cbn; unfold_words; lia|].
  pose proof (deliver_genuine rnd_id rnd_key 0 peer [(text, aad)] ws [0%nat] ∅ 0
    (SenderKeys.mkPerPeerChain rnd_id rnd_key 0 ∅)
    (SenderKeys.set_peer SenderKeys.new_session peer (SenderKeys.mkPerPeerChain rnd_id rnd_key 0 ∅))
    Hid ltac:(lia) ltac:(unfold_words; lia) ltac:(cbn; lia) ltac:(lia) (chain_inv_init _ _ _) (lookup_insert_eq _ _ _) Hget
    ltac:(repeat constructor)) as Hd.
  cbn [encrypt_all] in Hws. destruct (SenderKeys.encrypt g1 text aad) as [[msg gA]|]; [|done].
  cbn in Hws. injection Hws as <- <-. exists msg, gA. cbn in Hd.
  destruct (SenderKeys.decrypt _ peer msg aad) as [o gB]. exists gB. split; [done|]. cbn in Hd. injection Hd as ->. done.
Qed.

(** *** What is sent is printed *)

Section modes.
Variables (a b : Me) (c : Contact) (s : Stamp) (now rid : Z) (peer : bytes) (rnds : nat -> ListenRnd).
Hypotheses (Ha : me_ok a) (Hb : me_ok b) (Hmeets : meets a b c).
Hypothesis Hnew : new_key (contact_keys b c) (lr_ratchet (rnds 0%nat)).

(** What a listener that receives one frame does. *)
Lemma listen_one call out wr f ev l :
  listen_frame b out wr (rnds 0%nat) new_listener (Got f) = (inr l, ev) ->
  listen_mode b call out wr rnds [Got f] =
    (inr l, (if call then [Line (str "MY-PUBKEY: " ++ to_hex (me_pub b))] else []) ++ ev, []).
Proof. intros E. unfold listen_mode. cbn [listen_loop]. by rewrite E, app_nil_r. Qed.

(** What one command-line client sends, another prints.  Bob has uploaded the bundle
    of his keys, with or without the post-quantum part, and the relay serves it to Alice.
    Her [--send], [--send-image] and [--send-roomkey] each send one envelope and succeed;
    Bob, who knows nothing of her, prints the text, saves the file and prints its name
    and size, prints the room key, from that envelope alone. *)
Theorem cli_messages_received (text path content out secret : bytes) (ttl epoch : Z)
    (Htext : utf8_valid text = true) (Httl : is_u64 ttl)
    (Hfile : content <> [] /\ Z.of_nat (length content) <= kMaxInlineAttachmentBytes /\ utf8_valid (basename path) = true)
    (Hout : out <> []) (Hepoch : is_u32 epoch) :
  (exists env l,
    send_mode a peer text ttl c s [served b now rid] = (inr tt, [Sent (FKeyFetch peer 0); Sent (FEnvelope env)], []) /\
    listen_mode b false out true rnds [Got (FEnvelope env)] =
      (inr l, [Sent (FUsernameLookup (me_pub a)); Line (str "MSG: " ++ text)], [])) /\
  (exists env l size,
    send_image_mode a peer path (Some content) c s [served b now rid] =
      (inr tt, [Sent (FKeyFetch peer 0); Sent (FEnvelope env); Line (str "IMG-SENT: " ++ basename path ++ str " " ++ size ++ str "B")], []) /\
    listen_mode b false out true rnds [Got (FEnvelope env)] =
      (inr l, [WroteFile out content;
               Line (str "IMG-RECEIVED: " ++ basename path ++ str " " ++ size ++ str "B mime=application/octet-stream")], [])) /\
  (exists env l,
    let printed := str "epoch=" ++ WebSocket.to_string epoch ++ str " secret=" ++ to_hex secret in
    send_roomkey_mode a peer epoch secret c s [served b now rid] =
      (inr tt, [Sent (FKeyFetch peer 0); Sent (FEnvelope env); Line (str "ROOMKEY-SENT: " ++ printed)], []) /\
    listen_mode b false out true rnds [Got (FEnvelope env)] = (inr l, [Line (str "ROOMKEY: " ++ printed)], [])).
Proof.
  split_and!.
  - destruct (first_dm_received a b c s now rid peer (mkDmPayload (BText text) [] [] ttl) out true (rnds 0%nat) Ha Hb Hmeets)
      as (env & sA & sB & Hs & He & Hl & _); [done|done|].
    eexists env, _. split.
    + unfold send_mode, text_payload, cbind. by rewrite Hs.
    + rewrite (listen_one false out true _ _ _ Hl). cbn [handle_payload dm_body]. by rewrite He.
  - destruct Hfile as (Hne & Hcap & Hu).
    destruct (first_dm_received a b c s now rid peer (dm_of (BAttachment (str "application/octet-stream") (basename path) content))
      out true (rnds 0%nat) Ha Hb Hmeets) as (env & sA & sB & Hs & He & Hl & _); [done|done|].
    eexists env, _, (WebSocket.to_string (Z.of_nat (length content))). split.
    + unfold send_image_mode. rewrite (bool_decide_eq_false_2 (content = [])) by done.
      destruct (Z.ltb_spec kMaxInlineAttachmentBytes (Z.of_nat (length content))); [lia|].
      unfold cbind, pack_attachment_payload. by rewrite Hs.
    + unfold handle_payload, dm_of in Hl. cbn [dm_body] in Hl.
      rewrite (bool_decide_eq_false_2 (out = [])) in Hl by done. by rewrite (listen_one false out true _ _ _ Hl).
  - destruct (first_dm_received a b c s now rid peer (dm_of (BRoomKey (replicate 32 Byte.x00) (u32 epoch) secret))
      out true (rnds 0%nat) Ha Hb Hmeets) as (env & sA & sB & Hs & He & Hl & _); [split; [apply is_u32_u32|done]|done|].
    eexists env, _. split.
    + unfold send_roomkey_mode, cbind. by rewrite Hs.
    + rewrite (u32_small epoch Hepoch) in Hl. by rewrite (listen_one false out true _ _ _ Hl).
Qed.

(** An invitation, then a message to the channel: the listener subscribes and prints both. *)
Lemma cli_invite_delivers (name text rnd_id rnd_key : bytes) (s2 : Stamp) :
  length rnd_id = 16%nat -> length rnd_key = 32%nat -> length (channel_id_from_name name) = 32%nat -> utf8_valid name = true ->
  exists env1 env2 l,
    channel_invite_mode a peer name text rnd_id rnd_key c s s2 [served b now rid] =
      (inr tt, [Sent (FKeyFetch peer 0); Sent (FChanSubscribe (channel_id_from_name name));
                Sent (FEnvelope env1); Sent (FEnvelope env2)], []) /\
    listen_mode b false [] false rnds [Got (FEnvelope env1); Got (FEnvelope env2)] =
      (inr l, [Sent (FChanSubscribe (channel_id_from_name name)); Line (str "INVITE: #" ++ name);
               Line (str "CHAN-MSG: " ++ text)], []) /\
    l_known l !! channel_id_from_name name = Some name.
Proof.
  intros Hid Hkey Hcid Hname. set (d := SenderKeys.mkSenderKeysDistribution rnd_id rnd_key 0).
  set (aad2 := envelope_aad_bytes (st_envid s2) (st_now s2)).
  assert (pb_parse (pb_serialize d) = Some d) as Hd
    by (apply pb_parse_serialize; unfold pb_ok, SenderKeys.skd_fields, d; cbn [SenderKeys.skd_start_index]; unfold_words; lia).
  destruct (session_opens a b c now Ha Hb Hmeets) as (hyb & sA0 & Ho & Hrecv & Hc & Hn & Hr).
  destruct (fetch_served b now rid peer [] Hb) as [Hf Hpk].
  destruct (dm_received a b c s (dm_of (BChannelKey (channel_id_from_name name) name d)) hyb sA0 (me_pub b) [] false (rnds 0%nat)
    Ha Hb) as (env1 & sA & sB & Hsend & He & Hl & _); [|done|done|done|done|done|].
  { split; [split; [done|]|done]. unfold d; cbn [SenderKeys.skd_start_index]. unfold_words. lia. }
  destruct (channel_first rnd_id rnd_key (me_pub a) SenderKeys.new_session text aad2 Hid Hkey) as (msg & gA & gB & Henc & Hdec).
  exists env1, (channel_envelope a (channel_id_from_name name) s2 msg).
  exists (mkListener (Some sB) gB (<[channel_id_from_name name := name]> ∅)). split; [|split].
  - unfold channel_invite_mode. unfold cbind at 1. rewrite Hf. unfold cbind at 1. rewrite Ho. cbn [fst snd].
    destruct (SenderKeys.create_own_send_chain SenderKeys.new_session rnd_id rnd_key) as [dist g] eqn:Ec.
    injection Ec as <- <-. unfold pack_channel_key_payload. fold d. rewrite Hd.
    unfold cbind at 1, send at 1, emit at 1. unfold cbind at 1. rewrite Hpk, Hsend.
    unfold send_channel, cbind, or_crash. fold aad2. cbn [SenderKeys.create_own_send_chain snd] in Henc. by rewrite Henc.
  - unfold listen_mode. cbn [listen_loop]. rewrite Hl. unfold handle_payload, dm_of. cbn [dm_body].
    rewrite Hcid. cbn [Nat.eqb negb l_group new_listener]. rewrite He.
    pose proof (install_created SenderKeys.new_session SenderKeys.new_session rnd_id rnd_key (me_pub a) Hid Hkey) as Hi.
    cbn [SenderKeys.create_own_send_chain fst] in Hi. fold d in Hi. rewrite Hi.
    unfold listen_frame. cbn [recipient channel_envelope sender_pubkey ciphertext env_aad l_group l_rat l_known].
    rewrite (proj1 (me_lengths a Ha)). fold aad2. rewrite Hdec.
    by replace (cli_aad_consistent _) with true by (symmetry; apply orb_true_iff; right; by apply bool_decide_eq_true_2).
  - apply lookup_insert_eq.
Qed.

(** Frames that are no envelope of a ratchet message: the relay's other frames, frames
    that do not parse, and envelopes whose ciphertext does not parse or has a header
    that is no key. *)
Definition no_ratchet_message (r : Recv) : bool :=
  match r with
  | Got (FEnvelope env) =>
      match pb_parse (M := Ratchet.RatchetMessage) (ciphertext env) with
      | None => true
      | Some m => negb (length (Ratchet.header_dh_pub m) =? Ratchet.k32)%nat
      end
  | _ => true
  end.

(** Such frames leave the wait as it was. *)
Lemma await_skips draws i rat junk rest :
  Forall (fun r => no_ratchet_message r = true) junk ->
  await_answer draws i rat (junk ++ rest) = await_answer draws (i + length junk) rat rest.
Proof.
  revert i. induction junk as [|r junk IH]; intros i Hj; [by rewrite Nat.add_0_r|].
  apply Forall_cons in Hj as [Hr Hj]. cbn [app await_answer length]. rewrite <- Nat.add_succ_comm, <- (IH (S i) Hj).
  destruct r as [| |[]]; try done. cbn [no_ratchet_message] in Hr. unfold Ratchet.decrypt.
  destruct (pb_parse _) as [m|]; [|done]. by rewrite Hr.
Qed.

(** C7: a call offer is answered.  Alice knows only Bob's public key, as he prints it; she
    looks up his name, fetches his bundle, sends an offer and waits.  From that envelope
    alone Bob prints the offer and answers over the session it opened.  Alice prints the
    answer and returns 0, also when frames that carry no ratchet message arrive before it
    ([no_ratchet_message]); a ratchet message of somebody else would go through the same
    session and is not covered. *)
Theorem cli_call_answered (text call_id out : bytes) (wr : bool) (draws : nat -> bytes) (junk : list Recv)
    (Hjunk : Forall (fun r => no_ratchet_message r = true) junk)
    (Hdraw : new_key (scalarmult_base (lr_ratchet (rnds 0%nat)) :: contact_keys b c) (draws (length junk))) :
  exists offer answer l,
    call_offer_mode a (to_hex (me_pub b)) text call_id c s draws
      (Got (FUsernameResp (me_pub b) peer true) :: served b now rid :: junk ++ [Got (FEnvelope answer)]) =
      (inr tt, [Sent (FUsernameLookup (me_pub b)); Sent (FKeyFetch peer 0); Sent (FEnvelope offer);
                Line (str "CALL-OFFER-SENT: " ++ text); Line (str "CALL-ANSWER: v=0 answer for " ++ text)], []) /\
    listen_mode b true out wr rnds [Got (FEnvelope offer)] =
      (inr l, [Line (str "MY-PUBKEY: " ++ to_hex (me_pub b)); Line (str "CALL-OFFER: " ++ text);
               Sent (FEnvelope answer); Line (str "CALL-ANSWER-SENT")], []).
Proof.
  set (m := mkMediaSignal call_id 1 text 0 [] []). set (am := mkMediaSignal call_id 2 (str "v=0 answer for " ++ text) 0 [] []).
  assert (forall k, 0 <= k < 3 -> pb_ok (dm_of (BMediaSignal (mkMediaSignal call_id k (ms_payload (if k =? 1 then m else am)) 0 [] [])))) as Hok.
  { intros k Hk. split; [split; [|split; [|constructor]]|]; cbn; unfold_words; lia. }
  destruct (first_dm_received a b c s now rid peer (dm_of (BMediaSignal m)) out wr (rnds 0%nat) Ha Hb Hmeets)
    as (offer & sA & sB & Hs & He & Hl & (w & Hr & Hn & Hp & Hu & HA & HB) & Hcb & Hnb); [apply (Hok 1); lia|done|].
  set (aad := envelope_aad_bytes (st_envid (lr_stamp (rnds 0%nat))) (st_now (lr_stamp (rnds 0%nat)))).
  destruct (encrypt_ready sB (pb_serialize (dm_of (BMediaSignal am))) aad Hcb) as (wire & sB' & Henc).
  destruct (message_passes true sB sA w _ _ aad wire sB' (draws (length junk)) Hr Hn Hp (eq_sym Hu) HB HA Hnb Henc Hdraw)
    as (sA' & w' & Hdec & _).
  set (answer := dm_envelope b (sender_pubkey offer) (lr_stamp (rnds 0%nat)) wire []).
  exists offer, answer, (mkListener (Some sB') SenderKeys.new_session ∅). split.
  - unfold call_offer_mode. rewrite cli_hex_roundtrip, (proj1 (me_lengths b Hb)). cbn [Nat.eqb negb].
    unfold cbind at 1. unfold lookup_username at 1, cbind at 1, send, emit, recv, cbind at 1. cbn [negb].
    unfold cret at 1, cbind at 1, signal_payload, pack_media_signal_payload. fold m. rewrite Hs. cbn [snd].
    unfold say, emit, cbind. rewrite (await_skips draws 0 sA junk _ Hjunk). cbn [await_answer Nat.add].
    unfold answer, dm_envelope. cbn [ciphertext env_aad]. fold aad. cbn [negb state_of] in Hdec. rewrite Hdec.
    rewrite pb_parse_serialize by (apply (Hok 2); lia). reflexivity.
  - assert (listen_frame b out wr (rnds 0%nat) new_listener (Got (FEnvelope offer)) =
      (inr (mkListener (Some sB') SenderKeys.new_session ∅),
       [Line (str "CALL-OFFER: " ++ text); Sent (FEnvelope answer); Line (str "CALL-ANSWER-SENT")])) as E.
    { rewrite Hl. unfold handle_payload, dm_of. cbn [dm_body ms_kind ms_payload ms_call_id m Z.eqb Pos.eqb].
      rewrite He, (proj1 (me_lengths a Ha)). cbn [Nat.eqb]. unfold signal_payload, pack_media_signal_payload. fold am aad.
      rewrite Henc. unfold answer. by rewrite He. }
    by rewrite (listen_one true out wr _ _ _ E).
Qed.
End modes.
End contact.

(** ** Where the program falls short *)

Section faults.
Context `{!Sodium, !Ed25519, !EdCurve, !PqCrypto, !KeyedBlake2b}.
Context `{!ProtoMsg Ratchet.RatchetMessage, !ProtoMsg SenderKeys.SenderKeysMessage}.
Context `{!ProtoMsg SenderKeys.SenderKeysDistribution, !ProtoMsg DmPayload}.

(** Every frame but the expected one ends a sending mode: a client with a message waiting
    at the relay reads it in place of the bundle, loses it and sends nothing. *)
Lemma waiting_message_aborts_send me peer text ttl c s env inbox :
  send_mode me peer text ttl c s (Got (FEnvelope env) :: inbox) = (inl (Return 6), [Sent (FKeyFetch peer 0)], inbox).
Proof. reflexivity. Qed.

(** Anyone who can have an envelope delivered ends a listener that has no session yet. *)
Lemma bad_ciphertext_crashes_listener me out wr rnd env to peer_x :
  recipient env = UserPubkey to -> length (sender_pubkey env) = 32%nat -> pk_to_curve25519 (sender_pubkey env) = Some peer_x ->
  pq_ct env <> [] -> length (pq_ct env) <> kMlKem768CtBytes ->
  listen_frame me out wr rnd new_listener (Got (FEnvelope env)) = (inl Crash, []).
Proof.
  intros Hto Hl Hx Hne Hct. unfold listen_frame, listen_session. rewrite Hto. cbn [l_rat new_listener].
  rewrite Hl, Hx. cbn [Nat.eqb negb]. unfold derive_hybrid_recv_from_env, derive_hybrid_recv.
  destruct (derive_shared_secret (me_x me) peer_x); cbn [rbind]; [|done].
  destruct (pq_ct env) as [|x l] eqn:E; [done|]. by rewrite (proj2 (Nat.eqb_neq _ _) Hct).
Qed.

(** Frames of one sender, on any channel. *)
Definition from_sender (x : bytes) (r : Recv) : Prop := exists env, r = Got (FEnvelope env) /\ sender_pubkey env = x.

Lemma unknown_sender_unread dist x g inbox :
  SenderKeys.peers g !! x = None -> Forall (from_sender x) inbox -> channel_listen_loop dist true g inbox = (inr tt, []).
Proof.
  intros Hg Hall. induction Hall as [|r inbox (env & -> & Hs) Hall IH]; [done|]. cbn [channel_listen_loop].
  destruct (recipient env); try done. destruct (negb (length (sender_pubkey env) =? 32)%nat); [done|].
  destruct (negb (cli_aad_consistent env)); [done|]. rewrite Hs. unfold SenderKeys.decrypt. rewrite Hg.
  destruct (pb_parse (ciphertext env)); [|by rewrite IH].
  destruct (negb _); by rewrite IH.
Qed.

(** The distribution read from the file is installed for whoever is heard first: after one
    envelope of anyone else, to any channel, no message of its owner is printed. *)
Theorem first_sender_takes_distribution (dist cid owner : bytes) (e : Envelope) (g : SenderKeys.GroupSession) (inbox : list Recv) :
  recipient e = ChannelGroupId cid -> length (sender_pubkey e) = 32%nat -> sender_pubkey e <> owner ->
  cli_aad_consistent e = false ->
  SenderKeys.install_peer_distribution SenderKeys.new_session (sender_pubkey e) dist = Ok g ->
  Forall (from_sender owner) inbox ->
  channel_listen_loop dist false SenderKeys.new_session (Got (FEnvelope e) :: inbox) = (inr tt, []).
Proof.
  intros Hr Hl Hne Ha Hi Hall. cbn [channel_listen_loop]. rewrite Hr, Hl, Hi, Ha. cbn [Nat.eqb negb].
  apply (unknown_sender_unread dist owner); [|done]. unfold SenderKeys.install_peer_distribution in Hi.
  destruct (pb_parse dist); [|done]. destruct (_ || _) in Hi; [done|]. injection Hi as <-.
  cbn [SenderKeys.set_peer SenderKeys.peers]. by rewrite lookup_insert_ne.
Qed.
End faults.
End Cli.

(** ** Two clients on concrete data *)

Module CliWitness.
Import Cli.

#[local] Instance toy_keyed_blake : KeyedBlake2b := fun n k b => take n (k ++ b ++ replicate n Byte.x00).

(** Alice has no post-quantum keys, Bob has. *)
Definition w_alice_me : Me := mkMe (w_identity 5) (w_x 5) None.
Definition w_bob_me : Me := mkMe (w_identity 11) (w_x 11) (Some (w_pq 11, w_pqs 11)).
Definition w_contact : Contact := mkContact (be_bytes 32 77) (be_bytes 32 21).
Definition w_rnds (i : nat) : ListenRnd := mkListenRnd (be_bytes 32 (500 + Z.of_nat i)) (mkStamp (be_bytes 16 9) 1001).
Definition w_stamp : Stamp := mkStamp (be_bytes 16 8) 1000.

Lemma w_alice_ok : me_ok w_alice_me.
Proof. split; [reflexivity|]. exists (be_bytes 32 5), false. vm_compute. reflexivity. Qed.
Lemma w_bob_ok : me_ok w_bob_me.
Proof. split; [reflexivity|]. exists (be_bytes 32 11), true. vm_compute. reflexivity. Qed.

Lemma w_meets : meets w_alice_me w_bob_me w_contact.
Proof.
  split.
  - apply (bool_decide_eq_true_1 (is_Some _)). vm_compute. reflexivity.
  - apply (bool_decide_eq_true_1 (is_Some _)). vm_compute. reflexivity.
  - intros pq pqs _. eexists. reflexivity.
  - apply (bool_decide_eq_false_1 (_ = _)). vm_compute. reflexivity.
Qed.

(** Deciding [new_key]. *)
Lemma w_new_key keys rnd :
  forallb (fun p => negb (bool_decide (scalarmult_base rnd = p)) && bool_decide (is_Some (scalarmult rnd p))) keys = true ->
  new_key keys rnd.
Proof.
  intros E. apply Forall_forall. intros p Hp. rewrite forallb_forall in E. apply list_elem_of_In in Hp.
  specialize (E p Hp). apply andb_prop in E as [E1 E2]. apply negb_true_iff, bool_decide_eq_false in E1.
  by apply bool_decide_eq_true in E2.
Qed.

(** An envelope that carries three bytes. *)
Definition w_garbage : Recv := Got (FEnvelope (dm_envelope w_bob_me (me_pub w_alice_me) w_stamp (str "???") [])).

Lemma cli_call_answered_witness :
  exists offer answer l,
    call_offer_mode w_alice_me (to_hex (me_pub w_bob_me)) (str "sdp") (be_bytes 16 3) w_contact w_stamp (fun i => be_bytes 32 (900 + Z.of_nat i))
      [Got (FUsernameResp (me_pub w_bob_me) (str "bob") true); served w_bob_me 7 0; Unparsable; w_garbage; Got (FEnvelope answer)] =
      (inr tt, [Sent (FUsernameLookup (me_pub w_bob_me)); Sent (FKeyFetch (str "bob") 0); Sent (FEnvelope offer);
                Line (str "CALL-OFFER-SENT: sdp"); Line (str "CALL-ANSWER: v=0 answer for sdp")], []) /\
    listen_mode w_bob_me true [] false w_rnds [Got (FEnvelope offer)] =
      (inr l, [Line (str "MY-PUBKEY: " ++ to_hex (me_pub w_bob_me)); Line (str "CALL-OFFER: sdp");
               Sent (FEnvelope answer); Line (str "CALL-ANSWER-SENT")], []).
Proof.
  apply (cli_call_answered w_alice_me w_bob_me w_contact w_stamp 7 0 (str "bob") w_rnds w_alice_ok w_bob_ok w_meets) with (junk := [Unparsable; w_garbage]).
  - apply w_new_key. vm_compute. reflexivity.
  - by repeat constructor.
  - apply w_new_key. vm_compute. reflexivity.
Defined.
End CliWitness.
